(* ===== verification/_CoqProject ===== *)
-Q . S2P
Prelude.v
Config.v
Lifecycle.v
Buffers.v
History.v
Input.v
Fanout.v
Store.v
Manager.v
ManagerOutput.v
Recovery.v
ManagerSessions.v
ManagerTheorems.v
ManagerFindings.v
Wire.v
Binary.v
Terminal.v
TerminalTheorems.v
NativeProto.v
Frame.v
Negotiation.v
StoreOperations.v
Journal.v
JournalTheorems.v
Canonical.v
StoreTransfers.v
FileTransfer.v
FileTransferTheorems.v
FileTransferUpload.v
Writers.v
Base64.v
Paths.v
Auth.v
AuthTheorems.v
Jwks.v
Credential.v
Versions.v
Trust.v
Update.v
UpdateTheorems.v
Launcher.v
Streams.v
Server.v
ServerTheorems.v
Dispatcher.v
DispatcherTheorems.v
Preview.v
PreviewControl.v
PreviewTheorems.v
Connector.v
ConnectorTheorems.v
Reconcile.v
Runtime.v
Publisher.v
CommitGraph.v
ConfigControl.v
FileTree.v
ApplyJournal.v
Engine.v
Hosted.v
TransferHttp.v
HostService.v
Manifest.v
