(* ===== verification/Prelude.v ===== *)
(** * paperboat-helper: verification library

    The helper runs beside a workspace.  Clients reach it through an edge connection
    ([internal/connector]), over WebSocket or a native protocol ([internal/protocol],
    [internal/nativeproto]); the server ([internal/server]) authorizes each request against
    a signed credential ([internal/auth]), runs it once through the journal of operations
    ([internal/operation]) and hands it to the dispatcher, which works on shell sessions
    ([internal/session], [internal/history], [internal/store], [internal/process]), file
    transfers ([internal/filetransfer]) and previews ([internal/preview]).  Beside this run
    configuration sync ([internal/configsync]) and signed updates ([internal/update]).

    ** Method

    The Go code is translated into total functions on explicit state.  A Go struct is a
    [Record] with a prefix per type, an enumeration an [Inductive], a map a [gmap], a slice
    a [list], an integer a [Z] with its wrap-around written out ([u64_add], [wrap_i64]), an
    instant the nanoseconds since 1970.  A function that returns an error returns [result].
    A function under one lock is one definition; one that gives its lock up (a dial, a
    probe, a read of a body, a handler) is split there, and a step relation interleaves its
    parts with everything else.  What comes from outside is an argument: clocks, random
    bytes, the outcome of each system call, database failure before or after commit, the
    answers of remote services.  Libraries that are not in the repository (SHA-256,
    Ed25519, Zstandard, JSON, parsers of URLs and addresses) are classes or function
    arguments; where a theorem relies on them, their laws are named hypotheses or classes
    ([TrustLaws], [UpdateLaws], the Zstandard laws of [Terminal]) with an instance in the
    witness.  Maps that Go ranges over in any order are given an arbitrary order where the
    result could depend on it.

    ** Files, by part

    - Sessions.  [Lifecycle] is session/state.go.  [Buffers] is the pool of reference-counted
      buffers as an explicit heap and [History] the bounded history on it (history.go).
      [Input] is session/input.go, [Fanout] session/fanout.go, [Store] the session, output
      and input tables of store/store.go.  [Manager] is session/manager.go: every method,
      and the goroutines that capture output, persist it and close, as steps;
      [ManagerOutput], [ManagerSessions], [Recovery], [ManagerTheorems] hold its invariants
      and theorems, [ManagerFindings] runs that end badly.
    - Operations and files.  [Journal] and [StoreOperations] are operation/journal.go with its
      table; [Canonical] is about the hash of a request.  [StoreTransfers] is the transfer
      table, [FileTransfer] filetransfer/service.go on an explicit directory with inodes,
      [Writers] filetransfer/writers.go.
    - Wire.  [Wire], [Binary], [Terminal], [Frame], [Negotiation] are internal/protocol,
      [NativeProto] is internal/nativeproto, [Base64] the encoding of tokens.
    - Authentication.  [Auth] is verifier.go, replay.go and revocations.go, [Jwks] is jwks.go,
      [Credential] server/credential.go with runtime/static_auth.go.
    - Server.  [Streams] and [Server] are server/server.go (terminal streams; handshake, loop,
      life of a request), [Dispatcher] is server/dispatcher.go on [Launcher]
      (process/launcher.go), [Paths] the path functions of Go on rooted paths.
    - Previews.  [Preview] is registry.go, monitor.go and proxy.go, [PreviewControl] the
      reporter, sender, credential source, control client and agent endpoint, and the
      preview requests of the dispatcher.
    - Connector.  [Connector] is manager.go, admission_source.go, racing.go, runid.go and the
      decisions of supervisor.go and frp.go.
    - Updates.  [Versions], [Trust] and [Update] are internal/update.
    - Configuration.  [Config] is config/config.go.  [Reconcile] is the plan of configsync/reconcile.go with
      its baselines.
        ** What the theorems show

    - Requests: a handler runs only for an authorized request of a negotiated capability, is
      answered once, never stuck, within the limit ([handler_runs_authorized],
      [request_answered_once], [requests_drain], [requests_bounded]).
    - Credentials: only what is signed and bound is accepted, single-use ones once, revoked
      ones no more, not even on streams that are open ([verify_sound], [credential_single_use],
      [authorization_sound], [trusted_keys_exact], [revoked_stream_refused]).  A credential of
      a session reaches no other ([session_confined]), a shell starts in the workspace with a
      known environment ([cwd_exact], [launch_environment_exact]).
    - Sessions: the manager is consistent in every interleaving with every failure of the
      database ([manager_sessions_consistent], [manager_buffers_safe], [store_invariant]);
      output reaches every attached client without gap or repeat ([fanout_delivers_output],
      [manager_capture_publishes], [manager_attach_succeeds], [history_append_refines_log]);
      input is written at most once and in order ([input_at_most_once], [stream_calls_exact]);
      recovery restores what is stored, exactly when it can ([recovery_exact],
      [recovery_succeeds_iff]).
    - Operations and files: an operation runs once ([operation_runs_once]), a file that can be
      read has the declared content ([served_content_verified], [upload_roundtrip],
      [transfer_life]).
    - Wire: exact codecs ([binary_read_exact], [terminal_messages_canonical],
      [terminal_output_roundtrip], [zstd_frame_size_exact], [negotiate_exact]).
    - Previews and connector: what is public is a probed loopback port
      ([preview_forward_probed], [agent_list_reconciles], [reports_drain]), admissions are
      bound and connections accounted for ([admission_bound], [connections_accounted]).
    - Updates and configuration: trust moves forward, an update survives any one failure,
      reconciliation converges ([trust_moves_forward], [update_survives_failure],
      [reconcile_converges]).
    - Runs that end badly are [Example]s, each by evaluation, beside the component.

    ** Bounds and fuel

    Recursion is structural wherever the loop is over a list.  Fuel is used in [writeAll]
    and the readers of [Wire] (the bytes left to write or read, at most one step per byte),
    in [zstdFrameSize] (the bytes of the payload), in the walk of [Frame] and [decodeValue]
    (the tokens left, twice), in [sort_Search] and [insertEvent] of [Fanout] (the length of the
    ring) and in [find_id] (2^32 - 1 attempts, as in the code); the lemmas about them show
    that it never runs out or that running out is the code's own limit.  [preview_forward_probed] counts the
    steps: the revision of a record wraps around after 2^64 of them.

    ** Assumptions

    A definition is atomic where the code holds a lock, and where it only calls code that
    does.  Clocks may do anything unless a theorem says that they do not go back.  Goroutines
    that only sleep or forward are left out.  Paths are rooted and without symbolic links.

    ** Not modelled

    Sockets, HTTP servers and clients, tickers, metrics and logs; pseudo terminals and
    processes (internal/pty), whose outcomes are inputs; Git and chezmoi and the remote
    parts of internal/configsync; the FRP library; installation, host service and
    availability (internal/hostinstall, internal/hostservice, internal/service,
    internal/availability), which are calls of the operating system; internal/enrollment and
    internal/identity, HTTP and key files; the wiring of internal/runtime and the command line. *)

From Corelib Require Export Init.Byte.
From Stdlib Require Export Ascii ZArith Lia.
From stdpp Require Export base tactics gmap strings list fin_maps sorting numbers.
Export stdpp.list_basics.list stdpp.list_relations.list stdpp.list_monad.list.

#[global] Open Scope Z_scope.

(** ** Results: a Go function returning [(T, error)] *)

Inductive result (E A : Type) : Type :=
| Ok (a : A)
| Err (e : E).
Arguments Ok {E A} a.
Arguments Err {E A} e.

Declare Scope res_scope.
Delimit Scope res_scope with res.

(** The early return [if err != nil { return ..., err }]. *)
Notation "'let?' p := m 'in' k" :=
  (match m with Ok p => k | Err e => Err e end)
  (at level 10, p pattern, m at level 200, k at level 200) : res_scope.
#[global] Open Scope res_scope.

Definition is_ok {E A} (r : result E A) : bool :=
  match r with Ok _ => true | Err _ => false end.

#[global] Instance result_eq_dec {E A} `{EqDecision E, EqDecision A} :
  EqDecision (result E A).
Proof. solve_decision. Defined.

(** ** Slices, lengths and machine integers *)

(** Go's [len] on a slice, as an integer. *)
Abbreviation len l := (Z.of_nat (length l)) (only parsing).

(** [l[a:b]] for indices already known to be in range. *)
Definition slice {A} (l : list A) (a b : Z) : list A :=
  take (Z.to_nat (b - a)) (drop (Z.to_nat a) l).

Definition two16 : Z := 65536.
Definition two32 : Z := 4294967296.
Definition two63 : Z := 9223372036854775808.
Definition two64 : Z := 18446744073709551616.
Definition max_uint64 : Z := 18446744073709551615.

(** Unsigned 64-bit addition and subtraction wrap around. *)
Definition u64_add (a b : Z) : Z := (a + b) mod two64.
Definition u64_sub (a b : Z) : Z := (a - b) mod two64.

Definition u64_ok (z : Z) : Prop := 0 <= z < two64.

(** Instants: nanoseconds since the Unix epoch.  [zero_time] is [time.Time{}],
    the start of year 1, which [IsZero] recognises. *)
Abbreviation time := Z (only parsing).
Definition zero_time : time := -62135596800 * 1000000000.
Definition is_zero_time (t : time) : bool := bool_decide (t = zero_time).

(** ** Bytes and big-endian integers ([encoding/binary.BigEndian]) *)

#[global] Instance byte_eq_decision : EqDecision byte := Byte.byte_eq_dec.

Definition byte_val (b : byte) : Z := Z.of_N (Byte.to_N b).

Definition byte_of (z : Z) : byte :=
  match Byte.of_N (Z.to_N (z mod 256)) with Some b => b | None => x00 end.

(** [PutUintN] with [n] bytes, most significant first. *)
Fixpoint be_put (n : nat) (z : Z) : list byte :=
  match n with
  | O => []
  | S n' => be_put n' (z / 256) ++ [byte_of z]
  end.

(** [UintN]: the value of the bytes, most significant first. *)
Definition be_get (l : list byte) : Z :=
  fold_left (fun acc b => acc * 256 + byte_val b) l 0.

(** ** Strings in byte order *)

Fixpoint string_leb (s1 s2 : string) : bool :=
  match s1, s2 with
  | EmptyString, _ => true
  | String _ _, EmptyString => false
  | String c1 r1, String c2 r2 =>
      let n1 := nat_of_ascii c1 in
      let n2 := nat_of_ascii c2 in
      if (n1 <? n2)%nat then true else if (n2 <? n1)%nat then false else string_leb r1 r2
  end.

Definition string_le (s1 s2 : string) : Prop := string_leb s1 s2 = true.

#[global] Instance string_le_dec s1 s2 : Decision (string_le s1 s2).
Proof. unfold string_le. apply _. Defined.

(** ** Hexadecimal text ([encoding/hex]) *)

Definition hex_digit (z : Z) : ascii :=
  ascii_of_nat (Z.to_nat (if decide (z < 10) then 48 + z else 87 + z)).
Definition hex_EncodeToString (l : list byte) : string :=
  String.string_of_list_ascii (concat ((fun b => [hex_digit (byte_val b / 16); hex_digit (byte_val b mod 16)]) <$> l)).

(** ** Automation *)

Create HintDb pb.
Create Rewrite HintDb pblen.

#[export] Hint Rewrite @length_app @length_take @length_drop @length_insert
  @length_fmap @length_cons @length_nil : pblen.

(** Case analysis on the guards of a modelled function: one goal per branch,
    with the guard as a proposition in the context. *)
Ltac split_guard :=
  match goal with
  | |- context [if decide ?P then _ else _] => destruct (decide P)
  | H : context [if decide ?P then _ else _] |- _ => destruct (decide P)
  end.

Ltac split_guards := repeat (split_guard; simplify_eq/=).

Ltac u64 := unfold u64_ok, u64_add, u64_sub, two64, max_uint64 in *.

Lemma pair_decompose {A B C} (x : A * B * C) : x = (x.1.1, x.1.2, x.2).
Proof. by destruct x as [[? ?] ?]. Qed.

(** ** Lemmas on machine integers *)

Lemma u64_add_small (a b : Z) : 0 <= a -> 0 <= b -> a + b < two64 -> u64_add a b = a + b.
Proof. u64. intros. apply Z.mod_small. lia. Qed.

Lemma u64_sub_small (a b : Z) : 0 <= b <= a -> a < two64 -> u64_sub a b = a - b.
Proof. u64. intros. apply Z.mod_small. lia. Qed.

Lemma u64_add_range (a b : Z) : u64_ok (u64_add a b).
Proof. u64. apply Z.mod_pos_bound. lia. Qed.

Lemma u64_sub_range (a b : Z) : u64_ok (u64_sub a b).
Proof. u64. apply Z.mod_pos_bound. lia. Qed.

#[export] Hint Resolve u64_add_range u64_sub_range : pb.

(** ** Lemmas on bytes *)

Lemma byte_val_range b : 0 <= byte_val b < 256.
Proof. unfold byte_val. pose proof (Byte.to_N_bounded b). lia. Qed.

Lemma byte_val_of (z : Z) : byte_val (byte_of z) = z mod 256.
Proof.
  unfold byte_val, byte_of.
  pose proof (Z.mod_pos_bound z 256 ltac:(lia)) as Hb.
  destruct (Byte.of_N (Z.to_N (z mod 256))) as [b|] eqn:E.
  - apply Byte.to_of_N in E. rewrite E. lia.
  - apply Byte.of_N_None_iff in E. lia.
Qed.

Lemma byte_of_val b : byte_of (byte_val b) = b.
Proof.
  unfold byte_of. rewrite Z.mod_small by apply byte_val_range.
  unfold byte_val. by rewrite N2Z.id, Byte.of_to_N.
Qed.

Lemma byte_val_inj b1 b2 : byte_val b1 = byte_val b2 -> b1 = b2.
Proof. intros H. by rewrite <- (byte_of_val b1), H, byte_of_val. Qed.

Lemma length_be_put n z : length (be_put n z) = n.
Proof. revert z. induction n; intros z; simpl; [done|]. rewrite length_app, IHn. simpl. lia. Qed.
#[export] Hint Rewrite length_be_put : pblen.

Lemma be_get_app l1 l2 : be_get (l1 ++ l2) = be_get l1 * 256 ^ len l2 + be_get l2.
Proof.
  unfold be_get. rewrite fold_left_app.
  generalize (fold_left (fun acc b => acc * 256 + byte_val b) l1 0) as a. intros a.
  induction l2 as [|b l2 IH] using rev_ind; [simpl; lia|].
  rewrite !fold_left_app, IH, length_app. simpl.
  replace (Z.of_nat (length l2 + 1)) with (Z.of_nat (length l2) + 1) by lia.
  rewrite Z.pow_add_r by lia. lia.
Qed.

Lemma be_get_put n z : be_get (be_put n z) = z mod 256 ^ Z.of_nat n.
Proof.
  revert z. induction n as [|n IH]; intros z.
  - cbn. by rewrite Z.mod_1_r.
  - cbn [be_put]. rewrite be_get_app, IH.
    change (be_get [byte_of z]) with (0 * 256 + byte_val (byte_of z)).
    rewrite byte_val_of. cbn [length].
    replace (Z.of_nat (S n)) with (1 + Z.of_nat n) by lia.
    rewrite Z.pow_add_r, !Z.pow_1_r by lia.
    rewrite (Z.rem_mul_r z 256) by lia. lia.
Qed.

Lemma be_get_put_small n z : 0 <= z < 256 ^ Z.of_nat n -> be_get (be_put n z) = z.
Proof. intros. rewrite be_get_put. by apply Z.mod_small. Qed.

Lemma be_get_range l : 0 <= be_get l < 256 ^ len l.
Proof.
  induction l as [|b l IH] using rev_ind; [cbn; lia|].
  rewrite be_get_app, length_app. cbn [length].
  change (be_get [b]) with (0 * 256 + byte_val b). pose proof (byte_val_range b).
  replace (Z.of_nat (length l + 1)) with (Z.of_nat (length l) + 1) by lia.
  rewrite Z.pow_add_r, Z.pow_1_r by lia. lia.
Qed.

Lemma be_put_get l : be_put (length l) (be_get l) = l.
Proof.
  induction l as [|b l IH] using rev_ind; [done|].
  rewrite be_get_app, length_app. cbn [length].
  change (be_get [b]) with (0 * 256 + byte_val b). pose proof (byte_val_range b).
  rewrite Z.pow_1_r. rewrite Nat.add_comm. cbn [be_put Nat.add].
  f_equal.
  - replace ((be_get l * 256 + (0 * 256 + byte_val b)) / 256) with (be_get l); [done|].
    apply (Z.div_unique _ _ _ (byte_val b)); lia.
  - f_equal. rewrite <- (byte_of_val b) at 2. apply byte_val_inj.
    rewrite !byte_val_of. replace (_ + _) with (byte_val b + be_get l * 256) by lia.
    by rewrite Z.mod_add by lia.
Qed.

(** ** Lemmas on slices *)

Lemma length_slice {A} (l : list A) a b :
  0 <= a -> a <= b -> b <= len l -> len (slice l a b) = b - a.
Proof. intros. unfold slice. rewrite length_take, length_drop. lia. Qed.

Lemma slice_full {A} (l : list A) : slice l 0 (len l) = l.
Proof. unfold slice. rewrite Z.sub_0_r, Nat2Z.id. simpl. apply firstn_all. Qed.

Lemma slice_app_l {A} (l1 l2 : list A) a b :
  0 <= a -> b <= len l1 -> slice (l1 ++ l2) a b = slice l1 a b.
Proof.
  intros. unfold slice. destruct (decide (b <= a)).
  - by replace (Z.to_nat (b - a)) with O by lia.
  - rewrite drop_app_le by lia. rewrite take_app_le by (rewrite length_drop; lia). done.
Qed.

Lemma take_take_drop_app {A} (l : list A) n m :
  take n l ++ take m (drop n l) = take (n + m) l.
Proof.
  revert l. induction n as [|n IH]; intros [|x l]; simpl; try done.
  - by rewrite take_nil.
  - by rewrite IH.
Qed.

Lemma slice_split {A} (l : list A) a b c :
  0 <= a <= b -> b <= c -> slice l a b ++ slice l b c = slice l a c.
Proof.
  intros. unfold slice.
  replace (drop (Z.to_nat b) l) with (drop (Z.to_nat (b - a)) (drop (Z.to_nat a) l))
    by (rewrite drop_drop; f_equal; lia).
  rewrite take_take_drop_app. f_equal. lia.
Qed.

Lemma slice_app_r {A} (l1 l2 : list A) a b :
  len l1 <= a -> slice (l1 ++ l2) a b = slice l2 (a - len l1) (b - len l1).
Proof.
  intros. unfold slice. rewrite drop_app_ge by lia.
  replace (Z.to_nat a - length l1)%nat with (Z.to_nat (a - len l1)) by lia.
  f_equal. lia.
Qed.

Lemma slice_empty {A} (l : list A) a b : b <= a -> slice l a b = [].
Proof. intros. unfold slice. by replace (Z.to_nat (b - a)) with O by lia. Qed.

Lemma slice_nil {A} a b : slice (@nil A) a b = [].
Proof. unfold slice. by rewrite drop_nil, take_nil. Qed.

Lemma slice_all {A} (l : list A) b : len l <= b -> slice l 0 b = l.
Proof. intros. unfold slice. simpl. apply take_ge. lia. Qed.

Lemma slice_app_both {A} (d c : list A) a b :
  0 <= a <= len d -> len d <= b ->
  slice d a (len d) ++ slice c 0 (b - len d) = slice (d ++ c) a b.
Proof.
  intros. rewrite <- (slice_split _ a (len d) b) by lia. rewrite slice_app_l by lia. f_equal.
  rewrite slice_app_r by lia. f_equal. lia.
Qed.

Lemma slice_slice {A} (l : list A) a b c d :
  0 <= a -> 0 <= c -> d <= b - a -> slice (slice l a b) c d = slice l (a + c) (a + d).
Proof.
  intros. unfold slice. rewrite skipn_firstn_comm, drop_drop, take_take.
  f_equal; [lia|]. f_equal. lia.
Qed.

Lemma lookup_slice {A} (l : list A) a b i :
  0 <= a -> 0 <= i < b - a -> slice l a b !! Z.to_nat i = l !! Z.to_nat (a + i).
Proof.
  intros. unfold slice. rewrite lookup_take_lt by lia. rewrite lookup_drop. f_equal. lia.
Qed.

(** ** Lemmas on strings *)

#[global] Instance string_le_total : Total string_le.
Proof.
  intros s1. unfold string_le. induction s1 as [|c1 s1 IH]; intros [|c2 s2]; simpl; auto.
  destruct (Nat.ltb_spec (nat_of_ascii c1) (nat_of_ascii c2)), (Nat.ltb_spec (nat_of_ascii c2) (nat_of_ascii c1));
    auto; lia.
Qed.

#[global] Instance string_le_trans : Transitive string_le.
Proof.
  intros s1. unfold string_le. induction s1 as [|c1 s1 IH]; intros [|c2 s2] [|c3 s3]; simpl; try done.
  destruct (Nat.ltb_spec (nat_of_ascii c1) (nat_of_ascii c2)), (Nat.ltb_spec (nat_of_ascii c2) (nat_of_ascii c1)),
    (Nat.ltb_spec (nat_of_ascii c2) (nat_of_ascii c3)), (Nat.ltb_spec (nat_of_ascii c3) (nat_of_ascii c2)),
    (Nat.ltb_spec (nat_of_ascii c1) (nat_of_ascii c3)), (Nat.ltb_spec (nat_of_ascii c3) (nat_of_ascii c1));
    try done; try lia. apply IH.
Qed.

#[global] Instance string_le_antisymm : AntiSymm (=) string_le.
Proof.
  intros s1. unfold string_le. induction s1 as [|c1 s1 IH]; intros [|c2 s2]; simpl; try done.
  destruct (Nat.ltb_spec (nat_of_ascii c1) (nat_of_ascii c2)), (Nat.ltb_spec (nat_of_ascii c2) (nat_of_ascii c1));
    try done; try lia. intros H1 H2. f_equal; [|auto].
  rewrite <- (ascii_nat_embedding c1), <- (ascii_nat_embedding c2). f_equal. lia.
Qed.

Lemma append_inv (s1 s2 t1 t2 : string) :
  String.length s1 = String.length s2 -> s1 +:+ t1 = s2 +:+ t2 -> s1 = s2 /\ t1 = t2.
Proof.
  revert s2. induction s1 as [|a s1 IH]; intros [|b s2]; simpl; try done.
  intros [= Hl] [= -> H]. destruct (IH _ Hl H) as [-> ->]. done.
Qed.

Lemma length_hex l : String.length (hex_EncodeToString l) = (2 * length l)%nat.
Proof.
  unfold hex_EncodeToString. induction l as [|b l IH]; [done|]. cbn [fmap list_fmap concat app String.string_of_list_ascii String.length length].
  rewrite IH. lia.
Qed.

(** ** Step relations *)

(** An invariant that every step preserves holds in every reachable state. *)
Lemma rtc_invariant {A} (R : A -> A -> Prop) (P : A -> Prop) :
  (forall x y, R x y -> P x -> P y) -> forall x y, rtc R x y -> P x -> P y.
Proof. intros HR x y H. induction H as [|x y z Hs _ IH]; [done|]. intros Hx. apply IH. by apply (HR x). Qed.

Lemma StronglySorted_lookup {A} (R : relation A) l : StronglySorted R l -> forall i k x y,
  (i < k)%nat -> l !! i = Some x -> l !! k = Some y -> R x y.
Proof.
  induction 1 as [|a l Hl IH Ha]; intros i k x y Hik Hi Hk; [done|].
  destruct k as [|k]; [lia|]. simpl in Hk. destruct i as [|i]; simpl in Hi.
  - injection Hi as <-. rewrite Forall_forall in Ha. by eapply Ha, list_elem_of_lookup_2.
  - eapply IH; [|done..]. lia.
Qed.

Lemma elem_of_rev {A} (x : A) (l : list A) : x ∈ rev l <-> x ∈ l.
Proof. by rewrite !list_elem_of_In, <- in_rev. Qed.
