(* ===== verification/Config.v ===== *)
(** * Helper configuration ([internal/config/config.go])

    Profiles, protocol limits and resource limits with their defaults, and the
    validation of a configuration.  The environment lookup and the platform's
    state-root rule are arguments of [FromEnv]. *)

From S2P Require Import Prelude.

(** [Profile] is a Go string type. *)
Inductive Profile := Hosted | BYOD | OtherProfile (s : string).

#[global] Instance Profile_eq_dec : EqDecision Profile.
Proof. solve_decision. Defined.

Definition Profile_of_string (s : string) : Profile :=
  if decide (s = "hosted") then Hosted else if decide (s = "byod") then BYOD else OtherProfile s.

(** Durations are nanoseconds. *)
Definition second : Z := 1000000000.
Definition minute : Z := 60 * second.

Record Limits := mkLimits {
  StructuredFrameBytes : Z;
  TerminalFrameBytes : Z;
  PendingOutputBytes : Z;
  HeartbeatInterval : Z;
  PeerTimeout : Z;
  MutationDeadline : Z
}.

Definition DefaultLimits : Limits :=
  mkLimits (Z.shiftl 64 10) (Z.shiftl 256 10) (Z.shiftl 1 20) (15 * second) (45 * second) (5 * minute).

Record ResourceLimits := mkResources {
  MaxSessions : Z;
  MaxAttachments : Z;
  MaxInputDecisions : Z;
  HistoryBytes : Z;
  MaxConcurrentTransfers : Z;
  MaxPreviewTargets : Z;
  MaxConcurrentProbes : Z;
  MaxConcurrentOps : Z
}.

#[global] Instance ResourceLimits_eq_dec : EqDecision ResourceLimits.
Proof. solve_decision. Defined.

Definition zero_Resources : ResourceLimits := mkResources 0 0 0 0 0 0 0 0.
Definition DefaultResources : ResourceLimits :=
  mkResources 64 16 10000 (Z.shiftl 64 10) 2 20 8 32.

Record Config := mkConfig {
  cfg_Profile : Profile;
  cfg_StateRoot : string;
  cfg_Version : string;
  cfg_Limits : Limits;
  cfg_Resources : ResourceLimits
}.

Inductive config_error := ErrInvalid | ErrStateRoot.

(** [filepath.IsAbs] on Unix. *)
Definition IsAbs (p : string) : bool :=
  match p with String.String "/"%char _ => true | _ => false end.

Definition limits_bad (l : Limits) : Prop :=
  StructuredFrameBytes l = 0 \/ StructuredFrameBytes DefaultLimits < StructuredFrameBytes l
  \/ TerminalFrameBytes l = 0 \/ TerminalFrameBytes DefaultLimits < TerminalFrameBytes l
  \/ PendingOutputBytes l = 0 \/ PendingOutputBytes DefaultLimits < PendingOutputBytes l
  \/ HeartbeatInterval l <= 0 \/ PeerTimeout l < HeartbeatInterval l
  \/ MutationDeadline l <= 0 \/ MutationDeadline DefaultLimits < MutationDeadline l.

#[global] Instance limits_bad_dec l : Decision (limits_bad l).
Proof. unfold limits_bad. apply _. Defined.

Definition resources_bad (r : ResourceLimits) : Prop :=
  MaxSessions r < 1 \/ 256 < MaxSessions r \/ MaxAttachments r < 1 \/ 64 < MaxAttachments r
  \/ MaxInputDecisions r < 1 \/ 100000 < MaxInputDecisions r
  \/ HistoryBytes r < 1 \/ Z.shiftl 64 20 < HistoryBytes r
  \/ MaxConcurrentTransfers r < 1 \/ 16 < MaxConcurrentTransfers r
  \/ MaxPreviewTargets r < 1 \/ 20 < MaxPreviewTargets r
  \/ MaxConcurrentProbes r < 1 \/ 64 < MaxConcurrentProbes r
  \/ MaxConcurrentOps r < 1 \/ 256 < MaxConcurrentOps r.

#[global] Instance resources_bad_dec r : Decision (resources_bad r).
Proof. unfold resources_bad. apply _. Defined.

Definition Validate (c : Config) : result config_error unit :=
  if decide (cfg_Profile c <> Hosted /\ cfg_Profile c <> BYOD) then Err ErrInvalid
  else if decide (cfg_StateRoot c = "" \/ IsAbs (cfg_StateRoot c) = false) then Err ErrInvalid
  else if decide (cfg_Version c = "") then Err ErrInvalid
  else if decide (limits_bad (cfg_Limits c)) then Err ErrInvalid
  else
    let resources := if decide (cfg_Resources c = zero_Resources) then DefaultResources
                     else cfg_Resources c in
    if decide (resources_bad resources) then Err ErrInvalid else Ok tt.

(** [environ] is the environment lookup, [DefaultStateRoot] the platform's rule.  Go
    returns the configuration together with the validation error. *)
Definition FromEnv (DefaultStateRoot : (string -> string) -> result config_error string)
    (version : string) (environ : string -> string) : result config_error (Config * result config_error unit) :=
  let profile := Profile_of_string (environ "PAPERBOAT_HELPER_PROFILE") in
  let profile := if decide (profile = OtherProfile "") then BYOD else profile in
  let finish root :=
    let c := mkConfig profile root version DefaultLimits DefaultResources in Ok (c, Validate c) in
  if decide (environ "PAPERBOAT_HELPER_STATE_ROOT" = "") then
    let? root := DefaultStateRoot environ in finish root
  else finish (environ "PAPERBOAT_HELPER_STATE_ROOT").

(** ** Theorems *)

(** The defaults lie inside the bounds that [Validate] enforces. *)
Lemma Validate_defaults profile root version :
  profile = Hosted \/ profile = BYOD -> IsAbs root = true -> version <> "" ->
  Validate (mkConfig profile root version DefaultLimits DefaultResources) = Ok tt.
Proof.
  intros Hp Hr Hv. unfold Validate; simpl. rewrite decide_False by naive_solver.
  rewrite decide_False by (intros [->|?]; [done|congruence]).
  rewrite decide_False by done. done.
Qed.
