(* ===== verification/Lifecycle.v ===== *)
(** * Session and attachment state machines ([internal/session/state.go])

    [State] and [AttachmentState] with their transition tables, the [Lifecycle]
    object (state plus process generation) with [NewLifecycle],
    [RecoverLifecycle] and [Transition], and the [Attachment] object.  The
    theorems describe every lifecycle that a sequence of [Transition] calls can
    reach: the generation counts process starts, and which reachable
    lifecycles [RecoverLifecycle] accepts back from durable storage. *)

From S2P Require Import Prelude.

(** ** Session states *)

(** [State] is a Go string type; [OtherState] stands for the strings that are
    none of the declared constants. *)
Inductive State :=
| Creating | Running | Exited | Restarting | Closing | Closed | Deleted
| OtherState (s : string).

#[global] Instance State_eq_dec : EqDecision State.
Proof. solve_decision. Defined.

Definition State_string (s : State) : string :=
  match s with
  | Creating => "creating" | Running => "running" | Exited => "exited"
  | Restarting => "restarting" | Closing => "closing" | Closed => "closed"
  | Deleted => "deleted" | OtherState s => s
  end.

(** The conversion [State(text)], normalised to the declared constants. *)
Definition State_of_string (s : string) : State :=
  if decide (s = "creating") then Creating
  else if decide (s = "running") then Running
  else if decide (s = "exited") then Exited
  else if decide (s = "restarting") then Restarting
  else if decide (s = "closing") then Closing
  else if decide (s = "closed") then Closed
  else if decide (s = "deleted") then Deleted
  else OtherState s.

(** The table [transitions]: [None] for a state that is not a key. *)
Definition transitions (s : State) : option (list State) :=
  match s with
  | Creating => Some [Running; Exited; Closed]
  | Running => Some [Exited; Closing; Restarting]
  | Exited => Some [Restarting; Closing; Deleted]
  | Restarting => Some [Running; Exited; Closed]
  | Closing => Some [Closed]
  | Closed => Some [Restarting; Deleted]
  | Deleted => Some []
  | OtherState _ => None
  end.

(** [transitions[from][to]], with a missing key reading as [false]. *)
Definition transition_allowed (from to : State) : bool :=
  match transitions from with
  | Some l => bool_decide (to ∈ l)
  | None => false
  end.

Inductive lifecycle_error := ErrInvalidTransition.

#[global] Instance lifecycle_error_eq_dec : EqDecision lifecycle_error.
Proof. solve_decision. Defined.

Record Lifecycle := mkLifecycle { lc_state : State; lc_generation : Z }.

#[global] Instance Lifecycle_eq_dec : EqDecision Lifecycle.
Proof. solve_decision. Defined.

Definition NewLifecycle : Lifecycle := mkLifecycle Creating 0.

Definition RecoverLifecycle (state : State) (generation : Z) : result lifecycle_error Lifecycle :=
  if decide (transitions state = None
             \/ state = Creating /\ generation <> 0
             \/ (state = Running \/ state = Exited \/ state = Restarting \/ state = Closing)
                /\ generation = 0)
  then Err ErrInvalidTransition
  else Ok (mkLifecycle state generation).

Definition Transition (l : Lifecycle) (to : State) : result lifecycle_error Lifecycle :=
  if transition_allowed (lc_state l) to then
    let generation :=
      if decide (to = Running /\ (lc_state l = Creating \/ lc_state l = Restarting))
      then u64_add (lc_generation l) 1 else lc_generation l in
    Ok (mkLifecycle to generation)
  else Err ErrInvalidTransition.

(** ** Attachment states *)

Inductive AttachmentState := Attaching | Attached | Detached | Evicted.

#[global] Instance AttachmentState_eq_dec : EqDecision AttachmentState.
Proof. solve_decision. Defined.

Definition attachmentTransitions (s : AttachmentState) : list AttachmentState :=
  match s with
  | Attaching => [Attached; Detached; Evicted]
  | Attached => [Detached; Evicted]
  | Detached => []
  | Evicted => []
  end.

Definition NewAttachment : AttachmentState := Attaching.

Definition Attachment_Transition (a to : AttachmentState) : result lifecycle_error AttachmentState :=
  if decide (to ∈ attachmentTransitions a) then Ok to else Err ErrInvalidTransition.

(** ** Sequences of transitions *)

(** One successful [Transition] call. *)
Definition lc_step (l l' : Lifecycle) : Prop := exists to, Transition l to = Ok l'.

(** A sequence of [Transition] calls, stopping at the first refused one. *)
Fixpoint lc_run (l : Lifecycle) (tos : list State) : result lifecycle_error Lifecycle :=
  match tos with
  | [] => Ok l
  | to :: tos' => let? l' := Transition l to in lc_run l' tos'
  end.

(** How many of the requested transitions start a process. *)
Definition starts (tos : list State) : Z := len (filter (fun s => s = Running) tos).

(** What every lifecycle started by [NewLifecycle] satisfies: generation 0 while
    the first process has not started, a positive one while a process runs. *)
Definition lc_reachable_inv (l : Lifecycle) : Prop :=
  u64_ok (lc_generation l)
  /\ (lc_state l = Creating -> lc_generation l = 0)
  /\ (lc_state l = Running -> 0 < lc_generation l)
  /\ (forall s, lc_state l <> OtherState s).

(** ** Theorems *)

Lemma State_of_string_inv s : State_string (State_of_string s) = s.
Proof. unfold State_of_string. repeat case_decide; by subst. Qed.

Lemma State_of_string_known s : State_of_string (State_string s) = s \/ exists t, s = OtherState t.
Proof. destruct s; [left; reflexivity..|right; eauto]. Qed.

Lemma Transition_ok l to l' :
  Transition l to = Ok l' ->
  transition_allowed (lc_state l) to = true /\ lc_state l' = to
  /\ lc_generation l' = (if decide (to = Running) then u64_add (lc_generation l) 1
                         else lc_generation l).
Proof.
  unfold Transition. destruct (transition_allowed (lc_state l) to) eqn:E; [|done].
  intros [= <-]. simpl. split_and!; [done..|].
  destruct (decide (to = Running)) as [->|]; [|rewrite decide_False; naive_solver].
  rewrite decide_True; [done|]. split; [done|].
  destruct (lc_state l); vm_compute in E; auto; done.
Qed.

Lemma Transition_err l to :
  transition_allowed (lc_state l) to = false -> Transition l to = Err ErrInvalidTransition.
Proof. unfold Transition. by intros ->. Qed.

Lemma lc_step_generation l l' :
  lc_step l l' -> u64_ok (lc_generation l) -> lc_generation l + 1 < two64 ->
  lc_generation l <= lc_generation l' <= lc_generation l + 1 /\ u64_ok (lc_generation l').
Proof.
  intros [to Hto] Hok Hlt. apply Transition_ok in Hto as (_ & _ & ->).
  case_decide; [|unfold u64_ok in *; lia].
  rewrite u64_add_small; unfold u64_ok in *; lia.
Qed.

Lemma lc_step_inv l l' :
  lc_step l l' -> lc_reachable_inv l -> lc_generation l + 1 < two64 -> lc_reachable_inv l'.
Proof.
  intros Hstep (Hok & Hc & Hr & Ho) Hlt.
  destruct (lc_step_generation _ _ Hstep Hok Hlt) as [Hg Hok'].
  destruct Hstep as [to Hto]. apply Transition_ok in Hto as (Hall & Hst & Hgen).
  split_and!; [done| | |].
  - intros E. rewrite <- Hst, E in Hall. exfalso.
    destruct (lc_state l); vm_compute in Hall; done.
  - intros E. rewrite <- Hst, E in Hgen.
    rewrite Hgen, decide_True by done. unfold u64_ok in Hok. rewrite u64_add_small; lia.
  - intros s E. rewrite <- Hst, E in Hall. destruct (lc_state l); vm_compute in Hall; done.
Qed.

Lemma lc_run_snoc l tos to l' :
  lc_run l (tos ++ [to]) = Ok l' ->
  exists m, lc_run l tos = Ok m /\ Transition m to = Ok l'.
Proof.
  revert l. induction tos as [|t tos IH]; intros l; simpl.
  - destruct (Transition l to) eqn:E; [|done]. intros [= <-]. eauto.
  - destruct (Transition l t); [apply IH|done].
Qed.

Lemma starts_snoc tos to :
  starts (tos ++ [to]) = starts tos + (if decide (to = Running) then 1 else 0).
Proof.
  unfold starts. rewrite filter_app, length_app, filter_cons, filter_nil.
  case_decide; simpl; lia.
Qed.

Lemma starts_le tos : 0 <= starts tos <= len tos.
Proof. unfold starts. pose proof (length_filter (fun s => s = Running) tos). lia. Qed.

Lemma lc_run_inv tos l :
  lc_run NewLifecycle tos = Ok l -> len tos < two64 ->
  lc_reachable_inv l /\ lc_generation l = starts tos.
Proof.
  revert l. induction tos as [|to tos IH] using rev_ind; intros l Hrun Hlen.
  - injection Hrun as <-. split; [|done].
    unfold lc_reachable_inv, u64_ok, two64; simpl. split_and!; [lia..|done|done|done].
  - apply lc_run_snoc in Hrun as (m & Hrun & Hstep).
    rewrite length_app in Hlen. simpl in Hlen. pose proof (starts_le tos).
    destruct (IH m Hrun ltac:(lia)) as [Hinv Hg].
    split; [eapply lc_step_inv; [by eexists|done|lia]|].
    apply Transition_ok in Hstep as (_ & _ & ->). rewrite starts_snoc.
    case_decide; [rewrite u64_add_small|]; lia.
Qed.

(** The generation of a lifecycle that started at [NewLifecycle] is the number
    of transitions into [Running] that were made, it is 0 before the first start
    and positive while a process runs: two runs of the same session never share a
    generation (for fewer than 2^64 transitions). *)
Theorem lifecycle_generation_counts_starts (tos : list State) (l : Lifecycle) :
  lc_run NewLifecycle tos = Ok l -> len tos < two64 ->
  lc_generation l = starts tos
  /\ (lc_state l = Creating -> lc_generation l = 0)
  /\ (lc_state l = Running -> 0 < lc_generation l)
  /\ lc_state l = List.last tos Creating.
Proof.
  intros Hrun Hlen. destruct (lc_run_inv _ _ Hrun Hlen) as [(_ & Hc & Hr & _) Hg].
  split_and!; [done..|].
  destruct tos as [|to tos _] using rev_ind; [by injection Hrun as <-|].
  rewrite last_last. apply lc_run_snoc in Hrun as (m & _ & Hstep).
  by apply Transition_ok in Hstep as (_ & -> & _).
Qed.

Lemma lifecycle_generation_counts_starts_witness :
  exists l, lc_run NewLifecycle [Running; Exited; Restarting; Running] = Ok l
            /\ lc_generation l = 2 /\ lc_state l = Running.
Proof.
  eexists. split; [vm_compute; reflexivity|].
  destruct (lifecycle_generation_counts_starts [Running; Exited; Restarting; Running]
              (mkLifecycle Running 2)) as (Hg & _ & _ & Hs);
    [vm_compute; reflexivity|vm_compute; reflexivity|].
  split; [rewrite Hg; vm_compute; reflexivity|rewrite Hs; reflexivity].
Defined.

(** What [RecoverLifecycle] accepts of the reachable lifecycles: exactly those
    with a positive generation, or at rest in [Creating], [Closed] or [Deleted].
    A session that was closed before its first start and is being restarted
    (generation 0, [Restarting]) is reachable and refused. *)
Theorem lifecycle_recoverable (tos : list State) (l : Lifecycle) :
  lc_run NewLifecycle tos = Ok l -> len tos < two64 ->
  (RecoverLifecycle (lc_state l) (lc_generation l) = Ok l
   <-> 0 < lc_generation l \/ lc_state l = Creating \/ lc_state l = Closed \/ lc_state l = Deleted).
Proof.
  intros Hrun Hlen. destruct (lc_run_inv _ _ Hrun Hlen) as [(Hok & Hc & Hr & Ho) Hg].
  unfold u64_ok in Hok. destruct l as [s g]; unfold RecoverLifecycle; simpl in *.
  case_decide as D; split; intros H; [done|exfalso| |done].
  - destruct D as [D | [[-> D] | [D E]]].
    + destruct s; try done. by eapply Ho.
    + auto.
    + destruct H as [H | [-> | [-> | ->]]]; [lia|naive_solver..].
  - destruct (decide (g = 0)) as [->|]; [right|left; lia].
    destruct s; naive_solver.
Qed.

Lemma lifecycle_recoverable_witness :
  RecoverLifecycle Restarting 0 <> Ok (mkLifecycle Restarting 0)
  /\ lc_run NewLifecycle [Closed; Restarting] = Ok (mkLifecycle Restarting 0).
Proof.
  split; [|vm_compute; reflexivity]. intros H.
  pose proof (proj1 (lifecycle_recoverable [Closed; Restarting] (mkLifecycle Restarting 0)
                       ltac:(vm_compute; reflexivity) ltac:(vm_compute; reflexivity)) H) as D.
  simpl in D. destruct D as [D|[D|[D|D]]]; discriminate D.
Defined.
