(* ===== verification/Buffers.v ===== *)
(** * Shared output buffers ([internal/history/history.go], ownership part)

    Output chunks are shared between the retained history, the fan-out ring and
    the consumers through reference-counted [ownedBuffer] objects, which return to
    a [sync.Pool] when the last reference is released.  The heap of these objects
    is explicit here; [accounted] states that every count is exact, and the
    lemmas show that [Retain], [Release] and the allocation in [appendOwned]
    keep it exact, so a buffer that is still referenced is never recycled. *)

From S2P Require Import Prelude.

Record Event := mkEvent {
  ev_Channel : byte;
  ev_StartSequence : Z;
  ev_EndSequence : Z;
  ev_Data : list byte;
  ev_owner : option positive
}.

#[global] Instance Event_eq_dec : EqDecision Event.
Proof. solve_decision. Defined.

(** [Event{}] *)
Definition zero_Event : Event := mkEvent x00 0 0 [] None.

Definition PooledBufferSize : Z := 32768.

Record ownedBuffer := mkOwned {
  ob_data : list byte;
  ob_cap : Z;       (* capacity of the backing array, which [ReleaseBuffer] tests *)
  ob_refs : Z;
  ob_pool : bool
}.

(** The [ownedBuffer] objects, the objects lying in [ownerPool], the number of
    byte arrays lying in [bufferPool], and the next object never allocated. *)
Record heap := mkHeap {
  hp_owners : gmap positive ownedBuffer;
  hp_ownerPool : list positive;
  hp_bufferPool : Z;
  hp_next : positive
}.

Definition empty_heap : heap := mkHeap ∅ [] 0 1%positive.

Definition ReleaseBuffer (h : heap) (cap : Z) : heap :=
  if decide (cap = PooledBufferSize)
  then mkHeap (hp_owners h) (hp_ownerPool h) (hp_bufferPool h + 1) (hp_next h)
  else h.

(** [ownerPool.Get()]: the pool may hand out any object it holds ([pick]) or a new one. *)
Definition ownerPool_Get (h : heap) (pick : option positive) : positive * heap :=
  match pick with
  | Some l =>
      if decide (l ∈ hp_ownerPool h)
      then (l, mkHeap (hp_owners h) (list_difference (hp_ownerPool h) [l])
                      (hp_bufferPool h) (hp_next h))
      else (hp_next h, mkHeap (hp_owners h) (hp_ownerPool h) (hp_bufferPool h) (Pos.succ (hp_next h)))
  | None =>
      (hp_next h, mkHeap (hp_owners h) (hp_ownerPool h) (hp_bufferPool h) (Pos.succ (hp_next h)))
  end.

(** The assignments [owner.data = data; owner.pool = pooled; owner.refs.Store(refs)]
    on the object the pool returned. *)
Definition new_owner (h : heap) (pick : option positive) (data : list byte) (cap : Z)
    (pooled : bool) (refs : Z) : positive * heap :=
  let '(l, h1) := ownerPool_Get h pick in
  (l, mkHeap (<[l := mkOwned data cap refs pooled]> (hp_owners h1)) (hp_ownerPool h1)
             (hp_bufferPool h1) (hp_next h1)).

Definition Retain (h : heap) (e : Event) : heap :=
  match ev_owner e with
  | None => h
  | Some l =>
      mkHeap (alter (fun ob => mkOwned (ob_data ob) (ob_cap ob) (ob_refs ob + 1) (ob_pool ob)) l
                (hp_owners h))
             (hp_ownerPool h) (hp_bufferPool h) (hp_next h)
  end.

Definition Release (h : heap) (e : Event) : heap :=
  match ev_owner e with
  | None => h
  | Some l =>
      match hp_owners h !! l with
      | None => h
      | Some ob =>
          if decide (ob_refs ob - 1 = 0) then
            let h1 := if ob_pool ob then ReleaseBuffer h (ob_cap ob) else h in
            mkHeap (<[l := mkOwned [] 0 0 false]> (hp_owners h1)) (l :: hp_ownerPool h1)
                   (hp_bufferPool h1) (hp_next h1)
          else
            mkHeap (<[l := mkOwned (ob_data ob) (ob_cap ob) (ob_refs ob - 1) (ob_pool ob)]>
                      (hp_owners h))
                   (hp_ownerPool h) (hp_bufferPool h) (hp_next h)
      end
  end.

(** [for _, event := range events { event.Release() }] *)
Definition ReleaseAll (h : heap) (es : list Event) : heap := fold_left Release es h.

Definition cloneEvent (e : Event) : Event :=
  mkEvent (ev_Channel e) (ev_StartSequence e) (ev_EndSequence e) (ev_Data e) None.

(** ** Exact accounting *)

Definition refs_of (h : heap) (l : positive) : Z :=
  match hp_owners h !! l with Some ob => ob_refs ob | None => 0 end.

(** How many references in [R] go to the object [l]. *)
Definition cnt (l : positive) (R : list Event) : Z :=
  len (filter (fun e => ev_owner e = Some l) R).

(** The bytes of the event are part of the bytes its owner holds. *)
Definition backed (h : heap) (e : Event) : Prop :=
  match ev_owner e with
  | None => True
  | Some l => exists ob pre post,
      hp_owners h !! l = Some ob /\ ob_data ob = pre ++ ev_Data e ++ post
  end.

(** [R] lists every reference the program holds. *)
Record accounted (h : heap) (R : list Event) : Prop := {
  acc_refs : forall l, refs_of h l = cnt l R;
  acc_pool : forall l, l ∈ hp_ownerPool h -> refs_of h l = 0;
  acc_nodup : NoDup (hp_ownerPool h);
  acc_next : forall l, is_Some (hp_owners h !! l) -> (l < hp_next h)%positive;
  acc_pool_next : forall l, l ∈ hp_ownerPool h -> (l < hp_next h)%positive;
  acc_backed : forall e, e ∈ R -> backed h e
}.

(** ** Lemmas *)

Lemma cnt_cons l e R : cnt l (e :: R) = (if decide (ev_owner e = Some l) then 1 else 0) + cnt l R.
Proof. unfold cnt. rewrite filter_cons. case_decide; simpl; lia. Qed.

Lemma cnt_app l R1 R2 : cnt l (R1 ++ R2) = cnt l R1 + cnt l R2.
Proof. unfold cnt. rewrite filter_app, length_app. lia. Qed.

Lemma cnt_nonneg l R : 0 <= cnt l R.
Proof. unfold cnt. lia. Qed.

Lemma cnt_perm l R R' : R ≡ₚ R' -> cnt l R = cnt l R'.
Proof. intros H. unfold cnt. by rewrite H. Qed.

Lemma cnt_elem l e R : e ∈ R -> ev_owner e = Some l -> 0 < cnt l R.
Proof.
  intros He Ho. apply list_elem_of_split in He as (R1 & R2 & ->).
  rewrite cnt_app, cnt_cons, decide_True by done.
  pose proof (cnt_nonneg l R1). pose proof (cnt_nonneg l R2). lia.
Qed.

Lemma accounted_perm h R R' : R ≡ₚ R' -> accounted h R -> accounted h R'.
Proof.
  intros HP []. constructor; try done.
  - intros l. by rewrite <- (cnt_perm l _ _ HP).
  - intros e He. apply acc_backed0. by rewrite HP.
Qed.

#[global] Instance accounted_Proper : Proper (eq ==> (≡ₚ) ==> iff) accounted.
Proof. intros h ? <- R R' HP. split; by apply accounted_perm. Qed.

Lemma accounted_empty : accounted empty_heap [].
Proof.
  constructor; simpl; try set_solver.
  - constructor.
  - intros l [? H]. by rewrite lookup_empty in H.
Qed.

(** A referenced object is live: its count is positive and it is not in the pool. *)
Lemma accounted_live h R e l :
  accounted h R -> e ∈ R -> ev_owner e = Some l ->
  0 < refs_of h l /\ (l ∉ hp_ownerPool h) /\ is_Some (hp_owners h !! l).
Proof.
  intros [] He Ho. pose proof (cnt_elem _ _ _ He Ho) as Hc. rewrite <- acc_refs0 in Hc.
  split_and!; [done|intros Hl; apply acc_pool0 in Hl; lia|].
  unfold refs_of in Hc. destruct (hp_owners h !! l); [eauto|lia].
Qed.

(** Overwriting one object. *)
Definition upd (h : heap) (l : positive) (ob : ownedBuffer) : heap :=
  mkHeap (<[l := ob]> (hp_owners h)) (hp_ownerPool h) (hp_bufferPool h) (hp_next h).

Lemma refs_of_upd h l ob k :
  refs_of (upd h l ob) k = if decide (l = k) then ob_refs ob else refs_of h k.
Proof. unfold refs_of, upd; simpl. rewrite lookup_insert. by case_decide. Qed.

Lemma backed_upd h l ob ob' e :
  hp_owners h !! l = Some ob -> ob_data ob' = ob_data ob -> backed h e -> backed (upd h l ob') e.
Proof.
  unfold backed, upd. destruct (ev_owner e) as [k|]; [|done]. simpl.
  intros Hl Hd (o & pre & post & H1 & H2). rewrite lookup_insert. case_decide; subst.
  - exists ob', pre, post. split; [done|]. simplify_eq. congruence.
  - by exists o, pre, post.
Qed.

Lemma backed_upd_ne h l ob e : ev_owner e <> Some l -> backed h e -> backed (upd h l ob) e.
Proof.
  unfold backed, upd. destruct (ev_owner e) as [k|]; [|done]. simpl.
  intros Hne (o & pre & post & H1 & H2). rewrite lookup_insert_ne by congruence.
  by exists o, pre, post.
Qed.

Lemma backed_owner_data h e e' :
  ev_owner e = ev_owner e' -> ev_Data e = ev_Data e' -> backed h e -> backed h e'.
Proof. unfold backed. by intros <- <-. Qed.

(** A part of a backed event, under the same owner, is backed. *)
Lemma backed_part h e e' a b :
  backed h e -> ev_owner e' = ev_owner e -> ev_Data e' = slice (ev_Data e) a b -> backed h e'.
Proof.
  unfold backed. intros Hb -> ->. destruct (ev_owner e) as [l|]; [|done].
  destruct Hb as (ob & pre & post & H1 & H2). unfold slice.
  set (d := ev_Data e) in *. set (x := Z.to_nat a). set (y := Z.to_nat (b - a)).
  exists ob, (pre ++ take x d), (drop y (drop x d) ++ post). split; [done|].
  rewrite H2, <- (take_drop x d) at 1. rewrite <- (take_drop y (drop x d)) at 1.
  by rewrite <- !app_assoc.
Qed.

(** Retaining a reference [e'] that shares the owner of a live reference. *)
Lemma accounted_Retain h R e e' :
  accounted h R -> e ∈ R -> ev_owner e' = ev_owner e -> backed h e' ->
  accounted (Retain h e) (e' :: R).
Proof.
  intros HA He Ho Hb. unfold Retain. destruct (ev_owner e) as [l|] eqn:El.
  - destruct (accounted_live _ _ _ _ HA He El) as (_ & Hnp & [ob Hob]).
    destruct HA as [Hr Hp Hn Hx Hpx Hbk].
    set (ob' := mkOwned (ob_data ob) (ob_cap ob) (ob_refs ob + 1) (ob_pool ob)).
    replace (alter _ l (hp_owners h)) with (<[l := ob']> (hp_owners h))
      by (apply map_eq; intros k; rewrite lookup_insert, lookup_alter;
          case_decide; subst; [by rewrite Hob|done]).
    change (accounted (upd h l ob') (e' :: R)).
    assert (Hl : refs_of h l = ob_refs ob) by (unfold refs_of; by rewrite Hob).
    constructor; simpl.
    + intros k. rewrite refs_of_upd, cnt_cons, Ho. simpl.
      repeat case_decide; simplify_eq; rewrite <- Hr; lia.
    + intros k Hk. rewrite refs_of_upd. case_decide; [by subst|auto].
    + done.
    + intros k. rewrite lookup_insert. case_decide; [subst; intros; apply Hx; by rewrite Hob|auto].
    + done.
    + intros x [->|Hx']%elem_of_cons; eapply backed_upd; eauto.
  - destruct HA as [Hr Hp Hn Hx Hpx Hbk]. constructor; try done.
    + intros k. rewrite cnt_cons, Ho, Hr. case_decide; [done|lia].
    + intros x [->|?]%elem_of_cons; auto.
Qed.

(** Dropping one held reference. *)
Lemma accounted_Release h R e :
  accounted h (e :: R) -> accounted (Release h e) R.
Proof.
  intros HA. unfold Release. destruct (ev_owner e) as [l|] eqn:El.
  - destruct (accounted_live _ _ e l HA ltac:(set_solver) El) as (Hpos & Hnp & [ob Hob]).
    destruct HA as [Hr Hp Hn Hx Hpx Hbk]. rewrite Hob.
    assert (Hl : refs_of h l = ob_refs ob) by (unfold refs_of; by rewrite Hob).
    assert (Hcl : cnt l R = ob_refs ob - 1).
    { specialize (Hr l). rewrite cnt_cons, El, decide_True in Hr by done. lia. }
    assert (Hck : forall k, l <> k -> refs_of h k = cnt k R).
    { intros k Hk. rewrite Hr, cnt_cons, El. case_decide; [congruence|lia]. }
    assert (Hnx : forall k, is_Some (<[l := ob]> (hp_owners h) !! k) -> (k < hp_next h)%positive).
    { intros k. rewrite insert_id by done. apply Hx. }
    case_decide as Hz.
    + set (h1 := if ob_pool ob then ReleaseBuffer h (ob_cap ob) else h).
      assert (H1 : hp_owners h1 = hp_owners h /\ hp_ownerPool h1 = hp_ownerPool h
                   /\ hp_next h1 = hp_next h).
      { unfold h1, ReleaseBuffer. by repeat case_match. }
      destruct H1 as (Ho1 & Hp1 & Hn1). rewrite Ho1, Hp1, Hn1.
      constructor; unfold refs_of; simpl.
      * intros k. rewrite lookup_insert. case_decide; subst; simpl; [lia|by apply Hck].
      * intros k Hk. rewrite lookup_insert. case_decide; [done|].
        apply elem_of_cons in Hk as [->|Hk]; [done|by apply Hp].
      * by constructor.
      * intros k. rewrite lookup_insert. case_decide; [subst; intros; apply Hx; by rewrite Hob|auto].
      * intros k [->|Hk]%elem_of_cons; [apply Hx; by rewrite Hob|auto].
      * intros x Hxin. assert (ev_owner x <> Some l) as Hne.
        { intros E. pose proof (cnt_elem l x R Hxin E). lia. }
        pose proof (backed_upd_ne h l (mkOwned [] 0 0 false) x Hne (Hbk x ltac:(set_solver))) as B.
        unfold backed in *. by destruct (ev_owner x).
    + set (ob' := mkOwned (ob_data ob) (ob_cap ob) (ob_refs ob - 1) (ob_pool ob)).
      change (accounted (upd h l ob') R). constructor; simpl.
      * intros k. rewrite refs_of_upd. case_decide; [subst; simpl; lia|by apply Hck].
      * intros k Hk. rewrite refs_of_upd. case_decide; [by subst|auto].
      * done.
      * intros k. rewrite lookup_insert. case_decide; [subst; intros; apply Hx; by rewrite Hob|auto].
      * done.
      * intros x Hxin. eapply backed_upd; eauto. apply Hbk. set_solver.
  - destruct HA as [Hr Hp Hn Hx Hpx Hbk]. constructor; try done.
    + intros k. rewrite Hr, cnt_cons, El. case_decide; [done|lia].
    + intros x Hxin. apply Hbk. set_solver.
Qed.

Lemma accounted_ReleaseAll h es R :
  accounted h (es ++ R) -> accounted (ReleaseAll h es) R.
Proof.
  revert h. induction es as [|e es IH]; intros h; simpl; [done|].
  intros HA. apply IH. by apply accounted_Release.
Qed.

Lemma ownerPool_Get_spec h R pick l h1 :
  accounted h R -> ownerPool_Get h pick = (l, h1) ->
  cnt l R = 0 /\ (l ∉ hp_ownerPool h1) /\ (l < hp_next h1)%positive
  /\ hp_owners h1 = hp_owners h /\ accounted h1 R.
Proof.
  intros HA Hget. pose proof HA as [Hr Hp Hn Hx Hpx Hbk].
  assert (Hfresh : cnt (hp_next h) R = 0).
  { rewrite <- Hr. unfold refs_of. destruct (hp_owners h !! hp_next h) eqn:E; [|done].
    specialize (Hx _ ltac:(by rewrite E)). lia. }
  assert (HA' : accounted (mkHeap (hp_owners h) (hp_ownerPool h) (hp_bufferPool h)
                                  (Pos.succ (hp_next h))) R).
  { constructor; simpl; try done; intros k Hk;
      [specialize (Hx k Hk)|specialize (Hpx k Hk)]; lia. }
  assert (Hnp : hp_next h ∉ hp_ownerPool h) by (intros Hk; specialize (Hpx _ Hk); lia).
  unfold ownerPool_Get in Hget. destruct pick as [k|]; [case_decide as Hk|];
    simplify_eq/=; [|split_and!; [done|done|lia|done|done]..].
  rewrite <- Hr. split_and!; [by apply Hp| |by apply Hpx|done|].
  - rewrite list_elem_of_difference. set_solver.
  - constructor; simpl; try done.
    + intros x Hxi. apply list_elem_of_difference in Hxi as [Hxi _]. by apply Hp.
    + by apply NoDup_list_difference.
    + intros x Hxi. apply list_elem_of_difference in Hxi as [Hxi _]. by apply Hpx.
Qed.

(** Allocation: the new object is referenced by the events [es]. *)
Lemma accounted_new_owner h R pick data cap pooled es l h' :
  accounted h R ->
  new_owner h pick data cap pooled (len es) = (l, h') ->
  Forall (fun e => ev_owner e = Some l /\ ev_Data e = data) es ->
  accounted h' (es ++ R).
Proof.
  intros HA Hnew Hes. unfold new_owner in Hnew.
  destruct (ownerPool_Get h pick) as [k h1] eqn:Hget. simplify_eq.
  destruct (ownerPool_Get_spec _ _ _ _ _ HA Hget) as (Hc & Hnp & Hlt & Ho & HA1).
  destruct HA1 as [Hr Hp Hn Hx Hpx Hbk].
  change (accounted (upd h1 l (mkOwned data cap (len es) pooled)) (es ++ R)).
  assert (Hcnt : forall k, cnt k es = if decide (l = k) then len es else 0).
  { intros k. clear -Hes. induction Hes as [|e es [He _] _ IH]; [by case_decide|].
    rewrite cnt_cons, IH, He. simpl. repeat case_decide; simplify_eq; lia. }
  constructor; simpl.
  - intros k. rewrite refs_of_upd, cnt_app, Hcnt. simpl.
    case_decide; [subst; lia|]. rewrite Hr. lia.
  - intros k Hk. rewrite refs_of_upd. case_decide; [by subst|auto].
  - done.
  - intros k. rewrite lookup_insert. case_decide; [by subst|auto].
  - done.
  - intros x [Hxe|Hxr]%elem_of_app.
    + rewrite Forall_forall in Hes. destruct (Hes x Hxe) as [E1 E2].
      unfold backed. rewrite E1. exists (mkOwned data cap (len es) pooled), [], [].
      simpl. rewrite lookup_insert_eq, E2, app_nil_r. done.
    + apply backed_upd_ne; [|by apply Hbk].
      intros E. pose proof (cnt_elem l x R Hxr E). lia.
Qed.

Lemma accounted_ReleaseBuffer h R cap : accounted h R -> accounted (ReleaseBuffer h cap) R.
Proof. intros []. unfold ReleaseBuffer. case_decide; by constructor. Qed.

Lemma accounted_unowned h R es :
  Forall (fun e => ev_owner e = None) es -> accounted h R -> accounted h (es ++ R).
Proof.
  intros Hes. induction Hes as [|e es He _ IH]; [done|]. intros HA.
  destruct (IH HA) as [Hr Hp Hn Hx Hpx Hbk]. constructor; try done; simpl.
  - intros k. rewrite cnt_cons, He, Hr. by rewrite decide_False.
  - intros x [->|?]%elem_of_cons; [|auto]. unfold backed. by rewrite He.
Qed.
