(* ===== verification/History.v ===== *)
(** * Retained output history ([internal/history/history.go])

    [History] keeps the newest bytes of a session's output as a queue of
    contiguous, immutable chunks, addressed by an absolute 64-bit sequence.  The
    definitions thread the buffer heap of [Buffers] through every operation.  The
    specification is a [Log]: the absolute end of the stream and the retained
    chunks; [view] abstracts a [History] to it, and the theorems show that the
    operations on well-formed histories implement the log operations, that
    replay returns exactly the requested bytes, and that reference counts stay
    exact. *)

From S2P Require Import Prelude Buffers.

Inductive history_error :=
| ErrInvalidLimit
| ErrInvalidCursor
| ErrSequenceFull
| GapError (requested earliest latest : Z).

#[global] Instance history_error_eq_dec : EqDecision history_error.
Proof. solve_decision. Defined.

Record ReplayResult := mkReplay {
  rp_FromSequence : Z;
  rp_ToSequence : Z;
  rp_EarliestSequence : Z;
  rp_LatestSequence : Z;
  rp_Events : list Event
}.

Record History := mkHistory {
  h_maxBytes : Z;
  h_bytes : Z;
  h_earliest : Z;
  h_latest : Z;
  h_events : list Event;
  h_head : nat;
  h_acks : gmap string Z
}.

(** [h.events[h.head:]] *)
Definition live (h : History) : list Event := drop (h_head h) (h_events h).

Definition New (maxBytes : Z) : result history_error History :=
  if decide (maxBytes = 0) then Err ErrInvalidLimit
  else Ok (mkHistory maxBytes 0 0 0 [] 0 ∅).

(** The loop of [Restore]: the history under construction, or [None] when an event
    does not continue it. *)
Fixpoint Restore_loop (h : History) (events : list Event) : option History :=
  match events with
  | [] => Some h
  | event :: rest =>
      if decide (ev_StartSequence event <> h_latest h
                 \/ u64_sub (ev_EndSequence event) (ev_StartSequence event) <> len (ev_Data event))
      then None
      else Restore_loop
             (mkHistory (h_maxBytes h) (u64_add (h_bytes h) (len (ev_Data event))) (h_earliest h)
                (ev_EndSequence event) (h_events h ++ [cloneEvent event]) (h_head h) (h_acks h))
             rest
  end.

Definition Restore (maxBytes earliest latest : Z) (events : list Event)
    : result history_error History :=
  match New maxBytes with
  | Err _ => Err ErrInvalidCursor
  | Ok h0 =>
      if decide (latest < earliest) then Err ErrInvalidCursor
      else
        let h1 := mkHistory (h_maxBytes h0) (h_bytes h0) earliest earliest (h_events h0)
                    (h_head h0) (h_acks h0) in
        match Restore_loop h1 events with
        | None => Err ErrInvalidCursor
        | Some h2 =>
            if decide (h_latest h2 <> latest \/ maxBytes < h_bytes h2)
            then Err ErrInvalidCursor else Ok h2
        end
  end.

(** [for h.bytes > h.maxBytes && h.head < len(h.events) { ... }]; the number of live
    events is enough fuel, see [compact_loop_spec]. *)
Fixpoint compact_loop (fuel : nat) (hp : heap) (h : History) : heap * History :=
  match fuel with
  | O => (hp, h)
  | S fuel' =>
      if decide (h_maxBytes h < h_bytes h /\ (h_head h < length (h_events h))%nat) then
        match h_events h !! h_head h with
        | None => (hp, h)
        | Some event =>
            compact_loop fuel' (Release hp event)
              (mkHistory (h_maxBytes h) (u64_sub (h_bytes h) (len (ev_Data event)))
                 (ev_EndSequence event) (h_latest h) (<[h_head h := zero_Event]> (h_events h))
                 (S (h_head h)) (h_acks h))
        end
      else (hp, h)
  end.

Definition compactLocked (hp : heap) (h : History) : heap * History :=
  let '(hp1, h1) := compact_loop (length (h_events h) - h_head h) hp h in
  if decide (h_head h1 = length (h_events h1))
  then (hp1, mkHistory (h_maxBytes h1) (h_bytes h1) (h_latest h1) (h_latest h1) [] 0 (h_acks h1))
  else (hp1, h1).

(** [pick] is what [ownerPool.Get()] hands out, [cap] the capacity of [data]. *)
Definition appendOwned (hp : heap) (h : History) (pick : option positive) (channel : byte)
    (data : list byte) (cap : Z) (pooled producerReference : bool)
    : heap * History * result history_error Event :=
  if decide (data = []) then
    ((if pooled then ReleaseBuffer hp cap else hp), h,
     Ok (mkEvent channel (h_latest h) (h_latest h) [] None))
  else if decide (u64_sub max_uint64 (h_latest h) < len data) then
    ((if pooled then ReleaseBuffer hp cap else hp), h, Err ErrSequenceFull)
  else
    let refs := if producerReference then 2 else 1 in
    let '(l, hp1) := new_owner hp pick data cap pooled refs in
    let event := mkEvent channel (h_latest h) (u64_add (h_latest h) (len data)) data (Some l) in
    let h1 := mkHistory (h_maxBytes h) (u64_add (h_bytes h) (len data)) (h_earliest h)
                (ev_EndSequence event) (h_events h ++ [event]) (h_head h) (h_acks h) in
    let '(hp2, h2) := compactLocked hp1 h1 in
    (hp2, h2, Ok event).

Definition AppendBuffer (hp : heap) (h : History) (pick : option positive) (channel : byte)
    (data : list byte) (cap : Z) : heap * History * result history_error Event :=
  appendOwned hp h pick channel data cap true true.

Definition AppendOwned (hp : heap) (h : History) (pick : option positive) (channel : byte)
    (data : list byte) : heap * History * result history_error Event :=
  appendOwned hp h pick channel data (len data) false false.

Definition Append (hp : heap) (h : History) (pick : option positive) (channel : byte)
    (data : list byte) : heap * History * result history_error Event :=
  let '(hp1, h1, r) := AppendOwned hp h pick channel data in
  (hp1, h1, match r with Ok event => Ok (cloneEvent event) | Err e => Err e end).

Definition SetLimit (hp : heap) (h : History) (maxBytes : Z)
    : heap * History * result history_error unit :=
  if decide (maxBytes = 0) then (hp, h, Err ErrInvalidLimit)
  else
    let '(hp1, h1) := compactLocked hp
      (mkHistory maxBytes (h_bytes h) (h_earliest h) (h_latest h) (h_events h) (h_head h) (h_acks h)) in
    (hp1, h1, Ok tt).

Definition Clear (hp : heap) (h : History) : heap * History * Z :=
  (ReleaseAll hp (live h),
   mkHistory (h_maxBytes h) 0 (h_latest h) (h_latest h) [] 0 (h_acks h),
   h_latest h).

Fixpoint ReplayOwned_loop (hp : heap) (events : list Event) (fromSequence byteLimit remaining : Z)
    (acc : list Event) (toSequence : Z) : heap * list Event * Z :=
  match events with
  | [] => (hp, acc, toSequence)
  | event :: rest =>
      if decide (ev_EndSequence event <= fromSequence) then
        ReplayOwned_loop hp rest fromSequence byteLimit remaining acc toSequence
      else
        let start := Z.max fromSequence (ev_StartSequence event) in
        let stop := if decide (0 < byteLimit /\ remaining < u64_sub (ev_EndSequence event) start)
                    then u64_add start remaining else ev_EndSequence event in
        if decide (start < stop) then
          let retained := mkEvent (ev_Channel event) start stop
            (slice (ev_Data event) (u64_sub start (ev_StartSequence event))
                                   (u64_sub stop (ev_StartSequence event)))
            (ev_owner event) in
          let hp1 := Retain hp event in
          if decide (0 < byteLimit) then
            let remaining' := u64_sub remaining (u64_sub stop start) in
            if decide (remaining' = 0) then (hp1, acc ++ [retained], stop)
            else ReplayOwned_loop hp1 rest fromSequence byteLimit remaining' (acc ++ [retained]) stop
          else ReplayOwned_loop hp1 rest fromSequence byteLimit remaining (acc ++ [retained]) stop
        else ReplayOwned_loop hp rest fromSequence byteLimit remaining acc toSequence
  end.

Definition ReplayOwned (hp : heap) (h : History) (fromSequence byteLimit : Z)
    : heap * result history_error ReplayResult :=
  if decide (fromSequence < h_earliest h) then
    (hp, Err (GapError fromSequence (h_earliest h) (h_latest h)))
  else if decide (h_latest h < fromSequence) then (hp, Err ErrInvalidCursor)
  else
    let '(hp1, events, toSequence) :=
      ReplayOwned_loop hp (live h) fromSequence byteLimit byteLimit [] fromSequence in
    (hp1, Ok (mkReplay fromSequence toSequence (h_earliest h) (h_latest h) events)).

(** [Replay.Release] *)
Definition Replay_Release (hp : heap) (r : ReplayResult) : heap := ReleaseAll hp (rp_Events r).

Definition Replay (hp : heap) (h : History) (fromSequence byteLimit : Z)
    : heap * result history_error ReplayResult :=
  let '(hp1, r) := ReplayOwned hp h fromSequence byteLimit in
  match r with
  | Err e => (hp1, Err e)
  | Ok replay =>
      (ReleaseAll hp1 (rp_Events replay),
       Ok (mkReplay (rp_FromSequence replay) (rp_ToSequence replay) (rp_EarliestSequence replay)
             (rp_LatestSequence replay) (cloneEvent <$> rp_Events replay)))
  end.

Definition Acknowledge (h : History) (attachmentID : string) (nextSequence : Z)
    : result history_error History :=
  if decide (attachmentID = "" \/ h_latest h < nextSequence
             \/ nextSequence < default 0 (h_acks h !! attachmentID))
  then Err ErrInvalidCursor
  else Ok (mkHistory (h_maxBytes h) (h_bytes h) (h_earliest h) (h_latest h) (h_events h) (h_head h)
             (<[attachmentID := nextSequence]> (h_acks h))).

Definition Acknowledged (h : History) (attachmentID : string) : option Z := h_acks h !! attachmentID.

Definition Bounds (h : History) : Z * Z * Z := (h_earliest h, h_latest h, h_bytes h).

(** ** Specification: a bounded log of chunks *)

Record Log := mkLog { lg_end : Z; lg_chunks : list (byte * list byte) }.

Definition total (cs : list (byte * list byte)) : Z := len (mjoin (snd <$> cs)).

(** The oldest chunks go first, until the rest fits. *)
Fixpoint trim (limit : Z) (cs : list (byte * list byte)) : list (byte * list byte) :=
  match cs with
  | [] => []
  | c :: cs' => if decide (total cs <= limit) then cs else trim limit cs'
  end.

Definition log_append (limit : Z) (channel : byte) (data : list byte) (g : Log) : Log :=
  mkLog (lg_end g + len data) (trim limit (lg_chunks g ++ [(channel, data)])).

Definition log_start (g : Log) : Z := lg_end g - total (lg_chunks g).

(** The bytes of the log in [[a, b)]. *)
Definition log_read (g : Log) (a b : Z) : list byte :=
  slice (mjoin (snd <$> lg_chunks g)) (a - log_start g) (b - log_start g).

Definition chunk (e : Event) : byte * list byte := (ev_Channel e, ev_Data e).
Definition view (h : History) : Log := mkLog (h_latest h) (chunk <$> live h).

(** ** Well-formedness *)

Fixpoint contiguous (from : Z) (es : list Event) (to : Z) : Prop :=
  match es with
  | [] => from = to
  | e :: es' => ev_StartSequence e = from /\ ev_EndSequence e = from + len (ev_Data e)
                /\ contiguous (ev_EndSequence e) es' to
  end.

Definition content (es : list Event) : list byte := mjoin (ev_Data <$> es).

Record wf_core (h : History) : Prop := {
  wf_max : 0 < h_maxBytes h < two64;
  wf_bytes : h_bytes h = len (content (live h));
  wf_contig : contiguous (h_earliest h) (live h) (h_latest h);
  wf_lo : 0 <= h_earliest h;
  wf_hi : h_latest h < two64;
  wf_head : (h_head h <= length (h_events h))%nat;
  wf_acks : forall id n, h_acks h !! id = Some n -> 0 <= n <= h_latest h
}.

(** [wf]: retained bytes are within the limit. *)
Definition wf (h : History) : Prop := wf_core h /\ h_bytes h <= h_maxBytes h.

(** ** Lemmas *)

Lemma content_cons e es : content (e :: es) = ev_Data e ++ content es.
Proof. done. Qed.

Lemma content_app es1 es2 : content (es1 ++ es2) = content es1 ++ content es2.
Proof. unfold content. by rewrite fmap_app, join_app. Qed.

Lemma total_chunk es : total (chunk <$> es) = len (content es).
Proof. unfold total, content. by rewrite <- list_fmap_compose. Qed.

Lemma contiguous_end from es to : contiguous from es to -> to = from + len (content es).
Proof.
  revert from. induction es as [|e es IH]; intros from; simpl; [intros ->; lia|].
  intros (Hs & He & Hc). apply IH in Hc. rewrite content_cons, length_app. lia.
Qed.

Lemma contiguous_app from es1 mid es2 to :
  contiguous from es1 mid -> contiguous mid es2 to -> contiguous from (es1 ++ es2) to.
Proof.
  revert from. induction es1 as [|e es1 IH]; intros from; simpl; [by intros ->|].
  intros (? & ? & ?) ?. eauto.
Qed.

Lemma contiguous_app_inv from es1 mid es2 to :
  contiguous from (es1 ++ es2) to -> contiguous from es1 mid -> contiguous mid es2 to.
Proof.
  revert from. induction es1 as [|e es1 IH]; intros from; simpl; [by intros ? <-|].
  intros (? & ? & ?) (? & ? & ?). eauto.
Qed.

Lemma content_clone es : content (cloneEvent <$> es) = content es.
Proof. unfold content. by rewrite <- list_fmap_compose. Qed.

Lemma contiguous_clone from es to : contiguous from es to -> contiguous from (cloneEvent <$> es) to.
Proof. revert from. induction es as [|e es IH]; intros from; simpl; [done|naive_solver]. Qed.

Lemma contiguous_elem from es to e :
  contiguous from es to -> e ∈ es ->
  from <= ev_StartSequence e /\ ev_EndSequence e <= to
  /\ ev_EndSequence e = ev_StartSequence e + len (ev_Data e).
Proof.
  revert from. induction es as [|x es IH]; intros from; simpl; [set_solver|].
  intros (Hs & He & Hc) [->|Hin]%elem_of_cons.
  - apply contiguous_end in Hc. lia.
  - destruct (IH _ Hc Hin) as (? & ? & ?). lia.
Qed.

Lemma wf_span h : wf_core h -> h_latest h = h_earliest h + h_bytes h /\ 0 <= h_bytes h.
Proof. intros []. apply contiguous_end in wf_contig0. lia. Qed.

(** One round of the compaction loop drops the oldest live event. *)
Lemma live_pop h e :
  h_events h !! h_head h = Some e ->
  live h = e :: drop (S (h_head h)) (<[h_head h := zero_Event]> (h_events h)).
Proof. intros He. unfold live. rewrite drop_insert_lt by lia. by apply drop_S. Qed.

Lemma wf_core_pop h e :
  wf_core h -> h_events h !! h_head h = Some e ->
  wf_core (mkHistory (h_maxBytes h) (u64_sub (h_bytes h) (len (ev_Data e))) (ev_EndSequence e)
             (h_latest h) (<[h_head h := zero_Event]> (h_events h)) (S (h_head h)) (h_acks h)).
Proof.
  intros Hwf He. pose proof (wf_span h Hwf) as [Hsp Hb0]. destruct Hwf.
  pose proof (live_pop h e He) as Hl. rewrite Hl in wf_bytes0, wf_contig0.
  destruct wf_contig0 as (Hs & Hend & Hc). rewrite content_cons, length_app in wf_bytes0.
  pose proof (lookup_lt_Some _ _ _ He).
  constructor; simpl; unfold live; simpl; try done; try lia.
  - rewrite u64_sub_small; lia.
  - by rewrite length_insert.
Qed.

Lemma compact_loop_spec fuel hp h hp' h' R :
  wf_core h -> (length (h_events h) - h_head h <= fuel)%nat ->
  accounted hp (live h ++ R) -> compact_loop fuel hp h = (hp', h') ->
  wf h' /\ h_maxBytes h' = h_maxBytes h /\ h_latest h' = h_latest h /\ h_acks h' = h_acks h
  /\ (chunk <$> live h') = trim (h_maxBytes h) (chunk <$> live h)
  /\ accounted hp' (live h' ++ R).
Proof.
  revert hp h. induction fuel as [|fuel IH]; intros hp h Hwf Hf HA; simpl.
  - intros [= <- <-]. pose proof Hwf as []. assert (Hnil : live h = []).
    { unfold live. by rewrite drop_ge by lia. }
    rewrite Hnil in *. simpl in *. split_and!; try done. split; [done|].
    rewrite wf_bytes0. simpl. lia.
  - case_decide as Hg.
    + destruct Hg as [Hgt Hlt]. destruct (h_events h !! h_head h) as [e|] eqn:He;
        [|apply lookup_ge_None in He; lia].
      intros Hrun. apply IH in Hrun; [| by apply wf_core_pop | simpl; rewrite length_insert; lia |].
      * destruct Hrun as (Hw & -> & -> & -> & -> & HA'). split_and!; try done.
        simpl. unfold live at 1; simpl. rewrite (live_pop h e He), fmap_cons. simpl.
        rewrite decide_False; [done|].
        change (chunk e :: _) with (chunk <$> (e :: drop (S (h_head h))
          (<[h_head h := zero_Event]> (h_events h)))).
        rewrite <- (live_pop h e He), total_chunk. destruct Hwf. lia.
      * unfold live at 1; simpl. rewrite (live_pop h e He) in HA. by apply accounted_Release.
    + intros [= <- <-]. pose proof Hwf as []. assert (Hle : h_bytes h <= h_maxBytes h).
      { destruct (decide (h_head h < length (h_events h))%nat); [lia|].
        rewrite wf_bytes0. unfold live. rewrite drop_ge by lia. simpl. lia. }
      split_and!; try done.
      destruct (chunk <$> live h) as [|c cs] eqn:Ec; [done|]. simpl.
      rewrite decide_True; [done|]. rewrite <- Ec, total_chunk. lia.
Qed.

Lemma compactLocked_spec hp h hp' h' R :
  wf_core h -> accounted hp (live h ++ R) -> compactLocked hp h = (hp', h') ->
  wf h' /\ h_maxBytes h' = h_maxBytes h /\ h_latest h' = h_latest h /\ h_acks h' = h_acks h
  /\ (chunk <$> live h') = trim (h_maxBytes h) (chunk <$> live h)
  /\ accounted hp' (live h' ++ R).
Proof.
  intros Hwf HA. unfold compactLocked.
  destruct (compact_loop _ hp h) as [hp1 h1] eqn:Hl.
  destruct (compact_loop_spec _ _ _ _ _ _ Hwf (le_n _) HA Hl) as (Hw & Hm & Hlat & Hacks & Hch & HA').
  case_decide as Hhd; intros [= <- <-]; [|done].
  assert (Hnil : live h1 = []) by (unfold live; rewrite drop_ge; [done|lia]).
  rewrite Hnil in *. destruct Hw as [[] Hle]. unfold live at 1; simpl.
  split_and!; try done. split; [|done].
  rewrite Hnil in *. apply contiguous_end in wf_contig0. simpl in *.
  constructor; simpl; try done; lia.
Qed.

(** A history whose newest event was just pushed, before compaction. *)
Lemma wf_core_push h e :
  wf_core h -> ev_Data e <> [] -> h_latest h + len (ev_Data e) < two64 ->
  ev_StartSequence e = h_latest h -> ev_EndSequence e = h_latest h + len (ev_Data e) ->
  let h1 := mkHistory (h_maxBytes h) (u64_add (h_bytes h) (len (ev_Data e))) (h_earliest h)
              (ev_EndSequence e) (h_events h ++ [e]) (h_head h) (h_acks h) in
  wf_core h1 /\ live h1 = live h ++ [e].
Proof.
  intros Hwf Hne Hlt Hs He h1. pose proof (wf_span h Hwf) as [Hsp Hb0]. pose proof Hwf as [].
  assert (Hl : live h1 = live h ++ [e]) by (unfold live; simpl; by rewrite drop_app_le by lia).
  split; [|done]. constructor; rewrite ?Hl; simpl; try done; try lia.
  - rewrite u64_add_small by lia. rewrite content_app, content_cons, !length_app. simpl. lia.
  - eapply contiguous_app; [done|]. simpl. lia.
  - rewrite length_app. lia.
  - intros id n Hid. specialize (wf_acks0 id n Hid). lia.
Qed.

Lemma appendOwned_spec hp h pick channel data cap pooled producer R hp' h' r :
  wf h -> accounted hp (live h ++ R) -> data <> [] -> h_latest h + len data < two64 ->
  appendOwned hp h pick channel data cap pooled producer = (hp', h', r) ->
  exists l,
    let e := mkEvent channel (h_latest h) (h_latest h + len data) data (Some l) in
    r = Ok e /\ wf h' /\ view h' = log_append (h_maxBytes h) channel data (view h)
    /\ h_maxBytes h' = h_maxBytes h /\ h_acks h' = h_acks h
    /\ accounted hp' (live h' ++ (if producer then [e] else []) ++ R).
Proof.
  intros [Hwf _] HA Hne Hlt. pose proof (wf_span h Hwf) as [Hsp Hb0]. pose proof Hwf as [].
  unfold appendOwned. rewrite decide_False by done.
  rewrite decide_False by (rewrite u64_sub_small; unfold max_uint64, two64 in *; lia).
  destruct (new_owner _ _ _ _ _ _) as [l hp1] eqn:Hnew.
  rewrite !(u64_add_small (h_latest h)) by lia.
  set (e := mkEvent channel (h_latest h) (h_latest h + len data) data (Some l)).
  destruct (wf_core_push h e Hwf) as [Hw1 Hl1]; [done..|]. simpl in Hw1, Hl1.
  destruct (compactLocked hp1 _) as [hp2 h2] eqn:Hc. intros [= <- <- <-].
  exists l. fold e. set (own := if producer then [e] else []).
  assert (HA1 : accounted hp1 ((live h ++ [e]) ++ own ++ R)).
  { assert (Hes : accounted hp1 ((e :: own) ++ live h ++ R)).
    { eapply accounted_new_owner; [done| |].
      - rewrite <- Hnew. f_equal. unfold own. by destruct producer.
      - unfold own. destruct producer; repeat constructor. }
    eapply accounted_perm; [|exact Hes]. solve_Permutation. }
  rewrite <- Hl1 in HA1.
  destruct (compactLocked_spec _ _ _ _ _ Hw1 HA1 Hc) as (Hw2 & Hm & Hlat & Hacks & Hch & HA2).
  split_and!; try done.
  unfold view, log_append. simpl. rewrite Hlat, Hch. simpl. by rewrite Hl1, fmap_app.
Qed.

(** Compaction only drops events from the front. *)
Lemma compact_loop_suffix fuel : forall hp h hp' h',
  compact_loop fuel hp h = (hp', h') -> exists gone, live h = gone ++ live h'.
Proof.
  induction fuel as [|fuel IH]; intros hp h hp' h'; simpl; [intros [= <- <-]; by exists []|].
  case_decide; [|intros [= <- <-]; by exists []].
  destruct (h_events h !! h_head h) as [e|] eqn:He; [|intros [= <- <-]; by exists []].
  intros [gone Hg]%IH. exists (e :: gone). rewrite (live_pop h e He). simpl. by rewrite <- Hg.
Qed.

Lemma compactLocked_suffix hp h hp' h' :
  compactLocked hp h = (hp', h') -> exists gone, live h = gone ++ live h'.
Proof.
  unfold compactLocked. destruct (compact_loop _ hp h) as [hp1 h1] eqn:Hl.
  apply compact_loop_suffix in Hl as [gone Hg]. case_decide as Hd; intros [= <- <-]; [|eauto].
  exists (live h). unfold live at 3. simpl. by rewrite app_nil_r.
Qed.

Lemma appendOwned_suffix hp h pick channel data cap pooled producer hp' h' e :
  wf h -> data <> [] -> appendOwned hp h pick channel data cap pooled producer = (hp', h', Ok e) ->
  exists gone, live h ++ [e] = gone ++ live h'.
Proof.
  intros [[] _] Hne. unfold appendOwned. rewrite decide_False by done. case_decide; [done|].
  destruct (new_owner _ _ _ _ _ _) as [l hp1]. destruct (compactLocked hp1 _) as [hp2 h2] eqn:Hc.
  intros [= <- <- <-]. apply compactLocked_suffix in Hc as [gone Hg]. exists gone.
  rewrite <- Hg. unfold live. simpl. by rewrite drop_app_le.
Qed.

(** A chunk of replay output: the part of the retained event [e] from [from] on. *)
Definition part_of (from : Z) (x e : Event) : Prop :=
  ev_Channel x = ev_Channel e /\ ev_owner x = ev_owner e
  /\ ev_StartSequence x = Z.max from (ev_StartSequence e)
  /\ ev_StartSequence x < ev_EndSequence x <= ev_EndSequence e
  /\ ev_Data x = slice (ev_Data e) (ev_StartSequence x - ev_StartSequence e)
                                   (ev_EndSequence x - ev_StartSequence e).

Lemma part_of_len from x e :
  part_of from x e -> 0 <= ev_StartSequence e -> ev_EndSequence e = ev_StartSequence e + len (ev_Data e) ->
  ev_EndSequence x = ev_StartSequence x + len (ev_Data x).
Proof. intros (_ & _ & Hs & Hr & ->) ? ?. rewrite length_slice; lia. Qed.

(** What replaying the events [es], which cover [[s, t)], from [cur] up to [stop]
    must produce: the bytes of that range as contiguous parts, each retained. *)
Record replay_ok (from s t cur stop : Z) (es : list Event) (hp : heap) (new R : list Event)
    : Prop := {
  ro_content : content new = slice (content es) (cur - s) (stop - s);
  ro_contig : contiguous cur new stop;
  ro_parts : forall x, x ∈ new -> exists e, e ∈ es /\ part_of from x e
                                   /\ (stop = t -> ev_EndSequence x = ev_EndSequence e);
  ro_acc : accounted hp (new ++ R)
}.

Lemma replay_ok_nil from s stop hp R :
  accounted hp R -> replay_ok from s stop stop stop [] hp [] R.
Proof.
  intros HA. constructor; [|done|set_solver|done].
  change (content []) with (@nil byte). by rewrite slice_nil.
Qed.

(** The first event ends before the range. *)
Lemma replay_ok_skip from s t cur stop e es hp new R :
  ev_EndSequence e = s + len (ev_Data e) -> ev_EndSequence e <= cur ->
  replay_ok from (ev_EndSequence e) t cur stop es hp new R ->
  replay_ok from s t cur stop (e :: es) hp new R.
Proof.
  intros He Hc []. constructor; try done.
  - rewrite content_cons, slice_app_r by lia. rewrite ro_content0. f_equal; lia.
  - intros x Hx. destruct (ro_parts0 x Hx) as (e0 & ? & ?). exists e0. set_solver.
Qed.

(** The first event contributes [x], up to its end. *)
Lemma replay_ok_emit from s t cur stop e es x hp new R :
  0 <= s <= cur -> ev_StartSequence e = s -> ev_EndSequence e = s + len (ev_Data e) ->
  part_of from x e -> ev_StartSequence x = cur -> ev_EndSequence x = ev_EndSequence e ->
  ev_EndSequence e <= stop ->
  replay_ok from (ev_EndSequence e) t (ev_EndSequence e) stop es hp new (x :: R) ->
  replay_ok from s t cur stop (e :: es) hp (x :: new) R.
Proof.
  intros Hs Hst He Hx Hxs Hxe Hstop []. pose proof (part_of_len _ _ _ Hx ltac:(lia) ltac:(lia)).
  destruct Hx as (Hx1 & Hx2 & Hx3 & Hx4 & Hx5). constructor.
  - rewrite !content_cons, ro_content0, Hx5.
    rewrite <- (slice_split _ (cur - s) (ev_EndSequence e - s) (stop - s)) by lia.
    rewrite slice_app_l, slice_app_r by lia. repeat (f_equal; try lia).
  - simpl. split_and!; [done|lia|by rewrite Hxe].
  - intros y [->|Hy]%elem_of_cons; [exists e; split_and!; [set_solver|done|done]|].
    destruct (ro_parts0 y Hy) as (e0 & ? & ?). exists e0. set_solver.
  - eapply accounted_perm; [|exact ro_acc0]. solve_Permutation.
Qed.

(** The first event contributes [x], and the byte limit is reached. *)
Lemma replay_ok_final from s t cur stop e es x hp R :
  0 <= s <= cur -> ev_StartSequence e = s -> ev_EndSequence e = s + len (ev_Data e) ->
  part_of from x e -> ev_StartSequence x = cur -> ev_EndSequence x = stop ->
  ev_EndSequence e <= t -> accounted hp (x :: R) ->
  replay_ok from s t cur stop (e :: es) hp [x] R.
Proof.
  intros Hs Hst He Hx Hxs Hxe Ht HA. pose proof (part_of_len _ _ _ Hx ltac:(lia) ltac:(lia)).
  pose proof Hx as (Hx1 & Hx2 & Hx3 & Hx4 & Hx5). constructor; [|simpl; lia| |done].
  - rewrite !content_cons, Hx5. change (content []) with (@nil byte).
    rewrite app_nil_r, slice_app_l by lia. f_equal; lia.
  - intros y ->%list_elem_of_singleton. exists e. split_and!; [set_solver|done|lia].
Qed.

Lemma accounted_Retain_part from x e hp R :
  accounted hp R -> e ∈ R -> part_of from x e -> accounted (Retain hp e) (x :: R).
Proof.
  intros HA He (_ & Ho & _ & _ & Hd). apply accounted_Retain; try done.
  eapply backed_part; [by eapply acc_backed|done..].
Qed.

Lemma ReplayOwned_loop_spec es : forall s t from limit rem acc hp R,
  contiguous s es t -> 0 <= s -> t < two64 -> 0 <= from <= t ->
  (0 < limit -> 0 < rem < two64) -> accounted hp R -> (forall e, e ∈ es -> e ∈ R) ->
  let cur := Z.max from s in
  let stop := if decide (0 < limit) then Z.min t (cur + rem) else t in
  exists hp' new,
    ReplayOwned_loop hp es from limit rem acc cur = (hp', acc ++ new, stop)
    /\ replay_ok from s t cur stop es hp' new R.
Proof.
  induction es as [|e es IH]; intros s t from limit rem acc hp R Hc Hs Ht Hf Hrem HA Hin cur stop.
  - simpl in Hc. subst t. exists hp, []. rewrite app_nil_r.
    assert (stop = cur) as -> by (unfold stop, cur; case_decide; [specialize (Hrem ltac:(done))|]; lia).
    split; [done|]. unfold cur. rewrite Z.max_r by lia. by apply replay_ok_nil.
  - destruct Hc as (Hst & Hend & Hc). pose proof (contiguous_end _ _ _ Hc) as Ht'.
    assert (Hcur : s <= cur /\ from <= cur) by (unfold cur; lia).
    assert (Hlim : 0 < limit -> cur <= stop /\ stop = Z.min t (cur + rem)).
    { intros Hl. unfold stop, cur. rewrite decide_True by done. specialize (Hrem Hl). lia. }
    cbn [ReplayOwned_loop]. fold cur. case_decide as Hskip.
    + destruct (IH (ev_EndSequence e) t from limit rem acc hp R) as (hp' & new & H1 & H2);
        try done; try lia; [set_solver|].
      replace (Z.max from (ev_EndSequence e)) with cur in * by (unfold cur; lia). fold stop in H1, H2.
      exists hp', new. split; [done|]. by apply replay_ok_skip; [lia..|].
    + rewrite Hst. fold cur. rewrite (u64_sub_small (ev_EndSequence e)) by (unfold cur in *; lia).
      set (stop1 := if decide (0 < limit /\ rem < ev_EndSequence e - cur)
                    then u64_add cur rem else ev_EndSequence e).
      assert (Hstop1 : stop1 = if decide (0 < limit) then Z.min (ev_EndSequence e) (cur + rem)
                               else ev_EndSequence e).
      { unfold stop1. repeat case_decide; try specialize (Hrem ltac:(tauto)); try lia.
        rewrite u64_add_small; unfold cur in *; lia. }
      assert (Hs1 : cur <= stop1 <= ev_EndSequence e).
      { rewrite Hstop1. case_decide; [specialize (Hrem ltac:(done))|]; unfold cur in *; lia. }
      clearbody stop1.
      (* the rest of the loop, when this event is used up *)
      assert (Htail : forall rem' acc' hp1 R1, accounted hp1 R1 -> (forall x, x ∈ es -> x ∈ R1) ->
          (0 < limit -> 0 < rem' < two64 /\ ev_EndSequence e + rem' = cur + rem) ->
          exists hp' new, ReplayOwned_loop hp1 es from limit rem' acc' (ev_EndSequence e)
                            = (hp', acc' ++ new, stop)
            /\ replay_ok from (ev_EndSequence e) t (ev_EndSequence e) stop es hp' new R1).
      { intros rem' acc' hp1 R1 HA1 Hin1 Hr1.
        destruct (IH (ev_EndSequence e) t from limit rem' acc' hp1 R1) as (hp' & new & H);
          try done; try lia.
        rewrite Z.max_r in H by lia. exists hp', new.
        assert ((if decide (0 < limit) then Z.min t (ev_EndSequence e + rem') else t) = stop) as <-; [|done].
        unfold stop. case_decide; [by rewrite (proj2 (Hr1 ltac:(done)))|done]. }
      destruct (decide (cur < stop1)) as [Hemit|Hemit].
      * rewrite (u64_sub_small cur s), (u64_sub_small stop1 s), (u64_sub_small stop1 cur)
          by (unfold cur in *; lia).
        set (x := mkEvent (ev_Channel e) cur stop1 (slice (ev_Data e) (cur - s) (stop1 - s)) (ev_owner e)).
        assert (Hx : part_of from x e).
        { unfold part_of, x; simpl. rewrite Hst. split_and!; try done; lia. }
        assert (HA1 : accounted (Retain hp e) (x :: R)) by (eapply accounted_Retain_part; eauto; set_solver).
        destruct (decide (0 < limit)) as [Hl|Hl];
          [specialize (Hrem Hl); destruct (Hlim Hl); rewrite (u64_sub_small rem) by lia;
           destruct (decide (rem - (stop1 - cur) = 0)) as [Hr0|Hr0]|].
        -- exists (Retain hp e), [x]. assert (stop = stop1) as -> by lia.
           split; [done|]. by apply replay_ok_final; simpl; try lia.
        -- assert (stop1 = ev_EndSequence e) as -> by lia.
           destruct (Htail (rem - (ev_EndSequence e - cur)) (acc ++ [x]) (Retain hp e) (x :: R))
             as (hp' & new & H1 & H2); [done|set_solver|lia|].
           exists hp', (x :: new). split; [by rewrite H1, <- app_assoc|].
           by apply replay_ok_emit; simpl; try lia.
        -- subst stop1.
           destruct (Htail rem (acc ++ [x]) (Retain hp e) (x :: R)) as (hp' & new & H1 & H2);
             [done|set_solver|lia|].
           exists hp', (x :: new). split; [by rewrite H1, <- app_assoc|].
           apply replay_ok_emit; simpl; try done; lia.
      * assert (E : ev_EndSequence e = cur).
        { rewrite Hstop1 in *. case_decide; [specialize (Hrem ltac:(done))|]; lia. }
        destruct (Htail rem acc hp R) as (hp' & new & H1 & H2); [done|set_solver|naive_solver lia|].
        rewrite E in *. exists hp', new. split; [done|]. apply replay_ok_skip; rewrite ?E; done || lia.
Qed.

Lemma log_start_view h : wf_core h -> log_start (view h) = h_earliest h.
Proof.
  intros Hwf. pose proof (wf_span h Hwf). destruct Hwf.
  unfold log_start, view; simpl. rewrite total_chunk. lia.
Qed.

Lemma view_content h : mjoin (snd <$> lg_chunks (view h)) = content (live h).
Proof. unfold view, content; simpl. by rewrite <- list_fmap_compose. Qed.

Lemma ReplayOwned_spec hp h from limit R :
  wf h -> accounted hp (live h ++ R) -> h_earliest h <= from <= h_latest h -> 0 <= limit < two64 ->
  let stop := if decide (0 < limit) then Z.min (h_latest h) (from + limit) else h_latest h in
  exists hp' new,
    ReplayOwned hp h from limit = (hp', Ok (mkReplay from stop (h_earliest h) (h_latest h) new))
    /\ content new = log_read (view h) from stop
    /\ contiguous from new stop
    /\ (forall x, x ∈ new -> exists e, e ∈ live h /\ part_of from x e
                           /\ (stop = h_latest h -> ev_EndSequence x = ev_EndSequence e))
    /\ accounted hp' (new ++ live h ++ R).
Proof.
  intros [Hwf Hle] HA Hf Hl stop. pose proof Hwf as [].
  destruct (ReplayOwned_loop_spec (live h) (h_earliest h) (h_latest h) from limit limit [] hp
              (live h ++ R)) as (hp' & new & H1 & []); try done; try lia; [set_solver|].
  unfold ReplayOwned. rewrite !decide_False by lia. rewrite Z.max_l in * by lia. fold stop in H1.
  rewrite H1. exists hp', new. simpl. split_and!; try done.
  unfold log_read. by rewrite view_content, log_start_view.
Qed.

Lemma Clear_spec hp h R :
  wf h -> accounted hp (live h ++ R) ->
  let '(hp', h', next) := Clear hp h in
  next = h_latest h /\ wf h' /\ view h' = mkLog (h_latest h) [] /\ h_earliest h' = h_latest h
  /\ h_maxBytes h' = h_maxBytes h /\ accounted hp' (live h' ++ R).
Proof.
  intros [Hwf Hle] HA. pose proof (wf_span h Hwf). destruct Hwf. simpl.
  split_and!; try done; [|by apply accounted_ReleaseAll].
  split; [|simpl; lia]. constructor; simpl; try done; try lia.
Qed.

Lemma SetLimit_spec hp h maxBytes R hp' h' :
  wf h -> accounted hp (live h ++ R) -> 0 < maxBytes < two64 ->
  SetLimit hp h maxBytes = (hp', h', Ok tt) ->
  wf h' /\ h_maxBytes h' = maxBytes /\ accounted hp' (live h' ++ R)
  /\ view h' = mkLog (h_latest h) (trim maxBytes (lg_chunks (view h))).
Proof.
  intros [Hwf Hle] HA Hm. unfold SetLimit. rewrite decide_False by lia.
  destruct (compactLocked hp _) as [hp1 h1] eqn:Hc. intros [= <- <-].
  apply compactLocked_spec with (R := R) in Hc; [|by destruct Hwf; constructor|done].
  destruct Hc as (? & ? & Hlat & ? & Hch & ?). split_and!; try done.
  unfold view. by rewrite Hlat, Hch.
Qed.

Lemma Acknowledge_spec h id n h' :
  wf h -> 0 <= n -> Acknowledge h id n = Ok h' ->
  wf h' /\ live h' = live h /\ view h' = view h /\ Acknowledged h' id = Some n
  /\ default 0 (h_acks h !! id) <= n <= h_latest h.
Proof.
  intros [Hwf Hle] Hn. unfold Acknowledge. case_decide as Hd; [done|]. intros [= <-].
  unfold Acknowledged; simpl. rewrite lookup_insert_eq. split_and!; try done; try lia.
  split; [|done]. destruct Hwf. constructor; try done; simpl.
  intros k m. rewrite lookup_insert. case_decide; [|by apply wf_acks0].
  intros [= <-]. lia.
Qed.

(** ** Interleavings: a history, its buffer heap and the references held by consumers *)

Inductive hist_step : heap * History * list Event -> heap * History * list Event -> Prop :=
| hist_append_buffer hp h held pick ch data cap hp' h' e :
    data <> [] ->
    AppendBuffer hp h pick ch data cap = (hp', h', Ok e) ->
    hist_step (hp, h, held) (hp', h', e :: held)
| hist_append_owned hp h held pick ch data hp' h' e :
    data <> [] ->
    AppendOwned hp h pick ch data = (hp', h', Ok e) ->
    hist_step (hp, h, held) (hp', h', held)
| hist_replay_owned hp h held from limit hp' r :
    0 <= limit < two64 ->
    ReplayOwned hp h from limit = (hp', Ok r) ->
    hist_step (hp, h, held) (hp', h, rp_Events r ++ held)
| hist_release hp h held1 e held2 :
    hist_step (hp, h, held1 ++ e :: held2) (Release hp e, h, held1 ++ held2)
| hist_clear hp h held hp' h' n :
    Clear hp h = (hp', h', n) ->
    hist_step (hp, h, held) (hp', h', held)
| hist_set_limit hp h held m hp' h' :
    0 <= m < two64 ->
    SetLimit hp h m = (hp', h', Ok tt) ->
    hist_step (hp, h, held) (hp', h', held)
| hist_ack hp h held id n h' :
    0 <= n ->
    Acknowledge h id n = Ok h' ->
    hist_step (hp, h, held) (hp, h', held).

Definition hist_inv (s : heap * History * list Event) : Prop :=
  let '(hp, h, held) := s in wf h /\ accounted hp (live h ++ held).

Lemma appendOwned_fits hp h pick ch data cap pooled prod hp' h' e :
  wf h -> data <> [] -> appendOwned hp h pick ch data cap pooled prod = (hp', h', Ok e) ->
  h_latest h + len data < two64.
Proof.
  intros [[] _] Hne. unfold appendOwned. rewrite decide_False by done.
  case_decide as Hd; [done|]. intros _. apply contiguous_end in wf_contig0.
  rewrite u64_sub_small in Hd; unfold max_uint64, two64 in *; lia.
Qed.

Lemma ReplayOwned_ok_range hp h from limit hp' r :
  ReplayOwned hp h from limit = (hp', Ok r) -> h_earliest h <= from <= h_latest h.
Proof. unfold ReplayOwned. repeat case_decide; try done. lia. Qed.

Lemma hist_step_inv s s' : hist_step s s' -> hist_inv s -> hist_inv s'.
Proof.
  intros Hst Hinv. destruct Hst; destruct Hinv as [Hwf HA]; simpl.
  - pose proof (appendOwned_fits _ _ _ _ _ _ _ _ _ _ _ Hwf H H0).
    eapply appendOwned_spec in H0; [|done..]. destruct H0 as (l & [= ->] & ? & _ & _ & _ & ?). done.
  - pose proof (appendOwned_fits _ _ _ _ _ _ _ _ _ _ _ Hwf H H0).
    eapply appendOwned_spec in H0; [|done..]. by destruct H0 as (l & _ & ? & _ & _ & _ & ?).
  - pose proof (ReplayOwned_ok_range _ _ _ _ _ _ H0).
    destruct (ReplayOwned_spec hp h from limit held Hwf HA) as (hp2 & new & E & _ & _ & _ & HA2); [done..|].
    rewrite H0 in E. injection E as -> ->.
    split; [done|]. simpl. eapply accounted_perm; [|exact HA2]. solve_Permutation.
  - split; [done|]. apply accounted_Release. eapply accounted_perm; [|exact HA]. solve_Permutation.
  - pose proof (Clear_spec hp h held Hwf HA) as Hc. rewrite H in Hc. naive_solver.
  - assert (m <> 0) by (intros ->; unfold SetLimit in H0; by rewrite decide_True in H0 by done).
    eapply SetLimit_spec in H0; [|done..|lia]. naive_solver.
  - eapply Acknowledge_spec in H0 as (? & -> & _); done.
Qed.

Lemma New_inv maxBytes h : 0 <= maxBytes < two64 -> New maxBytes = Ok h -> hist_inv (empty_heap, h, []).
Proof.
  intros Hm. unfold New. case_decide; [done|]. intros [= <-]. split; [|apply accounted_empty].
  split; [|simpl; lia]. constructor; simpl; try done; lia.
Qed.

(** ** Restoring a history *)

Lemma Restore_loop_spec events : forall h h',
  wf_core h -> h_head h = 0%nat -> Forall (fun e => ev_owner e = None) (h_events h) ->
  contiguous (h_latest h) events (h_latest h + len (content events)) ->
  h_latest h + len (content events) < two64 ->
  Restore_loop h events = Some h' ->
  wf_core h' /\ live h' = live h ++ (cloneEvent <$> events)
  /\ h_latest h' = h_latest h + len (content events) /\ h_maxBytes h' = h_maxBytes h
  /\ h_earliest h' = h_earliest h /\ h_acks h' = h_acks h
  /\ Forall (fun e => ev_owner e = None) (h_events h').
Proof.
  induction events as [|e events IH]; intros h h' Hwf Hhd Hun Hc Hlt.
  - intros [= <-]. simpl. rewrite app_nil_r, Z.add_0_r. done.
  - cbn [Restore_loop]. case_decide as Hd; [done|]. apply Decidable.not_or in Hd as [Hst Hlen].
    destruct Hc as (Hs & He & Hc). rewrite content_cons, length_app in *.
    pose proof (wf_span h Hwf) as [Hsp Hb]. pose proof Hwf as [].
    set (h1 := mkHistory _ _ _ _ _ _ _).
    assert (Hl1 : live h1 = live h ++ [cloneEvent e]) by (unfold live; simpl; by rewrite Hhd).
    assert (Hw1 : wf_core h1).
    { constructor; rewrite ?Hl1; simpl; try done; try lia.
      - rewrite u64_add_small by lia. rewrite content_app, content_cons, !length_app. simpl. lia.
      - eapply contiguous_app; [done|]. simpl. lia.
      - intros id n Hid. specialize (wf_acks0 id n Hid). lia. }
    intros Hrun. apply IH in Hrun; simpl in *; [|done|done| | |].
    + destruct Hrun as (? & -> & -> & ? & ? & ? & ?). rewrite Hl1, <- app_assoc, He. split_and!; try done. lia.
    + apply Forall_app. split; [done|by repeat constructor].
    + rewrite He in *. by replace (h_latest h + len (ev_Data e) + _) with
        (h_latest h + Z.of_nat (length (ev_Data e) + length (content events))) by lia.
    + lia.
Qed.

Lemma Restore_loop_total events : forall h,
  contiguous (h_latest h) events (h_latest h + len (content events)) -> 0 <= h_latest h ->
  h_latest h + len (content events) < two64 -> is_Some (Restore_loop h events).
Proof.
  induction events as [|e events IH]; intros h Hc H0 Hlt; [by eexists|].
  destruct Hc as (Hs & He & Hc). rewrite content_cons, length_app in *. cbn [Restore_loop].
  rewrite decide_False by (rewrite u64_sub_small; lia). apply IH; simpl; [|lia..].
  rewrite He in *. by replace (h_latest h + len (ev_Data e) + len (content events)) with
    (h_latest h + Z.of_nat (length (ev_Data e) + length (content events))) by lia.
Qed.

Lemma Restore_spec maxBytes earliest latest events :
  0 < maxBytes < two64 -> 0 <= earliest -> latest < two64 ->
  contiguous earliest events latest -> len (content events) <= maxBytes ->
  exists h, Restore maxBytes earliest latest events = Ok h /\ wf h
            /\ live h = cloneEvent <$> events /\ h_earliest h = earliest /\ h_latest h = latest
            /\ h_maxBytes h = maxBytes /\ h_acks h = ∅
            /\ Forall (fun e => ev_owner e = None) (live h).
Proof.
  intros Hm He Hl Hc Hlen. pose proof (contiguous_end _ _ _ Hc) as Hend.
  unfold Restore, New. rewrite !decide_False by lia. simpl.
  set (h1 := mkHistory maxBytes 0 earliest earliest [] 0 ∅).
  destruct (Restore_loop_total events h1) as [h2 E]; simpl; [by rewrite <- Hend|lia..|].
  rewrite E. apply Restore_loop_spec in E; simpl; [|constructor; simpl; try done; lia|done|constructor|by rewrite <- Hend|lia].
  destruct E as (Hw & Hlive & Hlat & Hmax & Hear & Hack & Hun). simpl in *.
  assert (h_bytes h2 = len (content events)) as Hb.
  { destruct Hw. rewrite wf_bytes0, Hlive. unfold live; simpl.
    by rewrite content_clone. }
  rewrite decide_False by lia. exists h2. split_and!; try done; try lia; [by split; [|lia]|].
  unfold live. by apply Forall_drop.
Qed.

(** ** Properties *)

(** Appending a non-empty chunk that fits the 64-bit sequence space succeeds,
    returns the event covering exactly the next sequence range, keeps the history
    well-formed, and leaves the log that the specification [log_append] gives: the
    chunk is added at the end and the oldest chunks are dropped until the limit
    holds. *)
Theorem history_append_refines_log (hp : heap) (h : History) (pick : option positive)
    (channel : byte) (data : list byte) (cap : Z) (held : list Event) :
  hist_inv (hp, h, held) -> data <> [] -> h_latest h + len data < two64 ->
  exists hp' h' e,
    AppendBuffer hp h pick channel data cap = (hp', h', Ok e)
    /\ hist_inv (hp', h', e :: held)
    /\ view h' = log_append (h_maxBytes h) channel data (view h)
    /\ ev_StartSequence e = h_latest h /\ ev_EndSequence e = h_latest h'
    /\ ev_Data e = data /\ ev_Channel e = channel.
Proof.
  intros [Hwf HA] Hne Hlt.
  destruct (AppendBuffer hp h pick channel data cap) as [[hp' h'] r] eqn:E.
  destruct (appendOwned_spec _ _ _ _ _ _ _ _ held _ _ _ Hwf HA Hne Hlt E)
    as (l & -> & Hwf' & Hv & _ & _ & HA').
  eexists hp', h', _. split_and!; try done.
  pose proof (f_equal lg_end Hv) as Hend. simpl in *. lia.
Qed.

Definition demo_history : History := mkHistory 4 0 0 0 [] 0 ∅.

Lemma history_append_refines_log_witness :
  exists hp' h' e,
    AppendBuffer empty_heap demo_history None x01 [x61; x62; x63] PooledBufferSize = (hp', h', Ok e)
    /\ view h' = mkLog 3 [(x01, [x61; x62; x63])].
Proof.
  destruct (history_append_refines_log empty_heap demo_history None x01 [x61; x62; x63]
              PooledBufferSize []) as (hp' & h' & e & H1 & _ & H2 & _).
  - apply (New_inv 4); [unfold two64; lia|reflexivity].
  - discriminate.
  - vm_compute. reflexivity.
  - exists hp', h', e. split; [exact H1|]. rewrite H2. vm_compute. reflexivity.
Defined.

(** Replay is exact: for a cursor inside the retained range, [Replay] returns
    contiguous events from the cursor up to the end of the stream or the byte
    limit, whichever comes first, whose bytes are exactly the bytes of the log in
    that range, and every buffer reference it took is given back. *)
Theorem history_replay_exact (hp : heap) (h : History) (from limit : Z) (held : list Event) :
  hist_inv (hp, h, held) -> h_earliest h <= from <= h_latest h -> 0 <= limit < two64 ->
  exists hp' events,
    let stop := if decide (0 < limit) then Z.min (h_latest h) (from + limit) else h_latest h in
    Replay hp h from limit = (hp', Ok (mkReplay from stop (h_earliest h) (h_latest h) events))
    /\ content events = log_read (view h) from stop
    /\ contiguous from events stop
    /\ Forall (fun e => ev_owner e = None) events
    /\ hist_inv (hp', h, held).
Proof.
  intros [Hwf HA] Hf Hl.
  destruct (ReplayOwned_spec hp h from limit held Hwf HA Hf Hl) as (hp1 & new & E & H1 & H2 & _ & HA1).
  exists (ReleaseAll hp1 new), (cloneEvent <$> new). unfold Replay. rewrite E. simpl.
  split_and!; try done.
  - by rewrite content_clone.
  - by apply contiguous_clone.
  - apply Forall_fmap. by apply Forall_true.
  - by apply accounted_ReleaseAll.
Qed.

Definition demo_retained : History :=
  mkHistory 8 5 2 7 [mkEvent x01 2 5 [x61; x62; x63] None; mkEvent x01 5 7 [x64; x65] None] 0 ∅.

Lemma demo_retained_inv : hist_inv (empty_heap, demo_retained, []).
Proof.
  split; [split; [|simpl; lia]|].
  - constructor; simpl; unfold two64; try lia; try done.
  - apply accounted_unowned; [repeat constructor|apply accounted_empty].
Qed.

Lemma history_replay_exact_witness :
  exists hp' events,
    Replay empty_heap demo_retained 3 3 = (hp', Ok (mkReplay 3 6 2 7 events))
    /\ content events = [x62; x63; x64].
Proof.
  destruct (history_replay_exact empty_heap demo_retained 3 3 []) as (hp' & events & H1 & H2 & _).
  - apply demo_retained_inv.
  - simpl. lia.
  - unfold two64. lia.
  - exists hp', events. split; [exact H1|]. rewrite H2. vm_compute. reflexivity.
Defined.

(** Reference counts are exact in every interleaving of appends, replays,
    releases by consumers, clears, limit changes and acknowledgements: starting
    from [New], the history stays well-formed and within its limit, the count of
    every buffer object is the number of references held by the history and the
    consumers, and no referenced object lies in the free pool. *)
Theorem history_refcounts_exact (maxBytes : Z) (h0 h : History) (hp : heap) (held : list Event) :
  0 <= maxBytes < two64 -> New maxBytes = Ok h0 ->
  rtc hist_step (empty_heap, h0, []) (hp, h, held) ->
  wf h /\ (forall l, refs_of hp l = cnt l (live h ++ held))
  /\ (forall e l, e ∈ live h ++ held -> ev_owner e = Some l -> l ∉ hp_ownerPool hp).
Proof.
  intros Hm Hnew Hrtc. pose proof (New_inv _ _ Hm Hnew) as Hinv.
  assert (Hend : hist_inv (hp, h, held)).
  { revert Hinv. generalize dependent (hp, h, held). intros s Hrtc Hinv.
    revert Hinv. induction Hrtc; eauto using hist_step_inv. }
  destruct Hend as [Hwf HA]. split_and!; [done|apply HA|].
  intros e l He Hl. by eapply accounted_live.
Qed.

Lemma history_refcounts_exact_witness :
  exists h0, New 2 = Ok h0 /\
  exists hp h held, rtc hist_step (empty_heap, h0, []) (hp, h, held) /\ refs_of hp 1 = cnt 1 (live h ++ held).
Proof.
  eexists. split; [reflexivity|].
  destruct (AppendBuffer empty_heap (mkHistory 2 0 0 0 [] 0 ∅) None x01 [x61] PooledBufferSize)
    as [[hp h] r] eqn:E.
  vm_compute in E. injection E as Ehp Eh Er.
  eexists hp, h, [mkEvent x01 0 1 [x61] (Some 1%positive)].
  assert (Hr : rtc hist_step (empty_heap, mkHistory 2 0 0 0 [] 0 ∅, [])
                 (hp, h, [mkEvent x01 0 1 [x61] (Some 1%positive)])).
  { subst hp h. apply rtc_once. eapply hist_append_buffer with (data := [x61]) (pick := None)
      (ch := x01) (cap := PooledBufferSize); [discriminate|vm_compute; reflexivity]. }
  split; [exact Hr|].
  apply (history_refcounts_exact 2 (mkHistory 2 0 0 0 [] 0 ∅) h hp
           [mkEvent x01 0 1 [x61] (Some 1%positive)]); [vm_compute; split; [discriminate|reflexivity]
           |reflexivity|exact Hr].
Defined.

(** Persisting and restoring keeps the retained output: a history
    rebuilt by [Restore] from the full replay of a well-formed history has the same
    bytes and bounds, is well-formed, and holds no shared buffers. *)
Theorem history_restore_roundtrip (hp hp' : heap) (h : History) (held : list Event)
    (r : ReplayResult) :
  hist_inv (hp, h, held) ->
  Replay hp h (h_earliest h) 0 = (hp', Ok r) ->
  exists h', Restore (h_maxBytes h) (rp_EarliestSequence r) (rp_LatestSequence r) (rp_Events r) = Ok h'
             /\ wf h' /\ h_earliest h' = h_earliest h /\ h_latest h' = h_latest h
             /\ content (live h') = content (live h)
             /\ Forall (fun e => ev_owner e = None) (live h').
Proof.
  intros Hinv Hr. pose proof Hinv as [Hwf HA]. pose proof (wf_span h (proj1 Hwf)) as [Hsp Hb].
  destruct (ReplayOwned_spec hp h (h_earliest h) 0 held Hwf HA) as (hp1 & new & E & H1 & H2 & _);
    [lia|unfold two64; lia|].
  unfold Replay in Hr. rewrite E in Hr. simpl in Hr. injection Hr as <- <-. simpl.
  assert (Hlog : log_read (view h) (h_earliest h) (h_latest h) = content (live h)).
  { unfold log_read. rewrite view_content, log_start_view by apply Hwf.
    rewrite Z.sub_diag. destruct Hwf as [[] _]. apply slice_all. lia. }
  rewrite decide_False in H1, H2 by lia. rewrite Hlog in H1. destruct Hwf as [Hw Hle].
  pose proof Hw as [].
  destruct (Restore_spec (h_maxBytes h) (h_earliest h) (h_latest h) (cloneEvent <$> new))
    as (h' & HR & Hw' & Hl & He & Hla & _ & _ & Hun); try done.
  - by apply contiguous_clone.
  - rewrite content_clone, H1. lia.
  - exists h'. rewrite Hl in *. split_and!; try done; try congruence.
    by rewrite !content_clone.
Qed.

Lemma history_restore_roundtrip_witness :
  exists h', Restore 8 2 7 [mkEvent x01 2 5 [x61; x62; x63] None; mkEvent x01 5 7 [x64; x65] None] = Ok h'
             /\ content (live h') = [x61; x62; x63; x64; x65].
Proof.
  destruct (history_restore_roundtrip empty_heap empty_heap demo_retained []
              (mkReplay 2 7 2 7 [mkEvent x01 2 5 [x61; x62; x63] None; mkEvent x01 5 7 [x64; x65] None]))
    as (h' & H1 & _ & _ & _ & H2 & _); [apply demo_retained_inv|vm_compute; reflexivity|].
  exists h'. split; [exact H1|rewrite H2; reflexivity].
Defined.
