(* ===== verification/Input.v ===== *)
(** * Idempotent terminal input ([internal/session/input.go])

    The [InputJournal] decides once per input identity whether the bytes went to
    the PTY, and answers every retry from the recorded decision.  The PTY write is
    an effect of the model: [Write] takes the outcome the writer will report and
    returns the bytes it handed to the writer, so that a run of the journal is a
    trace of PTY writes.  The theorems show that an identity reaches the PTY at
    most once, that reuse with other content is refused, what each outcome is
    recorded as, and that the journal never outgrows its bound. *)

From S2P Require Import Prelude Config.

Inductive InputStatus := InputAccepted | InputDuplicate | InputRejected | InputUncertain.

#[global] Instance InputStatus_eq_dec : EqDecision InputStatus.
Proof. solve_decision. Defined.

Inductive input_error :=
| ErrInvalidInput
| ErrInputConflict
| StaleGenerationError (current : Z)
| ErrInputUnknown
| ErrInputJournalFull.

#[global] Instance input_error_eq_dec : EqDecision input_error.
Proof. solve_decision. Defined.

Record InputKey := mkKey {
  ik_ClientID : string;
  ik_AttachmentID : string;
  ik_Generation : Z;
  ik_InputID : string
}.

#[global] Instance InputKey_eq_dec : EqDecision InputKey.
Proof. solve_decision. Defined.

#[global] Program Instance InputKey_countable : Countable InputKey :=
  inj_countable (fun k => (ik_ClientID k, ik_AttachmentID k, ik_Generation k, ik_InputID k))
                (fun '(c, a, g, i) => Some (mkKey c a g i)) _.
Next Obligation. by intros []. Qed.

Definition digest := list byte.
Definition sha256_Size : Z := 32.
Definition zero_digest : digest := replicate 32 x00.

Record InputDecision := mkDecision {
  id_Status : InputStatus;
  id_BytesWritten : Z;
  id_WriteError : string;
  id_hash : digest
}.

#[global] Instance InputDecision_eq_dec : EqDecision InputDecision.
Proof. solve_decision. Defined.

Record InputJournal := mkJournal {
  ij_current : Z;
  ij_max : Z;
  ij_decisions : gmap InputKey InputDecision
}.

(** What [writer.Write(data)] returns: the count and whether it reports an error. *)
Record WriteOutcome := mkOutcome { wo_n : Z; wo_err : bool }.

(** The effect of a call: the byte slices handed to the writer. *)
Abbreviation writes := (list (list byte)).

Section Journal.

Context (sha256 : list byte -> digest).

Definition NewBoundedInputJournal (generation max : Z) : InputJournal :=
  mkJournal generation max ∅.

Definition NewInputJournal (generation : Z) : InputJournal :=
  NewBoundedInputJournal generation (MaxInputDecisions DefaultResources).

Definition SetGeneration (j : InputJournal) (generation : Z) : InputJournal :=
  mkJournal generation (ij_max j) (ij_decisions j).

Definition publicDecision (d : InputDecision) : InputDecision :=
  mkDecision (id_Status d) (id_BytesWritten d) (id_WriteError d) zero_digest.

(** The decision recorded for a write of [data] with the given outcome. *)
Definition decide_write (data : list byte) (w : WriteOutcome) : InputDecision :=
  let status :=
    if decide (wo_n w = len data) then InputAccepted
    else if decide (wo_n w = 0) then InputRejected
    else InputUncertain in
  if wo_err w then
    mkDecision (if decide (0 < wo_n w /\ wo_n w < len data) then InputUncertain else status)
      (wo_n w) "pty_write_failed" (sha256 data)
  else mkDecision status (wo_n w) "" (sha256 data).

(** [writer] is [None] for a nil writer. *)
Definition Write (j : InputJournal) (key : InputKey) (data : list byte) (writer : option WriteOutcome)
    : InputJournal * result input_error InputDecision * writes :=
  if decide (ik_ClientID key = "" \/ ik_AttachmentID key = "" \/ ik_InputID key = ""
             \/ ik_Generation key = 0) then (j, Err ErrInvalidInput, [])
  else match writer with
  | None => (j, Err ErrInvalidInput, [])
  | Some w =>
      let hash := sha256 data in
      match ij_decisions j !! key with
      | Some previous =>
          if decide (id_hash previous <> hash) then (j, Err ErrInputConflict, [])
          else
            let previous' :=
              if decide (id_Status previous = InputAccepted)
              then mkDecision InputDuplicate (id_BytesWritten previous) (id_WriteError previous)
                     (id_hash previous)
              else previous in
            (j, Ok (publicDecision previous'), [])
      | None =>
          if decide (ij_max j <= Z.of_nat (size (ij_decisions j))) then
            (j, Err ErrInputJournalFull, [])
          else if decide (ik_Generation key <> ij_current j) then
            (j, Err (StaleGenerationError (ij_current j)), [])
          else
            let decision := decide_write data w in
            (mkJournal (ij_current j) (ij_max j) (<[key := decision]> (ij_decisions j)),
             Ok (publicDecision decision), [data])
      end
  end.

Definition Query (j : InputJournal) (key : InputKey) : result input_error InputDecision :=
  match ij_decisions j !! key with
  | None => Err ErrInputUnknown
  | Some decision => Ok (publicDecision decision)
  end.

Definition Admit (j : InputJournal) (key : InputKey) : result input_error unit :=
  match ij_decisions j !! key with
  | Some _ => Ok tt
  | None => if decide (ij_max j <= Z.of_nat (size (ij_decisions j)))
            then Err ErrInputJournalFull else Ok tt
  end.

Definition Restore (j : InputJournal) (key : InputKey) (hash : digest) (status : InputStatus)
    (bytesWritten : Z) (errorCode : string) : InputJournal * result input_error unit :=
  if decide (len hash <> sha256_Size \/ ik_ClientID key = "" \/ ik_AttachmentID key = ""
             \/ ik_InputID key = "" \/ ik_Generation key = 0) then (j, Err ErrInvalidInput)
  else if decide (status <> InputAccepted /\ status <> InputRejected /\ status <> InputUncertain)
  then (j, Err ErrInvalidInput)
  else match ij_decisions j !! key with
  | Some _ => (j, Err ErrInputConflict)
  | None =>
      if decide (ij_max j <= Z.of_nat (size (ij_decisions j))) then (j, Err ErrInputJournalFull)
      else (mkJournal (ij_current j) (ij_max j)
              (<[key := mkDecision status bytesWritten errorCode hash]> (ij_decisions j)), Ok tt)
  end.

(** ** Runs of a journal *)

Inductive input_op :=
| OpWrite (key : InputKey) (data : list byte) (writer : option WriteOutcome)
| OpSetGeneration (generation : Z)
| OpRestore (key : InputKey) (hash : digest) (status : InputStatus) (bytes : Z) (code : string).

(** The journal after the call, and the PTY writes it made for [key]. *)
Definition run_op (j : InputJournal) (key : InputKey) (op : input_op) : InputJournal * writes :=
  match op with
  | OpWrite k data w =>
      let '(j', _, ws) := Write j k data w in (j', if decide (k = key) then ws else [])
  | OpSetGeneration g => (SetGeneration j g, [])
  | OpRestore k h s b c => ((Restore j k h s b c).1, [])
  end.

Fixpoint run_ops (j : InputJournal) (key : InputKey) (ops : list input_op) : InputJournal * writes :=
  match ops with
  | [] => (j, [])
  | op :: ops' =>
      let '(j1, ws1) := run_op j key op in
      let '(j2, ws2) := run_ops j1 key ops' in (j2, ws1 ++ ws2)
  end.

Definition journal_ok (j : InputJournal) : Prop :=
  Z.of_nat (size (ij_decisions j)) <= Z.max 0 (ij_max j)
  /\ map_Forall (fun _ d => id_Status d <> InputDuplicate) (ij_decisions j).

(** ** Lemmas *)

Lemma decide_write_not_duplicate data w : id_Status (decide_write data w) <> InputDuplicate.
Proof. unfold decide_write. by repeat case_match. Qed.

Lemma Write_known j key data w d :
  ij_decisions j !! key = Some d -> exists r, Write j key data w = (j, r, []).
Proof. intros H. unfold Write. rewrite H. repeat case_match; eauto. Qed.

(** A call either leaves the journal alone and writes nothing, or records the
    decision for a fresh key and writes the data once. *)
Lemma Write_cases j key data w j' r ws :
  Write j key data w = (j', r, ws) ->
  (j' = j /\ ws = [])
  \/ (exists o, w = Some o /\ ij_decisions j !! key = None /\ ws = [data]
        /\ ik_Generation key = ij_current j
        /\ Z.of_nat (size (ij_decisions j)) < ij_max j
        /\ j' = mkJournal (ij_current j) (ij_max j) (<[key := decide_write data o]> (ij_decisions j))
        /\ r = Ok (publicDecision (decide_write data o))).
Proof.
  unfold Write. repeat case_match; intros; simplify_eq; auto.
  right. eexists. split_and!; try done; [|lia]. by apply dec_stable.
Qed.

Lemma insert_fresh_ok j key d :
  ij_decisions j !! key = None -> Z.of_nat (size (ij_decisions j)) < ij_max j ->
  id_Status d <> InputDuplicate -> journal_ok j ->
  journal_ok (mkJournal (ij_current j) (ij_max j) (<[key := d]> (ij_decisions j))).
Proof.
  intros Hn Hs Hd [H1 H2]. split; simpl.
  - rewrite map_size_insert_None by done. lia.
  - by apply map_Forall_insert_2.
Qed.

Lemma run_op_ok j key op j' ws : run_op j key op = (j', ws) -> journal_ok j -> journal_ok j'.
Proof.
  intros Hrun Hok. destruct op as [k data w|g|k h s b c]; simpl in Hrun.
  - destruct (Write j k data w) as [[j1 r] ws1] eqn:E. simplify_eq.
    apply Write_cases in E as [[-> _]|(o & -> & Hn & _ & _ & Hs & -> & _)]; [done|].
    apply insert_fresh_ok; auto using decide_write_not_duplicate.
  - by simplify_eq.
  - unfold Restore in Hrun. repeat case_match; simplify_eq/=; try done.
    apply insert_fresh_ok; try done; [lia|]. simpl. naive_solver.
Qed.

Lemma run_op_known j key op j' ws d :
  run_op j key op = (j', ws) -> ij_decisions j !! key = Some d ->
  ws = [] /\ ij_decisions j' !! key = Some d.
Proof.
  intros Hrun Hd. destruct op as [k data w|g|k h s b c]; simpl in Hrun.
  - destruct (decide (k = key)) as [->|Hk].
    + destruct (Write_known j key data w d Hd) as [r E]. rewrite E in Hrun. by simplify_eq.
    + destruct (Write j k data w) as [[j1 r] ws1] eqn:E. simplify_eq. split; [done|].
      apply Write_cases in E as [[-> _]|(o & -> & Hn & _ & _ & Hs & -> & _)]; [done|].
      simpl. by rewrite lookup_insert_ne.
  - by simplify_eq.
  - unfold Restore in Hrun. repeat case_match; simplify_eq/=; try done.
    split; [done|]. rewrite lookup_insert_ne by congruence. done.
Qed.

Lemma run_ops_known ops : forall j key j' ws d,
  run_ops j key ops = (j', ws) -> ij_decisions j !! key = Some d ->
  ws = [] /\ ij_decisions j' !! key = Some d.
Proof.
  induction ops as [|op ops IH]; intros j key j' ws d; simpl; [by intros [= <- <-]|].
  destruct (run_op j key op) as [j1 ws1] eqn:E1. destruct (run_ops j1 key ops) as [j2 ws2] eqn:E2.
  intros [= <- <-] Hd. destruct (run_op_known _ _ _ _ _ _ E1 Hd) as [-> Hd1].
  destruct (IH _ _ _ _ _ E2 Hd1) as [-> ?]. done.
Qed.

(** ** Properties *)

(** C4.  At most once: whatever the journal holds at the start and however writes,
    retries, generation changes and restores interleave, the bytes for one input
    identity are handed to the PTY at most once. *)
Theorem input_at_most_once (j : InputJournal) (key : InputKey) (ops : list input_op) :
  (length (run_ops j key ops).2 <= 1)%nat.
Proof.
  revert j. induction ops as [|op ops IH]; intros j; simpl; [lia|].
  destruct (run_op j key op) as [j1 ws1] eqn:E1. specialize (IH j1).
  destruct (run_ops j1 key ops) as [j2 ws2] eqn:E2. simpl in *. rewrite length_app.
  destruct op as [k data w|g|k h s b c]; simpl in E1.
  - destruct (Write j k data w) as [[j' r] ws'] eqn:E. simplify_eq.
    apply Write_cases in E as [[-> ->]|(o & -> & _ & -> & _ & _ & -> & _)]; case_decide; simpl; try lia.
    subst k. eapply run_ops_known in E2 as [-> _]; [simpl; lia|]. simpl. apply lookup_insert_eq.
  - simplify_eq. simpl. lia.
  - simplify_eq. simpl. lia.
Qed.

(** Retries are answered from the decision: after a write that reached the PTY,
    and after any further calls, repeating the identity with content of the same
    digest writes nothing and reports the recorded outcome (an accepted one as a
    duplicate), and with another digest it is refused as a conflict; the journal
    does not change. *)
Theorem input_retry (j j1 j2 : InputJournal) (key : InputKey) (data data' : list byte)
    (o o' : WriteOutcome) (r : result input_error InputDecision) (ws ws2 : writes)
    (ops : list input_op) :
  Write j key data (Some o) = (j1, r, [data]) ->
  run_ops j1 key ops = (j2, ws2) ->
  Write j2 key data' (Some o') =
    (j2,
     (if decide (sha256 data = sha256 data')
      then Ok (mkDecision
                 (if decide (id_Status (decide_write data o) = InputAccepted) then InputDuplicate
                  else id_Status (decide_write data o))
                 (wo_n o) (if wo_err o then "pty_write_failed" else "") zero_digest)
      else Err ErrInputConflict),
     []).
Proof.
  intros Hw Hrun.
  assert (Hkey : ij_decisions j1 !! key = Some (decide_write data o)
                 /\ ~ (ik_ClientID key = "" \/ ik_AttachmentID key = "" \/ ik_InputID key = ""
                        \/ ik_Generation key = 0)).
  { pose proof Hw as Hw'. unfold Write in Hw'. case_decide as Hv; [by simplify_eq|]. split; [|done].
    apply Write_cases in Hw as [[_ ?]|(o1 & [= <-] & _ & _ & _ & _ & -> & _)]; [done|].
    simpl. apply lookup_insert_eq. }
  destruct Hkey as [Hd Hv]. eapply run_ops_known in Hrun as [_ Hd2]; [|done].
  unfold Write. rewrite decide_False, Hd2 by done.
  assert (Hh : id_hash (decide_write data o) = sha256 data /\ id_BytesWritten (decide_write data o) = wo_n o
               /\ id_WriteError (decide_write data o) = if wo_err o then "pty_write_failed" else "").
  { unfold decide_write. by destruct (wo_err o). }
  destruct Hh as (Hh & Hb & He). rewrite Hh.
  destruct (decide (sha256 data = sha256 data')); [rewrite decide_False by tauto|by rewrite decide_True by done].
  unfold publicDecision. case_decide; simpl; by rewrite Hb, He.
Qed.

(** Bounded journal: from any journal within its bound, every sequence of calls
    keeps at most [max] decisions, none of them recorded as a duplicate. *)
Theorem input_journal_bounded (j : InputJournal) (key : InputKey) (ops : list input_op) :
  journal_ok j -> journal_ok (run_ops j key ops).1.
Proof.
  revert j. induction ops as [|op ops IH]; intros j Hok; simpl; [done|].
  destruct (run_op j key op) as [j1 ws1] eqn:E1. specialize (IH j1 (run_op_ok _ _ _ _ _ E1 Hok)).
  by destruct (run_ops j1 key ops).
Qed.

(** What a first write records: a complete write is accepted, one that moved no
    byte is rejected (unless there was nothing to write), a partial one is
    uncertain, and an identity of another generation never reaches the PTY. *)
Theorem input_first_write (j : InputJournal) (key : InputKey) (data : list byte) (o : WriteOutcome) :
  ij_decisions j !! key = None -> ik_ClientID key <> "" -> ik_AttachmentID key <> "" ->
  ik_InputID key <> "" -> ik_Generation key <> 0 -> Z.of_nat (size (ij_decisions j)) < ij_max j ->
  (ik_Generation key <> ij_current j ->
     Write j key data (Some o) = (j, Err (StaleGenerationError (ij_current j)), []))
  /\ (ik_Generation key = ij_current j ->
     exists j' d, Write j key data (Some o) = (j', Ok d, [data])
       /\ ij_decisions j' = <[key := decide_write data o]> (ij_decisions j)
       /\ (wo_n o = len data -> id_Status d = InputAccepted)
       /\ (wo_n o = 0 -> data <> [] -> id_Status d = InputRejected)
       /\ (0 < wo_n o < len data -> id_Status d = InputUncertain)).
Proof.
  intros Hn H1 H2 H3 H4 Hs. unfold Write. rewrite decide_False by tauto. rewrite Hn.
  rewrite decide_False by lia. split; intros Hg.
  - by rewrite decide_True by done.
  - rewrite decide_False by tauto. eexists _, _. split; [reflexivity|]. split; [reflexivity|].
    unfold publicDecision, decide_write; simpl.
    split_and!.
    + intros ->. rewrite (decide_True (P := len data = len data)) by done.
      destruct (wo_err o); simpl; [|done]. by rewrite decide_False by lia.
    + intros -> Hne. assert (0 < len data) by (destruct data; simpl; [done|lia]).
      rewrite (decide_False (P := 0 = len data)) by lia. rewrite (decide_True (P := 0 = 0)) by done.
      by destruct (wo_err o).
    + intros Hr. rewrite (decide_False (P := wo_n o = len data)), (decide_False (P := wo_n o = 0)) by lia.
      destruct (wo_err o); simpl; [|done]. by rewrite decide_True by done.
Qed.

End Journal.

(** ** Witnesses *)

Definition demo_hash (data : list byte) : digest := take 32 (data ++ zero_digest).
Definition demo_key : InputKey := mkKey "c" "a" 1 "i1".

Lemma input_retry_witness :
  Write demo_hash (mkJournal 1 8 {[demo_key := decide_write demo_hash [x61] (mkOutcome 1 false)]})
    demo_key [x62] (Some (mkOutcome 1 false))
  = (mkJournal 1 8 {[demo_key := decide_write demo_hash [x61] (mkOutcome 1 false)]},
     Err ErrInputConflict, []).
Proof.
  rewrite (input_retry demo_hash (NewBoundedInputJournal 1 8)
    (mkJournal 1 8 {[demo_key := decide_write demo_hash [x61] (mkOutcome 1 false)]})
    (mkJournal 1 8 {[demo_key := decide_write demo_hash [x61] (mkOutcome 1 false)]})
    demo_key [x61] [x62] (mkOutcome 1 false) (mkOutcome 1 false)
    (Ok (publicDecision (decide_write demo_hash [x61] (mkOutcome 1 false)))) [] [] []);
    [vm_compute; reflexivity|vm_compute; reflexivity|reflexivity].
Defined.

Lemma input_journal_bounded_witness :
  journal_ok (run_ops demo_hash (NewBoundedInputJournal 1 1) demo_key
                [OpWrite demo_key [x61] (Some (mkOutcome 1 false));
                 OpWrite (mkKey "c" "a" 1 "i2") [x62] (Some (mkOutcome 1 false))]).1.
Proof.
  apply (input_journal_bounded demo_hash). split; [vm_compute; discriminate|apply map_Forall_empty].
Defined.

Lemma input_first_write_witness :
  exists j' d, Write demo_hash (NewBoundedInputJournal 1 8) demo_key [x61; x62] (Some (mkOutcome 1 true))
               = (j', Ok d, [[x61; x62]]) /\ id_Status d = InputUncertain.
Proof.
  destruct (proj2 (input_first_write demo_hash (NewBoundedInputJournal 1 8) demo_key [x61; x62]
              (mkOutcome 1 true) eq_refl ltac:(discriminate) ltac:(discriminate) ltac:(discriminate)
              ltac:(discriminate) eq_refl) eq_refl) as (j' & d & H & _ & _ & _ & Hu).
  exists j', d. split; [exact H|]. apply Hu. simpl. lia.
Defined.
