(* ===== verification/Fanout.v ===== *)
(** * Output fan-out ([internal/session/fanout.go])

    One ordered ring of immutable chunks serves every attachment of a session;
    an attachment is a sequence cursor with a byte budget.  The definitions follow
    the Go methods with the buffer heap threaded through; Go's unordered map
    iteration is [map_to_list], and no theorem depends on its order.  The ghost
    chunk list [H] of the invariant is the session's whole output: the theorems
    show that an attachment receives exactly the bytes of [H] from its cursor on,
    in order and without gap or repetition, until it detaches or is evicted for
    exceeding its budget, and that publishing the next chunk never fails. *)

From S2P Require Import Prelude Lifecycle Buffers History.

Inductive fanout_error :=
| ErrAttachmentExists
| ErrAttachmentUnknown
| ErrAttachmentEvicted
| ErrOutputOrder
| ErrInvalidQueueLimit
| ErrAttachmentTransition.   (* the shared [ErrInvalidTransition] *)

#[global] Instance fanout_error_eq_dec : EqDecision fanout_error.
Proof. solve_decision. Defined.

Record Eviction := mkEviction {
  evi_AttachmentID : string;
  evi_QueuedBytes : Z;
  evi_Reason : string
}.

Record attachmentCursor := mkCursor {
  ac_state : AttachmentState;
  ac_maxBytes : Z;
  ac_queuedBytes : Z;
  ac_evictedBytes : Z;
  ac_cursor : Z;
  ac_enqueuedEnd : Z;
  ac_hasCursor : bool;
  ac_notify : bool    (* the one-slot channel holds a token *)
}.

Record Fanout := mkFanout {
  fo_attachments : gmap string attachmentCursor;
  fo_active : gset string;
  fo_ring : list Event
}.

Definition NewFanout : Fanout := mkFanout ∅ ∅ [].

(** [notify]: put a token unless one is waiting. *)
Definition notify (c : attachmentCursor) : attachmentCursor :=
  mkCursor (ac_state c) (ac_maxBytes c) (ac_queuedBytes c) (ac_evictedBytes c) (ac_cursor c)
    (ac_enqueuedEnd c) (ac_hasCursor c) true.

Definition validOutputEvent (e : Event) : bool :=
  bool_decide (ev_StartSequence e <= ev_EndSequence e)
  && bool_decide (u64_sub (ev_EndSequence e) (ev_StartSequence e) = len (ev_Data e))
  && negb (bool_decide (ev_Data e = [])).

(** *** The ring *)

(** [sort.Search]: binary search for the first index where [f] holds. *)
Fixpoint sort_Search_loop (fuel : nat) (f : nat -> bool) (i j : nat) : nat :=
  match fuel with
  | O => i
  | S fuel' =>
      if decide (i < j)%nat then
        let h := ((i + j) / 2)%nat in
        if f h then sort_Search_loop fuel' f i h else sort_Search_loop fuel' f (S h) j
      else i
  end.
Definition sort_Search (n : nat) (f : nat -> bool) : nat := sort_Search_loop n f 0 n.

Definition eventAtLocked (ring : list Event) (sequence : Z) : option Event :=
  let index := sort_Search (length ring) (fun i =>
    match ring !! i with
    | Some e => bool_decide (sequence < ev_EndSequence e)
    | None => false
    end) in
  match ring !! index with
  | None => None
  | Some e => if decide (sequence < ev_StartSequence e) then None else Some e
  end.

(** [outer] covers [inner] with the same channel and bytes. *)
Definition covers (outer inner : Event) : bool :=
  if decide (ev_StartSequence outer <= ev_StartSequence inner) then
    if decide (ev_EndSequence inner <= ev_EndSequence outer) then
      if decide (ev_Channel outer = ev_Channel inner) then
        bool_decide (slice (ev_Data outer)
                       (u64_sub (ev_StartSequence inner) (ev_StartSequence outer))
                       (u64_sub (ev_EndSequence inner) (ev_StartSequence outer)) = ev_Data inner)
      else false
    else false
  else false.

Inductive scan_result := ScanCovered | ScanReplaces (index : nat) | ScanNone.

(** The [for index, existing := range f.ring] loop of [insertEventLocked]. *)
Fixpoint insert_scan (index : nat) (ring : list Event) (event : Event) : scan_result :=
  match ring with
  | [] => ScanNone
  | existing :: rest =>
      if covers existing event then ScanCovered
      else if covers event existing then ScanReplaces index
      else insert_scan (S index) rest event
  end.

(** The order of the [sort.Slice] call. *)
Definition ring_le (x y : Event) : Prop :=
  ev_StartSequence x < ev_StartSequence y
  \/ ev_StartSequence x = ev_StartSequence y /\ ev_EndSequence y <= ev_EndSequence x.

#[global] Instance ring_le_dec x y : Decision (ring_le x y).
Proof. unfold ring_le. apply _. Defined.

(** The recursion drops one ring entry each time: the ring's length is enough fuel. *)
Fixpoint insertEvent_loop (fuel : nat) (hp : heap) (ring : list Event) (event : Event)
    : heap * list Event :=
  match insert_scan 0 ring event with
  | ScanCovered => (hp, ring)
  | ScanReplaces index =>
      match fuel, ring !! index with
      | S fuel', Some existing =>
          insertEvent_loop fuel' (Release hp existing) (delete index ring) event
      | _, _ => (hp, ring)
      end
  | ScanNone => (Retain hp event, merge_sort ring_le (ring ++ [event]))
  end.

Definition insertEventLocked (hp : heap) (ring : list Event) (event : Event) : heap * list Event :=
  insertEvent_loop (length ring) hp ring event.

(** The smallest cursor of the attached clients that have one. *)
Definition live_cursor (c : attachmentCursor) : option Z :=
  if decide (ac_state c = Attached /\ ac_hasCursor c = true) then Some (ac_cursor c) else None.

Definition minimum (cs : list attachmentCursor) : option Z :=
  fold_left (fun acc c =>
    match live_cursor c with
    | None => acc
    | Some k => match acc with
                | None => Some k
                | Some m => if decide (k < m) then Some k else Some m
                end
    end) cs None.

(** Release and drop the leading events that end at or before [m]. *)
Fixpoint drop_consumed (hp : heap) (ring : list Event) (m : Z) : heap * list Event :=
  match ring with
  | [] => (hp, [])
  | e :: rest => if decide (ev_EndSequence e <= m) then drop_consumed (Release hp e) rest m
                 else (hp, ring)
  end.

Definition compactLocked (hp : heap) (f : Fanout) : heap * Fanout :=
  match minimum ((map_to_list (fo_attachments f)).*2) with
  | None => (ReleaseAll hp (fo_ring f), mkFanout (fo_attachments f) (fo_active f) [])
  | Some m =>
      let '(hp1, ring1) := drop_consumed hp (fo_ring f) m in
      (hp1, mkFanout (fo_attachments f) (fo_active f) ring1)
  end.

(** *** Operations *)

Definition Attach (f : Fanout) (attachmentID : string) (maxPendingBytes : Z)
    : result fanout_error Fanout :=
  if decide (attachmentID = "" \/ maxPendingBytes = 0) then Err ErrInvalidQueueLimit
  else if decide ((ac_state <$> fo_attachments f !! attachmentID) = Some Attached)
  then Err ErrAttachmentExists
  else Ok (mkFanout (<[attachmentID := mkCursor Attached maxPendingBytes 0 0 0 0 false false]>
                       (fo_attachments f))
             ({[attachmentID]} ∪ fo_active f) (fo_ring f)).

(** Returns the detached cursor, which a blocked reader may still hold. *)
Definition Detach (hp : heap) (f : Fanout) (attachmentID : string)
    : heap * Fanout * result fanout_error attachmentCursor :=
  match fo_attachments f !! attachmentID with
  | None => (hp, f, Err ErrAttachmentUnknown)
  | Some c =>
      if decide (ac_state c <> Attached /\ ac_state c <> Evicted)
      then (hp, f, Err ErrAttachmentTransition)
      else
        let c' := notify (mkCursor Detached (ac_maxBytes c) (ac_queuedBytes c) (ac_evictedBytes c)
                            (ac_cursor c) (ac_enqueuedEnd c) (ac_hasCursor c) (ac_notify c)) in
        let f1 := mkFanout (delete attachmentID (fo_attachments f))
                    (fo_active f ∖ {[attachmentID]}) (fo_ring f) in
        let '(hp1, f2) := compactLocked hp f1 in
        (hp1, f2, Ok c')
  end.

Definition Count (f : Fanout) : Z :=
  len (filter (fun c => ac_state c = Attached) ((map_to_list (fo_attachments f)).*2)).

Definition IsAttached (f : Fanout) (attachmentID : string) : bool :=
  bool_decide (attachmentID ∈ fo_active f).

(** Slow consumer: the queue is dropped and the cursor leaves the fan-out. *)
Definition evict (c : attachmentCursor) : attachmentCursor :=
  notify (mkCursor Evicted (ac_maxBytes c) 0 (ac_queuedBytes c) (ac_cursor c) (ac_enqueuedEnd c)
            (ac_hasCursor c) (ac_notify c)).

(** The event joins the queue of the cursor. *)
Definition enqueue (event : Event) (c : attachmentCursor) : attachmentCursor :=
  notify (mkCursor (ac_state c) (ac_maxBytes c)
            (u64_add (ac_queuedBytes c) (len (ev_Data event))) (ac_evictedBytes c)
            (if ac_hasCursor c then ac_cursor c else ev_StartSequence event)
            (ev_EndSequence event) true (ac_notify c)).

Definition overflows (event : Event) (c : attachmentCursor) : bool :=
  bool_decide (u64_sub (ac_maxBytes c) (ac_queuedBytes c) < len (ev_Data event)).

(** The body of the second loop of [PublishOwned] for one cursor. *)
Definition publish_cursor (event : Event) (c : attachmentCursor) : attachmentCursor :=
  if decide (ac_state c <> Attached) then c
  else if overflows event c then evict c
  else enqueue event c.

Definition evicted_now (event : Event) (c : attachmentCursor) : bool :=
  bool_decide (ac_state c = Attached) && overflows event c.

Definition publish_conflict (event : Event) (c : attachmentCursor) : bool :=
  bool_decide (ac_state c = Attached) && ac_hasCursor c
  && negb (bool_decide (ac_enqueuedEnd c = ev_StartSequence event)).

Definition PublishOwned (hp : heap) (f : Fanout) (event : Event)
    : heap * Fanout * result fanout_error (list Eviction) :=
  if validOutputEvent event then
    if existsb (fun kc => publish_conflict event kc.2) (map_to_list (fo_attachments f))
    then (hp, f, Err ErrOutputOrder)
    else
      let '(hp1, ring1) := insertEventLocked hp (fo_ring f) event in
      let gone := filter (fun kc => evicted_now event kc.2 = true) (map_to_list (fo_attachments f)) in
      let evictions := (fun kc => mkEviction kc.1 (ac_queuedBytes kc.2) "slow_consumer") <$> gone in
      let f1 := mkFanout (publish_cursor event <$> fo_attachments f)
                  (fo_active f ∖ list_to_set gone.*1) ring1 in
      let '(hp2, f2) := compactLocked hp1 f1 in
      (hp2, f2, Ok evictions)
  else (hp, f, Err ErrOutputOrder).

Definition EnqueueOwned (hp : heap) (f : Fanout) (attachmentID : string) (event : Event)
    : heap * Fanout * result fanout_error (option Eviction) :=
  if validOutputEvent event then
    match fo_attachments f !! attachmentID with
    | None => (hp, f, Err ErrAttachmentUnknown)
    | Some c =>
        if decide (ac_state c = Evicted) then (hp, f, Err ErrAttachmentEvicted)
        else if decide (ac_state c <> Attached) then (hp, f, Err ErrAttachmentTransition)
        else if decide (ac_hasCursor c = true /\ ac_enqueuedEnd c <> ev_StartSequence event)
        then (hp, f, Err ErrOutputOrder)
        else if overflows event c then
          let f1 := mkFanout (<[attachmentID := evict c]> (fo_attachments f))
                      (fo_active f ∖ {[attachmentID]}) (fo_ring f) in
          let '(hp1, f2) := compactLocked hp f1 in
          (hp1, f2, Ok (Some (mkEviction attachmentID (ac_queuedBytes c) "slow_consumer")))
        else
          let '(hp1, ring1) := insertEventLocked hp (fo_ring f) event in
          (hp1, mkFanout (<[attachmentID := enqueue event c]> (fo_attachments f)) (fo_active f) ring1,
           Ok None)
    end
  else (hp, f, Err ErrOutputOrder).

(** [Publish] and [Enqueue] copy the caller's bytes first; bytes are values here. *)
Definition Publish (hp : heap) (f : Fanout) (event : Event)
    : heap * Fanout * result fanout_error (list Eviction) := PublishOwned hp f event.
Definition Enqueue (hp : heap) (f : Fanout) (attachmentID : string) (event : Event)
    : heap * Fanout * result fanout_error (option Eviction) := EnqueueOwned hp f attachmentID event.

(** The cursor after delivering the event up to its end. *)
Definition advance (c : attachmentCursor) (stop : Z) : attachmentCursor :=
  mkCursor (ac_state c) (ac_maxBytes c) (u64_sub (ac_queuedBytes c) (u64_sub stop (ac_cursor c)))
    (ac_evictedBytes c) stop (ac_enqueuedEnd c) (ac_hasCursor c) (ac_notify c).

(** The part of the ring event that the cursor has not seen. *)
Definition unseen (e : Event) (start : Z) (owner : option positive) : Event :=
  mkEvent (ev_Channel e) start (ev_EndSequence e)
    (drop (Z.to_nat (u64_sub start (ev_StartSequence e))) (ev_Data e)) owner.

Definition Next (hp : heap) (f : Fanout) (attachmentID : string)
    : heap * Fanout * result fanout_error (option Event) :=
  match fo_attachments f !! attachmentID with
  | None => (hp, f, Err ErrAttachmentUnknown)
  | Some c =>
      if decide (ac_state c = Evicted) then (hp, f, Err ErrAttachmentEvicted)
      else if decide (ac_state c <> Attached) then (hp, f, Err ErrAttachmentTransition)
      else if decide (ac_hasCursor c = false \/ ac_enqueuedEnd c <= ac_cursor c)
      then (hp, f, Ok None)
      else match eventAtLocked (fo_ring f) (ac_cursor c) with
      | None => (hp, f, Err ErrOutputOrder)
      | Some e =>
          let f1 := mkFanout (<[attachmentID := advance c (ev_EndSequence e)]> (fo_attachments f))
                      (fo_active f) (fo_ring f) in
          let '(hp1, f2) := compactLocked hp f1 in
          (hp1, f2, Ok (Some (unseen e (ac_cursor c) None)))
      end
  end.

Inductive wait_result :=
| WaitReady (r : result fanout_error Event)
| WaitBlocked.   (* the reader sleeps on the notify channel or the context *)

(** One iteration of the loop of [WaitNextOwned], up to the [select]. *)
Definition WaitNextOwned (hp : heap) (f : Fanout) (attachmentID : string)
    : heap * Fanout * wait_result :=
  match fo_attachments f !! attachmentID with
  | None => (hp, f, WaitReady (Err ErrAttachmentUnknown))
  | Some c =>
      if decide (ac_state c = Evicted) then (hp, f, WaitReady (Err ErrAttachmentEvicted))
      else if decide (ac_state c <> Attached) then (hp, f, WaitReady (Err ErrAttachmentTransition))
      else if decide (ac_hasCursor c = true /\ ac_cursor c < ac_enqueuedEnd c) then
        match eventAtLocked (fo_ring f) (ac_cursor c) with
        | None => (hp, f, WaitReady (Err ErrOutputOrder))
        | Some e =>
            let hp1 := Retain hp e in
            let retained := unseen e (ac_cursor c) (ev_owner e) in
            let f1 := mkFanout (<[attachmentID := advance c (ev_EndSequence e)]> (fo_attachments f))
                        (fo_active f) (fo_ring f) in
            let '(hp2, f2) := compactLocked hp1 f1 in
            (hp2, f2, WaitReady (Ok retained))
        end
      else (hp, f, WaitBlocked)
  end.

Definition Status (f : Fanout) (attachmentID : string) : result fanout_error (AttachmentState * Z) :=
  match fo_attachments f !! attachmentID with
  | None => Err ErrAttachmentUnknown
  | Some c => Ok (ac_state c, if decide (ac_state c = Evicted) then ac_evictedBytes c
                              else ac_queuedBytes c)
  end.

(** ** Invariant *)

(** [y] is the part of the chunk [e] from some position up to its end. *)
Definition suffix_of (y e : Event) : Prop :=
  ev_Channel y = ev_Channel e /\ ev_EndSequence y = ev_EndSequence e
  /\ ev_StartSequence e <= ev_StartSequence y < ev_EndSequence y
  /\ ev_Data y = drop (Z.to_nat (ev_StartSequence y - ev_StartSequence e)) (ev_Data e).

Definition before (x y : Event) : Prop := ev_EndSequence x <= ev_StartSequence y.

(** The ring holds suffixes of the chunks [H], at disjoint ranges in order. *)
Definition ring_ok (H ring : list Event) : Prop :=
  (forall y, y ∈ ring -> exists e, e ∈ H /\ suffix_of y e) /\ StronglySorted before ring.

(** Position [s] is held by the ring. *)
Definition held_at (ring : list Event) (s : Z) : Prop :=
  exists e, e ∈ ring /\ ev_StartSequence e <= s < ev_EndSequence e.

(** [k] is the end of a prefix of the chunks. *)
Definition boundary (B : Z) (H : list Event) (k : Z) : Prop :=
  exists H1 H2, H = H1 ++ H2 /\ contiguous B H1 k.

Record cursor_ok (B L : Z) (H ring : list Event) (c : attachmentCursor) : Prop := {
  co_budget : 0 <= ac_queuedBytes c <= ac_maxBytes c;
  co_max : ac_maxBytes c < two64;
  co_none : ac_hasCursor c = false -> ac_queuedBytes c = 0;
  co_range : ac_hasCursor c = true -> B <= ac_cursor c <= ac_enqueuedEnd c;
  co_bound : ac_hasCursor c = true -> boundary B H (ac_enqueuedEnd c);
  co_queued : ac_hasCursor c = true -> ac_queuedBytes c = ac_enqueuedEnd c - ac_cursor c;
  co_held : ac_hasCursor c = true ->
            forall s, ac_cursor c <= s < ac_enqueuedEnd c -> held_at ring s
}.

(** [H] is the session's output from sequence [B] to [L]; [R] the buffer references
    held outside the ring. *)
Record fanout_ok (B L : Z) (H R : list Event) (hp : heap) (f : Fanout) : Prop := {
  fk_base : 0 <= B;
  fk_top : L < two64;
  fk_chunks : contiguous B H L;
  fk_ring : ring_ok H (fo_ring f);
  fk_cursors : forall id c, fo_attachments f !! id = Some c -> ac_state c = Attached ->
                 cursor_ok B L H (fo_ring f) c;
  fk_active : forall id, id ∈ fo_active f <-> (ac_state <$> fo_attachments f !! id) = Some Attached;
  fk_heap : accounted hp (fo_ring f ++ R)
}.

(** Every attached client that has a cursor has been given everything up to [L]. *)
Definition caught_up (L : Z) (f : Fanout) : Prop :=
  forall id c, fo_attachments f !! id = Some c -> ac_state c = Attached -> ac_hasCursor c = true ->
    ac_enqueuedEnd c = L.

(** ** Binary search *)

Section Search.
Context (f : nat -> bool) (n : nat) (mono : forall i j, (i <= j < n)%nat -> f i = true -> f j = true).

Lemma sort_Search_loop_spec fuel : forall i j,
  (j - i <= fuel)%nat -> (i <= j <= n)%nat ->
  (forall k, (k < i)%nat -> f k = false) -> (forall k, (j <= k < n)%nat -> f k = true) ->
  let r := sort_Search_loop fuel f i j in
  (r <= n)%nat /\ (forall k, (k < r)%nat -> f k = false) /\ (forall k, (r <= k < n)%nat -> f k = true).
Proof using mono.
  induction fuel as [|fuel IH]; intros i j Hf Hij Hlo Hhi; cbn [sort_Search_loop].
  - assert (i = j) as -> by lia. split_and!; [lia|done|done].
  - case_decide; [|assert (i = j) as -> by lia; split_and!; [lia|done|done]].
    set (h := ((i + j) / 2)%nat).
    assert (Hh : (i <= h < j)%nat).
    { unfold h. pose proof (Nat.div_mod_eq (i + j) 2). pose proof (Nat.mod_upper_bound (i + j) 2). lia. }
    fold h. destruct (f h) eqn:Ef; apply IH; try lia; try done.
    + intros k Hk. apply (mono h k); [lia|done].
    + intros k Hk. destruct (decide (k < i)%nat); [auto|].
      destruct (f k) eqn:E; [|done]. rewrite (mono k h) in Ef; [done|lia|done].
Qed.

Lemma sort_Search_spec :
  let r := sort_Search n f in
  (r <= n)%nat /\ (forall k, (k < r)%nat -> f k = false) /\ (forall k, (r <= k < n)%nat -> f k = true).
Proof using mono. apply sort_Search_loop_spec; lia. Qed.
End Search.

(** ** The ring *)

Lemma suffix_refl e : ev_StartSequence e < ev_EndSequence e -> suffix_of e e.
Proof. intros Hlt. unfold suffix_of. rewrite Z.sub_diag. split_and!; (done || lia). Qed.

Lemma suffix_of_len y e :
  suffix_of y e -> ev_EndSequence e = ev_StartSequence e + len (ev_Data e) ->
  ev_EndSequence y = ev_StartSequence y + len (ev_Data y).
Proof. intros (_ & Hend & Hr & ->) He. rewrite length_drop. lia. Qed.

Lemma boundary_le B H L k : contiguous B H L -> boundary B H k -> B <= k <= L.
Proof.
  intros Hc (H1 & H2 & -> & H3). pose proof (contiguous_end _ _ _ H3).
  pose proof (contiguous_end _ _ _ Hc) as Hl. rewrite content_app, length_app in Hl. lia.
Qed.

(** A chunk that starts before a boundary ends at or before it. *)
Lemma boundary_chunk B H L k e :
  contiguous B H L -> boundary B H k -> e ∈ H -> ev_StartSequence e < k -> ev_EndSequence e <= k.
Proof.
  intros Hc (H1 & H2 & -> & H3) He Hlt. apply elem_of_app in He as [He|He].
  - by destruct (contiguous_elem _ _ _ _ H3 He) as (_ & ? & _).
  - pose proof (contiguous_app_inv _ _ _ _ _ Hc H3) as Hc2.
    destruct (contiguous_elem _ _ _ _ Hc2 He) as (? & _). lia.
Qed.

(** Two chunks are the same or at disjoint ranges. *)
Lemma contiguous_disjoint B H L e1 e2 :
  contiguous B H L -> e1 ∈ H -> e2 ∈ H -> e1 = e2 \/ before e1 e2 \/ before e2 e1.
Proof.
  revert B. induction H as [|e H IH]; intros B; [set_solver|]. intros (Hs & He & Hc) H1 H2.
  unfold before. apply elem_of_cons in H1 as [->|H1], H2 as [->|H2]; eauto.
  all: try (by left).
  - right; left. by destruct (contiguous_elem _ _ _ _ Hc H2) as (? & _).
  - right; right. by destruct (contiguous_elem _ _ _ _ Hc H1) as (? & _).
Qed.

(** Two suffixes of chunks are nested, with the same end, or disjoint. *)
Lemma suffix_cases B H L x y e1 e2 :
  contiguous B H L -> e1 ∈ H -> e2 ∈ H -> suffix_of x e1 -> suffix_of y e2 ->
  (e1 = e2 /\ ev_EndSequence x = ev_EndSequence y) \/ before x y \/ before y x.
Proof.
  intros Hc H1 H2 Hx Hy. unfold before.
  destruct (contiguous_disjoint _ _ _ _ _ Hc H1 H2) as [->|[Hb|Hb]];
    destruct Hx as (_ & ? & ? & _), Hy as (_ & ? & ? & _); unfold before in *;
    [left; split; [done|congruence]|right; left; lia|right; right; lia].
Qed.

Lemma covers_spec x y :
  covers x y = true <->
  ev_StartSequence x <= ev_StartSequence y /\ ev_EndSequence y <= ev_EndSequence x
  /\ ev_Channel x = ev_Channel y
  /\ slice (ev_Data x) (u64_sub (ev_StartSequence y) (ev_StartSequence x))
                       (u64_sub (ev_EndSequence y) (ev_StartSequence x)) = ev_Data y.
Proof. unfold covers. repeat case_decide; rewrite ?bool_decide_eq_true; intuition congruence. Qed.

(** Of two suffixes of one chunk, the longer covers the other. *)
Lemma suffix_covers B L x y e :
  0 <= B -> L < two64 -> B <= ev_StartSequence e -> ev_EndSequence e <= L ->
  ev_EndSequence e = ev_StartSequence e + len (ev_Data e) ->
  suffix_of x e -> suffix_of y e -> ev_StartSequence x <= ev_StartSequence y -> covers x y = true.
Proof.
  intros HB HL Hs He Hlen (Hxc & Hxe & Hxr & Hxd) (Hyc & Hye & Hyr & Hyd) Hle.
  apply covers_spec. split_and!; [done|lia|congruence|].
  rewrite !u64_sub_small by lia. rewrite Hxd, Hyd. unfold slice. rewrite drop_drop.
  rewrite take_ge by (rewrite length_drop; lia). f_equal. lia.
Qed.

Lemma held_at_mono ring ring' s : (forall e, e ∈ ring -> e ∈ ring') -> held_at ring s -> held_at ring' s.
Proof. intros Hi (e & He & Hs). exists e. auto. Qed.

Lemma eventAtLocked_spec ring s e :
  StronglySorted before ring -> (forall y, y ∈ ring -> ev_StartSequence y < ev_EndSequence y) ->
  e ∈ ring -> ev_StartSequence e <= s < ev_EndSequence e -> eventAtLocked ring s = Some e.
Proof.
  intros Hss Hne He Hr. unfold eventAtLocked.
  set (f := fun i => match ring !! i with Some e0 => bool_decide (s < ev_EndSequence e0) | None => false end).
  assert (Hord : forall i j x y, (i < j)%nat -> ring !! i = Some x -> ring !! j = Some y -> before x y).
  { intros i j x y Hij Hi Hj. eapply (StronglySorted_app_1_elem_of before (take (S i) ring) (drop (S i) ring)).
    - by rewrite take_drop.
    - apply list_elem_of_lookup. exists i. by rewrite lookup_take_lt by lia.
    - apply list_elem_of_lookup. exists (j - S i)%nat. rewrite lookup_drop. rewrite <- Hj. f_equal. lia. }
  assert (Hmono : forall i j, (i <= j < length ring)%nat -> f i = true -> f j = true).
  { intros i j Hij. unfold f. destruct (decide (i = j)) as [->|]; [done|].
    destruct (ring !! i) as [x|] eqn:Ei; [|done].
    destruct (lookup_lt_is_Some_2 ring j) as [y Ej]; [lia|]. rewrite Ej, !bool_decide_eq_true.
    pose proof (Hord i j x y ltac:(lia) Ei Ej). unfold before in *.
    pose proof (Hne y ltac:(apply list_elem_of_lookup; eauto)). lia. }
  destruct (sort_Search_spec f (length ring) Hmono) as (Hle & Hlo & Hhi).
  set (r := sort_Search (length ring) f) in *.
  apply list_elem_of_lookup in He as [i Hi]. pose proof (lookup_lt_Some _ _ _ Hi).
  assert (r = i) as ->.
  { destruct (lt_eq_lt_dec r i) as [[Hlt|]|Hgt]; [|done|].
    - specialize (Hhi r ltac:(lia)). unfold f in Hhi. destruct (ring !! r) as [x|] eqn:Er; [|done].
      apply bool_decide_eq_true in Hhi. pose proof (Hord r i x e Hlt Er Hi). unfold before in *. lia.
    - specialize (Hlo i Hgt). unfold f in Hlo. rewrite Hi in Hlo.
      apply bool_decide_eq_false in Hlo. lia. }
  rewrite Hi, decide_False by lia. done.
Qed.

(** *** Insertion *)

Definition disjoint_ev (x y : Event) : Prop := before x y \/ before y x.

Lemma StronglySorted_sym_perm {A} (R : relation A) `{!Symmetric R} l l' :
  l ≡ₚ l' -> StronglySorted R l -> StronglySorted R l'.
Proof.
  induction 1 as [|x l l' HP IH|x y l|]; intros HS; [done| | |auto].
  - apply StronglySorted_cons in HS as [Hf HS]. constructor; [auto|by rewrite <- HP].
  - apply StronglySorted_cons in HS as [Hf HS]. apply StronglySorted_cons in HS as [Hf' HS].
    inversion Hf; subst. repeat constructor; auto.
Qed.

#[local] Instance disjoint_ev_sym : Symmetric disjoint_ev.
Proof. intros x y. unfold disjoint_ev. tauto. Qed.

#[local] Instance ring_le_trans : Transitive ring_le.
Proof. intros x y z. unfold ring_le. lia. Qed.
#[local] Instance ring_le_total : Total ring_le.
Proof. intros x y. unfold ring_le. lia. Qed.

Lemma StronglySorted_weaken l : StronglySorted before l -> StronglySorted disjoint_ev l.
Proof.
  induction 1 as [|x l HS IH Hf]; constructor; [done|].
  eapply Forall_impl; [done|]. by left.
Qed.

Lemma sort_disjoint l :
  StronglySorted disjoint_ev l -> (forall y, y ∈ l -> ev_StartSequence y < ev_EndSequence y) ->
  StronglySorted before (merge_sort ring_le l).
Proof.
  intros HS Hne. pose proof (merge_sort_Permutation ring_le l) as HP.
  pose proof (StronglySorted_merge_sort ring_le l) as Hle.
  apply (StronglySorted_sym_perm disjoint_ev l (merge_sort ring_le l)) in HS; [|done].
  assert (Hne' : forall y, y ∈ merge_sort ring_le l -> ev_StartSequence y < ev_EndSequence y)
    by (intros y; rewrite HP; auto).
  clear HP Hne. induction (merge_sort ring_le l) as [|x l' IH]; [constructor|].
  apply StronglySorted_cons in HS as [Hd HS], Hle as [Hl Hle].
  constructor; [apply IH; set_solver|]. rewrite Forall_forall in *. intros y Hy.
  specialize (Hd y Hy). specialize (Hl y Hy). pose proof (Hne' y ltac:(set_solver)).
  unfold disjoint_ev, before, ring_le in *. lia.
Qed.

Lemma StronglySorted_delete {A} (R : relation A) l i :
  StronglySorted R l -> StronglySorted R (delete i l).
Proof.
  intros HS. rewrite delete_take_drop. rewrite <- (take_drop i l) in HS.
  apply StronglySorted_app in HS as (H1 & H2 & H3). apply StronglySorted_app.
  assert (Hd : drop (S i) l = drop 1 (drop i l)) by (rewrite drop_drop; f_equal; lia).
  assert (Hsub : forall y, y ∈ drop (S i) l -> y ∈ drop i l).
  { intros y. rewrite Hd. destruct (drop i l); simpl; rewrite ?drop_0; set_solver. }
  split_and!; [auto|done|]. rewrite Hd. destruct (drop i l); simpl; [done|].
  by apply StronglySorted_cons in H3 as [_ ?].
Qed.

Lemma insert_scan_spec ring x : forall i,
  match insert_scan i ring x with
  | ScanCovered => exists y, y ∈ ring /\ covers y x = true
  | ScanReplaces k => exists j y, k = (i + j)%nat /\ ring !! j = Some y /\ covers x y = true
  | ScanNone => forall y, y ∈ ring -> covers y x = false /\ covers x y = false
  end.
Proof.
  induction ring as [|y ring IH]; intros i; simpl; [set_solver|].
  destruct (covers y x) eqn:E1; [exists y; set_solver|].
  destruct (covers x y) eqn:E2; [exists 0%nat, y; split_and!; [lia|done|done]|].
  specialize (IH (S i)). destruct (insert_scan (S i) ring x).
  - destruct IH as (z & ? & ?). exists z. set_solver.
  - destruct IH as (j & z & -> & ? & ?). exists (S j), z. split_and!; [lia|done|done].
  - intros z [->|Hz]%elem_of_cons; auto.
Qed.

Section Insert.
Context (B L : Z) (H : list Event) (HB : 0 <= B) (HL : L < two64) (Hc : contiguous B H L).

Lemma ring_ok_nonempty ring y : ring_ok H ring -> y ∈ ring -> ev_StartSequence y < ev_EndSequence y.
Proof using. intros [Hr _] Hy. destruct (Hr y Hy) as (e & _ & _ & _ & ? & _). lia. Qed.

(** A suffix that neither covers nor is covered by a ring entry is disjoint from it. *)
Lemma uncovered_disjoint ring x e y :
  ring_ok H ring -> e ∈ H -> suffix_of x e -> y ∈ ring ->
  covers y x = false -> covers x y = false -> disjoint_ev y x.
Proof using HB HL Hc.
  intros [Hr _] He Hx Hy H1 H2. destruct (Hr y Hy) as (e' & He' & Hy').
  destruct (suffix_cases _ _ _ _ _ _ _ Hc He' He Hy' Hx) as [[-> _]|?]; [|done]. exfalso.
  destruct (contiguous_elem _ _ _ _ Hc He) as (? & ? & ?).
  destruct (decide (ev_StartSequence y <= ev_StartSequence x)).
  - by rewrite (suffix_covers B L y x e) in H1.
  - by rewrite (suffix_covers B L x y e) in H2 by (done || lia).
Qed.

Lemma ring_ok_insert ring x e :
  ring_ok H ring -> e ∈ H -> suffix_of x e ->
  (forall y, y ∈ ring -> covers y x = false /\ covers x y = false) ->
  ring_ok H (merge_sort ring_le (ring ++ [x])).
Proof using HB HL Hc.
  intros Hring He Hx Hno. pose proof Hring as [Hr HS]. split.
  - intros y. rewrite (merge_sort_Permutation ring_le (ring ++ [x])).
    intros [Hy| ->%list_elem_of_singleton]%elem_of_app; eauto.
  - apply sort_disjoint.
    + apply StronglySorted_app. split_and!; [|by apply StronglySorted_weaken|by repeat constructor].
      intros y1 y2 Hy1 ->%list_elem_of_singleton. destruct (Hno y1 Hy1).
      by eapply uncovered_disjoint.
    + intros y [Hy| ->%list_elem_of_singleton]%elem_of_app; [by eapply ring_ok_nonempty|].
      destruct Hx as (_ & _ & ? & _). lia.
Qed.

Lemma insert_none_spec hp ring x e R :
  ring_ok H ring -> e ∈ H -> suffix_of x e -> accounted hp (ring ++ R) -> x ∈ R ->
  (forall y, y ∈ ring -> covers y x = false /\ covers x y = false) ->
  let ring' := merge_sort ring_le (ring ++ [x]) in
  ring_ok H ring' /\ accounted (Retain hp x) (ring' ++ R)
  /\ (forall s, held_at ring s \/ ev_StartSequence x <= s < ev_EndSequence x -> held_at ring' s).
Proof using HB HL Hc.
  intros Hring He Hx HA HxR Hno ring'. pose proof (merge_sort_Permutation ring_le (ring ++ [x])) as HP.
  split_and!; [by eapply ring_ok_insert| |].
  - eapply accounted_perm; [|eapply (accounted_Retain hp (ring ++ R) x x)]; try done.
    + unfold ring'. rewrite HP. solve_Permutation.
    + set_solver.
    + eapply acc_backed; [done|set_solver].
  - intros s [(y & Hy & Hs)|Hs]; [exists y|exists x]; split; try done;
      unfold ring'; rewrite HP; set_solver.
Qed.

Lemma insertEvent_loop_spec fuel : forall hp ring x e R,
  (length ring <= fuel)%nat -> ring_ok H ring -> e ∈ H -> suffix_of x e ->
  accounted hp (ring ++ R) -> x ∈ R ->
  let '(hp', ring') := insertEvent_loop fuel hp ring x in
  ring_ok H ring' /\ accounted hp' (ring' ++ R)
  /\ (forall s, held_at ring s \/ ev_StartSequence x <= s < ev_EndSequence x -> held_at ring' s).
Proof using HB HL Hc.
  induction fuel as [|fuel IH]; intros hp ring x e R Hf Hring He Hx HA HxR; simpl;
    pose proof (insert_scan_spec ring x 0) as Hscan; destruct (insert_scan 0 ring x) as [|k|].
  - destruct ring; [set_solver|simpl in *; lia].
  - destruct Hscan as (j & y & _ & Hj & _). destruct ring; [done|simpl in *; lia].
  - by eapply insert_none_spec.
  - split_and!; try done. intros s [?|Hs]; [done|]. destruct Hscan as (y & Hy & Hcov).
    apply covers_spec in Hcov as (? & ? & _). exists y. split; [done|lia].
  - destruct Hscan as (j & y & -> & Hj & Hcov). simpl. rewrite Hj.
    pose proof (delete_Permutation ring j y Hj) as HP.
    assert (Hlen : (length (delete j ring) <= fuel)%nat).
    { pose proof (Permutation_length HP). simpl in *. lia. }
    specialize (IH (Release hp y) (delete j ring) x e R Hlen).
    destruct (insertEvent_loop fuel (Release hp y) (delete j ring) x) as [hp' ring'].
    destruct IH as (H1 & H2 & H3); try done.
    + destruct Hring as [Hr HS]. split; [|by apply StronglySorted_delete].
      intros z Hz. apply Hr. rewrite HP. set_solver.
    + apply accounted_Release. exact (accounted_perm _ _ _ (Permutation_app_tail R HP) HA).
    + split_and!; try done. intros s [(z & Hz & Hs)|Hs]; [|auto]. apply H3.
      rewrite HP in Hz. apply elem_of_cons in Hz as [->|Hz]; [right|left; by exists z].
      apply covers_spec in Hcov as (? & ? & _). lia.
  - by eapply insert_none_spec.
Qed.
End Insert.

(** ** Compaction *)

Lemma minimum_spec cs :
  match minimum cs with
  | None => forall c, c ∈ cs -> live_cursor c = None
  | Some m => (forall c k, c ∈ cs -> live_cursor c = Some k -> m <= k)
              /\ exists c, c ∈ cs /\ live_cursor c = Some m
  end.
Proof.
  unfold minimum. induction cs as [|c cs IH] using rev_ind; [set_solver|].
  rewrite fold_left_app. simpl. destruct (live_cursor c) as [k|] eqn:Ek.
  - destruct (fold_left _ cs None) as [m|].
    + destruct IH as [Hle (c0 & Hin & Hm)]. case_decide.
      * split; [|exists c; set_solver]. intros c' k' [Hc'| ->%list_elem_of_singleton]%elem_of_app Hk'.
        -- specialize (Hle _ _ Hc' Hk'). lia.
        -- simplify_eq. lia.
      * split; [|exists c0; set_solver]. intros c' k' [Hc'| ->%list_elem_of_singleton]%elem_of_app Hk'.
        -- eauto.
        -- simplify_eq. lia.
    + split; [|exists c; set_solver]. intros c' k' [Hc'| ->%list_elem_of_singleton]%elem_of_app Hk'.
      * by rewrite IH in Hk'.
      * simplify_eq. lia.
  - destruct (fold_left _ cs None) as [m|].
    + destruct IH as [Hle (c0 & Hin & Hm)]. split; [|exists c0; set_solver].
      intros c' k' [Hc'| ->%list_elem_of_singleton]%elem_of_app Hk'; [eauto|congruence].
    + intros c' [Hc'| ->%list_elem_of_singleton]%elem_of_app; eauto.
Qed.

Lemma drop_consumed_spec ring : forall hp m R hp' ring',
  drop_consumed hp ring m = (hp', ring') -> accounted hp (ring ++ R) ->
  accounted hp' (ring' ++ R) /\ exists gone, ring = gone ++ ring' /\ Forall (fun e => ev_EndSequence e <= m) gone.
Proof.
  induction ring as [|e ring IH]; intros hp m R hp' ring'; simpl.
  - intros [= <- <-] HA. split; [done|]. by exists [].
  - case_decide as Hd.
    + intros Hrun HA. apply accounted_Release in HA.
      destruct (IH _ _ _ _ _ Hrun HA) as [HA' (gone & -> & Hg)].
      split; [done|]. exists (e :: gone). split; [done|by constructor].
    + intros [= <- <-] HA. split; [done|]. by exists [].
Qed.

Lemma elem_of_cursors (f : Fanout) id c :
  fo_attachments f !! id = Some c -> c ∈ (map_to_list (fo_attachments f)).*2.
Proof.
  intros Hl. apply list_elem_of_fmap. exists (id, c). split; [done|]. by apply elem_of_map_to_list.
Qed.

(** Everything but the ring's oldest, fully consumed chunks stays. *)
Lemma compactLocked_ok B L H R hp f hp' f' :
  fanout_ok B L H R hp f -> compactLocked hp f = (hp', f') ->
  fanout_ok B L H R hp' f' /\ fo_attachments f' = fo_attachments f /\ fo_active f' = fo_active f.
Proof.
  intros [] Hrun. unfold compactLocked in Hrun.
  pose proof (minimum_spec ((map_to_list (fo_attachments f)).*2)) as Hmin.
  destruct (minimum _) as [m|].
  - destruct (drop_consumed hp (fo_ring f) m) as [hp1 ring1] eqn:Hd. simplify_eq. simpl.
    destruct (drop_consumed_spec _ _ _ _ _ _ Hd fk_heap0) as [HA (gone & Hring & Hg)].
    split; [|done]. constructor; simpl; try done.
    + destruct fk_ring0 as [Hr HS]. rewrite Hring in *. split.
      * intros y Hy. apply Hr. set_solver.
      * by apply StronglySorted_app in HS as (_ & _ & ?).
    + intros id c Hid Hat. destruct (fk_cursors0 id c Hid Hat). constructor; try done.
      intros Hhas s Hs. destruct (co_held0 Hhas s Hs) as (e & He & Hr). exists e. split; [|done].
      rewrite Hring in He. apply elem_of_app in He as [He|He]; [|done]. exfalso.
      rewrite Forall_forall in Hg. specialize (Hg e He). destruct Hmin as [Hmin _].
      specialize (Hmin c (ac_cursor c) (elem_of_cursors _ _ _ Hid)).
      unfold live_cursor in Hmin. rewrite decide_True in Hmin by done. specialize (Hmin eq_refl). lia.
  - simplify_eq. simpl. split; [|done]. constructor; simpl; try done.
    + split; [set_solver|constructor].
    + intros id c Hid Hat. destruct (fk_cursors0 id c Hid Hat). constructor; try done.
      intros Hhas. specialize (Hmin c (elem_of_cursors _ _ _ Hid)).
      unfold live_cursor in Hmin. by rewrite decide_True in Hmin by done.
    + by apply accounted_ReleaseAll.
Qed.

(** ** Operations keep the invariant *)

Section Ops.
Context (B L : Z) (H : list Event).

(** Replacing one attachment's cursor. *)
Lemma fanout_ok_insert R hp f id c active :
  fanout_ok B L H R hp f ->
  (ac_state c = Attached -> cursor_ok B L H (fo_ring f) c) ->
  (forall k, k ∈ active <-> if decide (k = id) then ac_state c = Attached else k ∈ fo_active f) ->
  fanout_ok B L H R hp (mkFanout (<[id := c]> (fo_attachments f)) active (fo_ring f)).
Proof.
  intros [] Hc Ha. constructor; simpl; try done.
  - intros k c'. rewrite lookup_insert. case_decide; [intros [= <-]; auto|eauto].
  - intros k. rewrite Ha, lookup_insert. destruct (decide (k = id)) as [->|].
    + rewrite decide_True by done. simpl. split; [by intros ->|by intros [= ->]].
    + rewrite decide_False by done. apply fk_active0.
Qed.

Lemma Attach_ok R hp f id max f' :
  fanout_ok B L H R hp f -> 0 <= max < two64 -> Attach f id max = Ok f' ->
  fanout_ok B L H R hp f' /\ fo_ring f' = fo_ring f
  /\ fo_attachments f' = <[id := mkCursor Attached max 0 0 0 0 false false]> (fo_attachments f).
Proof.
  intros Hok Hm. unfold Attach. repeat case_decide; try done. intros [= <-]. split; [|done].
  apply fanout_ok_insert; [done| |].
  - intros _. constructor; simpl; done || lia.
  - intros k. simpl. rewrite elem_of_union, elem_of_singleton. case_decide; naive_solver.
Qed.

Lemma Detach_ok R hp f id hp' f' r :
  fanout_ok B L H R hp f -> Detach hp f id = (hp', f', r) -> fanout_ok B L H R hp' f'.
Proof.
  intros Hok. unfold Detach. destruct (fo_attachments f !! id) as [c|] eqn:Hid; [|by intros [= <- <- <-]].
  case_decide; [by intros [= <- <- <-]|].
  destruct (compactLocked hp _) as [hp1 f2] eqn:Hcp. intros [= <- <- <-].
  eapply compactLocked_ok in Hcp as [? _]; [done|]. destruct Hok. constructor; simpl; try done.
  - intros k c'. rewrite lookup_delete. case_decide; [done|]. eauto.
  - intros k. rewrite elem_of_difference, elem_of_singleton, fk_active0, lookup_delete.
    case_decide; naive_solver.
Qed.

(** Delivering the chunk at an attached cursor. *)
Lemma deliver_ok R hp f id c :
  fanout_ok B L H R hp f -> fo_attachments f !! id = Some c -> ac_state c = Attached ->
  ac_hasCursor c = true -> ac_cursor c < ac_enqueuedEnd c ->
  exists e, eventAtLocked (fo_ring f) (ac_cursor c) = Some e /\ e ∈ fo_ring f
    /\ ac_cursor c < ev_EndSequence e <= ac_enqueuedEnd c
    /\ ev_StartSequence e <= ac_cursor c
    /\ ev_Data (unseen e (ac_cursor c) None)
       = slice (content H) (ac_cursor c - B) (ev_EndSequence e - B)
    /\ fanout_ok B L H R hp
         (mkFanout (<[id := advance c (ev_EndSequence e)]> (fo_attachments f)) (fo_active f) (fo_ring f)).
Proof.
  intros Hok Hid Hat Hhas Hlt. pose proof Hok as []. pose proof (fk_cursors0 id c Hid Hat) as Hco.
  pose proof Hco as []. destruct (co_held0 Hhas (ac_cursor c) ltac:(lia)) as (e & He & Hr).
  destruct (proj1 fk_ring0 e He) as (ch & Hch & Hsuf). pose proof Hsuf as (_ & Hend & Hsr & Hdat).
  destruct (contiguous_elem _ _ _ _ fk_chunks0 Hch) as (Hlo & Hhi & Hlen).
  pose proof (boundary_le _ _ _ _ fk_chunks0 (co_bound0 Hhas)) as Hbl.
  pose proof (boundary_chunk _ _ _ _ _ fk_chunks0 (co_bound0 Hhas) Hch ltac:(lia)) as Hle.
  specialize (co_range0 Hhas). specialize (co_queued0 Hhas).
  exists e. split_and!; try lia; [|done| |].
  - apply eventAtLocked_spec; [apply fk_ring0| |done|done].
    intros y Hy. by eapply ring_ok_nonempty.
  - apply list_elem_of_split in Hch as (Ha & Hb & EH).
    assert (Hca : contiguous B Ha (ev_StartSequence ch)).
    { clear -fk_chunks0 EH. subst H. revert B fk_chunks0. induction Ha as [|a Ha IH]; intros B; simpl.
      - by intros (-> & _).
      - intros (-> & -> & ?). split_and!; [done..|]. by apply IH. }
    pose proof (contiguous_end _ _ _ Hca) as Hea.
    unfold unseen; simpl. rewrite Hdat, drop_drop, u64_sub_small by lia.
    rewrite EH, content_app, content_cons, slice_app_r by lia. rewrite slice_app_l by lia.
    unfold slice. rewrite take_ge by (rewrite length_drop; lia). f_equal. lia.
  - apply fanout_ok_insert; [done| |].
    + intros _. unfold advance. constructor; simpl; try done; rewrite ?Hhas; try done.
      * rewrite !u64_sub_small; try lia; rewrite u64_sub_small; lia.
      * intros _. lia.
      * intros _. rewrite !u64_sub_small; try lia; rewrite u64_sub_small; lia.
      * intros _ s Hs. apply co_held0; [done|lia].
    + intros k. unfold advance; simpl. rewrite fk_active0. case_decide; [subst|done].
      rewrite Hid. simpl. split; [by intros [= ->]|by intros ->].
Qed.
End Ops.

Lemma cursor_ok_ring B L H ring ring' c :
  (forall s, held_at ring s -> held_at ring' s) -> cursor_ok B L H ring c -> cursor_ok B L H ring' c.
Proof. intros Hh []. constructor; eauto. Qed.

Lemma boundary_chunk_end B H L e : contiguous B H L -> e ∈ H -> boundary B H (ev_EndSequence e).
Proof.
  intros Hc (H1 & H2 & ->)%list_elem_of_split. exists (H1 ++ [e]), H2. split; [by rewrite <- app_assoc|].
  revert B Hc. induction H1 as [|a H1 IH]; intros B; simpl; [naive_solver|].
  intros (-> & -> & ?). split_and!; auto.
Qed.

Lemma suffix_valid B H L x e :
  contiguous B H L -> 0 <= B -> L < two64 -> e ∈ H -> suffix_of x e -> validOutputEvent x = true.
Proof.
  intros Hc HB HL He Hx. destruct (contiguous_elem _ _ _ _ Hc He) as (? & ? & Hlen).
  pose proof (suffix_of_len _ _ Hx Hlen). destruct Hx as (_ & ? & ? & _).
  unfold validOutputEvent. rewrite !andb_true_iff, negb_true_iff, !bool_decide_eq_true, bool_decide_eq_false.
  split_and!; [lia|rewrite u64_sub_small; lia|]. intros Hd. rewrite Hd in *. simpl in *. lia.
Qed.

Lemma overflows_spec B L H ring event c :
  cursor_ok B L H ring c ->
  overflows event c = bool_decide (ac_maxBytes c < ac_queuedBytes c + len (ev_Data event)).
Proof.
  intros []. unfold overflows. apply bool_decide_ext. rewrite u64_sub_small; lia.
Qed.

(** The cursor after enqueuing a suffix [x] of a chunk at its end. *)
Lemma enqueue_ok B L H ring x e c :
  contiguous B H L -> 0 <= B -> L < two64 -> e ∈ H -> suffix_of x e -> cursor_ok B L H ring c ->
  (ac_hasCursor c = true -> ac_enqueuedEnd c = ev_StartSequence x) -> overflows x c = false ->
  (forall s, ev_StartSequence x <= s < ev_EndSequence x -> held_at ring s) ->
  cursor_ok B L H ring (enqueue x c).
Proof.
  intros Hc HB HL He Hx Hco Hst Hov Hheld. rewrite (overflows_spec _ _ _ _ _ _ Hco) in Hov.
  apply bool_decide_eq_false in Hov. destruct (contiguous_elem _ _ _ _ Hc He) as (? & ? & Hlen).
  pose proof (suffix_of_len _ _ Hx Hlen). pose proof Hx as (_ & Hend & ? & _). destruct Hco.
  assert (Hq : u64_add (ac_queuedBytes c) (len (ev_Data x)) = ac_queuedBytes c + len (ev_Data x))
    by (rewrite u64_add_small; lia).
  unfold enqueue, notify. constructor; simpl; try done; rewrite ?Hq; try lia.
  - intros _. destruct (ac_hasCursor c); [|lia]. specialize (co_range0 eq_refl). specialize (Hst eq_refl). lia.
  - intros _. rewrite Hend. by eapply boundary_chunk_end.
  - intros _. destruct (ac_hasCursor c); [|rewrite co_none0 by done; lia].
    rewrite co_queued0, Hst by done. lia.
  - intros _ s Hs. destruct (ac_hasCursor c); [|auto]. specialize (Hst eq_refl).
    destruct (decide (s < ac_enqueuedEnd c)); [apply co_held0; [done|lia]|apply Hheld; lia].
Qed.

Lemma fanout_ok_ring B L H R hp hp' f ring' :
  fanout_ok B L H R hp f -> ring_ok H ring' -> accounted hp' (ring' ++ R) ->
  (forall s, held_at (fo_ring f) s -> held_at ring' s) ->
  fanout_ok B L H R hp' (mkFanout (fo_attachments f) (fo_active f) ring').
Proof.
  intros [] Hr HA Hh. constructor; simpl; try done.
  intros id c Hid Hat. eapply cursor_ok_ring; eauto.
Qed.

Lemma EnqueueOwned_ok B L H R hp f id c x e :
  fanout_ok B L H R hp f -> e ∈ H -> suffix_of x e -> x ∈ R ->
  fo_attachments f !! id = Some c -> ac_state c = Attached ->
  (ac_hasCursor c = true -> ac_enqueuedEnd c = ev_StartSequence x) ->
  ac_queuedBytes c + len (ev_Data x) <= ac_maxBytes c ->
  exists hp' f', EnqueueOwned hp f id x = (hp', f', Ok None)
    /\ fanout_ok B L H R hp' f'
    /\ fo_attachments f' = <[id := enqueue x c]> (fo_attachments f).
Proof.
  intros Hok He Hx HxR Hid Hat Hst Hfit. pose proof Hok as [].
  pose proof (fk_cursors0 id c Hid Hat) as Hco.
  assert (Hov : overflows x c = false).
  { rewrite (overflows_spec _ _ _ _ _ _ Hco). apply bool_decide_eq_false. lia. }
  unfold EnqueueOwned. rewrite (suffix_valid B H L x e) by done. rewrite Hid, Hat.
  rewrite !decide_False by (done || naive_solver). rewrite Hov. unfold insertEventLocked.
  pose proof (insertEvent_loop_spec B L H fk_base0 fk_top0 fk_chunks0 (length (fo_ring f)) hp
                (fo_ring f) x e R) as Hins.
  destruct (insertEvent_loop _ hp (fo_ring f) x) as [hp1 ring1].
  destruct Hins as (Hr & HA & Hheld); try done.
  eexists _, _. split; [reflexivity|]. split; [|done].
  pose proof (fanout_ok_ring _ _ _ _ _ hp1 f ring1 Hok Hr HA ltac:(auto)) as Hok1.
  apply (fanout_ok_insert B L H R hp1 _ id (enqueue x c) (fo_active f) Hok1); simpl.
  - intros _. eapply enqueue_ok; eauto. eapply cursor_ok_ring; [|done]. auto.
  - intros k. rewrite fk_active0. case_decide; [subst|done]. rewrite Hid. simpl.
    rewrite Hat. split; congruence.
Qed.

(** The chunk list grows at its end. *)
Lemma fanout_ok_grow B L H R hp f e :
  fanout_ok B L H R hp f -> ev_StartSequence e = L -> ev_EndSequence e = L + len (ev_Data e) ->
  ev_EndSequence e < two64 -> fanout_ok B (ev_EndSequence e) (H ++ [e]) R hp f.
Proof.
  intros [] Hs He Hlt. constructor; try done.
  - eapply contiguous_app; [done|]. simpl. lia.
  - destruct fk_ring0 as [Hr HS]. split; [|done]. intros y Hy. destruct (Hr y Hy) as (ch & ? & ?).
    exists ch. set_solver.
  - intros id c Hid Hat. destruct (fk_cursors0 id c Hid Hat). constructor; try done.
    intros Hhas. destruct (co_bound0 Hhas) as (H1 & H2 & -> & ?). exists H1, (H2 ++ [e]).
    by rewrite app_assoc.
Qed.

(** The evictions of a publish: exactly the attached clients whose queue overflows. *)
Definition evicted_by (event : Event) (f : Fanout) (evs : list Eviction) : Prop :=
  forall v, v ∈ evs <-> exists id c, fo_attachments f !! id = Some c /\ ac_state c = Attached
    /\ ac_maxBytes c < ac_queuedBytes c + len (ev_Data event)
    /\ v = mkEviction id (ac_queuedBytes c) "slow_consumer".

Lemma evicted_now_spec B L H R hp f event id c :
  fanout_ok B L H R hp f -> fo_attachments f !! id = Some c ->
  evicted_now event c = true <->
  ac_state c = Attached /\ ac_maxBytes c < ac_queuedBytes c + len (ev_Data event).
Proof.
  intros [] Hid. unfold evicted_now. rewrite andb_true_iff, bool_decide_eq_true. split.
  - intros [Hat Hov]. split; [done|]. specialize (fk_cursors0 id c Hid Hat).
    rewrite (overflows_spec _ _ _ _ _ _ fk_cursors0) in Hov. by apply bool_decide_eq_true in Hov.
  - intros [Hat Hov]. split; [done|]. specialize (fk_cursors0 id c Hid Hat).
    rewrite (overflows_spec _ _ _ _ _ _ fk_cursors0). by apply bool_decide_eq_true.
Qed.

Lemma publish_cursors_ok B L H R hp f e :
  fanout_ok B L H R hp f -> e ∈ H -> ev_EndSequence e = L ->
  ev_StartSequence e < ev_EndSequence e -> caught_up (ev_StartSequence e) f ->
  (forall s, ev_StartSequence e <= s < ev_EndSequence e -> held_at (fo_ring f) s) ->
  let gone := filter (fun kc => evicted_now e kc.2 = true) (map_to_list (fo_attachments f)) in
  let f' := mkFanout (publish_cursor e <$> fo_attachments f)
              (fo_active f ∖ list_to_set gone.*1) (fo_ring f) in
  fanout_ok B L H R hp f' /\ caught_up L f'
  /\ evicted_by e f ((fun kc => mkEviction kc.1 (ac_queuedBytes kc.2) "slow_consumer") <$> gone).
Proof.
  intros Hok He HL Hne Hcu Hheld gone f'. pose proof Hok as [].
  destruct (contiguous_elem _ _ _ _ fk_chunks0 He) as (? & ? & Hlen).
  pose proof (suffix_refl e Hne) as Hself.
  assert (Hgone : forall id c, (id, c) ∈ gone <-> fo_attachments f !! id = Some c /\ evicted_now e c = true).
  { intros id c. unfold gone. rewrite list_elem_of_filter, elem_of_map_to_list. simpl. tauto. }
  assert (Hstate : forall c, ac_state (publish_cursor e c) = Attached <->
                             ac_state c = Attached /\ evicted_now e c = false).
  { intros c. unfold publish_cursor, evicted_now. case_decide as Hn; [naive_solver|].
    rewrite Hn. rewrite bool_decide_true by done. simpl.
    destruct (overflows e c); simpl; naive_solver. }
  split_and!.
  - constructor; simpl; try done.
    + intros id c'. rewrite lookup_fmap. intros (c & Hid & ->)%fmap_Some Hat.
      apply Hstate in Hat as [Hat Hev]. specialize (fk_cursors0 id c Hid Hat).
      unfold evicted_now in Hev. rewrite bool_decide_true in Hev by done. simpl in Hev.
      unfold publish_cursor. rewrite decide_False by tauto. rewrite Hev.
      eapply enqueue_ok; eauto.
    + intros id. rewrite elem_of_difference, elem_of_list_to_set, fk_active0, lookup_fmap.
      destruct (fo_attachments f !! id) as [c|] eqn:Hid; simpl; [|naive_solver].
      assert (id ∈ gone.*1 <-> evicted_now e c = true) as ->.
      { rewrite list_elem_of_fmap. split.
        - intros ([k c'] & -> & [Hk Hev]%Hgone). simpl in *. congruence.
        - intros Hev. exists (id, c). split; [done|]. by apply Hgone. }
      rewrite not_true_iff_false. split; [intros [[= Hs] Hf]; f_equal; by apply Hstate|].
      intros [= Hs]. apply Hstate in Hs as [-> ->]. done.
  - intros id c'. simpl. rewrite lookup_fmap. intros (c & Hid & ->)%fmap_Some Hat _.
    apply Hstate in Hat as [Hat Hev]. unfold evicted_now in Hev.
    rewrite bool_decide_true in Hev by done. simpl in Hev.
    unfold publish_cursor. rewrite decide_False by tauto. rewrite Hev. simpl. done.
  - intros v. rewrite list_elem_of_fmap. split.
    + intros ([id c] & -> & [Hid Hev]%Hgone). exists id, c. simpl.
      apply (evicted_now_spec _ _ _ _ _ _ _ _ _ Hok Hid) in Hev as [??]. done.
    + intros (id & c & Hid & Hat & Hov & ->). exists (id, c). split; [done|]. apply Hgone.
      split; [done|]. by apply (evicted_now_spec _ _ _ _ _ _ _ _ _ Hok Hid).
Qed.

Lemma PublishOwned_ok B L H R hp f e :
  fanout_ok B L H R hp f -> caught_up L f -> e ∈ R ->
  ev_StartSequence e = L -> ev_EndSequence e = L + len (ev_Data e) -> ev_Data e <> [] ->
  ev_EndSequence e < two64 ->
  exists hp' f' evs, PublishOwned hp f e = (hp', f', Ok evs)
    /\ fanout_ok B (ev_EndSequence e) (H ++ [e]) R hp' f' /\ caught_up (ev_EndSequence e) f'
    /\ evicted_by e f evs /\ fo_attachments f' = publish_cursor e <$> fo_attachments f.
Proof.
  intros Hok Hcu HeR Hs He Hd Hlt.
  assert (Hpos : 0 < len (ev_Data e)) by (destruct (ev_Data e); simpl; [done|lia]).
  pose proof (fanout_ok_grow _ _ _ _ _ _ _ Hok Hs He Hlt) as Hg. pose proof Hg as [].
  assert (Hin : e ∈ H ++ [e]) by set_solver.
  pose proof (suffix_refl e ltac:(lia)) as Hself.
  unfold PublishOwned. rewrite (suffix_valid B (H ++ [e]) (ev_EndSequence e) e e) by done.
  assert (Hnc : existsb (fun kc => publish_conflict e kc.2) (map_to_list (fo_attachments f)) = false).
  { apply not_true_is_false. intros ([id c] & Hk & Hp)%existsb_exists.
    apply list_elem_of_In, elem_of_map_to_list in Hk. simpl in Hp. unfold publish_conflict in Hp.
    apply andb_true_iff in Hp as [[Hat%bool_decide_eq_true Hhas]%andb_true_iff Hp].
    rewrite (Hcu id c Hk Hat Hhas), Hs, bool_decide_true in Hp by done. done. }
  rewrite Hnc. unfold insertEventLocked.
  pose proof (insertEvent_loop_spec B _ _ fk_base0 fk_top0 fk_chunks0 (length (fo_ring f)) hp
                (fo_ring f) e e R) as Hins.
  destruct (insertEvent_loop _ hp (fo_ring f) e) as [hp1 ring1].
  destruct Hins as (Hr & HA & Hheld); try done.
  pose proof (fanout_ok_ring _ _ _ _ _ hp1 f ring1 Hg Hr HA ltac:(auto)) as Hok1.
  destruct (publish_cursors_ok _ _ _ _ _ _ e Hok1) as (Hok2 & Hcu2 & Hev); simpl; try done; try lia.
  { intros id c Hid Hat Hhas. rewrite Hs. eauto. }
  { intros s Hss. apply Hheld. by right. }
  simpl in Hok2, Hcu2, Hev.
  destruct (compactLocked hp1 _) as [hp2 f2] eqn:Hc.
  destruct (compactLocked_ok _ _ _ _ _ _ _ _ Hok2 Hc) as (Hok3 & Hat3 & _).
  eexists hp2, f2, _. split; [reflexivity|]. split_and!; try done.
  intros id c. rewrite Hat3. apply Hcu2.
Qed.

(** ** Every operation, on every branch *)

Lemma evict_ok B L H R hp f id c :
  fanout_ok B L H R hp f -> fo_attachments f !! id = Some c ->
  fanout_ok B L H R hp
    (mkFanout (<[id := evict c]> (fo_attachments f)) (fo_active f ∖ {[id]}) (fo_ring f)).
Proof.
  intros Hok Hid. apply fanout_ok_insert; [done|by intros|].
  intros k. rewrite elem_of_difference, elem_of_singleton. simpl.
  case_decide; subst; naive_solver.
Qed.

Lemma EnqueueOwned_preserves B L H R hp f id x e hp' f' r :
  fanout_ok B L H R hp f -> e ∈ H -> suffix_of x e -> x ∈ R ->
  EnqueueOwned hp f id x = (hp', f', r) -> fanout_ok B L H R hp' f'.
Proof.
  intros Hok He Hx HxR Hrun. pose proof Hok as [].
  destruct (fo_attachments f !! id) as [c|] eqn:Hid; cycle 1.
  { unfold EnqueueOwned in Hrun. rewrite Hid in Hrun. by destruct (validOutputEvent x); simplify_eq. }
  destruct (decide (ac_state c = Attached)) as [Hat|Hn]; cycle 1.
  { unfold EnqueueOwned in Hrun. rewrite Hid in Hrun.
    destruct (validOutputEvent x), (decide (ac_state c = Evicted)); simplify_eq; try done.
    rewrite decide_True in Hrun by done. by simplify_eq. }
  pose proof (fk_cursors0 id c Hid Hat) as Hco.
  destruct (decide (ac_hasCursor c = true /\ ac_enqueuedEnd c <> ev_StartSequence x)) as [Ho|Ho].
  { unfold EnqueueOwned in Hrun. rewrite Hid, Hat, (decide_True _ _ Ho) in Hrun.
    rewrite !decide_False in Hrun by (done || tauto). by destruct (validOutputEvent x); simplify_eq. }
  destruct (decide (ac_queuedBytes c + len (ev_Data x) <= ac_maxBytes c)) as [Hfit|Hov].
  { destruct (EnqueueOwned_ok B L H R hp f id c x e) as (hp1 & f1 & E & ? & _); try done.
    { intros Hh. destruct (decide (ac_enqueuedEnd c = ev_StartSequence x)); tauto. }
    rewrite E in Hrun. by simplify_eq. }
  unfold EnqueueOwned in Hrun. rewrite (suffix_valid B H L x e), Hid, Hat in Hrun by done.
  rewrite (decide_False (P := Attached = Evicted)), (decide_False (P := Attached <> Attached)),
    (decide_False _ _ Ho) in Hrun by naive_solver.
  rewrite (overflows_spec _ _ _ _ _ _ Hco), bool_decide_true in Hrun by lia.
  destruct (compactLocked hp _) as [hp1 f2] eqn:Hcp. simplify_eq.
  eapply compactLocked_ok in Hcp as [? _]; [done|]. by apply evict_ok.
Qed.

(** A publish that finds a client behind or ahead of the event changes nothing. *)
Lemma PublishOwned_conflict hp f e :
  validOutputEvent e = true ->
  (exists hp' f' evs, PublishOwned hp f e = (hp', f', Ok evs)) /\ caught_up (ev_StartSequence e) f
  \/ PublishOwned hp f e = (hp, f, Err ErrOutputOrder) /\ ~ caught_up (ev_StartSequence e) f.
Proof.
  intros Hv. unfold PublishOwned. rewrite Hv. destruct (existsb _ _) eqn:Hex.
  - right. split; [done|]. intros Hcu. apply existsb_exists in Hex as ([id c] & Hk & Hp).
    apply list_elem_of_In, elem_of_map_to_list in Hk. simpl in Hp. unfold publish_conflict in Hp.
    apply andb_true_iff in Hp as [[Hat%bool_decide_eq_true Hhas]%andb_true_iff Hp].
    rewrite (Hcu id c Hk Hat Hhas), bool_decide_true in Hp by done. done.
  - left. split.
    + destruct (insertEventLocked hp (fo_ring f) e) as [hp1 ring1].
      destruct (compactLocked hp1 _) as [hp2 f2]. eauto.
    + intros id c Hid Hat Hhas. destruct (decide (ac_enqueuedEnd c = ev_StartSequence e)); [done|].
      exfalso. apply not_true_iff_false in Hex. apply Hex, existsb_exists. exists (id, c).
      split; [by apply list_elem_of_In, elem_of_map_to_list|].
      unfold publish_conflict. simpl. rewrite Hat, Hhas, bool_decide_true by done.
      by rewrite bool_decide_false.
Qed.

Lemma PublishOwned_preserves B L H R hp f e hp' f' r :
  fanout_ok B L H R hp f -> e ∈ R -> ev_StartSequence e = L ->
  ev_EndSequence e = L + len (ev_Data e) -> ev_Data e <> [] -> ev_EndSequence e < two64 ->
  PublishOwned hp f e = (hp', f', r) -> fanout_ok B (ev_EndSequence e) (H ++ [e]) R hp' f'.
Proof.
  intros Hok HeR Hs He Hd Hlt Hrun.
  assert (Hpos : 0 < len (ev_Data e)) by (destruct (ev_Data e); simpl; [done|lia]).
  pose proof (fanout_ok_grow _ _ _ _ _ _ _ Hok Hs He Hlt) as Hg. pose proof Hg as [].
  destruct (PublishOwned_conflict hp f e) as [[_ Hcu]|[E _]].
  { eapply (suffix_valid B (H ++ [e]) (ev_EndSequence e) e e); try done; [set_solver|].
    apply suffix_refl. lia. }
  - destruct (PublishOwned_ok B L H R hp f e) as (? & ? & ? & E & ? & _); try done; [by rewrite <- Hs|].
    rewrite E in Hrun. by simplify_eq.
  - rewrite E in Hrun. by simplify_eq.
Qed.

(** What an attached client with a non-empty queue is given. *)
Definition delivers (B : Z) (H : list Event) (c : attachmentCursor) (ev : Event) : Prop :=
  ev_StartSequence ev = ac_cursor c /\ ac_cursor c < ev_EndSequence ev <= ac_enqueuedEnd c
  /\ ev_Data ev = slice (content H) (ac_cursor c - B) (ev_EndSequence ev - B).

Lemma Next_ok B L H R hp f id c :
  fanout_ok B L H R hp f -> fo_attachments f !! id = Some c -> ac_state c = Attached ->
  ac_hasCursor c = true -> ac_cursor c < ac_enqueuedEnd c ->
  exists hp' f' ev, Next hp f id = (hp', f', Ok (Some ev)) /\ delivers B H c ev
    /\ fanout_ok B L H R hp' f'
    /\ fo_attachments f' = <[id := advance c (ev_EndSequence ev)]> (fo_attachments f).
Proof.
  intros Hok Hid Hat Hhas Hlt.
  destruct (deliver_ok _ _ _ _ _ _ _ _ Hok Hid Hat Hhas Hlt) as (e & He & _ & Hr & Hs & Hd & Hok1).
  unfold Next. rewrite Hid, Hat, He.
  rewrite (decide_False (P := Attached = Evicted)), (decide_False (P := Attached <> Attached)) by naive_solver.
  rewrite decide_False by (rewrite Hhas; intros [?|?]; [done|lia]).
  destruct (compactLocked hp _) as [hp1 f2] eqn:Hcp.
  destruct (compactLocked_ok _ _ _ _ _ _ _ _ Hok1 Hcp) as (Hok2 & Hat2 & _).
  by eexists _, _, _.
Qed.

Lemma WaitNextOwned_ok B L H R hp f id c :
  fanout_ok B L H R hp f -> fo_attachments f !! id = Some c -> ac_state c = Attached ->
  ac_hasCursor c = true -> ac_cursor c < ac_enqueuedEnd c ->
  exists hp' f' ev, WaitNextOwned hp f id = (hp', f', WaitReady (Ok ev)) /\ delivers B H c ev
    /\ fanout_ok B L H (ev :: R) hp' f'
    /\ fo_attachments f' = <[id := advance c (ev_EndSequence ev)]> (fo_attachments f).
Proof.
  intros Hok Hid Hat Hhas Hlt.
  destruct (deliver_ok _ _ _ _ _ _ _ _ Hok Hid Hat Hhas Hlt) as (e & He & Hin & Hr & Hs & Hd & Hok1).
  unfold WaitNextOwned. rewrite Hid, Hat, He.
  rewrite (decide_False (P := Attached = Evicted)), (decide_False (P := Attached <> Attached)) by naive_solver.
  rewrite decide_True by done. set (ev := unseen e (ac_cursor c) (ev_owner e)).
  destruct (compactLocked _ _) as [hp1 f2] eqn:Hcp.
  eapply (compactLocked_ok B L H (ev :: R)) in Hcp as (Hok2 & Hat2 & _); [by eexists _, _, _|].
  destruct Hok1. constructor; try done. simpl in *.
  rewrite <- Permutation_middle. apply accounted_Retain; [done|set_solver|done|].
  set (o := u64_sub (ac_cursor c) (ev_StartSequence e)).
  apply (backed_part hp e ev o (len (ev_Data e))); [eapply acc_backed; [done|set_solver]|done|].
  unfold ev, slice; simpl. rewrite take_ge; [done|]. rewrite length_drop.
  pose proof (u64_sub_range (ac_cursor c) (ev_StartSequence e)) as Ho. fold o in Ho. destruct Ho. lia.
Qed.

(** ** Interleavings *)

(** The session's output log from [B], the references held by others, and the fan-out. *)
Record fan_world := mkWorld {
  fw_end : Z; fw_chunks : list Event; fw_refs : list Event; fw_heap : heap; fw_fan : Fanout
}.

Inductive fan_step : fan_world -> fan_world -> Prop :=
| step_refs L H R hp f R' hp' :     (* the other holders retain, release or create buffers *)
    accounted hp' (fo_ring f ++ R') -> fan_step (mkWorld L H R hp f) (mkWorld L H R' hp' f)
| step_attach L H R hp f id max f' :
    0 <= max < two64 -> Attach f id max = Ok f' ->
    fan_step (mkWorld L H R hp f) (mkWorld L H R hp f')
| step_enqueue L H R hp f id x e hp' f' r :  (* replay of a suffix of a chunk *)
    e ∈ H -> suffix_of x e -> x ∈ R -> EnqueueOwned hp f id x = (hp', f', r) ->
    fan_step (mkWorld L H R hp f) (mkWorld L H R hp' f')
| step_publish L H R hp f e hp' f' r :       (* new output, whatever the publish answers *)
    e ∈ R -> ev_StartSequence e = L -> ev_EndSequence e = L + len (ev_Data e) ->
    ev_Data e <> [] -> ev_EndSequence e < two64 -> PublishOwned hp f e = (hp', f', r) ->
    fan_step (mkWorld L H R hp f) (mkWorld (ev_EndSequence e) (H ++ [e]) R hp' f')
| step_next L H R hp f id hp' f' r :
    Next hp f id = (hp', f', r) -> fan_step (mkWorld L H R hp f) (mkWorld L H R hp' f')
| step_wait L H R hp f id hp' f' r :
    WaitNextOwned hp f id = (hp', f', r) ->
    fan_step (mkWorld L H R hp f)
      (mkWorld L H (match r with WaitReady (Ok ev) => ev :: R | _ => R end) hp' f')
| step_detach L H R hp f id hp' f' r :
    Detach hp f id = (hp', f', r) -> fan_step (mkWorld L H R hp f) (mkWorld L H R hp' f').

Definition world_ok (B : Z) (w : fan_world) : Prop :=
  fanout_ok B (fw_end w) (fw_chunks w) (fw_refs w) (fw_heap w) (fw_fan w).

Definition new_world (B : Z) : fan_world := mkWorld B [] [] empty_heap NewFanout.

Lemma new_world_ok B : 0 <= B < two64 -> world_ok B (new_world B).
Proof.
  intros HB. constructor; simpl; try done; try lia.
  - split; [set_solver|constructor].
  - apply accounted_empty.
Qed.

(** A read that does not deliver leaves everything as it was. *)
Lemma Next_idle B L H R hp f id hp' f' r :
  fanout_ok B L H R hp f -> Next hp f id = (hp', f', r) -> fanout_ok B L H R hp' f'.
Proof.
  intros Hok Hrun. destruct (fo_attachments f !! id) as [c|] eqn:Hid; cycle 1.
  { unfold Next in Hrun. rewrite Hid in Hrun. by simplify_eq. }
  destruct (decide (ac_state c = Attached /\ ac_hasCursor c = true /\ ac_cursor c < ac_enqueuedEnd c))
    as [(Hat & Hhas & Hlt)|Hn].
  - destruct (Next_ok B L H R hp f id c) as (? & ? & ? & E & _ & ? & _); try done.
    rewrite E in Hrun. by simplify_eq.
  - unfold Next in Hrun. rewrite Hid in Hrun.
    destruct (decide (ac_state c = Evicted)); [by simplify_eq|].
    destruct (decide (ac_state c <> Attached)) as [|Hat]; [by simplify_eq|].
    rewrite decide_True in Hrun; [by simplify_eq|].
    destruct (ac_hasCursor c); [|by left]. right.
    destruct (decide (ac_cursor c < ac_enqueuedEnd c)); [|lia].
    exfalso. apply Hn. split_and!; [by apply dec_stable|done|done].
Qed.

Lemma WaitNextOwned_preserves B L H R hp f id hp' f' r :
  fanout_ok B L H R hp f -> WaitNextOwned hp f id = (hp', f', r) ->
  fanout_ok B L H (match r with WaitReady (Ok ev) => ev :: R | _ => R end) hp' f'.
Proof.
  intros Hok Hrun. destruct (fo_attachments f !! id) as [c|] eqn:Hid; cycle 1.
  { unfold WaitNextOwned in Hrun. rewrite Hid in Hrun. by simplify_eq. }
  unfold WaitNextOwned in Hrun. rewrite Hid in Hrun.
  destruct (decide (ac_state c = Evicted)) as [|He]; [by simplify_eq|].
  destruct (decide (ac_state c <> Attached)) as [|Hat]; [by simplify_eq|].
  destruct (decide (ac_hasCursor c = true /\ ac_cursor c < ac_enqueuedEnd c)) as [Hq|]; [|by simplify_eq].
  apply dec_stable in Hat.
  destruct (WaitNextOwned_ok B L H R hp f id c) as (? & ? & ? & E & _ & Hok' & _); try tauto.
  unfold WaitNextOwned in E. rewrite Hid, decide_False, decide_False, (decide_True _ _ Hq) in E; try tauto.
  rewrite E in Hrun. by simplify_eq.
Qed.

Lemma fan_step_ok B w w' : world_ok B w -> fan_step w w' -> world_ok B w'.
Proof.
  unfold world_ok. intros Hok Hs. destruct Hs; simpl in *.
  - destruct Hok. by constructor.
  - by eapply Attach_ok.
  - by eapply EnqueueOwned_preserves.
  - by eapply PublishOwned_preserves.
  - by eapply Next_idle.
  - by eapply WaitNextOwned_preserves.
  - by eapply Detach_ok.
Qed.

Lemma fan_reachable_ok B w : 0 <= B < two64 -> rtc fan_step (new_world B) w -> world_ok B w.
Proof.
  intros HB Hr. pose proof (new_world_ok B HB) as Hok. revert Hok.
  induction Hr as [|x y z Hxy _ IH]; [done|]. intros Hok. apply IH. by eapply fan_step_ok.
Qed.

(** ** Reads and detaches leave every queue's end where it was *)

Definition ends_kept (f f' : Fanout) : Prop :=
  forall id c', fo_attachments f' !! id = Some c' -> ac_state c' = Attached -> ac_hasCursor c' = true ->
    exists c, fo_attachments f !! id = Some c /\ ac_state c = Attached /\ ac_hasCursor c = true
              /\ ac_enqueuedEnd c = ac_enqueuedEnd c'.

Lemma caught_up_kept L f f' : ends_kept f f' -> caught_up L f -> caught_up L f'.
Proof. intros He Hc id c' H1 H2 H3. destruct (He id c' H1 H2 H3) as (c & ? & ? & ? & <-). eauto. Qed.

Lemma ends_kept_refl f : ends_kept f f.
Proof. intros id c' ? ? ?. eauto. Qed.

Lemma ends_kept_advance f f' id c stop :
  fo_attachments f !! id = Some c ->
  fo_attachments f' = <[id := advance c stop]> (fo_attachments f) -> ends_kept f f'.
Proof.
  intros Hid Hf k c'. rewrite Hf, lookup_insert. case_decide; [|eauto].
  intros [= <-]. subst. simpl. eauto.
Qed.

Lemma compactLocked_attachments hp f hp' f' :
  compactLocked hp f = (hp', f') -> fo_attachments f' = fo_attachments f.
Proof.
  unfold compactLocked. destruct (minimum _); [|by intros [= <- <-]].
  destruct (drop_consumed _ _ _). by intros [= <- <-].
Qed.

Lemma Next_ends hp f id hp' f' r : Next hp f id = (hp', f', r) -> ends_kept f f'.
Proof.
  unfold Next. destruct (fo_attachments f !! id) as [c|] eqn:Hid;
    [|intros [= <- <- <-]; apply ends_kept_refl].
  repeat (case_decide; [intros [= <- <- <-]; apply ends_kept_refl|]).
  destruct (eventAtLocked _ _) as [e|]; [|intros [= <- <- <-]; apply ends_kept_refl].
  destruct (compactLocked _ _) as [hp1 f2] eqn:Hc. intros [= <- <- <-].
  apply compactLocked_attachments in Hc. by eapply ends_kept_advance.
Qed.

Lemma WaitNextOwned_ends hp f id hp' f' r : WaitNextOwned hp f id = (hp', f', r) -> ends_kept f f'.
Proof.
  unfold WaitNextOwned. destruct (fo_attachments f !! id) as [c|] eqn:Hid;
    [|intros [= <- <- <-]; apply ends_kept_refl].
  do 2 (case_decide; [intros [= <- <- <-]; apply ends_kept_refl|]).
  case_decide; [|intros [= <- <- <-]; apply ends_kept_refl].
  destruct (eventAtLocked _ _) as [e|]; [|intros [= <- <- <-]; apply ends_kept_refl].
  destruct (compactLocked _ _) as [hp1 f2] eqn:Hc. intros [= <- <- <-].
  apply compactLocked_attachments in Hc. by eapply ends_kept_advance.
Qed.

Lemma Detach_ends hp f id hp' f' r : Detach hp f id = (hp', f', r) -> ends_kept f f'.
Proof.
  unfold Detach. destruct (fo_attachments f !! id) as [c|] eqn:Hid;
    [|intros [= <- <- <-]; apply ends_kept_refl].
  case_decide; [intros [= <- <- <-]; apply ends_kept_refl|].
  destruct (compactLocked _ _) as [hp1 f2] eqn:Hc. intros [= <- <- <-].
  apply compactLocked_attachments in Hc. intros k c'. rewrite Hc. simpl. rewrite lookup_delete.
  case_decide; [done|eauto].
Qed.

(** ** Properties *)


(** Publishing new output when every attached client has been given all earlier
    output never fails: it evicts exactly the clients whose queue would exceed their
    byte limit (reporting the bytes they had queued), gives the event to every other
    client, and leaves every attached client caught up with the output's new end. *)
Theorem fanout_publish_fair B w e :
  0 <= B < two64 -> rtc fan_step (new_world B) w -> caught_up (fw_end w) (fw_fan w) ->
  e ∈ fw_refs w -> ev_StartSequence e = fw_end w ->
  ev_EndSequence e = fw_end w + len (ev_Data e) -> ev_Data e <> [] -> ev_EndSequence e < two64 ->
  exists hp' f' evs, PublishOwned (fw_heap w) (fw_fan w) e = (hp', f', Ok evs)
    /\ evicted_by e (fw_fan w) evs /\ caught_up (ev_EndSequence e) f'
    /\ forall id c, fo_attachments (fw_fan w) !! id = Some c -> ac_state c = Attached ->
         exists c', fo_attachments f' !! id = Some c'
           /\ if decide (ac_maxBytes c < ac_queuedBytes c + len (ev_Data e))
              then ac_state c' = Evicted /\ ac_evictedBytes c' = ac_queuedBytes c
              else ac_state c' = Attached /\ ac_queuedBytes c' = ac_queuedBytes c + len (ev_Data e).
Proof.
  intros HB Hr Hcu HR Hs He Hd Hlt. pose proof (fan_reachable_ok B w HB Hr) as Hok.
  destruct (PublishOwned_ok _ _ _ _ _ _ e Hok Hcu HR Hs He Hd Hlt) as (hp' & f' & evs & E & _ & Hcu' & Hev & Hf).
  exists hp', f', evs. split_and!; [done..|]. intros id c Hid Hat. exists (publish_cursor e c).
  rewrite Hf, lookup_fmap, Hid. split; [done|].
  destruct Hok as [Hb Ht Hc _ Hcs _ _]. specialize (Hcs id c Hid Hat).
  unfold publish_cursor. rewrite (decide_False (P := ac_state c <> Attached)) by tauto.
  rewrite (overflows_spec _ _ _ _ _ _ Hcs). destruct (decide (ac_maxBytes c < _)) as [Ho|Ho].
  - by rewrite bool_decide_true.
  - rewrite bool_decide_false by done. split; [done|]. simpl.
    destruct Hcs. apply u64_add_small; lia.
Qed.

(** An event that does not continue every attached client's queue is refused with
    ErrOutputOrder and nothing changes, neither the clients nor the buffer references;
    otherwise it is accepted. *)
Theorem fanout_publish_order hp f e :
  validOutputEvent e = true ->
  (exists hp' f' evs, PublishOwned hp f e = (hp', f', Ok evs)) /\ caught_up (ev_StartSequence e) f
  \/ PublishOwned hp f e = (hp, f, Err ErrOutputOrder) /\ ~ caught_up (ev_StartSequence e) f.
Proof. apply PublishOwned_conflict. Qed.

(** In every reachable state the lock-free [IsAttached] agrees with [Status]; the
    queued byte count [Status] reports for an attached client is the distance between
    its cursor and the end of its queue and is within its limit; and the reference count
    of every buffer is the number of ring entries and outside holders that use it, so no
    buffer a client still has to read has been returned to the pool. *)
Theorem fanout_state_consistent B w :
  0 <= B < two64 -> rtc fan_step (new_world B) w ->
  (forall id, IsAttached (fw_fan w) id = true
              <-> exists q, Status (fw_fan w) id = Ok (Attached, q))
  /\ (forall id c, fo_attachments (fw_fan w) !! id = Some c -> ac_state c = Attached ->
        ac_queuedBytes c = (if ac_hasCursor c then ac_enqueuedEnd c - ac_cursor c else 0)
        /\ 0 <= ac_queuedBytes c <= ac_maxBytes c)
  /\ accounted (fw_heap w) (fo_ring (fw_fan w) ++ fw_refs w).
Proof.
  intros HB Hr. destruct (fan_reachable_ok B w HB Hr) as [_ _ _ _ Hcs Ha HA]. split_and!; [| |done].
  - intros id. unfold IsAttached, Status. rewrite bool_decide_eq_true, Ha.
    destruct (fo_attachments (fw_fan w) !! id) as [c|]; simpl; [|naive_solver].
    split; [intros [= ->]; eauto|]. intros [q [= -> _]]. done.
  - intros id c Hid Hat. destruct (Hcs id c Hid Hat). split; [|done].
    destruct (ac_hasCursor c); auto.
Qed.

(** *** Witnesses *)

Definition demo_event : Event := mkEvent x01 7 10 [x61; x62; x63]%byte None.
Definition demo_next : Event := mkEvent x01 10 12 [x64; x65]%byte None.
Definition demo_cursor (has : bool) : attachmentCursor :=
  mkCursor Attached 4 (if has then 3 else 0) 0 (if has then 7 else 0) (if has then 10 else 0) has has.
Definition demo_world : fan_world :=
  mkWorld 10 [demo_event] [demo_event; demo_next] empty_heap
    (mkFanout {["a" := demo_cursor true]} {["a"]} [demo_event]).

Lemma demo_reachable : rtc fan_step (new_world 7) demo_world.
Proof.
  eapply rtc_l.
  { apply (step_refs _ _ _ _ _ [demo_event; demo_next] empty_heap). simpl.
    rewrite <- (app_nil_r [demo_event; demo_next]).
    apply accounted_unowned; [by repeat constructor|apply accounted_empty]. }
  eapply rtc_l; [by apply (step_attach _ _ _ _ _ "a" 4)|].
  eapply rtc_l; [|apply rtc_refl].
  apply (step_publish 7 [] [demo_event; demo_next] empty_heap _ demo_event _ _ (Ok [])); try done.
  set_solver.
Qed.


Lemma fanout_publish_fair_witness :
  exists hp' f' evs, PublishOwned (fw_heap demo_world) (fw_fan demo_world) demo_next = (hp', f', Ok evs)
    /\ evs = [mkEviction "a" 3 "slow_consumer"].
Proof.
  destruct (fanout_publish_fair 7 demo_world demo_next) as (hp' & f' & evs & E & _);
    try done; [exact demo_reachable| |set_solver|].
  - intros id c. simpl. rewrite lookup_singleton. case_decide; [|done]. by intros [= <-].
  - exists hp', f', evs. split; [exact E|]. vm_compute in E. by simplify_eq.
Defined.

Lemma fanout_publish_order_witness :
  exists hp f, PublishOwned hp f demo_event = (hp, f, Err ErrOutputOrder).
Proof.
  exists empty_heap, (fw_fan demo_world).
  destruct (fanout_publish_order empty_heap (fw_fan demo_world) demo_event) as [[_ Hcu]|[E _]];
    [reflexivity| |exact E].
  specialize (Hcu "a" (demo_cursor true) eq_refl eq_refl eq_refl). discriminate.
Defined.

Lemma fanout_state_consistent_witness : IsAttached (fw_fan demo_world) "a" = true.
Proof.
  apply (fanout_state_consistent 7 demo_world); [done|exact demo_reachable|]. by exists 3.
Defined.
