(* ===== verification/Store.v ===== *)
(** * The durable store: sessions, output and input decisions ([internal/store/store.go])

    The SQLite database is the record [DB] of its tables, each a finite map from the
    table's primary key to its rows.  Every operation is a function on [DB]: the SQL
    statements are updates and queries of the maps, the table's CHECK, UNIQUE, PRIMARY
    KEY and foreign-key constraints are tests that make a statement fail, and a
    transaction that does not commit leaves the database as it was.  [fault] says which
    failure of the database or of the failure hook a call meets, so the theorems cover
    every failure.  The theorems show that a session's retained output always is one
    contiguous range within its bound, and refine it to a byte log.

    [json.Marshal] and [json.Unmarshal] of the argument lists are the interface
    [JsonStrings]. *)

From S2P Require Import Prelude Buffers History.

(** ** Data *)

Definition CurrentVersion : Z := 2.
Definition MaxOperationResultBytes : Z := 65536.

Inductive store_error :=
| ErrIncompatible | ErrCorrupt | ErrConflict | ErrResultTooLarge
| GapError (requested earliest latest : Z)
| ErrNoRows          (* sql.ErrNoRows *)
| ErrConstraint      (* a constraint of the schema *)
| ErrArgument        (* database/sql refuses a uint64 with the high bit set *)
| ErrIO.             (* any failure of the database or of the failure hook *)

#[global] Instance store_error_eq_dec : EqDecision store_error.
Proof. solve_decision. Defined.

Record Session := mkSession {
  ss_ID : string;
  ss_Name : string;
  ss_CWD : string;
  ss_CommandPath : string;
  ss_CommandArgs : list string;
  ss_CommandEnv : list string;
  ss_Columns : Z;
  ss_Rows : Z;
  ss_State : string;
  ss_Generation : Z;
  ss_ExitCode : option Z;
  ss_ExitSignal : string;
  ss_ExitedAt : option time;
  ss_EarliestSequence : Z;
  ss_LatestSequence : Z;
  ss_CreatedAt : time;
  ss_UpdatedAt : time
}.

#[global] Instance Session_eq_dec : EqDecision Session.
Proof. solve_decision. Defined.

Record OutputEvent := mkOutput {
  oe_Channel : byte;
  oe_StartSequence : Z;
  oe_EndSequence : Z;
  oe_Data : list byte
}.

#[global] Instance OutputEvent_eq_dec : EqDecision OutputEvent.
Proof. solve_decision. Defined.

Record StoredInput := mkStoredInput {
  si_SessionID : string;
  si_ClientID : string;
  si_AttachmentID : string;
  si_Generation : Z;
  si_InputID : string;
  si_Hash : list byte;
  si_Status : string;
  si_BytesWritten : Z;
  si_ErrorCode : string;
  si_CreatedAt : time
}.

#[global] Instance StoredInput_eq_dec : EqDecision StoredInput.
Proof. solve_decision. Defined.

Record OperationResult := mkOperation {
  or_OperationID : string;
  or_RequestHash : list byte;
  or_State : string;
  or_Result : list byte;
  or_ErrorCode : string;
  or_CompletedAt : option time;
  or_ExpiresAt : time
}.

#[global] Instance OperationResult_eq_dec : EqDecision OperationResult.
Proof. solve_decision. Defined.

Record FileTransfer := mkTransfer {
  ft_ID : string;
  ft_BatchID : string;
  ft_Direction : string;
  ft_SessionID : string;
  ft_ClientID : string;
  ft_Basename : string;
  ft_Size : Z;
  ft_SHA256 : string;
  ft_CommittedOffset : Z;
  ft_State : string;
  ft_ResultCode : string;
  ft_ReceiptPath : string;
  ft_CreatedAt : time;
  ft_ExpiresAt : time
}.

#[global] Instance FileTransfer_eq_dec : EqDecision FileTransfer.
Proof. solve_decision. Defined.

(** The argument lists as [encoding/json] writes and reads them. *)
Class JsonStrings := {
  json_Marshal : list string -> list byte;
  json_Unmarshal : list byte -> option (list string)
}.

(** A list that [json_Unmarshal] gives back unchanged. *)
Definition json_safe `{JsonStrings} (l : list string) : Prop := json_Unmarshal (json_Marshal l) = Some l.

(** A row of the table [sessions]: the argument lists are stored encoded. *)
Record session_row := mkRow {
  sr_session : Session;     (* its two lists are unused *)
  sr_args : list byte;
  sr_env : list byte
}.

#[global] Instance session_row_eq_dec : EqDecision session_row.
Proof. solve_decision. Defined.

Definition input_key : Type := string * string * string * Z * string.

Record DB := mkDB {
  db_sessions : gmap string session_row;
  db_output : gmap (string * Z) OutputEvent;
  db_inputs : gmap input_key StoredInput;
  db_operations : gmap string OperationResult;
  db_transfers : gmap string FileTransfer
}.

Definition empty_DB : DB := mkDB ∅ ∅ ∅ ∅ ∅.

(** What goes wrong during a call: nothing; a statement, the commit or a hook before the
    commit fails; or the hook after the commit reports an error. *)
Inductive fault := FNone | FBeforeCommit | FAfterCommit.

#[global] Instance fault_eq_dec : EqDecision fault.
Proof. solve_decision. Defined.

(** ** Statements *)

(** database/sql converts a uint64 argument to int64. *)
Definition arg_ok (z : Z) : bool := bool_decide (z < two63).

Definition set_sessions (db : DB) (t : gmap string session_row) : DB :=
  mkDB t (db_output db) (db_inputs db) (db_operations db) (db_transfers db).
Definition set_output (db : DB) (t : gmap (string * Z) OutputEvent) : DB :=
  mkDB (db_sessions db) t (db_inputs db) (db_operations db) (db_transfers db).
Definition set_inputs (db : DB) (t : gmap input_key StoredInput) : DB :=
  mkDB (db_sessions db) (db_output db) t (db_operations db) (db_transfers db).

(** The CHECK constraints of the table [sessions]. *)
Definition session_check (s : Session) : bool :=
  bool_decide (1 <= ss_Columns s <= 1000) && bool_decide (1 <= ss_Rows s <= 1000)
  && bool_decide (0 <= ss_Generation s) && bool_decide (0 <= ss_EarliestSequence s)
  && bool_decide (ss_EarliestSequence s <= ss_LatestSequence s).

(** [UPDATE sessions SET earliest_sequence=?,latest_sequence=?,updated_at=? WHERE id=?]. *)
Definition with_bounds (r : session_row) (earliest latest updated : Z) : session_row :=
  let s := sr_session r in
  mkRow (mkSession (ss_ID s) (ss_Name s) (ss_CWD s) (ss_CommandPath s) (ss_CommandArgs s)
           (ss_CommandEnv s) (ss_Columns s) (ss_Rows s) (ss_State s) (ss_Generation s)
           (ss_ExitCode s) (ss_ExitSignal s) (ss_ExitedAt s) earliest latest (ss_CreatedAt s) updated)
    (sr_args r) (sr_env r).

Definition update_bounds (db : DB) (sessionID : string) (earliest latest updated : Z)
    : result store_error DB :=
  match db_sessions db !! sessionID with
  | None => Ok db
  | Some r =>
      let r' := with_bounds r earliest latest updated in
      if session_check (sr_session r')
      then Ok (set_sessions db (<[sessionID := r']> (db_sessions db)))
      else Err ErrConstraint
  end.

(** [SELECT earliest_sequence,latest_sequence FROM sessions WHERE id=?]. *)
Definition select_bounds (db : DB) (sessionID : string) : result store_error (Z * Z) :=
  match db_sessions db !! sessionID with
  | None => Err ErrNoRows
  | Some r => Ok (ss_EarliestSequence (sr_session r), ss_LatestSequence (sr_session r))
  end.

(** [SELECT ... FROM output_events WHERE session_id=? ORDER BY start_sequence]. *)
Definition output_le (x y : OutputEvent) : Prop := oe_StartSequence x <= oe_StartSequence y.

#[global] Instance output_le_dec x y : Decision (output_le x y).
Proof. unfold output_le. apply _. Defined.

Definition output_rows (t : gmap (string * Z) OutputEvent) (sessionID : string) : list OutputEvent :=
  merge_sort output_le ((map_to_list (filter (fun kr => kr.1.1 = sessionID) t)).*2).

(** [DELETE FROM output_events WHERE session_id=?]. *)
Definition delete_output (t : gmap (string * Z) OutputEvent) (sessionID : string)
    : gmap (string * Z) OutputEvent := filter (fun kr => kr.1.1 <> sessionID) t.

(** [INSERT INTO output_events]: the primary key and the CHECK constraints. *)
Definition insert_output (db : DB) (sessionID : string) (e : OutputEvent) : result store_error DB :=
  if arg_ok (oe_StartSequence e) && arg_ok (oe_EndSequence e) then
    if decide (is_Some (db_output db !! (sessionID, oe_StartSequence e))
               \/ db_sessions db !! sessionID = None
               \/ ~ (oe_Channel e = x01 \/ oe_Channel e = x02)
               \/ len (oe_Data e) <> oe_EndSequence e - oe_StartSequence e)
    then Err ErrConstraint
    else Ok (set_output db (<[(sessionID, oe_StartSequence e) := e]> (db_output db)))
  else Err ErrArgument.

(** A transaction: the new database, or the old one and an error. *)
Definition commit {A} (f : fault) (db : DB) (r : result store_error (DB * A))
    : DB * result store_error A :=
  match f, r with
  | FBeforeCommit, _ => (db, Err ErrIO)
  | _, Err e => (db, Err e)
  | FNone, Ok (db', a) => (db', Ok a)
  | FAfterCommit, Ok (db', _) => (db', Err ErrIO)
  end.

(** A read-only call. *)
Definition reading {A} (f : fault) (r : result store_error A) : result store_error A :=
  if decide (f = FBeforeCommit) then Err ErrIO else r.

(** ** Sessions *)

Section Sessions.
Context `{J : JsonStrings}.

Definition or_now (t now : time) : time := if is_zero_time t then now else t.

Definition CreateSession (f : fault) (now : time) (db : DB) (session : Session)
    : DB * result store_error unit :=
  let s := mkSession (ss_ID session) (ss_Name session) (ss_CWD session) (ss_CommandPath session) [] []
             (ss_Columns session) (ss_Rows session) (ss_State session) (ss_Generation session)
             (ss_ExitCode session) (ss_ExitSignal session) (ss_ExitedAt session)
             (ss_EarliestSequence session) (ss_LatestSequence session)
             (or_now (ss_CreatedAt session) now) (or_now (ss_UpdatedAt session) now) in
  commit f db
    (if arg_ok (ss_Generation session) && arg_ok (ss_EarliestSequence session)
        && arg_ok (ss_LatestSequence session)
     then if decide (is_Some (db_sessions db !! ss_ID session)
                     \/ Exists (fun kr => ss_Name (sr_session kr.2) = ss_Name session)
                          (map_to_list (db_sessions db))
                     \/ session_check s = false)
          then Err ErrConstraint
          else Ok (set_sessions db
                     (<[ss_ID session := mkRow s (json_Marshal (ss_CommandArgs session))
                                               (json_Marshal (ss_CommandEnv session))]>
                        (db_sessions db)), tt)
     else Err ErrArgument).

Definition scanSession (r : session_row) : result store_error Session :=
  let s := sr_session r in
  match json_Unmarshal (sr_args r) with
  | None => Err ErrCorrupt
  | Some args =>
      match json_Unmarshal (sr_env r) with
      | None => Err ErrCorrupt
      | Some env =>
          Ok (mkSession (ss_ID s) (ss_Name s) (ss_CWD s) (ss_CommandPath s) args env
                (ss_Columns s) (ss_Rows s) (ss_State s) (ss_Generation s) (ss_ExitCode s)
                (ss_ExitSignal s) (ss_ExitedAt s) (ss_EarliestSequence s) (ss_LatestSequence s)
                (ss_CreatedAt s) (ss_UpdatedAt s))
      end
  end.

(** The loop of [rows.Next] with [scanSession]. *)
Fixpoint scan_all (rows : list session_row) : result store_error (list Session) :=
  match rows with
  | [] => Ok []
  | r :: rest => let? s := scanSession r in let? ss := scan_all rest in Ok (s :: ss)
  end.

(** [ORDER BY name]: byte order of the names. *)
Definition name_le (x y : session_row) : Prop :=
  string_leb (ss_Name (sr_session x)) (ss_Name (sr_session y)) = true.

#[global] Instance name_le_dec x y : Decision (name_le x y).
Proof. unfold name_le. apply _. Defined.

Definition Sessions (f : fault) (db : DB) : result store_error (list Session) :=
  reading f (scan_all (merge_sort name_le ((map_to_list (db_sessions db)).*2))).

Definition UpdateSession (f : fault) (now : time) (db : DB) (id expectedState : string) (next : Session)
    : DB * result store_error unit :=
  commit f db
    (if arg_ok (ss_Generation next) then
       match db_sessions db !! id with
       | None => Err ErrConflict
       | Some r =>
           if decide (ss_State (sr_session r) <> expectedState) then Err ErrConflict
           else
             let s := sr_session r in
             let s' := mkSession (ss_ID s) (ss_Name s) (ss_CWD next) (ss_CommandPath s)
                         (ss_CommandArgs s) (ss_CommandEnv s) (ss_Columns next) (ss_Rows next)
                         (ss_State next) (ss_Generation next) (ss_ExitCode next)
                         (ss_ExitSignal next) (ss_ExitedAt next) (ss_EarliestSequence s)
                         (ss_LatestSequence s) (ss_CreatedAt s) now in
             if session_check s'
             then Ok (set_sessions db (<[id := mkRow s' (sr_args r) (sr_env r)]> (db_sessions db)), tt)
             else Err ErrConstraint
       end
     else Err ErrArgument).

(** The foreign keys delete the session's output and input decisions with it. *)
Definition DeleteSession (f : fault) (db : DB) (id : string) : DB * result store_error unit :=
  commit f db
    (match db_sessions db !! id with
     | None => Err ErrConflict
     | Some r =>
         if decide (ss_State (sr_session r) = "exited" \/ ss_State (sr_session r) = "closed") then
           Ok (mkDB (delete id (db_sessions db)) (delete_output (db_output db) id)
                 (filter (fun kr => kr.1.1.1.1.1 <> id) (db_inputs db))
                 (db_operations db) (db_transfers db), tt)
         else Err ErrConflict
     end).
End Sessions.

(** ** Output *)

Definition ClearOutput (f : fault) (now : time) (db : DB) (sessionID : string) (nextSequence : Z)
    : DB * result store_error unit :=
  commit f db
    (let? b := select_bounds db sessionID in
     if decide (b.2 <> nextSequence) then Err ErrConflict
     else if arg_ok nextSequence then
       let? db' := update_bounds (set_output db (delete_output (db_output db) sessionID))
                     sessionID nextSequence nextSequence now in
       Ok (db', tt)
     else Err ErrArgument).

Definition OutputBounds (f : fault) (db : DB) (sessionID : string) : result store_error (Z * Z) :=
  reading f (select_bounds db sessionID).

Definition AdvanceOutput (f : fault) (now : time) (db : DB) (sessionID : string)
    (expectedLatest nextSequence : Z) : DB * result store_error unit :=
  if decide (nextSequence < expectedLatest) then (db, Err ErrConflict)
  else commit f db
    (let? b := select_bounds db sessionID in
     if decide (b.2 <> expectedLatest) then Err ErrConflict
     else if arg_ok nextSequence then
       let? db' := update_bounds (set_output db (delete_output (db_output db) sessionID))
                     sessionID nextSequence nextSequence now in
       Ok (db', tt)
     else Err ErrArgument).

(** The retention loop: drop the oldest row until at most [maxRetained] bytes are left.
    Each turn deletes a row, so the number of rows is enough fuel. *)
Fixpoint retain_loop (fuel : nat) (db : DB) (sessionID : string) (maxRetained retained earliest : Z)
    : result store_error (DB * Z * Z) :=
  if decide (maxRetained < retained) then
    match fuel, output_rows (db_output db) sessionID with
    | S fuel', e :: _ =>
        retain_loop fuel' (set_output db (delete (sessionID, oe_StartSequence e) (db_output db)))
          sessionID maxRetained (u64_sub retained (len (oe_Data e))) (oe_EndSequence e)
    | _, _ => Err ErrNoRows
    end
  else Ok (db, retained, earliest).

Definition retain_output (db : DB) (sessionID : string) (maxRetained retained earliest : Z)
    : result store_error (DB * Z * Z) :=
  retain_loop (S (length (output_rows (db_output db) sessionID))) db sessionID maxRetained retained earliest.

Definition AppendOutput (f : fault) (now : time) (db : DB) (sessionID : string) (channel : byte)
    (start : Z) (data : list byte) (maxRetained : Z)
    : DB * result store_error (OutputEvent * Z) :=
  if decide (data = [] \/ maxRetained = 0) then (db, Err ErrConflict)
  else
    let stop := u64_add start (len data) in
    if decide (stop < start) then (db, Err ErrConflict)
    else commit f db
      (let? b := select_bounds db sessionID in
       let '(earliest, latest) := b in
       if decide (latest <> start \/ latest < earliest) then Err ErrConflict
       else
         let event := mkOutput channel start stop data in
         let? db1 := insert_output db sessionID event in
         let? db2 := update_bounds db1 sessionID earliest stop now in
         let? r := retain_output db2 sessionID maxRetained (u64_sub stop earliest) earliest in
         let '(db3, retained, earliest') := r in
         let earliest' := if decide (retained = 0) then stop else earliest' in
         if arg_ok earliest' then
           let? db4 := update_bounds db3 sessionID earliest' stop now in
           Ok (db4, (event, earliest'))
         else Err ErrArgument).

(** The row loop of [Replay]; [limit = 0] means no limit. *)
Fixpoint replay_loop (from limit remaining : Z) (rows : list OutputEvent) : list OutputEvent :=
  match rows with
  | [] => []
  | event :: rest =>
      let start := Z.max from (oe_StartSequence event) in
      let stop := if decide (0 < limit /\ remaining < u64_sub (oe_EndSequence event) start)
                  then u64_add start remaining else oe_EndSequence event in
      if decide (start < stop) then
        let kept := mkOutput (oe_Channel event) start stop
                      (slice (oe_Data event) (start - oe_StartSequence event)
                                             (stop - oe_StartSequence event)) in
        if decide (0 < limit) then
          let remaining' := u64_sub remaining (u64_sub stop start) in
          if decide (remaining' = 0) then [kept] else kept :: replay_loop from limit remaining' rest
        else kept :: replay_loop from limit remaining rest
      else replay_loop from limit remaining rest
  end.

Definition Replay (f : fault) (db : DB) (sessionID : string) (from limit : Z)
    : result store_error (list OutputEvent * Z * Z) :=
  reading f
    (let? b := select_bounds db sessionID in
     let '(earliest, latest) := b in
     if decide (from < earliest) then Err (GapError from earliest latest)
     else if decide (latest < from) then Err ErrConflict
     else if arg_ok from then
       Ok (replay_loop from limit limit
             (filter (fun e => from < oe_EndSequence e) (output_rows (db_output db) sessionID)),
           earliest, latest)
     else Err ErrArgument).

Definition TrimOutput (f : fault) (db : DB) (sessionID : string) (maxRetained : Z)
    : DB * result store_error Z :=
  if decide (maxRetained = 0) then (db, Err ErrConflict)
  else commit f db
    (let? b := select_bounds db sessionID in
     let '(earliest, latest) := b in
     let? r := retain_output db sessionID maxRetained (u64_sub latest earliest) earliest in
     let '(db1, retained, earliest') := r in
     let earliest' := if decide (retained = 0) then latest else earliest' in
     if arg_ok earliest' then
       match db_sessions db1 !! sessionID with
       | None => Err ErrNoRows
       | Some row =>
           let? db2 := update_bounds db1 sessionID earliest' latest (ss_UpdatedAt (sr_session row)) in
           Ok (db2, earliest')
       end
     else Err ErrArgument).

(** ** Input decisions *)

Definition input_key_of (d : StoredInput) : input_key :=
  (si_SessionID d, si_ClientID d, si_AttachmentID d, si_Generation d, si_InputID d).

(** [INSERT OR IGNORE], then the hash of the row that was there. *)
Definition PutInputDecision (f : fault) (db : DB) (decision : StoredInput)
    : DB * result store_error bool :=
  commit f db
    (if arg_ok (si_Generation decision) then
       match db_inputs db !! input_key_of decision with
       | None =>
           match db_sessions db !! si_SessionID decision with
           | None => Err ErrConstraint
           | Some _ => Ok (set_inputs db (<[input_key_of decision := decision]> (db_inputs db)), true)
           end
       | Some row => if decide (si_Hash row = si_Hash decision) then Ok (db, false) else Err ErrConflict
       end
     else Err ErrArgument).

(** [ORDER BY generation,created_at]; SQLite leaves the order of ties open. *)
Definition input_le (x y : StoredInput) : Prop :=
  si_Generation x < si_Generation y
  \/ si_Generation x = si_Generation y /\ si_CreatedAt x <= si_CreatedAt y.

#[global] Instance input_le_dec x y : Decision (input_le x y).
Proof. unfold input_le. apply _. Defined.

Definition InputDecisions (f : fault) (db : DB) (sessionID : string) : result store_error (list StoredInput) :=
  reading f (Ok (merge_sort input_le
    ((map_to_list (filter (fun kr => kr.1.1.1.1.1 = sessionID) (db_inputs db))).*2))).

Definition UpdateInputDecision (f : fault) (db : DB) (decision : StoredInput)
    : DB * result store_error unit :=
  commit f db
    (if arg_ok (si_Generation decision) then
       match db_inputs db !! input_key_of decision with
       | None => Err ErrConflict
       | Some row =>
           if decide (si_Hash row <> si_Hash decision) then Err ErrConflict
           else
             let row' := mkStoredInput (si_SessionID row) (si_ClientID row) (si_AttachmentID row)
                           (si_Generation row) (si_InputID row) (si_Hash row) (si_Status decision)
                           (si_BytesWritten decision) (si_ErrorCode decision) (si_CreatedAt row) in
             Ok (set_inputs db (<[input_key_of decision := row']> (db_inputs db)), tt)
       end
     else Err ErrArgument).

(** ** Invariant *)

(** A stored row as an event of the history, which it becomes on recovery. *)
Definition to_event (e : OutputEvent) : Event :=
  mkEvent (oe_Channel e) (oe_StartSequence e) (oe_EndSequence e) (oe_Data e) None.

Definition stored (db : DB) (sid : string) : list OutputEvent := output_rows (db_output db) sid.
Definition stored_events (db : DB) (sid : string) : list Event := to_event <$> stored db sid.

(** The rows of [sid] have their start as key and hold bytes. *)
Definition keyed (t : gmap (string * Z) OutputEvent) (sid : string) : Prop :=
  forall s e, t !! (sid, s) = Some e -> oe_StartSequence e = s /\ oe_Data e <> [].

Record session_ok (db : DB) (sid : string) (r : session_row) : Prop := {
  so_id : ss_ID (sr_session r) = sid;
  so_nonempty : sid <> "";
  so_check : session_check (sr_session r) = true;
  so_latest : ss_LatestSequence (sr_session r) < two63;
  so_generation : ss_Generation (sr_session r) < two63;
  so_keyed : keyed (db_output db) sid;
  so_contig : contiguous (ss_EarliestSequence (sr_session r)) (stored_events db sid)
                (ss_LatestSequence (sr_session r))
}.

Record db_ok (db : DB) : Prop := {
  do_sessions : forall sid r, db_sessions db !! sid = Some r -> session_ok db sid r;
  do_output_fk : forall sid s e, db_output db !! (sid, s) = Some e -> is_Some (db_sessions db !! sid);
  do_names : forall a b ra rb, db_sessions db !! a = Some ra -> db_sessions db !! b = Some rb ->
    ss_Name (sr_session ra) = ss_Name (sr_session rb) -> a = b;
  do_inputs : forall k d, db_inputs db !! k = Some d ->
    input_key_of d = k /\ is_Some (db_sessions db !! si_SessionID d)
}.

(** ** The rows of a session *)

Lemma rows_elem t sid e : e ∈ output_rows t sid <-> exists s, t !! (sid, s) = Some e.
Proof.
  unfold output_rows. rewrite merge_sort_Permutation, list_elem_of_fmap. split.
  - intros ([[sid' s] e'] & -> & [Hl Hs]%elem_of_map_to_list%map_lookup_filter_Some). simpl in *. subst. eauto.
  - intros [s Hs]. exists ((sid, s), e). split; [done|]. apply elem_of_map_to_list, map_lookup_filter_Some.
    done.
Qed.

Lemma rows_NoDup t sid : keyed t sid -> NoDup (output_rows t sid).
Proof.
  intros Hk. unfold output_rows. rewrite merge_sort_Permutation. apply NoDup_fmap_2_strong; [|apply NoDup_map_to_list].
  intros [[a s] e] [[b s'] e']. rewrite !elem_of_map_to_list, !map_lookup_filter_Some. simpl.
  intros [H1 ->] [H2 ->] ->. destruct (Hk _ _ H1) as [<- _], (Hk _ _ H2) as [<- _]. done.
Qed.

Definition output_lt (x y : OutputEvent) : Prop := oe_StartSequence x < oe_StartSequence y.

#[local] Instance output_le_trans : Transitive output_le.
Proof. intros x y z. unfold output_le. lia. Qed.
#[local] Instance output_le_total : Total output_le.
Proof. intros x y. unfold output_le. lia. Qed.

Lemma rows_sorted t sid : keyed t sid -> StronglySorted output_lt (output_rows t sid).
Proof.
  intros Hk. pose proof (rows_NoDup t sid Hk) as Hnd.
  assert (Hs : StronglySorted output_le (output_rows t sid)) by (apply StronglySorted_merge_sort; apply _).
  assert (Hinj : forall x y, x ∈ output_rows t sid -> y ∈ output_rows t sid ->
                   oe_StartSequence x = oe_StartSequence y -> x = y).
  { intros x y [s Hx]%rows_elem [s' Hy]%rows_elem. destruct (Hk _ _ Hx) as [-> _], (Hk _ _ Hy) as [-> _].
    intros ->. congruence. }
  revert Hs Hnd Hinj. generalize (output_rows t sid). induction l as [|x l IH]; [constructor|].
  intros [Hf Hs]%StronglySorted_cons [Hx Hnd]%NoDup_cons Hinj. constructor.
  - apply IH; [done|done|]. intros; apply Hinj; set_solver.
  - rewrite Forall_forall in *. intros y Hy. specialize (Hf y Hy). unfold output_le, output_lt in *.
    destruct (decide (oe_StartSequence x = oe_StartSequence y)) as [E|]; [|lia].
    apply Hinj in E; set_solver.
Qed.

(** The rows are the one sorted list with the table's elements. *)
Lemma rows_unique t sid l :
  keyed t sid -> StronglySorted output_lt l ->
  (forall e, e ∈ l <-> exists s, t !! (sid, s) = Some e) -> output_rows t sid = l.
Proof.
  intros Hk Hs Hl. assert (Hle : forall l, StronglySorted output_lt l -> StronglySorted output_le l).
  { induction 1 as [|x k _ IH Hf]; constructor; [done|]. eapply Forall_impl; [done|].
    unfold output_lt, output_le. lia. }
  assert (Hnd : forall l, StronglySorted output_lt l -> NoDup l).
  { induction 1 as [|x k _ IH Hf]; constructor; [|done]. intros Hx.
    rewrite Forall_forall in Hf. specialize (Hf x Hx). unfold output_lt in Hf. lia. }
  pose proof (rows_sorted t sid Hk) as Hr.
  apply (StronglySorted_unique_strong output_le); auto.
  - intros x y [s Hx]%rows_elem Hy%Hl Hxy Hyx. destruct Hy as [s' Hy].
    assert (oe_StartSequence x = oe_StartSequence y) as E by (unfold output_le in *; lia).
    destruct (Hk _ _ Hx) as [<- _], (Hk _ _ Hy) as [<- _]. rewrite E in Hx. congruence.
  - apply NoDup_Permutation; auto. intros e. by rewrite rows_elem, Hl.
Qed.

Lemma rows_other t t' sid :
  (forall s, t !! (sid, s) = t' !! (sid, s)) -> output_rows t sid = output_rows t' sid.
Proof.
  intros H. unfold output_rows. do 3 f_equal. apply map_eq. intros [a s].
  apply option_eq. intros e. rewrite !map_lookup_filter_Some. simpl.
  split; intros [Hl ->]; (split; [|done]); [by rewrite <- H|by rewrite H].
Qed.

Lemma keyed_other t t' sid : (forall s, t !! (sid, s) = t' !! (sid, s)) -> keyed t sid -> keyed t' sid.
Proof. intros H Hk s e. rewrite <- H. apply Hk. Qed.

Lemma rows_insert t sid e :
  keyed t sid -> oe_Data e <> [] -> (forall x, x ∈ output_rows t sid -> output_lt x e) ->
  keyed (<[(sid, oe_StartSequence e) := e]> t) sid
  /\ output_rows (<[(sid, oe_StartSequence e) := e]> t) sid = output_rows t sid ++ [e].
Proof.
  intros Hk Hd Hlt.
  assert (Hfresh : t !! (sid, oe_StartSequence e) = None).
  { destruct (t !! _) as [x|] eqn:E; [|done]. destruct (Hk _ _ E) as [Hx _].
    assert (Hin : x ∈ output_rows t sid) by (apply rows_elem; eauto).
    specialize (Hlt x Hin). unfold output_lt in Hlt. lia. }
  assert (Hk' : keyed (<[(sid, oe_StartSequence e) := e]> t) sid).
  { intros s x. rewrite lookup_insert. case_decide as E; [|apply Hk].
    intros [= <-]. split; [congruence|done]. }
  split; [done|]. apply rows_unique; [done| |].
  - apply StronglySorted_app. split_and!; [|by apply rows_sorted|repeat constructor].
    intros x y Hx ->%list_elem_of_singleton. auto.
  - intros x. rewrite elem_of_app, list_elem_of_singleton, rows_elem. split.
    + intros [[s Hs]| ->]; [|exists (oe_StartSequence e); by rewrite lookup_insert_eq].
      exists s. rewrite lookup_insert_ne; [done|]. intros [= <-]. congruence.
    + intros [s Hs]. rewrite lookup_insert in Hs. case_decide; [right; congruence|left; eauto].
Qed.

Lemma rows_delete t sid e l :
  keyed t sid -> output_rows t sid = e :: l ->
  keyed (delete (sid, oe_StartSequence e) t) sid
  /\ output_rows (delete (sid, oe_StartSequence e) t) sid = l.
Proof.
  intros Hk Hr. pose proof (rows_sorted t sid Hk) as Hs. rewrite Hr in Hs.
  apply StronglySorted_cons in Hs as [Hf Hs]. rewrite Forall_forall in Hf.
  assert (Hk' : keyed (delete (sid, oe_StartSequence e) t) sid).
  { intros s x. rewrite lookup_delete. case_decide; [done|apply Hk]. }
  split; [done|]. apply rows_unique; [done|done|]. intros x. split.
  - intros Hx. assert (Hin : x ∈ output_rows t sid) by (rewrite Hr; set_solver).
    apply rows_elem in Hin as [s Hin]. exists s. rewrite lookup_delete_ne; [done|].
    destruct (Hk _ _ Hin) as [<- _]. intros [= E]. specialize (Hf x Hx). unfold output_lt in Hf. lia.
  - intros [s Hx]. rewrite lookup_delete in Hx. case_decide as E; [done|].
    assert (Hin : x ∈ output_rows t sid) by (apply rows_elem; eauto).
    rewrite Hr in Hin. apply elem_of_cons in Hin as [->|]; [|done].
    destruct (Hk _ _ Hx) as [<- _]. congruence.
Qed.

Lemma delete_output_lookup t sid sid' s :
  delete_output t sid !! (sid', s) = if decide (sid' = sid) then None else t !! (sid', s).
Proof.
  unfold delete_output. apply option_eq. intros e. rewrite map_lookup_filter_Some. simpl.
  case_decide; naive_solver.
Qed.

Lemma rows_cleared t sid : keyed (delete_output t sid) sid /\ output_rows (delete_output t sid) sid = [].
Proof.
  assert (Hk : keyed (delete_output t sid) sid).
  { intros s e. rewrite delete_output_lookup, decide_True by done. done. }
  split; [done|]. apply rows_unique; [done|constructor|]. intros e. split; [set_solver|].
  intros [s H]. rewrite delete_output_lookup, decide_True in H by done. done.
Qed.

(** ** Preservation *)

(** The output log a session keeps. *)
Definition store_view (db : DB) (sid : string) : option Log :=
  (fun r => mkLog (ss_LatestSequence (sr_session r)) (chunk <$> stored_events db sid))
    <$> db_sessions db !! sid.

Lemma session_check_spec s :
  session_check s = true <->
  1 <= ss_Columns s <= 1000 /\ 1 <= ss_Rows s <= 1000 /\ 0 <= ss_Generation s
  /\ 0 <= ss_EarliestSequence s <= ss_LatestSequence s.
Proof. unfold session_check. rewrite !andb_true_iff, !bool_decide_eq_true. lia. Qed.

(** An update confined to the session [sid]. *)
Record only_session (sid : string) (db db' : DB) : Prop := {
  oo_output : forall a s, a <> sid -> db_output db' !! (a, s) = db_output db !! (a, s);
  oo_inputs : db_inputs db' = db_inputs db;
  oo_ops : db_operations db' = db_operations db;
  oo_transfers : db_transfers db' = db_transfers db
}.

Lemma session_ok_other db db' sid a r :
  only_session sid db db' -> a <> sid -> session_ok db a r -> session_ok db' a r.
Proof.
  intros [] Hne []. constructor; try done.
  - eapply keyed_other; [|done]. intros s. by rewrite oo_output0.
  - unfold stored_events, stored in *.
    rewrite (rows_other (db_output db') (db_output db)); [done|]. intros s. by rewrite oo_output0.
Qed.

Lemma db_ok_session db db' sid r r' :
  db_ok db -> db_sessions db !! sid = Some r -> db_sessions db' = <[sid := r']> (db_sessions db) ->
  only_session sid db db' -> ss_Name (sr_session r') = ss_Name (sr_session r) ->
  session_ok db' sid r' -> db_ok db'.
Proof.
  intros [] Hr Hs Ho Hn Hok.
  assert (Hsome : forall a, is_Some (db_sessions db !! a) -> is_Some (db_sessions db' !! a)).
  { intros a Ha. rewrite Hs, lookup_insert. case_decide; eauto. }
  constructor.
  - intros a ra. rewrite Hs, lookup_insert. case_decide as E; [by intros [= <-]; subst|].
    intros Ha. eapply session_ok_other; eauto.
  - intros a s e He. destruct (decide (a = sid)) as [->|Hne].
    + rewrite Hs, lookup_insert_eq. eauto.
    + rewrite (oo_output _ _ _ Ho) in He by done. eauto.
  - assert (Hback : forall a ra, db_sessions db' !! a = Some ra ->
              exists rb, db_sessions db !! a = Some rb /\ ss_Name (sr_session rb) = ss_Name (sr_session ra)).
    { intros a ra. rewrite Hs, lookup_insert. case_decide as E; [|eauto]. intros [= <-]. subst. eauto. }
    intros a b ra rb (xa & Ha & Ea)%Hback (xb & Hb & Eb)%Hback Hn'. apply (do_names0 a b xa xb); congruence.
  - intros k d. rewrite (oo_inputs _ _ _ Ho). intros [? ?]%do_inputs0. auto.
Qed.

(** *** Retention *)

Lemma chunk_total db sid E L :
  contiguous E (stored_events db sid) L -> total (chunk <$> stored_events db sid) = L - E.
Proof. intros Hc. rewrite total_chunk. apply contiguous_end in Hc. lia. Qed.

Record retained_to (sid : string) (max L : Z) (db db' : DB) (E' : Z) : Prop := {
  rt_keyed : keyed (db_output db') sid;
  rt_contig : contiguous E' (stored_events db' sid) L;
  rt_trim : chunk <$> stored_events db' sid = trim max (chunk <$> stored_events db sid);
  rt_sessions : db_sessions db' = db_sessions db;
  rt_only : only_session sid db db'
}.

Lemma only_session_refl sid db : only_session sid db db.
Proof. by constructor. Qed.

Lemma only_session_trans sid a b c : only_session sid a b -> only_session sid b c -> only_session sid a c.
Proof.
  intros [] []. constructor; try congruence. intros. rewrite oo_output1, oo_output0; done.
Qed.

Lemma retain_loop_spec sid max L fuel : forall db E,
  keyed (db_output db) sid -> contiguous E (stored_events db sid) L -> 0 <= E -> L < two64 ->
  0 <= max -> (length (stored db sid) < fuel)%nat ->
  exists db' E', retain_loop fuel db sid max (L - E) E = Ok (db', L - E', E')
    /\ E <= E' <= L /\ retained_to sid max L db db' E'.
Proof.
  induction fuel as [|fuel IH]; intros db E Hk Hc HE HL Hm Hf; [lia|]. cbn [retain_loop].
  pose proof (chunk_total _ _ _ _ Hc) as Htot. pose proof (contiguous_end _ _ _ Hc) as Hend.
  case_decide as Hlt.
  - unfold stored in Hf. destruct (output_rows (db_output db) sid) as [|e l] eqn:Hr.
    + unfold stored_events, stored in Hend. rewrite Hr in Hend. simpl in Hend. lia.
    + destruct (rows_delete _ _ _ _ Hk Hr) as [Hk' Hr'].
      set (db1 := set_output db (delete (sid, oe_StartSequence e) (db_output db))).
      assert (Hst : stored_events db sid = to_event e :: stored_events db1 sid)
        by (unfold stored_events, stored, db1; simpl; rewrite Hr, Hr'; done).
      assert (Hst1 : stored db1 sid = l) by done.
      rewrite Hst in Hc. destruct Hc as (Hs & He & Hc). simpl in Hs, He, Hc.
      pose proof (contiguous_end _ _ _ Hc).
      rewrite u64_sub_small by lia. replace (L - E - len (oe_Data e)) with (L - oe_EndSequence e) by lia.
      destruct (IH db1 (oe_EndSequence e)) as (db' & E' & Hrun & HE' & []); try done; [lia|rewrite Hst1; simpl in Hf; lia|].
      exists db', E'. split; [done|]. split; [lia|]. constructor; try done.
      * rewrite rt_trim0, Hst. cbn [fmap list_fmap trim].
        rewrite decide_False; [done|]. rewrite <- fmap_cons, <- Hst. lia.
      * eapply only_session_trans; [|done]. constructor; try done.
        intros a s Hne. simpl. apply lookup_delete_ne. congruence.
  - exists db, E. split; [done|]. split; [lia|]. constructor; auto using only_session_refl.
    destruct (chunk <$> stored_events db sid); cbn [trim]; [done|]. by rewrite decide_True by lia.
Qed.

Lemma retain_output_spec sid max L db E :
  keyed (db_output db) sid -> contiguous E (stored_events db sid) L -> 0 <= E -> L < two64 -> 0 <= max ->
  exists db' E', retain_output db sid max (u64_sub L E) E = Ok (db', L - E', E')
    /\ E <= E' <= L /\ retained_to sid max L db db' E'.
Proof.
  intros Hk Hc HE HL Hm. pose proof (contiguous_end _ _ _ Hc).
  unfold retain_output. rewrite u64_sub_small by lia. apply retain_loop_spec; try done.
  unfold stored. lia.
Qed.

(** The bounds of a session after its rows have been retained. *)
Lemma update_bounds_ok db1 db2 sid r E L now max E' :
  db_sessions db1 !! sid = Some r -> session_check (sr_session r) = true ->
  0 <= E <= E' -> E' <= L -> retained_to sid max L db1 db2 E' ->
  update_bounds db2 sid E' L now
  = Ok (set_sessions db2 (<[sid := with_bounds r E' L now]> (db_sessions db1))).
Proof.
  intros Hr Hck HE HL []. unfold update_bounds. rewrite rt_sessions0, Hr.
  assert (session_check (sr_session (with_bounds r E' L now)) = true) as ->; [|done].
  apply session_check_spec. apply session_check_spec in Hck. simpl. lia.
Qed.

Lemma session_ok_bounds db db' sid r E L now :
  session_ok db sid r -> keyed (db_output db') sid -> contiguous E (stored_events db' sid) L ->
  0 <= E -> L < two63 -> session_ok db' sid (with_bounds r E L now).
Proof.
  intros [] Hk Hc HE HL. constructor; try done. simpl. apply session_check_spec.
  apply session_check_spec in so_check0. apply contiguous_end in Hc. simpl. lia.
Qed.

Lemma two63_64 : two63 < two64.
Proof. reflexivity. Qed.

Lemma arg_ok_true z : z < two63 -> arg_ok z = true.
Proof. intros. unfold arg_ok. by apply bool_decide_eq_true. Qed.

Lemma retained_set_sessions sid max L db db' E t :
  retained_to sid max L (set_sessions db t) db' E -> only_session sid db db'.
Proof. intros [_ _ _ _ []]. by constructor. Qed.

(** The database after the INSERT and the first UPDATE of [AppendOutput]. *)
Definition inserted (db : DB) (sid : string) (r : session_row) (e : OutputEvent) (now : time) : DB :=
  set_sessions (set_output db (<[(sid, oe_StartSequence e) := e]> (db_output db)))
    (<[sid := with_bounds r (ss_EarliestSequence (sr_session r)) (oe_EndSequence e) now]> (db_sessions db)).

Lemma inserted_only db sid r e now : only_session sid db (inserted db sid r e now).
Proof. constructor; try done. intros a s Hne. apply lookup_insert_ne. congruence. Qed.

(** A chunk at the end of the session's output. *)
Definition next_chunk (r : session_row) (ch : byte) (data : list byte) : OutputEvent :=
  let L := ss_LatestSequence (sr_session r) in mkOutput ch L (L + len data) data.

Lemma rows_before db sid r ch data x :
  session_ok db sid r -> x ∈ output_rows (db_output db) sid -> output_lt x (next_chunk r ch data).
Proof.
  intros [] Hx. assert (Hx' : to_event x ∈ stored_events db sid)
    by (unfold stored_events, stored; by apply list_elem_of_fmap_2).
  destruct (contiguous_elem _ _ _ _ so_contig0 Hx') as (_ & ? & Hl). simpl in *.
  apply rows_elem in Hx as [s Hx]. destruct (so_keyed0 _ _ Hx) as [_ Hne].
  unfold output_lt; simpl. destruct (oe_Data x); simpl in *; [done|lia].
Qed.

Lemma inserted_ok db sid r ch data now :
  session_ok db sid r -> data <> [] ->
  let e := next_chunk r ch data in
  let db2 := inserted db sid r e now in
  keyed (db_output db2) sid
  /\ contiguous (ss_EarliestSequence (sr_session r)) (stored_events db2 sid) (oe_EndSequence e)
  /\ chunk <$> stored_events db2 sid = (chunk <$> stored_events db sid) ++ [(ch, data)].
Proof.
  intros Hso Hd e db2. pose proof Hso as [].
  destruct (rows_insert _ sid e so_keyed0 Hd) as [Hk Hr]; [intros x; by apply rows_before|].
  assert (Hdo : db_output db2 = <[(sid, oe_StartSequence e) := e]> (db_output db)) by done.
  unfold stored_events, stored. rewrite Hdo, Hr, !fmap_app. split_and!; [done| |done].
  eapply contiguous_app; [exact so_contig0|]. done.
Qed.

Lemma insert_output_ok db sid r ch data now :
  session_ok db sid r -> db_sessions db !! sid = Some r -> ch = x01 \/ ch = x02 -> data <> [] ->
  ss_LatestSequence (sr_session r) + len data < two63 ->
  let e := next_chunk r ch data in
  (let? db1 := insert_output db sid e in
   update_bounds db1 sid (ss_EarliestSequence (sr_session r)) (oe_EndSequence e) now)
  = Ok (inserted db sid r e now).
Proof.
  intros Hso Hr Hch Hd Hlt e. pose proof Hso as [].
  assert (Hfresh : db_output db !! (sid, oe_StartSequence e) = None).
  { destruct (db_output db !! _) as [x|] eqn:Ex; [|done].
    assert (Hin : x ∈ output_rows (db_output db) sid) by (apply rows_elem; eauto).
    pose proof (rows_before _ _ _ ch data _ Hso Hin) as Hb. destruct (so_keyed0 _ _ Ex) as [? _].
    unfold output_lt in Hb. fold e in Hb. lia. }
  unfold insert_output. rewrite !arg_ok_true by (simpl; lia). cbn [andb].
  rewrite decide_False by (rewrite Hfresh, Hr; intros [[? ?]|[?|[?|?]]];
                           [done|done|tauto|simpl in *; lia]).
  unfold update_bounds. simpl db_sessions. rewrite Hr.
  assert (session_check (sr_session (with_bounds r (ss_EarliestSequence (sr_session r)) (oe_EndSequence e) now))
          = true) as ->; [|done].
  apply session_check_spec. apply session_check_spec in so_check0. simpl. lia.
Qed.

Lemma AppendOutput_spec now db sid r ch data max :
  db_ok db -> db_sessions db !! sid = Some r -> ch = x01 \/ ch = x02 -> data <> [] -> 0 < max ->
  ss_LatestSequence (sr_session r) + len data < two63 ->
  let e := next_chunk r ch data in
  exists db' E',
    AppendOutput FNone now db sid ch (ss_LatestSequence (sr_session r)) data max = (db', Ok (e, E'))
    /\ db_ok db' /\ only_session sid db db'
    /\ db_sessions db' = <[sid := with_bounds r E' (oe_EndSequence e) now]> (db_sessions db)
    /\ chunk <$> stored_events db' sid = trim max ((chunk <$> stored_events db sid) ++ [(ch, data)])
    /\ ss_EarliestSequence (sr_session r) <= E'
    /\ contiguous E' (stored_events db' sid) (oe_EndSequence e).
Proof.
  intros Hok Hr Hch Hd Hm Hlt e. pose proof Hok as []. pose proof (do_sessions0 _ _ Hr) as Hso.
  pose proof Hso as []. pose proof (proj1 (session_check_spec _) so_check0) as (_ & _ & _ & HE).
  pose proof two63_64. destruct (inserted_ok _ _ _ ch _ now Hso Hd) as (Hk2 & Hc2 & Hch2).
  pose proof (insert_output_ok _ _ _ ch data now Hso Hr Hch Hd Hlt) as Hins.
  cbv zeta in Hins, Hk2, Hc2, Hch2. fold e in Hins, Hk2, Hc2, Hch2.
  set (db2 := inserted db sid r e now) in *. set (E := ss_EarliestSequence (sr_session r)) in *.
  set (L' := oe_EndSequence e) in *. assert (HL' : L' = ss_LatestSequence (sr_session r) + len data) by done.
  destruct (retain_output_spec sid max L' db2 E) as (db3 & E' & Hrun & HE' & Hrt); try done; try lia.
  pose proof Hrt as [Hk3 Hc3 Ht3 Hs3 Ho3].
  assert (Hr2 : db_sessions db2 !! sid = Some (with_bounds r E L' now)) by (simpl; by rewrite lookup_insert_eq).
  assert (Hck2 : session_check (sr_session (with_bounds r E L' now)) = true).
  { apply session_check_spec. apply session_check_spec in so_check0. simpl. lia. }
  pose proof (update_bounds_ok db2 db3 sid _ E L' now max E' Hr2 Hck2 ltac:(lia) ltac:(lia) Hrt) as Hub.
  assert (Hs4 : <[sid := with_bounds (with_bounds r E L' now) E' L' now]> (db_sessions db2)
                = <[sid := with_bounds r E' L' now]> (db_sessions db)) by (simpl; by rewrite insert_insert_eq).
  rewrite Hs4 in Hub. set (db4 := set_sessions db3 _) in Hub.
  assert (Honly : only_session sid db db4).
  { eapply only_session_trans; [apply (inserted_only _ _ r e now)|]. destruct Ho3. by constructor. }
  exists db4, E'. split_and!; try done; try lia; try (by rewrite <- Hch2).
  - unfold AppendOutput. rewrite decide_False by (intros [?|?]; [done|lia]).
    rewrite u64_add_small by lia. rewrite decide_False by lia.
    unfold select_bounds. rewrite Hr. rewrite decide_False by lia.
    fold (next_chunk r ch data) e E. rewrite <- HL'. destruct (insert_output db sid e); [|done].
    rewrite Hins, Hrun. cbn beta iota.
    replace (if decide (L' - E' = 0) then L' else E') with E' by (case_decide; lia).
    by rewrite arg_ok_true, Hub by lia.
  - eapply (db_ok_session db _ sid r); try done. apply (session_ok_bounds db); try done; lia.
Qed.

(** A call either leaves the database as it was or does what it does without a fault. *)
Lemma commit_cases {A} f db (r : result store_error (DB * A)) db' x :
  commit f db r = (db', x) -> db' = db \/ exists a, r = Ok (db', a).
Proof. destruct f, r as [[? ?]|]; simpl; intros [= <- <-]; eauto. Qed.

Lemma commit_failed {A} f db (r : result store_error (DB * A)) db' e :
  commit f db r = (db', Err e) -> f <> FAfterCommit -> db' = db.
Proof. destruct f, r as [[? ?]|]; simpl; intros [= <- <-]; done. Qed.

Lemma AppendOutput_cases f now db sid ch start data max db' x :
  AppendOutput f now db sid ch start data max = (db', x) ->
  db' = db \/ exists a, AppendOutput FNone now db sid ch start data max = (db', Ok a).
Proof.
  unfold AppendOutput. case_decide; [intros [= <- <-]; auto|]. case_decide; [intros [= <- <-]; auto|].
  intros [->|[a Ha]]%commit_cases; [auto|]. right. exists a. rewrite Ha. done.
Qed.

(** A successful append says that its arguments were in order. *)
Lemma AppendOutput_ok_inv now db sid ch start data max db' a :
  db_ok db -> 0 <= start < two64 ->
  AppendOutput FNone now db sid ch start data max = (db', Ok a) ->
  exists r, db_sessions db !! sid = Some r /\ start = ss_LatestSequence (sr_session r)
    /\ (ch = x01 \/ ch = x02) /\ data <> [] /\ max <> 0 /\ start + len data < two63.
Proof.
  intros Hok Hstart. unfold AppendOutput. case_decide as H1; [done|]. case_decide as H2; [done|].
  unfold select_bounds. destruct (db_sessions db !! sid) as [r|] eqn:Hr; [|done].
  case_decide as H3; [done|]. unfold insert_output. cbn [oe_StartSequence oe_EndSequence oe_Channel oe_Data].
  destruct (arg_ok start && arg_ok _) eqn:Ha; [|done]. case_decide as H4; [done|]. intros _.
  apply andb_true_iff in Ha as [_ Ha]. unfold arg_ok in Ha. apply bool_decide_eq_true in Ha.
  exists r. split_and!; [done|lia| | tauto|tauto|].
  - destruct (decide (ch = x01)), (decide (ch = x02)); tauto.
  - destruct (decide (len data = u64_add start (len data) - start)); [lia|tauto].
Qed.

Lemma AppendOutput_preserves f now db sid ch start data max db' x :
  db_ok db -> 0 <= start < two64 -> 0 <= max ->
  AppendOutput f now db sid ch start data max = (db', x) -> db_ok db'.
Proof.
  intros Hok Hs Hm [->|[a Ha]]%AppendOutput_cases; [done|].
  destruct (AppendOutput_ok_inv _ _ _ _ _ _ _ _ _ Hok Hs Ha) as (r & Hr & -> & ? & ? & ? & ?).
  destruct (AppendOutput_spec now db sid r ch data max) as (db1 & E' & Hrun & ? & _); try done; [lia|].
  rewrite Hrun in Ha. by simplify_eq.
Qed.

(** *** Trimming, clearing and advancing *)

Lemma TrimOutput_spec db sid r max :
  db_ok db -> db_sessions db !! sid = Some r -> 0 < max ->
  exists db' E', TrimOutput FNone db sid max = (db', Ok E')
    /\ db_ok db' /\ only_session sid db db'
    /\ db_sessions db' = <[sid := with_bounds r E' (ss_LatestSequence (sr_session r))
                                   (ss_UpdatedAt (sr_session r))]> (db_sessions db)
    /\ chunk <$> stored_events db' sid = trim max (chunk <$> stored_events db sid)
    /\ contiguous E' (stored_events db' sid) (ss_LatestSequence (sr_session r)).
Proof.
  intros Hok Hr Hm. pose proof Hok as []. pose proof (do_sessions0 _ _ Hr) as Hso. pose proof Hso as [].
  pose proof (proj1 (session_check_spec _) so_check0) as (_ & _ & _ & HE). pose proof two63_64.
  set (L := ss_LatestSequence (sr_session r)) in *. set (E := ss_EarliestSequence (sr_session r)) in *.
  destruct (retain_output_spec sid max L db E) as (db1 & E' & Hrun & HE' & Hrt); try done; try lia.
  pose proof Hrt as [Hk1 Hc1 Ht1 Hs1 Ho1].
  pose proof (update_bounds_ok db db1 sid r E L (ss_UpdatedAt (sr_session r)) max E' Hr so_check0
                ltac:(lia) ltac:(lia) Hrt) as Hub.
  set (db2 := set_sessions db1 _) in Hub. assert (Honly : only_session sid db db2) by (destruct Ho1; by constructor).
  exists db2, E'. split_and!; try done.
  - unfold TrimOutput. rewrite decide_False by lia. unfold select_bounds. rewrite Hr. fold L E.
    rewrite Hrun. cbn beta iota.
    replace (if decide (L - E' = 0) then L else E') with E' by (case_decide; lia).
    rewrite arg_ok_true by lia. by rewrite Hs1, Hr, Hub.
  - eapply (db_ok_session db _ sid r); try done. apply (session_ok_bounds db); try done; lia.
Qed.

Lemma TrimOutput_preserves f db sid max db' x :
  db_ok db -> 0 <= max -> TrimOutput f db sid max = (db', x) -> db_ok db'.
Proof.
  intros Hok Hm Hrun. destruct (db_sessions db !! sid) as [r|] eqn:Hr.
  - destruct (decide (max = 0)) as [->|Hne]; [unfold TrimOutput in Hrun; rewrite decide_True in Hrun by done; by simplify_eq|].
    destruct (TrimOutput_spec db sid r max) as (db1 & E' & H1 & Hok1 & _); try done; [lia|].
    unfold TrimOutput in *. rewrite decide_False in Hrun, H1 by done.
    apply commit_cases in Hrun as [->|[a Ha]]; [done|]. rewrite Ha in H1. by simplify_eq/=.
  - unfold TrimOutput, select_bounds in Hrun. rewrite Hr in Hrun.
    case_decide; [by simplify_eq|]. apply commit_cases in Hrun as [->|[a Ha]]; done.
Qed.

(** Dropping all output of a session and moving its cursor to [n]. *)
Lemma reset_output_ok db sid r n now :
  db_ok db -> db_sessions db !! sid = Some r -> 0 <= n < two63 ->
  exists db', update_bounds (set_output db (delete_output (db_output db) sid)) sid n n now = Ok db'
    /\ db_ok db' /\ only_session sid db db' /\ stored db' sid = []
    /\ db_sessions db' = <[sid := with_bounds r n n now]> (db_sessions db).
Proof.
  intros Hok Hr Hn. pose proof Hok as []. pose proof (do_sessions0 _ _ Hr) as Hso. pose proof Hso as [].
  destruct (rows_cleared (db_output db) sid) as [Hk Hrows].
  unfold update_bounds. simpl db_sessions. rewrite Hr.
  assert (session_check (sr_session (with_bounds r n n now)) = true) as ->.
  { apply session_check_spec. apply session_check_spec in so_check0. simpl. lia. }
  set (db' := set_sessions _ _). exists db'.
  assert (Honly : only_session sid db db').
  { constructor; try done. intros a s Hne. simpl. by rewrite delete_output_lookup, decide_False. }
  split_and!; try done. eapply (db_ok_session db _ sid r); try done.
  apply (session_ok_bounds db); try done; try lia. unfold stored_events, stored. simpl. by rewrite Hrows.
Qed.

Lemma ClearOutput_spec now db sid r :
  db_ok db -> db_sessions db !! sid = Some r ->
  let n := ss_LatestSequence (sr_session r) in
  exists db', ClearOutput FNone now db sid n = (db', Ok tt)
    /\ db_ok db' /\ only_session sid db db' /\ stored db' sid = []
    /\ db_sessions db' = <[sid := with_bounds r n n now]> (db_sessions db).
Proof.
  intros Hok Hr n. pose proof Hok as []. destruct (do_sessions0 _ _ Hr) as [_ _ Hck HL _ _ _].
  apply session_check_spec in Hck.
  destruct (reset_output_ok db sid r n now Hok Hr) as (db' & Hu & ? & ? & ? & ?); [unfold n; lia|].
  exists db'. split_and!; try done. unfold ClearOutput, select_bounds. rewrite Hr.
  rewrite decide_False by (simpl; tauto). rewrite arg_ok_true by (unfold n; lia). fold n. by rewrite Hu.
Qed.

Lemma AdvanceOutput_spec now db sid r n :
  db_ok db -> db_sessions db !! sid = Some r -> ss_LatestSequence (sr_session r) <= n < two63 ->
  exists db', AdvanceOutput FNone now db sid (ss_LatestSequence (sr_session r)) n = (db', Ok tt)
    /\ db_ok db' /\ only_session sid db db' /\ stored db' sid = []
    /\ db_sessions db' = <[sid := with_bounds r n n now]> (db_sessions db).
Proof.
  intros Hok Hr Hn. pose proof Hok as []. destruct (do_sessions0 _ _ Hr) as [_ _ Hck HL _ _ _].
  apply session_check_spec in Hck.
  destruct (reset_output_ok db sid r n now Hok Hr) as (db' & Hu & ? & ? & ? & ?); [lia|].
  exists db'. split_and!; try done. unfold AdvanceOutput, select_bounds. rewrite decide_False, Hr by lia.
  rewrite decide_False by (simpl; tauto). rewrite arg_ok_true by lia. by rewrite Hu.
Qed.

Lemma ClearOutput_preserves f now db sid n db' x :
  db_ok db -> ClearOutput f now db sid n = (db', x) -> db_ok db'.
Proof.
  intros Hok Hrun. unfold ClearOutput in Hrun. apply commit_cases in Hrun as [->|[a Ha]]; [done|].
  unfold select_bounds in Ha. destruct (db_sessions db !! sid) as [r|] eqn:Hr; [|done].
  case_decide as Hn; [done|]. simpl in Hn. subst n.
  destruct (ClearOutput_spec now db sid r Hok Hr) as (db1 & H1 & Hok1 & _).
  unfold ClearOutput, select_bounds in H1. rewrite Hr, decide_False in H1 by (simpl; tauto).
  simpl in H1, Ha. rewrite Ha in H1. by simplify_eq/=.
Qed.

Lemma AdvanceOutput_preserves f now db sid e n db' x :
  db_ok db -> AdvanceOutput f now db sid e n = (db', x) -> db_ok db'.
Proof.
  intros Hok. unfold AdvanceOutput. destruct (decide (n < e)) as [|Hne]; [by intros [= <- <-]|].
  intros [->|[a Ha]]%commit_cases; [done|].
  unfold select_bounds in Ha. destruct (db_sessions db !! sid) as [r|] eqn:Hr; [|done].
  destruct (decide (_ <> e)) as [|Hn]; [done|]. apply dec_stable in Hn. simpl in Hn. subst e.
  destruct (arg_ok n) eqn:Harg; [|done]. unfold arg_ok in Harg. apply bool_decide_eq_true in Harg.
  destruct Hok as [Hs ? ? ?]. pose proof (Hs _ _ Hr) as [_ _ Hck _ _ _ _]. apply session_check_spec in Hck.
  destruct (reset_output_ok db sid r n now) as (db1 & Hu & Hok1 & _); [by constructor|done|lia|].
  rewrite Hu in Ha. by simplify_eq.
Qed.

(** *** Reading *)

Definition replay_stop (limit remaining p t : Z) : Z :=
  if decide (0 < limit) then Z.min t (p + remaining) else t.

Lemma replay_loop_spec from limit rows : forall s t rem,
  contiguous s (to_event <$> rows) t -> Forall (fun e => oe_Data e <> []) rows ->
  0 <= s -> t < two64 -> from <= t -> (0 < limit -> 0 < rem < two64) ->
  let p := Z.max from s in
  let stop := replay_stop limit rem p t in
  let evs := replay_loop from limit rem (filter (fun e => from < oe_EndSequence e) rows) in
  contiguous p (to_event <$> evs) stop
  /\ content (to_event <$> evs) = slice (content (to_event <$> rows)) (p - s) (stop - s).
Proof.
  induction rows as [|e rows IH]; intros s t rem Hc Hne Hs Ht Hft Hrem p stop evs.
  - simpl in Hc. subst t. assert (stop = s /\ p = s) as [-> ->].
    { unfold stop, replay_stop, p. case_decide; lia. }
    simpl. split; [done|]. by rewrite slice_empty.
  - destruct Hc as (Hst & Hen & Hc). simpl in Hst, Hen, Hc. pose proof (contiguous_end _ _ _ Hc) as Htend.
    apply Forall_cons in Hne as [Hd Hne]. assert (0 < len (oe_Data e)) by (destruct (oe_Data e); simpl; [done|lia]).
    specialize (IH (oe_EndSequence e) t).
    cbn [fmap list_fmap]. rewrite content_cons. simpl ev_Data.
    unfold evs. rewrite filter_cons. destruct (decide (from < oe_EndSequence e)) as [Hlt|Hge].
    + cbn [replay_loop]. rewrite Hst. fold p. assert (Hp : s <= p < oe_EndSequence e)
        by lia.
      rewrite u64_sub_small by lia.
      destruct (decide (0 < limit /\ rem < oe_EndSequence e - p)) as [[Hl Hr]|Hn].
      * specialize (Hrem Hl). rewrite u64_add_small by lia. rewrite decide_True by lia.
        rewrite decide_True by done. rewrite (u64_sub_small (p + rem) p) by lia.
        rewrite u64_sub_small, decide_True by lia.
        assert (stop = p + rem) as -> by (unfold stop, replay_stop; rewrite decide_True by done; lia).
        rewrite slice_app_l by lia. simpl. rewrite length_slice by lia.
        split; [lia|]. by rewrite content_cons, app_nil_r.
      * rewrite decide_True by lia.
        assert (Hkeep : forall evs' stop', oe_EndSequence e <= stop' ->
          contiguous (oe_EndSequence e) (to_event <$> evs') stop' ->
          content (to_event <$> evs') = slice (content (to_event <$> rows)) 0 (stop' - oe_EndSequence e) ->
          let k := mkOutput (oe_Channel e) p (oe_EndSequence e)
                     (slice (oe_Data e) (p - s) (oe_EndSequence e - s)) in
          contiguous p (to_event <$> k :: evs') stop'
          /\ content (to_event <$> k :: evs')
             = slice (oe_Data e ++ content (to_event <$> rows)) (p - s) (stop' - s)).
        { intros evs' stop' Hle Hce Hco k. cbn [fmap list_fmap contiguous]. rewrite content_cons. simpl ev_Data.
          rewrite Hco. simpl. rewrite length_slice by lia. split; [split_and!; try done; lia|].
          rewrite <- slice_app_both by lia. f_equal; f_equal; lia. }
        assert (Hpe : Z.max from (oe_EndSequence e) = oe_EndSequence e) by lia.
        destruct (decide (0 < limit)) as [Hl|Hl].
        -- specialize (Hrem Hl). rewrite (u64_sub_small (oe_EndSequence e) p), u64_sub_small by lia.
           destruct (decide (rem - (oe_EndSequence e - p) = 0)) as [Hz|Hz].
           ++ assert (stop = oe_EndSequence e) as ->
                by (unfold stop, replay_stop; rewrite decide_True by done; lia).
              apply (Hkeep []); [lia|done|]. by rewrite slice_empty by lia.
           ++ destruct (IH (rem - (oe_EndSequence e - p))) as [Hc' Ht']; try done; [lia..|].
              rewrite Hpe in Hc', Ht'. rewrite Z.sub_diag in Ht'.
              assert (Hst' : replay_stop limit (rem - (oe_EndSequence e - p)) (oe_EndSequence e) t = stop)
                by (unfold stop, replay_stop; rewrite !decide_True by done; lia).
              rewrite Hst' in Hc', Ht'. apply Hkeep; try done.
              unfold stop, replay_stop. rewrite decide_True by done. lia.
        -- destruct (IH rem) as [Hc' Ht']; try done; [lia..|].
           rewrite Hpe in Hc', Ht'. rewrite Z.sub_diag in Ht'.
           assert (Hst' : replay_stop limit rem (oe_EndSequence e) t = stop)
             by (unfold stop, replay_stop; by rewrite !decide_False).
           rewrite Hst' in Hc', Ht'. apply Hkeep; try done.
           unfold stop, replay_stop. rewrite decide_False by done. lia.
    + destruct (IH rem) as [Hc' Ht']; try done; [lia|]. assert (Hpe : Z.max from (oe_EndSequence e) = p) by lia.
      rewrite Hpe in Hc', Ht'. fold stop in Hc', Ht'. split; [done|]. rewrite Ht'.
      rewrite slice_app_r by lia. f_equal; lia.
Qed.

Lemma Replay_spec db sid r from limit :
  db_ok db -> db_sessions db !! sid = Some r ->
  ss_EarliestSequence (sr_session r) <= from <= ss_LatestSequence (sr_session r) ->
  0 <= limit < two64 ->
  let E := ss_EarliestSequence (sr_session r) in
  let L := ss_LatestSequence (sr_session r) in
  let stop := replay_stop limit limit from L in
  exists evs, Replay FNone db sid from limit = Ok (evs, E, L)
    /\ contiguous from (to_event <$> evs) stop
    /\ content (to_event <$> evs) = slice (content (stored_events db sid)) (from - E) (stop - E).
Proof.
  intros Hok Hr Hf Hl E L stop. pose proof Hok as []. destruct (do_sessions0 _ _ Hr) as [_ _ Hck HL _ Hk Hc].
  apply session_check_spec in Hck. pose proof two63_64. fold E L in Hf, Hck, HL, Hc.
  assert (Hne : Forall (fun e => oe_Data e <> []) (output_rows (db_output db) sid)).
  { apply Forall_forall. intros e [s He]%rows_elem. by destruct (Hk _ _ He). }
  destruct (replay_loop_spec from limit _ E L limit Hc Hne) as [H1 H2]; try lia.
  replace (Z.max from E) with from in H1, H2 by lia.
  eexists. split; [|split; [exact H1|exact H2]].
  unfold Replay, reading, select_bounds. rewrite (decide_False (P := FNone = FBeforeCommit)) by done.
  rewrite Hr. fold E L. rewrite !decide_False by lia. by rewrite arg_ok_true by lia.
Qed.

(** *** Sessions and input decisions *)

(** An update of [sid]'s row that keeps its name and bounds. *)
Lemma session_row_ok db sid r s' :
  db_ok db -> db_sessions db !! sid = Some r -> ss_ID s' = ss_ID (sr_session r) ->
  ss_Name s' = ss_Name (sr_session r) -> session_check s' = true -> ss_Generation s' < two63 ->
  ss_EarliestSequence s' = ss_EarliestSequence (sr_session r) ->
  ss_LatestSequence s' = ss_LatestSequence (sr_session r) ->
  db_ok (set_sessions db (<[sid := mkRow s' (sr_args r) (sr_env r)]> (db_sessions db))).
Proof.
  intros Hok Hr Hid Hn Hck Hgen He Hl. pose proof Hok as []. destruct (do_sessions0 _ _ Hr).
  eapply (db_ok_session db _ sid r); try done. constructor; simpl; try done; rewrite ?He, ?Hl; try done.
  by rewrite Hid.
Qed.

Lemma UpdateSession_preserves f now db id st next db' x :
  db_ok db -> UpdateSession f now db id st next = (db', x) -> db_ok db'.
Proof.
  intros Hok [->|[a Ha]]%commit_cases; [done|]. destruct (arg_ok _) eqn:Hg; [|done].
  apply bool_decide_eq_true in Hg.
  destruct (db_sessions db !! id) as [r|] eqn:Hr; [|done]. case_decide; [done|]. cbv zeta in Ha.
  destruct (session_check _) eqn:Hck; [|done]. simplify_eq. by apply session_row_ok.
Qed.

Lemma stored_none db sid : db_ok db -> db_sessions db !! sid = None ->
  keyed (db_output db) sid /\ stored db sid = [].
Proof.
  intros [] Hn.
  assert (Hnone : forall s, db_output db !! (sid, s) = None).
  { intros s. destruct (db_output db !! (sid, s)) as [e|] eqn:E; [|done].
    destruct (do_output_fk0 _ _ _ E) as [? ?]. congruence. }
  assert (Hk : keyed (db_output db) sid) by (intros s e; rewrite Hnone; done).
  split; [done|]. apply rows_unique; [done|constructor|]. intros e. split; [set_solver|].
  intros [s Hs]. congruence.
Qed.

Section CreateDelete.
Context `{J : JsonStrings}.

Lemma CreateSession_preserves f now db s db' x :
  db_ok db -> ss_EarliestSequence s = ss_LatestSequence s -> ss_ID s <> "" ->
  CreateSession f now db s = (db', x) -> db_ok db'.
Proof.
  intros Hok Heq Hid [->|[a Ha]]%commit_cases; [done|].
  destruct (arg_ok _ && arg_ok _ && arg_ok (ss_LatestSequence s)) eqn:Harg; [|done].
  apply andb_true_iff in Harg as [Harg' Harg]. apply andb_true_iff in Harg' as [Hg _].
  unfold arg_ok in Harg, Hg. apply bool_decide_eq_true in Harg, Hg.
  case_decide as Hc; [done|]. simplify_eq. apply Decidable.not_or in Hc as [Hfresh Hc].
  apply Decidable.not_or in Hc as [Hname Hck]. apply not_false_iff_true in Hck.
  apply eq_None_not_Some in Hfresh. destruct (stored_none _ _ Hok Hfresh) as [Hk Hst].
  assert (Hname' : forall a r, db_sessions db !! a = Some r -> ss_Name (sr_session r) <> ss_Name s).
  { intros a r Hr E. apply Hname, Exists_exists. exists (a, r). split; [by apply elem_of_map_to_list|done]. }
  destruct Hok. constructor.
  - intros a r. simpl. rewrite lookup_insert. case_decide as E.
    + intros [= <-]. subst a. constructor; simpl; try done. unfold stored_events.
      replace (stored (set_sessions db _) (ss_ID s)) with (stored db (ss_ID s)) by done. by rewrite Hst.
    + intros Hr. destruct (do_sessions0 _ _ Hr). by constructor.
  - intros a t e He. simpl. rewrite lookup_insert. case_decide; eauto.
  - intros a b ra rb. simpl. rewrite !lookup_insert. repeat case_decide; subst; try congruence.
    + intros [= <-] Hb. simpl. intros E. by destruct (Hname' _ _ Hb).
    + intros Ha [= <-]. simpl. intros E. by destruct (Hname' _ _ Ha).
    + apply do_names0.
  - intros k d Hd. destruct (do_inputs0 _ _ Hd). split; [done|]. simpl. rewrite lookup_insert. case_decide; eauto.
Qed.

Lemma DeleteSession_preserves f db id db' x :
  db_ok db -> DeleteSession f db id = (db', x) -> db_ok db'.
Proof.
  intros Hok [->|[a Ha]]%commit_cases; [done|].
  destruct (db_sessions db !! id) as [r|] eqn:Hr; [|done]. case_decide; [|done]. simplify_eq.
  destruct Hok. constructor; simpl.
  - intros a ra. rewrite lookup_delete. case_decide as E; [done|]. intros Hra.
    destruct (do_sessions0 _ _ Hra).
    assert (Hsame : forall s, db_output db !! (a, s) = delete_output (db_output db) id !! (a, s))
      by (intros s; rewrite delete_output_lookup, decide_False; done).
    constructor; try done; simpl; [by eapply keyed_other|].
    unfold stored_events, stored in *. simpl. by rewrite <- (rows_other (db_output db)).
  - intros a s e. rewrite delete_output_lookup. case_decide; [done|].
    intros He. rewrite lookup_delete_ne by done. eauto.
  - intros a b ra rb. rewrite !lookup_delete. repeat case_decide; try done. apply do_names0.
  - intros k d [Hd Hk]%map_lookup_filter_Some. destruct (do_inputs0 _ _ Hd) as [<- ?].
    split; [done|]. simpl in Hk. by rewrite lookup_delete_ne.
Qed.
End CreateDelete.

Lemma set_inputs_ok db k d :
  db_ok db -> input_key_of d = k -> is_Some (db_sessions db !! si_SessionID d) ->
  db_ok (set_inputs db (<[k := d]> (db_inputs db))).
Proof.
  intros [] Hk Hs. constructor; try done.
  - intros sid r Hr. destruct (do_sessions0 _ _ Hr). by constructor.
  - intros k' d'. simpl. rewrite lookup_insert. case_decide; [|eauto]. intros [= <-]. subst. done.
Qed.

Lemma PutInputDecision_preserves f db d db' x :
  db_ok db -> PutInputDecision f db d = (db', x) -> db_ok db'.
Proof.
  intros Hok [->|[a Ha]]%commit_cases; [done|]. destruct (arg_ok _); [|done].
  destruct (db_inputs db !! _); [case_decide; by simplify_eq|].
  destruct (db_sessions db !! _) eqn:Hs; [|done]. simplify_eq. apply set_inputs_ok; eauto.
Qed.

Lemma UpdateInputDecision_preserves f db d db' x :
  db_ok db -> UpdateInputDecision f db d = (db', x) -> db_ok db'.
Proof.
  intros Hok [->|[a Ha]]%commit_cases; [done|]. destruct (arg_ok _); [|done].
  destruct (db_inputs db !! _) as [row|] eqn:Hr; [|done]. case_decide; [done|]. cbv zeta in Ha. simplify_eq.
  destruct (do_inputs _ Hok _ _ Hr) as [Hk Hs]. by apply set_inputs_ok.
Qed.

(** ** Sequences of calls *)

Section Steps.
Context `{J : JsonStrings}.

(** One call of a writer, with any fault. *)
Inductive db_step : DB -> DB -> Prop :=
| db_create f now db s db' x : ss_EarliestSequence s = ss_LatestSequence s -> ss_ID s <> "" ->
    CreateSession f now db s = (db', x) -> db_step db db'
| db_update f now db id st s db' x : UpdateSession f now db id st s = (db', x) -> db_step db db'
| db_delete f db id db' x : DeleteSession f db id = (db', x) -> db_step db db'
| db_append f now db sid ch start data max db' x : 0 <= start < two64 -> 0 <= max ->
    AppendOutput f now db sid ch start data max = (db', x) -> db_step db db'
| db_clear f now db sid n db' x : ClearOutput f now db sid n = (db', x) -> db_step db db'
| db_advance f now db sid e n db' x : AdvanceOutput f now db sid e n = (db', x) -> db_step db db'
| db_trim f db sid max db' x : 0 <= max -> TrimOutput f db sid max = (db', x) -> db_step db db'
| db_put f db d db' x : PutInputDecision f db d = (db', x) -> db_step db db'
| db_decide f db d db' x : UpdateInputDecision f db d = (db', x) -> db_step db db'.

Lemma db_step_ok db db' : db_step db db' -> db_ok db -> db_ok db'.
Proof.
  destruct 1; intros Hok.
  - by eapply CreateSession_preserves.
  - by eapply UpdateSession_preserves.
  - by eapply DeleteSession_preserves.
  - by eapply AppendOutput_preserves.
  - by eapply ClearOutput_preserves.
  - by eapply AdvanceOutput_preserves.
  - by eapply TrimOutput_preserves.
  - by eapply PutInputDecision_preserves.
  - by eapply UpdateInputDecision_preserves.
Qed.

Lemma empty_DB_ok : db_ok empty_DB.
Proof. constructor; simpl; intros *; rewrite lookup_empty; done. Qed.

Lemma db_reachable_ok db : rtc db_step empty_DB db -> db_ok db.
Proof.
  intros Hr. pose proof empty_DB_ok as Hok. revert Hok.
  induction Hr as [|x y z Hxy _ IH]; [done|]. intros Hok. apply IH. by eapply db_step_ok.
Qed.

(** The calls on output leave the input decisions alone. *)
Lemma update_bounds_inputs db sid a b now db' :
  update_bounds db sid a b now = Ok db' -> db_inputs db' = db_inputs db.
Proof.
  unfold update_bounds. destruct (db_sessions db !! sid); [|by intros [= <-]].
  cbv zeta. destruct (session_check _); [|done]. by intros [= <-].
Qed.

Lemma AppendOutput_inputs f now db sid ch start data max db' x :
  db_ok db -> 0 <= start < two64 -> 0 <= max ->
  AppendOutput f now db sid ch start data max = (db', x) -> db_inputs db' = db_inputs db.
Proof.
  intros Hok Hs Hm [->|[a Ha]]%AppendOutput_cases; [done|].
  destruct (AppendOutput_ok_inv _ _ _ _ _ _ _ _ _ Hok Hs Ha) as (r & Hr & -> & ? & ? & ? & ?).
  destruct (AppendOutput_spec now db sid r ch data max) as (db1 & E' & Hrun & _ & [] & _); try done; [lia|].
  rewrite Hrun in Ha. by simplify_eq.
Qed.

Lemma reset_inputs db sid n now db' (a : unit) :
  (let? db1 := update_bounds (set_output db (delete_output (db_output db) sid)) sid n n now in
   Ok (db1, tt)) = Ok (db', a) -> db_inputs db' = db_inputs db.
Proof.
  destruct (update_bounds _ _ _ _ _) eqn:Hu; [|done]. intros [= <- <-].
  by rewrite (update_bounds_inputs _ _ _ _ _ _ Hu).
Qed.

Lemma ClearOutput_inputs f now db sid n db' x :
  ClearOutput f now db sid n = (db', x) -> db_inputs db' = db_inputs db.
Proof.
  intros [->|[a Ha]]%commit_cases; [done|]. destruct (select_bounds _ _); [|done].
  case_decide; [done|]. destruct (arg_ok _); [|done]. by eapply reset_inputs.
Qed.

Lemma AdvanceOutput_inputs f now db sid e n db' x :
  AdvanceOutput f now db sid e n = (db', x) -> db_inputs db' = db_inputs db.
Proof.
  unfold AdvanceOutput. case_decide; [by intros [= <- <-]|].
  intros [->|[a Ha]]%commit_cases; [done|]. destruct (select_bounds _ _); [|done].
  case_decide; [done|]. destruct (arg_ok _); [|done]. by eapply reset_inputs.
Qed.

Lemma TrimOutput_inputs f db sid max db' x :
  db_ok db -> 0 <= max -> TrimOutput f db sid max = (db', x) -> db_inputs db' = db_inputs db.
Proof.
  intros Hok Hm Hrun. destruct (decide (max = 0)) as [->|Hne].
  { unfold TrimOutput in Hrun. rewrite decide_True in Hrun by done. by simplify_eq. }
  destruct (db_sessions db !! sid) as [r|] eqn:Hr.
  - destruct (TrimOutput_spec db sid r max) as (db1 & E' & H1 & _ & [] & _); try done; [lia|].
    unfold TrimOutput in *. rewrite decide_False in Hrun, H1 by done.
    apply commit_cases in Hrun as [->|[a Ha]]; [done|]. rewrite Ha in H1. by simplify_eq/=.
  - unfold TrimOutput, select_bounds in Hrun. rewrite Hr, decide_False in Hrun by done.
    apply commit_cases in Hrun as [->|[a Ha]]; done.
Qed.

Lemma db_step_hash db db' k d :
  db_ok db -> db_step db db' -> db_inputs db !! k = Some d ->
  (exists d', db_inputs db' !! k = Some d' /\ si_Hash d' = si_Hash d)
  \/ db_sessions db' !! si_SessionID d = None.
Proof.
  intros Hok Hs Hk.
  assert (Hsame : db_inputs db' = db_inputs db -> exists d', db_inputs db' !! k = Some d' /\ si_Hash d' = si_Hash d)
    by (intros ->; eauto).
  destruct Hs as [? ? ? ? ? ? ? ? H|? ? ? ? ? ? ? ? H|? ? ? ? ? H| |? ? ? ? ? ? ? H|? ? ? ? ? ? ? ? H|
    |? ? d0 ? ? H|? ? d0 ? ? H].
  - left. apply commit_cases in H as [->|[a Ha]]; [auto|].
    destruct (_ && _); [|done]. case_decide; [done|]. simplify_eq. auto.
  - left. apply commit_cases in H as [->|[a Ha]]; [auto|]. destruct (arg_ok _); [|done].
    destruct (db_sessions db !! _); [|done]. case_decide; [done|]. cbv zeta in Ha.
    destruct (session_check _); [|done]. simplify_eq. auto.
  - apply commit_cases in H as [->|[a Ha]]; [eauto|].
    destruct (db_sessions db !! id) eqn:Hr; [|done]. case_decide; [|done]. simplify_eq. simpl.
    destruct (do_inputs _ Hok _ _ Hk) as [<- _]. destruct (decide (si_SessionID d = id)) as [->|Hne].
    + right. apply lookup_delete_eq.
    + left. exists d. split; [|done]. by apply map_lookup_filter_Some.
  - left. eapply Hsame, AppendOutput_inputs; eauto.
  - left. eapply Hsame, ClearOutput_inputs; eauto.
  - left. eapply Hsame, AdvanceOutput_inputs; eauto.
  - left. eapply Hsame, TrimOutput_inputs; eauto.
  - left. apply commit_cases in H as [->|[a Ha]]; [auto|]. destruct (arg_ok _); [|done].
    destruct (db_inputs db !! input_key_of d0) eqn:Hd0; [case_decide; simplify_eq; auto|].
    destruct (db_sessions db !! _); [|done]. simplify_eq. simpl. rewrite lookup_insert_ne; [eauto|congruence].
  - left. apply commit_cases in H as [->|[a Ha]]; [auto|]. destruct (arg_ok _); [|done].
    destruct (db_inputs db !! input_key_of d0) as [row|] eqn:Hd0; [|done]. case_decide; [done|].
    cbv zeta in Ha. simplify_eq. simpl. rewrite lookup_insert. case_decide; [|eauto].
    eexists. split; [done|]. simpl. congruence.
Qed.
End Steps.

(** ** Properties *)

(** [AppendOutput] at the session's end refines the bounded log: it always
    succeeds when the channel is 1 or 2 and the new end fits SQLite's integers, appends
    the bytes, drops the oldest rows until at most [maxRetained] bytes remain, keeps the
    session's bounds equal to the range of its rows, and touches no other session. *)
Theorem store_append_refines_log `{J : JsonStrings} now db sid r g ch data max :
  rtc db_step empty_DB db -> db_sessions db !! sid = Some r -> store_view db sid = Some g ->
  ch = x01 \/ ch = x02 -> data <> [] -> 0 < max -> lg_end g + len data < two63 ->
  exists db' E', AppendOutput FNone now db sid ch (lg_end g) data max
      = (db', Ok (mkOutput ch (lg_end g) (lg_end g + len data) data, E'))
    /\ store_view db' sid = Some (log_append max ch data g)
    /\ E' = log_start (log_append max ch data g)
    /\ OutputBounds FNone db' sid = Ok (E', lg_end g + len data)
    /\ forall a, a <> sid -> store_view db' a = store_view db a.
Proof.
  intros Hreach Hr Hg Hch Hd Hm Hlt. pose proof (db_reachable_ok _ Hreach) as Hok.
  unfold store_view in Hg. rewrite Hr in Hg. injection Hg as <-. simpl in Hlt.
  destruct (AppendOutput_spec now db sid r ch data max) as (db' & E' & Hrun & Hok' & Honly & Hs & Htrim & _ & Hc);
    try done.
  exists db', E'. split_and!; try done; simpl.
  - unfold store_view. rewrite Hs, lookup_insert_eq. simpl. by rewrite Htrim.
  - unfold log_append, log_start. simpl. rewrite <- Htrim, (chunk_total _ _ _ _ Hc). simpl. lia.
  - unfold OutputBounds, reading, select_bounds. rewrite decide_False by done. by rewrite Hs, lookup_insert_eq.
  - intros a Hne. unfold store_view, stored_events, stored. rewrite Hs, lookup_insert_ne by done.
    destruct Honly. by rewrite (rows_other (db_output db') (db_output db)) by auto.
Qed.

(** [Replay] from a position within the session's bounds returns consecutive
    events that start at exactly that position and whose bytes are the stored bytes up
    to the end of the output, or up to [limit] bytes when a limit is given; before the
    bounds it reports the gap with the true bounds, after them a conflict. *)
Theorem store_replay_exact `{J : JsonStrings} db sid r from limit :
  rtc db_step empty_DB db -> db_sessions db !! sid = Some r -> 0 <= from < two64 -> 0 <= limit < two64 ->
  let E := ss_EarliestSequence (sr_session r) in
  let L := ss_LatestSequence (sr_session r) in
  let stop := if decide (0 < limit) then Z.min L (from + limit) else L in
  (E <= from <= L -> exists evs, Replay FNone db sid from limit = Ok (evs, E, L)
     /\ contiguous from (to_event <$> evs) stop
     /\ content (to_event <$> evs) = slice (content (stored_events db sid)) (from - E) (stop - E))
  /\ (from < E -> Replay FNone db sid from limit = Err (GapError from E L))
  /\ (L < from -> Replay FNone db sid from limit = Err ErrConflict).
Proof.
  intros Hreach Hr Hf Hl E L stop. pose proof (db_reachable_ok _ Hreach) as Hok. split_and!.
  - intros Hrange. by apply Replay_spec.
  - intros Hlt. unfold Replay, reading, select_bounds. rewrite decide_False, Hr by done.
    by rewrite decide_True.
  - intros Hlt. unfold Replay, reading, select_bounds. rewrite decide_False, Hr by done.
    destruct Hok as [Hs _ _ _]. destruct (Hs _ _ Hr) as [_ _ Hck _ _ _ _]. apply session_check_spec in Hck.
    rewrite decide_False by (subst E L; lia). by rewrite decide_True.
Qed.


(** An input decision, once recorded, keeps its identity and request hash through
    every later call and failure until its session is deleted: a second
    [PutInputDecision] with that identity never inserts, and reports a conflict unless
    the hash is the same. *)
Theorem store_input_decided_once `{J : JsonStrings} db1 db2 k d new :
  rtc db_step empty_DB db1 -> db_inputs db1 !! k = Some d -> db_step db1 db2 ->
  input_key_of new = k -> si_Generation new < two63 -> is_Some (db_sessions db2 !! si_SessionID d) ->
  (exists d', db_inputs db2 !! k = Some d' /\ si_Hash d' = si_Hash d)
  /\ PutInputDecision FNone db2 new
     = (db2, if decide (si_Hash d = si_Hash new) then Ok false else Err ErrConflict).
Proof.
  intros Hr Hd Hs Hk Hg Hsome. pose proof (db_reachable_ok _ Hr) as Hok.
  destruct (db_step_hash _ _ _ _ Hok Hs Hd) as [(d' & Hd' & Hh)|Hn]; [|rewrite Hn in Hsome; by destruct Hsome].
  split; [eauto|]. unfold PutInputDecision. rewrite arg_ok_true, Hk, Hd', Hh by done. by case_decide.
Qed.

(** *** Witnesses *)

Fixpoint demo_enc (s : string) : list byte :=
  match s with EmptyString => [x00] | String a s' => x01 :: Ascii.byte_of_ascii a :: demo_enc s' end.

Fixpoint demo_dec (cur : string) (l : list byte) : option (list string) :=
  match l with
  | [] => Some []
  | x00 :: rest => (cons cur) <$> demo_dec "" rest
  | _ :: b :: rest => demo_dec (cur +:+ String (Ascii.ascii_of_byte b) "") rest
  | _ => None
  end.

Definition demo_json : JsonStrings := {|
  json_Marshal := fun l => concat (demo_enc <$> l);
  json_Unmarshal := demo_dec ""
|}.

Definition demo_session : Session :=
  mkSession "s1" "work" "/" "/bin/sh" ["-l"] [] 80 24 "running" 1 None "" None 5 5 1 1.
Definition demo_input (hash : byte) : StoredInput := mkStoredInput "s1" "c" "a" 1 "i" [hash] "uncertain" 0 "" 1.
Definition demo_db : DB := fst (@CreateSession demo_json FNone 1 empty_DB demo_session).
Definition demo_db2 : DB := fst (AppendOutput FNone 2 demo_db "s1" x01 5 [x61; x62; x63]%byte 8).
Definition demo_db3 : DB := fst (PutInputDecision FNone demo_db2 (demo_input x01)).
Definition demo_row : session_row :=
  mkRow (mkSession "s1" "work" "/" "/bin/sh" [] [] 80 24 "running" 1 None "" None 5 8 1 2)
    (@json_Marshal demo_json ["-l"]) [].

Lemma demo_db2_reachable : rtc (@db_step demo_json) empty_DB demo_db2.
Proof.
  eapply rtc_l; [by eapply (@db_create demo_json FNone 1 empty_DB demo_session demo_db (Ok tt))|].
  eapply rtc_l; [|apply rtc_refl].
  by eapply (@db_append demo_json FNone 2 demo_db "s1" x01 5 [x61; x62; x63]%byte 8).
Qed.

Lemma store_append_refines_log_witness :
  exists db' E', AppendOutput FNone 3 demo_db2 "s1" x02 8 [x64; x65]%byte 4
    = (db', Ok (mkOutput x02 8 10 [x64; x65]%byte, E')) /\ E' = 8.
Proof.
  destruct (@store_append_refines_log demo_json 3 demo_db2 "s1" demo_row
              (mkLog 8 [(x01, [x61; x62; x63]%byte)]) x02 [x64; x65]%byte 4)
    as (db' & E' & H1 & _ & H3 & _);
    [exact demo_db2_reachable|reflexivity|reflexivity|by right|done|lia|done|].
  exists db', E'. split; [exact H1|exact H3].
Defined.

Lemma store_replay_exact_witness :
  exists evs, Replay FNone demo_db2 "s1" 6 1 = Ok (evs, 5, 8)
    /\ content (to_event <$> evs) = [x62]%byte.
Proof.
  destruct (@store_replay_exact demo_json demo_db2 "s1" demo_row 6 1) as [H1 _];
    [exact demo_db2_reachable|reflexivity|done|done|].
  destruct H1 as (evs & E & _ & Hc); [simpl; lia|]. exists evs. split; [exact E|exact Hc].
Defined.


Lemma store_input_decided_once_witness :
  PutInputDecision FNone demo_db3 (demo_input x02) = (demo_db3, Err ErrConflict).
Proof.
  destruct (@store_input_decided_once demo_json demo_db3 demo_db3 ("s1", "c", "a", 1, "i") (demo_input x01) (demo_input x02))
    as [_ H]; [|reflexivity| |reflexivity|done|by eexists|exact H].
  - eapply rtc_r; [exact demo_db2_reachable|].
    by eapply (@db_put demo_json FNone demo_db2 (demo_input x01) demo_db3 (Ok true)).
  - by eapply (@db_put demo_json FNone demo_db3 (demo_input x01) demo_db3 (Ok false)).
Defined.
