(* ===== verification/Manager.v ===== *)
(** * The session manager: state and operations ([internal/session/manager.go])

    A [Manager] owns the sessions, their histories, fan-outs and input journals, the
    buffer heap they share, and the durable store.  Each method is a function from the
    manager (and the outcomes of what it calls outside: the PTY, the clock, the failures
    of the database) to the manager afterwards, its result, and the list of PTY
    [effect]s.  Methods that hold a session's [opMu] are one step.  The background
    goroutines are steps of their own: [capture_read] for one chunk of output,
    [capture_end] for the end of a process, [flush] for a run of the persistence
    goroutine, [finishClosing].  The theorems are in ManagerOutput.v and
    ManagerSessions.v. *)

From S2P Require Import Prelude Config Lifecycle Buffers History Input Fanout Store.

(** ** PTY processes ([internal/pty]) *)

Record Dimensions := mkDims { dm_Columns : Z; dm_Rows : Z }.

#[global] Instance Dimensions_eq_dec : EqDecision Dimensions.
Proof. solve_decision. Defined.

Record Command := mkCommand {
  cm_Path : string;
  cm_Args : list string;
  cm_Env : list string;
  cm_CWD : string;
  cm_Dimensions : Dimensions
}.

Record ExitResult := mkExit { ex_Code : Z; ex_Signal : string; ex_ExitedAt : time }.

(** A started process, by identity. *)
Abbreviation process := positive (only parsing).

(** What a call does to a PTY. *)
Inductive effect :=
| EWrite (p : process) (data : list byte)
| EResize (p : process) (d : Dimensions)
| ESignal (p : process) (signal : string)
| ETerminate (p : process)
| ECloseIO (p : process).

(** What [Terminate] reports: the exit result, with or without an error, or that the
    context ended first. *)
Inductive term_outcome := TermDone (result : ExitResult) (failed : bool) | TermTimeout.

(** ** Data *)

Record liveProcess := mkLive { lp_process : process; lp_generation : Z }.

#[global] Instance liveProcess_eq_dec : EqDecision liveProcess.
Proof. solve_decision. Defined.

Record managedSession := mkManaged {
  ms_id : string;
  ms_name : string;
  ms_command : Command;
  ms_lifecycle : Lifecycle;
  ms_history : History;
  ms_fanout : Fanout;
  ms_inputs : option InputJournal;         (* nil until the first start *)
  ms_process : option process;
  ms_liveProcess : option liveProcess;
  ms_exit : option ExitResult;
  ms_resizeID : string;
  ms_resizeTime : time;
  ms_persistNotify : option bool           (* the channel, and whether it holds a token *)
}.

Record ManagerConfig := mkManagerConfig {
  mc_HistoryBytes : Z;
  mc_AttachmentBytes : Z;
  mc_TerminationTimeout : Z;
  mc_TerminationGrace : Z;
  mc_MaxSessions : Z;
  mc_MaxAttachments : Z;
  mc_MaxInputDecisions : Z;
  mc_RecoveryExitSignal : string
}.

Record Manager := mkManager {
  mg_config : ManagerConfig;
  mg_sessions : gmap string managedSession;
  mg_names : gmap string string;
  mg_stopping : bool;
  mg_store : option DB;
  mg_heap : heap
}.

Record Snapshot := mkSnapshot {
  sn_ID : string;
  sn_Name : string;
  sn_CWD : string;
  sn_Dimensions : Dimensions;
  sn_State : State;
  sn_Generation : Z;
  sn_EarliestSequence : Z;
  sn_LatestSequence : Z;
  sn_Exit : option ExitResult
}.

Record AttachResult := mkAttachResult { at_Snapshot : Snapshot; at_Replay : ReplayResult }.

Inductive manager_error :=
| ErrSessionExists | ErrSessionUnknown | ErrSessionRunning | ErrInvalidSession
| ErrManagerStopped | ErrResourceLimit | ErrShortWrite | ErrStaleGeneration
| EContext                              (* the context ended *)
| ERandom                               (* the random source failed *)
| ELaunch                               (* the PTY did not start *)
| EProcess                              (* an operation of the PTY failed *)
| ELifecycle (e : lifecycle_error)
| EHistory (e : history_error)
| EFanout (e : fanout_error)
| EInput (e : input_error)
| EStore (e : store_error)
| ENotPersisted (d : InputDecision) (e : store_error)   (* the decision is returned too *)
| ETerminateFailed (s : Snapshot).      (* the snapshot is returned too *)

(** Lifting the components' results. *)
Definition wrap {E A} (f : E -> manager_error) (r : result E A) : result manager_error A :=
  match r with Ok a => Ok a | Err e => Err (f e) end.

(** *** Field updates *)

Definition set_lifecycle (s : managedSession) (l : Lifecycle) : managedSession :=
  mkManaged (ms_id s) (ms_name s) (ms_command s) l (ms_history s) (ms_fanout s) (ms_inputs s)
    (ms_process s) (ms_liveProcess s) (ms_exit s) (ms_resizeID s) (ms_resizeTime s) (ms_persistNotify s).
Definition set_history (s : managedSession) (h : History) : managedSession :=
  mkManaged (ms_id s) (ms_name s) (ms_command s) (ms_lifecycle s) h (ms_fanout s) (ms_inputs s)
    (ms_process s) (ms_liveProcess s) (ms_exit s) (ms_resizeID s) (ms_resizeTime s) (ms_persistNotify s).
Definition set_fanout (s : managedSession) (f : Fanout) : managedSession :=
  mkManaged (ms_id s) (ms_name s) (ms_command s) (ms_lifecycle s) (ms_history s) f (ms_inputs s)
    (ms_process s) (ms_liveProcess s) (ms_exit s) (ms_resizeID s) (ms_resizeTime s) (ms_persistNotify s).
Definition set_journal (s : managedSession) (j : option InputJournal) : managedSession :=
  mkManaged (ms_id s) (ms_name s) (ms_command s) (ms_lifecycle s) (ms_history s) (ms_fanout s) j
    (ms_process s) (ms_liveProcess s) (ms_exit s) (ms_resizeID s) (ms_resizeTime s) (ms_persistNotify s).
Definition set_process (s : managedSession) (p : option process) (live : option liveProcess)
    (exit : option ExitResult) : managedSession :=
  mkManaged (ms_id s) (ms_name s) (ms_command s) (ms_lifecycle s) (ms_history s) (ms_fanout s)
    (ms_inputs s) p live exit (ms_resizeID s) (ms_resizeTime s) (ms_persistNotify s).
Definition set_resize (s : managedSession) (id : string) (at_ : time) (d : Dimensions) : managedSession :=
  let c := ms_command s in
  mkManaged (ms_id s) (ms_name s) (mkCommand (cm_Path c) (cm_Args c) (cm_Env c) (cm_CWD c) d)
    (ms_lifecycle s) (ms_history s) (ms_fanout s) (ms_inputs s) (ms_process s) (ms_liveProcess s)
    (ms_exit s) id at_ (ms_persistNotify s).
Definition set_notify (s : managedSession) (n : option bool) : managedSession :=
  mkManaged (ms_id s) (ms_name s) (ms_command s) (ms_lifecycle s) (ms_history s) (ms_fanout s)
    (ms_inputs s) (ms_process s) (ms_liveProcess s) (ms_exit s) (ms_resizeID s) (ms_resizeTime s) n.

Definition put_session (m : Manager) (s : managedSession) : Manager :=
  mkManager (mg_config m) (<[ms_id s := s]> (mg_sessions m)) (mg_names m) (mg_stopping m)
    (mg_store m) (mg_heap m).
Definition put_store (m : Manager) (db : option DB) : Manager :=
  mkManager (mg_config m) (mg_sessions m) (mg_names m) (mg_stopping m) db (mg_heap m).
Definition put_heap (m : Manager) (hp : heap) : Manager :=
  mkManager (mg_config m) (mg_sessions m) (mg_names m) (mg_stopping m) (mg_store m) hp.

(** The session's lifecycle after a [Transition] whose error is ignored. *)
Definition transition_or_stay (s : managedSession) (to : State) : managedSession :=
  match Transition (ms_lifecycle s) to with Ok l => set_lifecycle s l | Err _ => s end.

(** ** Helpers *)

Definition initialReplayBytes : Z := Z.shiftl 64 10.

Definition valid_char (a : ascii) : bool :=
  let n := Z.of_nat (nat_of_ascii a) in
  bool_decide (97 <= n <= 122) || bool_decide (48 <= n <= 57) || bool_decide (n = 45) || bool_decide (n = 95).

(** Every byte of a multi-byte rune is outside the accepted set, as the rune is. *)
Definition validSessionName (name : string) : bool :=
  let n := Z.of_nat (String.length name) in
  if decide (n < 1 \/ 64 < n) then false
  else forallb valid_char (String.list_ascii_of_string name)
       && negb (bool_decide (String.list_ascii_of_string name !! 0%nat = Some "-"%char)).

(** [io.ReadFull] of 16 bytes from the random source, given the bytes it will yield. *)
Definition randomID (random : list byte) : result manager_error (string * list byte) :=
  if decide (len random < 16) then Err ERandom
  else Ok ("ses_" +:+ hex_EncodeToString (take 16 random), drop 16 random).

Definition get (m : Manager) (sessionID : string) : result manager_error managedSession :=
  match mg_sessions m !! sessionID with None => Err ErrSessionUnknown | Some s => Ok s end.

Definition snapshotLocked (s : managedSession) : Snapshot :=
  mkSnapshot (ms_id s) (ms_name s) (cm_CWD (ms_command s)) (cm_Dimensions (ms_command s))
    (lc_state (ms_lifecycle s)) (lc_generation (ms_lifecycle s))
    (h_earliest (ms_history s)) (h_latest (ms_history s)) (ms_exit s).

Definition storeRecordLocked (s : managedSession) : Session :=
  let snapshot := snapshotLocked s in
  mkSession (sn_ID snapshot) (sn_Name snapshot) (sn_CWD snapshot) (cm_Path (ms_command s))
    (cm_Args (ms_command s)) (cm_Env (ms_command s)) (dm_Columns (sn_Dimensions snapshot))
    (dm_Rows (sn_Dimensions snapshot)) (State_string (sn_State snapshot)) (sn_Generation snapshot)
    (ex_Code <$> sn_Exit snapshot) (default "" (ex_Signal <$> sn_Exit snapshot))
    (ex_ExitedAt <$> sn_Exit snapshot) (sn_EarliestSequence snapshot) (sn_LatestSequence snapshot)
    zero_time zero_time.

(** [fn now] is a store call's fault and clock. *)
Definition persist (fn : fault * time) (db : option DB) (s : managedSession) (expected : State)
    : option DB * result store_error unit :=
  match db with
  | None => (None, Ok tt)
  | Some d =>
      let '(d', r) := UpdateSession fn.1 fn.2 d (ms_id s) (State_string expected) (storeRecordLocked s) in
      (Some d', r)
  end.

Definition discardFailedCreate (fn : fault * time) (f2 : fault) (db : option DB) (s : managedSession)
    (expected : State) : option DB :=
  match db with
  | None => None
  | Some d =>
      let '(d1, _) := UpdateSession fn.1 fn.2 d (ms_id s) (State_string expected) (storeRecordLocked s) in
      let '(d2, _) := DeleteSession f2 d1 (ms_id s) in
      Some d2
  end.

Definition startOutputPersistence (db : option DB) (s : managedSession) : managedSession :=
  match db with None => s | Some _ => set_notify s (Some false) end.

Definition queueOutputPersistence (s : managedSession) : managedSession :=
  match ms_persistNotify s with None => s | Some _ => set_notify s (Some true) end.

Definition attachmentReplayLimit (attachmentBytes : Z) : Z :=
  let limit := attachmentBytes / 2 in
  let limit := if decide (limit = 0) then 1 else limit in
  if decide (initialReplayBytes < limit) then initialReplayBytes else limit.

Definition cloneReplay (r : ReplayResult) : ReplayResult :=
  mkReplay (rp_FromSequence r) (rp_ToSequence r) (rp_EarliestSequence r) (rp_LatestSequence r)
    ((fun e => mkEvent (ev_Channel e) (ev_StartSequence e) (ev_EndSequence e) (ev_Data e) None)
       <$> rp_Events r).

(** ** Configuration *)

Definition or_default (v d : Z) : Z := if decide (v = 0) then d else v.

(** The defaults and checks of [NewManager]; durations are nanoseconds. *)
Definition manager_config (launch_nil : bool) (c : ManagerConfig) : result manager_error ManagerConfig :=
  if launch_nil then Err ErrInvalidSession
  else
    let c' := mkManagerConfig
      (or_default (mc_HistoryBytes c) (HistoryBytes DefaultResources))
      (or_default (mc_AttachmentBytes c) (Z.shiftl 1 20))
      (or_default (mc_TerminationTimeout c) (10 * second))
      (or_default (mc_TerminationGrace c) (2 * second))
      (or_default (mc_MaxSessions c) (MaxSessions DefaultResources))
      (or_default (mc_MaxAttachments c) (MaxAttachments DefaultResources))
      (or_default (mc_MaxInputDecisions c) (MaxInputDecisions DefaultResources))
      (if decide (mc_RecoveryExitSignal c = "") then "helper_restart" else mc_RecoveryExitSignal c) in
    if decide (mc_HistoryBytes c' < 1 \/ mc_AttachmentBytes c' < 1 \/ mc_TerminationTimeout c' <= 0
               \/ mc_TerminationGrace c' < 0 \/ mc_TerminationTimeout c' < mc_TerminationGrace c'
               \/ mc_MaxSessions c' < 1 \/ mc_MaxAttachments c' < 1 \/ mc_MaxInputDecisions c' < 1
               \/ (mc_RecoveryExitSignal c' <> "helper_restart"
                   /\ mc_RecoveryExitSignal c' <> "machine_reboot"))
    then Err ErrInvalidSession
    else Ok c'.

(** ** Operations *)

Section Operations.
Context (sha256 : list byte -> digest) `{J : JsonStrings}.

Record CreateRequest := mkCreate { cr_ID : string; cr_Name : string; cr_Command : Command }.

(** The loop that draws an identifier when the request has none. *)
Fixpoint draw_id (attempts : nat) (m : Manager) (random : list byte) : result manager_error string :=
  match attempts with
  | O => Err ErrSessionExists
  | S n =>
      let? r := randomID random in
      let '(candidate, rest) := r in
      match mg_sessions m !! candidate with
      | None => Ok candidate
      | Some _ => draw_id n m rest
      end
  end.

(** What [Create] meets outside: a finished context, the random bytes, the faults of its
    four store calls, and the process the launcher starts ([None]: it fails). *)
Record create_world := mkCreateWorld {
  cw_ctx : bool;
  cw_random : list byte;
  cw_create : fault * time;
  cw_launch : option process;
  cw_persist : fault * time;
  cw_discard : fault * time;
  cw_delete : fault
}.

Definition Create (w : create_world) (m : Manager) (request : CreateRequest)
    : Manager * result manager_error Snapshot * list effect :=
  if negb (validSessionName (cr_Name request)) then (m, Err ErrInvalidSession, [])
  else if cw_ctx w then (m, Err EContext, [])
  else if mg_stopping m then (m, Err ErrManagerStopped, [])
  else if decide (mc_MaxSessions (mg_config m) <= Z.of_nat (size (mg_sessions m)))
  then (m, Err ErrResourceLimit, [])
  else match mg_names m !! cr_Name request with Some _ => (m, Err ErrSessionExists, []) | None =>
  match (if decide (cr_ID request <> "")
         then match mg_sessions m !! cr_ID request with
              | Some _ => Err ErrSessionExists | None => Ok (cr_ID request) end
         else draw_id 8 m (cw_random w)) with
  | Err e => (m, Err e, [])
  | Ok id =>
  match New (mc_HistoryBytes (mg_config m)) with
  | Err e => (m, Err (EHistory e), [])
  | Ok retained =>
  let session := mkManaged id (cr_Name request) (cr_Command request) NewLifecycle retained NewFanout
                   None None None None "" zero_time None in
  match (match mg_store m with
         | None => (None, Ok tt)
         | Some d =>
             let '(d', r) := CreateSession (cw_create w).1 (cw_create w).2 d
               (mkSession id (cr_Name request) (cm_CWD (cr_Command request)) (cm_Path (cr_Command request))
                  (cm_Args (cr_Command request)) (cm_Env (cr_Command request))
                  (dm_Columns (cm_Dimensions (cr_Command request)))
                  (dm_Rows (cm_Dimensions (cr_Command request)))
                  (State_string Creating) 0 None "" None 0 0 zero_time zero_time) in
             (Some d', r)
         end) with
  | (db1, Err e) => (put_store m db1, Err (EStore e), [])
  | (db1, Ok _) =>
  match cw_launch w with
  | None =>
      let session := transition_or_stay session Closed in
      (put_store m (discardFailedCreate (cw_discard w) (cw_delete w) db1 session Creating),
       Err ELaunch, [])
  | Some p =>
  match Transition (ms_lifecycle session) Running with
  | Err e => (put_store m db1, Err (ELifecycle e), [ECloseIO p])
  | Ok running =>
  let session := set_lifecycle session running in
  match persist (cw_persist w) db1 session Creating with
  | (db2, Err e) =>
      (put_store m (discardFailedCreate (cw_discard w) (cw_delete w) db2 session Creating),
       Err (EStore e), [ETerminate p])
  | (db2, Ok _) =>
      let generation := lc_generation running in
      let session := set_journal session
        (Some (NewBoundedInputJournal generation (mc_MaxInputDecisions (mg_config m)))) in
      let session := set_process session (Some p) (Some (mkLive p generation)) None in
      let session := startOutputPersistence (mg_store m) session in
      (mkManager (mg_config m) (<[id := session]> (mg_sessions m))
         (<[cr_Name request := id]> (mg_names m)) (mg_stopping m) db2 (mg_heap m),
       Ok (snapshotLocked session), [])
  end end end end end end end.

(** *** Attachments *)

(** The loop that queues the replayed events; [None] when all were queued. *)
Fixpoint enqueue_all (hp : heap) (f : Fanout) (attachmentID : string) (events : list Event)
    : heap * Fanout * option fanout_error :=
  match events with
  | [] => (hp, f, None)
  | event :: rest =>
      match EnqueueOwned hp f attachmentID event with
      | (hp1, f1, Err e) => (hp1, f1, Some e)
      | (hp1, f1, Ok (Some _)) => (hp1, f1, Some ErrAttachmentEvicted)
      | (hp1, f1, Ok None) => enqueue_all hp1 f1 attachmentID rest
      end
  end.

(** The replay that fits the attachment's queue: from [fromSequence], or the newest tail. *)
Definition attach_replay (hp : heap) (h : History) (replayLimit fromSequence : Z)
    : heap * result history_error ReplayResult :=
  match ReplayOwned hp h fromSequence replayLimit with
  | (hp1, Err e) => (hp1, Err e)
  | (hp1, Ok replay) =>
      if decide (rp_ToSequence replay < rp_LatestSequence replay) then
        let boundary := u64_sub (rp_LatestSequence replay) replayLimit in
        let boundary := if decide (boundary < rp_EarliestSequence replay)
                        then rp_EarliestSequence replay else boundary in
        ReplayOwned (Replay_Release hp1 replay) h boundary replayLimit
      else (hp1, Ok replay)
  end.

Definition attachLocked (c : ManagerConfig) (hp : heap) (s : managedSession) (attachmentID : string)
    (fromSequence : Z) : heap * managedSession * result manager_error AttachResult :=
  if decide (mc_MaxAttachments c <= Count (ms_fanout s)) then (hp, s, Err ErrResourceLimit)
  else match attach_replay hp (ms_history s) (attachmentReplayLimit (mc_AttachmentBytes c)) fromSequence with
  | (hp1, Err e) => (hp1, s, Err (EHistory e))
  | (hp1, Ok replay) =>
      match Fanout.Attach (ms_fanout s) attachmentID (mc_AttachmentBytes c) with
      | Err e => (Replay_Release hp1 replay, s, Err (EFanout e))
      | Ok f1 =>
          match enqueue_all hp1 f1 attachmentID (rp_Events replay) with
          | (hp2, f2, Some e) =>
              let '(hp3, f3, _) := Fanout.Detach (Replay_Release hp2 replay) f2 attachmentID in
              (hp3, set_fanout s f3, Err (EFanout e))
          | (hp2, f2, None) =>
              let s' := set_fanout s f2 in
              (Replay_Release hp2 replay, s',
               Ok (mkAttachResult (snapshotLocked s') (cloneReplay replay)))
          end
      end
  end.

Definition Attach (m : Manager) (sessionID attachmentID : string) (fromSequence : Z)
    : Manager * result manager_error AttachResult :=
  match get m sessionID with
  | Err e => (m, Err e)
  | Ok s =>
      let '(hp, s', r) := attachLocked (mg_config m) (mg_heap m) s attachmentID fromSequence in
      (put_heap (put_session m s') hp, r)
  end.

Definition AttachLive (m : Manager) (sessionID attachmentID : string)
    : Manager * result manager_error AttachResult :=
  match get m sessionID with
  | Err e => (m, Err e)
  | Ok s =>
      let '(_, latest, _) := Bounds (ms_history s) in
      let '(hp, s', r) := attachLocked (mg_config m) (mg_heap m) s attachmentID latest in
      (put_heap (put_session m s') hp, r)
  end.

Definition Detach (m : Manager) (sessionID attachmentID : string) : Manager * result manager_error unit :=
  match get m sessionID with
  | Err e => (m, Err e)
  | Ok s =>
      let '(hp, f, r) := Fanout.Detach (mg_heap m) (ms_fanout s) attachmentID in
      (put_heap (put_session m (set_fanout s f)) hp,
       match r with Ok _ => Ok tt | Err e => Err (EFanout e) end)
  end.

Definition Next (m : Manager) (sessionID attachmentID : string) : Manager * result manager_error (option Event) :=
  match get m sessionID with
  | Err e => (m, Err e)
  | Ok s =>
      let '(hp, f, r) := Fanout.Next (mg_heap m) (ms_fanout s) attachmentID in
      (put_heap (put_session m (set_fanout s f)) hp, wrap EFanout r)
  end.

(** [None]: the reader waits. *)
Definition WaitNext (m : Manager) (sessionID attachmentID : string)
    : Manager * option (result manager_error Event) :=
  match get m sessionID with
  | Err e => (m, Some (Err e))
  | Ok s =>
      let '(hp, f, r) := WaitNextOwned (mg_heap m) (ms_fanout s) attachmentID in
      (put_heap (put_session m (set_fanout s f)) hp,
       match r with WaitBlocked => None | WaitReady x => Some (wrap EFanout x) end)
  end.

Definition attached (f : Fanout) (attachmentID : string) : bool :=
  match Status f attachmentID with
  | Ok (state, _) => bool_decide (state = Attached)
  | Err _ => false
  end.

Definition Acknowledge (m : Manager) (sessionID attachmentID : string) (nextSequence : Z)
    : Manager * result manager_error unit :=
  match get m sessionID with
  | Err e => (m, Err e)
  | Ok s =>
      if attached (ms_fanout s) attachmentID then
        match History.Acknowledge (ms_history s) attachmentID nextSequence with
        | Err e => (m, Err (EHistory e))
        | Ok h => (put_session m (set_history s h), Ok tt)
        end
      else (m, Err (EInput ErrInvalidInput))
  end.

Definition AttachmentStatus (m : Manager) (sessionID attachmentID : string)
    : result manager_error (AttachmentState * Z) :=
  let? s := get m sessionID in wrap EFanout (Status (ms_fanout s) attachmentID).

(** *** Input *)

Definition InputStatus_string (s : InputStatus) : string :=
  match s with
  | InputAccepted => "accepted" | InputDuplicate => "duplicate"
  | InputRejected => "rejected" | InputUncertain => "uncertain"
  end.

Definition InputStatus_of_string (s : string) : option InputStatus :=
  if decide (s = "accepted") then Some InputAccepted
  else if decide (s = "duplicate") then Some InputDuplicate
  else if decide (s = "rejected") then Some InputRejected
  else if decide (s = "uncertain") then Some InputUncertain
  else None.

Definition stored_input (sessionID : string) (key : InputKey) (hash : digest) (status : InputStatus)
    (n : Z) (code : string) (now : time) : StoredInput :=
  mkStoredInput sessionID (ik_ClientID key) (ik_AttachmentID key) (ik_Generation key) (ik_InputID key)
    hash (InputStatus_string status) n code now.

(** [w] is what the PTY answers; [put] and [update] the faults of the two store calls. *)
Definition Write (put update : fault) (now : time) (w : WriteOutcome) (m : Manager)
    (sessionID : string) (key : InputKey) (data : list byte)
    : Manager * result manager_error InputDecision * list effect :=
  match get m sessionID with
  | Err e => (m, Err e, [])
  | Ok s =>
      match ms_process s, ms_inputs s with
      | Some p, Some j =>
          if decide (lc_state (ms_lifecycle s) <> Running
                     \/ ik_Generation key <> lc_generation (ms_lifecycle s))
          then (m, Err (EInput (StaleGenerationError (lc_generation (ms_lifecycle s)))), [])
          else if negb (attached (ms_fanout s) (ik_AttachmentID key))
          then (m, Err (EInput ErrInvalidInput), [])
          else match Query j key with
          | Ok _ =>
              let '(j', r, ws) := Input.Write sha256 j key data (Some w) in
              (put_session m (set_journal s (Some j')), wrap EInput r, EWrite p <$> ws)
          | Err _ =>
              match Admit j key with
              | Err e => (m, Err (EInput e), [])
              | Ok _ =>
                  let hash := sha256 data in
                  let '(db1, inserted) :=
                    match mg_store m with
                    | None => (None, Ok true)
                    | Some d =>
                        let '(d', r) := PutInputDecision put d
                          (stored_input sessionID key hash InputUncertain 0 "" now) in (Some d', r)
                    end in
                  match inserted with
                  | Err e => (put_store m db1, Err (EStore e), [])
                  | Ok false => (put_store m db1, Err (EInput ErrInputConflict), [])
                  | Ok true =>
                      let '(j', r, ws) := Input.Write sha256 j key data (Some w) in
                      let m1 := put_session (put_store m db1) (set_journal s (Some j')) in
                      match r with
                      | Err e => (m1, Err (EInput e), EWrite p <$> ws)
                      | Ok decision =>
                          match db1 with
                          | None => (m1, Ok decision, EWrite p <$> ws)
                          | Some d1 =>
                              let '(d2, r2) := UpdateInputDecision update d1
                                (stored_input sessionID key hash (id_Status decision)
                                   (id_BytesWritten decision) (id_WriteError decision) now) in
                              (put_store m1 (Some d2),
                               match r2 with
                               | Ok _ => Ok decision
                               | Err e => Err (ENotPersisted
                                   (mkDecision InputUncertain (id_BytesWritten decision)
                                      "decision_persist_failed" (id_hash decision)) e)
                               end,
                               EWrite p <$> ws)
                          end
                      end
                  end
              end
          end
      | _, _ => (m, Err (EInput (StaleGenerationError (lc_generation (ms_lifecycle s)))), [])
      end
  end.

Definition WriteStream (w : WriteOutcome) (m : Manager) (sessionID attachmentID : string)
    (generation : Z) (data : list byte) : result manager_error unit * list effect :=
  if decide (data = [] \/ Z.shiftl 256 10 < len data) then (Err (EInput ErrInvalidInput), [])
  else match get m sessionID with
  | Err e => (Err e, [])
  | Ok s =>
      match ms_liveProcess s with
      | None => (Err (EInput (StaleGenerationError (lc_generation (ms_lifecycle s)))), [])
      | Some live =>
          if decide (generation <> lp_generation live)
          then (Err (EInput (StaleGenerationError (lc_generation (ms_lifecycle s)))), [])
          else if negb (IsAttached (ms_fanout s) attachmentID)
          then (Err (EInput ErrInvalidInput), [])
          else (if wo_err w then Err EProcess
                else if decide (wo_n w <> len data) then Err ErrShortWrite else Ok tt,
                [EWrite (lp_process live) data])
      end
  end.

Definition QueryInput (m : Manager) (sessionID : string) (key : InputKey)
    : result manager_error InputDecision :=
  let? s := get m sessionID in
  match ms_inputs s with
  | None => Err (EInput ErrInputUnknown)
  | Some j => wrap EInput (Query j key)
  end.

(** [failed]: the PTY refuses the new size. *)
Definition Resize (fn : fault * time) (failed : bool) (m : Manager) (sessionID attachmentID : string)
    (dimensions : Dimensions) (activeAt : time) : Manager * result manager_error unit * list effect :=
  match get m sessionID with
  | Err e => (m, Err e, [])
  | Ok s =>
      match ms_process s with
      | None => (m, Err (EInput ErrInvalidInput), [])
      | Some p =>
          if negb (attached (ms_fanout s) attachmentID) then (m, Err (EInput ErrInvalidInput), [])
          else if decide (activeAt < ms_resizeTime s
                          \/ activeAt = ms_resizeTime s /\ string_leb (ms_resizeID s) attachmentID = false)
          then (m, Ok tt, [])
          else if failed then (m, Err EProcess, [EResize p dimensions])
          else
            let s' := set_resize s attachmentID activeAt dimensions in
            let '(db, r) := persist fn (mg_store m) s' (lc_state (ms_lifecycle s')) in
            (put_store (put_session m s') db, wrap EStore r, [EResize p dimensions])
      end
  end.

Definition Signal (failed : bool) (m : Manager) (sessionID : string) (generation : Z) (signal : string)
    : result manager_error unit * list effect :=
  match get m sessionID with
  | Err e => (Err e, [])
  | Ok s =>
      match ms_process s with
      | None => (Err ErrStaleGeneration, [])
      | Some p =>
          if decide (lc_state (ms_lifecycle s) <> Running \/ generation <> lc_generation (ms_lifecycle s))
          then (Err ErrStaleGeneration, [])
          else (if failed then Err EProcess else Ok tt, [ESignal p signal])
      end
  end.

Definition Clear (f : fault) (now : time) (m : Manager) (sessionID : string)
    : Manager * result manager_error Z :=
  match get m sessionID with
  | Err e => (m, Err e)
  | Ok s =>
      let '(_, latest, _) := Bounds (ms_history s) in
      let '(db, r) :=
        match mg_store m with
        | None => (None, Ok tt)
        | Some d => let '(d', r) := ClearOutput f now d (ms_id s) latest in (Some d', r)
        end in
      match r with
      | Err e => (put_store m db, Err (EStore e))
      | Ok _ =>
          let '(hp, h, next) := History.Clear (mg_heap m) (ms_history s) in
          (put_heap (put_store (put_session m (set_history s h)) db) hp, Ok next)
      end
  end.

(** *** Ending, restarting and deleting *)

Record close_world := mkCloseWorld {
  kw_ctx : bool;                     (* the context has ended already *)
  kw_persist : fault * time;         (* the first persist *)
  kw_forced : ExitResult;            (* the result of the forced termination *)
  kw_terminate : term_outcome;
  kw_final : fault * time            (* the last persist *)
}.

Definition Close (w : close_world) (m : Manager) (sessionID : string)
    : Manager * result manager_error Snapshot * list effect :=
  if kw_ctx w then (m, Err EContext, [])
  else match get m sessionID with
  | Err e => (m, Err e, [])
  | Ok s =>
      let state := lc_state (ms_lifecycle s) in
      if decide (state = Closed) then (m, Ok (snapshotLocked s), [])
      else if decide (state = Exited) then
        match Transition (ms_lifecycle s) Closing with
        | Err e => (m, Err (ELifecycle e), [])
        | Ok l1 =>
            match Transition l1 Closed with
            | Err e => (put_session m (set_lifecycle s l1), Err (ELifecycle e), [])
            | Ok l2 =>
                let s' := set_lifecycle s l2 in
                let '(db, r) := persist (kw_persist w) (mg_store m) s' Exited in
                (put_store (put_session m s') db,
                 match r with Ok _ => Ok (snapshotLocked s') | Err e => Err (EStore e) end, [])
            end
        end
      else match ms_process s with
      | None => (m, Err ErrSessionRunning, [])
      | Some p =>
          if decide (state <> Running /\ state <> Closing) then (m, Err ErrSessionRunning, [])
          else
            (* the first part, for a running session *)
            let '(m1, s1, early) :=
              if decide (state = Running) then
                let s0 := set_process s (Some p) None (ms_exit s) in
                match Transition (ms_lifecycle s0) Closing with
                | Err e => (put_session m s0, s0, Some (Err (ELifecycle e), []))
                | Ok l =>
                    let s1 := set_lifecycle s0 l in
                    let '(db, r) := persist (kw_persist w) (mg_store m) s1 Running in
                    match r with
                    | Ok _ => (put_store (put_session m s1) db, s1, None)
                    | Err e =>
                        let s2 := transition_or_stay (set_process s1 None None (Some (kw_forced w))) Closed in
                        (put_store (put_session m s2) db, s2, Some (Err (EStore e), [ETerminate p]))
                    end
                end
              else (m, s, None) in
            match early with
            | Some (r, eff) => (m1, r, eff)
            | None =>
                match kw_terminate w with
                | TermTimeout => (m1, Err (ETerminateFailed (snapshotLocked s1)), [ETerminate p])
                | TermDone result failed =>
                    let s2 := set_process s1 None None (Some result) in
                    match Transition (ms_lifecycle s2) Closed with
                    | Err e => (put_session m1 s2, Err (ELifecycle e), [ETerminate p])
                    | Ok l =>
                        let s3 := set_lifecycle s2 l in
                        let '(db, r) := persist (kw_final w) (mg_store m1) s3 Closing in
                        (put_store (put_session m1 s3) db,
                         match r with
                         | Err e => Err (EStore e)
                         | Ok _ => if failed then Err (ETerminateFailed (snapshotLocked s3))
                                   else Ok (snapshotLocked s3)
                         end,
                         [ETerminate p])
                    end
                end
            end
      end
  end.

(** The goroutine that ends a session whose termination timed out in [Close]. *)
Definition finishClosing (fn : fault * time) (outcome : option ExitResult) (m : Manager)
    (sessionID : string) (p : process) : Manager :=
  match mg_sessions m !! sessionID with
  | None => m
  | Some s =>
      if decide (lc_state (ms_lifecycle s) <> Closing \/ ms_process s <> Some p) then m
      else match outcome with
      | None => m
      | Some result =>
          let s1 := set_process s None (ms_liveProcess s) (Some result) in
          match Transition (ms_lifecycle s1) Closed with
          | Err _ => put_session m s1
          | Ok l =>
              let s2 := set_lifecycle s1 l in
              let '(db, _) := persist fn (mg_store m) s2 Closing in
              put_store (put_session m s2) db
          end
      end
  end.

Record restart_world := mkRestartWorld {
  rw_persist : fault * time;         (* "restarting" *)
  rw_launch : option process;
  rw_failed : fault * time;          (* "closed" after a failed launch *)
  rw_running : fault * time          (* "running" *)
}.

Definition Restart (w : restart_world) (m : Manager) (sessionID : string)
    : Manager * result manager_error Snapshot * list effect :=
  match get m sessionID with
  | Err e => (m, Err e, [])
  | Ok s =>
      let state := lc_state (ms_lifecycle s) in
      if decide (state <> Exited /\ state <> Closed) then (m, Err ErrSessionRunning, [])
      else match Transition (ms_lifecycle s) Restarting with
      | Err e => (m, Err (ELifecycle e), [])
      | Ok l1 =>
          let s1 := set_lifecycle s l1 in
          match persist (rw_persist w) (mg_store m) s1 state with
          | (db1, Err e) => (put_store (put_session m (transition_or_stay s1 Closed)) db1, Err (EStore e), [])
          | (db1, Ok _) =>
              match rw_launch w with
              | None =>
                  let s2 := transition_or_stay s1 Closed in
                  let '(db2, _) := persist (rw_failed w) db1 s2 Restarting in
                  (put_store (put_session m s2) db2, Err ELaunch, [])
              | Some p =>
                  match Transition l1 Running with
                  | Err e => (put_store (put_session m s1) db1, Err (ELifecycle e), [ECloseIO p])
                  | Ok l2 =>
                      let generation := lc_generation l2 in
                      let s2 := set_lifecycle s1 l2 in
                      let s3 := set_journal s2 ((fun j => SetGeneration j generation) <$> ms_inputs s2) in
                      let s4 := set_process s3 (Some p) (Some (mkLive p generation)) None in
                      let s5 := startOutputPersistence (mg_store m) s4 in
                      match persist (rw_running w) db1 s5 Restarting with
                      | (db2, Ok _) =>
                          (put_store (put_session m s5) db2, Ok (snapshotLocked s5), [])
                      | (db2, Err e) =>
                          let s6 := transition_or_stay (set_process s5 None None None) Exited in
                          (put_store (put_session m s6) db2, Err (EStore e), [ETerminate p])
                      end
                  end
              end
          end
      end
  end.

Definition Delete (f : fault) (m : Manager) (sessionID : string) : Manager * result manager_error unit :=
  match get m sessionID with
  | Err e => (m, Err e)
  | Ok s =>
      let state := lc_state (ms_lifecycle s) in
      if decide (state <> Exited /\ state <> Closed) then (m, Err ErrSessionRunning)
      else
        let '(db, r) :=
          match mg_store m with
          | None => (None, Ok tt)
          | Some d => let '(d', r) := DeleteSession f d sessionID in (Some d', r)
          end in
        match r with
        | Err e => (put_store m db, Err (EStore e))
        | Ok _ =>
            match Transition (ms_lifecycle s) Deleted with
            | Err e => (put_store m db, Err (ELifecycle e))
            | Ok l =>
                (mkManager (mg_config m) (delete sessionID (mg_sessions m))
                   (delete (ms_name s) (mg_names m)) (mg_stopping m) db (mg_heap m), Ok tt)
            end
        end
  end.

(** *** Reading the state *)

Definition GetSnapshot (m : Manager) (sessionID : string) : result manager_error Snapshot :=
  let? s := get m sessionID in Ok (snapshotLocked s).

Definition snapshot_le (x y : Snapshot) : Prop := string_leb (sn_Name x) (sn_Name y) = true.

#[global] Instance snapshot_le_dec x y : Decision (snapshot_le x y).
Proof. unfold snapshot_le. apply _. Defined.

Definition List (m : Manager) : list Snapshot :=
  merge_sort snapshot_le (snapshotLocked <$> (map_to_list (mg_sessions m)).*2).

Record Counts := mkCounts { ct_sessions : Z; ct_attachments : Z; ct_processes : Z }.

Definition ResourceCounts (m : Manager) : Counts :=
  let ss := (map_to_list (mg_sessions m)).*2 in
  mkCounts (len ss)
    (foldr (fun s acc => Count (ms_fanout s) + acc) 0 ss)
    (len (filter (fun s => is_Some (ms_process s)) ss)).

(** *** Shutdown *)

(** The [Close] calls of [Shutdown]; they run side by side, each on its own session. *)
Fixpoint close_all (w : string -> close_world) (m : Manager) (ids : list string)
    : Manager * list manager_error * list effect :=
  match ids with
  | [] => (m, [], [])
  | id :: rest =>
      let '(m1, r, eff) := Close (w id) m id in
      let '(m2, errs, eff2) := close_all w m1 rest in
      (m2, match r with
           | Err ErrSessionRunning => errs
           | Err e => e :: errs
           | Ok _ => errs
           end, eff ++ eff2)
  end.

(** The joined errors; [[]] is a nil error. *)
Definition Shutdown (w : string -> close_world) (m : Manager) : Manager * list manager_error * list effect :=
  if mg_stopping m then (m, [], [])
  else
    let m1 := mkManager (mg_config m) (mg_sessions m) (mg_names m) true (mg_store m) (mg_heap m) in
    close_all w m1 ((map_to_list (mg_sessions m)).*1).

(** Writing the recoverable state of one session back. *)
Definition restore_state (fn : fault * time) (m : Manager) (id : string) (original : State)
    : Manager * list manager_error :=
  match get m id, mg_store m with
  | Ok s, Some d =>
      if decide (lc_state (ms_lifecycle s) <> Closed) then (m, [ELifecycle ErrInvalidTransition])
      else
        let r := storeRecordLocked s in
        let record := mkSession (ss_ID r) (ss_Name r) (ss_CWD r) (ss_CommandPath r) (ss_CommandArgs r)
                        (ss_CommandEnv r) (ss_Columns r) (ss_Rows r) (State_string original)
                        (ss_Generation r) None "" None (ss_EarliestSequence r) (ss_LatestSequence r)
                        (ss_CreatedAt r) (ss_UpdatedAt r) in
        let '(d', x) := UpdateSession fn.1 fn.2 d id (State_string Closed) record in
        (put_store m (Some d'), match x with Ok _ => [] | Err e => [EStore e] end)
  | Err e, _ => (m, [e])
  | _, None => (m, [])
  end.

Fixpoint restore_states (fn : string -> fault * time) (m : Manager) (l : list (string * State))
    : Manager * list manager_error :=
  match l with
  | [] => (m, [])
  | (id, original) :: rest =>
      let '(m1, e1) := restore_state (fn id) m id original in
      let '(m2, e2) := restore_states fn m1 rest in
      (m2, e1 ++ e2)
  end.

Definition recoverable (m : Manager) : list (string * State) :=
  omap (fun kv : string * managedSession =>
    let state := lc_state (ms_lifecycle kv.2) in
    if decide (state = Running \/ state = Restarting) then Some (kv.1, state) else None)
  (map_to_list (mg_sessions m)).

Definition ShutdownForRecovery (w : string -> close_world) (fn : string -> fault * time) (m : Manager)
    : Manager * list manager_error * list effect :=
  let todo := recoverable m in
  let '(m1, errs, eff) := Shutdown w m in
  match mg_store m1 with
  | None => (m1, errs, eff)
  | Some _ => let '(m2, errs2) := restore_states fn m1 todo in (m2, errs ++ errs2, eff)
  end.

(** *** Output *)

(** What [capture] does with one chunk of output under [opMu]; [pick] is the owner the
    pool hands out and [cap] the capacity of the read buffer. *)
Definition capture_chunk (pick : option positive) (cap : Z) (hp : heap) (s : managedSession)
    (data : list byte) : heap * managedSession * option (list Eviction) :=
  let '(hp1, h1, r) := AppendBuffer hp (ms_history s) pick x01 data cap in
  let s1 := set_history s h1 in
  match r with
  | Err _ => (hp1, s1, None)
  | Ok event =>
      let '(hp2, f2, published) := PublishOwned hp1 (ms_fanout s1) event in
      (Release hp2 event, queueOutputPersistence (set_fanout s1 f2),
       match published with Ok evictions => Some evictions | Err _ => None end)
  end.

(** One [Read] of the capture loop that returns [data]. *)
Definition capture_read (pick : option positive) (cap : Z) (m : Manager) (sessionID : string)
    (data : list byte) : Manager * option (list Eviction) :=
  match mg_sessions m !! sessionID with
  | None => (m, None)
  | Some s =>
      let '(hp, s', r) := capture_chunk pick cap (mg_heap m) s data in
      (put_heap (put_session m s') hp, r)
  end.

(** The rest of [capture] when the PTY's output has ended and the last flush is done. *)
Definition capture_end (fn : fault * time) (exit : ExitResult) (m : Manager) (sessionID : string)
    (p : process) : Manager :=
  match mg_sessions m !! sessionID with
  | None => m
  | Some s0 =>
      let s := set_notify s0 None in
      if decide (ms_process s <> Some p) then put_session m s
      else if decide (lc_state (ms_lifecycle s) = Running) then
        let s1 := set_process (transition_or_stay s Exited) None None (Some exit) in
        let '(db, _) := persist fn (mg_store m) s1 Running in
        put_store (put_session m s1) db
      else put_session m s
  end.

(** The persistence goroutine.  [flt i] is the fault and clock of the [i]-th append. *)
Fixpoint append_all (flt : nat -> fault * time) (i : nat) (d : DB) (sessionID : string)
    (maxRetained : Z) (events : list Event) : DB * result store_error unit :=
  match events with
  | [] => (d, Ok tt)
  | e :: rest =>
      match AppendOutput (flt i).1 (flt i).2 d sessionID (ev_Channel e) (ev_StartSequence e)
              (ev_Data e) maxRetained with
      | (d1, Err x) => (d1, Err x)
      | (d1, Ok _) => append_all flt (S i) d1 sessionID maxRetained rest
      end
  end.

Inductive round := Done (r : result store_error unit) | Again.

(** One turn of the loop of [flush]. *)
Definition flush_round (fb : fault) (fa : fault * time) (flt : nat -> fault * time) (c : ManagerConfig)
    (hp : heap) (s : managedSession) (d : DB) : heap * DB * round :=
  let '(earliest, latest, _) := Bounds (ms_history s) in
  match OutputBounds fb d (ms_id s) with
  | Err e => (hp, d, Done (Err e))
  | Ok (_, persistedLatest) =>
      let '(d1, persistedLatest, failed) :=
        if decide (persistedLatest < earliest) then
          match AdvanceOutput fa.1 fa.2 d (ms_id s) persistedLatest earliest with
          | (d1, Err e) => (d1, persistedLatest, Some e)
          | (d1, Ok _) => (d1, earliest, None)
          end
        else (d, persistedLatest, None) in
      match failed with
      | Some e => (hp, d1, Done (Err e))
      | None =>
          if decide (latest <= persistedLatest) then (hp, d1, Done (Ok tt))
          else match ReplayOwned hp (ms_history s) persistedLatest (mc_HistoryBytes c) with
          | (hp1, Err (History.GapError _ _ _)) => (hp1, d1, Again)
          | (hp1, Err _) => (hp1, d1, Done (Err ErrConflict))
          | (hp1, Ok replay) =>
              let '(d2, r) := append_all flt 0 d1 (ms_id s) (mc_HistoryBytes c) (rp_Events replay) in
              let hp2 := Replay_Release hp1 replay in
              match r with
              | Err e => (hp2, d2, Done (Err e))
              | Ok _ => if decide (latest <= rp_ToSequence replay) then (hp2, d2, Done (Ok tt))
                        else (hp2, d2, Again)
              end
          end
      end
  end.

Fixpoint flush (fuel : nat) (flt : nat -> fault * fault * time * (nat -> fault * time)) (c : ManagerConfig)
    (hp : heap) (s : managedSession) (d : DB) : heap * DB * option (result store_error unit) :=
  match fuel with
  | O => (hp, d, None)
  | S n =>
      let '(fb, fa, now, fs) := flt n in
      match flush_round fb (fa, now) fs c hp s d with
      | (hp1, d1, Done r) => (hp1, d1, Some r)
      | (hp1, d1, Again) => flush n flt c hp1 s d1
      end
  end.

(** *** Recovery *)

Record recover_world := mkRecoverWorld {
  vw_sessions : fault;
  vw_now : time;
  vw_update : string -> fault * time;
  vw_trim : string -> fault;
  vw_replay : string -> fault;
  vw_inputs : string -> fault
}.

(** The recovered state; [None] for a state no session should have. *)
Definition recovered_state (original : State) : option State :=
  match original with
  | Creating => Some Closed
  | Running | Restarting => Some Exited
  | Closing => Some Closed
  | Exited => Some Exited
  | Closed => Some Closed
  | _ => None
  end.

Definition recovered_record (c : ManagerConfig) (now : time) (r : Session) (original recovered : State)
    : Session :=
  let died := bool_decide (original = Running \/ original = Restarting) in
  mkSession (ss_ID r) (ss_Name r) (ss_CWD r) (ss_CommandPath r) (ss_CommandArgs r) (ss_CommandEnv r)
    (ss_Columns r) (ss_Rows r)
    (if decide (recovered = original) then ss_State r else State_string recovered) (ss_Generation r)
    (if died then Some 255 else ss_ExitCode r)
    (if died then mc_RecoveryExitSignal c else ss_ExitSignal r)
    (if died then Some now else ss_ExitedAt r)
    (ss_EarliestSequence r) (ss_LatestSequence r) (ss_CreatedAt r) (ss_UpdatedAt r).

Fixpoint restore_inputs (j : InputJournal) (ds : list StoredInput) : result input_error InputJournal :=
  match ds with
  | [] => Ok j
  | d :: rest =>
      let key := mkKey (si_ClientID d) (si_AttachmentID d) (si_Generation d) (si_InputID d) in
      match InputStatus_of_string (si_Status d) with
      | None => Err ErrInvalidInput
      | Some status =>
          match Input.Restore j key (si_Hash d) status (si_BytesWritten d) (si_ErrorCode d) with
          | (_, Err e) => Err e
          | (j', Ok _) => restore_inputs j' rest
          end
      end
  end.

Definition recover_one (w : recover_world) (m : Manager) (d : DB) (record : Session)
    : DB * result manager_error managedSession :=
  let id := ss_ID record in
  let c := mg_config m in
  let original := State_of_string (ss_State record) in
  match recovered_state original with
  | None => (d, Err ErrInvalidSession)
  | Some recovered =>
      let record := recovered_record c (vw_now w) record original recovered in
      let '(d1, updated) :=
        if decide (recovered = original) then (d, Ok tt)
        else UpdateSession (vw_update w id).1 (vw_update w id).2 d id (State_string original) record in
      match updated with
      | Err e => (d1, Err (EStore e))
      | Ok _ =>
          match TrimOutput (vw_trim w id) d1 id (mc_HistoryBytes c) with
          | (d2, Err e) => (d2, Err (EStore e))
          | (d2, Ok earliestSequence) =>
              (d2,
               let? r := wrap EStore (Store.Replay (vw_replay w id) d2 id earliestSequence 0) in
               let '(storedEvents, earliest, latest) := r in
               let? retained := wrap EHistory (History.Restore (mc_HistoryBytes c) earliest latest
                                                 (to_event <$> storedEvents)) in
               let? lifecycle := wrap ELifecycle (RecoverLifecycle recovered (ss_Generation record)) in
               let? decisions := wrap EStore (InputDecisions (vw_inputs w id) d2 id) in
               let? journal := wrap EInput (restore_inputs
                 (NewBoundedInputJournal (ss_Generation record) (mc_MaxInputDecisions c)) decisions) in
               Ok (mkManaged id (ss_Name record)
                     (mkCommand (ss_CommandPath record) (ss_CommandArgs record) (ss_CommandEnv record)
                        (ss_CWD record) (mkDims (ss_Columns record) (ss_Rows record)))
                     lifecycle retained NewFanout (Some journal) None None
                     ((fun code => mkExit code (ss_ExitSignal record)
                                     (default zero_time (ss_ExitedAt record))) <$> ss_ExitCode record)
                     "" zero_time None))
          end
      end
  end.

Fixpoint recover_all (w : recover_world) (m : Manager) (d : DB) (records : list Session)
    : DB * result manager_error Manager :=
  match records with
  | [] => (d, Ok (put_store m (Some d)))
  | record :: rest =>
      match recover_one w m d record with
      | (d1, Err e) => (d1, Err e)
      | (d1, Ok s) =>
          if decide (is_Some (mg_sessions m !! ss_ID record)
                     \/ default "" (mg_names m !! ss_Name record) <> "")
          then (d1, Err ErrInvalidSession)
          else recover_all w
                 (mkManager (mg_config m) (<[ss_ID record := s]> (mg_sessions m))
                    (<[ss_Name record := ss_ID record]> (mg_names m)) (mg_stopping m) (Some d1) (mg_heap m))
                 d1 rest
      end
  end.

Definition recover (w : recover_world) (m : Manager) (d : DB) : DB * result manager_error Manager :=
  match Sessions (vw_sessions w) d with
  | Err e => (d, Err (EStore e))
  | Ok records => recover_all w m d records
  end.

(** [NewManager]: the database left behind, and the manager. *)
Definition NewManager (w : recover_world) (launch_nil : bool) (c : ManagerConfig) (db : option DB)
    : option DB * result manager_error Manager :=
  match manager_config launch_nil c with
  | Err e => (db, Err e)
  | Ok c' =>
      let m := mkManager c' ∅ ∅ false db empty_heap in
      match db with
      | None => (None, Ok m)
      | Some d => let '(d', r) := recover w m d in (Some d', r)
      end
  end.

(** ** Steps of the manager

    [held] are the buffer references that readers and, after a [Delete], nobody
    give back. *)
Inductive mgr_step : Manager * list Event -> Manager * list Event -> Prop :=
| step_Create w m held req m' r eff :
    Create w m req = (m', r, eff) -> mgr_step (m, held) (m', held)
| step_Attach m held sid aid from m' r :
    Attach m sid aid from = (m', r) -> mgr_step (m, held) (m', held)
| step_AttachLive m held sid aid m' r :
    AttachLive m sid aid = (m', r) -> mgr_step (m, held) (m', held)
| step_Detach m held sid aid m' r : Detach m sid aid = (m', r) -> mgr_step (m, held) (m', held)
| step_Next m held sid aid m' r : Next m sid aid = (m', r) -> mgr_step (m, held) (m', held)
| step_WaitNext m held sid aid m' r :
    WaitNext m sid aid = (m', r) ->
    mgr_step (m, held) (m', match r with Some (Ok ev) => ev :: held | _ => held end)
| step_Release m held1 e held2 :
    mgr_step (m, held1 ++ e :: held2) (put_heap m (Release (mg_heap m) e), held1 ++ held2)
| step_Acknowledge m held sid aid n m' r :
    0 <= n -> Acknowledge m sid aid n = (m', r) -> mgr_step (m, held) (m', held)
| step_Write put update now w m held sid key data m' r eff :
    Write put update now w m sid key data = (m', r, eff) -> mgr_step (m, held) (m', held)
| step_Resize fn failed m held sid aid d at_ m' r eff :
    Resize fn failed m sid aid d at_ = (m', r, eff) -> mgr_step (m, held) (m', held)
| step_Clear f now m held sid m' r : Clear f now m sid = (m', r) -> mgr_step (m, held) (m', held)
| step_Close w m held sid m' r eff : Close w m sid = (m', r, eff) -> mgr_step (m, held) (m', held)
| step_finish fn o m held sid p : mgr_step (m, held) (finishClosing fn o m sid p, held)
| step_Restart w m held sid m' r eff :
    Restart w m sid = (m', r, eff) -> mgr_step (m, held) (m', held)
| step_Delete f m held sid m' r :
    Delete f m sid = (m', r) ->
    mgr_step (m, held) (m', match r, mg_sessions m !! sid with
                            | Ok _, Some s => fo_ring (ms_fanout s) ++ live (ms_history s) ++ held
                            | _, _ => held end)
| step_capture pick cap m held sid data m' r :
    data <> [] -> capture_read pick cap m sid data = (m', r) -> mgr_step (m, held) (m', held)
| step_capture_end fn exit m held sid p :
    mgr_step (m, held) (capture_end fn exit m sid p, held)
| step_flush fb fa flt m held sid s d hp' d' r :
    mg_sessions m !! sid = Some s -> mg_store m = Some d ->
    flush_round fb fa flt (mg_config m) (mg_heap m) s d = (hp', d', r) ->
    mgr_step (m, held) (put_heap (put_store m (Some d')) hp', held)
| step_stop m held :
    mgr_step (m, held) (mkManager (mg_config m) (mg_sessions m) (mg_names m) true (mg_store m) (mg_heap m), held)
| step_restore fn m held id original m' errs :
    restore_state fn m id original = (m', errs) -> mgr_step (m, held) (m', held).

End Operations.
