(* ===== verification/ManagerOutput.v ===== *)
(** * Output of a managed session: attach, capture, clear

    The history, the fan-out and the shared buffer heap of a session together:
    [out_ok] says that the session's output is one byte stream of which the history
    holds a suffix and the clients' queues hold parts, and that every attached client
    has been given the stream up to its end.  The theorems show that an attach within
    the retained range always succeeds with the replay the client needs, that capturing
    output never fails to publish, and that every interleaving of the manager's output
    operations keeps this and the reference counts of all sessions. *)

From S2P Require Import Prelude Config Lifecycle Buffers History Input Fanout Store Manager.

(** ** Invariant of one session *)

Definition config_ok (c : ManagerConfig) : Prop :=
  1 <= mc_HistoryBytes c < two64 /\ 1 <= mc_AttachmentBytes c < two64 /\ 1 <= mc_MaxAttachments c
  /\ 1 <= mc_MaxInputDecisions c.

(** The buffer references a session holds. *)
Definition refs (s : managedSession) : list Event := fo_ring (ms_fanout s) ++ live (ms_history s).

(** [O] is the session's output from sequence [B]; [R] the references of everybody else. *)
Record out_ok (c : ManagerConfig) (hp : heap) (R : list Event) (s : managedSession) (B : Z)
    (O : list Event) : Prop := {
  ou_wf : wf (ms_history s);
  ou_max : h_maxBytes (ms_history s) = mc_HistoryBytes c;
  ou_pre : exists pre, O = pre ++ live (ms_history s);
  ou_fan : fanout_ok B (h_latest (ms_history s)) O (live (ms_history s) ++ R) hp (ms_fanout s);
  ou_up : caught_up (h_latest (ms_history s)) (ms_fanout s)
}.

Lemma fanout_ok_heap B L H R R' hp hp' f :
  fanout_ok B L H R hp f -> accounted hp' (fo_ring f ++ R') -> fanout_ok B L H R' hp' f.
Proof. intros [] HA. by constructor. Qed.

Lemma out_ok_acc c hp R s B O : out_ok c hp R s B O -> accounted hp (refs s ++ R).
Proof. intros [_ _ _ [] _]. unfold refs. by rewrite <- app_assoc. Qed.

Lemma out_ok_heap c hp hp' R R' s B O :
  out_ok c hp R s B O -> accounted hp' (refs s ++ R') -> out_ok c hp' R' s B O.
Proof.
  intros [] HA. constructor; try done. eapply fanout_ok_heap; [done|].
  unfold refs in HA. by rewrite <- app_assoc in HA.
Qed.

(** ** Attaching *)

Lemma attachmentReplayLimit_spec a :
  1 <= a < two64 ->
  1 <= attachmentReplayLimit a <= a /\ attachmentReplayLimit a <= initialReplayBytes
  /\ attachmentReplayLimit a < two64.
Proof.
  intros Ha. unfold attachmentReplayLimit. change initialReplayBytes with 65536.
  assert (a / 2 <= a) by (apply Z.div_le_upper_bound; lia).
  assert (0 <= a / 2) by (apply Z.div_pos; lia).
  repeat case_decide; lia.
Qed.

(** A replayed part that reaches its chunk's end is a suffix of the chunk. *)
Lemma part_suffix from x e :
  part_of from x e -> ev_EndSequence x = ev_EndSequence e ->
  ev_EndSequence e = ev_StartSequence e + len (ev_Data e) -> suffix_of x e.
Proof.
  intros (Hc & _ & Hs & Hr & Hd) He Hl. unfold suffix_of. split_and!; try done; [lia|lia|].
  rewrite Hd, He, Hl. unfold slice. rewrite take_ge; [done|]. rewrite length_drop. lia.
Qed.

Lemma enqueue_all_spec B L H R id evs : forall hp f c start stop,
  fanout_ok B L H R hp f -> contiguous start evs stop ->
  (forall x, x ∈ evs -> x ∈ R /\ exists e, e ∈ H /\ suffix_of x e) ->
  fo_attachments f !! id = Some c -> ac_state c = Attached ->
  (ac_hasCursor c = true -> ac_enqueuedEnd c = start) ->
  ac_queuedBytes c + len (content evs) <= ac_maxBytes c ->
  exists hp' f' c', enqueue_all hp f id evs = (hp', f', None)
    /\ fanout_ok B L H R hp' f' /\ fo_attachments f' = <[id := c']> (fo_attachments f)
    /\ ac_state c' = Attached /\ ac_queuedBytes c' = ac_queuedBytes c + len (content evs)
    /\ (ac_hasCursor c' = true -> ac_enqueuedEnd c' = stop).
Proof.
  induction evs as [|x evs IH]; intros hp f c start stop Hok Hc Hx Hid Hat Hst Hfit.
  - simpl in Hc. subst stop. exists hp, f, c. cbn [enqueue_all]. split_and!; try done.
    + by rewrite insert_id.
    + simpl. lia.
  - destruct Hc as (Hs & He & Hc). destruct (Hx x ltac:(set_solver)) as (HxR & e & HeH & Hsuf).
    rewrite content_cons, length_app in *.
    destruct (EnqueueOwned_ok B L H R hp f id c x e) as (hp1 & f1 & E & Hok1 & Hf1); try done.
    { intros Hh. by rewrite Hst. } { lia. }
    cbn [enqueue_all]. rewrite E.
    assert (Hco : ac_queuedBytes (enqueue x c) = ac_queuedBytes c + len (ev_Data x)).
    { destruct Hok as [_ _ _ _ Hcs _ _]. destruct (Hcs id c Hid Hat). simpl. apply u64_add_small; lia. }
    destruct (IH hp1 f1 (enqueue x c) (ev_EndSequence x) stop) as (hp' & f' & c' & E' & Hok' & Hf' & Hat' & Hq & Hend');
      try done.
    + intros y Hy. apply Hx. set_solver.
    + by rewrite Hf1, lookup_insert_eq.
    + rewrite Hco. simpl. lia.
    + exists hp', f', c'. rewrite Hf', Hf1, insert_insert_eq. split_and!; try done. lia.
Qed.

(** Where the replay of an attach starts. *)
Definition attach_from (c : ManagerConfig) (h : History) (from : Z) : Z :=
  let limit := attachmentReplayLimit (mc_AttachmentBytes c) in
  if decide (h_latest h - from <= limit) then from else h_latest h - limit.

Lemma attach_replay_spec c hp h from R :
  config_ok c -> wf h -> accounted hp (live h ++ R) -> h_earliest h <= from <= h_latest h ->
  let start := attach_from c h from in
  exists hp' new,
    attach_replay hp h (attachmentReplayLimit (mc_AttachmentBytes c)) from
    = (hp', Ok (mkReplay start (h_latest h) (h_earliest h) (h_latest h) new))
    /\ content new = log_read (view h) start (h_latest h) /\ contiguous start new (h_latest h)
    /\ (forall x, x ∈ new -> exists e, e ∈ live h /\ suffix_of x e)
    /\ accounted hp' (new ++ live h ++ R).
Proof.
  intros (_ & Hab & _) Hwf HA Hf start. set (limit := attachmentReplayLimit (mc_AttachmentBytes c)) in *.
  destruct (attachmentReplayLimit_spec _ Hab) as (Hl1 & _ & Hl2). fold limit in Hl1, Hl2.
  pose proof Hwf as [[_ _ Hcg Hlo Hhi _ _] _].
  assert (Hfinal : forall s hp0, accounted hp0 (live h ++ R) -> h_earliest h <= s <= h_latest h ->
    h_latest h - s <= limit ->
    exists hp' new, ReplayOwned hp0 h s limit = (hp', Ok (mkReplay s (h_latest h) (h_earliest h) (h_latest h) new))
      /\ content new = log_read (view h) s (h_latest h) /\ contiguous s new (h_latest h)
      /\ (forall x, x ∈ new -> exists e, e ∈ live h /\ suffix_of x e)
      /\ accounted hp' (new ++ live h ++ R)).
  { intros s hp0 HA0 Hs Hle. destruct (ReplayOwned_spec hp0 h s limit R Hwf HA0 Hs ltac:(lia))
      as (hp' & new & E & H1 & H2 & H3 & H4).
    rewrite decide_True in E, H1, H2, H3 by lia. rewrite Z.min_l in E, H1, H2, H3 by lia.
    exists hp', new. split_and!; try done. intros x Hx. destruct (H3 x Hx) as (e & He & Hp & Hend).
    exists e. split; [done|]. destruct (contiguous_elem _ _ _ _ Hcg He) as (_ & _ & Hlen).
    eapply part_suffix; eauto. }
  unfold attach_replay, start, attach_from. fold limit. destruct (decide (h_latest h - from <= limit)) as [Hle|Hgt].
  - destruct (Hfinal from hp HA Hf Hle) as (hp' & new & E & H). rewrite E. simpl.
    rewrite decide_False by lia. eauto.
  - destruct (ReplayOwned_spec hp h from limit R Hwf HA Hf ltac:(lia)) as (hp1 & new1 & E1 & _ & _ & _ & HA1).
    rewrite decide_True in E1 by lia. rewrite Z.min_r in E1 by lia. rewrite E1. simpl.
    rewrite decide_True by lia. rewrite u64_sub_small by lia.
    rewrite decide_False by lia. unfold Replay_Release. simpl.
    apply Hfinal; [by apply accounted_ReleaseAll|lia|lia].
Qed.

Lemma caught_up_insert L f f' id c :
  fo_attachments f' = <[id := c]> (fo_attachments f) ->
  (ac_hasCursor c = true -> ac_enqueuedEnd c = L) -> caught_up L f -> caught_up L f'.
Proof.
  intros Hf Hc Hcu k c'. rewrite Hf, lookup_insert. case_decide; [|apply Hcu].
  intros [= <-] _. auto.
Qed.

(** The client is not attached already, and its name is not empty. *)
Definition may_attach (f : Fanout) (attachmentID : string) : Prop :=
  attachmentID <> "" /\ (ac_state <$> fo_attachments f !! attachmentID) <> Some Attached.

Lemma attachLocked_ok c hp R s B O id from :
  config_ok c -> out_ok c hp R s B O -> Count (ms_fanout s) < mc_MaxAttachments c ->
  h_earliest (ms_history s) <= from <= h_latest (ms_history s) -> may_attach (ms_fanout s) id ->
  let h := ms_history s in
  let start := attach_from c h from in
  exists hp' f' cur new,
    attachLocked c hp s id from
    = (hp', set_fanout s f',
       Ok (mkAttachResult (snapshotLocked (set_fanout s f'))
             (mkReplay start (h_latest h) (h_earliest h) (h_latest h) new)))
    /\ content new = log_read (view h) start (h_latest h) /\ contiguous start new (h_latest h)
    /\ fo_attachments f' = <[id := cur]> (fo_attachments (ms_fanout s))
    /\ ac_state cur = Attached /\ ac_queuedBytes cur = h_latest h - start
    /\ out_ok c hp' R (set_fanout s f') B O.
Proof.
  intros Hcfg Hout Hcount Hf [Hne Hnat] h start. pose proof Hout as [Hwf Hm [pre ->] Hfan Hup].
  pose proof Hcfg as (_ & Hab & _). destruct (attachmentReplayLimit_spec _ Hab) as (Hl1 & _ & _).
  unfold attachLocked. rewrite decide_False by lia.
  assert (HA : accounted hp (live h ++ fo_ring (ms_fanout s) ++ R)).
  { pose proof (fk_heap _ _ _ _ _ _ Hfan) as HA. eapply accounted_perm; [|exact HA]. fold h. solve_Permutation. }
  destruct (attach_replay_spec c hp h from _ Hcfg Hwf HA Hf) as (hp1 & new & E & Hco & Hcg & Hsuf & HA1).
  fold start in E, Hco, Hcg. fold h. rewrite E.
  unfold Fanout.Attach. rewrite decide_False by (intros [?|?]; [done|lia]). rewrite decide_False by done.
  set (f1 := mkFanout _ _ _).
  assert (Hok1 : fanout_ok B (h_latest h) (pre ++ live h) (new ++ live h ++ R) hp1 f1).
  { eapply (Attach_ok _ _ _ (live h ++ R) hp (ms_fanout s) id (mc_AttachmentBytes c)) in Hfan as [Hfan _].
    - eapply fanout_ok_heap; [exact Hfan|]. eapply accounted_perm; [|exact HA1]. simpl. solve_Permutation.
    - lia.
    - unfold Fanout.Attach. rewrite decide_False by (intros [?|?]; [done|lia]). by rewrite decide_False. }
  pose proof (contiguous_end _ _ _ Hcg) as Hlen.
  assert (Hfit : 0 + len (content new) <= mc_AttachmentBytes c).
  { unfold start, attach_from in Hlen. case_decide; lia. }
  destruct (enqueue_all_spec B (h_latest h) (pre ++ live h) (new ++ live h ++ R) id new hp1 f1
              (mkCursor Attached (mc_AttachmentBytes c) 0 0 0 0 false false) start (h_latest h))
    as (hp2 & f2 & cur & E2 & Hok2 & Hf2 & Hst2 & Hq2 & Hend2); try done.
  { intros x Hx. destruct (Hsuf x Hx) as (e & ? & ?). split; [set_solver|]. exists e. set_solver. }
  { simpl. by rewrite lookup_insert_eq. }
  assert (Hf2' : fo_attachments f2 = <[id := cur]> (fo_attachments (ms_fanout s))).
  { rewrite Hf2. simpl. by rewrite insert_insert_eq. }
  simpl rp_Events. rewrite E2. eexists _, f2, cur, _. split; [reflexivity|].
  split_and!; try done.
  - unfold cloneReplay. simpl. rewrite <- Hco. apply content_clone.
  - by apply (contiguous_clone start new).
  - rewrite Hq2. simpl. lia.
  - constructor; try done; [by exists pre| |by eapply caught_up_insert].
    eapply fanout_ok_heap; [exact Hok2|]. unfold Replay_Release. simpl.
    apply accounted_ReleaseAll. eapply accounted_perm; [|exact (fk_heap _ _ _ _ _ _ Hok2)]. solve_Permutation.
Qed.

(** Why an attach is refused: the attachment limit first, then the cursor, then the
    attachment's name. *)
Definition attach_refusal (c : ManagerConfig) (s : managedSession) (id : string) (from : Z) : manager_error :=
  if decide (mc_MaxAttachments c <= Count (ms_fanout s)) then ErrResourceLimit
  else if decide (from < h_earliest (ms_history s))
  then EHistory (History.GapError from (h_earliest (ms_history s)) (h_latest (ms_history s)))
  else if decide (h_latest (ms_history s) < from) then EHistory ErrInvalidCursor
  else if decide (id = "") then EFanout ErrInvalidQueueLimit
  else EFanout ErrAttachmentExists.

(** The refusals of an attach, and that they change nothing. *)
Lemma attachLocked_refused c hp R s B O id from :
  config_ok c -> out_ok c hp R s B O ->
  ~ (Count (ms_fanout s) < mc_MaxAttachments c
     /\ h_earliest (ms_history s) <= from <= h_latest (ms_history s) /\ may_attach (ms_fanout s) id) ->
  exists hp', attachLocked c hp s id from = (hp', s, Err (attach_refusal c s id from)) /\ out_ok c hp' R s B O.
Proof.
  intros Hcfg Hout Hno. pose proof Hout as [Hwf Hm _ Hfan _]. pose proof Hcfg as (_ & Hab & _).
  unfold attachLocked, attach_refusal. destruct (decide (mc_MaxAttachments c <= Count (ms_fanout s))); [by eauto|].
  destruct (decide (h_earliest (ms_history s) <= from <= h_latest (ms_history s))) as [Hr|Hr]; cycle 1.
  { unfold attach_replay, ReplayOwned. destruct (decide (from < h_earliest (ms_history s))); [by eauto|].
    rewrite decide_True by lia. rewrite decide_True by lia. eauto. }
  assert (HA : accounted hp (live (ms_history s) ++ fo_ring (ms_fanout s) ++ R)).
  { pose proof (fk_heap _ _ _ _ _ _ Hfan) as HA. eapply accounted_perm; [|exact HA]. solve_Permutation. }
  destruct (attach_replay_spec c hp _ from _ Hcfg Hwf HA Hr) as (hp1 & new & E & _ & _ & _ & HA1). rewrite E.
  rewrite (decide_False (P := from < _)), (decide_False (P := _ < from)) by lia.
  assert (Ee : Fanout.Attach (ms_fanout s) id (mc_AttachmentBytes c)
               = Err (if decide (id = "") then ErrInvalidQueueLimit else ErrAttachmentExists)).
  { unfold Fanout.Attach. destruct (decide (id = "")) as [Hid|Hid]; [by rewrite decide_True by auto|].
    rewrite (decide_False (P := _ \/ _)) by (intros [?|?]; [done|lia]). rewrite decide_True; [done|].
    apply dec_stable. intros Hst. apply Hno. split_and!; try lia. unfold may_attach. tauto. }
  rewrite Ee. eexists. split; [by destruct (decide (id = ""))|]. eapply out_ok_heap; [exact Hout|].
  unfold Replay_Release. simpl. apply accounted_ReleaseAll. unfold refs.
  eapply accounted_perm; [|exact HA1]. solve_Permutation.
Qed.

(** ** Capturing output *)

Lemma out_ok_queue c hp R s B O : out_ok c hp R s B O -> out_ok c hp R (queueOutputPersistence s) B O.
Proof. intros []. unfold queueOutputPersistence. destruct (ms_persistNotify s); by constructor. Qed.

Lemma capture_chunk_ok pick cap c hp R s B O data :
  out_ok c hp R s B O -> data <> [] -> h_latest (ms_history s) + len data < two64 ->
  exists hp' s' evs e, capture_chunk pick cap hp s data = (hp', s', Some evs)
    /\ ev_Data e = data /\ ev_StartSequence e = h_latest (ms_history s)
    /\ out_ok c hp' R s' B (O ++ [e])
    /\ view (ms_history s') = log_append (mc_HistoryBytes c) x01 data (view (ms_history s))
    /\ evicted_by e (ms_fanout s) evs.
Proof.
  intros Hout Hd Hlt. pose proof Hout as [Hwf Hm [pre ->] Hfan Hup]. set (h := ms_history s) in *.
  assert (HA : accounted hp (live h ++ fo_ring (ms_fanout s) ++ R)).
  { pose proof (fk_heap _ _ _ _ _ _ Hfan) as HA. eapply accounted_perm; [|exact HA]. solve_Permutation. }
  unfold capture_chunk. fold h. destruct (AppendBuffer hp h pick x01 data cap) as [[hp1 h1] r] eqn:Ha.
  pose proof (appendOwned_spec _ _ _ _ _ _ _ _ _ _ _ _ Hwf HA Hd Hlt Ha) as (l & -> & Hwf1 & Hv1 & Hm1 & _ & HA1).
  set (e := mkEvent x01 (h_latest h) (h_latest h + len data) data (Some l)) in *.
  pose proof (appendOwned_suffix _ _ _ _ _ _ _ _ _ _ _ Hwf Hd Ha) as [gone Hg].
  assert (Hlat : h_latest h1 = ev_EndSequence e) by exact (f_equal lg_end Hv1).
  assert (Hf1 : fanout_ok B (h_latest h) (pre ++ live h) (e :: live h1 ++ R) hp1 (ms_fanout s)).
  { eapply fanout_ok_heap; [exact Hfan|]. eapply accounted_perm; [|exact HA1]. simpl. solve_Permutation. }
  destruct (PublishOwned_ok _ _ _ _ _ _ e Hf1 Hup) as (hp2 & f2 & evs & Ep & Hf2 & Hup2 & Hev & _); try done.
  { set_solver. }
  simpl ms_fanout. rewrite Ep. eexists _, _, evs, e. split; [reflexivity|]. split_and!; try done.
  - apply out_ok_queue. constructor; simpl; try done; [congruence| | |by rewrite Hlat].
    + exists (pre ++ gone). by rewrite <- !app_assoc, <- Hg.
    + rewrite Hlat. eapply fanout_ok_heap; [exact Hf2|]. apply accounted_Release.
      eapply accounted_perm; [|exact (fk_heap _ _ _ _ _ _ Hf2)]. solve_Permutation.
  - unfold queueOutputPersistence. by destruct (ms_persistNotify _); rewrite <- Hm.
Qed.

(** A chunk that would pass the end of the 64-bit sequence space is dropped. *)
Lemma capture_chunk_full pick cap c hp R s B O data :
  out_ok c hp R s B O -> data <> [] -> two64 <= h_latest (ms_history s) + len data ->
  exists hp', capture_chunk pick cap hp s data = (hp', set_history s (ms_history s), None)
    /\ out_ok c hp' R s B O.
Proof.
  intros Hout Hd Hge. pose proof Hout as [[[_ _ Hc Hlo Hhi _ _] _] _ _ _ _]. apply contiguous_end in Hc.
  unfold capture_chunk, AppendBuffer, appendOwned. rewrite decide_False by done.
  rewrite decide_True by (rewrite u64_sub_small; unfold max_uint64, two64 in *; lia).
  eexists. split; [reflexivity|]. eapply out_ok_heap; [exact Hout|].
  apply accounted_ReleaseBuffer. by eapply out_ok_acc.
Qed.

(** ** Clearing and reading *)

Lemma clear_ok c hp R s B O hp' h' n :
  out_ok c hp R s B O -> History.Clear hp (ms_history s) = (hp', h', n) ->
  n = h_latest (ms_history s) /\ out_ok c hp' R (set_history s h') B O.
Proof.
  intros Hout E. pose proof Hout as [Hwf Hm [pre HO] Hfan Hup].
  assert (HA : accounted hp (live (ms_history s) ++ fo_ring (ms_fanout s) ++ R)).
  { pose proof (fk_heap _ _ _ _ _ _ Hfan) as HA. eapply accounted_perm; [|exact HA]. solve_Permutation. }
  pose proof (Clear_spec hp (ms_history s) _ Hwf HA) as Hc. rewrite E in Hc.
  destruct Hc as (Hn & Hwf' & Hv & Hear & Hm' & HA').
  assert (Hlat : h_latest h' = h_latest (ms_history s)) by exact (f_equal lg_end Hv).
  assert (Hnil : live h' = []).
  { pose proof (f_equal lg_chunks Hv) as Hch. simpl in Hch. by apply fmap_nil_inv in Hch. }
  split; [done|]. constructor; simpl; try done; [congruence|exists O; by rewrite Hnil, app_nil_r| |by rewrite Hlat].
  rewrite Hlat. eapply fanout_ok_heap; [exact Hfan|]. eapply accounted_perm; [|exact HA']. solve_Permutation.
Qed.

(** A fan-out operation that keeps the queues' ends. *)
Lemma out_ok_fanout c hp hp' R R' s B O f' :
  out_ok c hp R s B O ->
  fanout_ok B (h_latest (ms_history s)) O (live (ms_history s) ++ R') hp' f' ->
  ends_kept (ms_fanout s) f' -> out_ok c hp' R' (set_fanout s f') B O.
Proof. intros [] Hf He. constructor; try done. by eapply caught_up_kept. Qed.

Lemma detach_ok c hp R s B O id hp' f' r :
  out_ok c hp R s B O -> Fanout.Detach hp (ms_fanout s) id = (hp', f', r) ->
  out_ok c hp' R (set_fanout s f') B O.
Proof.
  intros Hout E. eapply out_ok_fanout; [done| |by eapply Detach_ends].
  eapply Detach_ok; [|exact E]. apply Hout.
Qed.

Lemma next_ok c hp R s B O id hp' f' r :
  out_ok c hp R s B O -> Fanout.Next hp (ms_fanout s) id = (hp', f', r) ->
  out_ok c hp' R (set_fanout s f') B O.
Proof.
  intros Hout E. eapply out_ok_fanout; [done| |by eapply Next_ends].
  eapply Next_idle; [|exact E]. apply Hout.
Qed.

Lemma wait_ok c hp R s B O id hp' f' r :
  out_ok c hp R s B O -> WaitNextOwned hp (ms_fanout s) id = (hp', f', r) ->
  out_ok c hp' (match r with WaitReady (Ok ev) => ev :: R | _ => R end) (set_fanout s f') B O.
Proof.
  intros Hout E. eapply out_ok_fanout; [done| |by eapply WaitNextOwned_ends].
  assert (Hf := WaitNextOwned_preserves _ _ _ _ _ _ _ _ _ _ (ou_fan _ _ _ _ _ _ Hout) E).
  destruct r as [[ev|]|]; try done. eapply fanout_ok_heap; [exact Hf|].
  eapply accounted_perm; [|exact (fk_heap _ _ _ _ _ _ Hf)]. solve_Permutation.
Qed.

Lemma ack_ok c hp R s B O id n h' :
  out_ok c hp R s B O -> 0 <= n -> History.Acknowledge (ms_history s) id n = Ok h' ->
  out_ok c hp R (set_history s h') B O.
Proof.
  intros [Hwf Hm [pre HO] Hfan Hup] Hn E. pose proof E as E'. unfold History.Acknowledge in E'.
  case_decide; [done|]. injection E' as <-.
  destruct (Acknowledge_spec _ _ _ _ Hwf Hn E) as (Hwf' & _ & _ & _). constructor; eauto.
Qed.

(** ** All sessions *)

Definition all_refs (ss : gmap string managedSession) : list Event := mjoin (refs <$> (map_to_list ss).*2).

Definition others (m : Manager) (id : string) : list Event := all_refs (delete id (mg_sessions m)).

Record mgr_out (m : Manager) (held : list Event) : Prop := {
  mo_config : config_ok (mg_config m);
  mo_heap : accounted (mg_heap m) (all_refs (mg_sessions m) ++ held);
  mo_session : forall id s, mg_sessions m !! id = Some s ->
    ms_id s = id /\ exists B O, out_ok (mg_config m) (mg_heap m) (others m id ++ held) s B O
}.

Lemma all_refs_insert ss id s :
  all_refs (<[id := s]> ss) ≡ₚ refs s ++ all_refs (delete id ss).
Proof.
  unfold all_refs. rewrite <- insert_delete_eq, map_to_list_insert by apply lookup_delete_eq. done.
Qed.

Lemma all_refs_split ss id s :
  ss !! id = Some s -> all_refs ss ≡ₚ refs s ++ all_refs (delete id ss).
Proof. intros Hs. rewrite <- all_refs_insert. by rewrite insert_id. Qed.

(** Replacing one session, with its heap and the references held outside. *)
Lemma mgr_out_session m m' held held' id s' B O :
  mgr_out m held -> mg_config m' = mg_config m ->
  mg_sessions m' = <[id := s']> (mg_sessions m) -> ms_id s' = id ->
  out_ok (mg_config m) (mg_heap m') (others m id ++ held') s' B O -> mgr_out m' held'.
Proof.
  intros [] Hc Hs Hid Hout.
  assert (HA : accounted (mg_heap m') (all_refs (mg_sessions m') ++ held')).
  { apply out_ok_acc in Hout. rewrite Hs, all_refs_insert. by rewrite <- app_assoc. }
  constructor; [by rewrite Hc|done|]. intros k sk Hk. rewrite Hc.
  assert (HAk : accounted (mg_heap m') (refs sk ++ others m' k ++ held')).
  { rewrite app_assoc. unfold others. by rewrite <- (all_refs_split _ _ _ Hk). }
  destruct (decide (k = id)) as [->|Hne].
  - rewrite Hs, lookup_insert_eq in Hk. injection Hk as <-. split; [done|]. exists B, O.
    by eapply out_ok_heap.
  - rewrite Hs, lookup_insert_ne in Hk by done. destruct (mo_session0 _ _ Hk) as (? & Bk & Ok & Houtk).
    split; [done|]. exists Bk, Ok. by eapply out_ok_heap.
Qed.

(** A step that leaves the output of every session alone. *)
Definition same_out (s s' : managedSession) : Prop :=
  ms_id s' = ms_id s /\ ms_history s' = ms_history s /\ ms_fanout s' = ms_fanout s.

Lemma out_ok_same c hp R s s' B O : same_out s s' -> out_ok c hp R s B O -> out_ok c hp R s' B O.
Proof. intros (_ & Hh & Hf) []. constructor; rewrite ?Hh, ?Hf; eauto. Qed.

Lemma mgr_out_quiet m m' held :
  mgr_out m held -> mg_config m' = mg_config m -> mg_sessions m' = mg_sessions m ->
  mg_heap m' = mg_heap m -> mgr_out m' held.
Proof.
  intros [] Hc Hs Hh. constructor; unfold others; rewrite ?Hc, ?Hs, ?Hh; done.
Qed.

Lemma mgr_out_same m m' held id s s' :
  mgr_out m held -> mg_sessions m !! id = Some s -> mg_config m' = mg_config m ->
  mg_sessions m' = <[id := s']> (mg_sessions m) -> mg_heap m' = mg_heap m -> same_out s s' ->
  mgr_out m' held.
Proof.
  intros Hm Hs Hc Hss Hh Hsame. pose proof Hm as []. destruct (mo_session0 _ _ Hs) as (Hid & B & O & Hout).
  eapply (mgr_out_session m m' held held id s' B O); try done.
  - destruct Hsame as [-> _]. done.
  - rewrite Hh. by eapply out_ok_same.
Qed.

(** ** Every step keeps the invariant *)

(** The step changes no output: at most one session is replaced, with the same output. *)
Definition quiet (m m' : Manager) : Prop :=
  mg_config m' = mg_config m /\ mg_heap m' = mg_heap m
  /\ (mg_sessions m' = mg_sessions m
      \/ exists id s s', mg_sessions m !! id = Some s /\ mg_sessions m' = <[id := s']> (mg_sessions m)
                         /\ same_out s s').

Lemma mgr_out_quiet_step m m' held : quiet m m' -> mgr_out m held -> mgr_out m' held.
Proof.
  intros (Hc & Hh & [Hs|(id & s & s' & Hs & Hss & Hsame)]) Hm;
    [by eapply mgr_out_quiet|by eapply mgr_out_same].
Qed.

Lemma same_out_transition s s' to : same_out s s' -> same_out s (transition_or_stay s' to).
Proof. intros H. unfold transition_or_stay. by destruct (Transition _ _). Qed.

Lemma same_out_start s s' db : same_out s s' -> same_out s (startOutputPersistence db s').
Proof. intros H. unfold startOutputPersistence. by destruct db. Qed.

Lemma same_out_process s s' p l e : same_out s s' -> same_out s (set_process s' p l e).
Proof. done. Qed.

Lemma ms_id_transition s to : ms_id (transition_or_stay s to) = ms_id s.
Proof. unfold transition_or_stay. by destruct (Transition _ _). Qed.

Lemma ms_id_start db s : ms_id (startOutputPersistence db s) = ms_id s.
Proof. unfold startOutputPersistence. by destruct db. Qed.

(** Closes a [quiet] goal: nothing stored, or one session stored under its own key. *)
Ltac quiet :=
  split_and!; [done|done|];
  first [by left
        |right; eexists _, _, _; split_and!;
         [eassumption
         |repeat (progress simpl || rewrite ms_id_transition || rewrite ms_id_start);
          rewrite ?insert_insert_eq; reflexivity
         |repeat (apply same_out_transition || apply same_out_start || apply same_out_process); by repeat split]].

Section Quiet.
Context (sha256 : list byte -> digest) `{J : JsonStrings}.

Lemma get_Some m sid s : get m sid = Ok s -> mg_sessions m !! sid = Some s.
Proof. unfold get. destruct (mg_sessions m !! sid); by intros [= ->]. Qed.

(** Splits the outcomes of a modelled call. *)
Ltac outcomes :=
  repeat match goal with
  | H : (match ?x with _ => _ end) = _ |- _ => destruct x eqn:?; simplify_eq
  | H : (if ?x then _ else _) = _ |- _ => destruct x eqn:?; simplify_eq
  end.

(** Each quiet call, for a session stored under its own key. *)
Context (m : Manager) (keys : forall id s, mg_sessions m !! id = Some s -> ms_id s = id).

Lemma Write_quiet put update now w sid key data m' r eff :
  Write sha256 put update now w m sid key data = (m', r, eff) -> quiet m m'.
Proof using keys.
  intros E. unfold Write, get in E. destruct (mg_sessions m !! sid) as [s|] eqn:Hs; [|simplify_eq; quiet].
  pose proof (keys _ _ Hs) as Hid.
  destruct (ms_process s) as [p|]; [|simplify_eq; quiet].
  destruct (ms_inputs s) as [j|]; [|simplify_eq; quiet].
  outcomes; subst; quiet.
Qed.

Lemma Resize_quiet fn failed sid aid d at_ m' r eff :
  Resize fn failed m sid aid d at_ = (m', r, eff) -> quiet m m'.
Proof using keys.
  intros E. unfold Resize, get in E. destruct (mg_sessions m !! sid) as [s|] eqn:Hs; [|simplify_eq; quiet].
  pose proof (keys _ _ Hs) as Hid. outcomes; subst; quiet.
Qed.

Lemma Close_quiet w sid m' r eff : Close w m sid = (m', r, eff) -> quiet m m'.
Proof using keys.
  intros E. unfold Close, get in E. destruct (kw_ctx w); [simplify_eq; quiet|].
  destruct (mg_sessions m !! sid) as [s|] eqn:Hs; [|simplify_eq; quiet].
  pose proof (keys _ _ Hs) as Hid. cbv zeta in E. outcomes; subst; quiet.
Qed.

Lemma finishClosing_quiet fn o sid p : quiet m (finishClosing fn o m sid p).
Proof using keys.
  unfold finishClosing. destruct (mg_sessions m !! sid) as [s|] eqn:Hs; [|quiet].
  pose proof (keys _ _ Hs) as Hid. case_decide; [quiet|]. destruct o; [|quiet].
  cbv zeta. destruct (Transition _ _); [|subst; quiet]. destruct (persist _ _ _ _). subst. quiet.
Qed.

Lemma Restart_quiet w sid m' r eff : Restart w m sid = (m', r, eff) -> quiet m m'.
Proof using keys.
  intros E. unfold Restart, get in E. destruct (mg_sessions m !! sid) as [s|] eqn:Hs; [|simplify_eq; quiet].
  pose proof (keys _ _ Hs) as Hid. cbv zeta in E. outcomes; subst; quiet.
Qed.

Lemma capture_end_quiet fn exit sid p : quiet m (capture_end fn exit m sid p).
Proof using keys.
  unfold capture_end. destruct (mg_sessions m !! sid) as [s|] eqn:Hs; [|quiet].
  pose proof (keys _ _ Hs) as Hid. cbv zeta. case_decide; [subst; quiet|]. case_decide; [|subst; quiet].
  destruct (persist _ _ _ _). subst. quiet.
Qed.

Lemma restore_state_quiet fn id original m' errs : restore_state fn m id original = (m', errs) -> quiet m m'.
Proof.
  intros E. unfold restore_state in E. destruct (get m id); [|simplify_eq; quiet].
  destruct (mg_store m) eqn:?; [|simplify_eq; quiet]. cbv zeta in E. outcomes; quiet.
Qed.
End Quiet.

(** A step that replaces the heap by one with the same references. *)
Lemma mgr_out_heap m m' held held' :
  mgr_out m held -> mg_config m' = mg_config m -> mg_sessions m' = mg_sessions m ->
  accounted (mg_heap m') (all_refs (mg_sessions m) ++ held') -> mgr_out m' held'.
Proof.
  intros [] Hc Hs HA. constructor; unfold others; rewrite ?Hc, ?Hs; [done|done|].
  intros id s Hid. destruct (mo_session0 _ _ Hid) as (? & B & O & Hout). split; [done|].
  exists B, O. eapply out_ok_heap; [exact Hout|].
  eapply accounted_perm; [|exact HA]. by rewrite (all_refs_split _ _ _ Hid), <- app_assoc.
Qed.

Lemma new_out_ok c hp R s h :
  config_ok c -> accounted hp R -> New (mc_HistoryBytes c) = Ok h ->
  ms_history s = h -> ms_fanout s = NewFanout -> out_ok c hp R s 0 [].
Proof.
  intros (Hb & _) HA Hn Hh Hf. unfold New in Hn. case_decide; [done|]. injection Hn as <-.
  constructor; rewrite ?Hh, ?Hf; simpl; try done.
  - split; [|simpl; lia]. constructor; simpl; try done; lia.
  - by exists [].
  - constructor; simpl; try done. split; [set_solver|constructor].
Qed.

(** Splits the outcomes of a modelled call. *)
Ltac outcomes :=
  repeat match goal with
  | H : (match ?x with _ => _ end) = _ |- _ => destruct x eqn:?; simplify_eq
  | H : (if ?x then _ else _) = _ |- _ => destruct x eqn:?; simplify_eq
  end.

Lemma draw_id_fresh n m id : forall random, draw_id n m random = Ok id -> mg_sessions m !! id = None.
Proof.
  induction n as [|n IH]; intros random; cbn [draw_id]; [done|].
  destruct (randomID random) as [[cand rest]|]; [|done].
  destruct (mg_sessions m !! cand) eqn:?; [apply IH|by intros [= <-]].
Qed.

Section Steps.
Context (sha256 : list byte -> digest) `{J : JsonStrings}.

Lemma Create_out w m held req m' r eff :
  mgr_out m held -> Create w m req = (m', r, eff) -> mgr_out m' held.
Proof.
  intros Hm E. unfold Create in E.
  destruct (negb _); [by simplify_eq|]. destruct (cw_ctx w); [by simplify_eq|].
  destruct (mg_stopping m) eqn:Hstop; [by simplify_eq|]. case_decide; [by simplify_eq|].
  destruct (mg_names m !! _); [by simplify_eq|].
  match type of E with context [match ?x with Ok _ => _ | Err _ => _ end] => destruct x as [id|] eqn:Hid end;
    [|by simplify_eq].
  destruct (New _) as [h|] eqn:Hnew; [|by simplify_eq]. cbv zeta in E.
  match type of E with context [match ?x with (_, _) => _ end] => destruct x as [db1 [u|e]] end;
    [|simplify_eq; eapply mgr_out_quiet_step; [|exact Hm]; quiet].
  destruct (cw_launch w) as [p|]; [|simplify_eq; eapply mgr_out_quiet_step; [|exact Hm]; quiet].
  destruct (Transition _ _) as [l|]; [|simplify_eq; eapply mgr_out_quiet_step; [|exact Hm]; quiet].
  destruct (persist _ _ _ _) as [db2 [u2|e2]];
    [|simplify_eq; eapply mgr_out_quiet_step; [|exact Hm]; quiet].
  injection E as <- <- <-.
  assert (Hfresh : mg_sessions m !! id = None).
  { revert Hid. case_decide; [|by apply draw_id_fresh].
    destruct (mg_sessions m !! _) eqn:?; [done|by intros [= <-]]. }
  eapply (mgr_out_session m _ held held id _ 0 []); try done.
  - by rewrite ms_id_start.
  - destruct Hm. eapply new_out_ok; [done| |exact Hnew| |].
    + unfold others. by rewrite delete_id.
    + by destruct (mg_store m).
    + by destruct (mg_store m).
Qed.

Lemma Delete_out f m held sid m' r :
  mgr_out m held -> Delete f m sid = (m', r) ->
  mgr_out m' (match r, mg_sessions m !! sid with
              | Ok _, Some s => fo_ring (ms_fanout s) ++ live (ms_history s) ++ held
              | _, _ => held end).
Proof.
  intros Hm E. unfold Delete, get in E. destruct (mg_sessions m !! sid) as [s|] eqn:Hs;
    [|by simplify_eq].
  cbv zeta in E. case_decide; [by simplify_eq|].
  destruct (match mg_store m with None => _ | Some _ => _ end) as [db [u|e]];
    [|simplify_eq; eapply mgr_out_quiet_step; [|exact Hm]; quiet].
  destruct (Transition _ _) as [l|]; [|simplify_eq; eapply mgr_out_quiet_step; [|exact Hm]; quiet].
  injection E as <- <-. pose proof Hm as [Hc HA Hss]. pose proof (all_refs_split _ _ _ Hs) as Hsp.
  assert (HA' : accounted (mg_heap m) (all_refs (delete sid (mg_sessions m))
                                       ++ fo_ring (ms_fanout s) ++ live (ms_history s) ++ held)).
  { eapply accounted_perm; [|exact HA]. rewrite Hsp. unfold refs. solve_Permutation. }
  constructor; simpl; try done. intros k sk. rewrite lookup_delete. case_decide as Hne; [done|]. intros Hk.
  destruct (Hss _ _ Hk) as (? & B & O & Hout). split; [done|]. exists B, O. eapply out_ok_heap; [exact Hout|].
  eapply accounted_perm; [|exact HA']. unfold others. simpl.
  rewrite (all_refs_split (delete sid (mg_sessions m)) k sk) by (by rewrite lookup_delete_ne).
  solve_Permutation.
Qed.
(** An operation on one session's output. *)
Lemma one_session_out m held held' sid s s' hp' B O db :
  mgr_out m held -> mg_sessions m !! sid = Some s -> ms_id s' = ms_id s ->
  out_ok (mg_config m) hp' (others m sid ++ held') s' B O ->
  mgr_out (put_heap (put_store (put_session m s') db) hp') held'.
Proof.
  intros Hm Hs Hid Hout. destruct (mo_session _ _ Hm _ _ Hs) as [Hsid _].
  eapply (mgr_out_session m _ held held' sid s' B O); try done; simpl; [|congruence].
  by rewrite Hid, Hsid.
Qed.

Lemma attachLocked_out m held sid s aid from hp' s' r :
  mgr_out m held -> mg_sessions m !! sid = Some s ->
  attachLocked (mg_config m) (mg_heap m) s aid from = (hp', s', r) ->
  ms_id s' = ms_id s /\ exists B O, out_ok (mg_config m) hp' (others m sid ++ held) s' B O.
Proof.
  intros Hm Hs E. destruct (mo_session _ _ Hm _ _ Hs) as (_ & B & O & Hout).
  pose proof (mo_config _ _ Hm) as Hc.
  destruct (decide (Count (ms_fanout s) < mc_MaxAttachments (mg_config m)
     /\ h_earliest (ms_history s) <= from <= h_latest (ms_history s)
     /\ (aid <> "" /\ (ac_state <$> fo_attachments (ms_fanout s) !! aid) <> Some Attached)))
    as [(H1 & H2 & H3)|Hno].
  - destruct (attachLocked_ok _ _ _ _ _ _ aid from Hc Hout H1 H2 H3)
      as (hp1 & f' & cur & new & E' & _ & _ & _ & _ & _ & Hout').
    rewrite E' in E. injection E as <- <- <-. eauto.
  - destruct (attachLocked_refused _ _ _ _ _ _ aid from Hc Hout Hno) as (hp1 & E' & Hout').
    rewrite E' in E. injection E as <- <- <-. eauto.
Qed.

Lemma capture_out pick cap m held sid data m' r :
  mgr_out m held -> data <> [] -> capture_read pick cap m sid data = (m', r) -> mgr_out m' held.
Proof.
  intros Hm Hd E. unfold capture_read in E. destruct (mg_sessions m !! sid) as [s|] eqn:Hs; [|by simplify_eq].
  destruct (mo_session _ _ Hm _ _ Hs) as (_ & B & O & Hout).
  destruct (capture_chunk _ _ _ _ _) as [[hp s'] x] eqn:Ec. injection E as <- <-.
  destruct (decide (h_latest (ms_history s) + len data < two64)) as [Hlt|Hge].
  - destruct (capture_chunk_ok pick cap _ _ _ _ _ _ data Hout Hd Hlt) as (hp1 & s1 & evs & e & E1 & _ & _ & Hout1 & _).
    assert (Hid : ms_id s' = ms_id s).
    { revert Ec. unfold capture_chunk. destruct (AppendBuffer _ _ _ _ _ _) as [[? ?] [?|?]]; [|by intros [= _ <- _]].
      destruct (PublishOwned _ _ _) as [[? ?] ?]. intros [= _ <- _]. unfold queueOutputPersistence. by destruct (ms_persistNotify _). }
    rewrite E1 in Ec. injection Ec as <- <- <-. by eapply (one_session_out m held held sid s).
  - destruct (capture_chunk_full pick cap _ _ _ _ _ _ data Hout Hd ltac:(lia)) as (hp1 & E1 & Hout1).
    rewrite E1 in Ec. injection Ec as <- <- <-. eapply (one_session_out m held held sid s); try done.
    by eapply out_ok_same; [|exact Hout1].
Qed.

Lemma flush_round_heap fb fa flt c m held sid s d hp' d' r :
  mgr_out m held -> c = mg_config m -> mg_sessions m !! sid = Some s ->
  flush_round fb fa flt c (mg_heap m) s d = (hp', d', r) ->
  accounted hp' (all_refs (mg_sessions m) ++ held).
Proof.
  intros Hm -> Hs E. pose proof Hm as [Hc HA _]. destruct (mo_session _ _ Hm _ _ Hs) as (_ & B & O & [Hwf _ _ _ _]).
  unfold flush_round in E. simpl in E. destruct (OutputBounds _ _ _) as [[? pl]|]; [|by simplify_eq].
  match type of E with context [let '(_, _) := ?x in _] => destruct x as [[d1 pl1] [e|]] eqn:Hadv end;
    [by simplify_eq|].
  case_decide as Hle; [by simplify_eq|].
  assert (Hpl : h_earliest (ms_history s) <= pl1).
  { case_decide; [|simplify_eq; lia]. destruct (AdvanceOutput _ _ _ _ _ _) as [? [?|?]]; simplify_eq; lia. }
  assert (HA' : accounted (mg_heap m) (live (ms_history s)
                  ++ fo_ring (ms_fanout s) ++ others m sid ++ held)).
  { eapply accounted_perm; [|exact HA]. rewrite (all_refs_split _ _ _ Hs). unfold refs, others. solve_Permutation. }
  destruct Hc as (Hb & _).
  destruct (ReplayOwned_spec (mg_heap m) _ pl1 (mc_HistoryBytes (mg_config m)) _ Hwf HA' ltac:(lia) ltac:(lia))
    as (hp1 & new & Er & _ & _ & _ & HA1).
  rewrite Er in E. destruct (append_all _ _ _ _ _ _) as [d2 x].
  assert (HA2 : accounted (ReleaseAll hp1 new) (all_refs (mg_sessions m) ++ held)).
  { eapply accounted_perm; [|exact (accounted_ReleaseAll _ _ _ HA1)].
    rewrite (all_refs_split _ _ _ Hs). unfold refs, others. solve_Permutation. }
  unfold Replay_Release in E. cbn [rp_Events] in E.
  destruct x; [match type of E with (if ?b then _ else _) = _ => destruct b end|]; by simplify_eq.
Qed.

Lemma Attach_out m held sid aid from m' r :
  mgr_out m held -> Attach m sid aid from = (m', r) -> mgr_out m' held.
Proof.
  intros Hm H. unfold Attach in H. destruct (get m sid) as [s|] eqn:Hg; [|by simplify_eq].
  apply get_Some in Hg. destruct (attachLocked _ _ _ _ _) as [[hp' s'] x] eqn:Ea. simplify_eq.
  destruct (attachLocked_out _ _ _ _ _ _ _ _ _ Hm Hg Ea) as (? & B & O & ?).
  by eapply (one_session_out m held held sid s s' hp' B O (mg_store m)).
Qed.

Lemma AttachLive_out m held sid aid m' r :
  mgr_out m held -> AttachLive m sid aid = (m', r) -> mgr_out m' held.
Proof.
  intros Hm H. unfold AttachLive in H. destruct (get m sid) as [s|] eqn:Hg; [|by simplify_eq].
  eapply (Attach_out m held sid aid (h_latest (ms_history s))); [done|]. unfold Attach. rewrite Hg. exact H.
Qed.

Lemma Detach_out m held sid aid m' r :
  mgr_out m held -> Detach m sid aid = (m', r) -> mgr_out m' held.
Proof.
  intros Hm H. unfold Detach in H. destruct (get m sid) as [s|] eqn:Hg; [|by simplify_eq].
  apply get_Some in Hg. destruct (mo_session _ _ Hm _ _ Hg) as (_ & B & O & Hout).
  destruct (Fanout.Detach _ _ _) as [[hp' f'] x] eqn:Ea. simplify_eq.
  eapply (one_session_out m held held sid s _ hp' B O (mg_store m)); try done. by eapply detach_ok.
Qed.

Lemma Next_out m held sid aid m' r :
  mgr_out m held -> Next m sid aid = (m', r) -> mgr_out m' held.
Proof.
  intros Hm H. unfold Next in H. destruct (get m sid) as [s|] eqn:Hg; [|by simplify_eq].
  apply get_Some in Hg. destruct (mo_session _ _ Hm _ _ Hg) as (_ & B & O & Hout).
  destruct (Fanout.Next _ _ _) as [[hp' f'] x] eqn:Ea. simplify_eq.
  eapply (one_session_out m held held sid s _ hp' B O (mg_store m)); try done. by eapply next_ok.
Qed.

Lemma WaitNext_out m held sid aid m' r :
  mgr_out m held -> WaitNext m sid aid = (m', r) ->
  mgr_out m' (match r with Some (Ok ev) => ev :: held | _ => held end).
Proof.
  intros Hm H. unfold WaitNext in H. destruct (get m sid) as [s|] eqn:Hg; [|by simplify_eq].
  apply get_Some in Hg. destruct (mo_session _ _ Hm _ _ Hg) as (_ & B & O & Hout).
  destruct (WaitNextOwned _ _ _) as [[hp' f'] x] eqn:Ea. simplify_eq.
  eapply (one_session_out m held _ sid s _ hp' B O (mg_store m)); try done. eapply wait_ok in Ea; [|exact Hout].
  destruct x as [[ev|]|]; try done. eapply out_ok_heap; [exact Ea|].
  eapply accounted_perm; [|exact (out_ok_acc _ _ _ _ _ _ Ea)]. simpl. solve_Permutation.
Qed.

Lemma Acknowledge_out m held sid aid n m' r :
  mgr_out m held -> 0 <= n -> Acknowledge m sid aid n = (m', r) -> mgr_out m' held.
Proof.
  intros Hm Hn H. unfold Acknowledge in H. destruct (get m sid) as [s|] eqn:Hg; [|by simplify_eq].
  apply get_Some in Hg. destruct (mo_session _ _ Hm _ _ Hg) as (_ & B & O & Hout).
  destruct (attached _ _); [|by simplify_eq].
  destruct (History.Acknowledge _ _ _) as [h|] eqn:Ea; [|by simplify_eq]. simplify_eq.
  eapply (one_session_out m held held sid s _ (mg_heap m) B O (mg_store m)); try done. by eapply ack_ok.
Qed.

Lemma Clear_out f now m held sid m' r :
  mgr_out m held -> Clear f now m sid = (m', r) -> mgr_out m' held.
Proof.
  intros Hm H. unfold Clear in H. destruct (get m sid) as [s|] eqn:Hg; [|by simplify_eq].
  apply get_Some in Hg. destruct (mo_session _ _ Hm _ _ Hg) as (_ & B & O & Hout). cbn [Bounds] in H.
  match type of H with context [let '(_, _) := ?x in _] => destruct x as [db [u|e]] end;
    [|simplify_eq; eapply mgr_out_quiet_step; [|exact Hm]; quiet].
  destruct (History.Clear _ _) as [[hp' h'] n] eqn:Ea. simplify_eq.
  eapply (one_session_out m held held sid s); try done. by eapply clear_ok.
Qed.

Lemma mgr_step_out x y : mgr_step sha256 x y -> mgr_out x.1 x.2 -> mgr_out y.1 y.2.
Proof.
  intros Hs Hm. assert (Hkeys : forall id s, mg_sessions x.1 !! id = Some s -> ms_id s = id)
    by (intros id s Hid; by destruct (mo_session _ _ Hm _ _ Hid)).
  destruct Hs; simpl in *;
    eauto using Create_out, Attach_out, AttachLive_out, Detach_out, Next_out, WaitNext_out,
      Acknowledge_out, Clear_out, Delete_out, capture_out.
  - eapply mgr_out_heap; [exact Hm|done|done|]. apply accounted_Release.
    eapply accounted_perm; [|exact (mo_heap _ _ Hm)]. solve_Permutation.
  - eapply mgr_out_quiet_step; [|exact Hm]. by eapply Write_quiet.
  - eapply mgr_out_quiet_step; [|exact Hm]. by eapply Resize_quiet.
  - eapply mgr_out_quiet_step; [|exact Hm]. by eapply Close_quiet.
  - eapply mgr_out_quiet_step; [|exact Hm]. by eapply finishClosing_quiet.
  - eapply mgr_out_quiet_step; [|exact Hm]. by eapply Restart_quiet.
  - eapply mgr_out_quiet_step; [|exact Hm]. by eapply capture_end_quiet.
  - eapply mgr_out_heap; [exact Hm|done|done|]. by eapply (flush_round_heap fb fa flt).
  - eapply mgr_out_quiet; [exact Hm|done..].
  - eapply mgr_out_quiet_step; [|exact Hm]. by eapply restore_state_quiet.
Qed.

End Steps.
