(* ===== verification/Recovery.v ===== *)
(** * Recovery of the sessions at startup ([Manager.recover], [NewManager])

    What a manager looks like right after it has been built from a store: every
    recovered session has ended, its history is exactly the stored output trimmed to the
    configured limit, and its input journal holds the stored decisions.  The theorems
    also say when recovery succeeds. *)

From S2P Require Import Prelude Config Lifecycle Buffers History Input Fanout Store Manager ManagerOutput.

(** ** One session *)

Lemma trim_total l cs : 0 <= l -> total (trim l cs) <= l.
Proof.
  intros Hl. induction cs as [|c cs IH]; cbn [trim]; [unfold total; simpl; lia|]. by case_decide.
Qed.

Lemma commit_ok {A} f db (r : result store_error (DB * A)) db' a :
  commit f db r = (db', Ok a) -> f = FNone /\ r = Ok (db', a).
Proof. destruct f, r as [[? ?]|]; simpl; intros [= <- <-]; done. Qed.

Lemma reading_ok {A} f (r : result store_error A) a : reading f r = Ok a -> f <> FBeforeCommit /\ r = Ok a.
Proof. unfold reading. by case_decide. Qed.

(** A successful trim, whatever its fault. *)
Lemma TrimOutput_ok_inv f db sid max db' E :
  db_ok db -> 0 <= max -> TrimOutput f db sid max = (db', Ok E) ->
  exists r, db_sessions db !! sid = Some r /\ db_ok db' /\ only_session sid db db'
    /\ db_sessions db' = <[sid := with_bounds r E (ss_LatestSequence (sr_session r))
                                   (ss_UpdatedAt (sr_session r))]> (db_sessions db)
    /\ chunk <$> stored_events db' sid = trim max (chunk <$> stored_events db sid)
    /\ contiguous E (stored_events db' sid) (ss_LatestSequence (sr_session r)) /\ 0 < max.
Proof.
  intros Hok Hm E1. assert (Hm0 : max <> 0).
  { intros ->. unfold TrimOutput in E1. by rewrite decide_True in E1. }
  assert (f = FNone) as ->.
  { unfold TrimOutput in E1. rewrite decide_False in E1 by done. by apply commit_ok in E1 as [-> _]. }
  destruct (db_sessions db !! sid) as [r|] eqn:Hr.
  - destruct (TrimOutput_spec db sid r max Hok Hr ltac:(lia)) as (db1 & E' & E2 & H). rewrite E2 in E1.
    injection E1 as <- <-. exists r. destruct H as (? & ? & ? & ? & ?). split_and!; try done. lia.
  - unfold TrimOutput, select_bounds in E1. by rewrite decide_False, Hr in E1.
Qed.

(** The history that [recover] builds from the trimmed store. *)
Lemma restored_history fr c d sid r E h evs earliest latest :
  config_ok c -> db_ok d -> db_sessions d !! sid = Some r -> E = ss_EarliestSequence (sr_session r) ->
  total (chunk <$> stored_events d sid) <= mc_HistoryBytes c ->
  Store.Replay fr d sid E 0 = Ok (evs, earliest, latest) ->
  History.Restore (mc_HistoryBytes c) earliest latest (to_event <$> evs) = Ok h ->
  wf h /\ h_maxBytes h = mc_HistoryBytes c /\ Forall (fun e => ev_owner e = None) (live h)
  /\ content (live h) = content (stored_events d sid)
  /\ h_earliest h = ss_EarliestSequence (sr_session r) /\ h_latest h = ss_LatestSequence (sr_session r)
  /\ h_acks h = ∅.
Proof.
  intros (Hb & _) Hok Hr -> Htot Hrep Hres. pose proof (do_sessions _ Hok _ _ Hr) as [_ _ Hck HL _ _ Hc].
  apply session_check_spec in Hck. pose proof two63_64. rewrite total_chunk in Htot.
  pose proof (contiguous_end _ _ _ Hc) as Hend.
  apply reading_ok in Hrep as [_ Hrep]. 
  destruct (Replay_spec d sid r (ss_EarliestSequence (sr_session r)) 0 Hok Hr) as (evs' & Hrep' & Hcg & Hco); [lia|done|].
  apply reading_ok in Hrep' as [_ Hrep']. rewrite Hrep' in Hrep. injection Hrep as <- <- <-.
  unfold replay_stop in Hcg, Hco. rewrite decide_False in Hcg, Hco by lia.
  rewrite Z.sub_diag, slice_all in Hco by lia.
  destruct (Restore_spec (mc_HistoryBytes c) (ss_EarliestSequence (sr_session r))
              (ss_LatestSequence (sr_session r)) (to_event <$> evs') ltac:(lia) ltac:(lia) ltac:(lia) Hcg)
    as (h' & Hres' & Hwf & Hlive & He & Hl & Hm & Hack & Hun); [rewrite Hco; lia|].
  rewrite Hres in Hres'. injection Hres' as <-. split_and!; try done.
  by rewrite Hlive, content_clone.
Qed.

(** The end of a session's stored output. *)
Definition stored_latest (d : DB) (sid : string) : option Z :=
  (fun r => ss_LatestSequence (sr_session r)) <$> db_sessions d !! sid.

(** A recovered session: ended, with the stored output. *)
Record recovered_ok (c : ManagerConfig) (d : DB) (s : managedSession) : Prop := {
  rk_state : lc_state (ms_lifecycle s) = Exited \/ lc_state (ms_lifecycle s) = Closed;
  rk_process : ms_process s = None /\ ms_liveProcess s = None /\ ms_persistNotify s = None;
  rk_fanout : ms_fanout s = NewFanout;
  rk_wf : wf (ms_history s) /\ h_maxBytes (ms_history s) = mc_HistoryBytes c;
  rk_unowned : Forall (fun e => ev_owner e = None) (live (ms_history s));
  rk_stored : exists r, db_sessions d !! ms_id s = Some r
    /\ content (live (ms_history s)) = content (stored_events d (ms_id s))
    /\ h_earliest (ms_history s) = ss_EarliestSequence (sr_session r)
    /\ h_latest (ms_history s) = ss_LatestSequence (sr_session r);
  rk_inputs : exists j, ms_inputs s = Some j /\ ij_current j = lc_generation (ms_lifecycle s)
}.

Lemma restore_inputs_current ds : forall j j', restore_inputs j ds = Ok j' -> ij_current j' = ij_current j.
Proof.
  induction ds as [|d ds IH]; intros j j'; cbn [restore_inputs]; [by intros [= <-]|].
  destruct (InputStatus_of_string _) as [st|]; [|done]. unfold Input.Restore.
  intros H. repeat case_match; simplify_eq; by apply IH in H.
Qed.

Lemma recovered_state_ends o st : recovered_state o = Some st -> st = Exited \/ st = Closed.
Proof. destruct o; simpl; intros [= <-]; auto. Qed.

Lemma recover_one_ok `{J : JsonStrings} w m d record d' s :
  config_ok (mg_config m) -> db_ok d -> recover_one w m d record = (d', Ok s) ->
  db_ok d' /\ only_session (ss_ID record) d d'
  /\ (forall a, a <> ss_ID record -> db_sessions d' !! a = db_sessions d !! a)
  /\ ms_id s = ss_ID record /\ ms_name s = ss_Name record
  /\ chunk <$> stored_events d' (ss_ID record)
     = trim (mc_HistoryBytes (mg_config m)) (chunk <$> stored_events d (ss_ID record))
  /\ stored_latest d' (ss_ID record) = stored_latest d (ss_ID record)
  /\ recovered_ok (mg_config m) d' s.
Proof.
  intros Hc Hok E. unfold recover_one in E. destruct (recovered_state _) as [st|] eqn:Hst; [|done].
  cbv zeta in E. set (rec := recovered_record _ _ _ _ _) in E.
  match type of E with context [let '(_, _) := ?x in _] => destruct x as [d1 [u|e]] eqn:Hupd end; [|done].
  assert (Hok1 : db_ok d1 /\ only_session (ss_ID record) d d1
                 /\ (forall a, a <> ss_ID record -> db_sessions d1 !! a = db_sessions d !! a)
                 /\ db_output d1 = db_output d
                 /\ stored_latest d1 (ss_ID record) = stored_latest d (ss_ID record)).
  { case_decide; [simplify_eq; split_and!; [done|apply only_session_refl|done..]|].
    split; [by eapply UpdateSession_preserves|]. unfold UpdateSession in Hupd. apply commit_ok in Hupd as [_ Hu].
    destruct (arg_ok _); [|done]. destruct (db_sessions d !! _) eqn:Hrow; [|done]. case_decide; [done|].
    cbv zeta in Hu. destruct (session_check _); [|done]. simplify_eq.
    split_and!; [by constructor| |done|].
    - intros a Ha. by apply lookup_insert_ne.
    - unfold stored_latest. simpl. by rewrite lookup_insert_eq, Hrow. }
  destruct Hok1 as (Hok1 & Ho1 & Hs1 & Hout1 & Hlat1).
  destruct (TrimOutput _ _ _ _) as [d2 [E'|e]] eqn:Htr; [|done]. injection E as <- E.
  pose proof Hc as (Hb & _). assert (Hb0 : 0 <= mc_HistoryBytes (mg_config m)) by lia.
  destruct (TrimOutput_ok_inv _ _ _ _ _ _ Hok1 Hb0 Htr) as (r & Hr & Hok2 & Ho2 & Hs2 & Hch & Hcg & _).
  destruct (Store.Replay _ _ _ _ _) as [[[evs earliest] latest]|] eqn:Hrep; [|done]. cbn [wrap] in E.
  destruct (History.Restore _ _ _ _) as [h|] eqn:Hres; [|done]. cbn [wrap] in E.
  destruct (RecoverLifecycle _ _) as [l|] eqn:Hl; [|done]. cbn [wrap] in E.
  destruct (InputDecisions _ _ _) as [ds|]; [|done]. cbn [wrap] in E.
  destruct (restore_inputs _ _) as [j|] eqn:Hj; [|done]. cbn [wrap] in E. injection E as <-.
  assert (Hr2 : db_sessions d2 !! ss_ID record = Some (with_bounds r E' (ss_LatestSequence (sr_session r))
                  (ss_UpdatedAt (sr_session r)))) by (by rewrite Hs2, lookup_insert_eq).
  assert (Hlc : lc_state l = st /\ lc_generation l = ss_Generation rec).
  { unfold RecoverLifecycle in Hl. case_decide; [done|]. by injection Hl as <-. }
  destruct (restored_history (vw_replay w (ss_ID record)) (mg_config m) d2 (ss_ID record) _ E' h evs earliest latest Hc Hok2 Hr2 eq_refl)
    as (Hwf & Hmax & Hun & Hco & Hear & Hlat & _); try done.
  { rewrite Hch. apply trim_total. lia. }
  split_and!; try done; [by eapply only_session_trans| | | |].
  { intros a Ha. rewrite Hs2, lookup_insert_ne by done. auto. }
  { rewrite Hch. unfold stored_events, stored. by rewrite Hout1. }
  { rewrite <- Hlat1. unfold stored_latest. by rewrite Hr2, Hr. }
  constructor; simpl; try done; eauto.
  - destruct Hlc as [-> _]. by eapply recovered_state_ends.
  - exists j. split; [done|]. rewrite (restore_inputs_current _ _ _ Hj). by destruct Hlc.
Qed.

(** ** All sessions *)

Record fresh_manager (d : DB) (m : Manager) : Prop := {
  fm_heap : mg_heap m = empty_heap;
  fm_sessions : forall id s, mg_sessions m !! id = Some s ->
    id <> "" /\ ms_id s = id /\ recovered_ok (mg_config m) d s;
  fm_names : forall id s, mg_sessions m !! id = Some s -> mg_names m !! ms_name s = Some id
}.

Lemma recovered_ok_other c d d' s id :
  recovered_ok c d s -> only_session id d d' -> ms_id s <> id ->
  db_sessions d' !! ms_id s = db_sessions d !! ms_id s -> recovered_ok c d' s.
Proof.
  intros [] Ho Hne Hs. constructor; try done. destruct rk_stored0 as (r & Hr & Hco & ? & ?).
  exists r. split_and!; try congruence. rewrite Hco. unfold stored_events, stored.
  by rewrite (rows_other (db_output d') (db_output d)) by (intros s'; by apply Ho).
Qed.

Lemma recover_all_ok `{J : JsonStrings} w records : forall m d d' m',
  config_ok (mg_config m) -> db_ok d -> fresh_manager d m ->
  Forall (fun r => ss_ID r <> "") records ->
  recover_all w m d records = (d', Ok m') ->
  db_ok d' /\ fresh_manager d' m' /\ mg_config m' = mg_config m /\ mg_store m' = Some d'
  /\ mg_stopping m' = mg_stopping m
  /\ forall id, is_Some (mg_sessions m' !! id) <-> is_Some (mg_sessions m !! id) \/ id ∈ ss_ID <$> records.
Proof.
  induction records as [|record records IH]; intros m d d' m' Hc Hok Hf Hne; cbn [recover_all].
  - intros [= <- <-]. destruct Hf. split_and!; [done|by constructor|done..|]. intros id. simpl. split; [by left|]. intros [?|[]%not_elem_of_nil]; done.
  - destruct (recover_one w m d record) as [d1 [s|e]] eqn:E1; [|done]. case_decide as Hdup; [done|].
    apply Forall_cons in Hne as [Hid Hne]. apply Decidable.not_or in Hdup as [Hfresh Hname].
    apply eq_None_not_Some in Hfresh.
    destruct (recover_one_ok _ _ _ _ _ _ Hc Hok E1) as (Hok1 & Ho1 & Hs1 & Hsid & Hsn & _ & _ & Hrk).
    intros E2. apply IH in E2; try done.
    + destruct E2 as (? & ? & ? & ? & ? & Hids). split_and!; try done.
      intros id. rewrite Hids. simpl. rewrite lookup_insert_is_Some, elem_of_cons.
      destruct (decide (ss_ID record = id)); naive_solver.
    + destruct Hf. constructor; simpl; [done| |].
      * intros id t. rewrite lookup_insert. case_decide as Ek; [intros [= <-]; by subst|].
        intros Ht. destruct (fm_sessions0 _ _ Ht) as (? & Htid & Htrk). split_and!; [done..|].
        apply (recovered_ok_other _ d _ _ (ss_ID record)); try done; rewrite Htid; [congruence|].
        apply Hs1. congruence.
      * intros id t. rewrite !lookup_insert. case_decide as Ek.
        -- intros [= <-]. subst. by rewrite Hsn, decide_True.
        -- intros Ht. rewrite decide_False; [by apply fm_names0|]. intros Hn. apply Hname.
           rewrite Hn, (fm_names0 _ _ Ht). simpl. by destruct (fm_sessions0 _ _ Ht).
Qed.

Lemma fresh_mgr_out d m : config_ok (mg_config m) -> fresh_manager d m -> mgr_out m [].
Proof.
  intros Hc [Hh Hs _].
  assert (Hun : forall ss, (forall id s, ss !! id = Some s -> mg_sessions m !! id = Some s) ->
                  Forall (fun e => ev_owner e = None) (all_refs ss)).
  { intros ss Hsub. apply Forall_forall. intros e He. unfold all_refs in He.
    apply list_elem_of_join in He as (l & He & Hl).
    apply list_elem_of_fmap in Hl as (s & -> & Hl). apply list_elem_of_fmap in Hl as ([id s'] & -> & Hl).
    apply elem_of_map_to_list, Hsub, Hs in Hl as (_ & _ & []). simpl in He. unfold refs in He.
    rewrite rk_fanout0 in He. simpl in He. rewrite Forall_forall in rk_unowned0. by apply rk_unowned0. }
  assert (HA : forall R, Forall (fun e => ev_owner e = None) R -> accounted empty_heap R).
  { intros R HR. rewrite <- (app_nil_r R). apply accounted_unowned; [done|apply accounted_empty]. }
  constructor; [done| |].
  - rewrite Hh, app_nil_r. apply HA, Hun. auto.
  - intros id s Hid. destruct (Hs _ _ Hid) as (_ & Hsid & []). split; [done|].
    exists (h_earliest (ms_history s)), (live (ms_history s)). destruct rk_wf0 as [Hwf Hm].
    pose proof Hwf as [[] _]. constructor; try done; [by exists []| |by rewrite rk_fanout0].
    rewrite Hh, rk_fanout0. constructor; simpl; try done; [split; [set_solver|constructor]|].
    apply HA, Forall_app. split; [done|]. apply Forall_app. split; [|done].
    apply Hun. intros k t. rewrite lookup_delete. by case_decide.
Qed.

(** What [scanSession] keeps of a row. *)
Definition scanned `{J : JsonStrings} (r : session_row) (s : Session) : Prop :=
  ss_ID s = ss_ID (sr_session r) /\ ss_Name s = ss_Name (sr_session r)
  /\ ss_State s = ss_State (sr_session r) /\ ss_Generation s = ss_Generation (sr_session r)
  /\ ss_Columns s = ss_Columns (sr_session r) /\ ss_Rows s = ss_Rows (sr_session r)
  /\ json_Unmarshal (sr_args r) = Some (ss_CommandArgs s)
  /\ json_Unmarshal (sr_env r) = Some (ss_CommandEnv s).

Lemma scan_all_spec `{J : JsonStrings} rows : forall ss, scan_all rows = Ok ss -> Forall2 scanned rows ss.
Proof.
  induction rows as [|r rows IH]; intros ss; cbn [scan_all]; [intros [= <-]; constructor|].
  unfold scanSession. destruct (json_Unmarshal (sr_args r)) eqn:Ha; [|done].
  destruct (json_Unmarshal (sr_env r)) eqn:He; [|done].
  destruct (scan_all rows); [|done]. intros [= <-]. constructor; [|auto]. by repeat split.
Qed.

Lemma Sessions_ids `{J : JsonStrings} f d ss :
  db_ok d -> Sessions f d = Ok ss ->
  Forall (fun s => exists r, db_sessions d !! ss_ID s = Some r /\ scanned r s) ss
  /\ (forall id, id ∈ ss_ID <$> ss <-> is_Some (db_sessions d !! id)).
Proof.
  intros Hok Hs. apply reading_ok in Hs as [_ Hs]. apply scan_all_spec in Hs.
  assert (Hrow : forall r, r ∈ merge_sort name_le ((map_to_list (db_sessions d)).*2) <->
                   exists id, db_sessions d !! id = Some r /\ ss_ID (sr_session r) = id).
  { intros r. rewrite merge_sort_Permutation, list_elem_of_fmap. split.
    - intros ([id r'] & -> & Hr%elem_of_map_to_list). exists id. split; [done|]. by destruct (do_sessions _ Hok _ _ Hr).
    - intros (id & Hr & _). exists (id, r). split; [done|by apply elem_of_map_to_list]. }
  split.
  - apply Forall_forall. intros s Hin. apply list_elem_of_lookup in Hin as [i Hi].
    destruct (Forall2_lookup_r _ _ _ _ _ Hs Hi) as (r & Hri & Hsc). exists r. split; [|done].
    assert (Hin : r ∈ merge_sort name_le ((map_to_list (db_sessions d)).*2)) by (apply list_elem_of_lookup; eauto).
    apply Hrow in Hin as (id & Hr & <-). by destruct Hsc as (-> & _).
  - intros id. rewrite list_elem_of_fmap. split.
    + intros (s & -> & Hin). apply list_elem_of_lookup in Hin as [i Hi].
      destruct (Forall2_lookup_r _ _ _ _ _ Hs Hi) as (r & Hri & (-> & _)).
      assert (Hin : r ∈ merge_sort name_le ((map_to_list (db_sessions d)).*2)) by (apply list_elem_of_lookup; eauto).
      apply Hrow in Hin as (id & Hr & <-). eauto.
    + intros [r Hr]. assert (Hin : r ∈ merge_sort name_le ((map_to_list (db_sessions d)).*2)).
      { apply Hrow. exists id. split; [done|]. by destruct (do_sessions _ Hok _ _ Hr). }
      apply list_elem_of_lookup in Hin as [i Hi]. destruct (Forall2_lookup_l _ _ _ _ _ Hs Hi) as (s & Hsi & (He & _)).
      exists s. split; [|apply list_elem_of_lookup; eauto]. rewrite He. by destruct (do_sessions _ Hok _ _ Hr).
Qed.

Definition config_u64 (c : ManagerConfig) : Prop :=
  0 <= mc_HistoryBytes c < two64 /\ 0 <= mc_AttachmentBytes c < two64.

Lemma manager_config_ok ln c c' : config_u64 c -> manager_config ln c = Ok c' -> config_ok c'.
Proof.
  intros [Hh Ha]. unfold manager_config. destruct ln; [done|]. case_decide as Hd; [done|]. intros [= <-].
  cbn [mc_HistoryBytes mc_AttachmentBytes mc_MaxAttachments] in *. unfold config_ok.
  cbn [mc_HistoryBytes mc_AttachmentBytes mc_MaxAttachments].
  assert (Hdef : forall v d, 0 <= v < two64 -> 0 <= d < two64 -> or_default v d < two64)
    by (intros v d; unfold or_default; destruct (decide (v = 0)); lia).
  pose proof (Hdef (mc_HistoryBytes c) (HistoryBytes DefaultResources) Hh ltac:(done)).
  pose proof (Hdef (mc_AttachmentBytes c) (Z.shiftl 1 20) Ha ltac:(done)).
  repeat (apply Decidable.not_or in Hd as [? Hd]). split_and!; first [assumption|by apply Z.nlt_ge].
Qed.

Lemma NewManager_ok `{J : JsonStrings} w ln c db db' m :
  config_u64 c -> (forall d, db = Some d -> db_ok d) -> NewManager w ln c db = (db', Ok m) ->
  config_ok (mg_config m) /\ mgr_out m [] /\ mg_store m = db' /\ mg_stopping m = false
  /\ (forall d, db' = Some d -> db_ok d /\ fresh_manager d m).
Proof.
  intros Hu Hdb E. unfold NewManager in E. destruct (manager_config ln c) as [c'|] eqn:Hc; [|done].
  pose proof (manager_config_ok _ _ _ Hu Hc) as Hok. cbv zeta in E. set (m0 := mkManager c' ∅ ∅ false db empty_heap) in E.
  destruct db as [d|].
  - destruct (recover w m0 d) as [d' [m'|e]] eqn:Hr; [|done]. injection E as <- <-.
    unfold recover in Hr. destruct (Sessions _ _) as [records|] eqn:Hs; [|done].
    destruct (Sessions_ids _ _ _ (Hdb d eq_refl) Hs) as [Hrec _].
    apply recover_all_ok in Hr as (Hok' & Hf & Hc' & Hst & Hstop & _); try done; try (by apply Hdb).
    + rewrite Hc'. split_and!; try done.
      * eapply fresh_mgr_out; [by rewrite Hc'|exact Hf].
      * intros d2 [= <-]. done.
    + eapply Forall_impl; [exact Hrec|]. intros s (r & Hrow & _). by destruct (do_sessions _ (Hdb d eq_refl) _ _ Hrow).
  - injection E as <- <-. split_and!; try done. apply (fresh_mgr_out empty_DB); [done|].
    constructor; simpl; [done|intros id s; by rewrite lookup_empty|intros id s; by rewrite lookup_empty].
Qed.

(** ** When recovery succeeds *)

Definition no_faults (w : recover_world) : Prop :=
  vw_sessions w = FNone /\ (forall id, (vw_update w id).1 = FNone /\ vw_trim w id = FNone
                                       /\ vw_replay w id = FNone /\ vw_inputs w id = FNone).

(** A stored decision that [InputJournal.Restore] accepts. *)
Definition valid_input (d : StoredInput) : Prop :=
  len (si_Hash d) = sha256_Size /\ si_ClientID d <> "" /\ si_AttachmentID d <> "" /\ si_InputID d <> ""
  /\ si_Generation d <> 0
  /\ (si_Status d = "accepted" \/ si_Status d = "rejected" \/ si_Status d = "uncertain").

Definition inputs_of (d : DB) (sid : string) : list StoredInput :=
  (map_to_list (filter (fun kr => kr.1.1.1.1.1 = sid) (db_inputs d))).*2.

Record recoverable_row `{J : JsonStrings} (c : ManagerConfig) (d : DB) (sid : string) (r : session_row)
    : Prop := {
  rr_args : is_Some (json_Unmarshal (sr_args r)) /\ is_Some (json_Unmarshal (sr_env r));
  rr_state : exists st, recovered_state (State_of_string (ss_State (sr_session r))) = Some st
                        /\ (st = Exited -> ss_Generation (sr_session r) <> 0);
  rr_inputs : Forall valid_input (inputs_of d sid) /\ len (inputs_of d sid) <= mc_MaxInputDecisions c
}.

Definition journal_key (d : StoredInput) : InputKey :=
  mkKey (si_ClientID d) (si_AttachmentID d) (si_Generation d) (si_InputID d).

Lemma restore_inputs_total ds : forall j,
  Forall valid_input ds -> NoDup (journal_key <$> ds) ->
  (forall k, k ∈ journal_key <$> ds -> ij_decisions j !! k = None) ->
  Z.of_nat (size (ij_decisions j)) + len ds <= ij_max j ->
  exists j', restore_inputs j ds = Ok j'.
Proof.
  induction ds as [|d ds IH]; intros j Hv Hnd Hfr Hsz; cbn [restore_inputs]; [eauto|].
  apply Forall_cons in Hv as [(Hh & Hc & Ha & Hi & Hg & Hst) Hv].
  rewrite fmap_cons in Hnd. apply NoDup_cons in Hnd as [Hni Hnd].
  assert (exists st, InputStatus_of_string (si_Status d) = Some st
                     /\ ~ (st <> InputAccepted /\ st <> InputRejected /\ st <> InputUncertain)) as (st & -> & Hst').
  { destruct Hst as [->|[->| ->]]; vm_compute; eexists; (split; [reflexivity|]); tauto. }
  unfold Input.Restore. rewrite decide_False by (simpl; tauto). rewrite (decide_False _ _ Hst').
  fold (journal_key d). rewrite (Hfr (journal_key d)) by (rewrite fmap_cons; set_solver).
  simpl in Hsz. rewrite decide_False by lia. apply IH; try done.
  - intros k Hk. simpl. rewrite lookup_insert_ne by (intros <-; done). apply Hfr. rewrite fmap_cons. set_solver.
  - simpl. rewrite map_size_insert_None; [lia|]. apply Hfr. rewrite fmap_cons. set_solver.
Qed.

Lemma inputs_of_keys d sid : db_ok d -> NoDup (journal_key <$> inputs_of d sid).
Proof.
  intros Hok. unfold inputs_of. rewrite <- list_fmap_compose.
  apply NoDup_fmap_2_strong; [|apply NoDup_map_to_list].
  intros [k1 d1] [k2 d2] [H1 Hk1]%elem_of_map_to_list%map_lookup_filter_Some
    [H2 Hk2]%elem_of_map_to_list%map_lookup_filter_Some E.
  destruct (do_inputs _ Hok _ _ H1) as [<- _], (do_inputs _ Hok _ _ H2) as [<- _].
  unfold journal_key in E. simpl in *. injection E as E1 E2 E3 E4.
  assert (Hkey : input_key_of d1 = input_key_of d2)
    by (unfold input_key_of; congruence).
  f_equal; [done|]. rewrite Hkey in H1. congruence.
Qed.

Lemma State_string_of s : State_string (State_of_string s) = s.
Proof. unfold State_of_string. repeat case_decide; by subst. Qed.

Lemma RecoverLifecycle_ok st g :
  st = Exited \/ st = Closed -> (st = Exited -> g <> 0) -> RecoverLifecycle st g = Ok (mkLifecycle st g).
Proof.
  intros Hst Hg. unfold RecoverLifecycle. rewrite decide_False; [done|].
  destruct Hst as [-> | ->]; simpl; naive_solver.
Qed.

(** The first part of [recover_one]: the recovered state is written back. *)
Lemma recover_update_total w c d id r record st :
  db_ok d -> db_sessions d !! id = Some r -> (vw_update w id).1 = FNone ->
  ss_State record = ss_State (sr_session r) -> ss_Generation record = ss_Generation (sr_session r) ->
  ss_Columns record = ss_Columns (sr_session r) -> ss_Rows record = ss_Rows (sr_session r) ->
  ss_Generation (sr_session r) < two63 ->
  let o := State_of_string (ss_State record) in
  exists d1 r1,
    (if decide (st = o) then (d, Ok tt)
     else UpdateSession (vw_update w id).1 (vw_update w id).2 d id (State_string o)
            (recovered_record c (vw_now w) record o st)) = (d1, Ok tt)
    /\ db_ok d1 /\ db_sessions d1 !! id = Some r1 /\ db_inputs d1 = db_inputs d.
Proof.
  intros Hok Hr Hf Hst Hg Hc Hrw Hlt o. case_decide as Heq; [by exists d, r|].
  destruct (UpdateSession _ _ d id (State_string o) (recovered_record c (vw_now w) record o st)) as [d1 x] eqn:E.
  pose proof (UpdateSession_preserves _ _ _ _ _ _ _ _ Hok E) as Hok1. unfold UpdateSession in E.
  cbn [ss_Generation ss_Columns ss_Rows recovered_record] in E.
  rewrite arg_ok_true in E by lia. rewrite Hr in E.
  rewrite decide_False in E by (unfold o; rewrite State_string_of, Hst; tauto).
  destruct (do_sessions _ Hok _ _ Hr) as [_ _ Hck _ _ _ _]. cbv zeta in E.
  match type of E with context [session_check ?s] => assert (session_check s = true) as Hck' end.
  { apply session_check_spec. apply session_check_spec in Hck. simpl. rewrite Hc, Hrw, Hg. lia. }
  rewrite Hck', Hf in E. simpl in E. injection E as <- <-. eexists _, _. split_and!; [done|done| |done].
  simpl. by rewrite lookup_insert_eq.
Qed.

Lemma recover_one_total `{J : JsonStrings} w m d r record :
  config_ok (mg_config m) -> db_ok d -> no_faults w -> db_sessions d !! ss_ID record = Some r ->
  scanned r record -> recoverable_row (mg_config m) d (ss_ID record) r ->
  exists d' s st, recover_one w m d record = (d', Ok s)
    /\ recovered_state (State_of_string (ss_State (sr_session r))) = Some st
    /\ ms_lifecycle s = mkLifecycle st (ss_Generation (sr_session r)).
Proof.
  intros Hc Hok (_ & Hnf) Hr (_ & _ & Hst & Hg & Hcol & Hrow & _) [_ (st & Hrs & Hgen) [Hin Hlen]].
  assert (Hlt : ss_Generation (sr_session r) < two63) by (by destruct (do_sessions _ Hok _ _ Hr)).
  pose proof Hc as (Hb & _). destruct (Hnf (ss_ID record)) as (Hf1 & Hf2 & Hf3 & Hf4).
  unfold recover_one. rewrite Hst, Hrs. rewrite <- Hst. cbv zeta.
  destruct (recover_update_total w (mg_config m) d (ss_ID record) r record st Hok Hr Hf1 Hst Hg Hcol Hrow Hlt)
    as (d1 & r1 & E1 & Hok1 & Hr1 & Hi1).
  rewrite E1, Hf2, Hf3, Hf4.
  destruct (TrimOutput_spec d1 (ss_ID record) r1 (mc_HistoryBytes (mg_config m)) Hok1 Hr1 ltac:(lia))
    as (d2 & E' & E2 & Hok2 & Ho2 & Hs2 & Hch & Hcg). rewrite E2.
  set (r2 := with_bounds r1 E' (ss_LatestSequence (sr_session r1)) (ss_UpdatedAt (sr_session r1))) in Hs2.
  assert (Hr2 : db_sessions d2 !! ss_ID record = Some r2) by (by rewrite Hs2, lookup_insert_eq).
  pose proof (do_sessions _ Hok2 _ _ Hr2) as [_ _ Hck HL _ _ _]. apply session_check_spec in Hck.
  pose proof two63_64. simpl in Hck, HL.
  destruct (Replay_spec d2 (ss_ID record) r2 E' 0 Hok2 Hr2) as (evs & E3 & Hcg3 & Hco3); [simpl; lia|done|].
  simpl in E3, Hcg3, Hco3. rewrite E3. cbn [wrap].
  unfold replay_stop in Hcg3, Hco3. rewrite decide_False in Hcg3, Hco3 by lia.
  destruct (Restore_spec (mc_HistoryBytes (mg_config m)) E' (ss_LatestSequence (sr_session r1)) (to_event <$> evs)
              ltac:(lia) ltac:(lia) ltac:(lia) Hcg3) as (h & Hres & _).
  { rewrite Hco3, Z.sub_diag, slice_all by (apply contiguous_end in Hcg; lia).
    rewrite <- total_chunk, Hch. apply trim_total. lia. }
  rewrite Hres. cbn [wrap].
  rewrite RecoverLifecycle_ok; [|by eapply recovered_state_ends|simpl; by rewrite Hg]. cbn [wrap].
  unfold InputDecisions, reading. rewrite decide_False by done. cbn [wrap].
  assert (Hperm : merge_sort input_le (inputs_of d2 (ss_ID record)) ≡ₚ inputs_of d (ss_ID record)).
  { rewrite merge_sort_Permutation. unfold inputs_of. by rewrite (oo_inputs _ _ _ Ho2), Hi1. }
  destruct (restore_inputs_total (merge_sort input_le (inputs_of d2 (ss_ID record)))
              (NewBoundedInputJournal (ss_Generation record) (mc_MaxInputDecisions (mg_config m))))
    as [j Hj]; try (by rewrite Hperm); try (intros; apply lookup_empty).
  { rewrite Hperm. by apply inputs_of_keys. }
  unfold inputs_of in Hj. cbn [ss_Generation recovered_record]. rewrite Hj. cbn [wrap]. eexists _, _, st. split; [reflexivity|].
  split; [congruence|]. simpl. by rewrite Hg.
Qed.

Lemma stored_other id d d' a : only_session id d d' -> a <> id -> stored_events d' a = stored_events d a.
Proof.
  intros Ho Hne. unfold stored_events, stored. f_equal. apply rows_other. intros s. by apply Ho.
Qed.

(** What is known of a record before its turn in the loop. *)
Definition pending `{J : JsonStrings} (m : Manager) (d : DB) (s : Session) : Prop :=
  exists r, db_sessions d !! ss_ID s = Some r /\ scanned r s /\ recoverable_row (mg_config m) d (ss_ID s) r
    /\ mg_sessions m !! ss_ID s = None /\ mg_names m !! ss_Name s = None.

Lemma recover_all_total `{J : JsonStrings} w records : forall m d,
  config_ok (mg_config m) -> db_ok d -> no_faults w ->
  NoDup (ss_ID <$> records) -> NoDup (ss_Name <$> records) -> Forall (pending m d) records ->
  exists d' m', recover_all w m d records = (d', Ok m')
    /\ (forall id t, mg_sessions m !! id = Some t -> id ∉ ss_ID <$> records -> mg_sessions m' !! id = Some t)
    /\ (forall id, id ∉ ss_ID <$> records ->
          stored_events d' id = stored_events d id /\ db_sessions d' !! id = db_sessions d !! id)
    /\ Forall (fun s => exists t st,
         mg_sessions m' !! ss_ID s = Some t
         /\ recovered_state (State_of_string (ss_State s)) = Some st
         /\ ms_lifecycle t = mkLifecycle st (ss_Generation s)
         /\ chunk <$> stored_events d' (ss_ID s)
            = trim (mc_HistoryBytes (mg_config m)) (chunk <$> stored_events d (ss_ID s))
         /\ stored_latest d' (ss_ID s) = stored_latest d (ss_ID s)) records.
Proof.
  induction records as [|record records IH]; intros m d Hc Hok Hnf Hid Hnm Hp; cbn [recover_all].
  - by exists d, (put_store m (Some d)).
  - rewrite fmap_cons in Hid, Hnm. apply NoDup_cons in Hid as [Hi Hid], Hnm as [Hn Hnm].
    apply Forall_cons in Hp as [(r & Hr & Hsc & Hrr & Hfs & Hfn) Hp].
    destruct (recover_one_total w m d r record Hc Hok Hnf Hr Hsc Hrr) as (d1 & s & st & E1 & Hst & Hlc).
    destruct (recover_one_ok _ _ _ _ _ _ Hc Hok E1) as (Hok1 & Ho1 & Hs1 & Hsid & Hsn & Hch1 & Hla1 & Hrk).
    rewrite E1. rewrite decide_False by (rewrite Hfs, Hfn; intros [[? ?]|?]; done).
    set (m1 := mkManager _ _ _ _ _ _).
    assert (Hp1 : Forall (pending m1 d1) records).
    { rewrite Forall_forall in *. intros s' Hs'. destruct (Hp s' Hs') as (r' & Hr' & Hsc' & [] & Hfs' & Hfn').
      assert (ss_ID s' <> ss_ID record) by (intros E; apply Hi; rewrite <- E; by apply list_elem_of_fmap_2).
      assert (ss_Name s' <> ss_Name record) by (intros E; apply Hn; rewrite <- E; by apply list_elem_of_fmap_2).
      exists r'. split_and!; try done; [by rewrite Hs1|constructor; try done| |].
      - unfold inputs_of. by rewrite (oo_inputs _ _ _ Ho1).
      - simpl. by rewrite lookup_insert_ne by congruence.
      - simpl. by rewrite lookup_insert_ne by congruence. }
    destruct (IH m1 d1) as (d' & m' & E2 & Hkeep & Hout & Hall); try done.
    destruct Hsc as (_ & _ & HscS & HscG & _).
    exists d', m'. split_and!; [exact E2| | |constructor].
    + intros id t Ht Hnin. apply not_elem_of_cons in Hnin as [Hne Hnin].
      apply Hkeep; [|done]. simpl. by rewrite lookup_insert_ne.
    + intros id Hnin. apply not_elem_of_cons in Hnin as [Hne Hnin]. destruct (Hout id Hnin) as [-> ->].
      split; [by eapply stored_other|by apply Hs1].
    + destruct (Hout (ss_ID record) Hi) as [Ho' Hr'].
      exists s, st. split_and!; [|congruence|congruence|by rewrite Ho'|by rewrite <- Hla1; unfold stored_latest; rewrite Hr'].
      apply Hkeep; [|done]. simpl. by rewrite lookup_insert_eq.
    + rewrite Forall_forall in *. intros s' Hs'. destruct (Hall s' Hs') as (t & st' & ? & ? & ? & Hch' & Hla').
      assert (Hne : ss_ID s' <> ss_ID record) by (intros E; apply Hi; rewrite <- E; by apply list_elem_of_fmap_2).
      exists t, st'. split_and!; try done.
      * rewrite Hch'. f_equal. f_equal. by eapply stored_other.
      * rewrite Hla'. unfold stored_latest. by rewrite Hs1.
Qed.

Lemma Sessions_nodup `{J : JsonStrings} f d ss :
  db_ok d -> Sessions f d = Ok ss -> NoDup (ss_ID <$> ss) /\ NoDup (ss_Name <$> ss).
Proof.
  intros Hok Hs. apply reading_ok in Hs as [_ Hs]. set (rows := merge_sort name_le _) in Hs.
  assert (Hnd : NoDup ((ss_ID ∘ sr_session) <$> rows) /\ NoDup ((ss_Name ∘ sr_session) <$> rows)).
  { unfold rows. rewrite merge_sort_Permutation, <- !list_fmap_compose.
    split; (apply NoDup_fmap_2_strong; [|apply NoDup_map_to_list]);
      intros [k1 r1] [k2 r2] H1%elem_of_map_to_list H2%elem_of_map_to_list E; simpl in E.
    - destruct (do_sessions _ Hok _ _ H1) as [E1 _ _ _ _ _ _], (do_sessions _ Hok _ _ H2) as [E2 _ _ _ _ _ _].
      assert (k1 = k2) as -> by congruence. congruence.
    - assert (k1 = k2) as -> by (eapply do_names; eauto). congruence. }
  apply scan_all_spec in Hs.
  assert (ss_ID <$> ss = (ss_ID ∘ sr_session) <$> rows /\ ss_Name <$> ss = (ss_Name ∘ sr_session) <$> rows) as [-> ->].
  { clear -Hs. induction Hs as [|r s rows ss (Hi & Hn & _) _ [IH1 IH2]]; [done|].
    rewrite !fmap_cons, IH1, IH2. simpl. by rewrite Hi, Hn. }
  done.
Qed.

Lemma Sessions_total `{J : JsonStrings} d c :
  (forall id r, db_sessions d !! id = Some r -> recoverable_row c d id r) ->
  exists ss, Sessions FNone d = Ok ss.
Proof.
  intros Hrr. unfold Sessions, reading. rewrite decide_False by done.
  assert (Hrow : forall r, r ∈ merge_sort name_le (map_to_list (db_sessions d)).*2 -> exists id, db_sessions d !! id = Some r).
  { intros r. rewrite merge_sort_Permutation, list_elem_of_fmap.
    intros ([id r'] & -> & Hr%elem_of_map_to_list). eauto. }
  induction (merge_sort name_le (map_to_list (db_sessions d)).*2) as [|r rows IH]; cbn [scan_all]; [eauto|].
  destruct IH as [ss ->]; [intros r' Hr'; apply Hrow; set_solver|].
  destruct (Hrow r ltac:(set_solver)) as [id Hid]. destruct (Hrr _ _ Hid) as [[[? Ha] [? He]] _ _].
  unfold scanSession. rewrite Ha, He. eauto.
Qed.

(** ** Recovery fails on a row that is not recoverable *)

Lemma restore_inputs_inv ds : forall j j',
  restore_inputs j ds = Ok j' -> Z.of_nat (size (ij_decisions j)) <= ij_max j ->
  Forall valid_input ds /\ Z.of_nat (size (ij_decisions j)) + len ds <= ij_max j.
Proof.
  induction ds as [|d ds IH]; intros j j'; cbn [restore_inputs]; [simpl; split; [constructor|lia]|].
  destruct (InputStatus_of_string (si_Status d)) as [st|] eqn:Hst; [|done]. unfold Input.Restore.
  fold (journal_key d). destruct (decide (_ \/ _)) as [|Hd]; [done|].
  destruct (decide (_ /\ _)) as [|Hst']; [done|].
  destruct (ij_decisions j !! journal_key d) eqn:Hk; [done|].
  destruct (decide (_ <= _)) as [|Hsz]; [done|]. intros E Hle. apply IH in E; simpl in *.
  - rewrite map_size_insert_None in E by done. destruct E as [Hv Hs]. split; [|lia].
    constructor; [|done]. unfold valid_input. repeat (apply Decidable.not_or in Hd as [? Hd]).
    split_and!; try done; [by apply dec_stable|].
    clear -Hst Hst'. unfold InputStatus_of_string in Hst. repeat case_decide; simplify_eq; auto. exfalso. by apply Hst'.
  - rewrite map_size_insert_None by done. lia.
Qed.

Lemma recover_one_inv `{J : JsonStrings} w m d r record d' s :
  config_ok (mg_config m) -> 0 <= mc_MaxInputDecisions (mg_config m) -> db_ok d ->
  db_sessions d !! ss_ID record = Some r -> scanned r record -> recover_one w m d record = (d', Ok s) ->
  recoverable_row (mg_config m) d (ss_ID record) r.
Proof.
  intros Hc Hmax Hok Hr (_ & _ & Hst & Hg & _ & _ & Ha & He) E.
  destruct (recover_one_ok _ _ _ _ _ _ Hc Hok E) as (_ & Hout & _).
  unfold recover_one in E. destruct (recovered_state _) as [st|] eqn:Hrs; [|done]. cbv zeta in E.
  match type of E with context [let '(_, _) := ?x in _] => destruct x as [d1 [u|e]] end; [|done].
  destruct (TrimOutput _ _ _ _) as [d2 [E'|e]]; [|done]. injection E as <- E.
  destruct (Store.Replay _ _ _ _ _) as [[[evs earliest] latest]|]; [|done]. cbn [wrap] in E.
  destruct (History.Restore _ _ _ _) as [h|]; [|done]. cbn [wrap] in E.
  destruct (RecoverLifecycle _ _) as [l|] eqn:Hl; [|done]. cbn [wrap] in E.
  destruct (InputDecisions _ _ _) as [ds|] eqn:Hds; [|done]. cbn [wrap] in E.
  destruct (restore_inputs _ _) as [j|] eqn:Hj; [|done].
  constructor; [eauto| |].
  - exists st. split; [congruence|]. intros ->. unfold RecoverLifecycle in Hl.
    destruct (decide _) as [|Hn]; [done|]. intros H0. apply Hn. right. right. simpl. split; [tauto|congruence].
  - apply reading_ok in Hds as [_ [= <-]].
    apply restore_inputs_inv in Hj as [Hv Hlen]; [|simpl; rewrite map_size_empty; simpl; lia].
    assert (Hperm : merge_sort input_le (map_to_list (filter (fun kr => kr.1.1.1.1.1 = ss_ID record) (db_inputs d2))).*2
                    ≡ₚ inputs_of d (ss_ID record)).
    { rewrite merge_sort_Permutation. unfold inputs_of. by rewrite (oo_inputs _ _ _ Hout). }
    rewrite Hperm in Hv. apply Permutation_length in Hperm. simpl in Hlen. rewrite map_size_empty in Hlen.
    split; [done|]. lia.
Qed.

Lemma recover_all_inv `{J : JsonStrings} w records : forall m d d' m',
  config_ok (mg_config m) -> 0 <= mc_MaxInputDecisions (mg_config m) -> db_ok d ->
  Forall (fun s => exists r, db_sessions d !! ss_ID s = Some r /\ scanned r s) records ->
  NoDup (ss_ID <$> records) -> recover_all w m d records = (d', Ok m') ->
  Forall (fun s => exists r, db_sessions d !! ss_ID s = Some r
                             /\ recoverable_row (mg_config m) d (ss_ID s) r) records.
Proof.
  induction records as [|record records IH]; intros m d d' m' Hc Hmax Hok Hrec Hnd; cbn [recover_all]; [constructor|].
  apply Forall_cons in Hrec as [(r & Hr & Hsc) Hrec]. rewrite fmap_cons in Hnd. apply NoDup_cons in Hnd as [Hi Hnd].
  destruct (recover_one w m d record) as [d1 [s|e]] eqn:E1; [|done]. destruct (decide _) as [|Hdup]; [done|].
  destruct (recover_one_ok _ _ _ _ _ _ Hc Hok E1) as (Hok1 & Ho1 & Hs1 & _).
  assert (Hne : forall s', s' ∈ records -> ss_ID s' <> ss_ID record)
    by (intros s' Hs' E; apply Hi; rewrite <- E; by apply list_elem_of_fmap_2).
  intros E2. apply IH in E2; try done.
  - constructor; [eauto using recover_one_inv|]. rewrite Forall_forall in *. intros s' Hs'.
    destruct (E2 s' Hs') as (r' & Hr' & []). exists r'. rewrite Hs1 in Hr' by auto. split; [done|].
    constructor; try done. unfold inputs_of in *. by rewrite (oo_inputs _ _ _ Ho1) in *.
  - rewrite Forall_forall in *. intros s' Hs'. rewrite Hs1; auto.
Qed.

(** ** Properties *)

(** The store's rows in the order [recover] meets them, when the store can be read. *)
Definition all_recoverable `{J : JsonStrings} (c : ManagerConfig) (d : DB) : Prop :=
  forall id r, db_sessions d !! id = Some r -> recoverable_row c d id r.

(** C20.  With a database that does not fail, a manager can be built from a store exactly
    when every stored session can be recovered: its argument lists decode, its state is
    one a session can be left in, a session that comes back as exited has run at least
    once, and its stored input decisions are well-formed and fit the journal.  Nothing
    else in a store that the helper wrote can make startup fail. *)
Theorem recovery_succeeds_iff `{J : JsonStrings} w c c' d :
  rtc db_step empty_DB d -> config_u64 c -> manager_config false c = Ok c' -> no_faults w ->
  is_ok (snd (NewManager w false c (Some d))) = true <-> all_recoverable c' d.
Proof.
  intros Hreach Hu Hmc Hnf. pose proof (db_reachable_ok _ Hreach) as Hok.
  pose proof (manager_config_ok _ _ _ Hu Hmc) as Hc. unfold NewManager. rewrite Hmc. cbv zeta.
  set (m0 := mkManager c' ∅ ∅ false (Some d) empty_heap). unfold recover.
  destruct Hnf as [Hs Hnf]. rewrite Hs. split.
  - destruct (Sessions FNone d) as [records|e] eqn:Hss; [|done].
    destruct (recover_all w m0 d records) as [d' [m'|e]] eqn:E; [|done]. intros _ id r Hr.
    destruct (Sessions_ids _ _ _ Hok Hss) as [Hrec Hids].
    destruct (Sessions_nodup _ _ _ Hok Hss) as [Hnd _].
    assert (Hmax : 0 <= mc_MaxInputDecisions (mg_config m0)) by (destruct Hc as (_ & _ & _ & ?); simpl; lia).
    apply (recover_all_inv w records m0 d d' m' Hc Hmax Hok Hrec Hnd) in E.
    assert (Hin : id ∈ ss_ID <$> records) by (apply Hids; eauto).
    apply list_elem_of_fmap in Hin as (s & -> & Hin). rewrite Forall_forall in E.
    destruct (E s Hin) as (r' & Hr' & Hrr). simplify_eq. done.
  - intros Hall. destruct (Sessions_total d c' Hall) as (ss & Hss). rewrite Hss.
    destruct (Sessions_nodup _ _ _ Hok Hss) as [Hnd1 Hnd2].
    destruct (Sessions_ids _ _ _ Hok Hss) as [Hrec _].
    destruct (recover_all_total w ss m0 d) as (d' & m' & E & _); try done.
    + rewrite Forall_forall in *. intros s Hs'. destruct (Hrec s Hs') as (r & Hr & Hsc). exists r.
      split_and!; try done; [by apply Hall|apply lookup_empty..].
    + rewrite E. done.
Qed.

(** C21.  A manager built from a store has exactly the stored sessions.  Each one has
    ended: a session found running or restarting comes back as exited, one found being
    created or closing as closed, with its generation unchanged.  Its history is the
    stored output, trimmed to the configured limit, at the stored sequence numbers; it
    has no process and no clients. *)
Theorem recovery_exact `{J : JsonStrings} w c c' d d' m :
  rtc db_step empty_DB d -> config_u64 c -> manager_config false c = Ok c' -> no_faults w ->
  NewManager w false c (Some d) = (Some d', Ok m) ->
  (forall id, is_Some (mg_sessions m !! id) <-> is_Some (db_sessions d !! id))
  /\ (forall id r, db_sessions d !! id = Some r -> exists s st,
        mg_sessions m !! id = Some s
        /\ recovered_state (State_of_string (ss_State (sr_session r))) = Some st
        /\ ms_lifecycle s = mkLifecycle st (ss_Generation (sr_session r))
        /\ ms_process s = None /\ Count (ms_fanout s) = 0
        /\ h_latest (ms_history s) = ss_LatestSequence (sr_session r)
        /\ content (live (ms_history s))
           = mjoin (snd <$> trim (mc_HistoryBytes c') (chunk <$> stored_events d id))).
Proof.
  intros Hreach Hu Hmc Hnf E. pose proof (db_reachable_ok _ Hreach) as Hok.
  pose proof (manager_config_ok _ _ _ Hu Hmc) as Hc. unfold NewManager in E. rewrite Hmc in E. cbv zeta in E.
  set (m0 := mkManager c' ∅ ∅ false (Some d) empty_heap) in E.
  destruct (recover w m0 d) as [d1 [m1|e]] eqn:Hr; [|done]. injection E as <- <-.
  unfold recover in Hr. destruct (Sessions _ _) as [ss|] eqn:Hss; [|done].
  destruct (Sessions_ids _ _ _ Hok Hss) as [Hrec Hids]. destruct (Sessions_nodup _ _ _ Hok Hss) as [Hnd1 Hnd2].
  assert (Hfr : fresh_manager d m0) by (constructor; simpl; [done|intros ? ?; by rewrite lookup_empty..]).
  assert (Hne : Forall (fun s => ss_ID s <> "") ss).
  { eapply Forall_impl; [exact Hrec|]. intros s (r & Hrow & _). by destruct (do_sessions _ Hok _ _ Hrow). }
  destruct (recover_all_ok w ss m0 d d1 m1 Hc Hok Hfr Hne Hr) as (Hok1 & [_ Hfs _] & Hcm & _ & _ & Hdom).
  assert (Hmax : 0 <= mc_MaxInputDecisions c') by (destruct Hc as (_ & _ & _ & ?); lia).
  pose proof (recover_all_inv w ss m0 d d1 m1 Hc Hmax Hok Hrec Hnd1 Hr) as Hinv.
  destruct (recover_all_total w ss m0 d) as (d2 & m2 & E2 & _ & _ & Hall); try done.
  { rewrite Forall_forall in *. intros s Hs. destruct (Hrec s Hs) as (r & Hrow & Hsc), (Hinv s Hs) as (r' & Hrow' & Hrr).
    simplify_eq. exists r. split_and!; try done; apply lookup_empty. }
  rewrite Hr in E2. injection E2 as <- <-. split.
  - intros id. rewrite Hdom, Hids. simpl. rewrite lookup_empty. split; [intros [[? ?]|?]; done|by right].
  - intros id r Hrow. assert (Hin : id ∈ ss_ID <$> ss) by (apply Hids; eauto).
    apply list_elem_of_fmap in Hin as (rec & -> & Hin). rewrite Forall_forall in Hall, Hrec.
    destruct (Hall rec Hin) as (s & st & Hs & Hst & Hlc & Hch & Hla). change (mg_config m0) with c' in Hch.
    destruct (Hrec rec Hin) as (r' & Hrow' & (_ & _ & HS & HG & _)). simplify_eq.
    destruct (Hfs _ _ Hs) as (_ & Hsid & [_ (Hp & _ & _) Hf _ _ (r2 & Hr2 & Hco & _ & Hlat) _]).
    rewrite Hsid in *. exists s, st. split_and!; try done; [congruence|congruence|by rewrite Hf| |].
    + rewrite Hlat. unfold stored_latest in Hla. rewrite Hr2, Hrow in Hla. simpl in Hla. congruence.
    + rewrite Hco, <- Hch. unfold content. by rewrite <- list_fmap_compose.
Qed.

(** *** Witnesses *)

Definition demo_calm : recover_world :=
  mkRecoverWorld FNone 9 (fun _ => (FNone, 9)) (fun _ => FNone) (fun _ => FNone) (fun _ => FNone).
Definition demo_config0 : ManagerConfig := mkManagerConfig 2 0 0 0 0 0 0 "".
Definition demo_config : ManagerConfig :=
  mkManagerConfig 2 1048576 (10 * second) (2 * second) 64 16 10000 "helper_restart".

Lemma recovery_succeeds_iff_witness : @all_recoverable demo_json demo_config demo_db2.
Proof.
  apply (@recovery_succeeds_iff demo_json demo_calm demo_config0 demo_config demo_db2);
    [exact demo_db2_reachable|by repeat split|reflexivity|by repeat split|].
  vm_compute. reflexivity.
Defined.

Lemma recovery_exact_witness :
  exists d' m s, @NewManager demo_json demo_calm false demo_config0 (Some demo_db2) = (Some d', Ok m)
    /\ mg_sessions m !! "s1" = Some s /\ ms_lifecycle s = mkLifecycle Exited 1.
Proof.
  destruct (@NewManager demo_json demo_calm false demo_config0 (Some demo_db2)) as [[d'|] [m|e]] eqn:E;
    [|exfalso; vm_compute in E; discriminate..].
  destruct (@recovery_exact demo_json demo_calm demo_config0 demo_config demo_db2 d' m)
    as [_ H]; [exact demo_db2_reachable|by repeat split|reflexivity|by repeat split|exact E|].
  destruct (H "s1" demo_row) as (s & st & Hs & Hst & Hl & _); [reflexivity|].
  exists d', m, s. split_and!; [reflexivity|exact Hs|]. rewrite Hl. vm_compute in Hst. injection Hst as <-. reflexivity.
Defined.
