(* ===== verification/ManagerSessions.v ===== *)
(** * Sessions, processes and generations of the manager

    [mgr_life]: a session at rest runs, is closing, has exited or is closed; it has a
    process exactly while it runs or closes; the process published for stream input is
    its current process with its current generation, and is published exactly while the
    session runs; names and identifiers match one to one.  Every step keeps this, with
    any database failure on the way. *)

From S2P Require Import Prelude Config Lifecycle Buffers History Input Fanout Store Manager ManagerOutput Recovery.

(** ** Invariant *)

Record sess_life (s : managedSession) : Prop := {
  sl_state : lc_state (ms_lifecycle s) = Running \/ lc_state (ms_lifecycle s) = Exited
             \/ lc_state (ms_lifecycle s) = Closing \/ lc_state (ms_lifecycle s) = Closed;
  sl_process : is_Some (ms_process s) <->
               lc_state (ms_lifecycle s) = Running \/ lc_state (ms_lifecycle s) = Closing;
  sl_live : forall lp, ms_liveProcess s = Some lp ->
    lc_state (ms_lifecycle s) = Running /\ ms_process s = Some (lp_process lp)
    /\ lp_generation lp = lc_generation (ms_lifecycle s);
  sl_running : lc_state (ms_lifecycle s) = Running -> is_Some (ms_liveProcess s);
  sl_inputs : exists j, ms_inputs s = Some j
    /\ (lc_state (ms_lifecycle s) = Running -> ij_current j = lc_generation (ms_lifecycle s))
}.

Record mgr_life (m : Manager) : Prop := {
  ml_session : forall id s, mg_sessions m !! id = Some s ->
    ms_id s = id /\ sess_life s /\ mg_names m !! ms_name s = Some id;
  ml_name : forall n id, mg_names m !! n = Some id ->
    exists s, mg_sessions m !! id = Some s /\ ms_name s = n
}.

(** The fields the invariant is about. *)
Definition same_life (s s' : managedSession) : Prop :=
  ms_lifecycle s' = ms_lifecycle s /\ ms_process s' = ms_process s
  /\ ms_liveProcess s' = ms_liveProcess s /\ ms_inputs s' = ms_inputs s.

Lemma same_life_ok s s' : same_life s s' -> sess_life s -> sess_life s'.
Proof. intros (H1 & H2 & H3 & H4) []. constructor; rewrite ?H1, ?H2, ?H3, ?H4; auto. Qed.

(** A step that replaces at most one session, keeping its name, by one that is in order. *)
Definition orderly (m m' : Manager) : Prop :=
  mg_names m' = mg_names m
  /\ (mg_sessions m' = mg_sessions m
      \/ exists id s s', mg_sessions m !! id = Some s /\ mg_sessions m' = <[id := s']> (mg_sessions m)
                         /\ ms_id s' = ms_id s /\ ms_name s' = ms_name s /\ sess_life s').

Lemma mgr_life_orderly m m' : orderly m m' -> mgr_life m -> mgr_life m'.
Proof.
  intros (Hn & Hs) []. destruct Hs as [Hs|(id & s & s' & Hl & Hs & Hid & Hname & Hlife)].
  { constructor; rewrite Hn, Hs; done. }
  constructor; rewrite Hn, Hs.
  - intros k t. rewrite lookup_insert. case_decide as E; [|apply ml_session0].
    intros [= <-]. subst. destruct (ml_session0 _ _ Hl) as (? & _ & ?). split_and!; congruence.
  - intros n k Hk. destruct (ml_name0 _ _ Hk) as (t & Ht & Htn). rewrite lookup_insert.
    case_decide as E; [|eauto]. subst. exists s'. split; [done|]. congruence.
Qed.

Lemma Transition_inv l to l' :
  Transition l to = Ok l' -> lc_state l' = to /\ (to <> Running -> lc_generation l' = lc_generation l).
Proof.
  unfold Transition. destruct (transition_allowed _ _); [|done]. intros [= <-]. split; [done|].
  intros H. simpl. rewrite decide_False; [done|]. tauto.
Qed.

Lemma transition_or_stay_to s to :
  transition_allowed (lc_state (ms_lifecycle s)) to = true -> to <> Running ->
  transition_or_stay s to = set_lifecycle s (mkLifecycle to (lc_generation (ms_lifecycle s))).
Proof.
  intros H Hr. unfold transition_or_stay, Transition. rewrite H. rewrite decide_False; [done|]. tauto.
Qed.

(** Closes an [orderly] goal for a session stored under its own key. *)
Ltac orderly_with tac :=
  split; [done|]; first [by left|
    right; eexists _, _, _; split_and!;
    [eassumption
    |repeat (progress simpl || rewrite ms_id_transition || rewrite ms_id_start);
     rewrite ?insert_insert_eq; reflexivity
    |repeat (progress simpl || rewrite ms_id_transition || rewrite ms_id_start); reflexivity
    | |tac]].

Lemma ms_name_transition s to : ms_name (transition_or_stay s to) = ms_name s.
Proof. unfold transition_or_stay. by destruct (Transition _ _). Qed.

Lemma ms_name_start db s : ms_name (startOutputPersistence db s) = ms_name s.
Proof. unfold startOutputPersistence. by destruct db. Qed.

Ltac same_name := repeat (progress simpl || rewrite ms_name_transition || rewrite ms_name_start); reflexivity.

(** *** Sessions in order *)

Lemma ended_life n j :
  lc_state (ms_lifecycle n) = Exited \/ lc_state (ms_lifecycle n) = Closed ->
  ms_process n = None -> ms_liveProcess n = None -> ms_inputs n = Some j -> sess_life n.
Proof.
  intros Hl Hp Hlv Hi. constructor; rewrite ?Hp, ?Hlv, ?Hi; try done.
  - tauto.
  - split; [by intros [? ?]|]. intuition congruence.
  - intuition congruence.
  - exists j. split; [done|]. intuition congruence.
Qed.

Lemma closing_life n p j :
  lc_state (ms_lifecycle n) = Closing -> ms_process n = Some p -> ms_liveProcess n = None ->
  ms_inputs n = Some j -> sess_life n.
Proof.
  intros Hl Hp Hlv Hi. constructor; rewrite ?Hp, ?Hlv, ?Hi, ?Hl; try done; [tauto|split; eauto|].
  exists j. done.
Qed.

Lemma running_life n p j :
  lc_state (ms_lifecycle n) = Running -> ms_process n = Some p ->
  ms_liveProcess n = Some (mkLive p (lc_generation (ms_lifecycle n))) ->
  ms_inputs n = Some j -> ij_current j = lc_generation (ms_lifecycle n) -> sess_life n.
Proof.
  intros Hl Hp Hlv Hi Hj. constructor; rewrite ?Hp, ?Hlv, ?Hi, ?Hl; try done; [tauto|split; eauto| |eauto].
  intros lp [= <-]. done.
Qed.

Lemma sess_life_ended s :
  sess_life s -> lc_state (ms_lifecycle s) = Exited \/ lc_state (ms_lifecycle s) = Closed ->
  ms_process s = None /\ ms_liveProcess s = None.
Proof.
  intros [] Hl. split.
  - destruct (ms_process s); [|done]. assert (Hs : is_Some (Some p)) by eauto. apply sl_process0 in Hs.
    intuition congruence.
  - destruct (ms_liveProcess s) as [lp|]; [|done]. destruct (sl_live0 lp eq_refl). intuition congruence.
Qed.

Lemma Transition_refused l to e : Transition l to = Err e -> transition_allowed (lc_state l) to = false.
Proof. unfold Transition. by destruct (transition_allowed _ _). Qed.

(** A refused transition that the table allows. *)
Ltac refused :=
  exfalso; match goal with H : Transition _ _ = Err _ |- _ => apply Transition_refused in H end;
  repeat match goal with H : Transition _ _ = Ok _ |- _ => apply Transition_inv in H as [? _] end;
  simpl in *; repeat match goal with H : lc_state _ = _ |- _ => rewrite H in * end; discriminate.

(** ** Every step *)

Section Steps.
Context (sha256 : list byte -> digest) `{J : JsonStrings}.
Context (m : Manager) (life : mgr_life m).

Lemma Close_orderly w sid m' r eff : Close w m sid = (m', r, eff) -> orderly m m'.
Proof using life.
  intros E. unfold Close, get in E. destruct (kw_ctx w); [simplify_eq; by split; [|left]|].
  destruct (mg_sessions m !! sid) as [s|] eqn:Hs; [|simplify_eq; by split; [|left]].
  destruct (ml_session _ life _ _ Hs) as (Hid & Hl & _). subst sid. pose proof Hl as [_ Hp _ _ (j & Hj & _)]. cbv zeta in E.
  destruct (decide (lc_state (ms_lifecycle s) = Closed)); [simplify_eq; by split; [|left]|].
  destruct (decide (lc_state (ms_lifecycle s) = Exited)) as [Hex|].
  { destruct (Transition (ms_lifecycle s) Closing) as [l1|] eqn:H1; [|refused].
    destruct (Transition l1 Closed) as [l2|] eqn:H2; [|refused].
    destruct (persist _ _ _ _) as [db x]. simplify_eq. destruct (sess_life_ended s Hl) as [Hp0 Hl0]; [auto|].
    apply Transition_inv in H2 as [H2 _]. orderly_with idtac; [same_name|].
    eapply ended_life; simpl; eauto. }
  destruct (ms_process s) as [p|] eqn:Hpr; [|simplify_eq; by split; [|left]].
  destruct (decide (lc_state (ms_lifecycle s) <> Running /\ _)) as [|Hst]; [simplify_eq; by split; [|left]|].
  destruct (decide (lc_state (ms_lifecycle s) = Running)) as [Hrun|Hnr].
  - destruct (Transition _ Closing) as [l|] eqn:H1; [|refused]. apply Transition_inv in H1 as [H1 _].
    destruct (persist (kw_persist w) _ _ _) as [db [u|e]].
    + destruct (kw_terminate w) as [res failed|]; simplify_eq.
      * destruct (Transition _ Closed) as [l2|] eqn:H2; [|refused]. apply Transition_inv in H2 as [H2 _].
        destruct (persist _ _ _ _) as [db2 x]. simplify_eq. orderly_with idtac; [same_name|].
        eapply ended_life; simpl; eauto.
      * orderly_with idtac; [same_name|]. eapply closing_life; simpl; eauto.
    + simplify_eq. orderly_with idtac; [same_name|].
      rewrite transition_or_stay_to by (simpl; by rewrite ?H1). eapply ended_life; simpl; eauto.
  - assert (Hcl : lc_state (ms_lifecycle s) = Closing).
    { destruct (decide (lc_state (ms_lifecycle s) = Closing)); [done|]. tauto. }
    destruct (kw_terminate w) as [res failed|]; simplify_eq; [|by split; [|left]].
    destruct (Transition _ Closed) as [l2|] eqn:H2; [|refused]. apply Transition_inv in H2 as [H2 _].
    destruct (persist _ _ _ _) as [db2 x]. simplify_eq. orderly_with idtac; [same_name|].
    eapply ended_life; simpl; eauto.
Qed.

Lemma finishClosing_orderly fn o sid p : orderly m (finishClosing fn o m sid p).
Proof using life.
  unfold finishClosing. destruct (mg_sessions m !! sid) as [s|] eqn:Hs; [|by split; [|left]].
  destruct (ml_session _ life _ _ Hs) as (Hid & Hl & _). pose proof Hl as [_ _ Hlv _ (j & Hj & _)].
  destruct (decide (_ \/ _)) as [|Hc]; [by split; [|left]|]. apply Decidable.not_or in Hc as [Hc _].
  apply dec_stable in Hc. destruct o as [res|]; [|by split; [|left]]. cbv zeta.
  assert (Hlive : ms_liveProcess s = None).
  { destruct (ms_liveProcess s) as [lp|]; [|done]. destruct (Hlv lp eq_refl). congruence. }
  destruct (Transition _ Closed) as [l|] eqn:H1; [|refused]. apply Transition_inv in H1 as [H1 _].
  destruct (persist _ _ _ _) as [db x]. subst sid. orderly_with idtac; [same_name|].
  eapply ended_life; simpl; eauto.
Qed.

Lemma Restart_orderly w sid m' r eff : Restart w m sid = (m', r, eff) -> orderly m m'.
Proof using life.
  intros E. unfold Restart, get in E. destruct (mg_sessions m !! sid) as [s|] eqn:Hs; [|simplify_eq; by split; [|left]].
  destruct (ml_session _ life _ _ Hs) as (Hid & Hl & _). subst sid. pose proof Hl as [_ _ _ _ (j & Hj & _)]. cbv zeta in E.
  destruct (decide (_ /\ _)) as [|Hst]; [simplify_eq; by split; [|left]|].
  assert (Hend : lc_state (ms_lifecycle s) = Exited \/ lc_state (ms_lifecycle s) = Closed).
  { destruct (decide (lc_state (ms_lifecycle s) = Exited)), (decide (lc_state (ms_lifecycle s) = Closed)); tauto. }
  destruct (sess_life_ended s Hl Hend) as [Hp0 Hl0].
  destruct (Transition (ms_lifecycle s) Restarting) as [l1|] eqn:H1; [|destruct Hend; refused].
  apply Transition_inv in H1 as [H1 _].
  destruct (persist (rw_persist w) _ _ _) as [db1 [u|e]]; cycle 1.
  { simplify_eq. orderly_with idtac; [same_name|]. rewrite transition_or_stay_to by (simpl; by rewrite ?H1).
    eapply ended_life; simpl; eauto. }
  destruct (rw_launch w) as [p|]; cycle 1.
  { destruct (persist _ _ _ _) as [db2 x]. simplify_eq. orderly_with idtac; [same_name|].
    rewrite transition_or_stay_to by (simpl; by rewrite ?H1). eapply ended_life; simpl; eauto. }
  destruct (Transition l1 Running) as [l2|] eqn:H2; [|refused]. apply Transition_inv in H2 as [H2 _].
  set (s5 := startOutputPersistence _ _) in E.
  assert (H5 : ms_lifecycle s5 = l2 /\ ms_process s5 = Some p /\ ms_liveProcess s5 = Some (mkLive p (lc_generation l2))
               /\ ms_inputs s5 = Some (SetGeneration j (lc_generation l2)))
    by (unfold s5, startOutputPersistence; destruct (mg_store m); simpl; rewrite Hj; done).
  destruct H5 as (H5a & H5b & H5c & H5d).
  assert (Hi5 : ms_id s5 = ms_id s /\ ms_name s5 = ms_name s)
    by (unfold s5, startOutputPersistence; by destruct (mg_store m)).
  destruct Hi5 as [Hi5 Hn5]. clearbody s5.
  destruct (persist (rw_running w) _ _ _) as [db2 [u2|e2]]; injection E as <- <- <-; (split; [done|]); right.
  - exists (ms_id s), s, s5. split_and!; [done|simpl; by rewrite Hi5|done|done|].
    eapply running_life; rewrite ?H5a; eauto.
  - rewrite transition_or_stay_to by (simpl; by rewrite ?H5a, ?H2).
    eexists (ms_id s), s, _. split_and!; [done|simpl; by rewrite Hi5|done|done|].
    eapply ended_life; simpl; eauto.
Qed.

Lemma capture_end_orderly fn exit sid p : orderly m (capture_end fn exit m sid p).
Proof using life.
  unfold capture_end. destruct (mg_sessions m !! sid) as [s|] eqn:Hs; [|by split; [|left]].
  destruct (ml_session _ life _ _ Hs) as (Hid & Hl & _). pose proof Hl as [_ _ _ _ (j & Hj & _)]. cbv zeta.
  subst sid. destruct (decide (_ <> _)); [orderly_with idtac; [done|by eapply same_life_ok; [|exact Hl]]|].
  destruct (decide (_ = Running)) as [Hr|]; [|orderly_with idtac; [done|by eapply same_life_ok; [|exact Hl]]].
  destruct (persist _ _ _ _) as [db x]. simpl in Hr.
  rewrite transition_or_stay_to by (simpl; by rewrite ?Hr). orderly_with idtac; [same_name|].
  eapply ended_life; simpl; eauto.
Qed.

Lemma journal_life s j j' :
  sess_life s -> ms_inputs s = Some j -> ij_current j' = ij_current j -> sess_life (set_journal s (Some j')).
Proof.
  intros [H1 H2 H3 H4 (j0 & Hj0 & Hc)] Hj Hcur. constructor; simpl; try done.
  exists j'. split; [done|]. intros Hr. rewrite Hcur. simplify_eq. auto.
Qed.

Lemma Input_Write_current j key data w j' r ws :
  Input.Write sha256 j key data w = (j', r, ws) -> ij_current j' = ij_current j.
Proof. intros [[-> _]|(o & _ & _ & _ & _ & _ & -> & _)]%Write_cases; done. Qed.

Lemma Write_orderly put update now w sid key data m' r eff :
  Write sha256 put update now w m sid key data = (m', r, eff) -> orderly m m'.
Proof using life.
  intros E. unfold Write, get in E. destruct (mg_sessions m !! sid) as [s|] eqn:Hs; [|simplify_eq; by split; [|left]].
  destruct (ml_session _ life _ _ Hs) as (Hid & Hl & _). subst sid.
  destruct (ms_process s) as [p|]; [|simplify_eq; by split; [|left]].
  destruct (ms_inputs s) as [j|] eqn:Hj; [|simplify_eq; by split; [|left]].
  destruct (decide _); [simplify_eq; by split; [|left]|]. destruct (negb _); [simplify_eq; by split; [|left]|].
  destruct (Input.Write sha256 j key data (Some w)) as [[j' x] ws] eqn:Hw.
  pose proof (journal_life s j j' Hl Hj (Input_Write_current _ _ _ _ _ _ _ Hw)) as Hl'.
  destruct (Query j key); [simplify_eq; orderly_with idtac; [done|exact Hl']|].
  destruct (Admit j key); [|simplify_eq; by split; [|left]].
  destruct (match mg_store m with None => _ | Some _ => _ end) as [db1 [[]|er]];
    [|simplify_eq; by split; [|left]..].
  destruct x as [dec|er]; [|simplify_eq; orderly_with idtac; [done|exact Hl']].
  destruct db1 as [d1|]; [|simplify_eq; orderly_with idtac; [done|exact Hl']].
  destruct (UpdateInputDecision _ _ _) as [d2 r2]. simplify_eq. orderly_with idtac; [done|exact Hl'].
Qed.

Lemma Resize_orderly fn failed sid aid d at_ m' r eff :
  Resize fn failed m sid aid d at_ = (m', r, eff) -> orderly m m'.
Proof using life.
  intros E. unfold Resize, get in E. destruct (mg_sessions m !! sid) as [s|] eqn:Hs; [|simplify_eq; by split; [|left]].
  destruct (ml_session _ life _ _ Hs) as (Hid & Hl & _). subst sid.
  destruct (ms_process s) as [p|]; [|simplify_eq; by split; [|left]].
  destruct (negb _); [simplify_eq; by split; [|left]|]. destruct (decide _); [simplify_eq; by split; [|left]|].
  destruct failed; [simplify_eq; by split; [|left]|]. cbv zeta in E. destruct (persist _ _ _ _) as [db x].
  simplify_eq. orderly_with idtac; [done|by eapply same_life_ok; [|exact Hl]].
Qed.

(** The operations on output replace a session by one with the same life. *)
Lemma output_orderly sid s s' m' :
  mg_sessions m !! sid = Some s -> mg_names m' = mg_names m ->
  mg_sessions m' = <[ms_id s' := s']> (mg_sessions m) ->
  ms_id s' = ms_id s -> ms_name s' = ms_name s -> same_life s s' -> orderly m m'.
Proof using life.
  intros Hs Hn Hss Hid Hname Hsame. destruct (ml_session _ life _ _ Hs) as (Hsid & Hl & _).
  split; [done|]. right. exists sid, s, s'. rewrite Hss, Hid, Hsid. split_and!; try done.
  by eapply same_life_ok.
Qed.

Lemma attachLocked_same c hp s aid from hp' s' r :
  attachLocked c hp s aid from = (hp', s', r) -> ms_id s' = ms_id s /\ ms_name s' = ms_name s /\ same_life s s'.
Proof.
  unfold attachLocked. case_decide; [by intros [= _ <- _]|].
  destruct (attach_replay _ _ _ _) as [hp1 [rp|e]]; [|by intros [= _ <- _]].
  destruct (Fanout.Attach _ _ _); [|by intros [= _ <- _]].
  destruct (enqueue_all _ _ _ _) as [[hp2 f2] [e|]]; [|by intros [= _ <- _]].
  destruct (Fanout.Detach _ _ _) as [[hp3 f3] ?]. by intros [= _ <- _].
Qed.

Lemma capture_chunk_same pick cap hp s data hp' s' r :
  capture_chunk pick cap hp s data = (hp', s', r) -> ms_id s' = ms_id s /\ ms_name s' = ms_name s /\ same_life s s'.
Proof.
  unfold capture_chunk. destruct (AppendBuffer _ _ _ _ _ _) as [[hp1 h1] [e|e]]; [|by intros [= _ <- _]].
  destruct (PublishOwned _ _ _) as [[hp2 f2] x]. intros [= _ <- _].
  unfold queueOutputPersistence. by destruct (ms_persistNotify _).
Qed.

Lemma Create_life w req m' r eff : Create w m req = (m', r, eff) -> mgr_life m'.
Proof using life.
  intros E. unfold Create in E. assert (Hquiet : forall db, mgr_life (put_store m db)).
  { intros db. eapply mgr_life_orderly; [|exact life]. by split; [|left]. }
  destruct (negb _); [by simplify_eq|]. destruct (cw_ctx w); [by simplify_eq|].
  destruct (mg_stopping m); [by simplify_eq|]. destruct (decide _); [by simplify_eq|].
  destruct (mg_names m !! _) eqn:Hname; [by simplify_eq|].
  match type of E with context [match ?x with Ok _ => _ | Err _ => _ end] => destruct x as [id|] eqn:Hid end;
    [|by simplify_eq].
  destruct (New _) as [h|]; [|by simplify_eq]. cbv zeta in E.
  match type of E with context [match ?x with (_, _) => _ end] => destruct x as [db1 [u|e]] end; [|by simplify_eq].
  destruct (cw_launch w) as [p|]; [|by simplify_eq].
  destruct (Transition _ _) as [l|] eqn:H1; [|by simplify_eq]. apply Transition_inv in H1 as [H1 _].
  destruct (persist _ _ _ _) as [db2 [u2|e2]]; [|by simplify_eq]. injection E as <- <- <-.
  assert (Hfresh : mg_sessions m !! id = None).
  { revert Hid. destruct (decide _); [|by apply draw_id_fresh].
    destruct (mg_sessions m !! _) eqn:?; [done|by intros [= <-]]. }
  destruct life as [Hs Hn]. constructor; simpl.
  - intros k t. rewrite !lookup_insert. destruct (decide (id = k)) as [<-|Hne].
    + intros [= <-]. rewrite ms_id_start, ms_name_start, decide_True by done. split_and!; [done| |done].
      eapply (running_life _ p); unfold startOutputPersistence; destruct (mg_store m); done.
    + intros Ht. destruct (Hs _ _ Ht) as (? & ? & Hnm). split_and!; [done..|].
      rewrite decide_False; [done|]. congruence.
  - intros nm k. rewrite !lookup_insert. destruct (decide (cr_Name req = nm)) as [<-|Hne].
    + intros [= <-]. rewrite decide_True by done. eexists. split; [done|]. by rewrite ms_name_start.
    + intros Hk. destruct (Hn _ _ Hk) as (t & Ht & ?). rewrite decide_False by congruence. eauto.
Qed.

Lemma Delete_life f sid m' r : Delete f m sid = (m', r) -> mgr_life m'.
Proof using life.
  intros E. unfold Delete, get in E. assert (Hquiet : forall db, mgr_life (put_store m db)).
  { intros db. eapply mgr_life_orderly; [|exact life]. by split; [|left]. }
  destruct (mg_sessions m !! sid) as [s|] eqn:Hs; [|by simplify_eq]. cbv zeta in E.
  destruct (decide _); [by simplify_eq|].
  destruct (match mg_store m with None => _ | Some _ => _ end) as [db [u|e]]; [|by simplify_eq].
  destruct (Transition _ _) as [l|]; [|by simplify_eq]. injection E as <- <-.
  destruct life as [Hss Hn]. destruct (Hss _ _ Hs) as (_ & _ & Hnm). constructor; simpl.
  - intros k t. rewrite lookup_delete. case_decide as Hne; [done|]. intros Ht.
    destruct (Hss _ _ Ht) as (? & ? & Hnk). split_and!; [done..|]. rewrite lookup_delete_ne; [done|].
    intros Heq. rewrite Heq in Hnm. congruence.
  - intros nm k. rewrite lookup_delete. case_decide as Hne; [done|]. intros Hk.
    destruct (Hn _ _ Hk) as (t & Ht & Htn). exists t. split; [|done]. rewrite lookup_delete_ne; [done|].
    intros <-. congruence.
Qed.
End Steps.

(** ** Reachable managers *)

Section Reachable.
Context (sha256 : list byte -> digest) `{J : JsonStrings}.

Lemma mgr_step_life x y : mgr_step sha256 x y -> mgr_life x.1 -> mgr_life y.1.
Proof.
  intros Hs Hm.
  assert (Hout : forall m m', orderly m m' -> mgr_life m -> mgr_life m') by (intros; by eapply mgr_life_orderly).
  assert (Hidle : forall m m', mg_names m' = mg_names m -> mg_sessions m' = mg_sessions m -> orderly m m')
    by (intros m m' ? ?; split; [done|by left]).
  destruct Hs as [? ? ? ? ? ? ? H|m ? sid ? ? ? ? H|m ? sid ? ? ? H|m ? sid ? ? ? H|m ? sid ? ? ? H
    |m ? sid ? ? ? H| |m ? sid ? ? ? ? _ H|? ? ? ? ? ? ? ? ? ? ? ? H|? ? ? ? ? ? ? ? ? ? ? H|? ? m ? sid ? ? H
    |? ? ? ? ? ? ? H| |? ? ? ? ? ? ? H|? ? ? ? ? ? H|? ? m ? sid ? ? ? _ H| | | |? m ? ? ? ? ? H]; simpl in *.
  - by eapply Create_life.
  - unfold Attach, get in H. destruct (mg_sessions m !! sid) as [s|] eqn:Hg; [|by simplify_eq].
    destruct (attachLocked _ _ _ _ _) as [[hp' s'] x] eqn:E. simplify_eq.
    apply attachLocked_same in E as (? & ? & ?). eapply Hout, Hm. by eapply output_orderly.
  - unfold AttachLive, get in H. destruct (mg_sessions m !! sid) as [s|] eqn:Hg; [|by simplify_eq]. simpl in H.
    destruct (attachLocked _ _ _ _ _) as [[hp' s'] x] eqn:E. simplify_eq.
    apply attachLocked_same in E as (? & ? & ?). eapply Hout, Hm. by eapply output_orderly.
  - unfold Detach, get in H. destruct (mg_sessions m !! sid) as [s|] eqn:Hg; [|by simplify_eq].
    destruct (Fanout.Detach _ _ _) as [[hp' f'] x]. simplify_eq. eapply Hout, Hm. by eapply output_orderly.
  - unfold Next, get in H. destruct (mg_sessions m !! sid) as [s|] eqn:Hg; [|by simplify_eq].
    destruct (Fanout.Next _ _ _) as [[hp' f'] x]. simplify_eq. eapply Hout, Hm. by eapply output_orderly.
  - unfold WaitNext, get in H. destruct (mg_sessions m !! sid) as [s|] eqn:Hg; [|by simplify_eq].
    destruct (WaitNextOwned _ _ _) as [[hp' f'] x]. simplify_eq. eapply Hout, Hm. by eapply output_orderly.
  - eapply Hout, Hm; by apply Hidle.
  - unfold Acknowledge, get in H. destruct (mg_sessions m !! sid) as [s|] eqn:Hg; [|by simplify_eq].
    destruct (attached _ _); [|by simplify_eq]. destruct (History.Acknowledge _ _ _); [|by simplify_eq].
    simplify_eq. eapply Hout, Hm. by eapply output_orderly.
  - eapply Hout, Hm. by eapply Write_orderly.
  - eapply Hout, Hm. by eapply Resize_orderly.
  - unfold Clear, get in H. destruct (mg_sessions m !! sid) as [s|] eqn:Hg; [|by simplify_eq]. cbn [Bounds] in H.
    match type of H with context [let '(_, _) := ?x in _] => destruct x as [db [u|e]] end;
      [|simplify_eq; eapply Hout, Hm; by apply Hidle].
    destruct (History.Clear _ _) as [[hp' h'] n]. simplify_eq. eapply Hout, Hm. by eapply output_orderly.
  - eapply Hout, Hm. by eapply Close_orderly.
  - eapply Hout, Hm. by eapply finishClosing_orderly.
  - eapply Hout, Hm. by eapply Restart_orderly.
  - by eapply Delete_life.
  - unfold capture_read in H. destruct (mg_sessions m !! sid) as [s|] eqn:Hg; [|by simplify_eq].
    destruct (capture_chunk _ _ _ _ _) as [[hp' s'] x] eqn:E. simplify_eq.
    apply capture_chunk_same in E as (? & ? & ?). eapply Hout, Hm. by eapply output_orderly.
  - eapply Hout, Hm. by eapply capture_end_orderly.
  - eapply Hout, Hm; by apply Hidle.
  - eapply Hout, Hm; by apply Hidle.
  - unfold restore_state in H. destruct (get m id); [|by simplify_eq]. destruct (mg_store m); [|by simplify_eq].
    destruct (decide _); [by simplify_eq|]. cbv zeta in H. destruct (UpdateSession _ _ _ _ _ _).
    simplify_eq. eapply Hout, Hm; by apply Hidle.
Qed.

(** A manager built from a store and run for any number of steps. *)
Definition mgr_reachable (x : Manager * list Event) : Prop :=
  exists w ln c db db' m0,
    config_u64 c /\ (forall d, db = Some d -> rtc db_step empty_DB d)
    /\ NewManager w ln c db = (db', Ok m0) /\ rtc (mgr_step sha256) (m0, []) x.

Lemma fresh_life d m :
  fresh_manager d m ->
  (forall n id, mg_names m !! n = Some id -> exists s, mg_sessions m !! id = Some s /\ ms_name s = n) ->
  mgr_life m.
Proof.
  intros [_ Hs Hn] Hnames. constructor; [|done]. intros id s Hid.
  destruct (Hs _ _ Hid) as (_ & Hsid & [Hst (Hp & Hl & _) _ _ _ _ (j & Hj & _)]). split_and!; [done| |auto].
  by eapply ended_life.
Qed.

Lemma recover_all_names w records : forall m d d' m',
  (forall n id, mg_names m !! n = Some id -> exists s, mg_sessions m !! id = Some s /\ ms_name s = n) ->
  config_ok (mg_config m) -> db_ok d ->
  recover_all w m d records = (d', Ok m') ->
  forall n id, mg_names m' !! n = Some id -> exists s, mg_sessions m' !! id = Some s /\ ms_name s = n.
Proof.
  induction records as [|record records IH]; intros m d d' m' Hn Hc Hok; cbn [recover_all]; [by intros [= <- <-]|].
  destruct (recover_one w m d record) as [d1 [s|e]] eqn:E1; [|done]. destruct (decide _) as [|Hdup]; [done|].
  destruct (recover_one_ok _ _ _ _ _ _ Hc Hok E1) as (Hok1 & _ & _ & _ & Hsn & _).
  apply Decidable.not_or in Hdup as [Hfresh _]. apply eq_None_not_Some in Hfresh.
  apply IH; simpl; try done. intros n id. rewrite !lookup_insert.
  destruct (decide (ss_Name record = n)) as [<-|Hne].
  - intros [= <-]. rewrite decide_True by done. eauto.
  - intros Hk. destruct (Hn _ _ Hk) as (t & Ht & ?). rewrite decide_False by congruence. eauto.
Qed.

Lemma NewManager_life w ln c db db' m :
  config_u64 c -> (forall d, db = Some d -> db_ok d) -> NewManager w ln c db = (db', Ok m) -> mgr_life m.
Proof.
  intros Hu Hdb E. destruct (NewManager_ok w ln c db db' m Hu Hdb E) as (Hc & _ & _ & _ & Hf).
  unfold NewManager in E. destruct (manager_config ln c) as [c'|] eqn:Hmc; [|done]. cbv zeta in E.
  pose proof (manager_config_ok _ _ _ Hu Hmc) as Hc'. destruct db as [d|].
  - destruct (recover _ _ d) as [d' [m'|e]] eqn:Hr; [|done]. injection E as <- <-.
    eapply fresh_life; [by apply Hf|]. unfold recover in Hr. destruct (Sessions _ _) as [a|]; [|done].
    refine (recover_all_names w a (mkManager c' ∅ ∅ false (Some d) empty_heap) d d' m' _ Hc' (Hdb _ eq_refl) Hr).
    intros n id. simpl. by rewrite lookup_empty.
  - injection E as <- <-. constructor; simpl; intros ? ?; by rewrite lookup_empty.
Qed.

Lemma mgr_reachable_ok m held : mgr_reachable (m, held) -> mgr_out m held /\ mgr_life m.
Proof.
  intros (w & ln & c & db & db' & m0 & Hu & Hdb & E & Hr).
  assert (Hdb' : forall d, db = Some d -> db_ok d) by (intros d ->; by apply db_reachable_ok, Hdb).
  destruct (NewManager_ok w ln c db db' m0 Hu Hdb' E) as (_ & Hout & _).
  pose proof (NewManager_life w ln c db db' m0 Hu Hdb' E) as Hlife.
  change m with (m, held).1. change held with (m, held).2 at 2.
  assert (Hx : mgr_out (m0, @nil Event).1 (m0, @nil Event).2 /\ mgr_life (m0, @nil Event).1) by done.
  revert Hx. generalize (m0, @nil Event) (m, held) Hr. intros x y Hxy.
  induction Hxy as [|x y z Hxy _ IH]; [done|]. intros [H1 H2]. apply IH.
  split; [by eapply mgr_step_out|by eapply mgr_step_life].
Qed.
End Reachable.
