(* ===== verification/ManagerTheorems.v ===== *)
(** * What the session manager promises

    Theorems about every manager that can be reached from a store by any sequence of
    calls, background steps and database failures, proved from the invariants of
    ManagerOutput.v and ManagerSessions.v. *)

From S2P Require Import Prelude Config Lifecycle Buffers History Input Fanout Store Manager ManagerOutput.
From S2P Require Import Recovery ManagerSessions.

Section Theorems.
Context (sha256 : list byte -> digest) `{J : JsonStrings}.


(** An attach outside these conditions is refused with the first reason that
    applies: too many attachments, a cursor before or after the retained output, no
    attachment name, or a name that is attached already.  It changes no session, and
    every buffer reference taken for the replay is given back. *)
Theorem manager_attach_refused m held sid s aid from :
  mgr_reachable sha256 (m, held) -> mg_sessions m !! sid = Some s ->
  ~ (Count (ms_fanout s) < mc_MaxAttachments (mg_config m)
     /\ h_earliest (ms_history s) <= from <= h_latest (ms_history s) /\ may_attach (ms_fanout s) aid) ->
  exists m', Attach m sid aid from = (m', Err (attach_refusal (mg_config m) s aid from))
    /\ mg_sessions m' = mg_sessions m
    /\ accounted (mg_heap m') (all_refs (mg_sessions m) ++ held).
Proof.
  intros Hr Hs Hno. destruct (mgr_reachable_ok _ _ _ Hr) as [Hout _].
  destruct (mo_session _ _ Hout _ _ Hs) as (Hid & B & O & Hok).
  destruct (attachLocked_refused _ _ _ _ _ _ aid from (mo_config _ _ Hout) Hok Hno) as (hp' & E & Hok').
  unfold Attach, get. rewrite Hs, E. eexists. split; [reflexivity|]. simpl.
  rewrite Hid, insert_id by done. split; [done|].
  apply out_ok_acc in Hok'. unfold others in Hok'. rewrite app_assoc in Hok'.
  eapply accounted_perm; [|exact Hok']. by rewrite <- (all_refs_split _ _ _ Hs).
Qed.

(** Output of the process is never lost on the way to the clients: a chunk read
    from the PTY is always appended to the history (the oldest chunks leaving when the
    limit is reached) and published to every attached client, and only clients whose
    queue would exceed its limit are evicted. *)
Theorem manager_capture_publishes pick cap m held sid s data :
  mgr_reachable sha256 (m, held) -> mg_sessions m !! sid = Some s -> data <> [] ->
  h_latest (ms_history s) + len data < two64 ->
  exists m' evs s' e, capture_read pick cap m sid data = (m', Some evs)
    /\ mg_sessions m' !! sid = Some s'
    /\ view (ms_history s') = log_append (mc_HistoryBytes (mg_config m)) x01 data (view (ms_history s))
    /\ ev_Data e = data /\ ev_StartSequence e = h_latest (ms_history s)
    /\ evicted_by e (ms_fanout s) evs
    /\ caught_up (h_latest (ms_history s')) (ms_fanout s').
Proof.
  intros Hr Hs Hd Hlt. destruct (mgr_reachable_ok _ _ _ Hr) as [Hout _].
  destruct (mo_session _ _ Hout _ _ Hs) as (Hid & B & O & Hok).
  destruct (capture_chunk_ok pick cap _ _ _ _ _ _ data Hok Hd Hlt)
    as (hp' & s' & evs & e & E & He & Hst & Hok' & Hv & Hev).
  unfold capture_read. rewrite Hs, E. eexists _, evs, s', e. split; [reflexivity|].
  assert (Hid' : ms_id s' = sid) by (apply capture_chunk_same in E as (-> & _); done).
  simpl. rewrite Hid', lookup_insert_eq. split_and!; try done. by destruct Hok'.
Qed.

(** C24.  The shared buffers are safe under every interleaving of all sessions: a buffer
    that a history, a fan-out or a reader still refers to has a reference count equal to
    the number of those references, has not been returned to the pool, and still holds
    the bytes of each event that refers to it. *)
Theorem manager_buffers_safe m held e l :
  mgr_reachable sha256 (m, held) -> e ∈ all_refs (mg_sessions m) ++ held -> ev_owner e = Some l ->
  refs_of (mg_heap m) l = cnt l (all_refs (mg_sessions m) ++ held)
  /\ 0 < refs_of (mg_heap m) l /\ (l ∉ hp_ownerPool (mg_heap m)) /\ backed (mg_heap m) e.
Proof.
  intros Hr He Hl. destruct (mgr_reachable_ok _ _ _ Hr) as [[_ HA _] _].
  destruct (accounted_live _ _ _ _ HA He Hl) as (? & ? & _). destruct HA. split_and!; auto.
Qed.

(** Stream input goes to the running process of the generation the client named, or
    nowhere: bytes reach a PTY only when the session runs, its process is the one
    written to, the generation is current, the client is attached and the input is
    between 1 byte and 256 KiB; otherwise the call fails without writing. *)
Theorem manager_stream_input w m held sid aid g data r eff p bytes :
  mgr_reachable sha256 (m, held) -> WriteStream w m sid aid g data = (r, eff) ->
  EWrite p bytes ∈ eff ->
  eff = [EWrite p data] /\ bytes = data /\ 1 <= len data <= 262144
  /\ exists s q, mg_sessions m !! sid = Some s /\ lc_state (ms_lifecycle s) = Running
       /\ ms_process s = Some p /\ g = lc_generation (ms_lifecycle s)
       /\ Status (ms_fanout s) aid = Ok (Attached, q).
Proof.
  intros Hr E Hin. destruct (mgr_reachable_ok _ _ _ Hr) as [Hout Hlife].
  unfold WriteStream, get in E. destruct (decide _) as [|Hlen]; [simplify_eq; set_solver|].
  destruct (mg_sessions m !! sid) as [s|] eqn:Hs; [|simplify_eq; set_solver].
  destruct (ms_liveProcess s) as [lp|] eqn:Hlp; [|simplify_eq; set_solver].
  destruct (decide _) as [|Hg]; [simplify_eq; set_solver|]. apply dec_stable in Hg.
  destruct (IsAttached _ _) eqn:Hat; [|simplify_eq; set_solver]. simpl in E. injection E as <- <-.
  apply list_elem_of_singleton in Hin as [= -> ->].
  destruct (ml_session _ Hlife _ _ Hs) as (_ & [_ _ Hlive _ _] & _).
  destruct (Hlive lp Hlp) as (Hrun & Hp & Hgen).
  split_and!; try done.
  - apply Decidable.not_or in Hlen as [Hd _]. destruct data; [done|]. simpl. lia.
  - change (Z.shiftl 256 10) with 262144 in Hlen. apply Decidable.not_or in Hlen as [_ Hle]. lia.
  - destruct (mo_session _ _ Hout _ _ Hs) as (_ & B & O & [_ _ _ [_ _ _ _ _ Ha _] _]).
    unfold IsAttached in Hat. apply bool_decide_eq_true, Ha in Hat.
    destruct (fo_attachments (ms_fanout s) !! aid) as [c|] eqn:Hc; [|done]. simpl in Hat. injection Hat as Hat.
    exists s, (ac_queuedBytes c). split_and!; [done..|congruence|]. unfold Status. by rewrite Hc, Hat.
Qed.

End Theorems.

(** ** Witnesses

    A manager without a store: a session is created, a client attaches, the process
    writes three bytes. *)

Definition demo_sha (l : list byte) : digest := l.
Definition demo_create : create_world :=
  mkCreateWorld false [] (FNone, 1) (Some 1%positive) (FNone, 1) (FNone, 1) FNone.
Definition demo_request : CreateRequest :=
  mkCreate "s1" "main" (mkCommand "/bin/sh" [] [] "/" (mkDims 80 24)).
Definition demo_small : ManagerConfig :=
  mkManagerConfig 8 1048576 (10 * second) (2 * second) 64 16 10000 "helper_restart".
Definition demo_m0 : Manager := mkManager demo_small ∅ ∅ false None empty_heap.
Definition demo_m1 : Manager := (@Create demo_json demo_create demo_m0 demo_request).1.1.
Definition demo_m2 : Manager := (Attach demo_m1 "s1" "a" 0).1.
Definition demo_m3 : Manager := (capture_read None 16 demo_m2 "s1" [x61; x62; x63]%byte).1.

Definition demo_s3 : managedSession :=
  default (mkManaged "" "" (cr_Command demo_request) NewLifecycle (mkHistory 0 0 0 0 [] 0 ∅) NewFanout None None None None "" 0 None)
    (mg_sessions demo_m3 !! "s1").

Lemma demo_m3_reachable : @mgr_reachable demo_sha demo_json (demo_m3, []).
Proof.
  exists demo_calm, false, (mkManagerConfig 8 0 0 0 0 0 0 ""), None, None, demo_m0. split; [by repeat split|].
  split; [done|]. split; [reflexivity|].
  eapply rtc_l; [eapply (step_Create _ demo_create demo_m0 _ demo_request demo_m1); apply pair_decompose|].
  eapply rtc_l; [eapply (step_Attach _ demo_m1 _ "s1" "a" 0 demo_m2); apply surjective_pairing|].
  apply rtc_once. eapply (step_capture _ None 16 demo_m2 _ "s1" [x61; x62; x63]%byte demo_m3); [done|].
  apply surjective_pairing.
Qed.


Lemma manager_attach_refused_witness :
  exists m', Attach demo_m3 "s1" "a" 0 = (m', Err (EFanout ErrAttachmentExists)) /\ mg_sessions m' = mg_sessions demo_m3.
Proof.
  destruct (@manager_attach_refused demo_sha demo_json demo_m3 [] "s1" demo_s3 "a" 0) as (m' & E & Hs & _);
    [exact demo_m3_reachable|reflexivity| |].
  - intros (_ & _ & _ & H). vm_compute in H. by apply H.
  - exists m'. split; [exact E|exact Hs].
Defined.

Lemma manager_capture_publishes_witness :
  exists m' evs s', capture_read None 16 demo_m3 "s1" [x64]%byte = (m', Some evs)
    /\ mg_sessions m' !! "s1" = Some s' /\ h_latest (ms_history s') = 4.
Proof.
  destruct (@manager_capture_publishes demo_sha demo_json None 16 demo_m3 [] "s1" demo_s3 [x64]%byte)
    as (m' & evs & s' & e & E & Hs & Hv & _); [exact demo_m3_reachable|reflexivity|done|by vm_compute|].
  exists m', evs, s'. split_and!; [exact E|exact Hs|]. exact (f_equal lg_end Hv).
Defined.

Lemma manager_buffers_safe_witness :
  exists e l, e ∈ all_refs (mg_sessions demo_m3) ++ [] /\ ev_owner e = Some l
    /\ 0 < refs_of (mg_heap demo_m3) l.
Proof.
  exists (mkEvent x01 0 3 [x61; x62; x63]%byte (Some 1%positive)), 1%positive.
  assert (He : mkEvent x01 0 3 [x61; x62; x63]%byte (Some 1%positive) ∈ all_refs (mg_sessions demo_m3) ++ []).
  { vm_compute. constructor. }
  split; [exact He|]. split; [reflexivity|].
  apply (@manager_buffers_safe demo_sha demo_json demo_m3 [] _ 1%positive demo_m3_reachable He). reflexivity.
Defined.

Lemma manager_stream_input_witness :
  WriteStream (mkOutcome 2 false) demo_m3 "s1" "a" 1 [x64; x65]%byte = (Ok tt, [EWrite 1%positive [x64; x65]%byte])
  /\ exists s q, mg_sessions demo_m3 !! "s1" = Some s /\ lc_state (ms_lifecycle s) = Running
       /\ ms_process s = Some 1%positive /\ 1 = lc_generation (ms_lifecycle s)
       /\ Status (ms_fanout s) "a" = Ok (Attached, q).
Proof.
  assert (E : WriteStream (mkOutcome 2 false) demo_m3 "s1" "a" 1 [x64; x65]%byte
              = (Ok tt, [EWrite 1%positive [x64; x65]%byte])) by (vm_compute; reflexivity).
  split; [exact E|].
  refine (proj2 (proj2 (proj2 (@manager_stream_input demo_sha demo_json (mkOutcome 2 false) demo_m3 [] "s1" "a" 1
    [x64; x65]%byte _ _ 1%positive [x64; x65]%byte demo_m3_reachable E _)))). constructor.
Defined.

