(* ===== verification/ManagerFindings.v ===== *)
(** * Runs that end where the code does not mean to

    Concrete executions of the manager, evaluated: a restart window that makes the next
    start of the helper fail, an invalid input key that does the same, a failed creation
    that leaves its row behind, and a capture goroutine that stops the persistence of
    the next generation. *)

From S2P Require Import Prelude Config Lifecycle Buffers History Input Fanout Store Manager ManagerOutput.
From S2P Require Import Recovery ManagerSessions ManagerTheorems.

Section Findings.
#[local] Existing Instance demo_json.

(** A store on which a session was created, and the process died before it ran. *)
Definition crashed_db : DB :=
  (CreateSession FNone 1 empty_DB
     (mkSession "s1" "main" "/" "/bin/sh" [] [] 80 24 (State_string Creating) 0 None "" None 0 0
        zero_time zero_time)).1.

Definition start (db : DB) : option DB * result manager_error Manager :=
  NewManager demo_calm false demo_config0 (Some db).

(** The restart of the recovered session: "restarting" is written, then nothing more. *)
Definition interrupted : restart_world := mkRestartWorld (FNone, 2) None (FBeforeCommit, 3) (FNone, 4).

Definition restarted_db : option DB :=
  match start crashed_db with
  | (_, Ok m) => mg_store (Restart interrupted m "s1").1.1
  | _ => None
  end.

(** A session recovered from "creating" can be restarted; interrupted after
    "restarting" is durable, it leaves a row on which the helper never starts again. *)
Example restart_window_unrecoverable :
  (exists m, (start crashed_db).2 = Ok m)
  /\ (d ← restarted_db; Some (start d).2) = Some (Err (ELifecycle ErrInvalidTransition)).
Proof. vm_compute. eauto. Qed.

(** A running session with a store, and an attached client. *)
Definition stored_m0 : Manager := mkManager demo_config ∅ ∅ false (Some empty_DB) empty_heap.
Definition stored_m1 : Manager := (Create demo_create stored_m0 demo_request).1.1.
Definition stored_m2 : Manager := (Attach stored_m1 "s1" "a" 0).1.

(** A write with an empty input identifier is refused and writes nothing to the PTY, but
    its decision is durable and the helper never starts again on that store. *)
Example invalid_input_unrecoverable :
  let '(m, r, eff) := Write demo_sha FNone FNone 5 (mkOutcome 1 false) stored_m2 "s1" (mkKey "c" "a" 1 "") [x61]%byte in
  r = Err (EInput ErrInvalidInput) /\ eff = []
  /\ (d ← mg_store m; Some (start d).2) = Some (Err (EInput ErrInvalidInput)).
Proof. vm_compute. split_and!; reflexivity. Qed.

(** A creation whose second store call fails is undone in memory; its row stays, as
    "running", the same name cannot be created again, and a restart brings it back. *)
Definition failing_create : create_world :=
  mkCreateWorld false [] (FNone, 1) (Some 1%positive) (FBeforeCommit, 1) (FNone, 1) FNone.
Definition ghost_m : Manager := (Create failing_create stored_m0 demo_request).1.1.

Example failed_create_leaves_row :
  (Create failing_create stored_m0 demo_request).1.2 = Err (EStore ErrIO)
  /\ mg_sessions ghost_m = ∅
  /\ (d ← mg_store ghost_m; r ← db_sessions d !! "s1"; Some (ss_State (sr_session r))) = Some "running"
  /\ (exists e, (Create demo_create ghost_m (mkCreate "s2" "main" (cr_Command demo_request))).1.2 = Err e)
  /\ (d ← mg_store ghost_m;
      match (start d).2 with Ok m => sn_Name <$> head (List m) | Err _ => None end) = Some "main".
Proof. vm_compute. split_and!; eauto. Qed.

(** A session closed and restarted before the capture goroutine of the first process has
    finished: the end of that goroutine takes away the persistence of the new process. *)
Definition clean_close : close_world :=
  mkCloseWorld false (FNone, 2) (mkExit 0 "" 2) (TermDone (mkExit 0 "" 2) false) (FNone, 3).
Definition clean_restart : restart_world := mkRestartWorld (FNone, 4) (Some 2%positive) (FNone, 4) (FNone, 5).
Definition reopened_m : Manager := (Restart clean_restart (Close clean_close stored_m2 "s1").1.1 "s1").1.1.
Definition stale_end_m : Manager := capture_end (FNone, 6) (mkExit 0 "" 6) reopened_m "s1" 1%positive.

Example stale_capture_stops_persistence :
  (s ← mg_sessions reopened_m !! "s1"; Some (lc_state (ms_lifecycle s), ms_process s, ms_persistNotify s))
    = Some (Running, Some 2%positive, Some false)
  /\ (s ← mg_sessions stale_end_m !! "s1"; Some (lc_state (ms_lifecycle s), ms_process s, ms_persistNotify s))
    = Some (Running, Some 2%positive, None).
Proof. vm_compute. split; reflexivity. Qed.
End Findings.
