(* ===== verification/Wire.v ===== *)
(** * Byte streams: [io.Reader], [io.Writer] and the loops on top of them

    A reader is the bytes it will deliver and the error it ends with.  A writer is what
    it has accepted so far and how it will answer the next calls; an [io.Writer] takes
    at most the slice it is given.  [writeAll] ([internal/protocol/binary.go]) and
    [writeFull] ([internal/nativeproto]) are the same loop. *)

From S2P Require Import Prelude.

#[global] Arguments be_put : simpl never.
#[global] Arguments be_get : simpl never.

Inductive io_error := EOF | ErrUnexpectedEOF | ErrShortWrite | EOther (code : Z).

#[global] Instance io_error_eq_dec : EqDecision io_error.
Proof. solve_decision. Defined.

(** ** Reading *)

Record reader := mkReader { rd_bytes : list byte; rd_end : io_error }.

(** [io.ReadFull] of [n] bytes; how the reader cuts its bytes into reads is irrelevant. *)
Definition ReadFull (r : reader) (n : Z) : reader * result io_error (list byte) :=
  if decide (n <= len (rd_bytes r))
  then (mkReader (drop (Z.to_nat n) (rd_bytes r)) (rd_end r), Ok (take (Z.to_nat n) (rd_bytes r)))
  else (mkReader [] (rd_end r),
        Err (if decide (rd_bytes r <> [] /\ rd_end r = EOF) then ErrUnexpectedEOF else rd_end r)).

(** ** Writing *)

(** What a call of [Write] answers: how many bytes it would take, and an error. *)
Record answer := mkAnswer { an_takes : nat; an_err : option io_error }.

(** Once its answers are used up, the writer takes everything. *)
Record writer := mkWriter { wr_out : list byte; wr_answers : list answer }.

Definition Write (w : writer) (p : list byte) : writer * Z * option io_error :=
  match wr_answers w with
  | [] => (mkWriter (wr_out w ++ p) [], len p, None)
  | a :: rest =>
      let n := (an_takes a `min` length p)%nat in
      (mkWriter (wr_out w ++ take n p) rest, Z.of_nat n, an_err a)
  end.

(** [None]: out of fuel. *)
Fixpoint writeAll_loop (fuel : nat) (w : writer) (p : list byte) : option (writer * result io_error unit) :=
  match fuel with
  | O => None
  | S fuel =>
      if decide (len p > 0) then
        let '(w1, n, err) := Write w p in
        match err with
        | Some e => Some (w1, Err e)
        | None => if decide (n = 0) then Some (w1, Err ErrShortWrite)
                  else writeAll_loop fuel w1 (drop (Z.to_nat n) p)
        end
      else Some (w, Ok tt)
  end.

(** Every turn takes at least one byte, so the fuel below is never used up
    ([writeAll_total]). *)
Definition writeAll (w : writer) (p : list byte) : writer * result io_error unit :=
  default (w, Err ErrShortWrite) (writeAll_loop (S (length p)) w p).

(** A writer that takes at least one byte per call and never fails. *)
Definition willing (w : writer) : Prop :=
  Forall (fun a => an_err a = None /\ (0 < an_takes a)%nat) (wr_answers w).

(** ** Lemmas *)

Lemma be_get_put2 z : 0 <= z < two16 -> be_get (be_put 2 z) = z.
Proof. intros. by apply be_get_put_small. Qed.
Lemma be_get_put4 z : 0 <= z < two32 -> be_get (be_put 4 z) = z.
Proof. intros. by apply be_get_put_small. Qed.
Lemma be_get_put8 z : 0 <= z < two64 -> be_get (be_put 8 z) = z.
Proof. intros. by apply be_get_put_small. Qed.

Lemma slice_mid {A} (a b c l : list A) i j :
  l = a ++ b ++ c -> len a = i -> i + len b = j -> slice l i j = b.
Proof.
  intros -> <- <-. rewrite slice_app_r by lia. rewrite slice_app_l by lia.
  rewrite Z.sub_diag. replace (_ + _ - _) with (len b) by lia. apply slice_full.
Qed.

Lemma slice_tail {A} (a b l : list A) i : l = a ++ b -> len a = i -> slice l i (len l) = b.
Proof.
  intros -> <-. rewrite slice_app_r by lia. rewrite Z.sub_diag, length_app.
  replace (_ - _) with (len b) by lia. apply slice_full.
Qed.

(** The lengths of fields put together. *)
Ltac lens := rewrite ?length_app, ?length_be_put; simpl; lia.

Lemma be_get_length n l : length l = n -> 0 <= be_get l < 256 ^ Z.of_nat n.
Proof. intros <-. apply be_get_range. Qed.

Lemma be_put_get_length n l : length l = n -> be_put n (be_get l) = l.
Proof. intros <-. apply be_put_get. Qed.

Lemma ReadFull_app r n a b :
  rd_bytes r = a ++ b -> len a = n -> ReadFull r n = (mkReader b (rd_end r), Ok a).
Proof.
  intros E <-. unfold ReadFull. rewrite E, length_app. rewrite decide_True by lia.
  rewrite Nat2Z.id, drop_app_length, take_app_length. done.
Qed.

Lemma ReadFull_ok r n r' a :
  0 <= n -> ReadFull r n = (r', Ok a) ->
  rd_bytes r = a ++ rd_bytes r' /\ len a = n /\ rd_end r' = rd_end r.
Proof.
  unfold ReadFull. intros Hn. case_decide; [|done]. intros [= <- <-]. simpl.
  rewrite take_drop, length_take. split_and!; [done|lia|done].
Qed.

Lemma Write_spec w p w1 n err :
  Write w p = (w1, n, err) ->
  0 <= n <= len p /\ wr_out w1 = wr_out w ++ take (Z.to_nat n) p
  /\ (willing w -> willing w1 /\ err = None /\ (0 < len p -> 0 < n)).
Proof.
  unfold Write, willing. destruct (wr_answers w) as [|a rest] eqn:E; intros [= <- <- <-]; simpl.
  - rewrite Nat2Z.id, firstn_all. split_and!; (done || lia).
  - split_and!; [lia|lia|by rewrite Nat2Z.id|]. intros Hw. inversion Hw as [|? ? [Ha Ht] Hr]; subst.
    split_and!; [done|done|lia].
Qed.

Lemma writeAll_loop_spec fuel : forall w p,
  (length p < fuel)%nat ->
  exists w1 r k, writeAll_loop fuel w p = Some (w1, r) /\ wr_out w1 = wr_out w ++ take k p
    /\ (r = Ok tt -> wr_out w1 = wr_out w ++ p) /\ (willing w -> r = Ok tt /\ willing w1).
Proof.
  induction fuel as [|fuel IH]; intros w p Hf; [lia|]. cbn [writeAll_loop]. case_decide as Hp; cycle 1.
  { destruct p; [|simpl in Hp; lia]. exists w, (Ok tt), O. rewrite !app_nil_r. split_and!; auto. }
  destruct (Write w p) as [[w1 n] err] eqn:E. apply Write_spec in E as (Hn & Ho & Hw).
  destruct err as [e|].
  { eexists _, _, _. split_and!; [done|exact Ho|done|]. intros Hx. by destruct (Hw Hx) as (_ & ? & _). }
  case_decide as Hz.
  { eexists _, _, _. split_and!; [done|exact Ho|done|]. intros Hx. destruct (Hw Hx) as (_ & _ & Hpos). lia. }
  destruct (IH w1 (drop (Z.to_nat n) p)) as (w2 & r & k & -> & Ho2 & Hok & Hwill).
  { rewrite length_drop. lia. }
  exists w2, r, (Z.to_nat n + k)%nat. split_and!; [done| | |].
  - rewrite Ho2, Ho, <- app_assoc. f_equal. apply take_take_drop_app.
  - intros Hr. rewrite (Hok Hr), Ho, <- app_assoc. f_equal. apply take_drop.
  - intros Hx. destruct (Hw Hx) as (Hw1 & _). auto.
Qed.

(** The loop ends, has written a prefix of the slice in order, and the whole slice when
    it reports no error. *)
Lemma writeAll_total w p :
  writeAll_loop (S (length p)) w p = Some (writeAll w p)
  /\ (exists k, wr_out (writeAll w p).1 = wr_out w ++ take k p)
  /\ ((writeAll w p).2 = Ok tt -> wr_out (writeAll w p).1 = wr_out w ++ p)
  /\ (willing w -> (writeAll w p).2 = Ok tt /\ willing (writeAll w p).1).
Proof.
  destruct (writeAll_loop_spec (S (length p)) w p) as (w1 & r & k & E & Ho & Hok & Hw); [lia|].
  unfold writeAll. rewrite E. simpl. eauto.
Qed.

Lemma writeAll_ok w p w1 : writeAll w p = (w1, Ok tt) -> wr_out w1 = wr_out w ++ p.
Proof. intros E. destruct (writeAll_total w p) as (_ & _ & H & _). rewrite E in H. by apply H. Qed.

Lemma writeAll_willing w p :
  willing w -> exists w1, writeAll w p = (w1, Ok tt) /\ wr_out w1 = wr_out w ++ p /\ willing w1.
Proof.
  intros H. destruct (writeAll_total w p) as (_ & _ & Hok & Hw). destruct (Hw H) as [Hr Hw1].
  destruct (writeAll w p) as [w1 r]. simpl in *. subst. eauto.
Qed.

(** Writing a slice to an [io.Writer] always ends, after at most one call per byte
    however short its writes are; what reached the writer is a prefix of the slice, in
    order, and all of it exactly when no error is reported; a writer that makes progress
    without errors gets all of it. *)
Theorem write_loop_total (w : writer) (p : list byte) :
  exists w1 r k, writeAll_loop (S (length p)) w p = Some (w1, r) /\ writeAll w p = (w1, r)
    /\ wr_out w1 = wr_out w ++ take k p
    /\ (r = Ok tt -> wr_out w1 = wr_out w ++ p) /\ (willing w -> r = Ok tt).
Proof.
  destruct (writeAll_loop_spec (S (length p)) w p) as (w1 & r & k & E & Ho & Hok & Hw); [lia|].
  exists w1, r, k. unfold writeAll. rewrite E. split_and!; try done. intros H. by apply Hw.
Qed.
