(* ===== verification/Binary.v ===== *)
(** * Length-prefixed binary frames ([internal/protocol/binary.go], [close.go])

    The codes of protocol errors and the WebSocket close codes they map to, and the
    codec of binary frames: a 32-bit length, a channel, a 64-bit start sequence and the
    data.  [frame_bytes] is the wire image of a frame; reading and writing are shown to
    be inverse to each other on it. *)

From S2P Require Import Prelude Wire.

(** ** Errors ([frame.go], [binary.go], [negotiation.go]) *)

Inductive Code :=
| Malformed | Oversized | UnsupportedMessage | InvalidFrame | CapabilityRequired
| InvalidDeadline | CredentialExpired | UnsupportedChannel | ProtocolIncompatible.

#[global] Instance Code_eq_dec : EqDecision Code.
Proof. solve_decision. Defined.

(** An error with a protocol code, or one passed on from the stream. *)
Inductive perror := PError (c : Code) | PStream (e : io_error).

#[global] Instance perror_eq_dec : EqDecision perror.
Proof. solve_decision. Defined.

Definition CloseNormal : Z := 1000.
Definition CloseUnauthorized : Z := 4401.
Definition CloseIncompatible : Z := 4406.
Definition CloseMalformed : Z := 4409.
Definition CloseUnavailable : Z := 4503.

Definition CloseCode (err : option perror) : Z :=
  match err with
  | None => CloseNormal
  | Some (PStream _) => CloseUnavailable
  | Some (PError c) =>
      match c with
      | CredentialExpired => CloseUnauthorized
      | ProtocolIncompatible | CapabilityRequired => CloseIncompatible
      | Malformed | Oversized | UnsupportedMessage | InvalidFrame | InvalidDeadline
      | UnsupportedChannel => CloseMalformed
      end
  end.

(** ** Frames *)

Definition MaxBinaryFrame : Z := Z.shiftl 256 10.
Definition binaryHeaderLen : Z := 9.
Definition Stdout : byte := x01.
Definition Stderr : byte := x02.
Definition TerminalInput : byte := x03.

Record BinaryFrame := mkBinaryFrame { bf_Channel : byte; bf_StartSequence : Z; bf_Data : list byte }.

Definition EndSequence (f : BinaryFrame) : result perror Z :=
  if decide (max_uint64 - bf_StartSequence f < len (bf_Data f)) then Err (PError InvalidFrame)
  else Ok (u64_add (bf_StartSequence f) (len (bf_Data f))).

Definition known_channel (c : byte) : bool := bool_decide (c = Stdout \/ c = Stderr \/ c = TerminalInput).

Definition ReadBinaryFrame (r : reader) : reader * result perror BinaryFrame :=
  match ReadFull r 4 with
  | (r1, Err e) => (r1, Err (PStream e))
  | (r1, Ok prefix) =>
      let n := be_get prefix in
      if decide (n < binaryHeaderLen) then (r1, Err (PError InvalidFrame))
      else if decide (MaxBinaryFrame < n) then (r1, Err (PError Oversized))
      else match ReadFull r1 binaryHeaderLen with
      | (r2, Err _) => (r2, Err (PError InvalidFrame))
      | (r2, Ok header) =>
          let channel := default x00 (header !! 0%nat) in
          if negb (known_channel channel) then (r2, Err (PError UnsupportedChannel))
          else match ReadFull r2 (n - binaryHeaderLen) with
          | (r3, Err _) => (r3, Err (PError InvalidFrame))
          | (r3, Ok data) =>
              let f := mkBinaryFrame channel (be_get (drop 1 header)) data in
              (r3, let? _ := EndSequence f in Ok f)
          end
      end
  end.

Definition WriteBinaryFrame (w : writer) (f : BinaryFrame) : writer * result perror unit :=
  if negb (known_channel (bf_Channel f)) then (w, Err (PError UnsupportedChannel))
  else if decide (MaxBinaryFrame - binaryHeaderLen < len (bf_Data f)) then (w, Err (PError Oversized))
  else match EndSequence f with
  | Err e => (w, Err e)
  | Ok _ =>
      let wireHeader := be_put 4 (binaryHeaderLen + len (bf_Data f))
                          ++ [bf_Channel f] ++ be_put 8 (bf_StartSequence f) in
      match writeAll w wireHeader with
      | (w1, Err e) => (w1, Err (PStream e))
      | (w1, Ok _) =>
          match writeAll w1 (bf_Data f) with
          | (w2, Err e) => (w2, Err (PStream e))
          | (w2, Ok _) => (w2, Ok tt)
          end
      end
  end.

(** ** What the frames on the wire are *)

Definition frame_bytes (f : BinaryFrame) : list byte :=
  be_put 4 (binaryHeaderLen + len (bf_Data f)) ++ bf_Channel f :: be_put 8 (bf_StartSequence f) ++ bf_Data f.

#[global] Arguments frame_bytes : simpl never.

(** A frame a peer may send: a known channel, a size within the limit, and sequence
    numbers that do not wrap. *)
Definition sendable (f : BinaryFrame) : Prop :=
  known_channel (bf_Channel f) = true /\ len (bf_Data f) <= MaxBinaryFrame - binaryHeaderLen
  /\ 0 <= bf_StartSequence f /\ bf_StartSequence f + len (bf_Data f) < two64.

Lemma EndSequence_ok f :
  0 <= bf_StartSequence f -> bf_StartSequence f + len (bf_Data f) < two64 ->
  EndSequence f = Ok (bf_StartSequence f + len (bf_Data f)).
Proof.
  intros H1 H2. unfold EndSequence. rewrite decide_False by (unfold max_uint64, two64 in *; lia).
  by rewrite u64_add_small by lia.
Qed.

Lemma EndSequence_inv f z :
  EndSequence f = Ok z -> bf_StartSequence f + len (bf_Data f) < two64.
Proof. unfold EndSequence. case_decide; [done|]. intros _. unfold max_uint64, two64 in *. lia. Qed.

Lemma MaxBinaryFrame_val : MaxBinaryFrame = 262144.
Proof. reflexivity. Qed.

Lemma WriteBinaryFrame_ok w f w' :
  WriteBinaryFrame w f = (w', Ok tt) -> wr_out w' = wr_out w ++ frame_bytes f.
Proof.
  unfold WriteBinaryFrame, frame_bytes. destruct (negb _); [done|]. case_decide; [done|].
  destruct (EndSequence f); [|done].
  destruct (writeAll w _) as [w1 [[]|]] eqn:E1; [|done].
  destruct (writeAll w1 _) as [w2 [[]|]] eqn:E2; [|done]. intros [= <-].
  apply writeAll_ok in E1, E2. rewrite E2, E1, <- !app_assoc. done.
Qed.

Lemma WriteBinaryFrame_willing w f :
  willing w -> sendable f -> exists w', WriteBinaryFrame w f = (w', Ok tt) /\ willing w'.
Proof.
  intros Hw (Hc & Hl & H0 & Hs). unfold WriteBinaryFrame. rewrite Hc. simpl.
  rewrite decide_False by lia. rewrite EndSequence_ok by done.
  match goal with |- context [writeAll w ?h] => destruct (writeAll_willing w h Hw) as (w1 & -> & _ & Hw1) end.
  destruct (writeAll_willing w1 (bf_Data f) Hw1) as (w2 & -> & _ & Hw2). eauto.
Qed.

(** Reading the image of a frame gives the frame and leaves what follows. *)
Lemma ReadBinaryFrame_bytes f rest e :
  sendable f -> ReadBinaryFrame (mkReader (frame_bytes f ++ rest) e) = (mkReader rest e, Ok f).
Proof.
  intros (Hc & Hl & H0 & Hs). unfold ReadBinaryFrame, frame_bytes. rewrite <- app_assoc.
  set (L := binaryHeaderLen + len (bf_Data f)).
  assert (HL : 9 <= L <= MaxBinaryFrame) by (unfold L, binaryHeaderLen in *; lia).
  erewrite (ReadFull_app _ 4 (be_put 4 L)) by (simpl; reflexivity).
  rewrite be_get_put4 by (rewrite MaxBinaryFrame_val in HL; unfold two32; lia).
  unfold binaryHeaderLen at 1. rewrite !decide_False by lia. simpl rd_end.
  rewrite (ReadFull_app _ _ (bf_Channel f :: be_put 8 (bf_StartSequence f)) (bf_Data f ++ rest))
    by reflexivity.
  cbn [lookup list_lookup default from_option id rd_end]. cbn [drop]. rewrite drop_0, Hc. cbn [negb].
  rewrite (ReadFull_app _ _ (bf_Data f) rest) by (done || (unfold L, binaryHeaderLen; lia)).
  rewrite be_get_put8 by lia.
  replace (mkBinaryFrame _ _ _) with f by (by destruct f). by rewrite EndSequence_ok.
Qed.

Lemma ReadBinaryFrame_inv r r' f :
  ReadBinaryFrame r = (r', Ok f) ->
  sendable f /\ rd_bytes r = frame_bytes f ++ rd_bytes r' /\ rd_end r' = rd_end r.
Proof.
  unfold ReadBinaryFrame. destruct (ReadFull r 4) as [r1 [prefix|]] eqn:E1; [|done].
  apply ReadFull_ok in E1 as (B1 & L1 & N1); [|lia].
  case_decide as D1; [done|]. case_decide as D2; [done|].
  destruct (ReadFull r1 _) as [r2 [header|]] eqn:E2; [|done].
  apply ReadFull_ok in E2 as (B2 & L2 & N2); [|unfold binaryHeaderLen; lia].
  destruct header as [|c seq]; [by unfold binaryHeaderLen in L2|]. cbn [lookup list_lookup default from_option id drop].
  destruct (known_channel c) eqn:Hc; [|done]. cbn [negb].
  destruct (ReadFull r2 _) as [r3 [data|]] eqn:E3; [|done].
  apply ReadFull_ok in E3 as (B3 & L3 & N3); [|lia].
  destruct (EndSequence _) as [z|] eqn:E4; [|done]. apply EndSequence_inv in E4. simpl in E4. rewrite ?drop_0 in *.
  intros Hq. injection Hq as <- <-. assert (Hs : length seq = 8%nat) by (unfold binaryHeaderLen in L2; simpl in L2; lia).
  pose proof (be_get_length 8 seq Hs).
  assert (Himg : frame_bytes (mkBinaryFrame c (be_get seq) data) = prefix ++ (c :: seq) ++ data).
  { unfold frame_bytes. cbn [bf_Channel bf_StartSequence bf_Data]. rewrite L3, Zplus_minus.
    rewrite (be_put_get_length 4) by lia. by rewrite (be_put_get_length 8). }
  split; [|split; [|congruence]].
  - unfold sendable. cbn [bf_Channel bf_StartSequence bf_Data]. split_and!; (done || lia).
  - by rewrite Himg, B1, B2, B3, <- !app_assoc.
Qed.

(** ** Theorems *)

(** A frame that may be sent survives the wire: written to any writer that makes
    progress, however little it takes per call, and read back from the bytes it added,
    it is the same frame, and what follows on the stream is untouched. *)
Theorem binary_roundtrip (w : writer) (f : BinaryFrame) (rest : list byte) (e : io_error) :
  willing w -> sendable f ->
  exists w' wire, WriteBinaryFrame w f = (w', Ok tt) /\ wr_out w' = wr_out w ++ wire
    /\ ReadBinaryFrame (mkReader (wire ++ rest) e) = (mkReader rest e, Ok f).
Proof.
  intros Hw Hf. destruct (WriteBinaryFrame_willing w f Hw Hf) as (w' & E & _).
  exists w', (frame_bytes f). split_and!; [done|by apply WriteBinaryFrame_ok|by apply ReadBinaryFrame_bytes].
Qed.

(** The reader accepts exactly the images of sendable frames: it returns a frame
    if and only if the stream starts with that frame's image, so every frame has one
    encoding and a reader never runs past the frame it returns. *)
Theorem binary_read_exact (r r' : reader) (f : BinaryFrame) :
  ReadBinaryFrame r = (r', Ok f)
  <-> sendable f /\ rd_bytes r = frame_bytes f ++ rd_bytes r' /\ rd_end r' = rd_end r.
Proof.
  split; [apply ReadBinaryFrame_inv|]. intros (Hf & Hb & He).
  destruct r as [b e], r' as [b' e']. simpl in *. subst. by apply ReadBinaryFrame_bytes.
Qed.

(** *** Witnesses *)

Definition demo_frame : BinaryFrame := mkBinaryFrame Stdout 7 [x61; x62]%byte.

Lemma binary_roundtrip_witness :
  exists w' wire, WriteBinaryFrame (mkWriter [] [mkAnswer 3 None; mkAnswer 1 None]) demo_frame = (w', Ok tt)
    /\ wr_out w' = [] ++ wire
    /\ ReadBinaryFrame (mkReader (wire ++ [x00]%byte) EOF) = (mkReader [x00]%byte EOF, Ok demo_frame).
Proof.
  apply (binary_roundtrip (mkWriter [] [mkAnswer 3 None; mkAnswer 1 None]) demo_frame [x00]%byte EOF).
  - repeat constructor.
  - vm_compute. repeat split; discriminate.
Defined.
