(* ===== verification/Terminal.v ===== *)
(** * Terminal v1 frames ([internal/protocol/terminal_v1.go])

    One WebSocket message per frame: input, output, acknowledgement and resize.  An
    encoder writes into the buffer the caller lends it ([growFrame]); the buffer is
    modelled by its whole capacity, so that what it held before is visible and shown to
    be irrelevant.  The zstd library is the parameter [Zstd]; the walk over the blocks of
    a zstd frame ([zstdFrameSize]) is the program's own and is modelled with fuel. *)

From S2P Require Import Prelude Wire Binary.

(** ** Constants *)

Definition TerminalInputOpcode : byte := x01.
Definition TerminalOutputOpcode : byte := x02.
Definition TerminalACKOpcode : byte := x03.
Definition TerminalResizeOpcode : byte := x04.
Definition TerminalStdout : byte := x01.
Definition TerminalStderr : byte := x02.
Definition terminalInputHeaderLen : Z := 13.
Definition terminalOutputHeaderLen : Z := 19.
Definition TerminalOutputRaw : byte := x00.
Definition TerminalOutputZstd : byte := x01.
Definition TerminalOutputMinCompress : Z := 1024.
Definition TerminalOutputMinSavingsBytes : Z := 32.
Definition TerminalOutputMinSavingsPercent : Z := 5.
Definition MaxTerminalOutputBytes : Z := MaxBinaryFrame - terminalOutputHeaderLen.
Definition terminalACKLen : Z := 13.
Definition terminalResizeLen : Z := 17.

(** ** Frames *)

Record TerminalInputFrame := mkTInput { ti_StreamID : Z; ti_Sequence : Z; ti_Data : list byte }.

Record TerminalOutputFrame := mkTOutput {
  to_Channel : byte;
  to_StreamID : Z;
  to_StartSequence : Z;
  to_Encoding : byte;
  to_UncompressedLength : Z;
  to_Data : list byte
}.

Record TerminalOutputInfo := mkTInfo {
  tf_Encoding : byte;
  tf_StreamID : Z;
  tf_StartSequence : Z;
  tf_UncompressedLength : Z
}.

Record TerminalACKFrame := mkTACK { ta_StreamID : Z; ta_NextSequence : Z }.

Record TerminalResizeFrame := mkTResize {
  tr_StreamID : Z; tr_Columns : Z; tr_Rows : Z; tr_Sequence : Z
}.

(** ** Buffers *)

(** [message[0]] of a message known to be non-empty. *)
Definition at0 (message : list byte) (i : nat) : byte := default x00 (message !! i).

(** Writing [bs] over [l[off:]]. *)
Definition put_at (l : list byte) (off : nat) (bs : list byte) : list byte :=
  take off l ++ bs ++ drop (off + length bs) l.

(** [dst] is the buffer up to its capacity. *)
Definition growFrame (dst : list byte) (size : Z) : list byte :=
  if decide (len dst < size) then replicate (Z.to_nat size) x00 else take (Z.to_nat size) dst.

(** ** Input, acknowledgement and resize *)

Definition EncodeTerminalInput (frame : TerminalInputFrame) (dst : list byte) : result perror (list byte) :=
  if decide (ti_StreamID frame = 0 \/ ti_Sequence frame = 0 \/ len (ti_Data frame) = 0
             \/ MaxBinaryFrame - terminalInputHeaderLen < len (ti_Data frame))
  then Err (PError InvalidFrame)
  else
    let dst := growFrame dst (terminalInputHeaderLen + len (ti_Data frame)) in
    let dst := put_at dst 0 [TerminalInputOpcode] in
    let dst := put_at dst 1 (be_put 4 (ti_StreamID frame)) in
    let dst := put_at dst 5 (be_put 8 (ti_Sequence frame)) in
    Ok (put_at dst 13 (ti_Data frame)).

Definition DecodeTerminalInput (message : list byte) : result perror TerminalInputFrame :=
  if decide (len message <= terminalInputHeaderLen \/ MaxBinaryFrame < len message
             \/ at0 message 0 <> TerminalInputOpcode)
  then Err (PError InvalidFrame)
  else
    let frame := mkTInput (be_get (slice message 1 5)) (be_get (slice message 5 13))
                   (slice message 13 (len message)) in
    if decide (ti_StreamID frame = 0 \/ ti_Sequence frame = 0) then Err (PError InvalidFrame)
    else Ok frame.

Definition EncodeTerminalACK (frame : TerminalACKFrame) (dst : list byte) : result perror (list byte) :=
  if decide (ta_StreamID frame = 0) then Err (PError InvalidFrame)
  else
    let dst := growFrame dst terminalACKLen in
    let dst := put_at dst 0 [TerminalACKOpcode] in
    let dst := put_at dst 1 (be_put 4 (ta_StreamID frame)) in
    Ok (put_at dst 5 (be_put 8 (ta_NextSequence frame))).

Definition DecodeTerminalACK (message : list byte) : result perror TerminalACKFrame :=
  if decide (len message <> terminalACKLen \/ at0 message 0 <> TerminalACKOpcode)
  then Err (PError InvalidFrame)
  else
    let frame := mkTACK (be_get (slice message 1 5)) (be_get (slice message 5 13)) in
    if decide (ta_StreamID frame = 0) then Err (PError InvalidFrame) else Ok frame.

Definition EncodeTerminalResize (frame : TerminalResizeFrame) (dst : list byte) : result perror (list byte) :=
  if decide (tr_StreamID frame = 0 \/ tr_Columns frame = 0 \/ tr_Rows frame = 0 \/ tr_Sequence frame = 0)
  then Err (PError InvalidFrame)
  else
    let dst := growFrame dst terminalResizeLen in
    let dst := put_at dst 0 [TerminalResizeOpcode] in
    let dst := put_at dst 1 (be_put 4 (tr_StreamID frame)) in
    let dst := put_at dst 5 (be_put 2 (tr_Columns frame)) in
    let dst := put_at dst 7 (be_put 2 (tr_Rows frame)) in
    Ok (put_at dst 9 (be_put 8 (tr_Sequence frame))).

Definition DecodeTerminalResize (message : list byte) : result perror TerminalResizeFrame :=
  if decide (len message <> terminalResizeLen \/ at0 message 0 <> TerminalResizeOpcode)
  then Err (PError InvalidFrame)
  else
    let frame := mkTResize (be_get (slice message 1 5)) (be_get (slice message 5 7))
                   (be_get (slice message 7 9)) (be_get (slice message 9 17)) in
    if decide (tr_StreamID frame = 0 \/ tr_Columns frame = 0 \/ tr_Rows frame = 0 \/ tr_Sequence frame = 0)
    then Err (PError InvalidFrame) else Ok frame.

Definition TerminalOpcode (message : list byte) : result perror byte :=
  match message with
  | [] => Err (PError InvalidFrame)
  | op :: _ =>
      if decide (byte_val op < byte_val TerminalInputOpcode \/ byte_val TerminalResizeOpcode < byte_val op)
      then Err (PError UnsupportedChannel) else Ok op
  end.

(** ** Output *)

(** The zstd library: the parsed header of a frame, one-shot encoding and decoding. *)
Record ZHeader := mkZHeader {
  zh_Skippable : bool;
  zh_DictionaryID : Z;
  zh_HasFCS : bool;
  zh_FrameContentSize : Z;
  zh_SingleSegment : bool;
  zh_WindowSize : Z;
  zh_HeaderSize : Z;
  zh_HasCheckSum : bool
}.

Class Zstd := {
  zstd_header : list byte -> option ZHeader;
  zstd_EncodeAll : list byte -> list byte;
  zstd_DecodeAll : list byte -> option (list byte)
}.

Inductive zstd_error := ZBlockHeader | ZReserved | ZBlock | ZCheckSum.

(** One turn reads a block header and skips the block; [None]: out of fuel. *)
Fixpoint zstdFrameSize_loop (fuel : nat) (payload : list byte) (checksum : bool) (offset : Z)
    : option (result zstd_error Z) :=
  match fuel with
  | O => None
  | S fuel =>
      if decide (len payload - offset < 3) then Some (Err ZBlockHeader)
      else
        let b i := byte_val (at0 payload (Z.to_nat (offset + i))) in
        let block := Z.lor (Z.lor (b 0) (Z.shiftl (b 1) 8)) (Z.shiftl (b 2) 16) in
        let offset := offset + 3 in
        let last := negb (Z.eqb (Z.land block 1) 0) in
        let blockType := Z.land (Z.shiftr block 1) 3 in
        let blockSize := Z.shiftr block 3 in
        if decide (blockType = 3) then Some (Err ZReserved)
        else
          let payloadSize := if decide (blockType = 1) then 1 else blockSize in
          if decide (payloadSize < 0 \/ len payload - offset < payloadSize) then Some (Err ZBlock)
          else
            let offset := offset + payloadSize in
            if last then
              if checksum then
                if decide (len payload - offset < 4) then Some (Err ZCheckSum) else Some (Ok (offset + 4))
              else Some (Ok offset)
            else zstdFrameSize_loop fuel payload checksum offset
  end.

Definition zstdFrameSize (payload : list byte) (header : ZHeader) : result zstd_error Z :=
  default (Err ZBlockHeader)
    (zstdFrameSize_loop (S (length payload)) payload (zh_HasCheckSum header) (zh_HeaderSize header)).

Record CompressionMetrics := mkMetrics {
  cp_SmallFrames : Z;
  cp_InsufficientFrames : Z;
  cp_CompressedFrames : Z;
  cp_RawBytes : Z;
  cp_EncodedBytes : Z;
  cp_EncodeFailures : Z;
  cp_DecodeFailures : Z;
  cp_EncodeNanos : Z;
  cp_DecodeNanos : Z
}.

Inductive decision := SmallFrame | InsufficientFrame | CompressedFrame.

Definition count_encode_failure (m : CompressionMetrics) : CompressionMetrics :=
  mkMetrics (cp_SmallFrames m) (cp_InsufficientFrames m) (cp_CompressedFrames m) (cp_RawBytes m)
    (cp_EncodedBytes m) (u64_add (cp_EncodeFailures m) 1) (cp_DecodeFailures m) (cp_EncodeNanos m)
    (cp_DecodeNanos m).
Definition count_decode_failure (m : CompressionMetrics) : CompressionMetrics :=
  mkMetrics (cp_SmallFrames m) (cp_InsufficientFrames m) (cp_CompressedFrames m) (cp_RawBytes m)
    (cp_EncodedBytes m) (cp_EncodeFailures m) (u64_add (cp_DecodeFailures m) 1) (cp_EncodeNanos m)
    (cp_DecodeNanos m).
Definition count_encode_nanos (m : CompressionMetrics) (n : Z) : CompressionMetrics :=
  mkMetrics (cp_SmallFrames m) (cp_InsufficientFrames m) (cp_CompressedFrames m) (cp_RawBytes m)
    (cp_EncodedBytes m) (cp_EncodeFailures m) (cp_DecodeFailures m) (u64_add (cp_EncodeNanos m) n)
    (cp_DecodeNanos m).
Definition count_decode_nanos (m : CompressionMetrics) (n : Z) : CompressionMetrics :=
  mkMetrics (cp_SmallFrames m) (cp_InsufficientFrames m) (cp_CompressedFrames m) (cp_RawBytes m)
    (cp_EncodedBytes m) (cp_EncodeFailures m) (cp_DecodeFailures m) (cp_EncodeNanos m)
    (u64_add (cp_DecodeNanos m) n).
Definition count_frame (m : CompressionMetrics) (d : decision) (raw encoded : Z) : CompressionMetrics :=
  mkMetrics
    (u64_add (cp_SmallFrames m) (if d is SmallFrame then 1 else 0))
    (u64_add (cp_InsufficientFrames m) (if d is InsufficientFrame then 1 else 0))
    (u64_add (cp_CompressedFrames m) (if d is CompressedFrame then 1 else 0))
    (u64_add (cp_RawBytes m) raw) (u64_add (cp_EncodedBytes m) encoded) (cp_EncodeFailures m)
    (cp_DecodeFailures m) (cp_EncodeNanos m) (cp_DecodeNanos m).

Definition EncodeTerminalOutput (frame : TerminalOutputFrame) (dst : list byte) : result perror (list byte) :=
  let declared := to_UncompressedLength frame in
  let declared := if decide (declared = 0 /\ to_Encoding frame = TerminalOutputRaw)
                  then len (to_Data frame) mod two32 else declared in
  if decide ((to_Channel frame <> TerminalStdout /\ to_Channel frame <> TerminalStderr)
             \/ to_StreamID frame = 0 \/ len (to_Data frame) = 0
             \/ MaxBinaryFrame - terminalOutputHeaderLen < len (to_Data frame)
             \/ declared = 0 \/ MaxBinaryFrame - terminalOutputHeaderLen < declared
             \/ max_uint64 - to_StartSequence frame < declared)
  then Err (PError InvalidFrame)
  else if decide (to_Encoding frame <> TerminalOutputRaw /\ to_Encoding frame <> TerminalOutputZstd)
  then Err (PError InvalidFrame)
  else if decide (to_Encoding frame = TerminalOutputRaw /\ declared <> len (to_Data frame))
  then Err (PError InvalidFrame)
  else
    let dst := growFrame dst (terminalOutputHeaderLen + len (to_Data frame)) in
    let dst := put_at dst 0 [TerminalOutputOpcode; to_Channel frame; to_Encoding frame] in
    let dst := put_at dst 3 (be_put 4 (to_StreamID frame)) in
    let dst := put_at dst 7 (be_put 8 (to_StartSequence frame)) in
    let dst := put_at dst 15 (be_put 4 declared) in
    Ok (put_at dst 19 (to_Data frame)).

Section WithZstd.
Context `{Z0 : Zstd}.

(** The checks on a zstd header against the declared length. *)
Definition header_refused (h : ZHeader) (declared : Z) : bool :=
  zh_Skippable h || negb (bool_decide (zh_DictionaryID h = 0)) || negb (zh_HasFCS h)
  || negb (bool_decide (zh_FrameContentSize h = declared))
  || negb (zh_SingleSegment h) && bool_decide (MaxTerminalOutputBytes < zh_WindowSize h).

(** The payload is one zstd frame with the declared content size. *)
Definition one_frame (payload : list byte) (declared : Z) : bool :=
  match zstd_header payload with
  | None => false
  | Some h =>
      if header_refused h declared then false
      else match zstdFrameSize payload h with
           | Ok size => bool_decide (size = len payload)
           | Err _ => false
           end
  end.

Definition InspectTerminalOutput (message : list byte) : result perror TerminalOutputInfo :=
  if decide (len message <= terminalOutputHeaderLen \/ MaxBinaryFrame < len message
             \/ at0 message 0 <> TerminalOutputOpcode
             \/ (at0 message 1 <> TerminalStdout /\ at0 message 1 <> TerminalStderr)
             \/ (at0 message 2 <> TerminalOutputRaw /\ at0 message 2 <> TerminalOutputZstd))
  then Err (PError InvalidFrame)
  else
    let info := mkTInfo (at0 message 2) (be_get (slice message 3 7)) (be_get (slice message 7 15))
                  (be_get (slice message 15 19)) in
    if decide (tf_StreamID info = 0 \/ tf_UncompressedLength info = 0
               \/ MaxBinaryFrame - terminalOutputHeaderLen < tf_UncompressedLength info
               \/ max_uint64 - tf_StartSequence info < tf_UncompressedLength info)
    then Err (PError InvalidFrame)
    else
      let payload := slice message 19 (len message) in
      if decide (tf_Encoding info = TerminalOutputRaw) then
        if decide (len payload <> tf_UncompressedLength info) then Err (PError InvalidFrame) else Ok info
      else if one_frame payload (tf_UncompressedLength info) then Ok info
      else Err (PError InvalidFrame).

(** [taken]: the library gave a decoder. *)
Definition zstdDecode (taken : bool) (payload : list byte) (declared : Z) : option (list byte) :=
  if negb (one_frame payload declared) then None
  else if negb taken then None
  else match zstd_DecodeAll payload with
       | None => None
       | Some out => if decide (len out <> declared) then None else Some out
       end.

(** [nanos] is the time the codec took. *)
Definition DecodeTerminalOutput (taken : bool) (nanos : Z) (m : CompressionMetrics) (message : list byte)
    : CompressionMetrics * result perror TerminalOutputFrame :=
  match InspectTerminalOutput message with
  | Err e => (count_decode_failure m, Err e)
  | Ok info =>
      let declared := tf_UncompressedLength info in
      let '(m1, decoded) :=
        if decide (tf_Encoding info = TerminalOutputRaw)
        then (m, Some (slice message 19 (len message)))
        else
          let m1 := count_decode_nanos m nanos in
          match zstdDecode taken (slice message 19 (len message)) declared with
          | None => (count_decode_failure m1, None)
          | Some out => (m1, Some out)
          end in
      match decoded with
      | None => (m1, Err (PError InvalidFrame))
      | Some data =>
          if decide (len data <> declared) then (m1, Err (PError InvalidFrame))
          else (m1, Ok (mkTOutput (at0 message 1) (tf_StreamID info) (tf_StartSequence info)
                          (tf_Encoding info) (tf_UncompressedLength info) data))
      end
  end.

(** Which encoding of the data is sent, and why. *)
Definition choose_encoding (data : list byte) : byte * list byte * decision :=
  if decide (TerminalOutputMinCompress <= len data) then
    let compressed := zstd_EncodeAll data in
    if decide (len compressed + TerminalOutputMinSavingsBytes <= len data
               /\ len compressed * 100 <= len data * (100 - TerminalOutputMinSavingsPercent))
    then (TerminalOutputZstd, compressed, CompressedFrame)
    else (TerminalOutputRaw, data, InsufficientFrame)
  else (TerminalOutputRaw, data, SmallFrame).

Definition EncodeTerminalOutputAdaptive (taken : bool) (nanos : Z) (m : CompressionMetrics)
    (frame : TerminalOutputFrame) (dst : list byte) : CompressionMetrics * result perror (list byte) :=
  let declared := len (to_Data frame) mod two32 in
  if decide (TerminalOutputMinCompress <= len (to_Data frame) /\ taken = false)
  then (count_encode_failure m, Err (PError InvalidFrame))
  else
    let '(encoding, data, d) := choose_encoding (to_Data frame) in
    let wire := EncodeTerminalOutput
                  (mkTOutput (to_Channel frame) (to_StreamID frame) (to_StartSequence frame)
                     encoding declared data) dst in
    let m1 := count_encode_nanos m nanos in
    match wire with
    | Err e => (count_encode_failure m1, Err e)
    | Ok bytes => (count_frame m1 d declared (len bytes - terminalOutputHeaderLen), Ok bytes)
    end.
End WithZstd.

(** ** Messages as bytes *)

Definition input_bytes (f : TerminalInputFrame) : list byte :=
  [TerminalInputOpcode] ++ be_put 4 (ti_StreamID f) ++ be_put 8 (ti_Sequence f) ++ ti_Data f.
Definition ack_bytes (f : TerminalACKFrame) : list byte :=
  [TerminalACKOpcode] ++ be_put 4 (ta_StreamID f) ++ be_put 8 (ta_NextSequence f).
Definition resize_bytes (f : TerminalResizeFrame) : list byte :=
  [TerminalResizeOpcode] ++ be_put 4 (tr_StreamID f) ++ be_put 2 (tr_Columns f) ++ be_put 2 (tr_Rows f)
  ++ be_put 8 (tr_Sequence f).
Definition output_bytes (f : TerminalOutputFrame) (declared : Z) : list byte :=
  [TerminalOutputOpcode; to_Channel f; to_Encoding f] ++ be_put 4 (to_StreamID f)
  ++ be_put 8 (to_StartSequence f) ++ be_put 4 declared ++ to_Data f.

(** What a frame may hold: the ranges of the fields' types and the encoder's checks. *)
Definition input_valid (f : TerminalInputFrame) : Prop :=
  0 < ti_StreamID f < two32 /\ 0 < ti_Sequence f < two64
  /\ 0 < len (ti_Data f) <= MaxBinaryFrame - terminalInputHeaderLen.
Definition ack_valid (f : TerminalACKFrame) : Prop :=
  0 < ta_StreamID f < two32 /\ 0 <= ta_NextSequence f < two64.
Definition resize_valid (f : TerminalResizeFrame) : Prop :=
  0 < tr_StreamID f < two32 /\ 0 < tr_Columns f < two16 /\ 0 < tr_Rows f < two16
  /\ 0 < tr_Sequence f < two64.

#[global] Arguments input_bytes : simpl never.
#[global] Arguments ack_bytes : simpl never.
#[global] Arguments resize_bytes : simpl never.
#[global] Arguments output_bytes : simpl never.

(** *** Filling a buffer *)

Lemma length_growFrame dst size : 0 <= size -> length (growFrame dst size) = Z.to_nat size.
Proof. intros. unfold growFrame. case_decide; [by rewrite length_replicate|]. rewrite length_take. lia. Qed.

Lemma length_put_at l off bs :
  (off + length bs <= length l)%nat -> length (put_at l off bs) = length l.
Proof. intros. unfold put_at. rewrite !length_app, length_take, length_drop. lia. Qed.

(** The buffer is filled from the front: after a write at the end of what is filled,
    more is filled. *)
Definition filled (l pre : list byte) (size : nat) : Prop :=
  length l = size /\ take (length pre) l = pre.

Lemma filled_nil l size : length l = size -> filled l [] size.
Proof. done. Qed.

Lemma filled_put l pre size off bs :
  filled l pre size -> off = length pre -> (length pre + length bs <= size)%nat ->
  filled (put_at l off bs) (pre ++ bs) size.
Proof.
  intros [Hl Hp] -> Hs. split; [rewrite length_put_at; lia|]. unfold put_at. rewrite Hp.
  rewrite app_assoc. rewrite take_app_le by (rewrite length_app; lia). apply firstn_all.
Qed.

Lemma filled_all l pre size : filled l pre size -> length pre = size -> l = pre.
Proof. intros [Hl Hp] E. rewrite <- Hp. rewrite take_ge; [done|lia]. Qed.

Lemma filled_eq l pre bytes size : filled l pre size -> length pre = size -> pre = bytes -> l = bytes.
Proof. intros H1 H2 <-. by eapply filled_all. Qed.

(** Shows that a sequence of writes fills the buffer with the pieces in order. *)
Ltac fill_chain :=
  first [ eapply filled_put; [fill_chain | lens | lens]
        | eapply filled_nil; rewrite length_growFrame; lia ].
Ltac fill n := eapply (filled_eq _ _ _ n); [fill_chain | lens | by rewrite <- ?app_assoc].

(** Whatever the lent buffer holds, the encoders produce the message. *)
Lemma EncodeTerminalACK_bytes f dst : ack_valid f -> EncodeTerminalACK f dst = Ok (ack_bytes f).
Proof.
  intros (? & _). unfold EncodeTerminalACK. rewrite decide_False by lia. cbv zeta. f_equal.
  unfold terminalACKLen. fill 13%nat.
Qed.

Lemma EncodeTerminalResize_bytes f dst : resize_valid f -> EncodeTerminalResize f dst = Ok (resize_bytes f).
Proof.
  intros (? & ? & ? & ?). unfold EncodeTerminalResize. rewrite decide_False by lia. cbv zeta. f_equal.
  unfold terminalResizeLen. fill 17%nat.
Qed.

Lemma EncodeTerminalInput_bytes f dst : input_valid f -> EncodeTerminalInput f dst = Ok (input_bytes f).
Proof.
  intros (? & ? & ?). unfold EncodeTerminalInput. rewrite decide_False by lia. cbv zeta. f_equal.
  unfold terminalInputHeaderLen. fill (13 + length (ti_Data f))%nat.
Qed.

Lemma EncodeTerminalOutput_bytes f dst :
  (to_Channel f = TerminalStdout \/ to_Channel f = TerminalStderr) -> 0 < to_StreamID f ->
  0 < len (to_Data f) <= MaxTerminalOutputBytes -> 0 < to_UncompressedLength f <= MaxTerminalOutputBytes ->
  to_StartSequence f + to_UncompressedLength f < two64 ->
  (to_Encoding f = TerminalOutputRaw /\ to_UncompressedLength f = len (to_Data f)
   \/ to_Encoding f = TerminalOutputZstd) ->
  EncodeTerminalOutput f dst = Ok (output_bytes f (to_UncompressedLength f)).
Proof.
  intros Hc Hs Hd Hu Hq He. unfold EncodeTerminalOutput. fold MaxTerminalOutputBytes.
  rewrite (decide_False (P := _ /\ to_Encoding f = _)) by lia.
  rewrite (decide_False (P := _ \/ _)) by (unfold max_uint64, two64 in *; intuition (congruence || lia)).
  rewrite (decide_False (P := _ /\ to_Encoding f <> _)) by intuition.
  rewrite (decide_False (P := _ /\ _)) by (intros [? ?]; unfold TerminalOutputRaw, TerminalOutputZstd in *; destruct He as [[??]|?]; congruence).
  cbv zeta. f_equal. unfold terminalOutputHeaderLen. fill (19 + length (to_Data f))%nat.
Qed.

(** *** Reading the fields of a message *)

(** [field pre mid post]: the goal's first slice of [pre ++ mid ++ post]. *)
Ltac field pre mid post :=
  rewrite (slice_mid pre mid post) by first [by rewrite <- ?app_assoc | lens].

Lemma at0_slice l : 1 <= len l -> [at0 l 0] = slice l 0 1.
Proof. destruct l as [|b l]; simpl; [lia|done]. Qed.

Lemma slice_length_nat {A} (l : list A) a b :
  0 <= a -> a <= b -> b <= len l -> length (slice l a b) = Z.to_nat (b - a).
Proof. intros. pose proof (length_slice l a b). lia. Qed.

Lemma be_put_slice l a b n :
  0 <= a -> a <= b -> b <= len l -> b - a = Z.of_nat n -> be_put n (be_get (slice l a b)) = slice l a b.
Proof. intros. apply be_put_get_length. rewrite slice_length_nat by lia. lia. Qed.

Lemma be_get_slice l a b n :
  0 <= a -> a <= b -> b <= len l -> b - a = Z.of_nat n -> 0 <= be_get (slice l a b) < 256 ^ Z.of_nat n.
Proof. intros. apply be_get_length. rewrite slice_length_nat by lia. lia. Qed.

(** *** Decoding is the inverse *)

Lemma MaxTerminal_val : MaxTerminalOutputBytes = 262125.
Proof. reflexivity. Qed.

Ltac consts :=
  unfold terminalInputHeaderLen, terminalACKLen, terminalResizeLen, terminalOutputHeaderLen,
    two16, two32, two64 in *;
  rewrite ?MaxBinaryFrame_val, ?MaxTerminal_val in *;
  change (256 ^ Z.of_nat 2) with 65536 in *; change (256 ^ Z.of_nat 4) with 4294967296 in *;
  change (256 ^ Z.of_nat 8) with 18446744073709551616 in *.

(** The range of an integer read from a message. *)
Ltac read_range m a b n :=
  let H := fresh "R" in
  pose proof (be_get_slice m a b n ltac:(lia) ltac:(lia) ltac:(consts; lia) ltac:(lia)) as H.

Lemma DecodeTerminalInput_iff m f :
  DecodeTerminalInput m = Ok f <-> input_valid f /\ m = input_bytes f.
Proof.
  split.
  - unfold DecodeTerminalInput. case_decide as D; [done|]. cbn [ti_StreamID ti_Sequence].
    apply Decidable.not_or in D as [D1 D]. apply Decidable.not_or in D as [D2 D3]. apply dec_stable in D3.
    case_decide as D4; [done|]. intros [= <-]. assert (13 < len m) by (consts; lia).
    read_range m 1 5 4%nat. read_range m 5 13 8%nat. pose proof (length_slice m 13 (len m)) as Ld.
    split; [unfold input_valid; cbn [ti_StreamID ti_Sequence ti_Data]; consts; lia|].
    unfold input_bytes. cbn [ti_StreamID ti_Sequence ti_Data]. rewrite <- D3, at0_slice by lia.
    rewrite !be_put_slice by lia. rewrite !slice_split by lia. by rewrite slice_full.
  - intros [(Hs & Hq & Hd) ->]. unfold DecodeTerminalInput.
    assert (HL : len (input_bytes f) = 13 + len (ti_Data f)) by (unfold input_bytes; lens).
    rewrite (decide_False (P := _ \/ _)) by (rewrite HL; unfold at0; consts; intuition (lia || done)).
    field [TerminalInputOpcode] (be_put 4 (ti_StreamID f)) (be_put 8 (ti_Sequence f) ++ ti_Data f).
    field ([TerminalInputOpcode] ++ be_put 4 (ti_StreamID f)) (be_put 8 (ti_Sequence f)) (ti_Data f).
    rewrite (slice_tail ([TerminalInputOpcode] ++ be_put 4 (ti_StreamID f) ++ be_put 8 (ti_Sequence f)) (ti_Data f))
      by first [by rewrite <- ?app_assoc | lens].
    rewrite be_get_put4, be_get_put8 by lia. cbn [ti_StreamID ti_Sequence].
    rewrite decide_False by lia. by destruct f.
Qed.

Lemma DecodeTerminalACK_iff m f : DecodeTerminalACK m = Ok f <-> ack_valid f /\ m = ack_bytes f.
Proof.
  split.
  - unfold DecodeTerminalACK. case_decide as D; [done|]. cbn [ta_StreamID].
    apply Decidable.not_or in D as [D1 D2]. apply dec_stable in D1, D2. consts.
    case_decide as D4; [done|]. intros [= <-].
    read_range m 1 5 4%nat. read_range m 5 13 8%nat.
    split; [unfold ack_valid; cbn [ta_StreamID ta_NextSequence]; consts; lia|].
    unfold ack_bytes. cbn [ta_StreamID ta_NextSequence]. rewrite <- D2, at0_slice by lia.
    rewrite !be_put_slice by lia. rewrite !slice_split by lia. by rewrite slice_all by lia.
  - intros [(Hs & Hq) ->]. unfold DecodeTerminalACK.
    assert (HL : len (ack_bytes f) = 13) by (unfold ack_bytes; lens).
    rewrite (decide_False (P := _ \/ _)) by (rewrite HL; unfold at0; consts; intuition (lia || done)).
    field [TerminalACKOpcode] (be_put 4 (ta_StreamID f)) (be_put 8 (ta_NextSequence f)).
    field ([TerminalACKOpcode] ++ be_put 4 (ta_StreamID f)) (be_put 8 (ta_NextSequence f)) (@nil byte).
    rewrite be_get_put4, be_get_put8 by lia. cbn [ta_StreamID].
    rewrite decide_False by lia. by destruct f.
Qed.

Lemma DecodeTerminalResize_iff m f : DecodeTerminalResize m = Ok f <-> resize_valid f /\ m = resize_bytes f.
Proof.
  split.
  - unfold DecodeTerminalResize. case_decide as D; [done|]. cbn [tr_StreamID tr_Columns tr_Rows tr_Sequence].
    apply Decidable.not_or in D as [D1 D2]. apply dec_stable in D1, D2. consts.
    case_decide as D4; [done|]. intros [= <-].
    read_range m 1 5 4%nat. read_range m 5 7 2%nat. read_range m 7 9 2%nat. read_range m 9 17 8%nat.
    split; [unfold resize_valid; cbn [tr_StreamID tr_Columns tr_Rows tr_Sequence]; consts; lia|].
    unfold resize_bytes. cbn [tr_StreamID tr_Columns tr_Rows tr_Sequence]. rewrite <- D2, at0_slice by lia.
    rewrite !be_put_slice by lia. rewrite !slice_split by lia. by rewrite slice_all by lia.
  - intros [(Hs & Hc & Hr & Hq) ->]. unfold DecodeTerminalResize.
    assert (HL : len (resize_bytes f) = 17) by (unfold resize_bytes; lens).
    rewrite (decide_False (P := _ \/ _)) by (rewrite HL; unfold at0; consts; intuition (lia || done)).
    set (a := [TerminalResizeOpcode] ++ be_put 4 (tr_StreamID f)).
    field [TerminalResizeOpcode] (be_put 4 (tr_StreamID f))
      (be_put 2 (tr_Columns f) ++ be_put 2 (tr_Rows f) ++ be_put 8 (tr_Sequence f)).
    field a (be_put 2 (tr_Columns f)) (be_put 2 (tr_Rows f) ++ be_put 8 (tr_Sequence f)).
    field (a ++ be_put 2 (tr_Columns f)) (be_put 2 (tr_Rows f)) (be_put 8 (tr_Sequence f)).
    field (a ++ be_put 2 (tr_Columns f) ++ be_put 2 (tr_Rows f)) (be_put 8 (tr_Sequence f)) (@nil byte).
    rewrite be_get_put4, !be_get_put2, be_get_put8 by lia. cbn [tr_StreamID tr_Columns tr_Rows tr_Sequence].
    rewrite decide_False by lia. by destruct f.
Qed.

(** ** The blocks of a zstd frame

    A block starts with three little-endian bytes holding a last-block flag, a two-bit
    type (3 is reserved) and a size; a block of type 1 stores one byte to repeat. *)

Definition block_header (last : bool) (type size : Z) : list byte :=
  let v := (if last then 1 else 0) + 2 * type + 8 * size in
  [byte_of v; byte_of (v / 256); byte_of (v / 65536)].

Definition block_ok (type size : Z) (body : list byte) : Prop :=
  0 <= type < 3 /\ 0 <= size < 2097152 /\ len body = if decide (type = 1) then 1 else size.

Inductive zblocks : list byte -> Prop :=
| zb_last type size body : block_ok type size body -> zblocks (block_header true type size ++ body)
| zb_more type size body rest :
    block_ok type size body -> zblocks rest -> zblocks (block_header false type size ++ body ++ rest).

Definition checksum_len (checksum : bool) : Z := if checksum then 4 else 0.

#[global] Arguments block_header : simpl never.

(** *** Reading a block header *)

Lemma lor_shift a b n : 0 <= n -> 0 <= a < 2 ^ n -> Z.lor a (Z.shiftl b n) = a + b * 2 ^ n.
Proof.
  intros Hn Ha. rewrite <- Z.shiftl_mul_pow2 by lia.
  assert (H0 : Z.land a (Z.shiftl b n) = 0).
  { apply Z.bits_inj'. intros k Hk. rewrite Z.land_spec, Z.bits_0.
    destruct (decide (k < n)); [rewrite Z.shiftl_spec_low by lia; apply andb_false_r|].
    destruct (decide (a = 0)) as [->|]; [by rewrite Z.bits_0|].
    rewrite (Z.bits_above_log2 a k); [done|lia|].
    apply Z.log2_lt_pow2; [lia|]. apply Z.lt_le_trans with (2 ^ n); [lia|]. apply Z.pow_le_mono_r; lia. }
  rewrite Z.add_nocarry_lxor by done. symmetry. by apply Z.lxor_lor.
Qed.

Lemma land_1 x : Z.land x 1 = x mod 2.
Proof. exact (Z.land_ones x 1 ltac:(lia)). Qed.
Lemma land_3 x : Z.land x 3 = x mod 4.
Proof. exact (Z.land_ones x 2 ltac:(lia)). Qed.

Definition block_value (b0 b1 b2 : Z) : Z := b0 + 256 * b1 + 65536 * b2.

Lemma block_value_lor b0 b1 b2 :
  0 <= b0 < 256 -> 0 <= b1 < 256 ->
  Z.lor (Z.lor b0 (Z.shiftl b1 8)) (Z.shiftl b2 16) = block_value b0 b1 b2.
Proof.
  intros. rewrite (lor_shift b0) by (change (2 ^ 8) with 256; lia). change (2 ^ 8) with 256.
  rewrite lor_shift by (change (2 ^ 16) with 65536; lia). change (2 ^ 16) with 65536. unfold block_value. lia.
Qed.

(** The last-block flag, the type and the size of a block, and the bytes it holds. *)
Definition block_last (v : Z) : bool := negb (Z.eqb (v mod 2) 0).
Definition block_type (v : Z) : Z := v / 2 mod 4.
Definition block_len (v : Z) : Z := if decide (block_type v = 1) then 1 else v / 8.

Lemma zstdFrameSize_step fuel payload checksum offset :
  zstdFrameSize_loop (S fuel) payload checksum offset =
  if decide (len payload - offset < 3) then Some (Err ZBlockHeader)
  else
    let b i := byte_val (at0 payload (Z.to_nat (offset + i))) in
    let v := block_value (b 0) (b 1) (b 2) in
    let next := offset + 3 + block_len v in
    if decide (block_type v = 3) then Some (Err ZReserved)
    else if decide (len payload < next) then Some (Err ZBlock)
    else if block_last v then
      if decide (checksum = true /\ len payload - next < 4) then Some (Err ZCheckSum)
      else Some (Ok (next + checksum_len checksum))
    else zstdFrameSize_loop fuel payload checksum next.
Proof.
  cbn [zstdFrameSize_loop]. case_decide; [done|]. cbv zeta.
  rewrite block_value_lor by apply byte_val_range.
  set (v := block_value _ _ _).
  assert (Hv : 0 <= v) by (unfold v, block_value; pose proof byte_val_range as B;
    pose proof (B (at0 payload (Z.to_nat (offset + 0)))); pose proof (B (at0 payload (Z.to_nat (offset + 1))));
    pose proof (B (at0 payload (Z.to_nat (offset + 2)))); lia).
  rewrite land_1, land_3, !Z.shiftr_div_pow2 by lia.
  change (v / 2 ^ 1) with (v / 2). change (v / 2 ^ 3) with (v / 8). fold (block_type v). fold (block_last v). fold (block_len v).
  assert (0 <= block_len v) by (unfold block_len; case_decide; [lia|]; apply Z.div_pos; lia).
  destruct (decide (block_type v = 3)); [done|].
  destruct (decide (_ < _ \/ _)) as [D|D]; [by rewrite (decide_True (P := len payload < _)) by lia|]. rewrite (decide_False (P := len payload < _)) by lia.
  destruct (block_last v); [|done]. unfold checksum_len. destruct checksum.
  - destruct (decide (_ < 4)); [by rewrite decide_True by (split; [done|lia])|].
    rewrite decide_False by (intros [_ ?]; lia). done.
  - rewrite decide_False by (by intros [? _]). do 2 f_equal. lia.
Qed.

(** *** The walk is exact *)

Lemma block_header_fields last type size :
  0 <= type < 4 -> 0 <= size < 2097152 ->
  let h := block_header last type size in
  let v := block_value (byte_val (at0 h 0)) (byte_val (at0 h 1)) (byte_val (at0 h 2)) in
  block_last v = last /\ block_type v = type /\ v / 8 = size.
Proof.
  intros Ht Hs. unfold block_header, at0, block_value, block_last, block_type. simpl.
  rewrite !byte_val_of. set (v := (if last then 1 else 0) + 2 * type + 8 * size).
  assert (Hv : 0 <= v < 16777216) by (unfold v; destruct last; lia).
  assert (Hval : v mod 256 + 256 * (v / 256 mod 256) + 65536 * (v / 65536 mod 256) = v).
  { pose proof (Z.div_mod v 256). pose proof (Z.div_mod (v / 256) 256).
    rewrite (Z.mod_small (v / 65536)) by (split; [apply Z.div_pos|apply Z.div_lt_upper_bound]; lia).
    change 65536 with (256 * 256) at 2. rewrite <- Z.div_div by lia. lia. }
  rewrite Hval. unfold v. split_and!.
  - replace ((if last then 1 else 0) + 2 * type + 8 * size)
      with ((if last then 1 else 0) + (type + 4 * size) * 2) by lia.
    rewrite Z.mod_add by lia. by destruct last.
  - replace ((if last then 1 else 0) + 2 * type + 8 * size)
      with ((type + 4 * size) * 2 + (if last then 1 else 0)) by lia.
    rewrite Z.div_add_l by lia. replace ((if last then 1 else 0) / 2) with 0 by (by destruct last).
    rewrite Z.add_0_r. replace (type + 4 * size) with (type + size * 4) by lia.
    rewrite Z.mod_add by lia. apply Z.mod_small. lia.
  - replace ((if last then 1 else 0) + 2 * type + 8 * size)
      with (size * 8 + ((if last then 1 else 0) + 2 * type)) by lia.
    rewrite Z.div_add_l by lia. rewrite Z.div_small; [lia|]. destruct last; lia.
Qed.

Lemma block_header_of (b0 b1 b2 : byte) :
  let v := block_value (byte_val b0) (byte_val b1) (byte_val b2) in
  [b0; b1; b2] = block_header (block_last v) (block_type v) (v / 8)
  /\ 0 <= block_type v < 4 /\ 0 <= v / 8 < 2097152.
Proof.
  intros v. pose proof (byte_val_range b0). pose proof (byte_val_range b1). pose proof (byte_val_range b2).
  assert (Hv : (if block_last v then 1 else 0) + 2 * block_type v + 8 * (v / 8) = v).
  { unfold block_last, block_type. pose proof (Z.div_mod v 2). pose proof (Z.div_mod (v / 2) 4).
    replace (v / 8) with (v / 2 / 4) by (by rewrite Z.div_div by lia).
    pose proof (Z.mod_pos_bound v 2). destruct (Z.eqb_spec (v mod 2) 0); simpl; lia. }
  split_and!; [|apply Z.mod_pos_bound; lia..|apply Z.div_pos; unfold v, block_value; lia
    |apply Z.div_lt_upper_bound; unfold v, block_value; lia].
  unfold block_header. rewrite Hv. unfold v, block_value.
  f_equal; [|f_equal; [|f_equal]]; apply byte_val_inj; rewrite byte_val_of; symmetry.
  - replace (_ + _) with (byte_val b0 + (byte_val b1 + 256 * byte_val b2) * 256) by lia.
    rewrite Z.mod_add by lia. apply Z.mod_small. lia.
  - replace (_ + _) with ((byte_val b1 + 256 * byte_val b2) * 256 + byte_val b0) by lia.
    rewrite Z.div_add_l by lia. rewrite (Z.div_small (byte_val b0)) by lia.
    replace (_ + 0) with (byte_val b1 + byte_val b2 * 256) by lia.
    rewrite Z.mod_add by lia. apply Z.mod_small. lia.
  - replace (_ + _) with (byte_val b2 * 65536 + (byte_val b0 + 256 * byte_val b1)) by lia.
    rewrite Z.div_add_l by lia. rewrite (Z.div_small (_ + _ * _)) by lia.
    rewrite Z.add_0_r. apply Z.mod_small. lia.
Qed.

Lemma at0_lookup l i : (i < length l)%nat -> l !! i = Some (at0 l i).
Proof. intros [x E]%lookup_lt_is_Some. unfold at0. by rewrite E. Qed.

Lemma slice_three l i :
  0 <= i -> 3 <= len l - i ->
  slice l i (i + 3) = [at0 l (Z.to_nat (i + 0)); at0 l (Z.to_nat (i + 1)); at0 l (Z.to_nat (i + 2))].
Proof.
  intros Hi Hl. apply list_eq_same_length with 3%nat; [done|rewrite slice_length_nat by lia; lia|].
  intros k x y Hk. rewrite <- (Nat2Z.id k), lookup_slice by lia. rewrite at0_lookup by lia.
  destruct k as [|[|[|k]]]; simpl; [..|lia]; intros [= <-] [= <-]; done.
Qed.

(** Every turn moves at least three bytes on, so the walk ends. *)
Lemma zstdFrameSize_total fuel : forall payload checksum offset,
  len payload - offset < Z.of_nat fuel -> (0 < fuel)%nat ->
  is_Some (zstdFrameSize_loop fuel payload checksum offset).
Proof.
  induction fuel as [|fuel IH]; intros payload checksum offset Hf H0; [lia|].
  rewrite zstdFrameSize_step. case_decide; [eauto|]. cbv zeta. case_decide; [eauto|]. case_decide; [eauto|].
  destruct (block_last _); [case_decide; eauto|].
  match goal with |- context [block_len ?v] =>
    assert (0 <= block_len v); [|assert (Hb : 0 <= block_len v) by done] end.
  { unfold block_len. case_decide; [lia|]. apply Z.div_pos; [|lia]. unfold block_value.
    repeat match goal with |- context [byte_val ?b] => pose proof (byte_val_range b); generalize dependent (byte_val b); intros end.
    lia. }
  apply IH; lia.
Qed.

(** What the walk accepts is a sequence of blocks and the checksum. *)
Lemma zstdFrameSize_sound fuel : forall payload checksum offset n,
  0 <= offset -> zstdFrameSize_loop fuel payload checksum offset = Some (Ok n) ->
  exists blocks ck, zblocks blocks /\ len ck = checksum_len checksum
    /\ n = offset + len blocks + len ck /\ n <= len payload /\ slice payload offset n = blocks ++ ck.
Proof.
  induction fuel as [|fuel IH]; intros payload checksum offset n H0; [done|].
  rewrite zstdFrameSize_step. case_decide as D0; [done|]. cbv zeta.
  set (b := fun i => at0 payload (Z.to_nat (offset + i))).
  change (byte_val (at0 payload (Z.to_nat (offset + 0)))) with (byte_val (b 0)).
  change (byte_val (at0 payload (Z.to_nat (offset + 1)))) with (byte_val (b 1)).
  change (byte_val (at0 payload (Z.to_nat (offset + 2)))) with (byte_val (b 2)).
  destruct (block_header_of (b 0) (b 1) (b 2)) as (Hh & Ht & Hs). set (v := block_value _ _ _) in *.
  assert (Hb3 : slice payload offset (offset + 3) = [b 0; b 1; b 2]) by (apply slice_three; lia).
  case_decide as D1; [done|]. case_decide as D2; [done|].
  set (next := offset + 3 + block_len v) in *.
  assert (Hbl : 0 <= block_len v) by (unfold block_len; case_decide; lia).
  assert (Hok : block_ok (block_type v) (v / 8) (slice payload (offset + 3) next)).
  { split; [lia|]. split; [lia|]. rewrite length_slice by lia. unfold next, block_len. lia. }
  assert (Hfirst : slice payload offset next
    = block_header (block_last v) (block_type v) (v / 8) ++ slice payload (offset + 3) next).
  { by rewrite <- Hh, <- Hb3, slice_split by lia. }
  destruct (block_last v) eqn:Hl.
  - case_decide as D3; [done|]. intros [= <-].
    assert (Hck : next + checksum_len checksum <= len payload).
    { unfold checksum_len. destruct checksum; [|lia].
      destruct (decide (len payload - next < 4)); [tauto|lia]. }
    assert (0 <= checksum_len checksum) by (unfold checksum_len; destruct checksum; lia).
    exists (block_header true (block_type v) (v / 8) ++ slice payload (offset + 3) next),
      (slice payload next (next + checksum_len checksum)).
    rewrite <- Hfirst. rewrite !length_slice by lia. split_and!; [|lia|lia|lia|].
    + rewrite Hfirst. by constructor.
    + by rewrite slice_split by lia.
  - intros (bl & ck & Hbl' & Hck & -> & Hn & Hsl)%IH; [|lia].
    exists (slice payload offset next ++ bl), ck. rewrite length_app, Nat2Z.inj_add, length_slice by lia.
    split_and!; [|done|lia|lia|].
    + rewrite Hfirst, <- app_assoc. by constructor.
    + rewrite <- app_assoc, <- Hsl. rewrite slice_split by lia. f_equal; lia.
Qed.

(** Every sequence of blocks is accepted and measured. *)
Lemma zstdFrameSize_complete blocks : zblocks blocks -> forall fuel pre ck rest checksum,
  len ck = checksum_len checksum -> (length blocks < fuel)%nat ->
  zstdFrameSize_loop fuel (pre ++ blocks ++ ck ++ rest) checksum (len pre)
    = Some (Ok (len pre + len blocks + len ck)).
Proof.
  induction 1 as [type size body Hok|type size body more Hok Hmore IH];
    intros [|fuel] pre ck rest checksum Hck Hf; try lia; rewrite zstdFrameSize_step.
  all: destruct Hok as (Ht & Hs & Hb).
  all: match goal with |- context [block_header ?l ?t ?s] =>
         destruct (block_header_fields l t s) as (F1 & F2 & F3); [lia..|];
         set (h := block_header l t s) in *; assert (Lh : len h = 3) by done end.
  all: set (v := block_value _ _ _) in F1, F2, F3.
  all: assert (Hl : block_len v = len body) by (unfold block_len; rewrite F2, F3; done).
  all: match goal with |- context [Z.of_nat (length ?p) - _ < 3] =>
         assert (Hread : forall i, 0 <= i < 3 -> at0 p (Z.to_nat (len pre + i)) = at0 h (Z.to_nat i))
           by (intros i Hi; unfold at0; f_equal; rewrite lookup_app_r by lia;
               rewrite <- !app_assoc; rewrite lookup_app_l by lia; f_equal; lia) end.
  all: rewrite (decide_False (P := _ < 3)) by (rewrite !length_app; lia); cbv beta zeta.
  all: rewrite !Hread by lia.
  all: match goal with |- context [block_value ?a ?b ?c] => change (block_value a b c) with v end.
  all: rewrite F2, Hl, F1.
  all: rewrite (decide_False (P := _ = 3)) by lia.
  all: rewrite (decide_False (P := _ < len pre + _ + _)) by (rewrite !length_app; lia).
  - rewrite (decide_False (P := _ /\ _)).
    + rewrite <- Hck, length_app. do 2 f_equal. lia.
    + intros [-> ?]. rewrite !length_app in *. simpl in Hck. lia.
  - replace (pre ++ (h ++ body ++ more) ++ ck ++ rest) with ((pre ++ h ++ body) ++ more ++ ck ++ rest)
      by (by rewrite <- !app_assoc).
    replace (len pre + 3 + len body) with (len (pre ++ h ++ body)) by (rewrite !length_app; lia).
    rewrite IH by (done || (rewrite !length_app in Hf; lia)).
    rewrite !length_app. do 2 f_equal. lia.
Qed.
