(* ===== verification/TerminalTheorems.v ===== *)
(** * Theorems on terminal v1 frames

    Every message has one frame and every frame one message; the walk over zstd blocks
    ends and measures exactly one frame; compressed output survives the wire.  What is
    assumed of the zstd library is [ZstdLaws]; [toy_zstd] shows that it can hold. *)

From S2P Require Import Prelude Wire Binary Terminal.

(** Input, acknowledgement and resize messages are canonical: a message decodes to
    a frame if and only if the frame is valid and encodes to that message, whatever the
    buffer lent to the encoder held before. *)
Theorem terminal_messages_canonical :
  (forall m f, DecodeTerminalInput m = Ok f
     <-> input_valid f /\ forall dst, EncodeTerminalInput f dst = Ok m)
  /\ (forall m f, DecodeTerminalACK m = Ok f
     <-> ack_valid f /\ forall dst, EncodeTerminalACK f dst = Ok m)
  /\ (forall m f, DecodeTerminalResize m = Ok f
     <-> resize_valid f /\ forall dst, EncodeTerminalResize f dst = Ok m).
Proof.
  split_and!; intros m f.
  - rewrite DecodeTerminalInput_iff. split; intros [Hf Hm]; (split; [done|]).
    + intros dst. by rewrite EncodeTerminalInput_bytes, Hm.
    + specialize (Hm []). rewrite EncodeTerminalInput_bytes in Hm by done. congruence.
  - rewrite DecodeTerminalACK_iff. split; intros [Hf Hm]; (split; [done|]).
    + intros dst. by rewrite EncodeTerminalACK_bytes, Hm.
    + specialize (Hm []). rewrite EncodeTerminalACK_bytes in Hm by done. congruence.
  - rewrite DecodeTerminalResize_iff. split; intros [Hf Hm]; (split; [done|]).
    + intros dst. by rewrite EncodeTerminalResize_bytes, Hm.
    + specialize (Hm []). rewrite EncodeTerminalResize_bytes in Hm by done. congruence.
Qed.

(** ** zstd frames *)

(** [payload] starts with a zstd frame of [n] bytes: a header of the size the library
    reports, blocks, and the checksum if there is one. *)
Definition frame_prefix (payload : list byte) (h : ZHeader) (n : Z) : Prop :=
  exists hd blocks ck rest, payload = hd ++ blocks ++ ck ++ rest /\ len hd = zh_HeaderSize h
    /\ zblocks blocks /\ len ck = checksum_len (zh_HasCheckSum h)
    /\ n = len hd + len blocks + len ck.

(** C40.  The walk over the blocks of a frame ends on every input, well-formed or not,
    within one turn per byte, and it returns a size exactly when the payload starts with
    a complete frame of that size. *)
Theorem zstd_frame_size_exact (payload : list byte) (h : ZHeader) :
  0 <= zh_HeaderSize h ->
  zstdFrameSize_loop (S (length payload)) payload (zh_HasCheckSum h) (zh_HeaderSize h)
    = Some (zstdFrameSize payload h)
  /\ forall n, zstdFrameSize payload h = Ok n <-> frame_prefix payload h n.
Proof.
  intros H0.
  assert (Htot : zstdFrameSize_loop (S (length payload)) payload (zh_HasCheckSum h) (zh_HeaderSize h)
                 = Some (zstdFrameSize payload h)).
  { unfold zstdFrameSize.
    destruct (zstdFrameSize_total (S (length payload)) payload (zh_HasCheckSum h) (zh_HeaderSize h)) as [r E];
      [lia..|]. by rewrite E. }
  split; [done|]. intros n. split.
  - intros E. rewrite E in Htot. apply zstdFrameSize_sound in Htot as (bl & ck & Hb & Hc & -> & Hn & Hs); [|done].
    exists (slice payload 0 (zh_HeaderSize h)), bl, ck, (slice payload (zh_HeaderSize h + len bl + len ck) (len payload)).
    rewrite length_slice by lia. split_and!; [|lia|done|done|lia].
    rewrite (app_assoc bl ck), <- Hs, !slice_split by lia. by rewrite slice_full.
  - intros (hd & bl & ck & rest & -> & Hh & Hb & Hc & ->).
    pose proof (zstdFrameSize_complete bl Hb (S (length (hd ++ bl ++ ck ++ rest))) hd ck rest _ Hc) as E.
    rewrite <- Hh, E in Htot by (rewrite !length_app; lia). by injection Htot.
Qed.

(** ** Output *)

(** What the program relies on of the library: encoding a non-empty chunk gives one
    frame, without a dictionary, that states its content size and a window within the
    limit, and decoding gives the chunk back. *)
Class ZstdLaws `{Z0 : Zstd} := zstd_law : forall data,
  0 < len data <= MaxTerminalOutputBytes ->
  exists h, zstd_header (zstd_EncodeAll data) = Some h
    /\ zh_Skippable h = false /\ zh_DictionaryID h = 0 /\ zh_HasFCS h = true
    /\ zh_FrameContentSize h = len data
    /\ (zh_SingleSegment h = true \/ zh_WindowSize h <= MaxTerminalOutputBytes)
    /\ 0 <= zh_HeaderSize h
    /\ frame_prefix (zstd_EncodeAll data) h (len (zstd_EncodeAll data))
    /\ zstd_DecodeAll (zstd_EncodeAll data) = Some data.

Section Output.
Context `{Z0 : Zstd}.

Lemma one_frame_encoded `{!ZstdLaws} data :
  0 < len data <= MaxTerminalOutputBytes -> one_frame (zstd_EncodeAll data) (len data) = true.
Proof.
  intros Hd. destruct (zstd_law data Hd) as (h & Hh & Hs & Hi & Hf & Hc & Hw & H0 & Hp & _).
  unfold one_frame. rewrite Hh. unfold header_refused. rewrite Hs, Hf, !bool_decide_true by done. simpl.
  replace (negb _ && _) with false.
  - unfold zstdFrameSize.
    destruct Hp as (hd & bl & ck & rest & E & Hhd & Hb & Hck & En).
    pose proof (zstdFrameSize_complete bl Hb (S (length (zstd_EncodeAll data))) hd ck rest _ Hck) as Hl.
    rewrite <- E, Hhd in Hl. rewrite Hl by (rewrite E, !length_app; lia). simpl. apply bool_decide_true. lia.
  - destruct Hw as [->|Hw]; [done|]. rewrite bool_decide_false by lia. by rewrite andb_false_r.
Qed.

(** The fields of an output message. *)
Lemma Inspect_output f declared :
  (to_Channel f = TerminalStdout \/ to_Channel f = TerminalStderr) -> 0 < to_StreamID f < two32 ->
  0 < len (to_Data f) <= MaxTerminalOutputBytes -> 0 < declared <= MaxTerminalOutputBytes ->
  0 <= to_StartSequence f -> to_StartSequence f + declared < two64 ->
  (to_Encoding f = TerminalOutputRaw /\ declared = len (to_Data f)
   \/ to_Encoding f = TerminalOutputZstd /\ one_frame (to_Data f) declared = true) ->
  let m := output_bytes f declared in
  InspectTerminalOutput m = Ok (mkTInfo (to_Encoding f) (to_StreamID f) (to_StartSequence f) declared)
  /\ slice m 19 (len m) = to_Data f /\ at0 m 1 = to_Channel f.
Proof.
  intros Hc Hs Hd Hu H0 Hq He m. unfold InspectTerminalOutput. fold MaxTerminalOutputBytes.
  set (a := [TerminalOutputOpcode; to_Channel f; to_Encoding f]).
  assert (HL : len m = 19 + len (to_Data f)) by (unfold m, output_bytes; lens).
  assert (Hat : at0 m 0 = TerminalOutputOpcode /\ at0 m 1 = to_Channel f /\ at0 m 2 = to_Encoding f) by done.
  destruct Hat as (Ha0 & Ha1 & Ha2).
  assert (Hm3 : slice m 3 7 = be_put 4 (to_StreamID f)).
  { field a (be_put 4 (to_StreamID f)) (be_put 8 (to_StartSequence f) ++ be_put 4 declared ++ to_Data f). done. }
  assert (Hm7 : slice m 7 15 = be_put 8 (to_StartSequence f)).
  { field (a ++ be_put 4 (to_StreamID f)) (be_put 8 (to_StartSequence f)) (be_put 4 declared ++ to_Data f). done. }
  assert (Hm15 : slice m 15 19 = be_put 4 declared).
  { field (a ++ be_put 4 (to_StreamID f) ++ be_put 8 (to_StartSequence f)) (be_put 4 declared) (to_Data f). done. }
  assert (Hm19 : slice m 19 (len m) = to_Data f).
  { apply (slice_tail (a ++ be_put 4 (to_StreamID f) ++ be_put 8 (to_StartSequence f) ++ be_put 4 declared));
      [by rewrite <- ?app_assoc|lens]. }
  rewrite Hm3, Hm7, Hm15, Hm19, Ha0, Ha1, Ha2. clearbody m. consts.
  rewrite !be_get_put4, be_get_put8 by (consts; lia).
  cbn [tf_Encoding tf_StreamID tf_StartSequence tf_UncompressedLength].
  rewrite (decide_False (P := len m <= _ \/ _)).
  2:{ unfold TerminalOutputRaw, TerminalOutputZstd in *. intuition (lia || congruence). }
  rewrite (decide_False (P := _ = 0 \/ _)) by (unfold max_uint64; lia).
  destruct He as [[He Hdl]|[He Hone]]; rewrite He.
  - rewrite decide_True by done. rewrite decide_False by lia. done.
  - rewrite decide_False by done. by rewrite Hone.
Qed.

(** Terminal output survives the wire: a chunk of 1 to 262125 bytes is always
    encoded, raw or compressed, in a message that is never longer than the raw one and
    at least 32 bytes shorter when compressed, and decoding the message gives the same
    channel, stream, start sequence and bytes. *)
Theorem terminal_output_roundtrip `{!ZstdLaws} (m : CompressionMetrics) (f : TerminalOutputFrame)
    (dst : list byte) (nanos : Z) :
  (to_Channel f = TerminalStdout \/ to_Channel f = TerminalStderr) -> 0 < to_StreamID f < two32 ->
  0 < len (to_Data f) <= MaxTerminalOutputBytes ->
  0 <= to_StartSequence f -> to_StartSequence f + len (to_Data f) < two64 ->
  exists m' wire f', EncodeTerminalOutputAdaptive true nanos m f dst = (m', Ok wire)
    /\ (len wire = 19 + len (to_Data f) \/ len wire + 32 <= 19 + len (to_Data f))
    /\ (forall m1, exists m2, DecodeTerminalOutput true nanos m1 wire = (m2, Ok f'))
    /\ to_Channel f' = to_Channel f /\ to_StreamID f' = to_StreamID f
    /\ to_StartSequence f' = to_StartSequence f /\ to_Data f' = to_Data f.
Proof.
  intros Hc Hs Hd H0 Hq. unfold EncodeTerminalOutputAdaptive.
  rewrite (decide_False (P := _ /\ true = false)) by (by intros [_ ?]).
  rewrite Z.mod_small by (consts; lia).
  set (declared := len (to_Data f)) in *.
  destruct (choose_encoding (to_Data f)) as [[enc data] d] eqn:Ech.
  set (g := mkTOutput (to_Channel f) (to_StreamID f) (to_StartSequence f) enc declared data).
  assert (Hch : 0 < len data <= MaxTerminalOutputBytes
    /\ (enc = TerminalOutputRaw /\ data = to_Data f
        \/ enc = TerminalOutputZstd /\ data = zstd_EncodeAll (to_Data f) /\ len data + 32 <= declared)).
  { revert Ech. unfold choose_encoding. case_decide; [case_decide as Hsv|]; intros [= <- <- <-];
      (split; [|tauto]); [|done|done].
    unfold TerminalOutputMinSavingsBytes in Hsv. split; [|lia].
    destruct (zstd_law (to_Data f) Hd) as (h & _ & _ & _ & _ & _ & _ & _ & (hd & bl & ck & rest & -> & _ & Hb & _) & _).
    rewrite !length_app. destruct Hb; rewrite !length_app; change (length (block_header _ _ _)) with 3%nat; lia. }
  destruct Hch as [Hdl Hch]. assert (declared = len (to_Data f)) by done.
  assert (Hone : enc = TerminalOutputZstd -> one_frame data declared = true).
  { intros ->. destruct Hch as [[? _]|(_ & -> & _)]; [done|]. by apply one_frame_encoded. }
  rewrite (EncodeTerminalOutput_bytes g) by (simpl; try done; try lia; intuition congruence).
  destruct (Inspect_output g declared) as (Hi & Hpay & Hchan); simpl; try done; try lia.
  { destruct Hch as [[-> ->]|(-> & _)]; [by left|right; auto]. }
  eexists _, _, (mkTOutput (to_Channel f) (to_StreamID f) (to_StartSequence f) enc declared (to_Data f)).
  split; [reflexivity|]. split; [|split; [|done]].
  { replace (len (output_bytes g _)) with (19 + len data) by (unfold output_bytes; lens).
    destruct Hch as [[_ ->]|(_ & _ & ?)]; [by left|right; lia]. }
  intros m1. unfold DecodeTerminalOutput. change (to_UncompressedLength g) with declared. rewrite Hi, Hpay, Hchan.
  cbn [tf_Encoding tf_StreamID tf_StartSequence tf_UncompressedLength to_Encoding to_Channel to_StreamID to_StartSequence g to_Data].
  destruct Hch as [[-> ->]|(-> & -> & _)].
  - rewrite decide_True by done. rewrite decide_False by lia. eauto.
  - rewrite (decide_False (P := TerminalOutputZstd = _)) by done. unfold zstdDecode.
    rewrite Hone by done. simpl. destruct (zstd_law (to_Data f) Hd) as (? & _ & _ & _ & _ & _ & _ & _ & _ & ->).
    rewrite decide_False by lia. rewrite decide_False by lia. eauto.
Qed.

(** Whatever a peer sends and whatever the decoder makes of it, an accepted output
    frame is bounded: its channel is known, its data has exactly the declared length of
    1 to 262125 bytes and ends within the 64-bit sequence space, and its payload is the
    data itself or exactly one zstd frame, with nothing after it. *)
Theorem terminal_output_bounded (taken : bool) (nanos : Z) (m m' : CompressionMetrics) (msg : list byte)
    (f : TerminalOutputFrame) :
  DecodeTerminalOutput taken nanos m msg = (m', Ok f) ->
  (to_Channel f = TerminalStdout \/ to_Channel f = TerminalStderr) /\ 0 < to_StreamID f < two32
  /\ len (to_Data f) = to_UncompressedLength f /\ 0 < len (to_Data f) <= 262125
  /\ 0 <= to_StartSequence f /\ to_StartSequence f + len (to_Data f) < two64
  /\ (to_Encoding f = TerminalOutputRaw /\ msg = output_bytes f (len (to_Data f))
      \/ to_Encoding f = TerminalOutputZstd /\ zstd_DecodeAll (slice msg 19 (len msg)) = Some (to_Data f)
         /\ one_frame (slice msg 19 (len msg)) (len (to_Data f)) = true).
Proof.
  unfold DecodeTerminalOutput, InspectTerminalOutput. fold MaxTerminalOutputBytes.
  case_decide as D; [done|].
  apply Decidable.not_or in D as [D1 D]. apply Decidable.not_or in D as [D2 D].
  apply Decidable.not_or in D as [D3 D]. apply Decidable.not_or in D as [D4 D5]. apply dec_stable in D3.
  assert (HL : 19 < len msg) by (unfold terminalOutputHeaderLen in D1; lia).
  read_range msg 3 7 4%nat. read_range msg 7 15 8%nat. read_range msg 15 19 4%nat.
  cbn [tf_Encoding tf_StreamID tf_StartSequence tf_UncompressedLength].
  case_decide as D6; [done|].
  assert (Hch : at0 msg 1 = TerminalStdout \/ at0 msg 1 = TerminalStderr).
  { destruct (decide (at0 msg 1 = TerminalStdout)); [by left|]. right. apply dec_stable. tauto. }
  destruct (decide (at0 msg 2 = TerminalOutputRaw)) as [Hraw|Hz].
  - case_decide as D7; [done|].
    cbn [tf_Encoding tf_StreamID tf_StartSequence tf_UncompressedLength].
    rewrite (decide_True (P := at0 msg 2 = _)) by done. case_decide; [done|]. intros [= <- <-].
    cbn [to_Channel to_StreamID to_StartSequence to_Encoding to_UncompressedLength to_Data].
    consts. unfold max_uint64 in D6. split_and!; try done; try lia. left. split; [done|].
    unfold output_bytes. cbn [to_Channel to_StreamID to_StartSequence to_Encoding to_UncompressedLength to_Data].
    rewrite D7, !be_put_slice by lia. rewrite <- D3.
    assert (Hh : [at0 msg 0; at0 msg 1; at0 msg 2] = slice msg 0 3) by (symmetry; apply (slice_three msg 0); lia).
    rewrite Hh, !slice_split by lia. by rewrite slice_full.
  - destruct (one_frame _ _) eqn:Hone; [|done].
    cbn [tf_Encoding tf_StreamID tf_StartSequence tf_UncompressedLength].
    rewrite (decide_False (P := at0 msg 2 = _)) by done. unfold zstdDecode. rewrite Hone. simpl.
    destruct taken; [|done]. simpl. destruct (zstd_DecodeAll _) as [out|] eqn:Hout; [|done].
    case_decide as D8; [done|]. case_decide; [done|]. intros [= <- <-].
    cbn [to_Channel to_StreamID to_StartSequence to_Encoding to_UncompressedLength to_Data].
    consts. unfold max_uint64 in D6. rewrite D8. split_and!; try done; try lia. right. split_and!; [|done|done].
    apply dec_stable. tauto.
Qed.
End Output.

(** ** Witnesses

    A library that meets the laws: a four-byte header with the content size, and one
    block, repeated when all bytes are equal and stored otherwise. *)

Definition toy_repeats (data : list byte) : bool :=
  match data with [] => false | b :: rest => forallb (fun c => bool_decide (c = b)) rest end.

Definition toy_encode (data : list byte) : list byte :=
  be_put 4 (len data) ++
  (if toy_repeats data then block_header true 1 (len data) ++ take 1 data
   else block_header true 0 (len data) ++ data).

Definition toy_decode (payload : list byte) : option (list byte) :=
  let v := block_value (byte_val (at0 payload 4)) (byte_val (at0 payload 5)) (byte_val (at0 payload 6)) in
  Some (if decide (block_type v = 1) then replicate (Z.to_nat (v / 8)) (at0 payload 7) else drop 7 payload).

Definition toy_zstd : Zstd := {|
  zstd_header := fun payload => Some (mkZHeader false 0 true (be_get (take 4 payload)) true 0 4 false);
  zstd_EncodeAll := toy_encode;
  zstd_DecodeAll := toy_decode
|}.

Lemma toy_repeats_spec data :
  toy_repeats data = true -> exists b, data = replicate (length data) b /\ take 1 data = [b].
Proof.
  destruct data as [|b rest]; [done|]. simpl. intros H. exists b. split; [|done]. f_equal.
  induction rest as [|c rest IH]; [done|]. simpl in *. apply andb_true_iff in H as [Hc H].
  apply bool_decide_eq_true in Hc. subst. by rewrite <- IH.
Qed.

Lemma toy_laws : @ZstdLaws toy_zstd.
Proof.
  intros data Hd. consts. cbn [zstd_header zstd_EncodeAll zstd_DecodeAll toy_zstd]. eexists. split; [reflexivity|].
  cbn [zh_Skippable zh_DictionaryID zh_HasFCS zh_FrameContentSize zh_SingleSegment zh_WindowSize zh_HeaderSize].
  assert (Ht : take 4 (toy_encode data) = be_put 4 (len data)).
  { unfold toy_encode. rewrite take_app_length' by (by rewrite length_be_put). done. }
  rewrite Ht, be_get_put4 by (consts; lia). split_and!; [done..|by left|lia| |]; unfold toy_encode.
  - exists (be_put 4 (len data)). destruct (toy_repeats data) eqn:Hr.
    + destruct (toy_repeats_spec _ Hr) as (b & _ & Hb). rewrite Hb.
      exists (block_header true 1 (len data) ++ [b]), [], []. rewrite app_nil_r. 
      split_and!; try done; [constructor; repeat split; simpl; lia|rewrite ?length_app; simpl; lia..].
    + exists (block_header true 0 (len data) ++ data), [], []. rewrite app_nil_r. 
      split_and!; try done; [constructor; repeat split; simpl; lia|rewrite ?length_app; simpl; lia..].
  - unfold toy_decode. destruct (toy_repeats data) eqn:Hr.
    + destruct (toy_repeats_spec _ Hr) as (b & Hrep & Hb). rewrite Hb.
      destruct (block_header_fields true 1 (len data)) as (_ & F2 & F3); [lia..|].
      match type of F2 with block_type ?v = _ =>
        match goal with |- context [block_value ?a ?b ?c] => change (block_value a b c) with v end end.
      rewrite F2, F3. simpl. rewrite Nat2Z.id. f_equal. by rewrite Hrep at 2.
    + destruct (block_header_fields true 0 (len data)) as (_ & F2 & F3); [lia..|].
      match type of F2 with block_type ?v = _ =>
        match goal with |- context [block_value ?a ?b ?c] => change (block_value a b c) with v end end.
      rewrite F2. done.
Qed.

Lemma zstd_frame_size_exact_witness :
  zstdFrameSize [x09; x00; x00; x61; x62]%byte (mkZHeader false 0 true 1 true 0 0 false) = Ok 4.
Proof.
  apply (proj2 (zstd_frame_size_exact [x09; x00; x00; x61; x62]%byte (mkZHeader false 0 true 1 true 0 0 false) ltac:(simpl; lia))).
  exists [], [x09; x00; x00; x61]%byte, [], [x62]%byte. split_and!; try done.
  apply (zb_last 0 1 [x61]%byte). repeat split; simpl; lia.
Defined.

Definition demo_output : TerminalOutputFrame := mkTOutput TerminalStdout 7 100 x00 0 [x61; x62]%byte.
Definition demo_metrics : CompressionMetrics := mkMetrics 0 0 0 0 0 0 0 0 0.

Lemma terminal_output_roundtrip_witness :
  exists m' wire f', @EncodeTerminalOutputAdaptive toy_zstd true 5 demo_metrics demo_output [x00]%byte = (m', Ok wire)
    /\ (len wire = 19 + len (to_Data demo_output) \/ len wire + 32 <= 19 + len (to_Data demo_output))
    /\ (forall m1, exists m2, @DecodeTerminalOutput toy_zstd true 5 m1 wire = (m2, Ok f'))
    /\ to_Channel f' = to_Channel demo_output /\ to_StreamID f' = to_StreamID demo_output
    /\ to_StartSequence f' = to_StartSequence demo_output /\ to_Data f' = to_Data demo_output.
Proof.
  apply (@terminal_output_roundtrip toy_zstd toy_laws demo_metrics demo_output [x00]%byte 5);
    [by left|done|done|done|done].
Defined.

Lemma terminal_output_bounded_witness :
  exists f, (@DecodeTerminalOutput toy_zstd true 5 demo_metrics (output_bytes demo_output 2)).2 = Ok f
    /\ 0 < len (to_Data f) <= 262125.
Proof.
  destruct (@DecodeTerminalOutput toy_zstd true 5 demo_metrics (output_bytes demo_output 2)) as [m' [f|e]] eqn:E;
    [|exfalso; vm_compute in E; discriminate].
  exists f. split; [reflexivity|].
  apply (@terminal_output_bounded toy_zstd true 5 demo_metrics m' (output_bytes demo_output 2) f E).
Defined.
