(* ===== verification/NativeProto.v ===== *)
(** * The PBT1 native protocol ([internal/nativeproto/nativeproto.go])

    The preface that opens a connection and the records that follow it, read from and
    written to byte streams.  [preface_bytes] and [record_bytes] are their wire images. *)

From S2P Require Import Prelude Wire.

Definition Version : byte := x01.
Definition RoleControl : byte := x01.
Definition RoleInput : byte := x02.
Definition RoleOutput : byte := x03.
Definition ConnectionIDSize : Z := 16.
Definition BindingSize : Z := 32.
Definition MaxTokenSize : Z := Z.shiftl 16 10.
Definition MaxRecordSize : Z := Z.shiftl 1 20.
Definition RecordStructured : byte := x01.
Definition RecordBinary : byte := x02.
Definition Magic : list byte := [x50; x42; x54; x31].

Inductive native_error := ErrPreface | ErrRecord | NStream (e : io_error).

(** [ConnectionID] is an array of [ConnectionIDSize] bytes; the token is a Go string,
    that is, bytes. *)
Record Preface := mkPreface {
  pf_Role : byte;
  pf_ConnectionID : list byte;
  pf_Binding : list byte;
  pf_Token : list byte
}.

Definition validLengths (role : byte) (bindingLen tokenLen : Z) : bool :=
  bool_decide (role = RoleControl /\ bindingLen = 0 /\ 0 < tokenLen
               \/ (role = RoleInput \/ role = RoleOutput) /\ bindingLen = BindingSize /\ tokenLen = 0).

Definition zeroID (id : list byte) : bool := bool_decide (id = replicate (Z.to_nat ConnectionIDSize) x00).

Definition ReadPreface (r : reader) : reader * result native_error Preface :=
  match ReadFull r 26 with
  | (r1, Err e) => (r1, Err (NStream e))
  | (r1, Ok header) =>
      if decide (slice header 0 4 <> Magic \/ header !! 4%nat <> Some Version) then (r1, Err ErrPreface)
      else
        let role := default x00 (header !! 5%nat) in
        let id := slice header 6 22 in
        let bindingLen := be_get (slice header 22 24) in
        let tokenLen := be_get (slice header 24 26) in
        if zeroID id || bool_decide (MaxTokenSize < tokenLen) || negb (validLengths role bindingLen tokenLen)
        then (r1, Err ErrPreface)
        else match ReadFull r1 bindingLen with
        | (r2, Err e) => (r2, Err (NStream e))
        | (r2, Ok binding) =>
            match ReadFull r2 tokenLen with
            | (r3, Err e) => (r3, Err (NStream e))
            | (r3, Ok token) => (r3, Ok (mkPreface role id binding token))
            end
        end
  end.

Definition WritePreface (w : writer) (p : Preface) : writer * result native_error unit :=
  if zeroID (pf_ConnectionID p) || bool_decide (MaxTokenSize < len (pf_Token p))
     || negb (validLengths (pf_Role p) (len (pf_Binding p)) (len (pf_Token p)))
  then (w, Err ErrPreface)
  else
    let buffer := Magic ++ [Version; pf_Role p] ++ pf_ConnectionID p ++ be_put 2 (len (pf_Binding p))
                    ++ be_put 2 (len (pf_Token p)) ++ pf_Binding p ++ pf_Token p in
    match writeAll w buffer with
    | (w1, Err e) => (w1, Err (NStream e))
    | (w1, Ok _) => (w1, Ok tt)
    end.

Definition known_kind (k : byte) : bool := bool_decide (k = RecordStructured \/ k = RecordBinary).

Definition ReadRecord (r : reader) (typed : bool) : reader * result native_error (byte * list byte) :=
  let headerSize := if typed then 5 else 4 in
  match ReadFull r headerSize with
  | (r1, Err e) => (r1, Err (NStream e))
  | (r1, Ok header) =>
      let kind := if typed then default x00 (header !! 0%nat) else RecordBinary in
      let offset := if typed then 1 else 0 in
      if typed && negb (known_kind kind) then (r1, Err ErrRecord)
      else
        let length := be_get (slice header offset headerSize) in
        if decide (length = 0 \/ MaxRecordSize < length) then (r1, Err ErrRecord)
        else match ReadFull r1 length with
        | (r2, Err e) => (r2, Err (NStream e))
        | (r2, Ok payload) => (r2, Ok (kind, payload))
        end
  end.

Definition WriteRecord (w : writer) (kind : byte) (payload : list byte) (typed : bool)
    : writer * result native_error unit :=
  if decide (len payload = 0 \/ MaxRecordSize < len payload \/ (typed = true /\ known_kind kind = false))
  then (w, Err ErrRecord)
  else
    let record := (if typed then [kind] else []) ++ be_put 4 (len payload) ++ payload in
    match writeAll w record with
    | (w1, Err e) => (w1, Err (NStream e))
    | (w1, Ok _) => (w1, Ok tt)
    end.

(** ** Wire images *)

Definition preface_bytes (p : Preface) : list byte :=
  Magic ++ [Version; pf_Role p] ++ pf_ConnectionID p ++ be_put 2 (len (pf_Binding p))
    ++ be_put 2 (len (pf_Token p)) ++ pf_Binding p ++ pf_Token p.

(** A preface a peer may send: a non-zero connection identifier, and either a control
    connection with a token or a data connection with a binding. *)
Definition preface_valid (p : Preface) : Prop :=
  len (pf_ConnectionID p) = ConnectionIDSize /\ zeroID (pf_ConnectionID p) = false
  /\ len (pf_Token p) <= MaxTokenSize
  /\ validLengths (pf_Role p) (len (pf_Binding p)) (len (pf_Token p)) = true.

Definition record_bytes (kind : byte) (payload : list byte) (typed : bool) : list byte :=
  (if typed then [kind] else []) ++ be_put 4 (len payload) ++ payload.

(** On an untyped stream every record is binary. *)
Definition record_valid (kind : byte) (payload : list byte) (typed : bool) : Prop :=
  0 < len payload <= MaxRecordSize /\ (if typed then known_kind kind = true else kind = RecordBinary).

#[global] Arguments preface_bytes : simpl never.
#[global] Arguments record_bytes : simpl never.

Lemma MaxTokenSize_val : MaxTokenSize = 16384.
Proof. reflexivity. Qed.
Lemma MaxRecordSize_val : MaxRecordSize = 1048576.
Proof. reflexivity. Qed.

Lemma validLengths_spec role b t :
  validLengths role b t = true ->
  (role = RoleControl /\ b = 0 /\ 0 < t) \/ ((role = RoleInput \/ role = RoleOutput) /\ b = BindingSize /\ t = 0).
Proof. intros H%bool_decide_eq_true. done. Qed.

(** The header of a preface and what it says about the rest. *)
Definition preface_header (p : Preface) : list byte :=
  Magic ++ [Version; pf_Role p] ++ pf_ConnectionID p ++ be_put 2 (len (pf_Binding p)) ++ be_put 2 (len (pf_Token p)).

Lemma ReadPreface_bytes p rest e :
  preface_valid p -> ReadPreface (mkReader (preface_bytes p ++ rest) e) = (mkReader rest e, Ok p).
Proof.
  intros (Hid & Hz & Ht & Hv). unfold ReadPreface. unfold ConnectionIDSize in Hid. rewrite MaxTokenSize_val in Ht.
  set (h := preface_header p). set (a := Magic ++ [Version; pf_Role p]).
  assert (Hlen : len h = 26) by (unfold h, preface_header; lens).
  rewrite (ReadFull_app _ 26 h (pf_Binding p ++ pf_Token p ++ rest)) by
    (first [lia | cbn [rd_bytes]; unfold h, preface_bytes, preface_header; by rewrite <- !app_assoc]).
  assert (H6 : slice h 6 22 = pf_ConnectionID p).
  { by apply (slice_mid a (pf_ConnectionID p) (be_put 2 (len (pf_Binding p)) ++ be_put 2 (len (pf_Token p))));
      [unfold h, preface_header, a; rewrite <- ?app_assoc|..|lia]. }
  assert (H22 : slice h 22 24 = be_put 2 (len (pf_Binding p))).
  { apply (slice_mid (a ++ pf_ConnectionID p) (be_put 2 (len (pf_Binding p))) (be_put 2 (len (pf_Token p))));
      [unfold h, preface_header, a; by rewrite <- ?app_assoc|lens|lens]. }
  assert (H24 : slice h 24 26 = be_put 2 (len (pf_Token p))).
  { apply (slice_mid (a ++ pf_ConnectionID p ++ be_put 2 (len (pf_Binding p))) (be_put 2 (len (pf_Token p))) []);
      [unfold h, preface_header, a; rewrite app_nil_r; by rewrite <- ?app_assoc|lens|lens]. }
  rewrite H6, H22, H24. change (h !! 5%nat) with (Some (pf_Role p)). change (h !! 4%nat) with (Some Version).
  change (slice h 0 4) with Magic. rewrite decide_False by tauto. cbn [default from_option id rd_end].
  pose proof (validLengths_spec _ _ _ Hv) as Hvs. unfold BindingSize in Hvs.
  rewrite !be_get_put2 by (unfold two16; lia).
  rewrite Hz, Hv, bool_decide_false by (rewrite MaxTokenSize_val; lia). cbn [orb negb].
  rewrite (ReadFull_app _ _ (pf_Binding p) (pf_Token p ++ rest)) by done. cbn [rd_end].
  rewrite (ReadFull_app _ _ (pf_Token p) rest) by done. by destruct p.
Qed.

Lemma ReadPreface_inv r r' p :
  ReadPreface r = (r', Ok p) ->
  preface_valid p /\ rd_bytes r = preface_bytes p ++ rd_bytes r' /\ rd_end r' = rd_end r.
Proof.
  unfold ReadPreface. destruct (ReadFull r 26) as [r1 [h|]] eqn:E1; [|done].
  apply ReadFull_ok in E1 as (B1 & L1 & N1); [|lia]. case_decide as D1; [done|].
  apply Decidable.not_or in D1 as [Hm Hver]. apply dec_stable in Hm, Hver.
  destruct (zeroID _ || _ || _) eqn:Hchk; [done|].
  apply orb_false_iff in Hchk as [Hchk Hv]. apply orb_false_iff in Hchk as [Hz Ht].
  apply negb_false_iff in Hv. apply bool_decide_eq_false in Ht.
  pose proof (be_get_range (slice h 22 24)). pose proof (be_get_range (slice h 24 26)).
  destruct (ReadFull r1 _) as [r2 [b|]] eqn:E2; [|done]. apply ReadFull_ok in E2 as (B2 & L2 & N2); [|lia].
  destruct (ReadFull r2 _) as [r3 [t|]] eqn:E3; [|done]. apply ReadFull_ok in E3 as (B3 & L3 & N3); [|lia].
  intros Hq. injection Hq as <- <-.
  assert (Himg : preface_bytes (mkPreface (default x00 (h !! 5%nat)) (slice h 6 22) b t) = h ++ b ++ t).
  { unfold preface_bytes. cbn [pf_Role pf_ConnectionID pf_Binding pf_Token]. rewrite L2, L3.
    rewrite !(be_put_get_length 2) by (pose proof (length_slice h 22 24); pose proof (length_slice h 24 26); lia).
    rewrite !app_assoc. f_equal. f_equal. rewrite <- !app_assoc.
    assert (H46 : [Version; default x00 (h !! 5%nat)] = slice h 4 6).
    { do 26 (destruct h as [|? h]; [simpl in L1; lia|]). simpl in Hver. injection Hver as ->. done. }
    rewrite <- Hm, H46, !slice_split by lia. by rewrite slice_all by lia. }
  split; [|split; [by rewrite Himg, B1, B2, B3, <- !app_assoc|congruence]].
  unfold preface_valid. cbn [pf_Role pf_ConnectionID pf_Binding pf_Token]. rewrite L2, L3.
  split_and!; [rewrite length_slice by lia; done|done|lia|done].
Qed.

Lemma ReadRecord_bytes kind payload typed rest e :
  record_valid kind payload typed ->
  ReadRecord (mkReader (record_bytes kind payload typed ++ rest) e) typed = (mkReader rest e, Ok (kind, payload)).
Proof.
  intros [Hl Hk]. rewrite MaxRecordSize_val in Hl. unfold ReadRecord, record_bytes.
  set (h := (if typed then [kind] else []) ++ be_put 4 (len payload)).
  rewrite (ReadFull_app _ _ h (payload ++ rest)) by
    (first [destruct typed; done | cbn [rd_bytes]; unfold h; by rewrite <- !app_assoc]).
  assert (Hs : slice h (if typed then 1 else 0) (if typed then 5 else 4) = be_put 4 (len payload)).
  { apply (slice_mid (if typed then [kind] else []) (be_put 4 (len payload)) []);
      [by rewrite app_nil_r|by destruct typed|destruct typed; lens]. }
  rewrite Hs, be_get_put4 by (unfold two32; lia).
  replace (if typed then default x00 (h !! 0%nat) else RecordBinary) with kind by (by destruct typed).
  replace (typed && negb (known_kind kind)) with false by (destruct typed; [by rewrite Hk|done]).
  rewrite decide_False by (rewrite MaxRecordSize_val; lia).
  by rewrite (ReadFull_app _ _ payload rest).
Qed.

Lemma ReadRecord_inv r r' typed kind payload :
  ReadRecord r typed = (r', Ok (kind, payload)) ->
  record_valid kind payload typed /\ rd_bytes r = record_bytes kind payload typed ++ rd_bytes r'
  /\ rd_end r' = rd_end r.
Proof.
  unfold ReadRecord. destruct (ReadFull r _) as [r1 [h|]] eqn:E1; [|done].
  apply ReadFull_ok in E1 as (B1 & L1 & N1); [|by destruct typed].
  destruct (typed && _) eqn:Hk; [done|]. case_decide as D; [done|].
  pose proof (be_get_range (slice h (if typed then 1 else 0) (if typed then 5 else 4))).
  destruct (ReadFull r1 _) as [r2 [p|]] eqn:E2; [|done]. apply ReadFull_ok in E2 as (B2 & L2 & N2); [|lia].
  intros Hq. injection Hq as <- <- <-.
  assert (Himg : record_bytes (if typed then default x00 (h !! 0%nat) else RecordBinary) p typed = h ++ p).
  { unfold record_bytes. rewrite L2. rewrite (be_put_get_length 4).
    2:{ pose proof (length_slice h (if typed then 1 else 0) (if typed then 5 else 4)). destruct typed; lia. }
    rewrite app_assoc. f_equal. destruct typed; simpl.
    - destruct h as [|k h]; [done|]. unfold slice. simpl. rewrite drop_0. f_equal. apply take_ge. simpl in L1. lia.
    - by apply slice_all; lia. }
  split; [|split; [by rewrite Himg, B1, B2, <- !app_assoc|congruence]].
  split; [lia|]. destruct typed; [|done]. by apply negb_false_iff in Hk.
Qed.

(** ** Theorems *)

(** The preface that opens a connection is read exactly as it was written: a valid
    preface written to a writer that makes progress is read back unchanged, and whatever
    [ReadPreface] accepts is valid and is exactly the bytes it consumed, so no token is
    accepted on a data connection and no binding on a control connection. *)
Theorem preface_roundtrip (w : writer) (p : Preface) (r r' : reader) :
  (willing w -> preface_valid p ->
     exists w', WritePreface w p = (w', Ok tt) /\ wr_out w' = wr_out w ++ preface_bytes p)
  /\ (ReadPreface r = (r', Ok p)
      <-> preface_valid p /\ rd_bytes r = preface_bytes p ++ rd_bytes r' /\ rd_end r' = rd_end r).
Proof.
  split; [|split; [apply ReadPreface_inv|]].
  - intros Hw (Hid & Hz & Ht & Hv). unfold WritePreface. rewrite Hz, Hv, bool_decide_false by lia. cbn [orb negb].
    fold (preface_bytes p). destruct (writeAll_willing w (preface_bytes p) Hw) as (w1 & -> & Ho & _). eauto.
  - intros (Hv & Hb & He). destruct r as [b e], r' as [b' e']. simpl in *. subst. by apply ReadPreface_bytes.
Qed.

(** Records are read exactly as they were written, on typed and untyped streams: a
    valid record written to a writer that makes progress is read back with its kind and
    payload, and whatever [ReadRecord] accepts is a record of 1 byte to 1 MiB and exactly
    the bytes it consumed. *)
Theorem record_roundtrip (w : writer) (kind : byte) (payload : list byte) (typed : bool) (r r' : reader) :
  (willing w -> record_valid kind payload typed ->
     exists w', WriteRecord w kind payload typed = (w', Ok tt)
       /\ wr_out w' = wr_out w ++ record_bytes kind payload typed)
  /\ (ReadRecord r typed = (r', Ok (kind, payload))
      <-> record_valid kind payload typed /\ rd_bytes r = record_bytes kind payload typed ++ rd_bytes r'
          /\ rd_end r' = rd_end r).
Proof.
  split; [|split; [apply ReadRecord_inv|]].
  - intros Hw [Hl Hk]. unfold WriteRecord. rewrite decide_False.
    + fold (record_bytes kind payload typed).
      destruct (writeAll_willing w (record_bytes kind payload typed) Hw) as (w1 & -> & Ho & _). eauto.
    + intros [?|[?|[-> ?]]]; [lia|lia|congruence].
  - intros (Hv & Hb & He). destruct r as [b e], r' as [b' e']. simpl in *. subst. by apply ReadRecord_bytes.
Qed.

(** *** Witnesses *)

Definition demo_preface : Preface := mkPreface RoleControl (replicate 16 x07) [] [x61].

Lemma preface_roundtrip_witness :
  ReadPreface (mkReader (preface_bytes demo_preface ++ [x05]%byte) EOF) = (mkReader [x05]%byte EOF, Ok demo_preface).
Proof.
  apply (proj2 (preface_roundtrip (mkWriter [] []) demo_preface
    (mkReader (preface_bytes demo_preface ++ [x05]%byte) EOF) (mkReader [x05]%byte EOF))).
  split; [|done]. vm_compute. repeat split; discriminate.
Defined.

Lemma record_roundtrip_witness :
  ReadRecord (mkReader (record_bytes RecordBinary [x61]%byte true ++ [x05]%byte) EOF) true
  = (mkReader [x05]%byte EOF, Ok (RecordBinary, [x61]%byte)).
Proof.
  apply (proj2 (record_roundtrip (mkWriter [] []) RecordBinary [x61]%byte true
    (mkReader (record_bytes RecordBinary [x61]%byte true ++ [x05]%byte) EOF) (mkReader [x05]%byte EOF))).
  split; [|done]. vm_compute. repeat split; discriminate.
Defined.
