(* ===== verification/Frame.v ===== *)
(** * Structured frames ([internal/protocol/frame.go])

    A structured frame is a length-prefixed JSON object.  The JSON library is the
    parameter [JsonText]: the tokens it finds in a text, its validity, and the frame it
    decodes.  [rejectDuplicateKeys] walks the token stream of [json.Decoder]; it is shown
    to accept exactly the values without repeated object keys. *)

From S2P Require Import Prelude Wire Binary.

(** ** Tokens ([json.Decoder]) *)

Inductive token :=
| TOpenObject | TCloseObject | TOpenArray | TCloseArray
| TString (s : string)
| TScalar (text : string).   (* a number, a boolean or null, as written *)

#[global] Instance token_eq_dec : EqDecision token.
Proof. solve_decision. Defined.

(** The tokens still to come, and whether the text ends well after them. *)
Inductive json_end := JEOF | JSyntax.

Record decoder := mkDecoder { dc_tokens : list token; dc_end : json_end }.

Inductive json_error := JToken (e : json_end) | JDuplicate | JDelimiter | JTrailing.

Definition Token (d : decoder) : decoder * result json_error token :=
  match dc_tokens d with
  | [] => (d, Err (JToken (dc_end d)))
  | t :: rest => (mkDecoder rest (dc_end d), Ok t)
  end.

(** Whether something other than the end of the array or object follows. *)
Definition More (d : decoder) : bool :=
  match dc_tokens d with
  | [] => match dc_end d with JEOF => false | JSyntax => true end
  | (TCloseObject | TCloseArray) :: _ => false
  | _ => true
  end.

(** The closure [walk]: at a value, inside an object with the keys seen, or inside an
    array.  [None]: out of fuel. *)
Inductive place := AtValue | InObject (seen : gset string) | InArray.

Fixpoint walk (fuel : nat) (p : place) (d : decoder) : option (decoder * result json_error unit) :=
  match fuel with
  | O => None
  | S fuel =>
      match p with
      | AtValue =>
          match Token d with
          | (d1, Err e) => Some (d1, Err e)
          | (d1, Ok TOpenObject) => walk fuel (InObject ∅) d1
          | (d1, Ok TOpenArray) => walk fuel InArray d1
          | (d1, Ok (TCloseObject | TCloseArray)) => Some (d1, Err JDelimiter)
          | (d1, Ok (TString _ | TScalar _)) => Some (d1, Ok tt)
          end
      | InObject seen =>
          if More d then
            match Token d with
            | (d1, Err e) => Some (d1, Err e)
            | (d1, Ok (TString key)) =>
                if decide (key ∈ seen) then Some (d1, Err JDuplicate)
                else match walk fuel AtValue d1 with
                     | Some (d2, Ok _) => walk fuel (InObject ({[key]} ∪ seen)) d2
                     | other => other
                     end
            | (d1, Ok _) => Some (d1, Err JDuplicate)
            end
          else let '(d1, r) := Token d in Some (d1, let? _ := r in Ok tt)
      | InArray =>
          if More d then
            match walk fuel AtValue d with
            | Some (d1, Ok _) => walk fuel InArray d1
            | other => other
            end
          else let '(d1, r) := Token d in Some (d1, let? _ := r in Ok tt)
      end
  end.

(** Two turns per token are enough ([walk_total]). *)
Definition rejectDuplicateKeys (d : decoder) : result json_error unit :=
  match walk (S (S (2 * length (dc_tokens d)))) AtValue d with
  | None => Err JTrailing
  | Some (_, Err e) => Err e
  | Some (d1, Ok _) =>
      match Token d1 with
      | (_, Err (JToken JEOF)) => Ok tt
      | _ => Err JTrailing
      end
  end.

(** ** Frames *)

Definition MaxStructuredFrame : Z := Z.shiftl 64 10.
Definition ProtocolVersion : string := "1.0".

Record Frame := mkFrame {
  fr_Type : string;
  fr_RequestID : string;
  fr_Version : string;
  fr_OperationID : string;
  fr_Capability : string;
  fr_DeadlineMS : Z;
  fr_Payload : option (list byte)
}.

Definition allowedTypes : list string :=
  ["hello"; "welcome"; "request"; "response"; "error"; "event"; "cancel"; "heartbeat"; "detach"].

Definition between (a : ascii) (lo hi : nat) : bool :=
  bool_decide (lo <= nat_of_ascii a <= hi)%nat.

(** [^[a-z][a-z0-9_.-]{1,63}$] *)
Definition capabilityPattern (s : string) : bool :=
  match String.list_ascii_of_string s with
  | [] => false
  | c :: rest =>
      between c 97 122 && bool_decide (1 <= length rest <= 63)%nat
      && forallb (fun a => between a 97 122 || between a 48 57 || bool_decide (a = "_"%char)
                           || bool_decide (a = "."%char) || bool_decide (a = "-"%char)) rest
  end.

Definition slen (s : string) : Z := Z.of_nat (String.length s).

(** ** UTF-8 ([utf8.Valid]) *)

Definition in_range (b : byte) (lo hi : Z) : bool := bool_decide (lo <= byte_val b <= hi).
Definition cont (b : byte) : bool := in_range b 128 191.

Fixpoint utf8_Valid (l : list byte) : bool :=
  match l with
  | [] => true
  | a :: r1 =>
      if in_range a 0 127 then utf8_Valid r1
      else match r1 with
      | [] => false
      | b :: r2 =>
          if in_range a 194 223 then cont b && utf8_Valid r2
          else match r2 with
          | [] => false
          | c :: r3 =>
              if in_range a 224 239 then
                in_range b (if decide (byte_val a = 224) then 160 else 128)
                           (if decide (byte_val a = 237) then 159 else 191)
                && cont c && utf8_Valid r3
              else match r3 with
              | [] => false
              | e :: r4 =>
                  in_range a 240 244
                  && in_range b (if decide (byte_val a = 240) then 144 else 128)
                                (if decide (byte_val a = 244) then 143 else 191)
                  && cont c && cont e && utf8_Valid r4
              end
          end
      end
  end.

(** The JSON library on the texts the program gives it. *)
Class JsonText := {
  json_Valid : list byte -> bool;
  json_tokens : list byte -> decoder;
  json_decode : list byte -> option Frame;   (* [DisallowUnknownFields], nothing after the object *)
  json_encode : Frame -> option (list byte)
}.

Section Frames.
Context `{JT : JsonText}.

Definition payload_check (p : option (list byte)) : result perror unit :=
  match p with
  | None => Ok tt
  | Some b =>
      if negb (json_Valid b) then Err (PError InvalidFrame)
      else match rejectDuplicateKeys (json_tokens b) with
           | Err _ => Err (PError InvalidFrame)
           | Ok _ => Ok tt
           end
  end.

Definition Validate (f : Frame) : result perror unit :=
  if decide (fr_Type f ∉ allowedTypes) then Err (PError UnsupportedMessage)
  else if decide (slen (fr_RequestID f) < 1 \/ 128 < slen (fr_RequestID f) \/ fr_Version f <> ProtocolVersion)
  then Err (PError InvalidFrame)
  else if decide (fr_OperationID f <> "" /\ (slen (fr_OperationID f) < 8 \/ 128 < slen (fr_OperationID f)))
  then Err (PError InvalidFrame)
  else if decide (fr_Capability f <> "" /\ capabilityPattern (fr_Capability f) = false)
  then Err (PError CapabilityRequired)
  else
    let? _ := payload_check (fr_Payload f) in
    if decide (fr_Type f = "hello") then
      match fr_Payload f with None => Err (PError InvalidFrame) | Some _ => Ok tt end
    else if decide (fr_Type f = "request") then
      if decide (fr_OperationID f = "" \/ fr_Payload f = None) then Err (PError InvalidFrame)
      else if decide (fr_Capability f = "") then Err (PError CapabilityRequired)
      else if decide (fr_DeadlineMS f < 1 \/ 300000 < fr_DeadlineMS f) then Err (PError InvalidDeadline)
      else Ok tt
    else if decide (fr_Type f = "cancel") then
      if decide (fr_OperationID f = "") then Err (PError InvalidFrame) else Ok tt
    else Ok tt.

(** The checks on the body of a frame. *)
Definition decode_body (b : list byte) : result perror Frame :=
  if negb (utf8_Valid b) then Err (PError Malformed)
  else match rejectDuplicateKeys (json_tokens b) with
  | Err _ => Err (PError Malformed)
  | Ok _ =>
      match json_decode b with
      | None => Err (PError Malformed)
      | Some f => let? _ := Validate f in Ok f
      end
  end.

Definition ReadFrame (r : reader) : reader * result perror Frame :=
  match ReadFull r 4 with
  | (r1, Err e) => (r1, Err (PStream e))
  | (r1, Ok prefix) =>
      let n := be_get prefix in
      if decide (n = 0) then (r1, Err (PError Malformed))
      else if decide (MaxStructuredFrame < n) then (r1, Err (PError Oversized))
      else match ReadFull r1 n with
      | (r2, Err _) => (r2, Err (PError Malformed))
      | (r2, Ok b) => (r2, decode_body b)
      end
  end.

Definition WriteFrame (w : writer) (f : Frame) : writer * result perror unit :=
  match Validate f with
  | Err e => (w, Err e)
  | Ok _ =>
      match json_encode f with
      | None => (w, Err (PError Malformed))
      | Some b =>
          if decide (MaxStructuredFrame < len b) then (w, Err (PError Oversized))
          else match writeAll w (be_put 4 (len b)) with
          | (w1, Err e) => (w1, Err (PStream e))
          | (w1, Ok _) =>
              match writeAll w1 b with
              | (w2, Err e) => (w2, Err (PStream e))
              | (w2, Ok _) => (w2, Ok tt)
              end
          end
      end
  end.
End Frames.

(** ** JSON values and their tokens *)

Inductive json :=
| JScalar (text : string)
| JStr (s : string)
| JArr (l : json_list)
| JObj (m : json_members)
with json_list :=
| ENil
| ECons (v : json) (l : json_list)
with json_members :=
| MNil
| MCons (key : string) (v : json) (m : json_members).

Scheme json_mind := Induction for json Sort Prop
with json_list_mind := Induction for json_list Sort Prop
with json_members_mind := Induction for json_members Sort Prop.
Combined Scheme json_mutind from json_mind, json_list_mind, json_members_mind.

Fixpoint tokens (v : json) : list token :=
  match v with
  | JScalar text => [TScalar text]
  | JStr s => [TString s]
  | JArr l => TOpenArray :: tokens_e l ++ [TCloseArray]
  | JObj m => TOpenObject :: tokens_m m ++ [TCloseObject]
  end
with tokens_e (l : json_list) : list token :=
  match l with ENil => [] | ECons v l => tokens v ++ tokens_e l end
with tokens_m (m : json_members) : list token :=
  match m with MNil => [] | MCons key v m => TString key :: tokens v ++ tokens_m m end.

Fixpoint keys (m : json_members) : list string :=
  match m with MNil => [] | MCons key _ m => key :: keys m end.

(** No object of the value names a key twice. *)
Fixpoint distinct_keys (v : json) : Prop :=
  match v with
  | JScalar _ | JStr _ => True
  | JArr l => distinct_e l
  | JObj m => NoDup (keys m) /\ distinct_m m
  end
with distinct_e (l : json_list) : Prop :=
  match l with ENil => True | ECons v l => distinct_keys v /\ distinct_e l end
with distinct_m (m : json_members) : Prop :=
  match m with MNil => True | MCons _ v m => distinct_keys v /\ distinct_m m end.

(** *** The walk over the tokens of a value *)

Definition accepts (r : option (decoder * result json_error unit)) (d : decoder) (P : Prop) : Prop :=
  (P /\ r = Some (d, Ok tt)) \/ (~ P /\ exists d', r = Some (d', Err JDuplicate)).

Lemma accepts_iff r d P Q : (P <-> Q) -> accepts r d P -> accepts r d Q.
Proof. unfold accepts. tauto. Qed.

Lemma tokens_first v : exists t rest, tokens v = t :: rest /\ t <> TCloseObject /\ t <> TCloseArray.
Proof. destruct v; simpl; eauto. Qed.

Lemma More_value v rest e : More (mkDecoder (tokens v ++ rest) e) = true.
Proof. destruct (tokens_first v) as (t & l & -> & H1 & H2). unfold More. simpl. by destruct t. Qed.

(** Walking a member and then the rest of the object. *)
Lemma accepts_seq (r1 : option (decoder * result json_error unit)) (k : decoder -> option (decoder * result json_error unit))
    d1 d2 P Q :
  accepts r1 d1 P -> accepts (k d1) d2 Q ->
  accepts (match r1 with Some (d, Ok _) => k d | Some (d, Err e) => Some (d, Err e) | None => None end) d2 (P /\ Q).
Proof.
  intros [[HP ->]|[HP [d' ->]]] H2; simpl.
  - eapply accepts_iff; [|exact H2]. tauto.
  - right. split; [tauto|eauto].
Qed.

Lemma walk_mutual :
  (forall v fuel rest e, (2 * length (tokens v) < fuel)%nat ->
     accepts (walk fuel AtValue (mkDecoder (tokens v ++ rest) e)) (mkDecoder rest e) (distinct_keys v))
  /\ (forall l fuel rest e, (2 * S (length (tokens_e l)) < fuel)%nat ->
     accepts (walk fuel InArray (mkDecoder (tokens_e l ++ TCloseArray :: rest) e)) (mkDecoder rest e) (distinct_e l))
  /\ (forall m seen fuel rest e, (2 * S (length (tokens_m m)) < fuel)%nat ->
     accepts (walk fuel (InObject seen) (mkDecoder (tokens_m m ++ TCloseObject :: rest) e)) (mkDecoder rest e)
       ((NoDup (keys m) /\ forall k, k ∈ keys m -> k ∉ seen) /\ distinct_m m)).
Proof.
  apply json_mutind.
  - intros text [|fuel] rest e Hf; [lia|]. left. done.
  - intros s [|fuel] rest e Hf; [lia|]. left. done.
  - intros l IH [|fuel] rest e Hf; [lia|]. simpl. rewrite <- app_assoc. apply IH.
    simpl in Hf. rewrite length_app in Hf. simpl in Hf. lia.
  - intros m IH [|fuel] rest e Hf; [lia|]. simpl. rewrite <- app_assoc. simpl.
    eapply accepts_iff; [|apply (IH ∅)]; [set_solver|].
    simpl in Hf. rewrite length_app in Hf. simpl in Hf. lia.
  - intros [|fuel] rest e Hf; [lia|]. left. done.
  - intros v IHv l IHl [|fuel] rest e Hf; [lia|]. cbn [walk tokens_e distinct_e]. rewrite <- app_assoc, More_value.
    simpl in Hf. rewrite length_app in Hf. destruct (tokens_first v) as (t & r & Ht & _).
    assert (1 <= length (tokens v))%nat by (rewrite Ht; simpl; lia).
    apply (accepts_seq _ (walk fuel InArray) (mkDecoder (tokens_e l ++ TCloseArray :: rest) e)).
    + apply IHv. lia.
    + apply IHl. lia.
  - intros seen [|fuel] rest e Hf; [lia|]. left. simpl. split; [|done]. split; [|done]. split; [constructor|set_solver].
  - intros key v IHv m IHm seen [|fuel] rest e Hf; [lia|]. cbn [walk tokens_m].
    simpl in Hf. rewrite length_app in Hf. cbn [More dc_tokens app Token dc_end]. rewrite <- app_assoc.
    destruct (decide (key ∈ seen)) as [Hin|Hout].
    { right. split; [|eauto]. intros [[_ Hk] _]. apply (Hk key); [simpl; left|done]. }
    eapply accepts_iff;
      [|apply (accepts_seq _ (walk fuel (InObject ({[key]} ∪ seen))) (mkDecoder (tokens_m m ++ TCloseObject :: rest) e))].
    3:{ apply IHm. lia. }
    2:{ apply IHv. lia. }
    simpl. rewrite NoDup_cons. set_solver.
Qed.

(** *** Every token stream *)

(** The walk ends on every token stream, and never gives tokens back. *)
Lemma walk_total fuel : forall p d,
  (2 * length (dc_tokens d) + (match p with AtValue => 0 | _ => 1 end) < fuel)%nat ->
  exists d1 r, walk fuel p d = Some (d1, r)
    /\ (length (dc_tokens d1) <= length (dc_tokens d))%nat
    /\ (p = AtValue -> r = Ok tt -> (length (dc_tokens d1) < length (dc_tokens d))%nat).
Proof.
  induction fuel as [|fuel IH]; intros p d Hf; [lia|].
  assert (HT : forall t rest, dc_tokens d = t :: rest -> Token d = (mkDecoder rest (dc_end d), Ok t))
    by (intros t rest E; unfold Token; by rewrite E).
  assert (HN : dc_tokens d = [] -> Token d = (d, Err (JToken (dc_end d)))) by (intros E; unfold Token; by rewrite E).
  assert (Hstop : forall d1 (r : result json_error unit), (length (dc_tokens d1) <= length (dc_tokens d))%nat ->
    (p = AtValue -> r = Ok tt -> (length (dc_tokens d1) < length (dc_tokens d))%nat) ->
    exists d1' r', Some (d1, r) = Some (d1', r')
      /\ (length (dc_tokens d1') <= length (dc_tokens d))%nat
      /\ (p = AtValue -> r' = Ok tt -> (length (dc_tokens d1') < length (dc_tokens d))%nat)) by eauto 10.
  destruct p as [|seen|]; cbn [walk].
  - destruct (dc_tokens d) as [|t rest] eqn:E; [rewrite HN by done; apply Hstop; rewrite ?E; done|].
    rewrite (HT _ _ eq_refl). simpl in Hf. destruct t; try (apply Hstop; simpl; intros; (done || lia)).
    + destruct (IH (InObject ∅) (mkDecoder rest (dc_end d))) as (d1 & r & -> & Hl & _); [simpl; lia|].
      apply Hstop; simpl in *; intros; lia.
    + destruct (IH InArray (mkDecoder rest (dc_end d))) as (d1 & r & -> & Hl & _); [simpl; lia|].
      apply Hstop; simpl in *; intros; lia.
  - destruct (dc_tokens d) as [|t rest] eqn:E.
    { rewrite HN by done. destruct (More d); apply Hstop; rewrite ?E; done. }
    rewrite (HT _ _ eq_refl). simpl in Hf. destruct (More d); [|apply Hstop; simpl; (lia || done)].
    destruct t as [| | | |key|text]; try (apply Hstop; simpl; (lia || done)).
    destruct (decide (key ∈ seen)); [apply Hstop; simpl; (lia || done)|].
    destruct (IH AtValue (mkDecoder rest (dc_end d))) as (d1 & r & -> & Hl & Hlt); [simpl; lia|]. simpl in *.
    destruct r as [[]|er]; [|apply Hstop; (lia || done)]. specialize (Hlt eq_refl eq_refl).
    destruct (IH (InObject ({[key]} ∪ seen)) d1) as (d2 & r & -> & Hl2 & _); [simpl; lia|].
    apply Hstop; (lia || done).
  - destruct (More d).
    + destruct (IH AtValue d) as (d1 & r & -> & Hl & Hlt); [simpl in *; lia|].
      destruct r as [[]|er]; [|apply Hstop; (lia || done)]. specialize (Hlt eq_refl eq_refl).
      destruct (IH InArray d1) as (d2 & r & -> & Hl2 & _); [simpl in *; lia|]. apply Hstop; (lia || done).
    + destruct (dc_tokens d) as [|t rest] eqn:E; [rewrite HN by done|rewrite (HT _ _ eq_refl)];
        apply Hstop; rewrite ?E; simpl; (lia || done).
Qed.

(** ** Theorems *)

(** The check for repeated keys decides exactly what it should: on the tokens of a
    JSON value it accepts the value if and only if no object in it, at any depth, names a
    key twice, and it accepts nothing when anything follows the value.  On every token
    stream, of any text, the walk ends. *)
Theorem duplicate_keys_exact :
  (forall v, rejectDuplicateKeys (mkDecoder (tokens v) JEOF) = Ok tt <-> distinct_keys v)
  /\ (forall v t rest e, rejectDuplicateKeys (mkDecoder (tokens v ++ t :: rest) e) <> Ok tt)
  /\ (forall d, is_Some (walk (S (S (2 * length (dc_tokens d)))) AtValue d)).
Proof.
  split_and!.
  - intros v. unfold rejectDuplicateKeys. cbn [dc_tokens].
    destruct (proj1 walk_mutual v (S (S (2 * length (tokens v)))) [] JEOF ltac:(lia)) as [[Hd E]|[Hd [d E]]];
      rewrite app_nil_r in E; rewrite E; simpl; split; (done || tauto).
  - intros v t rest e. unfold rejectDuplicateKeys. cbn [dc_tokens].
    destruct (proj1 walk_mutual v (S (S (2 * length (tokens v ++ t :: rest)))) (t :: rest) e) as [[Hd E]|[Hd [d E]]];
      [rewrite length_app; lia|rewrite E; done..].
  - intros d. destruct (walk_total (S (S (2 * length (dc_tokens d)))) AtValue d) as (d1 & r & -> & _); [lia|eauto].
Qed.

(** A frame is read only when everything about it has been checked: an accepted
    frame was preceded by its length, is 1 byte to 64 KiB of UTF-8 JSON without repeated
    keys, has a known type, this protocol's version and identifiers within their limits,
    and a request names a well-formed capability, an operation and a deadline of at most
    five minutes; exactly its bytes are consumed. *)
Theorem frame_read_checked `{JT : JsonText} (r r' : reader) (f : Frame) :
  ReadFrame r = (r', Ok f) ->
  exists b, rd_bytes r = be_put 4 (len b) ++ b ++ rd_bytes r' /\ 1 <= len b <= 65536
    /\ utf8_Valid b = true /\ rejectDuplicateKeys (json_tokens b) = Ok tt /\ json_decode b = Some f
    /\ fr_Type f ∈ allowedTypes /\ fr_Version f = "1.0" /\ 1 <= slen (fr_RequestID f) <= 128
    /\ (fr_Type f = "request" ->
          8 <= slen (fr_OperationID f) <= 128 /\ capabilityPattern (fr_Capability f) = true
          /\ 1 <= fr_DeadlineMS f <= 300000
          /\ exists p, fr_Payload f = Some p /\ json_Valid p = true /\ rejectDuplicateKeys (json_tokens p) = Ok tt).
Proof.
  unfold ReadFrame. destruct (ReadFull r 4) as [r1 [prefix|]] eqn:E1; [|done].
  apply ReadFull_ok in E1 as (B1 & L1 & _); [|lia]. case_decide as D1; [done|]. case_decide as D2; [done|].
  pose proof (be_get_range prefix).
  destruct (ReadFull r1 _) as [r2 [b|]] eqn:E2; [|done]. apply ReadFull_ok in E2 as (B2 & L2 & _); [|lia].
  unfold decode_body. destruct (utf8_Valid b) eqn:Hu; [|done]. cbn [negb].
  destruct (rejectDuplicateKeys (json_tokens b)) as [[]|] eqn:Hdup; [|done].
  destruct (json_decode b) as [g|] eqn:Hdec; [|done].
  destruct (Validate g) as [[]|] eqn:Hv; [|done]. intros Hq. injection Hq as <- <-.
  change MaxStructuredFrame with 65536 in D2. exists b. rewrite L2, (be_put_get_length 4) by lia.
  split; [by rewrite B1, B2|]. split; [lia|]. split; [done|]. split; [done|]. split; [done|].
  unfold Validate in Hv. case_decide as V1; [done|].
  case_decide as V2; [done|]. apply Decidable.not_or in V2 as [V2 V3]. apply Decidable.not_or in V3 as [V3 V4].
  apply dec_stable in V4. case_decide as V5; [done|]. case_decide as V6; [done|].
  split; [done|]. split; [done|]. split; [lia|]. intros Hreq. rewrite Hreq in Hv.
  destruct (payload_check (fr_Payload g)) as [[]|] eqn:Hp; [|done]. simpl in Hv.
  case_decide as V7; [done|]. case_decide as V8; [done|]. case_decide as V9; [done|].
  apply Decidable.not_or in V7 as [Vop Vpay].
  split; [|split; [|split; [lia|]]].
  - destruct (decide (slen (fr_OperationID g) < 8 \/ 128 < slen (fr_OperationID g))); [tauto|lia].
  - destruct (capabilityPattern (fr_Capability g)) eqn:?; [done|tauto].
  - destruct (fr_Payload g) as [p|]; [|done]. exists p. unfold payload_check in Hp.
    destruct (json_Valid p); [|done]. simpl in Hp.
    destruct (rejectDuplicateKeys (json_tokens p)) as [[]|]; done.
Qed.

(** *** Witnesses *)

(** A JSON library that knows one text. *)
Definition demo_hello : Frame := mkFrame "hello" "r1" "1.0" "" "" 0 (Some [x7b; x7d]).
Definition demo_json_text : JsonText := {|
  json_Valid := fun _ => true;
  json_tokens := fun _ => mkDecoder [TOpenObject; TCloseObject] JEOF;
  json_decode := fun b => if decide (b = [x7b; x7d]) then Some demo_hello else None;
  json_encode := fun _ => Some [x7b; x7d]
|}.

Lemma frame_read_checked_witness :
  @ReadFrame demo_json_text (mkReader [x00; x00; x00; x02; x7b; x7d; x09] EOF) = (mkReader [x09] EOF, Ok demo_hello)
  /\ fr_Type demo_hello ∈ allowedTypes.
Proof.
  assert (E : @ReadFrame demo_json_text (mkReader [x00; x00; x00; x02; x7b; x7d; x09] EOF)
              = (mkReader [x09] EOF, Ok demo_hello)) by (vm_compute; reflexivity).
  split; [exact E|].
  destruct (@frame_read_checked demo_json_text _ _ _ E) as (b & _ & _ & _ & _ & _ & H & _). exact H.
Defined.
