(* ===== verification/Negotiation.v ===== *)
(** * Capability negotiation ([internal/protocol/negotiation.go])

    Which capabilities a helper offers, and what a client's hello is answered with.
    Go iterates over a map in any order; the order is an argument ([order]), and the
    answer is shown not to depend on it. *)

From S2P Require Import Prelude Config Wire Binary Frame.

(** ** Versions *)

Definition digit (a : ascii) : option Z :=
  let n := Z.of_nat (nat_of_ascii a) in
  if decide (48 <= n <= 57) then Some (n - 48) else None.

Fixpoint digits (acc : Z) (l : list ascii) : option Z :=
  match l with
  | [] => Some acc
  | a :: rest => match digit a with Some d => digits (acc * 10 + d) rest | None => None end
  end.

(** [strconv.Atoi]: an optional sign and at least one digit, within 64 bits. *)
Definition Atoi (s : string) : option Z :=
  let l := String.list_ascii_of_string s in
  let '(negative, ds) := match l with
                         | "-"%char :: rest => (true, rest)
                         | "+"%char :: rest => (false, rest)
                         | _ => (false, l)
                         end in
  match ds with
  | [] => None
  | _ => match digits 0 ds with
         | None => None
         | Some n => let v := if (negative : bool) then - n else n in
                     if decide (- two63 <= v < two63) then Some v else None
         end
  end.

(** [strings.Cut(s, ".")] *)
Fixpoint cut_dot (l : list ascii) : option (list ascii * list ascii) :=
  match l with
  | [] => None
  | a :: rest => if decide (a = "."%char) then Some ([], rest)
                 else match cut_dot rest with Some (x, y) => Some (a :: x, y) | None => None end
  end.

Definition parseVersion (version : string) : Z * Z * bool :=
  match cut_dot (String.list_ascii_of_string version) with
  | None => (0, 0, false)
  | Some (majorText, minorText) =>
      if decide (majorText = [] \/ minorText = [] \/ "."%char ∈ minorText) then (0, 0, false)
      else
        match Atoi (String.string_of_list_ascii majorText), Atoi (String.string_of_list_ascii minorText) with
        | Some major, Some minor => (major, minor, bool_decide (0 <= major /\ 0 <= minor))
        | a, b => (default 0 a, default 0 b, false)
        end
  end.

(** ** Capabilities *)

Inductive capability_error := ErrInvalidCapabilities.

(** [None]: a nil provider. *)
Fixpoint add_capabilities (available : gset string) (l : list string) : option (gset string) :=
  match l with
  | [] => Some available
  | c :: rest =>
      if negb (capabilityPattern c) || bool_decide (c ∈ available) then None
      else add_capabilities ({[c]} ∪ available) rest
  end.

Fixpoint add_providers (available : gset string) (providers : list (option (list string)))
    : option (gset string) :=
  match providers with
  | [] => Some available
  | None :: _ => None
  | Some l :: rest =>
      match add_capabilities available l with
      | None => None
      | Some available => add_providers available rest
      end
  end.

Definition AvailableCapabilities (providers : list (option (list string)))
    : result capability_error (gset string) :=
  match add_providers ∅ providers with
  | None => Err ErrInvalidCapabilities
  | Some available =>
      if decide ("terminal.v1" ∉ available \/ "health.v1" ∉ available) then Err ErrInvalidCapabilities
      else Ok available
  end.

Definition requiredCapabilities : list string := ["terminal.v1"; "health.v1"].

Definition allowedCapabilities (p : Profile) : option (gset string) :=
  match p with
  | Hosted => Some {["terminal.v1"; "health.v1"; "preview.public.v1"; "config.apply.v1";
                     "hosted.lifecycle.v1"; "update.signed.v1"]}
  | BYOD => Some {["terminal.v1"; "health.v1"; "preview.public.v1"; "config.apply.v1"; "update.signed.v1"]}
  | OtherProfile _ => None
  end.

Record Negotiator := mkNegotiator {
  ng_Profile : Profile;
  ng_Available : gset string;
  ng_ConfigApplyProof : bool
}.

Record Welcome := mkWelcome { wl_Version : string; wl_Capabilities : list string }.

(** The body of the selection loop: whether a capability is kept. *)
Definition kept (n : Negotiator) (allowed : gset string) (c : string) : Prop :=
  c ∈ allowed /\ c ∈ ng_Available n
  /\ ~ (c = "config.apply.v1" /\ ng_Profile n = BYOD /\ ng_ConfigApplyProof n = false).

#[global] Instance kept_dec n allowed c : Decision (kept n allowed c).
Proof. unfold kept. apply _. Defined.

(** [order] is the order in which the map of offered capabilities is visited. *)
Definition Negotiate (order : gset string -> list string) (n : Negotiator) (minVersion maxVersion : string)
    (offered : list string) : result perror Welcome :=
  let '(minMajor, minMinor, minOK) := parseVersion minVersion in
  let '(maxMajor, maxMinor, maxOK) := parseVersion maxVersion in
  if decide (minOK = false \/ maxOK = false \/ minMajor <> 1 \/ maxMajor <> 1 \/ 0 < minMinor
             \/ maxMinor < 0 \/ maxMinor < minMinor)
  then Err (PError ProtocolIncompatible)
  else match allowedCapabilities (ng_Profile n) with
  | None => Err (PError ProtocolIncompatible)
  | Some allowed =>
      let offeredSet : gset string := list_to_set offered in
      if decide (Exists (fun c => c ∉ offeredSet \/ c ∉ ng_Available n) requiredCapabilities)
      then Err (PError CapabilityRequired)
      else Ok (mkWelcome ProtocolVersion
                 (merge_sort string_le (filter (kept n allowed) (order offeredSet))))
  end.

(** ** Lemmas *)

Lemma add_capabilities_spec l : forall a,
  add_capabilities a l = if decide (NoDup l /\ Forall (fun c => capabilityPattern c = true /\ c ∉ a) l)
                         then Some (list_to_set l ∪ a) else None.
Proof.
  induction l as [|c l IH]; intros a; cbn [add_capabilities].
  - rewrite decide_True by (split; constructor). f_equal. set_solver.
  - destruct (capabilityPattern c) eqn:Hc; cbn [negb orb].
    2:{ rewrite decide_False; [done|]. rewrite Forall_cons. intros [_ [[? _] _]]. congruence. }
    case_bool_decide as Hin.
    { rewrite decide_False; [done|]. rewrite Forall_cons. tauto. }
    rewrite IH. destruct (decide (NoDup l /\ _)) as [[Hn Hf]|Hno].
    + rewrite Forall_forall in Hf. rewrite decide_True; [f_equal; set_solver|].
      rewrite NoDup_cons, Forall_cons, Forall_forall. set_solver.
    + rewrite decide_False; [done|]. rewrite NoDup_cons, Forall_cons. intros [[Hcl Hn] [_ Hf]]. apply Hno.
      split; [done|]. rewrite Forall_forall in *. set_solver.
Qed.

(** The versions a client may offer: 1.0 as the oldest, and any 1.x as the newest. *)
Definition compatible (minVersion maxVersion : string) : Prop :=
  parseVersion minVersion = (1, 0, true)
  /\ exists minor, parseVersion maxVersion = (1, minor, true).

Lemma parseVersion_nonneg v major minor : parseVersion v = (major, minor, true) -> 0 <= major /\ 0 <= minor.
Proof.
  unfold parseVersion. destruct (cut_dot _) as [[a b]|]; [|done]. case_decide as D; [done|].
  destruct (Atoi _), (Atoi _); try done. intros [= <- <- H]. by apply bool_decide_eq_true in H.
Qed.

(** ** Theorems *)

(** The capabilities a helper announces are those of its providers, each once: the
    collection succeeds exactly when every provider is present, no capability is
    malformed or provided twice, and the two required ones are there. *)
Theorem available_capabilities_exact (providers : list (list string)) :
  AvailableCapabilities (Some <$> providers)
  = let all := concat providers in
    if decide (NoDup all /\ Forall (fun c => capabilityPattern c = true) all
               /\ "terminal.v1" ∈ all /\ "health.v1" ∈ all)
    then Ok (list_to_set all) else Err ErrInvalidCapabilities.
Proof.
  unfold AvailableCapabilities. cbv zeta.
  assert (H : forall a, add_providers a (Some <$> providers) = add_capabilities a (concat providers)).
  { induction providers as [|l rest IH]; intros a; [done|]. simpl. clear -IH.
    revert a. induction l as [|c l IHl]; intros a; simpl; [apply IH|]. destruct (_ || _); [done|]. apply IHl. }
  rewrite H, add_capabilities_spec. set (all := concat providers).
  destruct (decide (NoDup all /\ Forall _ all)) as [[Hn Hf]|Hno]; cycle 1.
  { rewrite decide_False; [done|]. intros (Hn & Hf & _). apply Hno. split; [done|].
    eapply Forall_impl; [exact Hf|]. set_solver. }
  rewrite union_empty_r_L. destruct (decide (_ ∉ _ \/ _)) as [Hm|Hm].
  - rewrite decide_False; [done|]. rewrite !elem_of_list_to_set in Hm. tauto.
  - rewrite !elem_of_list_to_set in Hm. rewrite decide_True; [done|]. split_and!; [done| | |].
    + eapply Forall_impl; [exact Hf|]. by intros ? [? _].
    + apply dec_stable. tauto.
    + apply dec_stable. tauto.
Qed.

(** The answer to a hello: a client is welcomed exactly when it speaks version 1.0
    (its oldest version is 1.0, its newest some 1.x), the profile is known, and both the
    client and the helper have the required capabilities.  The welcome lists, sorted and
    without repetitions, precisely the offered capabilities that the profile allows and
    the helper has, config.apply.v1 on a user machine only with proof; it always contains
    the required ones, and does not depend on the order in which maps are visited. *)
Theorem negotiate_exact (order : gset string -> list string) (n : Negotiator) (minV maxV : string)
    (offered : list string) :
  (forall X, order X ≡ₚ elements X) ->
  (is_ok (Negotiate order n minV maxV offered) = true
   <-> compatible minV maxV /\ (ng_Profile n = Hosted \/ ng_Profile n = BYOD)
       /\ forall c, c ∈ requiredCapabilities -> c ∈ offered /\ c ∈ ng_Available n)
  /\ forall w, Negotiate order n minV maxV offered = Ok w ->
       wl_Version w = "1.0" /\ Sorted string_le (wl_Capabilities w) /\ NoDup (wl_Capabilities w)
       /\ (exists allowed, allowedCapabilities (ng_Profile n) = Some allowed
           /\ forall c, c ∈ wl_Capabilities w <-> c ∈ offered /\ kept n allowed c)
       /\ (forall c, c ∈ requiredCapabilities -> c ∈ wl_Capabilities w)
       /\ Negotiate elements n minV maxV offered = Ok w.
Proof.
  intros Hord. unfold Negotiate.
  destruct (parseVersion minV) as [[a b] ok1] eqn:E1, (parseVersion maxV) as [[a' b'] ok2] eqn:E2.
  assert (Hcomp : compatible minV maxV <->
    ~ (ok1 = false \/ ok2 = false \/ a <> 1 \/ a' <> 1 \/ 0 < b \/ b' < 0 \/ b' < b)).
  { unfold compatible. rewrite E1, E2. split.
    - intros [[= -> -> ->] [minor [= -> -> ->]]]. apply parseVersion_nonneg in E2. intuition (lia || congruence).
    - intros H. destruct ok1, ok2; try tauto. apply parseVersion_nonneg in E1.
      assert (a = 1 /\ a' = 1 /\ b = 0) as (-> & -> & ->) by lia. eauto. }
  destruct (decide (_ \/ _)) as [Hv|Hv]; [split; [simpl; intuition congruence|done]|].
  apply Hcomp in Hv. destruct (allowedCapabilities (ng_Profile n)) as [allowed|] eqn:Hp; cycle 1.
  { split; [|done]. simpl. split; [done|]. intros (_ & [Hq|Hq] & _); rewrite Hq in Hp; discriminate. }
  assert (Hprof : ng_Profile n = Hosted \/ ng_Profile n = BYOD) by (destruct (ng_Profile n); auto; done).
  destruct (decide (Exists _ _)) as [Hreq|Hreq].
  { split; [|done]. simpl. split; [done|]. intros (_ & _ & Hall). exfalso.
    apply Exists_exists in Hreq as (c & Hc & Hno). destruct (Hall _ Hc). rewrite elem_of_list_to_set in Hno. tauto. }
  assert (Hall : forall c, c ∈ requiredCapabilities -> c ∈ offered /\ c ∈ ng_Available n).
  { intros c Hc. split; apply dec_stable; intros Hno; apply Hreq, Exists_exists; exists c;
      (split; [done|]); rewrite elem_of_list_to_set; tauto. }
  split; [simpl; tauto|]. intros w [= <-]. simpl.
  set (sel := merge_sort string_le _).
  assert (Hperm : sel ≡ₚ filter (kept n allowed) (elements (list_to_set offered : gset string))).
  { unfold sel. rewrite merge_sort_Permutation. by rewrite Hord. }
  assert (Hmem : forall c, c ∈ sel <-> c ∈ offered /\ kept n allowed c).
  { intros c. rewrite Hperm, list_elem_of_filter, elem_of_elements, elem_of_list_to_set. tauto. }
  split_and!; [done|apply Sorted_merge_sort, _| |eauto| |].
  - rewrite Hperm. apply NoDup_filter, NoDup_elements.
  - intros c Hc. apply Hmem. destruct (Hall c Hc). split; [done|]. split_and!; [|done|].
    + destruct Hprof as [Hq|Hq]; rewrite Hq in Hp; injection Hp as <-; set_solver.
    + intros (-> & _). set_solver.
  - do 2 f_equal. apply (Sorted_unique string_le).
    + apply Sorted_merge_sort, _.
    + apply Sorted_merge_sort, _.
    + rewrite merge_sort_Permutation. by rewrite Hperm.
Qed.

(** *** Witnesses *)

Lemma negotiate_exact_witness :
  is_ok (Negotiate elements (mkNegotiator BYOD {["terminal.v1"; "health.v1"; "config.apply.v1"]} false) "1.0" "1.4"
           ["health.v1"; "terminal.v1"; "config.apply.v1"; "health.v1"]) = true.
Proof.
  apply (proj1 (negotiate_exact elements (mkNegotiator BYOD {["terminal.v1"; "health.v1"; "config.apply.v1"]} false)
    "1.0" "1.4" ["health.v1"; "terminal.v1"; "config.apply.v1"; "health.v1"] (fun X => reflexivity _))).
  split_and!; [split; [reflexivity|exists 4; reflexivity]|by right|].
  intros c Hc. unfold requiredCapabilities in Hc. simpl. set_solver.
Defined.
