(* ===== verification/StoreOperations.v ===== *)
(** * The table of operations ([internal/store/store.go], [operation_results])

    Reservations and results of idempotent operations.  Each SQL statement commits on its
    own; [f], [f2], ... are the faults of the statements of one call, in order. *)

From S2P Require Import Prelude Buffers History Store.

Definition set_operations (db : DB) (t : gmap string OperationResult) : DB :=
  mkDB (db_sessions db) (db_output db) (db_inputs db) t (db_transfers db).

(** [operation]: one row; a missing one is [sql.ErrNoRows]. *)
Definition operation (db : DB) (operationID : string) : result store_error OperationResult :=
  match db_operations db !! operationID with Some o => Ok o | None => Err ErrNoRows end.

Definition pending_row (operationID : string) (requestHash : list byte) (expiresAt : time) : OperationResult :=
  mkOperation operationID requestHash "pending" [] "" None expiresAt.

Definition ReserveOperation (f f2 : fault) (db : DB) (operationID : string) (requestHash : list byte)
    (expiresAt : time) : DB * result store_error (OperationResult * bool) :=
  let statement :=
    match db_operations db !! operationID with
    | None => (set_operations db (<[operationID := pending_row operationID requestHash expiresAt]> (db_operations db)), true)
    | Some _ => (db, false)
    end in
  match commit f db (Ok statement) with
  | (db1, Err e) => (db1, Err e)
  | (db1, Ok true) => (db1, Ok (pending_row operationID requestHash expiresAt, true))
  | (db1, Ok false) =>
      (db1,
       let? existing := reading f2 (operation db1 operationID) in
       if decide (or_RequestHash existing <> requestHash) then Err ErrConflict else Ok (existing, false))
  end.

Definition CompleteOperation (f f2 : fault) (db : DB) (o : OperationResult) : DB * result store_error unit :=
  if decide (MaxOperationResultBytes < len (or_Result o)) then (db, Err ErrResultTooLarge)
  else
    let statement :=
      match db_operations db !! or_OperationID o with
      | Some row =>
          if decide (or_RequestHash row = or_RequestHash o /\ or_State row = "pending")
          then (set_operations db (<[or_OperationID o :=
                  mkOperation (or_OperationID o) (or_RequestHash row) "completed" (or_Result o) (or_ErrorCode o)
                    (or_CompletedAt o) (or_ExpiresAt o)]> (db_operations db)), true)
          else (db, false)
      | None => (db, false)
      end in
    match commit f db (Ok statement) with
    | (db1, Err e) => (db1, Err e)
    | (db1, Ok true) => (db1, Ok tt)
    | (db1, Ok false) =>
        (db1,
         let? existing := reading f2 (operation db1 (or_OperationID o)) in
         if decide (or_RequestHash existing <> or_RequestHash o) then Err ErrConflict
         else if decide (or_State existing = "completed" /\ or_Result existing = or_Result o
                         /\ or_ErrorCode existing = or_ErrorCode o)
         then Ok tt else Err ErrConflict)
    end.

Definition PutOperation (f1 f2 f3 f4 : fault) (db : DB) (o : OperationResult) : DB * result store_error unit :=
  match ReserveOperation f1 f2 db (or_OperationID o) (or_RequestHash o) (or_ExpiresAt o) with
  | (db1, Err e) => (db1, Err e)
  | (db1, Ok _) => CompleteOperation f3 f4 db1 o
  end.

Definition unexpired (now : time) (t : gmap string OperationResult) : gmap string OperationResult :=
  filter (fun kr => now < or_ExpiresAt kr.2) t.

Definition DeleteExpiredOperations (f : fault) (db : DB) (now : time) : DB * result store_error unit :=
  commit f db (Ok (set_operations db (unexpired now (db_operations db)), tt)).

(** The results written before the limit existed: the row becomes a reservation. *)
Definition shrink (o : OperationResult) : OperationResult :=
  if decide (MaxOperationResultBytes < len (or_Result o))
  then mkOperation (or_OperationID o) (or_RequestHash o) "pending" [] "" None (or_ExpiresAt o)
  else o.

(** [ORDER BY CASE state WHEN 'pending' THEN 0 ELSE 1 END,completed_at ASC]; rows that
    compare equal come in any order. *)
Definition op_rank (o : OperationResult) : Z := if decide (or_State o = "pending") then 0 else 1.
Definition op_le (x y : OperationResult) : Prop :=
  op_rank x < op_rank y
  \/ op_rank x = op_rank y
     /\ match or_CompletedAt x, or_CompletedAt y with
        | None, _ => True
        | Some _, None => False
        | Some a, Some b => a <= b
        end.

#[global] Instance op_le_dec x y : Decision (op_le x y).
Proof. unfold op_le. destruct (or_CompletedAt x), (or_CompletedAt y); apply _. Defined.

Definition Operations (f1 f2 f3 : fault) (db : DB) (now : time) (limit : Z)
    : DB * result store_error (list OperationResult) :=
  if decide (limit < 1) then (db, Err ErrConflict)
  else
    match DeleteExpiredOperations f1 db now with
    | (db1, Err e) => (db1, Err e)
    | (db1, Ok _) =>
        match commit f2 db1 (Ok (set_operations db1 (shrink <$> db_operations db1), tt)) with
        | (db2, Err e) => (db2, Err e)
        | (db2, Ok _) =>
            (db2, reading f3 (Ok (take (Z.to_nat limit)
                     (merge_sort op_le ((map_to_list (db_operations db2)).*2)))))
        end
    end.

(** ** Invariant of the table *)

(** A row is stored under its identifier and is pending or completed. *)
Definition row_ok (id : string) (o : OperationResult) : Prop :=
  or_OperationID o = id /\ (or_State o = "pending" \/ or_State o = "completed").

Definition ops_ok (db : DB) : Prop := forall id o, db_operations db !! id = Some o -> row_ok id o.

(** ** Lemmas *)

Lemma commit_Ok_inv {A} f db (x : DB * A) db' r :
  commit f db (Ok x) = (db', r) -> (db' = db \/ db' = x.1) /\ (forall a, r = Ok a -> db' = x.1 /\ a = x.2).
Proof. destruct x as [d a]. destruct f; intros [= <- <-]; simpl; (split; [auto|]); intros ? [= <-]; done. Qed.

Lemma ReserveOperation_spec f f2 db id hash e db' r :
  ReserveOperation f f2 db id hash e = (db', r) ->
  (db' = db \/ db_operations db !! id = None
               /\ db' = set_operations db (<[id := pending_row id hash e]> (db_operations db)))
  /\ (forall o, r = Ok (o, true) -> db_operations db !! id = None /\ o = pending_row id hash e
        /\ db' = set_operations db (<[id := pending_row id hash e]> (db_operations db)))
  /\ (forall o, r = Ok (o, false) -> db' = db /\ db_operations db !! id = Some o /\ or_RequestHash o = hash)
  /\ (r = Err ErrConflict -> exists o, db' = db /\ db_operations db !! id = Some o /\ or_RequestHash o <> hash).
Proof.
  unfold ReserveOperation. destruct (db_operations db !! id) as [o0|] eqn:Hid.
  - destruct (commit f db (Ok (db, false))) as [db1 [[]|e1]] eqn:Ec.
    + apply commit_Ok_inv in Ec as [_ H]. by destruct (H _ eq_refl).
    + apply commit_Ok_inv in Ec as [_ H]. destruct (H _ eq_refl) as [-> _]. simpl. intros [= <- <-].
      unfold reading, operation. rewrite Hid. destruct (decide (f2 = FBeforeCommit)).
      { split_and!; [by left|done..]. }
      destruct (decide (or_RequestHash o0 <> hash)) as [Hne|Heq].
      { split_and!; [by left|done|done|]. eauto. }
      apply dec_stable in Heq. split_and!; [by left|done| |done]. intros o [= <-]. done.
    + intros [= <- <-]. destruct f; simplify_eq/=; (split_and!; [by left|done|done|]); done.
  - destruct (commit f db _) as [db1 [[]|e1]] eqn:Ec.
    + apply commit_Ok_inv in Ec as [_ H]. destruct (H _ eq_refl) as [-> _]. simpl. intros [= <- <-].
      split_and!; [right; done| |done|done]. intros o [= <-]. done.
    + apply commit_Ok_inv in Ec as [_ H]. by destruct (H _ eq_refl).
    + intros [= <- <-]. destruct f; simplify_eq/=; (split_and!; [|done|done|done]); [by left|by right].
Qed.

Lemma CompleteOperation_spec f f2 db o db' r :
  CompleteOperation f f2 db o = (db', r) ->
  (db' = db \/ exists row, db_operations db !! or_OperationID o = Some row
     /\ or_RequestHash row = or_RequestHash o /\ or_State row = "pending"
     /\ len (or_Result o) <= MaxOperationResultBytes
     /\ db' = set_operations db (<[or_OperationID o :=
          mkOperation (or_OperationID o) (or_RequestHash row) "completed" (or_Result o) (or_ErrorCode o)
            (or_CompletedAt o) (or_ExpiresAt o)]> (db_operations db)))
  /\ (r = Ok tt -> exists row, db_operations db' !! or_OperationID o = Some row /\ or_State row = "completed"
        /\ or_RequestHash row = or_RequestHash o /\ or_Result row = or_Result o /\ or_ErrorCode row = or_ErrorCode o).
Proof.
  unfold CompleteOperation. case_decide as Hbig; [intros [= <- <-]; split; [by left|done]|].
  assert (Hidle : forall db1 r1, commit f db (Ok (db, false)) = (db1, r1) ->
    match r1 with
    | Err e => (db1, Err e)
    | Ok true => (db1, Ok tt)
    | Ok false => (db1, let? existing := reading f2 (operation db1 (or_OperationID o)) in
         if decide (or_RequestHash existing <> or_RequestHash o) then Err ErrConflict
         else if decide (or_State existing = "completed" /\ or_Result existing = or_Result o
                         /\ or_ErrorCode existing = or_ErrorCode o) then Ok tt else Err ErrConflict)
    end = (db', r) -> db' = db /\ (r = Ok tt -> exists row, db_operations db !! or_OperationID o = Some row
        /\ or_State row = "completed" /\ or_RequestHash row = or_RequestHash o
        /\ or_Result row = or_Result o /\ or_ErrorCode row = or_ErrorCode o)).
  { intros db1 r1 Hc. assert (db1 = db) as -> by (destruct f; simplify_eq/=; done).
    destruct r1 as [[]|]; [destruct f; done| |intros [= <- <-]; done].
    intros [= <- <-]. split; [done|]. unfold reading, operation. case_decide; [done|].
    destruct (db_operations db !! or_OperationID o) as [row|] eqn:Hrow; [|done].
    case_decide as Hh; [done|]. case_decide as Hs; [|done]. intros _. exists row. tauto. }
  destruct (db_operations db !! or_OperationID o) as [row|] eqn:Hrow.
  2:{ destruct (commit f db (Ok (db, false))) as [db1 r1] eqn:Ec. intros H.
      destruct (Hidle _ _ eq_refl H) as [-> Hok]. split; [by left|]. by rewrite Hrow. }
  destruct (decide (or_RequestHash row = or_RequestHash o /\ or_State row = "pending")) as [[Hh Hp]|Hno].
  2:{ destruct (commit f db (Ok (db, false))) as [db1 r1] eqn:Ec. intros H.
      destruct (Hidle _ _ eq_refl H) as [-> Hok]. split; [by left|]. by rewrite Hrow. }
  set (db2 := set_operations db _). destruct (commit f db (Ok (db2, true))) as [db1 [[]|e1]] eqn:Ec.
  - apply commit_Ok_inv in Ec as [_ H]. destruct (H _ eq_refl) as [-> _]. simpl. intros [= <- <-].
    split; [right; exists row; split_and!; (done || lia)|]. intros _. eexists. unfold db2. simpl.
    rewrite lookup_insert_eq. done.
  - apply commit_Ok_inv in Ec as [_ H]. by destruct (H _ eq_refl).
  - intros [= <- <-]. split; [|done]. apply commit_Ok_inv in Ec as [[->| ->] _]; [by left|].
    right. exists row. split_and!; (done || lia).
Qed.

Lemma DeleteExpired_spec f db now db' r :
  DeleteExpiredOperations f db now = (db', r) ->
  db' = db \/ db' = set_operations db (unexpired now (db_operations db)).
Proof. unfold DeleteExpiredOperations. intros H. by apply commit_Ok_inv in H as [? _]. Qed.

Lemma Operations_spec f1 f2 f3 db now limit db' r :
  Operations f1 f2 f3 db now limit = (db', r) ->
  (db' = db \/ db' = set_operations db (unexpired now (db_operations db))
   \/ db' = set_operations db (shrink <$> unexpired now (db_operations db)))
  /\ (forall l, r = Ok l -> db' = set_operations db (shrink <$> unexpired now (db_operations db))
        /\ len l <= limit /\ forall o, o ∈ l -> exists id, db_operations db' !! id = Some o).
Proof.
  unfold Operations. case_decide as Hl; [intros [= <- <-]; split; [by left|done]|].
  destruct (DeleteExpiredOperations f1 db now) as [db1 [[]|e]] eqn:E1; cycle 1.
  { intros [= <- <-]. split; [|done]. apply DeleteExpired_spec in E1 as [->| ->]; auto. }
  apply commit_Ok_inv in E1 as [_ H1]. destruct (H1 _ eq_refl) as [-> _]. simpl.
  destruct (commit f2 _ _) as [db2 [[]|e]] eqn:E2; cycle 1.
  { intros [= <- <-]. split; [|done]. apply commit_Ok_inv in E2 as [[->| ->] _]; auto. }
  apply commit_Ok_inv in E2 as [_ H2]. destruct (H2 _ eq_refl) as [-> _]. simpl. intros [= <- <-].
  split; [auto|]. intros l. unfold reading. case_decide; [done|]. intros [= <-]. split_and!; [done| |].
  - rewrite length_take. lia.
  - intros o Ho. apply elem_of_take in Ho as (i & Hi & _). apply list_elem_of_lookup_2 in Hi as Ho. rewrite merge_sort_Permutation in Ho.
    apply list_elem_of_fmap in Ho as ([id o'] & -> & Hin%elem_of_map_to_list). eauto.
Qed.
