(* ===== verification/Journal.v ===== *)
(** * Idempotent operations ([internal/operation/journal.go])

    A client names every mutation with an operation identifier.  The journal runs it once
    and answers retries from the recorded outcome, from memory or from the store.  The
    operation itself runs outside the journal's lock, so [Execute] is two steps:
    [Execute_begin] up to the call of [run] and [Execute_finish] after it; what other
    calls, restarts and database faults do in between is part of [journal_step]. *)

From S2P Require Import Prelude Config Buffers History Input Store StoreOperations Frame.

(** ** Canonical requests *)

Fixpoint snoc_e (l : json_list) (v : json) : json_list :=
  match l with ENil => ECons v ENil | ECons x l => ECons x (snoc_e l v) end.
Fixpoint snoc_m (m : json_members) (key : string) (v : json) : json_members :=
  match m with MNil => MCons key v MNil | MCons k x m => MCons k x (snoc_m m key v) end.

Inductive decode_error := DToken (e : json_error) | DDuplicate | DKey | DUnterminated | DDelimiter.

(** Where [decodeValue] is: at a value, in an object or in an array, with what it has
    collected; the object is a Go map, kept here in insertion order. *)
Inductive collecting := DValue | DObject (m : json_members) | DArray (l : json_list).

Fixpoint decodeValue (fuel : nat) (c : collecting) (d : decoder) : option (decoder * result decode_error json) :=
  match fuel with
  | O => None
  | S fuel =>
      match c with
      | DValue =>
          match Token d with
          | (d1, Err e) => Some (d1, Err (DToken e))
          | (d1, Ok TOpenObject) => decodeValue fuel (DObject MNil) d1
          | (d1, Ok TOpenArray) => decodeValue fuel (DArray ENil) d1
          | (d1, Ok (TCloseObject | TCloseArray)) => Some (d1, Err DDelimiter)
          | (d1, Ok (TString s)) => Some (d1, Ok (JStr s))
          | (d1, Ok (TScalar t)) => Some (d1, Ok (JScalar t))
          end
      | DObject m =>
          if More d then
            match Token d with
            | (d1, Err e) => Some (d1, Err (DToken e))
            | (d1, Ok (TString key)) =>
                if decide (key ∈ keys m) then Some (d1, Err DDuplicate)
                else match decodeValue fuel DValue d1 with
                     | Some (d2, Ok v) => decodeValue fuel (DObject (snoc_m m key v)) d2
                     | other => other
                     end
            | (d1, Ok _) => Some (d1, Err DKey)
            end
          else match Token d with
               | (d1, Ok TCloseObject) => Some (d1, Ok (JObj m))
               | (d1, _) => Some (d1, Err DUnterminated)
               end
      | DArray l =>
          if More d then
            match decodeValue fuel DValue d with
            | Some (d1, Ok v) => decodeValue fuel (DArray (snoc_e l v)) d1
            | other => other
            end
          else match Token d with
               | (d1, Ok TCloseArray) => Some (d1, Ok (JArr l))
               | (d1, _) => Some (d1, Err DUnterminated)
               end
      end
  end.

(** What [json.Marshal] writes for the decoded value: the members of a map in the order
    of their keys, and [null] for a nil slice, which is what an empty array decodes to. *)
Fixpoint insert_member (key : string) (v : json) (m : json_members) : json_members :=
  match m with
  | MNil => MCons key v MNil
  | MCons k x rest =>
      if string_leb key k then MCons key v m else MCons k x (insert_member key v rest)
  end.

Fixpoint canonical (v : json) : json :=
  match v with
  | JScalar t => JScalar t
  | JStr s => JStr s
  | JArr ENil => JScalar "null"
  | JArr l => JArr (canonical_e l)
  | JObj m => JObj (canonical_m m)
  end
with canonical_e (l : json_list) : json_list :=
  match l with ENil => ENil | ECons v l => ECons (canonical v) (canonical_e l) end
with canonical_m (m : json_members) : json_members :=
  match m with MNil => MNil | MCons k v m => insert_member k (canonical v) (canonical_m m) end.

(** The JSON library: the tokens of a text, and the text of a value. *)
Class JsonValues := {
  value_tokens : list byte -> decoder;
  value_text : json -> list byte
}.

(** ** The journal *)

Record Outcome := mkOutcomeResult { oc_Result : list byte; oc_ErrorCode : string }.

#[global] Instance Outcome_eq_dec : EqDecision Outcome.
Proof. solve_decision. Defined.

Definition no_outcome : Outcome := mkOutcomeResult [] "".

Inductive journal_error :=
| ErrInvalidOperationID | ErrInvalidRequest | ErrOperationConflict | ErrJournalFull
| ErrOperationUncertain (cause : option store_error)
| JStore (e : store_error).

(** [en_complete] also stands for the closed channel [done]. *)
Record entry := mkEntry {
  en_hash : digest;
  en_outcome : Outcome;
  en_complete : bool;
  en_err : option journal_error
}.

Record Journal := mkJournal {
  jn_max : Z;
  jn_entries : gmap string entry;
  jn_order : list string;
  jn_store : bool;
  jn_retention : Z;
  jn_lastCleanup : time
}.

Definition cleanupInterval : Z := minute.

Definition NewJournal (maxEntries : Z) : result journal_error Journal :=
  if decide (maxEntries < 1) then Err ErrJournalFull else Ok (mkJournal maxEntries ∅ [] false 0 zero_time).

(** The loop over the stored records. *)
Fixpoint load (entries : gmap string entry) (order : list string) (records : list OperationResult)
    : result journal_error (gmap string entry * list string) :=
  match records with
  | [] => Ok (entries, order)
  | r :: rest =>
      if decide (len (or_RequestHash r) <> sha256_Size) then Err ErrInvalidRequest
      else if decide (or_State r = "pending") then
        load (<[or_OperationID r := mkEntry (or_RequestHash r) no_outcome true (Some (ErrOperationUncertain None))]>
                entries) order rest
      else if decide (or_State r = "completed") then
        load (<[or_OperationID r := mkEntry (or_RequestHash r)
                  (mkOutcomeResult (or_Result r) (or_ErrorCode r)) true None]> entries)
          (order ++ [or_OperationID r]) rest
      else Err ErrInvalidRequest
  end.

Definition NewPersistentJournal (f1 f2 f3 : fault) (now : time) (maxEntries retention : Z) (db : DB)
    : DB * result journal_error Journal :=
  if decide (retention <= 0) then (db, Err ErrJournalFull)
  else match NewJournal maxEntries with
  | Err e => (db, Err e)
  | Ok j =>
      match Operations f1 f2 f3 db now maxEntries with
      | (db1, Err e) => (db1, Err (JStore e))
      | (db1, Ok records) =>
          (db1, let? loaded := load ∅ [] records in
                Ok (mkJournal (jn_max j) loaded.1 loaded.2 true retention now))
      end
  end.

(** The loop that makes room: the oldest completed operations leave. *)
Fixpoint evict (max : Z) (entries : gmap string entry) (order : list string)
    : gmap string entry * list string :=
  match order with
  | [] => (entries, [])
  | oldest :: rest =>
      if decide (max <= Z.of_nat (size entries)) then evict max (delete oldest entries) rest
      else (entries, order)
  end.

(** What the first part of [Execute] comes to. *)
Inductive begun :=
| Returns (o : Outcome) (replayed : bool) (err : option journal_error)
| Waits                     (* for the run of the same operation *)
| Runs (hash : digest).

Record begin_faults := mkBeginFaults { bg_cleanup : fault; bg_reserve : fault; bg_read : fault }.

Section Journal.
Context (sha256 : list byte -> digest) `{JV : JsonValues}.

Definition CanonicalHash (request : list byte) : result journal_error digest :=
  let d := value_tokens request in
  match decodeValue (S (S (2 * length (dc_tokens d)))) DValue d with
  | Some (d1, Ok v) =>
      match Token d1 with
      | (_, Err (JToken JEOF)) => Ok (sha256 (value_text (canonical v)))
      | _ => Err ErrInvalidRequest
      end
  | _ => Err ErrInvalidRequest
  end.

(** The store's part: cleaning up and reserving; [None] when the operation may run. *)
Definition reserve (f : begin_faults) (now1 now2 : time) (j : Journal) (db : DB) (operationID : string)
    (hash : digest) : Journal * DB * option begun :=
  let '(j1, db1, failed) :=
    if decide (jn_lastCleanup j + cleanupInterval <= now1) then
      match DeleteExpiredOperations (bg_cleanup f) db now1 with
      | (db1, Err e) => (j, db1, Some e)
      | (db1, Ok _) => (mkJournal (jn_max j) (jn_entries j) (jn_order j) (jn_store j) (jn_retention j) now1, db1, None)
      end
    else (j, db, None) in
  match failed with
  | Some e => (j1, db1, Some (Returns no_outcome false (Some (JStore e))))
  | None =>
      match ReserveOperation (bg_reserve f) (bg_read f) db1 operationID hash (now2 + jn_retention j) with
      | (db2, Err ErrConflict) => (j1, db2, Some (Returns no_outcome false (Some ErrOperationConflict)))
      | (db2, Err e) => (j1, db2, Some (Returns no_outcome false (Some (JStore e))))
      | (db2, Ok (record, false)) =>
          (j1, db2, Some (if decide (or_State record = "pending")
                          then Returns no_outcome true (Some (ErrOperationUncertain None))
                          else Returns (mkOutcomeResult (or_Result record) (or_ErrorCode record)) true None))
      | (db2, Ok (_, true)) => (j1, db2, None)
      end
  end.

Definition Execute_begin (f : begin_faults) (now1 now2 : time) (j : Journal) (db : DB)
    (operationID : string) (request : list byte) : Journal * DB * begun :=
  if decide (slen operationID < 8 \/ 128 < slen operationID)
  then (j, db, Returns no_outcome false (Some ErrInvalidOperationID))
  else match CanonicalHash request with
  | Err e => (j, db, Returns no_outcome false (Some e))
  | Ok hash =>
      match jn_entries j !! operationID with
      | Some existing =>
          if decide (en_hash existing <> hash)
          then (j, db, Returns no_outcome false (Some ErrOperationConflict))
          else if en_complete existing
          then (j, db, Returns (en_outcome existing) true (en_err existing))
          else (j, db, Waits)
      | None =>
          let '(entries, order) := evict (jn_max j) (jn_entries j) (jn_order j) in
          let j1 := mkJournal (jn_max j) entries order (jn_store j) (jn_retention j) (jn_lastCleanup j) in
          if decide (jn_max j <= Z.of_nat (size entries))
          then (j1, db, Returns no_outcome false (Some ErrJournalFull))
          else
            let '(j2, db2, early) :=
              if jn_store j then reserve f now1 now2 j1 db operationID hash else (j1, db, None) in
            match early with
            | Some b => (j2, db2, b)
            | None =>
                (mkJournal (jn_max j2) (<[operationID := mkEntry hash no_outcome false None]> (jn_entries j2))
                   (jn_order j2) (jn_store j2) (jn_retention j2) (jn_lastCleanup j2), db2, Runs hash)
            end
      end
  end.

(** [current] is the entry that [Execute_begin] put into the map. *)
Definition Execute_finish (f f2 : fault) (now : time) (j : Journal) (db : DB) (operationID : string)
    (hash : digest) (outcome : Outcome) : Journal * DB * (Outcome * bool * option journal_error) :=
  let '(db1, persistenceErr) :=
    if jn_store j then
      if decide (MaxOperationResultBytes < len (oc_Result outcome)) then (db, Some ErrResultTooLarge)
      else match CompleteOperation f f2 db
                   (mkOperation operationID hash "completed" (oc_Result outcome) (oc_ErrorCode outcome)
                      (Some now) (now + jn_retention j)) with
           | (db1, Ok _) => (db1, None)
           | (db1, Err e) => (db1, Some e)
           end
    else (db, None) in
  let err := (fun e => ErrOperationUncertain (Some e)) <$> persistenceErr in
  let entries := alter (fun _ => mkEntry hash outcome true err) operationID (jn_entries j) in
  let order := match err with Some _ => jn_order j | None => jn_order j ++ [operationID] end in
  (mkJournal (jn_max j) entries order (jn_store j) (jn_retention j) (jn_lastCleanup j), db1,
   (outcome, false, err)).

(** ** Runs over time

    [jw_runs] are the operations that were run, with the time of their reservation, and
    [jw_running] those whose run has not returned. *)
Record jworld := mkJWorld {
  jw_journal : Journal;
  jw_db : DB;
  jw_clock : time;
  jw_runs : list (string * time);
  jw_running : gmap string digest
}.

Inductive journal_step : jworld -> jworld -> Prop :=
| js_begin f now1 now2 w id request j db b :
    jw_clock w <= now1 <= now2 ->
    Execute_begin f now1 now2 (jw_journal w) (jw_db w) id request = (j, db, b) ->
    journal_step w (mkJWorld j db now2
      (match b with Runs _ => jw_runs w ++ [(id, now2)] | _ => jw_runs w end)
      (match b with Runs h => <[id := h]> (jw_running w) | _ => jw_running w end))
| js_finish f f2 now w id h outcome j db r :
    jw_clock w <= now -> jw_running w !! id = Some h ->
    Execute_finish f f2 now (jw_journal w) (jw_db w) id h outcome = (j, db, r) ->
    journal_step w (mkJWorld j db now (jw_runs w) (delete id (jw_running w)))
| js_restart f1 f2 f3 now maxEntries w db j :
    jw_clock w <= now ->
    NewPersistentJournal f1 f2 f3 now maxEntries (jn_retention (jw_journal w)) (jw_db w) = (db, Ok j) ->
    journal_step w (mkJWorld j db now (jw_runs w) ∅)
| js_failed_restart f1 f2 f3 now maxEntries w db e :
    jw_clock w <= now ->
    NewPersistentJournal f1 f2 f3 now maxEntries (jn_retention (jw_journal w)) (jw_db w) = (db, Err e) ->
    journal_step w (mkJWorld (mkJournal (jn_max (jw_journal w)) ∅ [] true (jn_retention (jw_journal w)) now) db now
                      (jw_runs w) ∅).
End Journal.
