(* ===== verification/JournalTheorems.v ===== *)
(** * What the operation journal promises

    [jinv] holds in every world reachable from a journal built on a store: the journal is
    bounded, what it remembers agrees with the stored rows, and a run is remembered by a
    row until its retention has passed.  From it: an operation is run at most once per
    retention period, and a recorded outcome is the only answer to a retry. *)

From S2P Require Import Prelude Config Buffers History Input Store StoreOperations Frame Journal.

(** ** Invariant *)

Definition spaced (retention : Z) (x y : string * time) : Prop := x.1 = y.1 -> x.2 + retention <= y.2.

Definition outcome_of (row : OperationResult) : Outcome := mkOutcomeResult (or_Result row) (or_ErrorCode row).

(** A remembered outcome is the stored one; a run in progress has a reservation. *)
Definition agrees (e : entry) (row : OperationResult) : Prop :=
  (en_complete e = true -> en_err e = None ->
     or_State row = "completed" /\ or_RequestHash row = en_hash e /\ outcome_of row = en_outcome e)
  /\ (en_complete e = false -> or_State row = "pending" /\ or_RequestHash row = en_hash e).

Definition order_ok (entries : gmap string entry) (order : list string) : Prop :=
  NoDup order /\ forall id, id ∈ order -> exists e, entries !! id = Some e /\ en_complete e = true.

Record jinv (w : jworld) : Prop := {
  ji_store : jn_store (jw_journal w) = true;
  ji_retention : 0 < jn_retention (jw_journal w);
  ji_ops : ops_ok (jw_db w);
  ji_size : Z.of_nat (size (jn_entries (jw_journal w))) <= jn_max (jw_journal w);
  ji_order : order_ok (jn_entries (jw_journal w)) (jn_order (jw_journal w));
  ji_agrees : forall id e row, jn_entries (jw_journal w) !! id = Some e ->
    db_operations (jw_db w) !! id = Some row -> agrees e row;
  ji_running : forall id h, jw_running w !! id = Some h ->
    jn_entries (jw_journal w) !! id = Some (mkEntry h no_outcome false None);
  ji_runs : forall id t, (id, t) ∈ jw_runs w -> t <= jw_clock w
    /\ (t + jn_retention (jw_journal w) <= jw_clock w
        \/ exists row, db_operations (jw_db w) !! id = Some row
             /\ t + jn_retention (jw_journal w) <= or_ExpiresAt row);
  ji_spaced : StronglySorted (spaced (jn_retention (jw_journal w))) (jw_runs w)
}.

(** ** Rows that disappear *)

(** Rows stay or expire. *)
Definition fades (clock : time) (t t' : gmap string OperationResult) : Prop :=
  forall id, t' !! id = t !! id
    \/ t' !! id = None /\ exists row, t !! id = Some row /\ or_ExpiresAt row <= clock.

Lemma fades_refl clock t : fades clock t t.
Proof. intros id. by left. Qed.

Lemma fades_unexpired now t : fades now t (unexpired now t).
Proof.
  intros id. unfold unexpired. rewrite map_lookup_filter. destruct (t !! id) as [row|] eqn:E; [|by left].
  simpl. case_guard; simpl; [by left|]. right. split; [done|]. exists row. split; [done|]. lia.
Qed.

Lemma fades_some clock t t' id row : fades clock t t' -> t' !! id = Some row -> t !! id = Some row.
Proof. intros H E. destruct (H id) as [Hs|[Hs _]]; congruence. Qed.

Lemma fades_keeps clock t t' id row :
  fades clock t t' -> t !! id = Some row -> clock < or_ExpiresAt row -> t' !! id = Some row.
Proof.
  intros H E Hlt. destruct (H id) as [->|[_ (r & E' & Hle)]]; [done|]. rewrite E in E'. simplify_eq. lia.
Qed.

Lemma ops_ok_fades clock db db' :
  fades clock (db_operations db) (db_operations db') -> ops_ok db -> ops_ok db'.
Proof. intros Hf Hok id o Hid. by eapply Hok, fades_some. Qed.

(** The runs are still remembered when rows expire. *)
Definition remembered (retention clock : Z) (t : gmap string OperationResult) (runs : list (string * time)) : Prop :=
  forall id u, (id, u) ∈ runs -> u <= clock
    /\ (u + retention <= clock
        \/ exists row, t !! id = Some row /\ u + retention <= or_ExpiresAt row).

Lemma remembered_fades retention c c' t t' runs :
  c <= c' -> fades c' t t' -> remembered retention c t runs -> remembered retention c' t' runs.
Proof.
  intros Hc Hf H id u Hin. destruct (H id u Hin) as (Hu & [Hp|(row & Hrow & He)]); (split; [lia|]); [left; lia|].
  destruct (Hf id) as [Hsame|[_ (r & Hr & Hle)]]; [right; exists row; rewrite Hsame; done|].
  rewrite Hrow in Hr. simplify_eq. left. lia.
Qed.

(** A row that takes the place of another keeps the runs remembered if it lives longer. *)
Lemma remembered_insert retention c t runs id row :
  (forall u, (id, u) ∈ runs -> u + retention <= c \/ u + retention <= or_ExpiresAt row) ->
  remembered retention c t runs -> remembered retention c (<[id := row]> t) runs.
Proof.
  intros Hrow H k u Hin. destruct (H k u Hin) as (Hu & Hk). split; [done|].
  destruct (decide (k = id)) as [->|Hne].
  - destruct (Hrow u Hin) as [?|?]; [by left|right]. exists row. by rewrite lookup_insert_eq.
  - destruct Hk as [?|(r & Hr & ?)]; [by left|right]. exists r. by rewrite lookup_insert_ne.
Qed.

(** ** Making room *)

Lemma evict_spec max : forall order entries entries' order',
  evict max entries order = (entries', order') -> order_ok entries order ->
  order_ok entries' order' /\ (size entries' <= size entries)%nat
  /\ (forall id e, entries' !! id = Some e -> entries !! id = Some e)
  /\ (forall id e, entries !! id = Some e -> en_complete e = false -> entries' !! id = Some e).
Proof.
  induction order as [|oldest rest IH]; intros entries entries' order' E Hok; simpl in E.
  { simplify_eq. split_and!; (done || auto). }
  destruct (decide _); [|simplify_eq; split_and!; (done || auto)].
  destruct Hok as [Hnd Hall]. apply NoDup_cons in Hnd as [Hnin Hnd].
  apply IH in E as (Hok' & Hsz & Hsub & Hkeep).
  - split_and!; [done| | |].
    + pose proof (map_size_delete oldest entries) as Hd. destruct (entries !! oldest); simpl in Hd; lia.
    + intros id e He. apply Hsub, lookup_delete_Some in He as [_ He]. done.
    + intros id e He Hinc. apply Hkeep; [|done]. rewrite lookup_delete_ne; [done|].
      intros ->. destruct (Hall id) as (e' & He' & Hc'); [left|]. simplify_eq. congruence.
  - split; [done|]. intros id Hin. destruct (Hall id) as (e & He & Hc); [by right|].
    exists e. split; [|done]. rewrite lookup_delete_ne; [done|]. by intros ->.
Qed.

(** ** Loading the stored records *)

Lemma load_spec records : forall entries order entries' order',
  load entries order records = Ok (entries', order') ->
  NoDup (order ++ (or_OperationID <$> records)) ->
  (forall id, id ∈ order -> exists e, entries !! id = Some e /\ en_complete e = true) ->
  order_ok entries' order'
  /\ (size entries' <= size entries + length records)%nat
  /\ (forall id e, entries' !! id = Some e -> entries !! id = Some e
        \/ exists r, r ∈ records /\ or_OperationID r = id /\ agrees e r).
Proof.
  induction records as [|r records IH]; intros entries order entries' order' E Hnd Hall; simpl in E.
  { simplify_eq. simpl in Hnd. rewrite app_nil_r in Hnd. split_and!; [done|simpl; lia|auto]. }
  destruct (decide _); [done|].
  assert (Hsz : forall e0, (size (<[or_OperationID r := e0]> entries) <= S (size entries))%nat).
  { intros e0. rewrite map_size_insert. destruct (entries !! or_OperationID r); simpl; lia. }
  rewrite fmap_cons in Hnd. pose proof Hnd as Hnd0. apply NoDup_app in Hnd0 as (Hno & Hdis & Hnr).
  apply NoDup_cons in Hnr as [Hrn Hnr].
  assert (Hkeep : forall e0 id, id ∈ order -> exists e, <[or_OperationID r := e0]> entries !! id = Some e
                                                  /\ en_complete e = true).
  { intros e0 id Hid. destruct (Hall id Hid) as (e & He & Hc). exists e. split; [|done].
    rewrite lookup_insert_ne; [done|]. intros <-. apply (Hdis _ Hid). left. }
  destruct (decide (or_State r = "pending")) as [Hp|Hnp].
  - apply IH in E as (H1 & H2 & H3).
    + split; [done|]. split; [specialize (Hsz (mkEntry (or_RequestHash r) no_outcome true (Some (ErrOperationUncertain None)))); simpl; lia|].
      intros id e [He|(r' & Hin & Hid & Ha)]%H3; [|right; exists r'; set_solver].
      rewrite lookup_insert in He. case_decide; [|by left]. simplify_eq. right. exists r.
      split_and!; [left|done|]. by split.
    + apply NoDup_app. split_and!; [done| |done]. intros x Hx Hin. apply (Hdis _ Hx). by right.
    + apply Hkeep.
  - destruct (decide (or_State r = "completed")) as [Hc|]; [|done]. apply IH in E as (H1 & H2 & H3).
    + split; [done|]. split; [specialize (Hsz (mkEntry (or_RequestHash r) (mkOutcomeResult (or_Result r) (or_ErrorCode r)) true None)); simpl; lia|].
      intros id e [He|(r' & Hin & Hid & Ha)]%H3; [|right; exists r'; set_solver].
      rewrite lookup_insert in He. case_decide; [|by left]. simplify_eq. right. exists r.
      split_and!; [left|done|]. by split.
    + rewrite <- app_assoc. done.
    + intros id [Hid| ->%list_elem_of_singleton]%elem_of_app; [by apply Hkeep|].
      rewrite lookup_insert_eq. eauto.
Qed.

Lemma Operations_nodup f1 f2 f3 db now limit db' l :
  ops_ok db -> Operations f1 f2 f3 db now limit = (db', Ok l) -> NoDup (or_OperationID <$> l).
Proof.
  intros Hok E. unfold Operations in E. case_decide; [done|].
  destruct (DeleteExpiredOperations f1 db now) as [db1 [[]|e]] eqn:E1; [|done].
  destruct (commit f2 _ _) as [db2 [[]|e]] eqn:E2; [|done]. injection E as <- Hl.
  unfold reading in Hl. case_decide; [done|]. injection Hl as <-.
  apply commit_Ok_inv in E1 as [_ H1]. destruct (H1 _ eq_refl) as [-> _]. simpl in E2.
  apply commit_Ok_inv in E2 as [_ H2]. destruct (H2 _ eq_refl) as [-> _]. simpl.
  set (t := shrink <$> unexpired now (db_operations db)).
  assert (Hkey : or_OperationID <$> (map_to_list t).*2 = (map_to_list t).*1).
  { rewrite <- list_fmap_compose. apply list_fmap_ext. intros i [id o] Hi. simpl.
    apply list_elem_of_lookup_2, elem_of_map_to_list in Hi. unfold t in Hi.
    apply lookup_fmap_Some in Hi as (o0 & <- & Hi).
    apply fades_some with (1 := fades_unexpired now _) in Hi. destruct (Hok _ _ Hi) as [Ho _].
    unfold shrink. case_decide; done. }
  eapply (sublist_NoDup _ (or_OperationID <$> merge_sort op_le (map_to_list t).*2));
    [rewrite merge_sort_Permutation, Hkey; apply NoDup_fst_map_to_list|].
  apply fmap_sublist, sublist_take.
Qed.

(** ** Steps *)

Section Steps.
Context (sha256 : list byte -> digest) `{JV : JsonValues}.

(** The part of the journal that a reservation leaves alone. *)
Definition same_journal (j j' : Journal) : Prop :=
  jn_max j' = jn_max j /\ jn_entries j' = jn_entries j /\ jn_order j' = jn_order j
  /\ jn_store j' = jn_store j /\ jn_retention j' = jn_retention j.

(** The reservation of an operation in the store: rows may expire before it; then it adds
    a row where there was none, or finds one. *)
Lemma reserve_spec f now1 now2 j db id hash j' db' early :
  reserve f now1 now2 j db id hash = (j', db', early) ->
  same_journal j j' /\ exists t, fades now1 (db_operations db) t
    /\ (db_operations db' = t
        \/ t !! id = None /\ db_operations db' = <[id := pending_row id hash (now2 + jn_retention j)]> t)
    /\ match early with
       | None => t !! id = None
                 /\ db_operations db' = <[id := pending_row id hash (now2 + jn_retention j)]> t
       | Some (Returns o replayed None) =>
           replayed = true /\ exists row, t !! id = Some row /\ or_State row <> "pending"
             /\ or_RequestHash row = hash /\ o = outcome_of row
       | Some (Returns _ _ (Some _)) => True
       | Some _ => False
       end.
Proof.
  unfold reserve. intros E.
  destruct (if decide (jn_lastCleanup j + cleanupInterval <= now1) then _ else _)
    as [[j1 db1] failed] eqn:Hclean.
  assert (Hc : same_journal j j1 /\ fades now1 (db_operations db) (db_operations db1)).
  { destruct (decide _); [|simplify_eq; split; [done|apply fades_refl]].
    destruct (DeleteExpiredOperations _ _ _) as [d [[]|e]] eqn:Hd; apply DeleteExpired_spec in Hd as [->| ->];
      simplify_eq; (split; [done|]); simpl; (apply fades_refl || apply fades_unexpired). }
  clear Hclean. destruct Hc as [Hsame Hf]. destruct failed as [e|].
  { simplify_eq. split; [done|]. exists (db_operations db'). split_and!; [done|by left|done]. }
  destruct (ReserveOperation _ _ db1 id hash _) as [db2 r] eqn:Hr.
  apply ReserveOperation_spec in Hr as (H1 & H2 & H3 & _).
  assert (H1' : db_operations db2 = db_operations db1
    \/ db_operations db1 !! id = None
       /\ db_operations db2 = <[id := pending_row id hash (now2 + jn_retention j)]> (db_operations db1)).
  { destruct H1 as [->|[? ->]]; [by left|by right]. }
  destruct r as [[record []]|e].
  - simplify_eq. split; [done|]. exists (db_operations db1).
    destruct (H2 _ eq_refl) as (Hn & _ & ->). split_and!; (done || auto).
  - simplify_eq. split; [done|]. exists (db_operations db1). destruct (H3 _ eq_refl) as (-> & Hrow & Hh).
    split; [done|]. split; [auto|]. case_decide; [done|]. split; [done|]. exists record. done.
  - assert (early = Some (Returns no_outcome false (Some (match e with ErrConflict => ErrOperationConflict
              | _ => JStore e end))) /\ j' = j1 /\ db' = db2) as (-> & -> & ->)
      by (destruct e; simplify_eq; done).
    split; [done|]. exists (db_operations db1). split_and!; (done || auto).
Qed.

Lemma ops_ok_reserved db db' t id hash e clock :
  ops_ok db -> fades clock (db_operations db) t ->
  (db_operations db' = t \/ t !! id = None /\ db_operations db' = <[id := pending_row id hash e]> t) -> ops_ok db'.
Proof.
  intros Hok Hf [Ht|[_ Ht]] k o; rewrite Ht.
  - intros Hk. by eapply Hok, fades_some.
  - rewrite lookup_insert. case_decide as Hkk; [|intros Hk; by eapply Hok, fades_some].
    intros [= <-]. subst. split; [done|by left].
Qed.

Lemma begin_inv f now1 now2 w id request j db b :
  jinv w -> jw_clock w <= now1 <= now2 ->
  Execute_begin sha256 f now1 now2 (jw_journal w) (jw_db w) id request = (j, db, b) ->
  jinv (mkJWorld j db now2
      (match b with Runs _ => jw_runs w ++ [(id, now2)] | _ => jw_runs w end)
      (match b with Runs h => <[id := h]> (jw_running w) | _ => jw_running w end)).
Proof.
  intros [] Hclk E. unfold Execute_begin in E.
  assert (Hlater : jinv (mkJWorld (jw_journal w) (jw_db w) now2 (jw_runs w) (jw_running w))).
  { constructor; simpl; try done. intros k u Hin. destruct (ji_runs0 k u Hin) as (? & [?|?]); split; try lia; auto.
  }
  destruct (decide _); [by simplify_eq|]. destruct (CanonicalHash _ _) as [hash|]; [|by simplify_eq].
  destruct (jn_entries (jw_journal w) !! id) as [ex|] eqn:Hex.
  { destruct (decide _); [by simplify_eq|]. destruct (en_complete ex); by simplify_eq. }
  destruct (evict _ _ _) as [entries order] eqn:Hev.
  apply evict_spec in Hev as (Hord & Hsz & Hsub & Hkeep); [|done].
  set (j1 := mkJournal _ entries order _ _ _) in E.
  assert (Hrun1 : forall k h, jw_running w !! k = Some h -> entries !! k = Some (mkEntry h no_outcome false None)).
  { intros k h Hk. by apply Hkeep; [apply ji_running0|]. }
  destruct (decide _) as [Hfull|Hroom].
  { simplify_eq. constructor; simpl; try done; [lia| |by apply Hlater].
    intros k e row Hk. by apply ji_agrees0, Hsub. }
  rewrite ji_store0 in E.
  destruct (reserve f now1 now2 j1 (jw_db w) id hash) as [[j2 db2] early] eqn:Hres.
  apply reserve_spec in Hres as ((Hmx & Hen & Hor & Hst & Hre) & t & Hf & Hdb & Hearly).
  simpl in Hmx, Hen, Hor, Hst, Hre, Hdb, Hearly.
  assert (Hmem : remembered (jn_retention (jw_journal w)) now2 t (jw_runs w)).
  { apply remembered_fades with now1 t; [lia|apply fades_refl|].
    apply remembered_fades with (jw_clock w) (db_operations (jw_db w)); [lia|done|exact ji_runs0]. }
  assert (Hgone : t !! id = None -> forall u, (id, u) ∈ jw_runs w -> u + jn_retention (jw_journal w) <= now1).
  { intros Hn u Hin. apply (remembered_fades _ _ now1 _ t) in ji_runs0; [|lia|done].
    destruct (ji_runs0 id u Hin) as (_ & [?|(r & Hr & _)]); [done|congruence]. }
  assert (Hops : ops_ok db2) by by eapply ops_ok_reserved.
  assert (Hag : forall k e row, entries !! k = Some e -> db_operations db2 !! k = Some row -> agrees e row).
  { intros k e row Hk Hrow. destruct (decide (k = id)) as [->|Hne]; [apply Hsub in Hk; congruence|].
    assert (Ht : t !! k = Some row) by (destruct Hdb as [<-|[_ Hdb]]; [done|]; by rewrite Hdb, lookup_insert_ne in Hrow).
    eapply ji_agrees0; [by apply Hsub|by eapply fades_some]. }
  assert (Hmem2 : remembered (jn_retention (jw_journal w)) now2 (db_operations db2) (jw_runs w)).
  { destruct Hdb as [<-|[Hn ->]]; [done|]. apply remembered_insert; [|done]. intros u Hin. left.
    specialize (Hgone Hn u Hin). lia. }
  destruct early as [b'|].
  - assert (b = b' /\ j = j2 /\ db = db2) as (-> & -> & ->) by (by simplify_eq).
    assert (Hb : exists o rep er, b' = Returns o rep er) by (destruct b'; [eauto|done|done]).
    destruct Hb as (o & rep & er & ->).
    constructor; simpl; rewrite ?Hmx, ?Hen, ?Hor, ?Hst, ?Hre; try done. lia.
  - destruct Hearly as [Hn Hins]. injection E as <- <- <-.
    assert (Hid : entries !! id = None) by (destruct (entries !! id) eqn:He; [apply Hsub in He; congruence|done]).
    constructor; simpl; rewrite ?Hmx, ?Hen, ?Hor, ?Hst, ?Hre; try done.
    + rewrite map_size_insert_None by done. lia.
    + destruct Hord as [Hnd Hall]. split; [done|]. intros k Hk. destruct (Hall k Hk) as (e & He & Hc).
      exists e. split; [|done]. rewrite lookup_insert_ne; [done|]. intros <-. congruence.
    + intros k e row. rewrite lookup_insert. case_decide as Hk; [|apply Hag]. subst k. intros [= <-].
      rewrite Hins, lookup_insert_eq. intros [= <-]. split; done.
    + intros k h. rewrite !lookup_insert. case_decide; [by intros [= <-]|apply Hrun1].
    + intros k u. rewrite elem_of_app, list_elem_of_singleton. intros [Hin|[= -> ->]]; [by apply Hmem2|].
      split; [lia|]. right. exists (pending_row id hash (now2 + jn_retention (jw_journal w))).
      rewrite Hins, lookup_insert_eq. split; [done|]. simpl. lia.
    + apply StronglySorted_app. split_and!; [|done|repeat constructor].
      intros [k u] [k' u'] Hin Hin'. apply list_elem_of_singleton in Hin' as [= -> ->]. intros Hk. simpl in *. subst k.
      specialize (Hgone Hn u Hin). lia.
Qed.

Lemma finish_inv f f2 now w id h outcome j db r :
  jinv w -> jw_clock w <= now -> jw_running w !! id = Some h ->
  Execute_finish f f2 now (jw_journal w) (jw_db w) id h outcome = (j, db, r) ->
  jinv (mkJWorld j db now (jw_runs w) (delete id (jw_running w))).
Proof.
  intros [] Hclk Hrun E. unfold Execute_finish in E. rewrite ji_store0 in E.
  pose proof (ji_running0 _ _ Hrun) as Hid.
  destruct (if decide (MaxOperationResultBytes < _) then _ else _) as [db1 perr] eqn:Hp.
  injection E as <- <- <-.
  set (row' := mkOperation id h "completed" (oc_Result outcome) (oc_ErrorCode outcome) (Some now)
                 (now + jn_retention (jw_journal w))) in *.
  assert (Hdb : (db1 = jw_db w \/ exists row, db_operations (jw_db w) !! id = Some row /\ or_RequestHash row = h
                   /\ db1 = set_operations (jw_db w) (<[id := row']> (db_operations (jw_db w))))
    /\ (perr = None -> exists row, db_operations db1 !! id = Some row /\ or_State row = "completed"
          /\ or_RequestHash row = h /\ outcome_of row = outcome)).
  { destruct (decide _); [simplify_eq; split; [by left|done]|].
    destruct (CompleteOperation _ _ _ _) as [d [[]|e]] eqn:Hc; injection Hp as <- <-;
      apply CompleteOperation_spec in Hc as [H1 H2]; simpl in *.
    - split; [|intros _; destruct (H2 eq_refl) as (row & Hr & Hs & Hh & Hres & Hcode); exists row; split_and!; try done;
        unfold outcome_of; rewrite Hres, Hcode; by destruct outcome].
      destruct H1 as [?|(row & Hr & Hh & _ & _ & ->)]; [by left|right]. exists row. by rewrite Hh.
    - split; [|done]. destruct H1 as [?|(row & Hr & Hh & _ & _ & ->)]; [by left|right]. exists row. by rewrite Hh. }
  clear Hp. destruct Hdb as [Hdb Hok].
  set (err := (fun e => ErrOperationUncertain (Some e)) <$> perr).
  set (ent := mkEntry h outcome true err).
  assert (Halter : alter (fun _ : entry => ent) id (jn_entries (jw_journal w)) = <[id := ent]> (jn_entries (jw_journal w))).
  { apply map_eq. intros k. rewrite lookup_alter, lookup_insert. case_decide; [|done]. subst. by rewrite Hid. }
  assert (Hother : forall k, k <> id -> db_operations db1 !! k = db_operations (jw_db w) !! k).
  { intros k Hne. destruct Hdb as [->|(row & _ & _ & ->)]; [done|]. simpl. by rewrite lookup_insert_ne. }
  assert (Hnin : id ∉ jn_order (jw_journal w)).
  { intros Hin. destruct ji_order0 as [_ Hall]. destruct (Hall id Hin) as (e & He & Hc). by simplify_eq. }
  constructor; simpl; rewrite ?Halter; try done.
  - intros k o Hk. destruct (decide (k = id)) as [->|Hne]; [|rewrite Hother in Hk by done; by apply ji_ops0].
    destruct Hdb as [->|(row & _ & _ & ->)]; [by apply ji_ops0|]. simpl in Hk. rewrite lookup_insert_eq in Hk.
    injection Hk as <-. split; [done|by right].
  - rewrite map_size_insert_Some; [lia|]. eauto.
  - destruct ji_order0 as [Hnd Hall].
    assert (Hall' : forall k, k ∈ jn_order (jw_journal w) -> exists e, <[id:=ent]> (jn_entries (jw_journal w)) !! k = Some e /\ en_complete e = true).
    { intros k Hk. destruct (Hall k Hk) as (e & He & Hc). exists e. split; [|done].
      rewrite lookup_insert_ne; [done|]. by intros <-. }
    unfold err. destruct perr; simpl; [done|]. split.
    + apply NoDup_app. split_and!; [done|set_solver|apply NoDup_singleton].
    + intros k. rewrite elem_of_app, list_elem_of_singleton. intros [Hk| ->]; [auto|]. rewrite lookup_insert_eq. eauto.
  - intros k e row. rewrite lookup_insert. case_decide as Hk.
    + subst k. intros [= <-] Hrow. split; [|done]. simpl. intros _ Herr. unfold err in Herr.
      destruct perr; [done|]. destruct (Hok eq_refl) as (row0 & Hr0 & ? & ? & ?). simplify_eq. done.
    + rewrite Hother by done. apply ji_agrees0.
  - intros k h'. rewrite lookup_delete_Some. intros [Hne Hk]. rewrite lookup_insert_ne by done. by apply ji_running0.
  - assert (Hm : remembered (jn_retention (jw_journal w)) now (db_operations (jw_db w)) (jw_runs w)).
    { eapply remembered_fades; [exact Hclk|apply fades_refl|exact ji_runs0]. }
    destruct Hdb as [->|(row & _ & _ & ->)]; [exact Hm|]. apply remembered_insert; [|done].
    intros u Hin. right. destruct (ji_runs0 id u Hin) as [Hu _]. simpl. lia.
Qed.

Lemma shrink_fields o : or_OperationID (shrink o) = or_OperationID o /\ or_ExpiresAt (shrink o) = or_ExpiresAt o
  /\ (or_State (shrink o) = or_State o \/ or_State (shrink o) = "pending").
Proof. unfold shrink. case_decide; split_and!; auto. Qed.

(** A start of the journal only lets rows expire or shrink. *)
Lemma restart_db f1 f2 f3 now maxEntries retention db db' r :
  NewPersistentJournal f1 f2 f3 now maxEntries retention db = (db', r) ->
  exists t, fades now (db_operations db) t
    /\ (db_operations db' = t \/ db_operations db' = shrink <$> t).
Proof.
  unfold NewPersistentJournal. case_decide; [intros [= <- <-]; eexists; split; [apply fades_refl|by left]|].
  destruct (NewJournal maxEntries); [|intros [= <- <-]; eexists; split; [apply fades_refl|by left]].
  destruct (Operations f1 f2 f3 db now maxEntries) as [db1 r1] eqn:Ho.
  apply Operations_spec in Ho as [Hdb _]. intros E.
  assert (db' = db1) as -> by (destruct r1; by injection E).
  destruct Hdb as [->|[->| ->]]; simpl; [exists (db_operations db); split; [apply fades_refl|by left]|..];
    (exists (unexpired now (db_operations db)); split; [apply fades_unexpired|auto]).
Qed.

Lemma remembered_shrink retention c t runs :
  remembered retention c t runs -> remembered retention c (shrink <$> t) runs.
Proof.
  intros H k u Hin. destruct (H k u Hin) as (Hu & [?|(row & Hr & He)]); (split; [done|]); [by left|right].
  exists (shrink row). rewrite lookup_fmap, Hr. split; [done|]. by destruct (shrink_fields row) as (_ & -> & _).
Qed.

Lemma restart_keeps f1 f2 f3 now maxEntries w db r :
  jinv w -> jw_clock w <= now ->
  NewPersistentJournal f1 f2 f3 now maxEntries (jn_retention (jw_journal w)) (jw_db w) = (db, r) ->
  ops_ok db /\ remembered (jn_retention (jw_journal w)) now (db_operations db) (jw_runs w).
Proof.
  intros [] Hclk E. apply restart_db in E as (t & Hf & Ht).
  assert (Hm : remembered (jn_retention (jw_journal w)) now t (jw_runs w))
    by (eapply remembered_fades; [exact Hclk|done|exact ji_runs0]).
  split.
  - intros id o Hid. destruct Ht as [Ht|Ht]; rewrite Ht in Hid; [by eapply ji_ops0, fades_some|].
    apply lookup_fmap_Some in Hid as (o0 & <- & Hid). apply (fades_some _ _ _ _ _ Hf) in Hid.
    destruct (ji_ops0 _ _ Hid) as [Hi Hs]. destruct (shrink_fields o0) as (Hi' & _ & Hs').
    split; [congruence|]. destruct Hs' as [-> | ->]; auto.
  - destruct Ht as [->| ->]; [done|by apply remembered_shrink].
Qed.

Lemma restart_inv f1 f2 f3 now maxEntries w db j :
  jinv w -> jw_clock w <= now ->
  NewPersistentJournal f1 f2 f3 now maxEntries (jn_retention (jw_journal w)) (jw_db w) = (db, Ok j) ->
  jinv (mkJWorld j db now (jw_runs w) ∅).
Proof.
  intros Hj Hclk E. destruct (restart_keeps _ _ _ _ _ _ _ _ Hj Hclk E) as [Hops Hm]. pose proof Hj as [].
  unfold NewPersistentJournal in E. case_decide; [done|]. unfold NewJournal in E. case_decide as Hmax; [done|].
  destruct (Operations f1 f2 f3 (jw_db w) now maxEntries) as [db1 [records|]] eqn:Ho; [|done].
  pose proof (Operations_nodup _ _ _ _ _ _ _ _ ji_ops0 Ho) as Hnd.
  apply Operations_spec in Ho as [_ Hl]. destruct (Hl _ eq_refl) as (_ & Hlen & Hrow). simpl in E.
  destruct (load ∅ [] records) as [[entries order]|] eqn:Hload; [|done]. injection E as <- <-.
  apply load_spec in Hload as (Hord & Hsz & Hent); [|done|by intros ? ?%elem_of_nil].
  rewrite map_size_empty in Hsz. constructor; simpl; try done; [lia|].
  intros id e row He Hr. apply Hent in He as [He|(r & Hin & Hid & Ha)]; [by rewrite lookup_empty in He|].
  destruct (Hrow r Hin) as (id' & Hid'). destruct (Hops _ _ Hid') as [Hid'' _].
  assert (id' = id) as -> by congruence. by simplify_eq.
Qed.

Lemma journal_step_inv w w' : journal_step sha256 w w' -> jinv w -> jinv w'.
Proof.
  destruct 1 as [f now1 now2 w id request j db b Hclk E|f f2 now w id h outcome j db r Hclk Hrun E
    |f1 f2 f3 now maxEntries w db j Hclk E|f1 f2 f3 now maxEntries w db e Hclk E]; intros Hj.
  - by eapply begin_inv.
  - by eapply finish_inv.
  - by eapply restart_inv.
  - destruct (restart_keeps _ _ _ _ _ _ _ _ Hj Hclk E) as [Hops Hm]. destruct Hj. constructor; simpl; try done.
    + rewrite map_size_empty. lia.
    + split; [constructor|by intros ? ?%elem_of_nil].
Qed.

(** The world of a journal that has just been built on a store. *)
Definition new_jworld (w : jworld) : Prop :=
  jw_runs w = [] /\ jw_running w = ∅ /\ exists f1 f2 f3 maxEntries retention db0,
    ops_ok db0
    /\ NewPersistentJournal f1 f2 f3 (jw_clock w) maxEntries retention db0 = (jw_db w, Ok (jw_journal w)).

Definition jreachable (w : jworld) : Prop := exists w0, new_jworld w0 /\ rtc (journal_step sha256) w0 w.

Lemma new_jworld_inv w : new_jworld w -> jinv w.
Proof.
  intros (Hr & Hn & f1 & f2 & f3 & mx & ret & db0 & Hok & E).
  assert (Hret : 0 < ret) by (unfold NewPersistentJournal in E; case_decide; [done|lia]).
  assert (H0 : jinv (mkJWorld (mkJournal 1 ∅ [] true ret 0) db0 (jw_clock w) [] ∅)).
  { constructor; simpl; try done.
    - split; [constructor|by intros ? ?%elem_of_nil].
    - by intros ? ? ?%elem_of_nil.
    - constructor. }
  destruct w as [j db c runs running]. simpl in *. subst.
  exact (restart_inv f1 f2 f3 c mx _ db j H0 ltac:(simpl; lia) E).
Qed.

Lemma jreachable_inv w : jreachable w -> jinv w.
Proof.
  intros (w0 & Hn & Hr). pose proof (new_jworld_inv _ Hn) as Hj. clear Hn. revert Hj.
  induction Hr as [|x y z Hxy _ IH]; [done|]. intros Hj. apply IH. by eapply journal_step_inv.
Qed.

(** ** Theorems *)

(** C8.  An operation runs at most once per retention period: over any sequence of
    calls, concurrent or not, results, restarts of the helper and database failures, two
    runs under the same operation identifier are at least the retention time apart. *)
Theorem operation_runs_once (w : jworld) (i k : nat) (id : string) (t1 t2 : time) :
  jreachable w -> (i < k)%nat -> jw_runs w !! i = Some (id, t1) -> jw_runs w !! k = Some (id, t2) ->
  t1 + jn_retention (jw_journal w) <= t2.
Proof.
  intros Hr Hik H1 H2. destruct (jreachable_inv _ Hr) as [_ _ _ _ _ _ _ _ Hsp].
  exact (StronglySorted_lookup _ _ Hsp i k _ _ Hik H1 H2 eq_refl).
Qed.

(** A recorded outcome is the only answer to a retry: while an operation's completed
    row has not expired, a call with its identifier never runs anything, and the only
    outcome it can report without an error is the recorded one, to a request with the
    recorded canonical hash; any other request is a conflict. *)
Theorem operation_replays_record (w : jworld) (id : string) (row : OperationResult) (f : begin_faults)
    (now1 now2 : time) (request : list byte) (j : Journal) (db : DB) (b : begun) :
  jreachable w -> db_operations (jw_db w) !! id = Some row -> or_State row = "completed" ->
  now1 < or_ExpiresAt row ->
  Execute_begin sha256 f now1 now2 (jw_journal w) (jw_db w) id request = (j, db, b) ->
  (forall h, b <> Runs h)
  /\ forall o replayed, b = Returns o replayed None ->
       o = outcome_of row /\ replayed = true /\ CanonicalHash sha256 request = Ok (or_RequestHash row).
Proof.
  intros Hr Hrow Hst Hlt E. destruct (jreachable_inv _ Hr) as [Hstore _ _ _ _ Hag _ _ _].
  unfold Execute_begin in E. destruct (decide _); [by simplify_eq|].
  destruct (CanonicalHash sha256 request) as [hash|] eqn:Hh; [|by simplify_eq].
  destruct (jn_entries (jw_journal w) !! id) as [ex|] eqn:Hex.
  { destruct (decide (en_hash ex <> hash)) as [|Heq]; [by simplify_eq|]. apply dec_stable in Heq.
    destruct (en_complete ex) eqn:Hc; simplify_eq; (split; [done|]); [|done].
    intros o rep [= <- <- He]. destruct (Hag _ _ _ Hex Hrow) as [Ha _]. destruct (Ha Hc He) as (_ & -> & ->). done. }
  destruct (evict _ _ _) as [entries order]. destruct (decide _); [by simplify_eq|]. rewrite Hstore in E.
  destruct (reserve f now1 now2 _ _ id hash) as [[j2 db2] early] eqn:Hres.
  apply reserve_spec in Hres as (_ & t & Hf & _ & Hearly).
  pose proof (fades_keeps _ _ _ _ _ Hf Hrow Hlt) as Ht.
  destruct early as [b'|]; [|destruct Hearly; congruence]. injection E as _ _ <-.
  destruct b' as [o rep [er|]| |]; try done.
  destruct Hearly as (-> & row' & Hrow' & _ & Hhash & ->). split; [done|]. intros o' rep' [= <- <-].
  rewrite Ht in Hrow'. simplify_eq. done.
Qed.

(** The journal is bounded: it never remembers more operations than its limit, only
    finished operations leave it, and every operation that is running is remembered. *)
Theorem journal_bounded (w : jworld) :
  jreachable w ->
  Z.of_nat (size (jn_entries (jw_journal w))) <= jn_max (jw_journal w)
  /\ (forall id h, jw_running w !! id = Some h ->
        exists e, jn_entries (jw_journal w) !! id = Some e /\ en_hash e = h /\ en_complete e = false)
  /\ (forall id, id ∈ jn_order (jw_journal w) ->
        exists e, jn_entries (jw_journal w) !! id = Some e /\ en_complete e = true).
Proof.
  intros Hr. destruct (jreachable_inv _ Hr) as [_ _ _ Hsz [_ Hall] _ Hrun _ _]. split_and!; [done| |done].
  intros id h Hid. eexists. split; [by apply Hrun|]. done.
Qed.
End Steps.

(** ** Witnesses

    One operation on an empty store, with a retention of 10: reserved at 1, and again
    after a restart at 100. *)

Definition demo_values : JsonValues := {|
  value_tokens := fun b => mkDecoder [TScalar "1"] JEOF;
  value_text := fun _ => [x31]
|}.
Definition demo_digest (l : list byte) : digest := l ++ replicate (32 - length l) x00.
Definition demo_begin_faults : begin_faults := mkBeginFaults FNone FNone FNone.
Definition demo_op : string := "operation-1".

Definition demo_jstart (now : time) (db : DB) : DB * Journal :=
  match NewPersistentJournal FNone FNone FNone now 4 10 db with
  | (db, Ok j) => (db, j)
  | (db, Err _) => (db, mkJournal 0 ∅ [] true 0 0)
  end.
Definition demo_w0 : jworld := mkJWorld (demo_jstart 1 empty_DB).2 (demo_jstart 1 empty_DB).1 1 [] ∅.
Definition demo_begun (now : time) (w : jworld) : jworld :=
  let x := @Execute_begin demo_digest demo_values demo_begin_faults now now (jw_journal w) (jw_db w) demo_op [] in
  mkJWorld x.1.1 x.1.2 now
    (match x.2 with Runs _ => jw_runs w ++ [(demo_op, now)] | _ => jw_runs w end)
    (match x.2 with Runs h => <[demo_op := h]> (jw_running w) | _ => jw_running w end).
Definition demo_w1 : jworld := demo_begun 1 demo_w0.
Definition demo_result : Outcome := mkOutcomeResult [x32] "".
Definition demo_w2 : jworld :=
  let x := Execute_finish FNone FNone 2 (jw_journal demo_w1) (jw_db demo_w1) demo_op (demo_digest [x31]) demo_result in
  mkJWorld x.1.1 x.1.2 2 (jw_runs demo_w1) (delete demo_op (jw_running demo_w1)).
Definition demo_w3 : jworld := mkJWorld (demo_jstart 100 (jw_db demo_w1)).2 (demo_jstart 100 (jw_db demo_w1)).1 100
  (jw_runs demo_w1) ∅.
Definition demo_w4 : jworld := demo_begun 100 demo_w3.

Lemma demo_w1_reachable : @jreachable demo_digest demo_values demo_w1.
Proof.
  exists demo_w0. split.
  - split; [done|]. split; [done|]. exists FNone, FNone, FNone, 4, 10, empty_DB. split; [|vm_compute; reflexivity].
    intros id o H. simpl in H. by rewrite lookup_empty in H.
  - apply rtc_once. eapply (js_begin demo_digest demo_begin_faults 1 1 demo_w0 demo_op []); [vm_compute; split; discriminate|].
    apply pair_decompose.
Qed.

Lemma demo_step w w' : @jreachable demo_digest demo_values w -> @journal_step demo_digest demo_values w w' ->
  @jreachable demo_digest demo_values w'.
Proof. intros (w0 & H0 & Hr) Hs. exists w0. split; [done|]. by eapply rtc_r. Qed.

Lemma demo_w2_reachable : @jreachable demo_digest demo_values demo_w2.
Proof.
  eapply demo_step; [exact demo_w1_reachable|].
  eapply (js_finish demo_digest FNone FNone 2 demo_w1 demo_op (demo_digest [x31]) demo_result);
    [vm_compute; discriminate|vm_compute; reflexivity|].
  apply pair_decompose.
Qed.

Lemma demo_w4_reachable : @jreachable demo_digest demo_values demo_w4.
Proof.
  eapply demo_step; [eapply demo_step; [exact demo_w1_reachable|]|].
  - eapply (js_restart demo_digest FNone FNone FNone 100 4 demo_w1 (jw_db demo_w3) (jw_journal demo_w3));
      [vm_compute; discriminate|vm_compute; reflexivity].
  - eapply (js_begin demo_digest demo_begin_faults 100 100 demo_w3 demo_op []); [vm_compute; split; discriminate|].
    apply pair_decompose.
Qed.

Lemma operation_runs_once_witness :
  jw_runs demo_w4 = [(demo_op, 1); (demo_op, 100)] /\ 1 + jn_retention (jw_journal demo_w4) <= 100.
Proof.
  assert (E : jw_runs demo_w4 = [(demo_op, 1); (demo_op, 100)]) by (vm_compute; reflexivity).
  split; [exact E|].
  apply (@operation_runs_once demo_digest demo_values demo_w4 0 1 demo_op 1 100); [exact demo_w4_reachable|lia|..];
    rewrite E; reflexivity.
Defined.

Definition demo_row2 : OperationResult := mkOperation demo_op (demo_digest [x31]) "completed" [x32] "" (Some 2) 12.

Lemma operation_replays_record_witness :
  let x := @Execute_begin demo_digest demo_values demo_begin_faults 3 3 (jw_journal demo_w2) (jw_db demo_w2) demo_op [] in
  x.2 = Returns demo_result true None /\ outcome_of demo_row2 = demo_result.
Proof.
  intros x. assert (E : x.2 = Returns demo_result true None) by (vm_compute; reflexivity). split; [exact E|].
  destruct (@operation_replays_record demo_digest demo_values demo_w2 demo_op demo_row2 demo_begin_faults 3 3 [] x.1.1 x.1.2 x.2)
    as [_ H]; [exact demo_w2_reachable|vm_compute; reflexivity|reflexivity|done| |].
  - apply pair_decompose.
  - destruct (H _ _ E) as [-> _]. reflexivity.
Defined.

Lemma journal_bounded_witness : Z.of_nat (size (jn_entries (jw_journal demo_w2))) <= jn_max (jw_journal demo_w2).
Proof. apply (@journal_bounded demo_digest demo_values demo_w2 demo_w2_reachable). Defined.
