(* ===== verification/Canonical.v ===== *)
(** * Canonical requests

    Two requests that differ only in the order of object members have the same canonical
    hash ([json_eqv], [canonical_hash_order]); a request with a repeated key has none.
    An empty array and null are not told apart ([empty_array_is_null]). *)

From S2P Require Import Prelude Config Buffers History Input Store StoreOperations Frame Journal.

(** ** Decoding the tokens of a value *)

Fixpoint app_e (l k : json_list) : json_list :=
  match l with ENil => k | ECons v l => ECons v (app_e l k) end.
Fixpoint app_m (m k : json_members) : json_members :=
  match m with MNil => k | MCons key v m => MCons key v (app_m m k) end.

Lemma app_e_snoc l v k : app_e (snoc_e l v) k = app_e l (ECons v k).
Proof. induction l; simpl; congruence. Qed.
Lemma app_m_snoc m key v k : app_m (snoc_m m key v) k = app_m m (MCons key v k).
Proof. induction m; simpl; congruence. Qed.
Lemma app_e_nil l : app_e l ENil = l.
Proof. induction l; simpl; congruence. Qed.
Lemma app_m_nil m : app_m m MNil = m.
Proof. induction m; simpl; congruence. Qed.
Lemma keys_snoc m key v : keys (snoc_m m key v) = keys m ++ [key].
Proof. induction m; simpl; congruence. Qed.

(** The decoder returns [v] and goes on at [d] if [P] holds, and fails otherwise. *)
Definition decodes (r : option (decoder * result decode_error json)) (d : decoder) (v : json) (P : Prop) : Prop :=
  (P /\ r = Some (d, Ok v)) \/ (~ P /\ exists d', r = Some (d', Err DDuplicate)).

Lemma decodes_iff r d v P Q : (P <-> Q) -> decodes r d v P -> decodes r d v Q.
Proof. unfold decodes. tauto. Qed.

Lemma decodes_seq r1 (k : decoder -> json -> option (decoder * result decode_error json)) d1 v1 d2 v2 P Q :
  decodes r1 d1 v1 P -> decodes (k d1 v1) d2 v2 Q ->
  decodes (match r1 with Some (d, Ok v) => k d v | Some (d, Err e) => Some (d, Err e) | None => None end) d2 v2 (P /\ Q).
Proof.
  intros [[HP ->]|[HP [d' ->]]] H2; simpl.
  - eapply decodes_iff; [|exact H2]. tauto.
  - right. split; [tauto|eauto].
Qed.

Lemma decode_mutual :
  (forall v fuel rest e, (2 * length (tokens v) < fuel)%nat ->
     decodes (decodeValue fuel DValue (mkDecoder (tokens v ++ rest) e)) (mkDecoder rest e) v (distinct_keys v))
  /\ (forall l acc fuel rest e, (2 * S (length (tokens_e l)) < fuel)%nat ->
     decodes (decodeValue fuel (DArray acc) (mkDecoder (tokens_e l ++ TCloseArray :: rest) e)) (mkDecoder rest e)
       (JArr (app_e acc l)) (distinct_e l))
  /\ (forall m acc fuel rest e, (2 * S (length (tokens_m m)) < fuel)%nat ->
     decodes (decodeValue fuel (DObject acc) (mkDecoder (tokens_m m ++ TCloseObject :: rest) e)) (mkDecoder rest e)
       (JObj (app_m acc m)) ((NoDup (keys m) /\ forall k, k ∈ keys m -> k ∉ keys acc) /\ distinct_m m)).
Proof.
  apply json_mutind.
  - intros text [|fuel] rest e Hf; [lia|]. left. done.
  - intros s [|fuel] rest e Hf; [lia|]. left. done.
  - intros l IH [|fuel] rest e Hf; [lia|]. simpl. rewrite <- app_assoc. apply (IH ENil).
    simpl in Hf. rewrite length_app in Hf. simpl in Hf. lia.
  - intros m IH [|fuel] rest e Hf; [lia|]. simpl. rewrite <- app_assoc. simpl.
    eapply decodes_iff; [|apply (IH MNil)]; [set_solver|].
    simpl in Hf. rewrite length_app in Hf. simpl in Hf. lia.
  - intros acc [|fuel] rest e Hf; [lia|]. left. simpl. by rewrite app_e_nil.
  - intros v IHv l IHl acc [|fuel] rest e Hf; [lia|]. cbn [decodeValue tokens_e distinct_e].
    rewrite <- app_assoc, More_value.
    simpl in Hf. rewrite length_app in Hf. destruct (tokens_first v) as (t & r & Ht & _).
    assert (1 <= length (tokens v))%nat by (rewrite Ht; simpl; lia).
    apply (decodes_seq _ (fun d x => decodeValue fuel (DArray (snoc_e acc x)) d)
             (mkDecoder (tokens_e l ++ TCloseArray :: rest) e) v).
    + apply IHv. lia.
    + rewrite <- app_e_snoc. apply IHl. lia.
  - intros acc [|fuel] rest e Hf; [lia|]. left. simpl. rewrite app_m_nil. split; [|done].
    split; [|done]. split; [constructor|set_solver].
  - intros key v IHv m IHm acc [|fuel] rest e Hf; [lia|]. cbn [decodeValue tokens_m].
    simpl in Hf. rewrite length_app in Hf. cbn [More dc_tokens app Token dc_end]. rewrite <- app_assoc.
    destruct (decide (key ∈ keys acc)) as [Hin|Hout].
    { right. split; [|eauto]. intros [[_ Hk] _]. apply (Hk key); [simpl; left|done]. }
    eapply decodes_iff;
      [|apply (decodes_seq _ (fun d x => decodeValue fuel (DObject (snoc_m acc key x)) d)
                 (mkDecoder (tokens_m m ++ TCloseObject :: rest) e) v)].
    3:{ rewrite <- app_m_snoc. apply IHm. lia. }
    2:{ apply IHv. lia. }
    simpl. rewrite NoDup_cons, keys_snoc. set_solver.
Qed.

(** ** Values up to the order of members *)

Inductive json_eqv : json -> json -> Prop :=
| eqv_refl v : json_eqv v v
| eqv_arr l k : list_eqv l k -> json_eqv (JArr l) (JArr k)
| eqv_obj m k : members_eqv m k -> json_eqv (JObj m) (JObj k)
with list_eqv : json_list -> json_list -> Prop :=
| eqv_nil : list_eqv ENil ENil
| eqv_cons v w l k : json_eqv v w -> list_eqv l k -> list_eqv (ECons v l) (ECons w k)
with members_eqv : json_members -> json_members -> Prop :=
| eqv_mnil : members_eqv MNil MNil
| eqv_mcons key v w m k : json_eqv v w -> members_eqv m k -> members_eqv (MCons key v m) (MCons key w k)
| eqv_swap k1 v1 k2 v2 m : members_eqv (MCons k1 v1 (MCons k2 v2 m)) (MCons k2 v2 (MCons k1 v1 m))
| eqv_mtrans m k h : members_eqv m k -> members_eqv k h -> members_eqv m h.

Scheme json_eqv_mind := Minimality for json_eqv Sort Prop
with list_eqv_mind := Minimality for list_eqv Sort Prop
with members_eqv_mind := Minimality for members_eqv Sort Prop.
Combined Scheme json_eqv_mutind from json_eqv_mind, list_eqv_mind, members_eqv_mind.

Lemma eqv_sym_mutual :
  (forall v w, json_eqv v w -> json_eqv w v)
  /\ (forall l k, list_eqv l k -> list_eqv k l)
  /\ (forall m k, members_eqv m k -> members_eqv k m).
Proof. apply json_eqv_mutind; intros; econstructor; eauto. Qed.

Lemma json_eqv_sym v w : json_eqv v w -> json_eqv w v.
Proof. apply eqv_sym_mutual. Qed.

Lemma insert_member_comm k1 v1 k2 v2 m :
  k1 <> k2 -> insert_member k1 v1 (insert_member k2 v2 m) = insert_member k2 v2 (insert_member k1 v1 m).
Proof.
  intros Hne.
  assert (Hcmp : forall a b, string_leb a b = false -> string_leb b a = true).
  { intros a b H. destruct (string_le_total a b) as [Hab|Hab]; unfold string_le in Hab; congruence. }
  assert (Hanti : forall a b, string_leb a b = true -> string_leb b a = true -> a = b)
    by (intros a b H1 H2; by apply (anti_symm string_le)).
  assert (Htr : forall a b c, string_leb a b = true -> string_leb b c = true -> string_leb a c = true)
    by (intros a b c H1 H2; by apply (transitivity (R := string_le) (y := b))).
  induction m as [|k v m IH]; simpl.
  - destruct (string_leb k1 k2) eqn:E1, (string_leb k2 k1) eqn:E2; try done.
    + destruct Hne. auto.
    + apply Hcmp in E1. congruence.
  - destruct (string_leb k2 k) eqn:E2, (string_leb k1 k) eqn:E1; simpl; rewrite ?E1, ?E2.
    + destruct (string_leb k1 k2) eqn:E3, (string_leb k2 k1) eqn:E4; try done.
      * destruct Hne. auto.
      * apply Hcmp in E3. congruence.
    + destruct (string_leb k1 k2) eqn:E3; [|done]. assert (string_leb k1 k = true) by eauto. congruence.
    + destruct (string_leb k2 k1) eqn:E3; [|done]. assert (string_leb k2 k = true) by eauto. congruence.
    + by rewrite IH.
Qed.

Lemma canonical_eqv :
  (forall v w, json_eqv v w -> distinct_keys v -> canonical v = canonical w /\ distinct_keys w)
  /\ (forall l k, list_eqv l k -> distinct_e l -> canonical_e l = canonical_e k /\ distinct_e k)
  /\ (forall m k, members_eqv m k -> NoDup (keys m) -> distinct_m m ->
        canonical_m m = canonical_m k /\ keys m ≡ₚ keys k /\ distinct_m k).
Proof.
  apply json_eqv_mutind.
  - done.
  - intros l k Hlk IH Hd. destruct (IH Hd) as [E Hd']. split; [|done]. inversion Hlk; subst; [done|].
    cbn [canonical]. by rewrite E.
  - intros m k _ IH [Hn Hd]. destruct (IH Hn Hd) as (E & Hp & Hd'). split; [cbn [canonical]; by rewrite E|].
    split; [by rewrite <- Hp|done].
  - done.
  - intros v w l k _ IHv _ IHl [Hv Hl]. destruct (IHv Hv) as [Ev ?], (IHl Hl) as [E ?].
    cbn [canonical_e]. by rewrite Ev, E.
  - done.
  - intros key v w m k _ IHv _ IHm Hn [Hv Hm]. cbn [keys] in Hn. apply NoDup_cons in Hn as [Hk Hn].
    destruct (IHv Hv) as [E ?], (IHm Hn Hm) as (E' & Hp & ?). cbn [canonical_m keys]. rewrite E, E'.
    split; [done|]. split; [by rewrite Hp|done].
  - intros k1 v1 k2 v2 m Hn (H1 & H2 & H3). cbn [keys] in Hn. apply NoDup_cons in Hn as [Hk _].
    cbn [canonical_m keys]. split; [apply insert_member_comm; set_solver|]. split; [apply Permutation_swap|done].
  - intros m k h _ IH1 _ IH2 Hn Hd. destruct (IH1 Hn Hd) as (-> & Hp & Hd1).
    destruct IH2 as (-> & Hp2 & Hd2); [by rewrite <- Hp|done|]. split; [done|]. split; [by rewrite Hp|done].
Qed.

(** ** Theorems *)

Section Canonical.
Context (sha256 : list byte -> digest) `{JV : JsonValues}.

Lemma CanonicalHash_value request v :
  value_tokens request = mkDecoder (tokens v) JEOF ->
  (distinct_keys v /\ CanonicalHash sha256 request = Ok (sha256 (value_text (canonical v))))
  \/ (~ distinct_keys v /\ CanonicalHash sha256 request = Err ErrInvalidRequest).
Proof.
  intros E. unfold CanonicalHash. rewrite E. cbn [dc_tokens].
  destruct (proj1 decode_mutual v (S (S (2 * length (tokens v)))) [] JEOF ltac:(lia)) as [[Hd H]|[Hd [d H]]];
    rewrite app_nil_r in H; rewrite H; simpl; auto.
Qed.

(** The hash that identifies a request does not depend on how its objects list their
    members: two requests whose values are equal up to the order of members, at every
    depth, are both accepted with the same hash, or, when some object names a key twice,
    both refused. *)
Theorem canonical_hash_order (r1 r2 : list byte) (v1 v2 : json) :
  value_tokens r1 = mkDecoder (tokens v1) JEOF -> value_tokens r2 = mkDecoder (tokens v2) JEOF ->
  json_eqv v1 v2 ->
  CanonicalHash sha256 r1 = CanonicalHash sha256 r2
  /\ (is_ok (CanonicalHash sha256 r1) = true <-> distinct_keys v1).
Proof.
  intros H1 H2 Heq.
  assert (Hsym : distinct_keys v2 -> distinct_keys v1).
  { intros Hd. apply (proj1 canonical_eqv v2 v1); [|done]. by apply json_eqv_sym. }
  destruct (CanonicalHash_value _ _ H1) as [[Hd ->]|[Hd ->]]; simpl.
  - destruct (proj1 canonical_eqv _ _ Heq Hd) as [Hc Hd2].
    destruct (CanonicalHash_value _ _ H2) as [[_ ->]|[? _]]; [|done]. by rewrite Hc.
  - destruct (CanonicalHash_value _ _ H2) as [[? _]|[_ ->]]; [tauto|]. split; [done|]. split; [done|tauto].
Qed.

(** A request with an empty array and one with null have the same hash. *)
Example empty_array_is_null key :
  canonical (JObj (MCons key (JArr ENil) MNil)) = canonical (JObj (MCons key (JScalar "null") MNil)).
Proof. reflexivity. Qed.
End Canonical.

(** ** Witnesses *)

Definition demo_v1 : json := JObj (MCons "a" (JScalar "1") (MCons "b" (JStr "x") MNil)).
Definition demo_v2 : json := JObj (MCons "b" (JStr "x") (MCons "a" (JScalar "1") MNil)).
Definition demo_two : JsonValues := {|
  value_tokens := fun b => mkDecoder (tokens (if decide (b = []) then demo_v1 else demo_v2)) JEOF;
  value_text := fun v => Ascii.byte_of_ascii <$> concat ((fun t => match t with TString s | TScalar s => String.list_ascii_of_string s | _ => [] end) <$> tokens v)
|}.

Lemma canonical_hash_order_witness :
  @CanonicalHash (fun l => l) demo_two [] = @CanonicalHash (fun l => l) demo_two [x00].
Proof.
  apply (@canonical_hash_order (fun l => l) demo_two [] [x00] demo_v1 demo_v2); [reflexivity|reflexivity|].
  apply eqv_obj, eqv_swap.
Defined.
