(* ===== verification/StoreTransfers.v ===== *)
(** * The table of file transfers ([internal/store/store.go], [file_transfers])

    One row per file of a batch.  A statement is an update of the rows that satisfy its
    WHERE clause together with the number of rows it changed; [f], [f2], ... are the
    faults of the statements of one call, in order.  The theorems describe the life of a
    row: which states follow which, that the committed offset only grows up to the
    size, and that the admission limits bound what is spooled. *)

From S2P Require Import Prelude Buffers History Store StoreOperations.

Definition set_transfers (db : DB) (t : gmap string FileTransfer) : DB :=
  mkDB (db_sessions db) (db_output db) (db_inputs db) (db_operations db) t.

(** ** States *)

(** [state IN ('created','uploading')], [... 'pending')] and the states that expire. *)
Definition uploading (s : string) : bool := bool_decide (s = "created" \/ s = "uploading").
Definition active (s : string) : bool := uploading s || bool_decide (s = "pending").
Definition expiring (s : string) : bool := active s || bool_decide (s = "published").
Definition finished (s : string) : bool :=
  bool_decide (s = "published" \/ s = "pending" \/ s = "delivered").

(** ** Statements *)

(** The rows of the table, and an [UPDATE] of those that satisfy [p]. *)
Definition rows (db : DB) : list FileTransfer := (map_to_list (db_transfers db)).*2.

Definition count (p : FileTransfer -> bool) (db : DB) : Z := len (filter p (rows db)).

Definition update (p : FileTransfer -> bool) (u : FileTransfer -> FileTransfer) (db : DB) : DB :=
  set_transfers db ((fun r => if p r then u r else r) <$> db_transfers db).

(** [SET committed_offset=?,state='uploading'], [SET state=?,result_code=?] and
    [SET state=?,result_code=?,receipt_path=?]. *)
Definition with_offset (next : Z) (r : FileTransfer) : FileTransfer :=
  mkTransfer (ft_ID r) (ft_BatchID r) (ft_Direction r) (ft_SessionID r) (ft_ClientID r) (ft_Basename r)
    (ft_Size r) (ft_SHA256 r) next "uploading" (ft_ResultCode r) (ft_ReceiptPath r) (ft_CreatedAt r) (ft_ExpiresAt r).
Definition with_receipt (state code receipt : string) (r : FileTransfer) : FileTransfer :=
  mkTransfer (ft_ID r) (ft_BatchID r) (ft_Direction r) (ft_SessionID r) (ft_ClientID r) (ft_Basename r)
    (ft_Size r) (ft_SHA256 r) (ft_CommittedOffset r) state code receipt (ft_CreatedAt r) (ft_ExpiresAt r).
Definition with_state (state code : string) (r : FileTransfer) : FileTransfer :=
  with_receipt state code (ft_ReceiptPath r) r.

(** [CASE direction WHEN 'pb_to_pbh' THEN 'published' ELSE 'pending' END], for both columns. *)
Definition completed (r : FileTransfer) : FileTransfer :=
  let s := if decide (ft_Direction r = "pb_to_pbh") then "published" else "pending" in with_state s s r.

Definition has_id (id : string) (r : FileTransfer) : bool := bool_decide (ft_ID r = id).
Definition in_batch (batchID : string) (r : FileTransfer) : bool := bool_decide (ft_BatchID r = batchID).
Definition ready (r : FileTransfer) : bool :=
  bool_decide (ft_CommittedOffset r = ft_Size r) && uploading (ft_State r).

(** The CHECK constraints of the table; the digest is ASCII text. *)
Definition transfer_check (r : FileTransfer) : bool :=
  bool_decide (ft_Direction r = "pb_to_pbh" \/ ft_Direction r = "pbh_to_pb")
  && bool_decide (0 <= ft_Size r <= 52428800) && bool_decide (String.length (ft_SHA256 r) = 64%nat)
  && bool_decide (0 <= ft_CommittedOffset r <= ft_Size r)
  && (expiring (ft_State r) || bool_decide (ft_State r = "delivered" \/ ft_State r = "failed" \/ ft_State r = "canceled")).

(** ** Creation *)

(** The row that the INSERT writes. *)
Definition created_row (t : FileTransfer) : FileTransfer :=
  mkTransfer (ft_ID t) (ft_BatchID t) (ft_Direction t) (ft_SessionID t) (ft_ClientID t) (ft_Basename t)
    (ft_Size t) (ft_SHA256 t) 0 "created" "" "" (ft_CreatedAt t) (ft_ExpiresAt t).

Definition malformed (t : FileTransfer) : bool :=
  bool_decide (ft_ID t = "" \/ ft_BatchID t = "" \/ ft_Basename t = "" \/ ft_Size t < 0 \/ ft_CommittedOffset t <> 0)
  || is_zero_time (ft_CreatedAt t) || is_zero_time (ft_ExpiresAt t).

Fixpoint insert_transfers (db : DB) (l : list FileTransfer) : result store_error DB :=
  match l with
  | [] => Ok db
  | t :: l' =>
      if malformed t then Err ErrConflict
      else if decide (is_Some (db_transfers db !! ft_ID t) \/ transfer_check (created_row t) = false)
      then Err ErrConstraint
      else insert_transfers (set_transfers db (<[ft_ID t := created_row t]> (db_transfers db))) l'
  end.

(** Signed 64-bit addition. *)
Definition i64 (z : Z) : Z := (z + two63) mod two64 - two63.

Definition sizes (l : list FileTransfer) : Z := foldr (fun t n => ft_Size t + n) 0 l.
Definition incoming (l : list FileTransfer) : Z := foldl (fun n t => i64 (n + ft_Size t)) 0 l.

(** [SELECT COUNT(DISTINCT batch_id)] and [SELECT COALESCE(SUM(size),0)] of the active rows. *)
Definition is_active (r : FileTransfer) : bool := active (ft_State r).
Definition active_batches (db : DB) : gset string := list_to_set (ft_BatchID <$> filter is_active (rows db)).
Definition spooled (db : DB) : Z := sizes (filter is_active (rows db)).

Definition CreateFileTransfersWithinLimits (f : fault) (db : DB) (transfers : list FileTransfer)
    (maxSpoolBytes maxActiveBatches : Z) : DB * result store_error unit :=
  if decide (len transfers < 1 \/ 10 < len transfers) then (db, Err ErrConflict)
  else commit f db (
    if decide (0 < maxActiveBatches /\ maxActiveBatches <= Z.of_nat (size (active_batches db))) then Err ErrConflict
    else if decide (0 < maxSpoolBytes
                    /\ (incoming transfers < 0 \/ i64 (maxSpoolBytes - incoming transfers) < spooled db))
    then Err ErrConflict
    else let? db' := insert_transfers db transfers in Ok (db', tt)).

Definition CreateFileTransfers (f : fault) (db : DB) (transfers : list FileTransfer) : DB * result store_error unit :=
  CreateFileTransfersWithinLimits f db transfers 0 0.
Definition CreateFileTransfersWithinSpool (f : fault) (db : DB) (transfers : list FileTransfer) (maxSpoolBytes : Z)
    : DB * result store_error unit :=
  CreateFileTransfersWithinLimits f db transfers maxSpoolBytes 0.

(** ** Queries *)

(** [Store.FileTransfer]. *)
Definition GetFileTransfer (db : DB) (id : string) : result store_error FileTransfer :=
  match db_transfers db !! id with Some r => Ok r | None => Err ErrNoRows end.

(** [ORDER BY created_at,id] and [ORDER BY expires_at,id]. *)
Definition order_by (key : FileTransfer -> Z) (x y : FileTransfer) : Prop :=
  key x < key y \/ key x = key y /\ string_le (ft_ID x) (ft_ID y).

#[global] Instance order_by_dec key x y : Decision (order_by key x y).
Proof. unfold order_by. apply _. Defined.

Definition select (p : FileTransfer -> bool) (key : FileTransfer -> Z) (db : DB) : list FileTransfer :=
  merge_sort (order_by key) (filter p (rows db)).

Definition FileTransfersByBatch (f : fault) (db : DB) (batchID : string) : result store_error (list FileTransfer) :=
  if decide (batchID = "") then Err ErrConflict
  else
    let? transfers := reading f (Ok (select (in_batch batchID) ft_CreatedAt db)) in
    match transfers with [] => Err ErrConflict | _ => Ok transfers end.

Definition PendingFileTransfers (f : fault) (db : DB) (clientID sessionID : string) (now : time) (limit : Z)
    : result store_error (list FileTransfer) :=
  if decide (clientID = "" \/ sessionID = "" \/ limit < 1 \/ 10 < limit) then Err ErrConflict
  else reading f (Ok (take (Z.to_nat limit)
    (select (fun r => bool_decide (ft_Direction r = "pbh_to_pb" /\ ft_ClientID r = clientID /\ ft_SessionID r = sessionID
                                  /\ ft_State r = "pending" /\ now < ft_ExpiresAt r)) ft_CreatedAt db))).

Definition ExpiredFileTransfers (f : fault) (db : DB) (now : time) : result store_error (list FileTransfer) :=
  reading f (Ok (take 100
    (select (fun r => bool_decide (ft_ExpiresAt r <= now) && expiring (ft_State r)) ft_ExpiresAt db))).

(** ** Updates *)

(** One UPDATE statement, committed on its own, and the number of rows it changed. *)
Definition exec (f : fault) (p : FileTransfer -> bool) (u : FileTransfer -> FileTransfer) (db : DB)
    : DB * result store_error Z := commit f db (Ok (update p u db, count p db)).

Definition CommitFileTransferOffset (f : fault) (db : DB) (id : string) (expected next : Z)
    : DB * result store_error unit :=
  if decide (expected < 0 \/ next < expected) then (db, Err ErrConflict)
  else
    let '(db1, changed) := exec f (fun r => has_id id r && bool_decide (ft_CommittedOffset r = expected)
                                            && uploading (ft_State r) && bool_decide (next <= ft_Size r))
                             (with_offset next) db in
    (db1, let? n := changed in if decide (n <> 1) then Err ErrConflict else Ok tt).

Definition CompleteFileTransfer (f f2 : fault) (db : DB) (id : string) : DB * result store_error unit :=
  let '(db1, changed) := exec f (fun r => has_id id r && ready r) completed db in
  (db1,
   let? n := changed in
   if decide (n <> 1) then
     match reading f2 (GetFileTransfer db1 id) with
     | Ok t => if finished (ft_State t) then Ok tt else Err ErrConflict
     | Err _ => Err ErrConflict
     end
   else Ok tt).

Definition CompleteFileTransferBatch (f f2 : fault) (db : DB) (batchID : string) : DB * result store_error unit :=
  let total := count (in_batch batchID) db in
  commit f db (
    if decide (total < 1 \/ count (fun r => in_batch batchID r && ready r) db <> total) then
      match reading f2 (Ok (count (fun r => in_batch batchID r && finished (ft_State r)) db)) with
      | Ok terminal => if decide (terminal = total) then Ok (db, tt) else Err ErrConflict
      | Err _ => Err ErrConflict
      end
    else
      let p := fun r => in_batch batchID r && ready r in
      if decide (count p db <> total) then Err ErrConflict else Ok (update p completed db, tt)).

Definition CancelFileTransferBatch (f f2 : fault) (db : DB) (batchID : string) : DB * result store_error unit :=
  let '(db1, changed) := exec f (fun r => in_batch batchID r && active (ft_State r))
                           (with_state "canceled" "canceled") db in
  (db1,
   let? n := changed in
   if decide (n = 0) then
     let total := count (in_batch batchID) db1 in
     let canceled := count (fun r => in_batch batchID r && bool_decide (ft_State r = "canceled")) db1 in
     match reading f2 (Ok tt) with
     | Ok _ => if decide (0 < total /\ total = canceled) then Ok tt else Err ErrConflict
     | Err _ => Err ErrConflict
     end
   else Ok tt).

Definition CancelFileTransfer (f f2 : fault) (db : DB) (id : string) : DB * result store_error unit :=
  let '(db1, changed) := exec f (fun r => has_id id r && active (ft_State r))
                           (with_state "canceled" "canceled") db in
  (db1,
   let? n := changed in
   if decide (n = 0) then
     match reading f2 (GetFileTransfer db1 id) with
     | Ok t => if decide (ft_State t = "canceled") then Ok tt else Err ErrConflict
     | Err _ => Err ErrConflict
     end
   else Ok tt).

(** The UPDATE for one expired transfer. *)
Definition expire (t r : FileTransfer) : FileTransfer :=
  if decide (ft_Direction t = "pbh_to_pb") then with_state "failed" "delivery_timeout" r
  else with_state "canceled" "canceled" r.

Definition expires (t r : FileTransfer) : bool :=
  has_id (ft_ID t) r && bool_decide (ft_ExpiresAt r <= ft_ExpiresAt t) && expiring (ft_State r).

Definition expire_all (db : DB) (transfers : list FileTransfer) : DB :=
  foldl (fun db t => update (expires t) (expire t) db) db transfers.

Definition ExpireFileTransfers (f : fault) (db : DB) (transfers : list FileTransfer) : DB * result store_error unit :=
  match transfers with
  | [] => (db, Ok tt)
  | _ => commit f db (Ok (expire_all db transfers, tt))
  end.

Definition ReceiptFileTransfer (f : fault) (db : DB) (id clientID resultCode receiptPath : string)
    : DB * result store_error unit :=
  if decide (resultCode = "") then (db, Err ErrConflict)
  else
    let state := if decide (resultCode = "stored") then "delivered" else "failed" in
    let '(db1, changed) :=
      exec f (fun r => has_id id r && bool_decide (ft_ClientID r = clientID /\ ft_Direction r = "pbh_to_pb")
                       && (bool_decide (ft_State r = "pending")
                           || bool_decide ((ft_State r = "delivered" \/ ft_State r = "failed")
                                           /\ ft_ResultCode r = resultCode /\ ft_ReceiptPath r = receiptPath)))
        (with_receipt state resultCode receiptPath) db in
    (db1, let? n := changed in if decide (n <> 1) then Err ErrConflict else Ok tt).

(** ** The life of a row *)

(** What identifies a transfer and never changes. *)
Definition same_file (r r' : FileTransfer) : Prop :=
  ft_ID r' = ft_ID r /\ ft_BatchID r' = ft_BatchID r /\ ft_Direction r' = ft_Direction r
  /\ ft_SessionID r' = ft_SessionID r /\ ft_ClientID r' = ft_ClientID r /\ ft_Basename r' = ft_Basename r
  /\ ft_Size r' = ft_Size r /\ ft_SHA256 r' = ft_SHA256 r
  /\ ft_CreatedAt r' = ft_CreatedAt r /\ ft_ExpiresAt r' = ft_ExpiresAt r.

Inductive row_step : FileTransfer -> FileTransfer -> Prop :=
| row_commit r next :
    uploading (ft_State r) = true -> ft_CommittedOffset r <= next <= ft_Size r -> row_step r (with_offset next r)
| row_complete r : ready r = true -> row_step r (completed r)
| row_cancel r : expiring (ft_State r) = true -> row_step r (with_state "canceled" "canceled" r)
| row_timeout r : expiring (ft_State r) = true -> row_step r (with_state "failed" "delivery_timeout" r)
| row_stored r path :
    ft_State r = "pending" -> ft_Direction r = "pbh_to_pb" -> row_step r (with_receipt "delivered" "stored" path r)
| row_failed r code path :
    ft_State r = "pending" -> ft_Direction r = "pbh_to_pb" -> code <> "stored" ->
    row_step r (with_receipt "failed" code path r).

Definition final (s : string) : Prop := s = "delivered" \/ s = "failed" \/ s = "canceled".

Record row_ok (r : FileTransfer) : Prop := {
  rok_check : transfer_check r = true;
  rok_published : ft_State r = "published" -> ft_Direction r = "pb_to_pbh" /\ ft_CommittedOffset r = ft_Size r;
  rok_pending : ft_State r = "pending" -> ft_Direction r = "pbh_to_pb" /\ ft_CommittedOffset r = ft_Size r;
  rok_delivered : ft_State r = "delivered" ->
    ft_Direction r = "pbh_to_pb" /\ ft_CommittedOffset r = ft_Size r /\ ft_ResultCode r = "stored";
  rok_failed : ft_State r = "failed" -> ft_ResultCode r <> "stored"
}.

Definition transfers_ok (db : DB) : Prop :=
  forall id r, db_transfers db !! id = Some r -> ft_ID r = id /\ row_ok r.

(** A row as it is created. *)
Definition fresh_row (id : string) (r : FileTransfer) : Prop :=
  ft_ID r = id /\ ft_State r = "created" /\ ft_CommittedOffset r = 0 /\ transfer_check r = true.

(** Every row of [db] is still there, moved by row steps, and every new row has moved from
    its creation by row steps. *)
Definition table_step (db db' : DB) : Prop :=
  (forall id r, db_transfers db !! id = Some r ->
     exists r', db_transfers db' !! id = Some r' /\ rtc row_step r r')
  /\ (forall id r', db_transfers db !! id = None -> db_transfers db' !! id = Some r' ->
        exists r0, fresh_row id r0 /\ rtc row_step r0 r').

(** The calls that change the table, with any arguments and any faults; creations respect
    the limits [spool] and [batches] and hold one batch. *)
Inductive transfer_step (spool batches : Z) : DB -> DB -> Prop :=
| ts_create f db ts ms mb batch :
    0 < ms <= spool -> ms < two63 -> 0 < mb <= batches -> (forall t, t ∈ ts -> ft_BatchID t = batch) ->
    transfer_step spool batches db (CreateFileTransfersWithinLimits f db ts ms mb).1
| ts_commit f db id expected next : transfer_step spool batches db (CommitFileTransferOffset f db id expected next).1
| ts_complete f f2 db id : transfer_step spool batches db (CompleteFileTransfer f f2 db id).1
| ts_complete_batch f f2 db b : transfer_step spool batches db (CompleteFileTransferBatch f f2 db b).1
| ts_cancel f f2 db id : transfer_step spool batches db (CancelFileTransfer f f2 db id).1
| ts_cancel_batch f f2 db b : transfer_step spool batches db (CancelFileTransferBatch f f2 db b).1
| ts_expire f db ts : transfer_step spool batches db (ExpireFileTransfers f db ts).1
| ts_receipt f db id client code path :
    transfer_step spool batches db (ReceiptFileTransfer f db id client code path).1.

(** ** Lemmas: states *)

Ltac states := unfold transfer_check, ready, expiring, active, uploading, finished, final in *.

Lemma uploading_active s : uploading s = true -> active s = true.
Proof. states. intros ->. done. Qed.
Lemma active_expiring s : active s = true -> expiring s = true.
Proof. unfold expiring. intros ->. done. Qed.
#[export] Hint Resolve uploading_active active_expiring : pb.

Lemma expiring_not_final s : expiring s = true -> ~ final s.
Proof. states. intros H [->|[->| ->]]; done. Qed.

Lemma ready_spec r : ready r = true <-> ft_CommittedOffset r = ft_Size r /\ uploading (ft_State r) = true.
Proof. unfold ready. by rewrite andb_true_iff, bool_decide_eq_true. Qed.

#[global] Instance same_file_preorder : PreOrder same_file.
Proof. split; [done|]. unfold same_file. intros r1 r2 r3 H1 H2. destruct_and!. split_and!; congruence. Qed.

Lemma row_step_same r r' : row_step r r' -> same_file r r'.
Proof. by destruct 1. Qed.

Lemma row_steps_same r r' : rtc row_step r r' -> same_file r r'.
Proof. induction 1 as [|??? H]; [done|]. apply row_step_same in H. by etrans. Qed.

(** The final states are final. *)
Lemma row_step_final r r' : row_step r r' -> ~ final (ft_State r).
Proof.
  destruct 1 as [r next Hu|r Hr|r He|r He|r path Hp|r code path Hp]; intros Hf.
  - eapply expiring_not_final; [|done]. eauto with pb.
  - apply ready_spec in Hr as [_ Hr]. eapply expiring_not_final; [|done]. eauto with pb.
  - by eapply expiring_not_final.
  - by eapply expiring_not_final.
  - rewrite Hp in Hf. by destruct Hf as [|[|]].
  - rewrite Hp in Hf. by destruct Hf as [|[|]].
Qed.

Lemma row_steps_final r r' : rtc row_step r r' -> final (ft_State r) -> r' = r.
Proof. destruct 1 as [|??? H]; [done|]. by apply row_step_final in H. Qed.

Lemma check_parts r :
  transfer_check r = true <->
  (ft_Direction r = "pb_to_pbh" \/ ft_Direction r = "pbh_to_pb") /\ 0 <= ft_Size r <= 52428800
  /\ String.length (ft_SHA256 r) = 64%nat /\ 0 <= ft_CommittedOffset r <= ft_Size r
  /\ (expiring (ft_State r) = true \/ final (ft_State r)).
Proof.
  unfold transfer_check. rewrite !andb_true_iff, orb_true_iff, !bool_decide_eq_true. unfold final. tauto.
Qed.

Lemma row_step_offset r r' :
  row_step r r' -> 0 <= ft_CommittedOffset r <= ft_Size r ->
  ft_CommittedOffset r <= ft_CommittedOffset r' <= ft_Size r'.
Proof. destruct 1; intros; simpl; try lia. Qed.

Lemma row_steps_offset r r' :
  rtc row_step r r' -> 0 <= ft_CommittedOffset r <= ft_Size r ->
  ft_CommittedOffset r <= ft_CommittedOffset r' <= ft_Size r'.
Proof. induction 1 as [|x y z Hs _ IH]; intros Hx; [lia|]. pose proof (row_step_offset _ _ Hs Hx). lia. Qed.

Lemma row_step_ok r r' : row_step r r' -> row_ok r -> row_ok r'.
Proof.
  intros Hs [Hc Hpu Hpe Hde Hfa]. pose proof Hc as (Hd & Hz & Hl & Ho & Hst)%check_parts.
  pose proof (row_step_offset _ _ Hs Ho) as Ho'. destruct (row_step_same _ _ Hs) as (_ & _ & Ed & _ & _ & _ & Ez & El & _).
  assert (Hck : expiring (ft_State r') = true \/ final (ft_State r') -> transfer_check r' = true).
  { intros Hx. apply check_parts. rewrite Ed, El, Ez in *. split_and!; try done; lia. }
  destruct Hs as [r next Hu|r Hr|r He|r He|r path Hp Hdir|r code path Hp Hdir]; simpl in *.
  - split; [by apply Hck; left|done..].
  - apply ready_spec in Hr as [Hr _]. unfold completed in *. split; [apply Hck; case_decide; by left|..];
      case_decide; simpl in *; try done. intros _. destruct Hd; done.
  - split; [apply Hck; unfold final; auto|done..].
  - split; [apply Hck; unfold final; auto|done..].
  - split; [apply Hck; unfold final; auto|try done..]. intros _. by destruct (Hpe Hp).
  - split; [apply Hck; unfold final; auto|done..].
Qed.

Lemma row_steps_ok r r' : rtc row_step r r' -> row_ok r -> row_ok r'.
Proof. induction 1; eauto using row_step_ok. Qed.

Lemma fresh_row_ok id r : fresh_row id r -> row_ok r.
Proof. intros (_ & Hs & _ & Hc). split; [done|rewrite Hs; done..]. Qed.

(** ** Lemmas: statements *)

Lemma lookup_update p u db id :
  db_transfers (update p u db) !! id = (fun r => if p r then u r else r) <$> db_transfers db !! id.
Proof. unfold update. simpl. by rewrite lookup_fmap. Qed.

#[global] Instance table_step_preorder : PreOrder table_step.
Proof.
  split.
  - intros db. split; [eauto using rtc_refl|]. intros id r' -> [=].
  - intros db1 db2 db3 [Ho1 Hn1] [Ho2 Hn2]. split.
    + intros id r (r1 & Hr1 & Hs1)%Ho1. apply Ho2 in Hr1 as (r2 & ? & ?). exists r2. split; [done|by etrans].
    + intros id r' Hid Hr'. destruct (db_transfers db2 !! id) as [r1|] eqn:E; [|by apply (Hn2 id)].
      destruct (Hn1 _ _ Hid E) as (r0 & ? & ?). destruct (Ho2 _ _ E) as (r2 & ? & ?). simplify_eq.
      exists r0. split; [done|by etrans].
Qed.

Lemma table_step_update p u db :
  transfers_ok db -> (forall r, row_ok r -> p r = true -> rtc row_step r (u r)) -> table_step db (update p u db).
Proof.
  intros Hok Hu. split.
  - intros id r Hr. rewrite lookup_update, Hr. simpl. eexists. split; [done|].
    destruct (p r) eqn:E; [|done]. apply Hu; [|done]. by eapply Hok.
  - intros id r' Hn. by rewrite lookup_update, Hn.
Qed.

Lemma table_step_ok db db' : table_step db db' -> transfers_ok db -> transfers_ok db'.
Proof.
  intros [Hold Hnew] Hok id r' Hr'. destruct (db_transfers db !! id) as [r|] eqn:Er.
  - destruct (Hold _ _ Er) as (r1 & Hr1 & Hs). rewrite Hr1 in Hr'. simplify_eq. destruct (Hok _ _ Er) as [Hid Hro].
    split; [|by eapply row_steps_ok]. by destruct (row_steps_same _ _ Hs) as [-> _].
  - destruct (Hnew _ _ Er Hr') as (r0 & Hf & Hs). pose proof (fresh_row_ok _ _ Hf).
    split; [|by eapply row_steps_ok]. destruct (row_steps_same _ _ Hs) as [-> _]. by destruct Hf.
Qed.

(** One UPDATE that moves rows by [R]; [settles] are row steps that commit no bytes. *)
Inductive update_step (R : FileTransfer -> FileTransfer -> Prop) : DB -> DB -> Prop :=
| update_rows p u db : (forall r, row_ok r -> p r = true -> R r (u r)) -> update_step R db (update p u db).

Definition settles (r r' : FileTransfer) : Prop :=
  rtc row_step r r' /\ ft_CommittedOffset r' = ft_CommittedOffset r.

#[global] Instance settles_preorder : PreOrder settles.
Proof.
  split; [done|]. intros r1 r2 r3 [H1 E1] [H2 E2]. split; [by etrans|congruence].
Qed.

Lemma settles_steps db db' : rtc (update_step settles) db db' -> rtc (update_step (rtc row_step)) db db'.
Proof.
  induction 1 as [|x y z [p u db Hu] _ IH]; [done|]. eapply rtc_l; [|done]. apply update_rows.
  intros r Hr Hp. by apply (Hu r Hr Hp).
Qed.

Lemma update_steps_table db db' : rtc (update_step (rtc row_step)) db db' -> transfers_ok db -> table_step db db'.
Proof.
  induction 1 as [|x y z [p u db Hu] _ IH]; intros Hok; [reflexivity|].
  assert (table_step db (update p u db)) as H1 by (by apply table_step_update).
  etrans; [exact H1|]. apply IH. by eapply table_step_ok.
Qed.

(** A sequence of settling updates settles every row and adds none. *)
Lemma settled_rows db db' :
  rtc (update_step settles) db db' -> transfers_ok db ->
  (forall id r, db_transfers db !! id = Some r -> exists r', db_transfers db' !! id = Some r' /\ settles r r')
  /\ (forall id r', db_transfers db' !! id = Some r' -> is_Some (db_transfers db !! id)).
Proof.
  induction 1 as [db|x y z [p u db Hu] Hs IH]; intros Hok; [split; [intros id r Hr; by exists r|by eauto]|].
  destruct IH as [IH1 IH2].
  { eapply table_step_ok; [|exact Hok]. apply table_step_update; [done|]. intros r Hr Hp. by apply (Hu r Hr Hp). }
  split.
  - intros id r Hr. destruct (IH1 id (if p r then u r else r)) as (r' & Hr' & Hs'); [by rewrite lookup_update, Hr|].
    exists r'. split; [done|]. etrans; [|done]. destruct (p r) eqn:E; [|done]. apply Hu; [|done]. by eapply Hok.
  - intros id r' [r1 Hr1]%IH2. rewrite lookup_update in Hr1. by destruct (db_transfers db !! id).
Qed.

Lemma exec_spec f p u db db' r :
  exec f p u db = (db', r) ->
  (db' = db \/ db' = update p u db) /\ (forall n, r = Ok n -> db' = update p u db /\ n = count p db).
Proof. apply commit_Ok_inv. Qed.

Lemma exec_update R f p u db db' r :
  (forall r, row_ok r -> p r = true -> R r (u r)) ->
  exec f p u db = (db', r) -> rtc (update_step R) db db'.
Proof. intros Hu [[->| ->] _]%exec_spec; [done|]. by apply rtc_once, update_rows. Qed.

Lemma settles_once r r' : row_step r r' -> ft_CommittedOffset r' = ft_CommittedOffset r -> settles r r'.
Proof. split; [by apply rtc_once|done]. Qed.

Lemma transfer_rows_insert db id r :
  db_transfers db !! id = None ->
  rows (set_transfers db (<[id := r]> (db_transfers db))) ≡ₚ r :: rows db.
Proof. intros H. unfold rows. simpl. by rewrite map_to_list_insert. Qed.

Lemma insert_transfers_spec db ts db' :
  insert_transfers db ts = Ok db' ->
  (forall id r, db_transfers db !! id = Some r -> db_transfers db' !! id = Some r)
  /\ (forall id r', db_transfers db !! id = None -> db_transfers db' !! id = Some r' ->
        exists t, t ∈ ts /\ r' = created_row t /\ ft_ID t = id /\ transfer_check r' = true)
  /\ (forall t, t ∈ ts -> db_transfers db !! ft_ID t = None /\ db_transfers db' !! ft_ID t = Some (created_row t))
  /\ rows db' ≡ₚ (created_row <$> ts) ++ rows db
  /\ db' = set_transfers db (db_transfers db').
Proof.
  revert db. induction ts as [|t ts IH]; intros db; simpl.
  { intros [= <-]. split_and!; [done| |by intros t ?%elem_of_nil|done|by destruct db]. intros id r' -> [=]. }
  destruct (malformed t); [done|]. destruct (decide _) as [|Hno]; [done|]. intros (Ho & Hn & Ht & Hr & He)%IH.
  assert (Hnone : db_transfers db !! ft_ID t = None) by (apply eq_None_not_Some; tauto).
  assert (Hck : transfer_check (created_row t) = true) by (apply not_false_iff_true; tauto).
  assert (Hself : db_transfers db' !! ft_ID t = Some (created_row t)) by (apply Ho; apply lookup_insert_eq).
  split_and!.
  - intros id r Hid. apply Ho. simpl. rewrite lookup_insert_ne; [done|]. intros <-. congruence.
  - intros id r' Hid Hr'. destruct (decide (id = ft_ID t)) as [->|Hne].
    + exists t. rewrite Hself in Hr'. simplify_eq. split_and!; [by left|done..].
    + destruct (Hn id r') as (t' & Hin & ?); [simpl; by rewrite lookup_insert_ne|done|]. exists t'. split; [by right|done].
  - intros t' [->|Hin]%elem_of_cons; [done|]. destruct (Ht _ Hin) as [H1 H2]. split; [|done].
    simpl in H1. by apply lookup_insert_None in H1 as [? _].
  - rewrite Hr, transfer_rows_insert by done. simpl. by rewrite <- Permutation_middle.
  - rewrite He at 1. done.
Qed.

Lemma insert_transfers_nodup db ts db' : insert_transfers db ts = Ok db' -> NoDup (ft_ID <$> ts).
Proof.
  revert db. induction ts as [|t ts IH]; intros db; simpl; [constructor|].
  destruct (malformed t); [done|]. destruct (decide _); [done|]. intros H. constructor; [|by eapply IH].
  intros (u & Hu & Hin)%list_elem_of_fmap. apply insert_transfers_spec in H as (_ & _ & Ht & _).
  destruct (Ht _ Hin) as [Hn _]. simpl in Hn. rewrite Hu, lookup_insert_eq in Hn. done.
Qed.

Lemma create_cases f db ts ms mb db' res :
  CreateFileTransfersWithinLimits f db ts ms mb = (db', res) ->
  (db' = db \/ insert_transfers db ts = Ok db') /\ (res = Ok tt -> insert_transfers db ts = Ok db').
Proof.
  unfold CreateFileTransfersWithinLimits. destruct (decide (len ts < 1 \/ _)); [intros [= <- <-]; by split; [left|]|].
  assert (Hstay : forall e, commit (A:=unit) f db (Err e) = (db', res) -> db' = db /\ res <> Ok tt)
    by (intros e; destruct f; intros [= <- <-]; done).
  destruct (decide _); [intros [-> ?]%Hstay; tauto|]. destruct (decide _); [intros [-> ?]%Hstay; tauto|].
  destruct (insert_transfers db ts) as [db1|e] eqn:E; [|intros [-> ?]%Hstay; tauto].
  destruct f; intros [= <- <-]; (split; [by auto|done]).
Qed.

(** Every call is a step of the table. *)
Lemma table_step_create f db ts ms mb : table_step db (CreateFileTransfersWithinLimits f db ts ms mb).1.
Proof.
  destruct (CreateFileTransfersWithinLimits f db ts ms mb) as [db' res] eqn:E. simpl.
  apply create_cases in E as [[->|E] _]; [reflexivity|]. apply insert_transfers_spec in E as (Ho & Hn & _).
  split; [eauto using rtc_refl|]. intros id r' Hid Hr'. destruct (Hn _ _ Hid Hr') as (t & _ & -> & <- & ?).
  by exists (created_row t).
Qed.

(** Every other call is a sequence of updates by row steps. *)
Ltac exec_step :=
  match goal with
  | |- context [exec ?f ?p ?u ?db] =>
      destruct (exec f p u db) as [dbx resx] eqn:Ex; simpl; eapply exec_update; [|exact Ex];
      intros r Hr; cbv beta; rewrite ?andb_true_iff, ?orb_true_iff, ?bool_decide_eq_true
  end.

Lemma commit_updates f db id expected next : rtc (update_step (rtc row_step)) db (CommitFileTransferOffset f db id expected next).1.
Proof.
  unfold CommitFileTransferOffset. destruct (decide _) as [|Hne]; [done|].
  exec_step. intros (((_ & <-) & Hu) & Hle). apply rtc_once, row_commit; [done|lia].
Qed.

(** What a commit does to the rows. *)
Lemma committed_row f db id expected next id' r' :
  db_transfers (CommitFileTransferOffset f db id expected next).1 !! id' = Some r' -> transfers_ok db ->
  exists r, db_transfers db !! id' = Some r
    /\ (r' = r \/ id' = id /\ r' = with_offset next r /\ ft_CommittedOffset r = expected /\ expected <= next).
Proof.
  unfold CommitFileTransferOffset. case_decide as Hd; [by eauto|].
  destruct (exec _ _ _ db) as [db1 res] eqn:Ex. simpl. apply exec_spec in Ex as [[->| ->] _]; [by eauto|].
  rewrite lookup_update. destruct (db_transfers db !! id') as [r|] eqn:E; [|done]. simpl. intros [= <-] Hok.
  exists r. split; [done|]. case_match eqn:Ep; [right|by left].
  rewrite !andb_true_iff, !bool_decide_eq_true in Ep. destruct Ep as [[[Hid He] _] _].
  unfold has_id in Hid. rewrite bool_decide_eq_true in Hid. destruct (Hok _ _ E) as [<- _]. split_and!; [done..|lia].
Qed.

Lemma complete_updates f f2 db id : rtc (update_step settles) db (CompleteFileTransfer f f2 db id).1.
Proof. unfold CompleteFileTransfer. exec_step. intros [_ ?]. by apply settles_once; [apply row_complete|unfold completed; simpl]. Qed.

Lemma complete_batch_updates f f2 db b : rtc (update_step settles) db (CompleteFileTransferBatch f f2 db b).1.
Proof.
  unfold CompleteFileTransferBatch.
  match goal with |- rtc _ _ (commit f db ?r).1 =>
    assert (forall db' x, r = Ok (db', x) -> rtc (update_step settles) db db') as Hr end.
  { intros db' x. destruct (decide _).
    - destruct (reading f2 _); [|done]. destruct (decide _); [|done]. by intros [= <- _].
    - destruct (decide _); [done|]. intros [= <- _]. apply rtc_once, update_rows.
      intros r Hr. rewrite andb_true_iff. intros [_ ?]. by apply settles_once; [apply row_complete|unfold completed; simpl]. }
  destruct f; simpl; [|done|];
    (match goal with |- context [match ?r with Ok _ => _ | Err _ => _ end] => destruct r as [[db' []]|] end);
    simpl; first [by eapply Hr | done].
Qed.

Lemma cancel_updates f f2 db id : rtc (update_step settles) db (CancelFileTransfer f f2 db id).1.
Proof. unfold CancelFileTransfer. exec_step. intros [_ ?]. apply settles_once; [apply row_cancel; eauto with pb|done]. Qed.

Lemma cancel_batch_updates f f2 db b : rtc (update_step settles) db (CancelFileTransferBatch f f2 db b).1.
Proof. unfold CancelFileTransferBatch. exec_step. intros [_ ?]. apply settles_once; [apply row_cancel; eauto with pb|done]. Qed.

Lemma with_receipt_id r : with_receipt (ft_State r) (ft_ResultCode r) (ft_ReceiptPath r) r = r.
Proof. by destruct r. Qed.

Lemma receipt_updates f db id client code path : rtc (update_step settles) db (ReceiptFileTransfer f db id client code path).1.
Proof.
  unfold ReceiptFileTransfer. destruct (decide (code = "")); [done|].
  exec_step. intros ((_ & _ & Hdir) & [Hp|([Hd|Hf] & Hc & Hpa)]).
  - destruct (decide (code = "stored")) as [->|]; [by apply settles_once; [apply row_stored|]|by apply settles_once; [apply row_failed|]].
  - rewrite (decide_True (P := code = "stored")) by (destruct (rok_delivered _ Hr Hd) as (_ & _ & ?); congruence).
    by rewrite <- Hd, <- Hc, <- Hpa, with_receipt_id.
  - rewrite (decide_False (P := code = "stored")) by (pose proof (rok_failed _ Hr Hf); congruence).
    by rewrite <- Hf, <- Hc, <- Hpa, with_receipt_id.
Qed.

Lemma expire_updates f db ts : rtc (update_step settles) db (ExpireFileTransfers f db ts).1.
Proof.
  unfold ExpireFileTransfers. destruct ts as [|t0 ts0]; [done|].
  generalize (t0 :: ts0). clear t0 ts0. intros ts.
  assert (rtc (update_step settles) db (expire_all db ts)) as Hstep.
  { revert db. induction ts as [|t ts IH]; intros db; [done|]. eapply rtc_l; [|apply IH].
    apply update_rows. intros r _. unfold expires, expire. rewrite !andb_true_iff.
    intros [_ He]. case_decide; (apply settles_once; [by constructor|done]). }
  destruct f; done.
Qed.

#[export] Hint Resolve commit_updates complete_updates complete_batch_updates cancel_updates cancel_batch_updates
  receipt_updates expire_updates : pb.

Lemma transfer_step_table spool batches db db' :
  transfer_step spool batches db db' -> transfers_ok db -> table_step db db'.
Proof. destruct 1; [intros _; apply table_step_create|apply update_steps_table; auto using settles_steps with pb..]. Qed.

(** ** Lemmas: the admission limits *)

Lemma row_steps_active r r' : rtc row_step r r' -> active (ft_State r') = true -> active (ft_State r) = true.
Proof.
  induction 1 as [|x y z Hs _ IH]; [done|]. intros Hz%IH. clear IH.
  destruct Hs as [r next Hu|r Hr|r He|r He|r path Hp|r code path Hp]; simpl in *; auto with pb; try done.
  apply ready_spec in Hr as [_ ?]. auto with pb.
Qed.

Section Shrink.
Context (g : FileTransfer -> FileTransfer) (l : list FileTransfer).
Hypothesis Hg : forall r, r ∈ l -> (is_active (g r) = true -> is_active r = true) /\ same_file r (g r) /\ 0 <= ft_Size r.

Lemma sizes_shrink : sizes (filter is_active (g <$> l)) <= sizes (filter is_active l).
Proof.
  induction l as [|r l' IH]; [done|]. cbn [fmap list_fmap]. rewrite !filter_cons.
  destruct (Hg r) as (Ha & (_ & _ & _ & _ & _ & _ & Hz & _) & H0); [by left|].
  assert (sizes (filter is_active (g <$> l')) <= sizes (filter is_active l')) by (apply IH; intros; apply Hg; by right).
  destruct (decide (is_active (g r))) as [H1|H1], (decide (is_active r)) as [H2|H2]; simpl; try lia.
  destruct H2. apply Is_true_true, Ha, Is_true_true, H1.
Qed.

Lemma batches_shrink :
  (list_to_set (ft_BatchID <$> filter is_active (g <$> l)) : gset string)
  ⊆ list_to_set (ft_BatchID <$> filter is_active l).
Proof.
  intros b. rewrite !elem_of_list_to_set, !list_elem_of_fmap. intros (r' & -> & Hr').
  apply list_elem_of_filter in Hr' as [Hact (r & -> & Hr)%list_elem_of_fmap].
  destruct (Hg r Hr) as (Ha & (_ & Hb & _) & _). exists r. split; [done|].
  apply list_elem_of_filter. split; [|done]. apply Is_true_true, Ha, Is_true_true, Hact.
Qed.
End Shrink.

Lemma rows_update p u db : rows (update p u db) ≡ₚ (fun r => if p r then u r else r) <$> rows db.
Proof.
  unfold rows, update. simpl. rewrite map_to_list_fmap. rewrite <- !list_fmap_compose. done.
Qed.

Lemma elem_of_rows db r : r ∈ rows db -> exists id, db_transfers db !! id = Some r.
Proof. unfold rows. intros ([id r'] & -> & H%elem_of_map_to_list)%list_elem_of_fmap. eauto. Qed.

#[global] Instance sizes_proper : Proper ((≡ₚ) ==> (=)) sizes.
Proof. intros l1 l2 H. unfold sizes. induction H; simpl in *; lia. Qed.

Lemma sizes_app l1 l2 : sizes (l1 ++ l2) = sizes l1 + sizes l2.
Proof. unfold sizes. induction l1; simpl in *; lia. Qed.

Lemma spooled_perm db l : rows db ≡ₚ l -> spooled db = sizes (filter is_active l).
Proof. intros H. unfold spooled. by rewrite H. Qed.

Lemma active_batches_perm db l :
  rows db ≡ₚ l -> active_batches db = list_to_set (ft_BatchID <$> filter is_active l).
Proof. intros H. unfold active_batches. apply set_eq. intros b. rewrite !elem_of_list_to_set. by rewrite H. Qed.

Lemma update_steps_limits db db' :
  rtc (update_step (rtc row_step)) db db' -> transfers_ok db -> spooled db' <= spooled db /\ active_batches db' ⊆ active_batches db.
Proof.
  induction 1 as [|x y z [p u db Hu] _ IH]; intros Hok; [done|].
  destruct IH as [IH1 IH2]; [eapply table_step_ok; [by apply table_step_update|done]|].
  rewrite (spooled_perm _ _ (rows_update p u db)) in IH1.
  rewrite (active_batches_perm _ _ (rows_update p u db)) in IH2.
  assert (Hg : forall r, r ∈ rows db -> let g := fun r => if p r then u r else r in
    (is_active (g r) = true -> is_active r = true) /\ same_file r (g r) /\ 0 <= ft_Size r).
  { intros r (id & Hid)%elem_of_rows g. destruct (Hok _ _ Hid) as [_ Hr].
    assert (rtc row_step r (g r)) as Hs by (unfold g; destruct (p r) eqn:E; [by apply Hu|done]).
    split_and!; [by apply row_steps_active|by apply row_steps_same|]. apply rok_check, check_parts in Hr. lia. }
  split; [etrans; [exact IH1|by apply sizes_shrink]|etrans; [exact IH2|by apply batches_shrink]].
Qed.

(** Without overflow the sum of the sizes is what Go computes. *)
Lemma incoming_sizes ts :
  len ts <= 10 -> (forall t, t ∈ ts -> 0 <= ft_Size t <= 52428800) -> incoming ts = sizes ts.
Proof.
  intros Hl Hb. unfold incoming. cut (forall n, 0 <= n <= (10 - len ts) * 52428800 ->
    foldl (fun n t => i64 (n + ft_Size t)) n ts = n + sizes ts); [intros H; rewrite H; lia|].
  revert Hl Hb. induction ts as [|t ts IH]; intros Hl Hb n Hn; [simpl; lia|].
  cbn [foldl sizes foldr length] in *. fold (sizes ts). assert (0 <= ft_Size t <= 52428800) by (apply Hb; by left).
  assert (i64 (n + ft_Size t) = n + ft_Size t) as -> by (unfold i64, two63, two64; rewrite Z.mod_small; lia).
  rewrite IH; [lia|lia|intros t' ?; apply Hb; by right|lia].
Qed.

Lemma filter_created (ts : list FileTransfer) : filter is_active (created_row <$> ts) = created_row <$> ts.
Proof. induction ts as [|t ts IH]; [done|]. cbn [fmap list_fmap]. rewrite filter_cons_True by done. by f_equal. Qed.

Lemma sizes_created (ts : list FileTransfer) : sizes (created_row <$> ts) = sizes ts.
Proof. unfold sizes. induction ts as [|t ts IH]; [done|]. rewrite fmap_cons. simpl. by rewrite IH. Qed.

Lemma sizes_range ts : (forall t, t ∈ ts -> 0 <= ft_Size t <= 52428800) -> 0 <= sizes ts <= len ts * 52428800.
Proof.
  intros H. induction ts as [|t ts IH]; [done|]. cbn [sizes foldr length]. fold (sizes ts).
  assert (0 <= ft_Size t <= 52428800) by (apply H; by left).
  assert (0 <= sizes ts <= len ts * 52428800) by (apply IH; intros; apply H; by right). lia.
Qed.

Lemma insert_limits db ts batch ms mb db' :
  insert_transfers db ts = Ok db' -> len ts <= 10 -> (forall t, t ∈ ts -> ft_BatchID t = batch) ->
  0 < ms < two63 -> ~ (incoming ts < 0 \/ i64 (ms - incoming ts) < spooled db) ->
  Z.of_nat (size (active_batches db)) < mb ->
  spooled db' <= ms /\ Z.of_nat (size (active_batches db')) <= mb.
Proof.
  intros E Hl Hb Hms Hs Ha. destruct (insert_transfers_spec _ _ _ E) as (_ & Hn & Ht & Hr & _). split.
  - rewrite (spooled_perm _ _ Hr), filter_app, sizes_app, filter_created, sizes_created. fold (spooled db).
    assert (Hck : forall t, t ∈ ts -> 0 <= ft_Size t <= 52428800).
    { intros t Hin. destruct (Ht t Hin) as [H1 H2]. destruct (Hn _ _ H1 H2) as (t' & _ & Et & _ & Hc).
      apply check_parts in Hc. simpl in Hc. lia. }
    rewrite incoming_sizes in Hs by (done || lia). pose proof (sizes_range ts Hck).
    assert (i64 (ms - sizes ts) = ms - sizes ts) as Hi by (unfold i64, two63, two64 in *; rewrite Z.mod_small; lia).
    lia.
  - rewrite (active_batches_perm _ _ Hr), filter_app, filter_created.
    etrans; [|apply Z.le_succ_l, Ha]. unfold Z.succ.
    assert (size (list_to_set (ft_BatchID <$> (created_row <$> ts) ++ filter is_active (rows db)) : gset string)
            <= size ({[batch]} ∪ active_batches db))%nat as H1.
    { apply subseteq_size. intros b. rewrite elem_of_list_to_set, fmap_app, elem_of_app.
      intros [(r & -> & (t & -> & Hin)%list_elem_of_fmap)%list_elem_of_fmap|H].
      - simpl. rewrite (Hb _ Hin). by apply elem_of_union_l, elem_of_singleton_2.
      - apply elem_of_union. right. by apply elem_of_list_to_set. }
    pose proof (size_union_alt ({[batch]} : gset string) (active_batches db)) as H2.
    assert (size (active_batches db ∖ {[batch]}) <= size (active_batches db))%nat by apply subseteq_size, subseteq_difference_l, reflexivity.
    rewrite size_singleton in H2. lia.
Qed.

Lemma create_limits f db ts ms mb batch db' :
  0 < ms < two63 -> 0 < mb -> (forall t, t ∈ ts -> ft_BatchID t = batch) ->
  db' = (CreateFileTransfersWithinLimits f db ts ms mb).1 ->
  db' = db \/ spooled db' <= ms /\ Z.of_nat (size (active_batches db')) <= mb.
Proof.
  intros Hms Hmb Hb ->. unfold CreateFileTransfersWithinLimits. destruct (decide (len ts < 1 \/ _)) as [|Hl]; [by left|].
  assert (Hstay : forall e, (commit (A:=unit) f db (Err e)).1 = db) by (intros e; by destruct f).
  destruct (decide _) as [|Ha]; [rewrite Hstay; by left|]. destruct (decide _) as [|Hs]; [rewrite Hstay; by left|].
  destruct (insert_transfers db ts) as [db1|e] eqn:E; [|rewrite Hstay; by left].
  assert (spooled db1 <= ms /\ Z.of_nat (size (active_batches db1)) <= mb) as Hlim by (apply (insert_limits db ts batch); tauto || lia).
  destruct f; [by right|by left|by right].
Qed.

(** ** Theorems *)

Lemma transfer_steps_table spool batches db db' :
  rtc (transfer_step spool batches) db db' -> transfers_ok db -> table_step db db'.
Proof.
  induction 1 as [|x y z Hs _ IH]; intros Hok; [reflexivity|].
  assert (table_step x y) as Hxy by (by eapply transfer_step_table).
  etrans; [exact Hxy|]. apply IH. by eapply table_step_ok.
Qed.

Lemma finished_committed r : row_ok r -> finished (ft_State r) = true -> ft_CommittedOffset r = ft_Size r.
Proof.
  intros Hr. unfold finished. rewrite bool_decide_eq_true. intros [H|[H|H]].
  - by apply rok_published in H as [_ ?].
  - by apply rok_pending in H as [_ ?].
  - by apply rok_delivered in H as (_ & ? & _).
Qed.

(** The life of a transfer.  Whatever calls are made on the table of transfers, in
    any order, with any arguments and any database failures, a row that exists keeps
    existing under its identifier with the same batch, direction, session, client, name,
    size, digest and deadline; its committed offset never shrinks and never passes the
    size; a row that is published, pending or delivered has all its bytes committed; and
    a delivered, failed or canceled row never changes again. *)
Theorem transfer_life (spool batches : Z) (db db' : DB) :
  transfers_ok db -> rtc (transfer_step spool batches) db db' ->
  transfers_ok db'
  /\ forall id r, db_transfers db !! id = Some r ->
     exists r', db_transfers db' !! id = Some r' /\ same_file r r'
       /\ ft_CommittedOffset r <= ft_CommittedOffset r' <= ft_Size r
       /\ (finished (ft_State r') = true -> ft_CommittedOffset r' = ft_Size r)
       /\ (final (ft_State r) -> r' = r).
Proof.
  intros Hok Hs. pose proof (transfer_steps_table _ _ _ _ Hs Hok) as Ht.
  pose proof (table_step_ok _ _ Ht Hok) as Hok'. split; [done|]. intros id r Hr.
  destruct (proj1 Ht _ _ Hr) as (r' & Hr' & Hrr). exists r'. pose proof (row_steps_same _ _ Hrr) as Hsame.
  destruct (Hok _ _ Hr) as [_ Hro]. destruct (Hok' _ _ Hr') as [_ Hro'].
  assert (ft_Size r' = ft_Size r) as <- by apply Hsame.
  split_and!; [done|done|..].
  - apply rok_check, check_parts in Hro. eapply row_steps_offset; [done|lia].
  - eapply row_steps_offset; [done|]. apply rok_check, check_parts in Hro. lia.
  - by apply finished_committed.
  - by apply row_steps_final.
Qed.

Lemma empty_transfers_ok : transfers_ok empty_DB.
Proof. intros id r [=]. Qed.

(** The admission limits hold at all times: if every creation names one batch and is
    made with a spool limit of at most [spool] bytes and a limit of at most [batches]
    active batches, then in every database reachable from an empty one the transfers that
    are not finished together declare at most [spool] bytes and belong to at most
    [batches] batches, whatever other calls and failures happen. *)
Theorem transfer_limits (spool batches : Z) (db : DB) :
  0 <= spool -> 0 <= batches -> rtc (transfer_step spool batches) empty_DB db ->
  spooled db <= spool /\ Z.of_nat (size (active_batches db)) <= batches.
Proof.
  intros H1 H2 H3. cut (transfers_ok db /\ spooled db <= spool /\ Z.of_nat (size (active_batches db)) <= batches); [tauto|].
  revert db H3. apply rtc_ind_r; [split; [apply empty_transfers_ok|done]|]. intros x db Hx Hs (Hok & IHs & IHb).
  pose proof (table_step_ok _ _ (transfer_step_table _ _ _ _ Hs Hok) Hok) as Hok'. split; [done|].
  assert (Hupd : rtc (update_step (rtc row_step)) x db -> spooled db <= spool /\ Z.of_nat (size (active_batches db)) <= batches).
  { intros Hu. destruct (update_steps_limits _ _ Hu Hok) as [Hsp Hba]. apply subseteq_size in Hba. lia. }
  destruct Hs as [f y ts ms mb batch Hms Hms' Hmb Hb| | | | | | |]; [|apply Hupd; auto using settles_steps with pb..].
  destruct (create_limits f y ts ms mb batch _ ltac:(lia) ltac:(lia) Hb eq_refl) as [->|]; lia.
Qed.

(** A batch of two files, both uploaded. *)
Definition demo_digest : string := "0123456789abcdef0123456789abcdef0123456789abcdef0123456789abcdef".
Definition demo_transfer (id : string) (direction : string) (size : Z) : FileTransfer :=
  mkTransfer id "b" direction "s" "c" "f.txt" size demo_digest 0 "created" "" "" 1 9.
Definition demo_created : DB :=
  (CreateFileTransfersWithinLimits FNone empty_DB
     [demo_transfer "t1" "pb_to_pbh" 3; demo_transfer "t2" "pb_to_pbh" 0] 100 2).1.
Definition demo_uploaded : DB := (CommitFileTransferOffset FNone demo_created "t1" 0 3).1.

Lemma demo_created_steps : rtc (transfer_step 100 2) empty_DB demo_created.
Proof.
  apply rtc_once. apply (ts_create 100 2 FNone empty_DB _ 100 2 "b"); [lia|unfold two63; lia|lia|].
  intros t [->|[->|[]%elem_of_nil]%elem_of_cons]%elem_of_cons; done.
Qed.

Lemma demo_created_ok : transfers_ok demo_created.
Proof. eapply table_step_ok; [|apply empty_transfers_ok]. eapply transfer_steps_table, empty_transfers_ok. apply demo_created_steps. Qed.

Lemma transfer_life_witness :
  transfers_ok demo_created /\ rtc (transfer_step 100 2) demo_created demo_uploaded
  /\ exists r', db_transfers demo_uploaded !! "t1" = Some r' /\ ft_CommittedOffset r' = 3.
Proof.
  pose proof demo_created_ok as H1.
  assert (rtc (transfer_step 100 2) demo_created demo_uploaded) as H2 by apply rtc_once, ts_commit.
  split_and!; [done|done|].
  destruct (transfer_life 100 2 demo_created demo_uploaded H1 H2) as [_ Hlife].
  destruct (Hlife "t1" (demo_transfer "t1" "pb_to_pbh" 3)) as (r' & Hr' & _); [reflexivity|].
  exists r'. split; [exact Hr'|]. vm_compute in Hr'. injection Hr' as <-. reflexivity.
Defined.

Lemma transfer_limits_witness :
  spooled demo_created = 3 /\ spooled demo_created <= 100 /\ Z.of_nat (size (active_batches demo_created)) <= 2.
Proof. split; [reflexivity|]. apply (transfer_limits 100 2 demo_created); [lia|lia|exact demo_created_steps]. Defined.

(** Completing a batch that has no rows is not refused. *)
Example complete_unknown_batch b :
  CompleteFileTransferBatch FNone FNone empty_DB b = (empty_DB, Ok tt).
Proof. reflexivity. Qed.
