(* ===== verification/FileTransfer.v ===== *)
(** * File transfers ([internal/filetransfer/service.go])

    Batches of files are uploaded in pieces into partial files, verified, renamed into
    place and marked in the database; a file for the other direction is delivered and
    acknowledged by a receipt.  The state [world] holds the database, the directory of the
    service with its inodes (hard links share one), the cancellation signals and the
    slots; it also carries the outcomes of the next system and database calls, so that
    every call can fail, before or after it took effect.  Operations are programs in a
    state monad that follow the code call by call.

    [Append] and [Complete] are split where other calls can interleave: an append keeps its
    file handle while its body arrives, and a completion verifies before it renames.
    The value that Go returns beside an error is ignored by all callers and not modelled. *)

From Stdlib Require String Ascii.
From S2P Require Import Prelude Config Buffers History Input Store StoreOperations StoreTransfers Frame.

(** ** Policy *)

Definition MaxFileBytes : Z := Z.shiftl 50 20.
Definition MaxBatchBytes : Z := Z.shiftl 500 20.
Definition MaxBatchFiles : Z := 10.
Definition Retention : Z := 7 * 24 * 60 * minute.

Record Policy := mkPolicy {
  po_Revision : string;
  po_MaxFileBytes : Z;
  po_MaxBatchFiles : Z;
  po_MaxBatchBytes : Z;
  po_MaxConcurrentTransfers : Z;
  po_RetentionSeconds : Z;
  po_DeliveryTimeoutSeconds : Z;
  po_MaxPendingSpoolBytes : Z
}.

Definition DefaultPolicy : Policy :=
  mkPolicy "file-transfer-v1" MaxFileBytes MaxBatchFiles MaxBatchBytes 2 (Retention / second) 600 (Z.shiftl 1 30).

Definition Valid (p : Policy) : bool :=
  bool_decide (po_Revision p <> "" /\ 0 < po_MaxFileBytes p /\ po_MaxFileBytes p <= MaxFileBytes
    /\ 0 < po_MaxBatchFiles p /\ po_MaxBatchFiles p <= MaxBatchFiles
    /\ po_MaxFileBytes p <= po_MaxBatchBytes p /\ po_MaxBatchBytes p <= MaxBatchBytes
    /\ 0 < po_MaxConcurrentTransfers p /\ po_MaxConcurrentTransfers p <= 2
    /\ 0 < po_RetentionSeconds p /\ 0 < po_DeliveryTimeoutSeconds p
    /\ po_MaxBatchBytes p <= po_MaxPendingSpoolBytes p).

Definition NewPolicyStore (p : Policy) : Policy := if Valid p then p else DefaultPolicy.

(** ** Errors and requests *)

Inductive Code :=
| InvalidPath | InvalidSize | BatchLimit | OffsetConflict | DigestMismatch | StorageUnavailable
| ResourceLimit | Canceled | DeliveryTimeout.

Inductive errno := ENOENT | EEXIST | EIO.

Inductive ferror :=
| FError (c : Code)
| FStore (e : store_error)
| FSystem (e : errno)
| FContext                     (* the error of a context that is done *)
| FJoin (e1 e2 : ferror).      (* errors.Join *)

#[global] Instance errno_eq_dec : EqDecision errno.
Proof. solve_decision. Defined.
#[global] Instance Code_eq_dec : EqDecision Code.
Proof. solve_decision. Defined.

Record File := mkFile { fl_Basename : string; fl_Size : Z; fl_SHA256 : string }.

Record CreateRequest := mkCreate {
  cr_BatchID : string;
  cr_Direction : string;
  cr_SessionID : string;
  cr_ClientID : string;
  cr_Files : list File
}.

(** ** The state of a service *)

Record world := mkWorld {
  w_db : DB;
  w_dir : gmap string nat;          (* names under the root directory, with their inodes *)
  w_data : gmap nat (list byte);    (* the contents of the inodes *)
  w_next : nat;                     (* the next inode *)
  w_policy : Policy;
  w_active : Z;                     (* slots in use *)
  w_cancels : gmap string nat;      (* the map [cancels]: a cancellation object per transfer *)
  w_closed : gset nat;              (* the cancellation objects whose channel is closed *)
  w_signals : nat;                  (* the next cancellation object *)
  w_faults : list fault             (* what the next calls meet; nothing when it is empty *)
}.

Definition M (A : Type) : Type := world -> world * A.

#[global] Instance M_ret : MRet M := fun A a w => (w, a).
#[global] Instance M_bind : MBind M := fun A B k m w => let '(w1, a) := m w in k a w1.

(** [if err != nil { return err' }] in the monad. *)
Notation "'let!' p := m 'fails' e => h 'in' k" :=
  (mbind (M := M) (fun r => match r with Ok p => k | Err e => mret (M := M) (Err h) end) m)
  (at level 10, p pattern, m at level 200, e name, h at level 200, k at level 200) : res_scope.

Definition action {A} (f : world -> world * A) : M A := f.
Definition get {A} (f : world -> A) : M A := fun w => (w, f w).

Definition set_db (db : DB) (w : world) : world :=
  mkWorld db (w_dir w) (w_data w) (w_next w) (w_policy w) (w_active w) (w_cancels w) (w_closed w) (w_signals w) (w_faults w).
Definition set_files (dir : gmap string nat) (data : gmap nat (list byte)) (next : nat) (w : world) : world :=
  mkWorld (w_db w) dir data next (w_policy w) (w_active w) (w_cancels w) (w_closed w) (w_signals w) (w_faults w).
Definition set_policy (p : Policy) (w : world) : world :=
  mkWorld (w_db w) (w_dir w) (w_data w) (w_next w) p (w_active w) (w_cancels w) (w_closed w) (w_signals w) (w_faults w).
Definition set_active (n : Z) (w : world) : world :=
  mkWorld (w_db w) (w_dir w) (w_data w) (w_next w) (w_policy w) n (w_cancels w) (w_closed w) (w_signals w) (w_faults w).
Definition set_signals (c : gmap string nat) (closed : gset nat) (next : nat) (w : world) : world :=
  mkWorld (w_db w) (w_dir w) (w_data w) (w_next w) (w_policy w) (w_active w) c closed next (w_faults w).
Definition set_faults (l : list fault) (w : world) : world :=
  mkWorld (w_db w) (w_dir w) (w_data w) (w_next w) (w_policy w) (w_active w) (w_cancels w) (w_closed w) (w_signals w) l.

(** The outcome of the next call. *)
Definition next_fault : M fault :=
  fun w => match w_faults w with [] => (w, FNone) | f :: l => (set_faults l w, f) end.

(** ** System calls *)

(** A call that may fail before or after its effect. *)
Definition syscall {A} (act : M (result errno A)) : M (result errno A) :=
  f ← next_fault;
  match f with
  | FNone => act
  | FBeforeCommit => mret (Err EIO)
  | FAfterCommit => _ ← act; mret (Err EIO)
  end.

(** [O_CREATE|O_EXCL]. *)
Definition create_excl (name : string) : M (result errno unit) := syscall (fun w =>
  match w_dir w !! name with
  | Some _ => (w, Err EEXIST)
  | None => (set_files (<[name := w_next w]> (w_dir w)) (<[w_next w := []]> (w_data w)) (S (w_next w)) w, Ok tt)
  end).

Definition os_Open (name : string) : M (result errno nat) := syscall (fun w =>
  match w_dir w !! name with Some ino => (w, Ok ino) | None => (w, Err ENOENT) end).

Definition os_Remove (name : string) : M (result errno unit) := syscall (fun w =>
  match w_dir w !! name with
  | Some _ => (set_files (delete name (w_dir w)) (w_data w) (w_next w) w, Ok tt)
  | None => (w, Err ENOENT)
  end).

Definition os_Rename (from to : string) : M (result errno unit) := syscall (fun w =>
  match w_dir w !! from with
  | Some ino => (set_files (<[to := ino]> (delete from (w_dir w))) (w_data w) (w_next w) w, Ok tt)
  | None => (w, Err ENOENT)
  end).

Definition os_Link (from to : string) : M (result errno unit) := syscall (fun w =>
  match w_dir w !! from, w_dir w !! to with
  | None, _ => (w, Err ENOENT)
  | Some _, Some _ => (w, Err EEXIST)
  | Some ino, None => (set_files (<[to := ino]> (w_dir w)) (w_data w) (w_next w) w, Ok tt)
  end).

(** [File.Truncate] pads with zeros. *)
Definition resize (n : Z) (d : list byte) : list byte :=
  take (Z.to_nat n) d ++ replicate (Z.to_nat n - length d)%nat x00.

Definition contents (w : world) (ino : nat) : list byte := default [] (w_data w !! ino).

Definition file_Truncate (ino : nat) (n : Z) : M (result errno unit) := syscall (fun w =>
  (set_files (w_dir w) (<[ino := resize n (contents w ino)]> (w_data w)) (w_next w) w, Ok tt)).

(** A write of the whole of [bs] at [pos]. *)
Definition file_Write (ino : nat) (pos : Z) (bs : list byte) : M (result errno unit) := syscall (fun w =>
  let d := contents w ino in
  (set_files (w_dir w) (<[ino := resize pos d ++ bs ++ drop (Z.to_nat pos + length bs) d]> (w_data w)) (w_next w) w, Ok tt)).

(** Everything a reader of the open file sees. *)
Definition file_Read (ino : nat) : M (result errno (list byte)) := syscall (fun w => (w, Ok (contents w ino))).

(** [File.Close], [File.Sync], [File.Seek] and [syncDir] can only fail. *)
Definition quiet : M (result errno unit) := syscall (mret (Ok tt)).
Definition syncDir : M (result errno unit) := quiet.

(** ** Database calls *)

Definition db_call {A} (call : fault -> DB -> DB * result store_error A) : M (result store_error A) :=
  f ← next_fault; action (fun w => let '(db, r) := call f (w_db w) in (set_db db w, r)).
Definition db_call2 {A} (call : fault -> fault -> DB -> DB * result store_error A) : M (result store_error A) :=
  f ← next_fault; f2 ← next_fault; action (fun w => let '(db, r) := call f f2 (w_db w) in (set_db db w, r)).
Definition db_read {A} (query : fault -> DB -> result store_error A) : M (result store_error A) :=
  f ← next_fault; get (fun w => query f (w_db w)).

Definition read_transfer (id : string) : M (result store_error FileTransfer) :=
  db_read (fun f db => reading f (GetFileTransfer db id)).
Definition read_batch (batchID : string) : M (result store_error (list FileTransfer)) :=
  db_read (fun f db => FileTransfersByBatch f db batchID).

(** ** Names *)

Definition partialPath (id : string) : string := id +:+ ".part".
Definition contentPath (id : string) : string := id +:+ ".content".
Definition publishedPath (t : FileTransfer) : string := ft_ID t +:+ "-" +:+ ft_Basename t.

(** [newID]: 16 bytes of the random source. *)
Definition newID (prefix : string) (random : list byte) : result ferror (string * list byte) :=
  if decide (len random < 16) then Err (FError StorageUnavailable)
  else Ok (prefix +:+ hex_EncodeToString (take 16 random), drop 16 random).

Definition is_hex (a : ascii) : bool := between a 48 57 || between a 97 102 || between a 65 70.

(** 64 characters, unchanged by [strings.ToLower], that [hex.DecodeString] accepts. *)
Definition validDigest (value : string) : bool :=
  bool_decide (String.length value = 64%nat)
  && forallb (fun a => negb (between a 65 90) && is_hex a) (String.list_ascii_of_string value).

(** [filepath.Base] on Unix: without trailing slashes, what follows the last slash. *)
Fixpoint drop_slashes (l : list ascii) : list ascii :=
  match l with "/"%char :: l' => drop_slashes l' | _ => l end.
Fixpoint until_slash (l : list ascii) : list ascii :=
  match l with [] => [] | "/"%char :: _ => [] | a :: l' => a :: until_slash l' end.
Definition filepath_Base (value : string) : string :=
  if decide (value = "") then "."
  else match reverse (until_slash (drop_slashes (reverse (String.list_ascii_of_string value)))) with
       | [] => "/"
       | base => String.string_of_list_ascii base
       end.

Definition validBasename (value : string) : bool :=
  bool_decide (value <> "") && utf8_Valid (String.list_byte_of_string value) && bool_decide (slen value <= 255)
  && bool_decide (value = filepath_Base value) && bool_decide (value <> "." /\ value <> "..")
  && forallb (fun a => negb (bool_decide (a = "/"%char \/ a = ascii_of_nat 92 \/ a = ascii_of_nat 0)))
       (String.list_ascii_of_string value).

(** ** Cancellation signals *)

(** [LoadOrStore] of a new object. *)
Definition cancelSignal (id : string) : M nat := fun w =>
  match w_cancels w !! id with
  | Some c => (w, c)
  | None => (set_signals (<[id := w_signals w]> (w_cancels w)) (w_closed w) (S (w_signals w)) w, w_signals w)
  end.

Definition signalCancel (id : string) : M unit :=
  c ← cancelSignal id; action (fun w => (set_signals (w_cancels w) ({[c]} ∪ w_closed w) (w_signals w) w, tt)).

Definition cancels_Delete (id : string) : M unit := fun w =>
  (set_signals (delete id (w_cancels w)) (w_closed w) (w_signals w) w, tt).

(** ** Loops *)

Fixpoint for_each {A} (l : list A) (body : A -> M unit) : M unit :=
  match l with [] => mret tt | x :: l' => _ ← body x; for_each l' body end.

(** A loop that returns at the first error. *)
Fixpoint for_each_or {A} (l : list A) (body : A -> M (result ferror unit)) : M (result ferror unit) :=
  match l with
  | [] => mret (Ok tt)
  | x :: l' => let! _ := body x fails e => e in for_each_or l' body
  end.

(** ** Creation *)

Definition deadline (p : Policy) (direction : string) (now : time) : time :=
  if decide (direction = "pbh_to_pb") then now + i64 (po_DeliveryTimeoutSeconds p * second)
  else now + i64 (po_RetentionSeconds p * second).

(** The loop over the files of a request. *)
Fixpoint new_transfers (p : Policy) (r : CreateRequest) (now : time) (random : list byte) (total : Z)
    (files : list File) : result ferror (list FileTransfer) :=
  match files with
  | [] => Ok []
  | f :: files' =>
      if negb (validBasename (fl_Basename f)) then Err (FError InvalidPath)
      else if decide (fl_Size f < 0 \/ po_MaxFileBytes p < fl_Size f) then Err (FError InvalidSize)
      else if negb (validDigest (fl_SHA256 f)) then Err (FError DigestMismatch)
      else
        let total' := i64 (total + fl_Size f) in
        if decide (po_MaxBatchBytes p < total') then Err (FError BatchLimit)
        else
          let? (id, random') := newID "ft_" random in
          let t := mkTransfer id (cr_BatchID r) (cr_Direction r) (cr_SessionID r) (cr_ClientID r) (fl_Basename f)
                     (fl_Size f) (fl_SHA256 f) 0 "created" "" "" now (deadline p (cr_Direction r) now) in
          let? rest := new_transfers p r now random' total' files' in
          Ok (t :: rest)
  end.

(** [errors.Join] of two errors, and of an error that is not [ENOENT]. *)
Definition join (a b : option ferror) : option ferror :=
  match a, b with
  | None, e | e, None => e
  | Some e1, Some e2 => Some (FJoin e1 e2)
  end.
Definition unless_missing (r : result errno unit) : option ferror :=
  match r with Ok _ | Err ENOENT => None | Err e => Some (FSystem e) end.
Definition error_of {E} (wrap : E -> ferror) {A} (r : result E A) : option ferror :=
  match r with Ok _ => None | Err e => Some (wrap e) end.

(** The removals of [cancelBatchLocked] for one transfer. *)
Definition remove_files (t : FileTransfer) (result : option ferror) : M (option ferror) :=
  r1 ← os_Remove (partialPath (ft_ID t));
  r2 ← os_Remove (contentPath (ft_ID t));
  r3 ← os_Remove (publishedPath t);
  _ ← cancels_Delete (ft_ID t);
  mret (join (join (join result (unless_missing r1)) (unless_missing r2)) (unless_missing r3)).

Fixpoint remove_all (l : list FileTransfer) (result : option ferror) : M (option ferror) :=
  match l with [] => mret result | t :: l' => r ← remove_files t result; remove_all l' r end.

Definition cancelBatchLocked (transfers : list FileTransfer) : M (option ferror) :=
  _ ← for_each transfers (fun t => signalCancel (ft_ID t));
  result ← match transfers with
           | [] => mret None
           | t :: _ =>
               r ← db_call2 (fun f f2 db => CancelFileTransferBatch f f2 db (ft_BatchID t));
               mret (error_of FStore r)
           end;
  result ← remove_all transfers result;
  s ← syncDir;
  mret (join result (error_of FSystem s)).

Definition cancelBatch (transfers : list FileTransfer) : M (option ferror) :=
  match transfers with [] => mret None | _ => cancelBatchLocked transfers end.

(** The partial file of one transfer. *)
Definition create_partial (t : FileTransfer) : M (result ferror unit) :=
  _ ← cancelSignal (ft_ID t);
  let! _ := create_excl (partialPath (ft_ID t)) fails e => FSystem e in
  let! _ := quiet fails e => FSystem e in
  mret (Ok tt).

Definition Create (now : time) (random : list byte) (r : CreateRequest) : M (result ferror (list FileTransfer)) :=
  p ← get w_policy;
  if decide (cr_BatchID r = "" \/ cr_SessionID r = "" \/ cr_ClientID r = ""
             \/ cr_Direction r <> "pb_to_pbh" /\ cr_Direction r <> "pbh_to_pb")
  then mret (Err (FError InvalidPath))
  else if decide (len (cr_Files r) < 1 \/ po_MaxBatchFiles p < len (cr_Files r)) then mret (Err (FError BatchLimit))
  else
    match new_transfers p r now random 0 (cr_Files r) with
    | Err e => mret (Err e)
    | Ok transfers =>
        let! _ := db_call (fun f db => CreateFileTransfersWithinLimits f db transfers (po_MaxPendingSpoolBytes p)
                                         (po_MaxConcurrentTransfers p))
          fails e => FError (if decide (e = ErrConflict) then ResourceLimit else StorageUnavailable) in
        created ← for_each_or transfers create_partial;
        synced ← match created with
                 | Err _ => mret (Err EIO)
                 | Ok _ => syncDir
                 end;
        match synced with
        | Err _ => _ ← cancelBatch transfers; mret (Err (FError StorageUnavailable))
        | Ok _ => mret (Ok transfers)
        end
    end.

(** ** Expiry *)

Definition CleanupExpired (now : time) : M (result ferror unit) :=
  let! transfers := db_read (fun f db => ExpiredFileTransfers f db now) fails e => FStore e in
  _ ← for_each transfers (fun t =>
        _ ← os_Remove (partialPath (ft_ID t));
        _ ← os_Remove (contentPath (ft_ID t));
        _ ← os_Remove (publishedPath t);
        cancels_Delete (ft_ID t));
  let! _ := db_call (fun f db => ExpireFileTransfers f db transfers) fails e => FStore e in
  mret (Ok tt).

(** ** Uploading *)

(** One attempt of [acquire]; [false] waits and tries again. *)
Definition acquire : M bool := fun w =>
  if decide (w_active w < po_MaxConcurrentTransfers (w_policy w)) then (set_active (w_active w + 1) w, true) else (w, false).
Definition release : M unit := fun w => (set_active (w_active w - 1) w, tt).

(** An append whose body is arriving: the row it read, its open file, the bytes written and
    the cancellation object it watches. *)
Record appending := mkAppending {
  ap_transfer : FileTransfer;
  ap_ino : nat;
  ap_written : Z;
  ap_signal : nat
}.

Definition ap_offset (a : appending) : Z := ft_CommittedOffset (ap_transfer a).
Definition ap_remaining (a : appending) : Z := ft_Size (ap_transfer a) - ap_offset a.

(** [Append] up to the copy. *)
Definition Append_begin (id : string) (offset : Z) : M (result ferror appending) :=
  let! t := read_transfer id fails _ => FError InvalidPath in
  if decide (ft_State t = "canceled") then mret (Err (FError Canceled))
  else if decide (offset <> ft_CommittedOffset t) then mret (Err (FError OffsetConflict))
  else
    let! ino := os_Open (partialPath id) fails _ => FError StorageUnavailable in
    let! _ := file_Truncate ino offset fails _ => FError StorageUnavailable in
    let! _ := quiet fails _ => FError StorageUnavailable in
    c ← cancelSignal id;
    mret (Ok (mkAppending t ino 0 c)).

(** [Append] after the copy has reached the end of the body or the limit. *)
Definition Append_end (a : appending) : M (result ferror FileTransfer) :=
  if decide (ap_remaining a < ap_written a) then
    _ ← file_Truncate (ap_ino a) (ap_offset a); mret (Err (FError InvalidSize))
  else
    let! _ := quiet fails _ => FError StorageUnavailable in
    let! _ := db_call (fun f db => CommitFileTransferOffset f db (ft_ID (ap_transfer a)) (ap_offset a)
                                     (ap_offset a + ap_written a)) fails _ => FError OffsetConflict in
    mret (Ok (with_offset (ap_offset a + ap_written a) (ap_transfer a))).

(** What one read of the request body gives: bytes, the end, an error, which may be the one
    of a context, or bytes together with an error.  (Bytes together with the end are [BData]
    and then [BEnd].) *)
Inductive body_event := BData (bs : list byte) | BEnd | BError (context : bool) | BLast (bs : list byte) (context : bool).

(** [classifyIO] of an error of the body. *)
Definition classifyIO (context : bool) : ferror := if context then FContext else FError StorageUnavailable.

(** One round of [io.Copy] through [LimitReader] and [contextReader]: [inl] goes on. *)
Definition Append_read (ctx_done : bool) (ev : body_event) (a : appending)
    : M (appending + result ferror FileTransfer) :=
  let limit := ap_remaining a + 1 - ap_written a in
  if decide (limit <= 0) then r ← Append_end a; mret (inr r)
  else if ctx_done then mret (inr (Err FContext))
  else
    closed ← get (fun w => bool_decide (ap_signal a ∈ w_closed w));
    if closed : bool then mret (inr (Err (FError Canceled)))
    else match ev with
    | BEnd => r ← Append_end a; mret (inr r)
    | BError context => mret (inr (Err (classifyIO context)))
    | BLast bs context =>
        r ← file_Write (ap_ino a) (ap_offset a + ap_written a) (take (Z.to_nat limit) bs);
        mret (inr (Err (match r with Ok _ => classifyIO context | Err _ => FError StorageUnavailable end)))
    | BData bs =>
        let bs' := take (Z.to_nat limit) bs in
        r ← file_Write (ap_ino a) (ap_offset a + ap_written a) bs';
        match r with
        | Ok _ => mret (inl (mkAppending (ap_transfer a) (ap_ino a) (ap_written a + len bs') (ap_signal a)))
        | Err _ => mret (inr (Err (FError StorageUnavailable)))
        end
    end.

(** The whole copy of a body, ended by [io.EOF]. *)
Fixpoint copy_body (body : list body_event) (a : appending) : M (result ferror FileTransfer) :=
  match body with
  | [] =>
      r ← Append_read false BEnd a;
      match r with inl _ => mret (Err FContext) | inr r => mret r end
  | ev :: body' =>
      r ← Append_read false ev a;
      match r with inl a' => copy_body body' a' | inr r => mret r end
  end.

(** [Append] without interleaving, once it has its slot and its lock. *)
Definition Append (id : string) (offset : Z) (body : list body_event) : M (result ferror FileTransfer) :=
  let! a := Append_begin id offset fails e => e in copy_body body a.

(** ** Completion *)

Section Completion.
Context (sha256 : list byte -> digest).

Definition hex_digest (bs : list byte) : string := hex_EncodeToString (sha256 bs).

(** The file to verify: the partial one, or the one renamed by an earlier attempt.  A
    missing partial file is what [os.Stat] reports; any other failure of it is ignored. *)
Definition content_name (id : string) : M string :=
  r ← os_Open (partialPath id);
  mret (match r with Err ENOENT => contentPath id | _ => partialPath id end).

(** The check of one file of a batch; [ctx_done] says whether the context ends while the
    file is read. *)
Definition verify_one (ctx_done : bool) (transfers : list FileTransfer) (t : FileTransfer) : M (result ferror unit) :=
  if decide (ft_CommittedOffset t <> ft_Size t \/ ft_State t <> "created" /\ ft_State t <> "uploading")
  then mret (Err (FError InvalidSize))
  else
    name ← content_name (ft_ID t);
    let! ino := os_Open name fails _ => FError StorageUnavailable in
    c ← cancelSignal (ft_ID t);
    closed ← get (fun w => bool_decide (c ∈ w_closed w));
    if ctx_done || closed then mret (Err FContext)
    else
      let! bs := file_Read ino fails _ => FError StorageUnavailable in
      let! _ := quiet fails _ => FError StorageUnavailable in
      if decide (len bs <> ft_Size t \/ hex_digest bs <> ft_SHA256 t)
      then _ ← cancelBatchLocked transfers; mret (Err (FError DigestMismatch))
      else mret (Ok tt).

(** [ctx] says of each file whether the context ends while it is read. *)
Fixpoint verify_all (ctx : list bool) (transfers l : list FileTransfer) : M (result ferror unit) :=
  match l with
  | [] => mret (Ok tt)
  | t :: l' =>
      let! _ := verify_one (default false (head ctx)) transfers t fails e => e in
      verify_all (tail ctx) transfers l'
  end.

(** [Complete] up to the renames: [inl] is an answer, [inr] the verified batch. *)
Definition Complete_begin (ctx : list bool) (id : string)
    : M (result ferror (FileTransfer + FileTransfer * list FileTransfer)) :=
  let! requested := read_transfer id fails _ => FError InvalidPath in
  let! transfers := read_batch (ft_BatchID requested) fails _ => FError InvalidPath in
  if forallb (fun t => finished (ft_State t)) transfers then
    let! t := read_transfer id fails e => FStore e in mret (Ok (inl t))
  else
    let! _ := verify_all ctx transfers transfers fails e => e in
    mret (Ok (inr (requested, transfers))).

(** The renames; [renamed] are those done, latest first, undone when one fails. *)
Fixpoint rename_all (renamed l : list FileTransfer) : M (result ferror unit) :=
  match l with
  | [] => mret (Ok tt)
  | t :: l' =>
      there ← os_Open (contentPath (ft_ID t));
      match there with
      | Ok _ => rename_all renamed l'
      | Err _ =>
          r ← os_Rename (partialPath (ft_ID t)) (contentPath (ft_ID t));
          match r with
          | Ok _ => rename_all (t :: renamed) l'
          | Err _ =>
              _ ← for_each renamed (fun u =>
                    _ ← os_Rename (contentPath (ft_ID u)) (partialPath (ft_ID u)); mret tt);
              mret (Err (FError StorageUnavailable))
          end
      end
  end.

Definition Complete_finish (requested : FileTransfer) (transfers : list FileTransfer) : M (result ferror FileTransfer) :=
  let! _ := rename_all [] transfers fails e => e in
  let! _ := syncDir fails _ => FError StorageUnavailable in
  let! _ := db_call2 (fun f f2 db => CompleteFileTransferBatch f f2 db (ft_BatchID requested))
    fails _ => FError StorageUnavailable in
  _ ← for_each transfers (fun t =>
        if decide (ft_Direction t = "pb_to_pbh") then cancels_Delete (ft_ID t) else mret tt);
  let! t := read_transfer (ft_ID requested) fails e => FStore e in
  mret (Ok t).

(** [Complete] without interleaving. *)
Definition Complete (ctx : list bool) (id : string) : M (result ferror FileTransfer) :=
  let! r := Complete_begin ctx id fails e => e in
  match r with
  | inl t => mret (Ok t)
  | inr (requested, transfers) => Complete_finish requested transfers
  end.
End Completion.

(** ** Delivery and cancellation *)

Definition Pending (now : time) (clientID sessionID : string) (limit : Z) : M (result store_error (list FileTransfer)) :=
  db_read (fun f db => PendingFileTransfers f db clientID sessionID now limit).

Definition Receipt (id clientID resultCode receiptPath : string) : M (result ferror unit) :=
  let! _ := db_call (fun f db => ReceiptFileTransfer f db id clientID resultCode receiptPath) fails e => FStore e in
  r ← os_Remove (contentPath id);
  match unless_missing r with
  | Some _ => mret (Err (FError StorageUnavailable))
  | None =>
      _ ← cancels_Delete id;
      let! _ := syncDir fails e => FSystem e in
      mret (Ok tt)
  end.

(** The open file and its row. *)
Definition OpenContent (id : string) : M (result ferror (nat * FileTransfer)) :=
  let! t := read_transfer id fails _ => FError InvalidPath in
  if finished (ft_State t) then
    let! ino := os_Open (contentPath id) fails _ => FError StorageUnavailable in
    mret (Ok (ino, t))
  else mret (Err (FError InvalidPath)).

(** The link under the file's own name; the directory holds no symbolic links. *)
Definition PublishedPath (id : string) : M (result ferror string) :=
  let! t := read_transfer id fails _ => FError InvalidPath in
  if decide (ft_Direction t <> "pb_to_pbh" \/ ft_State t <> "published") then mret (Err (FError InvalidPath))
  else
    r ← os_Link (contentPath id) (publishedPath t);
    match r with
    | Err ENOENT | Err EIO => mret (Err (FError StorageUnavailable))
    | _ =>
        content ← os_Open (contentPath id);
        info ← os_Open (publishedPath t);
        match content, info with
        | Ok i1, Ok i2 =>
            if decide (i1 <> i2) then mret (Err (FError StorageUnavailable))
            else
              let! _ := syncDir fails _ => FError StorageUnavailable in
              mret (Ok (publishedPath t))
        | _, _ => mret (Err (FError StorageUnavailable))
        end
    end.

Definition Cancel (id : string) : M (option ferror) :=
  r ← read_transfer id;
  match r with
  | Err e => mret (Some (FStore e))
  | Ok t =>
      r ← read_batch (ft_BatchID t);
      match r with
      | Err e => mret (Some (FStore e))
      | Ok transfers => cancelBatchLocked transfers
      end
  end.

Definition cancelLocked (id : string) : M (result ferror unit) :=
  let! t := read_transfer id fails e => FStore e in
  let! _ := db_call2 (fun f f2 db => CancelFileTransfer f f2 db id) fails e => FStore e in
  let! _ := for_each_or [partialPath id; contentPath id; publishedPath t] (fun name =>
              r ← os_Remove name;
              mret (match unless_missing r with Some _ => Err (FError StorageUnavailable) | None => Ok tt end))
    fails e => e in
  let! _ := syncDir fails e => FSystem e in
  mret (Ok tt).

Definition UpdatePolicy (p : Policy) : M (result ferror unit) :=
  if Valid p then action (fun w => (set_policy p w, Ok tt)) else mret (Err (FError InvalidSize)).

(** [New] on an empty directory. *)
Definition New (db : DB) (p : Policy) : world := mkWorld db ∅ ∅ 0 (NewPolicyStore p) 0 ∅ ∅ 0 [].

(** ** Lemmas *)

(** Running a sequence. *)
Lemma bind_run {X Y} (m : M X) (k : X -> M Y) w w1 a : m w = (w1, a) -> (m ≫= k) w = k a w1.
Proof. intros E. unfold mbind, M_bind. by rewrite E. Qed.

Lemma content_not_partial id : contentPath id <> partialPath id.
Proof. unfold contentPath, partialPath. by intros [_ ?]%append_inv. Qed.
