(* ===== verification/FileTransferTheorems.v ===== *)
(** * File transfers: what is served was verified

    The runs of a service: any interleaving of requests, with appends split at each read of
    their body and completions split between verification and publication, any failures of
    system and database calls, restarts of the process and policy changes.  The invariant
    [service_ok] gives every inode to one transfer and says that a committed prefix is never
    overwritten, so that the file under a name a reader can open holds the declared bytes. *)

From S2P Require Import Prelude Config Buffers History Input Store StoreOperations StoreTransfers Frame FileTransfer.

Section Service.
Context (sha256 : list byte -> digest).

(** ** Runs *)

(** A service with its appends (by transfer: they hold its lock) and its verified
    completions (by batch: they hold its lock). *)
Record service := mkService {
  sv_world : world;
  sv_appending : gmap string appending;
  sv_completing : gmap string (FileTransfer * list FileTransfer)
}.

(** The batch lock is free. *)
Definition unlocked (s : service) (id : string) : Prop :=
  forall r, db_transfers (w_db (sv_world s)) !! id = Some r -> sv_completing s !! ft_BatchID r = None.

(** The world of a step starts with the faults [fs] of its calls. *)
Definition on (fs : list fault) (s : service) : world := set_faults fs (sv_world s).

Inductive service_step : service -> service -> Prop :=
| sv_create s fs now random req :
    service_step s (mkService (Create now random req (on fs s)).1 (sv_appending s) (sv_completing s))
| sv_append_begin s fs id offset w a :
    sv_appending s !! id = None -> acquire (on fs s) = (w, true) ->
    (Append_begin id offset w).2 = Ok a ->
    service_step s (mkService (Append_begin id offset w).1 (<[id := a]> (sv_appending s)) (sv_completing s))
| sv_append_refused s fs id offset w e :
    sv_appending s !! id = None -> acquire (on fs s) = (w, true) ->
    (Append_begin id offset w).2 = Err e ->
    service_step s (mkService (release (Append_begin id offset w).1).1 (sv_appending s) (sv_completing s))
| sv_append_read s fs id a ctx_done ev a' :
    sv_appending s !! id = Some a -> (Append_read ctx_done ev a (on fs s)).2 = inl a' ->
    service_step s (mkService (Append_read ctx_done ev a (on fs s)).1 (<[id := a']> (sv_appending s)) (sv_completing s))
| sv_append_end s fs id a ctx_done ev r :
    sv_appending s !! id = Some a -> (Append_read ctx_done ev a (on fs s)).2 = inr r ->
    service_step s (mkService (release (Append_read ctx_done ev a (on fs s)).1).1 (delete id (sv_appending s))
                      (sv_completing s))
| sv_complete_begin s fs ctx id q ts :
    unlocked s id -> (Complete_begin sha256 ctx id (on fs s)).2 = Ok (inr (q, ts)) ->
    service_step s (mkService (Complete_begin sha256 ctx id (on fs s)).1 (sv_appending s)
                      (<[ft_BatchID q := (q, ts)]> (sv_completing s)))
| sv_complete_answer s fs ctx id :
    unlocked s id -> (forall p, (Complete_begin sha256 ctx id (on fs s)).2 <> Ok (inr p)) ->
    service_step s (mkService (Complete_begin sha256 ctx id (on fs s)).1 (sv_appending s) (sv_completing s))
| sv_complete_finish s fs b q ts :
    sv_completing s !! b = Some (q, ts) ->
    service_step s (mkService (Complete_finish q ts (on fs s)).1 (sv_appending s) (delete b (sv_completing s)))
| sv_cancel s fs id :
    unlocked s id -> service_step s (mkService (Cancel id (on fs s)).1 (sv_appending s) (sv_completing s))
| sv_cleanup s fs now :
    service_step s (mkService (CleanupExpired now (on fs s)).1 (sv_appending s) (sv_completing s))
| sv_receipt s fs id client code path :
    service_step s (mkService (Receipt id client code path (on fs s)).1 (sv_appending s) (sv_completing s))
| sv_open s fs id :
    service_step s (mkService (OpenContent id (on fs s)).1 (sv_appending s) (sv_completing s))
| sv_publish s fs id :
    service_step s (mkService (PublishedPath id (on fs s)).1 (sv_appending s) (sv_completing s))
| sv_policy s fs p :
    service_step s (mkService (UpdatePolicy p (on fs s)).1 (sv_appending s) (sv_completing s))
| sv_restart s p :
    (* the process ends and starts again on its files *)
    service_step s (mkService (mkWorld (w_db (sv_world s)) (w_dir (sv_world s)) (w_data (sv_world s)) (w_next (sv_world s))
                                 (NewPolicyStore p) 0 ∅ ∅ 0 []) ∅ ∅).

Definition started (p : Policy) : service := mkService (New empty_DB p) ∅ ∅.

Definition reachable (s : service) : Prop := exists p, rtc service_step (started p) s.

(** ** The invariant *)

(** The file holds the declared bytes of the transfer, and at most one byte more. *)
Definition good (r : FileTransfer) (d : list byte) : Prop :=
  ft_CommittedOffset r = ft_Size r /\ ft_Size r <= len d <= ft_Size r + 1
  /\ hex_digest sha256 (take (Z.to_nat (ft_Size r)) d) = ft_SHA256 r.

(** The transfer has a file, which holds its bytes. *)
Definition verified (own : gmap nat string) (w : world) (t : FileTransfer) : Prop :=
  (exists ino, own !! ino = Some (ft_ID t))
  /\ forall r ino, db_transfers (w_db w) !! ft_ID t = Some r -> own !! ino = Some (ft_ID t) -> good r (contents w ino).

(** [own] gives each inode its transfer. *)
Record service_ok (own : gmap nat string) (w : world) (A : gmap string appending)
    (C : gmap string (FileTransfer * list FileTransfer)) : Prop := {
  so_rows : transfers_ok (w_db w);
  so_ids : forall id r, db_transfers (w_db w) !! id = Some r -> String.length id = 35%nat;
  so_dir : forall name ino, w_dir w !! name = Some ino -> exists id rest, own !! ino = Some id /\ name = id +:+ rest;
  so_own : forall ino id, own !! ino = Some id ->
    (ino < w_next w)%nat /\ exists r, db_transfers (w_db w) !! id = Some r /\ ft_CommittedOffset r <= len (contents w ino);
  so_one : forall i j id, own !! i = Some id -> own !! j = Some id -> i = j;
  so_placed : forall name ino id r, w_dir w !! name = Some ino -> own !! ino = Some id -> name <> partialPath id ->
    db_transfers (w_db w) !! id = Some r -> good r (contents w ino);
  so_appending : forall id a, A !! id = Some a ->
    own !! ap_ino a = Some id /\ 0 <= ap_written a <= ap_remaining a + 1
    /\ len (contents w (ap_ino a)) = ap_offset a + ap_written a
    /\ exists r, db_transfers (w_db w) !! id = Some r /\ same_file (ap_transfer a) r
       /\ ft_CommittedOffset r = ap_offset a;
  so_completing : forall b q ts t, C !! b = Some (q, ts) -> t ∈ ts -> verified own w t;
  so_policy : Valid (w_policy w) = true
}.

(** ** Calm programs: they remove names and settle rows, and change nothing else *)

Record calm_step (w w' : world) : Prop := {
  cs_db : rtc (update_step settles) (w_db w) (w_db w');
  cs_dir : w_dir w' ⊆ w_dir w;
  cs_data : w_data w' = w_data w;
  cs_next : w_next w' = w_next w;
  cs_policy : w_policy w' = w_policy w;
  cs_active : w_active w' = w_active w
}.

#[global] Instance calm_step_preorder : PreOrder calm_step.
Proof.
  split; [by split|]. intros w1 w2 w3 [] []. split; try congruence; by etrans.
Qed.

Definition calm {A} (m : M A) : Prop := forall w, calm_step w (m w).1.

Lemma calm_ret {A} (a : A) : calm (mret a).
Proof. intros w. by split. Qed.

Lemma calm_bind {A B} (m : M A) (k : A -> M B) : calm m -> (forall a, calm (k a)) -> calm (m ≫= k).
Proof.
  intros Hm Hk w. unfold mbind, M_bind. pose proof (Hm w) as H. destruct (m w) as [w1 a]. etrans; [exact H|apply Hk].
Qed.

Lemma calm_get {A} (f : world -> A) : calm (get f).
Proof. intros w. by split. Qed.

Lemma calm_faults fs w : calm_step w (set_faults fs w).
Proof. by split. Qed.

Lemma calm_next_fault : calm next_fault.
Proof. intros w. unfold next_fault. destruct (w_faults w); [done|apply calm_faults]. Qed.

Lemma calm_syscall {A} (act : M (result errno A)) : calm act -> calm (syscall act).
Proof.
  intros Ha. unfold syscall. apply calm_bind; [apply calm_next_fault|]. intros []; [done|apply calm_ret|].
  apply calm_bind; [done|]. intros _. apply calm_ret.
Qed.

Lemma calm_quiet : calm quiet.
Proof. apply calm_syscall, calm_ret. Qed.

Lemma calm_open name : calm (os_Open name).
Proof. apply calm_syscall. intros w. by destruct (w_dir w !! name). Qed.

Lemma calm_remove name : calm (os_Remove name).
Proof.
  apply calm_syscall. intros w. destruct (w_dir w !! name); [|done]. split; try done. apply delete_subseteq.
Qed.

Lemma calm_read ino : calm (file_Read ino).
Proof. apply calm_syscall. by intros w. Qed.

Lemma calm_signal id : calm (cancelSignal id).
Proof. intros w. unfold cancelSignal. by destruct (w_cancels w !! id). Qed.

Lemma calm_signalCancel id : calm (signalCancel id).
Proof. apply calm_bind; [apply calm_signal|]. intros c w. by split. Qed.

Lemma calm_delete id : calm (cancels_Delete id).
Proof. intros w. by split. Qed.

Lemma calm_db_read {A} (q : fault -> DB -> result store_error A) : calm (db_read q).
Proof. apply calm_bind; [apply calm_next_fault|]. intros f. apply calm_get. Qed.

Lemma calm_db_call {A} (call : fault -> DB -> DB * result store_error A) :
  (forall f db, rtc (update_step settles) db (call f db).1) -> calm (db_call call).
Proof.
  intros Hc. apply calm_bind; [apply calm_next_fault|]. intros f w. unfold action.
  pose proof (Hc f (w_db w)) as H. by destruct (call f (w_db w)) as [db r].
Qed.

Lemma calm_db_call2 {A} (call : fault -> fault -> DB -> DB * result store_error A) :
  (forall f f2 db, rtc (update_step settles) db (call f f2 db).1) -> calm (db_call2 call).
Proof.
  intros Hc. apply calm_bind; [apply calm_next_fault|]. intros f. apply calm_bind; [apply calm_next_fault|].
  intros f2 w. unfold action. pose proof (Hc f f2 (w_db w)) as H. by destruct (call f f2 (w_db w)) as [db r].
Qed.

Lemma calm_for_each {A} (l : list A) body : (forall x, calm (body x)) -> calm (for_each l body).
Proof. intros Hb. induction l as [|x l IH]; [apply calm_ret|]. apply calm_bind; [apply Hb|done]. Qed.
End Service.

Create HintDb calm.
#[export] Hint Resolve calm_ret calm_get calm_quiet calm_open calm_remove calm_read calm_signal calm_signalCancel
  calm_delete calm_db_read calm_db_call calm_db_call2 calm_for_each : calm.

(** Calm programs, from the calls they are made of. *)
Ltac calm :=
  repeat first
    [ progress intros
    | solve [eauto with calm pb]
    | apply calm_for_each
    | apply calm_bind
    | match goal with
      | |- calm (match ?x with _ => _ end) => destruct x
      | |- calm (match ?x with _ => _ end _) => destruct x
      end ].

Section Calm.
Context (sha256 : list byte -> digest).

Lemma calm_remove_all l e : calm (remove_all l e).
Proof. revert e. induction l as [|t l IH]; intros e; simpl; [calm|]. apply calm_bind; [|done]. unfold remove_files. calm. Qed.

Lemma calm_cancelBatchLocked l : calm (cancelBatchLocked l).
Proof.
  unfold cancelBatchLocked, syncDir. apply calm_bind; [calm|]. intros _. apply calm_bind; [destruct l; calm|].
  intros e. apply calm_bind; [apply calm_remove_all|]. calm.
Qed.
Hint Resolve calm_cancelBatchLocked calm_remove_all : calm.

Lemma calm_cancelBatch l : calm (cancelBatch l).
Proof. unfold cancelBatch. calm. Qed.

Lemma calm_CleanupExpired now : calm (CleanupExpired now).
Proof. unfold CleanupExpired. calm. Qed.

Lemma calm_Receipt id c k p : calm (Receipt id c k p).
Proof. unfold Receipt, syncDir. calm. Qed.

Lemma calm_OpenContent id : calm (OpenContent id).
Proof. unfold OpenContent, read_transfer. calm. Qed.

Lemma calm_Cancel id : calm (Cancel id).
Proof. unfold Cancel, read_transfer, read_batch. calm. Qed.

Lemma calm_verify_one c ts t : calm (verify_one sha256 c ts t).
Proof. unfold verify_one, content_name. calm. Qed.

Lemma calm_verify_all ctx ts l : calm (verify_all sha256 ctx ts l).
Proof.
  revert ctx. induction l as [|t l IH]; intros ctx; simpl; [calm|]. apply calm_bind; [apply calm_verify_one|]. calm.
Qed.
Hint Resolve calm_verify_all : calm.

Lemma calm_Complete_begin ctx id : calm (Complete_begin sha256 ctx id).
Proof. unfold Complete_begin, read_transfer, read_batch. calm. Qed.
End Calm.

(** ** The invariant is kept *)

Section Invariant.
Context (sha256 : list byte -> digest).

Implicit Types (own : gmap nat string) (w : world) (A : gmap string appending).
Implicit Types (C : gmap string (FileTransfer * list FileTransfer)).

Lemma good_same r r' d :
  same_file r r' -> ft_CommittedOffset r <= ft_CommittedOffset r' <= ft_Size r' -> good sha256 r d -> good sha256 r' d.
Proof.
  intros (_ & _ & _ & _ & _ & _ & Hz & Hh & _) Ho (H1 & H2 & H3). unfold good. rewrite Hz, Hh in *. split; [lia|done].
Qed.

Lemma row_range db id r : transfers_ok db -> db_transfers db !! id = Some r -> 0 <= ft_CommittedOffset r <= ft_Size r.
Proof. intros Hok Hr. destruct (Hok _ _ Hr) as [_ Ho]. apply rok_check, check_parts in Ho. lia. Qed.

(** Fewer appends and completions. *)
Lemma fewer_ok own w A A' C C' :
  service_ok sha256 own w A C -> A' ⊆ A -> C' ⊆ C -> service_ok sha256 own w A' C'.
Proof.
  intros Hok HA HC. split; try by eapply Hok.
  - intros id a Ha. eapply so_appending; [done|]. by eapply lookup_weaken.
  - intros b q ts t Hb. eapply so_completing; [done|]. by eapply lookup_weaken.
Qed.

(** A change of the rows that keeps what files they are, and commits only what is in the
    files. *)
Lemma rows_ok own w A C db' :
  service_ok sha256 own w A C -> transfers_ok db' ->
  (forall id r', db_transfers db' !! id = Some r' -> exists r, db_transfers (w_db w) !! id = Some r
     /\ same_file r r' /\ ft_CommittedOffset r <= ft_CommittedOffset r') ->
  (forall id r, db_transfers (w_db w) !! id = Some r -> is_Some (db_transfers db' !! id)) ->
  (forall ino id r', own !! ino = Some id -> db_transfers db' !! id = Some r' ->
     ft_CommittedOffset r' <= len (contents w ino)) ->
  (forall id a r', A !! id = Some a -> db_transfers db' !! id = Some r' -> ft_CommittedOffset r' = ap_offset a) ->
  service_ok sha256 own (set_db db' w) A C.
Proof.
  intros Hok Hok' Hback Hfwd Hlen HA.
  assert (Hgood : forall id r' ino, db_transfers db' !! id = Some r' ->
    (forall r, db_transfers (w_db w) !! id = Some r -> good sha256 r (contents w ino)) -> good sha256 r' (contents w ino)).
  { intros id r' ino Hr' Hg. destruct (Hback _ _ Hr') as (r & Hr & Hs & Hle). apply (good_same r); [done| |by apply Hg].
    pose proof (row_range _ _ _ Hok' Hr'). lia. }
  split; try by eapply Hok.
  - done.
  - intros id r' Hr'. destruct (Hback _ _ Hr') as (r & Hr & _). by eapply so_ids.
  - intros ino id Hi. destruct (so_own _ _ _ _ _ Hok _ _ Hi) as (? & r & Hr & _). split; [done|].
    destruct (Hfwd _ _ Hr) as [r' Hr']. exists r'. split; [done|]. by eapply Hlen.
  - intros name ino id r' Hn Hi Hp Hr'. apply (Hgood id); [done|]. intros r Hr. by eapply so_placed.
  - intros id a Ha. destruct (so_appending _ _ _ _ _ Hok _ _ Ha) as (H1 & H2 & H3 & r & Hr & H4 & H5).
    do 3 (split; [done|]). destruct (Hfwd _ _ Hr) as [r' Hr']. exists r'. split_and!; [done| |by eapply HA].
    destruct (Hback _ _ Hr') as (r1 & Hr1 & Hs & _). simplify_eq. by etrans.
  - intros b q ts t Hb Ht. destruct (so_completing _ _ _ _ _ Hok _ _ _ _ Hb Ht) as [? Hg].
    split; [done|]. intros r' ino Hr' Hi. apply (Hgood _ _ _ Hr'). intros r1 Hr1. by apply Hg.
Qed.

(** Settled rows. *)
Lemma settled_ok own w A C db' :
  service_ok sha256 own w A C -> rtc (update_step settles) (w_db w) db' -> service_ok sha256 own (set_db db' w) A C.
Proof.
  intros Hok Hdb. pose proof (so_rows _ _ _ _ _ Hok) as Hrows. destruct (settled_rows _ _ Hdb Hrows) as [Hfwd Hback].
  assert (Hrow : forall id r', db_transfers db' !! id = Some r' ->
    exists r, db_transfers (w_db w) !! id = Some r /\ settles r r').
  { intros id r' Hr'. destruct (Hback _ _ Hr') as [r Hr]. exists r. split; [done|].
    destruct (Hfwd _ _ Hr) as (r1 & ? & ?). by simplify_eq. }
  apply rows_ok; [done|..].
  - eapply table_step_ok; [|done]. apply update_steps_table; [by apply settles_steps|done].
  - intros id r' (r & Hr & [Hs Ho])%Hrow. exists r. split_and!; [done|by apply row_steps_same|lia].
  - intros id r Hr. destruct (Hfwd _ _ Hr) as (? & -> & _). by eexists.
  - intros ino id r' Hi (r & Hr & [_ Ho])%Hrow. destruct (so_own _ _ _ _ _ Hok _ _ Hi) as (_ & r1 & ? & ?).
    simplify_eq. lia.
  - intros id a r' Ha (r & Hr & [_ Ho])%Hrow.
    destruct (so_appending _ _ _ _ _ Hok _ _ Ha) as (_ & _ & _ & r1 & ? & _ & ?). simplify_eq. lia.
Qed.

(** Fewer names. *)
Lemma unlinked_ok own w A C dir :
  service_ok sha256 own w A C -> dir ⊆ w_dir w -> service_ok sha256 own (set_files dir (w_data w) (w_next w) w) A C.
Proof.
  intros Hok Hdir. split; try by eapply Hok.
  - intros name ino Hn. eapply so_dir; [done|]. by eapply lookup_weaken.
  - intros name ino id r Hn. exact (so_placed _ _ _ _ _ Hok name ino id r (lookup_weaken _ _ _ _ Hn Hdir)).
Qed.

(** The invariant does not see signals, slots and faults. *)
Definition view (w w' : world) : Prop :=
  w_db w' = w_db w /\ w_dir w' = w_dir w /\ w_data w' = w_data w /\ w_next w' = w_next w /\ w_policy w' = w_policy w.

#[global] Instance view_preorder : PreOrder view.
Proof. split; [done|]. unfold view. intros w1 w2 w3 H1 H2. destruct_and!. split_and!; congruence. Qed.

Lemma view_ok own w w' A C : view w w' -> service_ok sha256 own w A C -> service_ok sha256 own w' A C.
Proof. destruct w, w'. unfold view. simpl. intros (-> & -> & -> & -> & ->) Hok. by destruct Hok. Qed.

Lemma calm_ok own w w' A C : calm_step w w' -> service_ok sha256 own w A C -> service_ok sha256 own w' A C.
Proof.
  intros [Hdb Hdir Hdata Hnext Hpol Hact] Hok.
  eapply view_ok; [|eapply unlinked_ok; [eapply settled_ok; [exact Hok|exact Hdb]|exact Hdir]].
  by split_and!.
Qed.

(** *** Names *)

Lemma owner_of own w A C name ino id rest r :
  service_ok sha256 own w A C -> w_dir w !! name = Some ino -> name = id +:+ rest ->
  db_transfers (w_db w) !! id = Some r -> own !! ino = Some id.
Proof.
  intros Hok Hn -> Hr. destruct (so_dir _ _ _ _ _ Hok _ _ Hn) as (id' & rest' & Ho & He).
  destruct (so_own _ _ _ _ _ Hok _ _ Ho) as (_ & r' & Hr' & _).
  apply append_inv in He as [-> _]; [done|].
  by rewrite (so_ids _ _ _ _ _ Hok _ _ Hr), (so_ids _ _ _ _ _ Hok _ _ Hr').
Qed.

(** *** Moving a file to another name of its transfer *)

Lemma moved_ok own w A C ino id rest dir :
  service_ok sha256 own w A C -> own !! ino = Some id -> dir ⊆ w_dir w ->
  (id +:+ rest = partialPath id \/
   forall r, db_transfers (w_db w) !! id = Some r -> good sha256 r (contents w ino)) ->
  service_ok sha256 own (set_files (<[id +:+ rest := ino]> dir) (w_data w) (w_next w) w) A C.
Proof.
  intros Hok Ho Hdir Hg. split; simpl; try by eapply Hok.
  - intros name i. destruct (decide (name = id +:+ rest)) as [->|Hne].
    + rewrite lookup_insert_eq. intros [= <-]. eauto.
    + rewrite lookup_insert_ne by done. intros Hn. eapply so_dir; [done|]. by eapply lookup_weaken.
  - intros name i id' r. destruct (decide (name = id +:+ rest)) as [->|Hne].
    + rewrite lookup_insert_eq. intros [= <-] Ho' Hp Hr. simplify_eq. destruct Hg as [|Hg]; [done|by apply Hg].
    + rewrite lookup_insert_ne by done. intros Hn.
      exact (so_placed _ _ _ _ _ Hok name i id' r (lookup_weaken _ _ _ _ Hn Hdir)).
Qed.

(** A system call does nothing, or its action on a world with other faults. *)
Lemma syscall_cases {X} (act : M (result errno X)) w :
  exists fs, (syscall act w = (set_faults fs w, Err EIO)) \/
    (syscall act w).1 = (act (set_faults fs w)).1
    /\ ((syscall act w).2 = (act (set_faults fs w)).2 \/ (syscall act w).2 = Err EIO).
Proof.
  unfold syscall, mbind, M_bind, next_fault. destruct (w_faults w) as [|f l] eqn:E.
  - exists []. right. replace (set_faults [] w) with w by (destruct w; simpl in *; by subst). eauto.
  - exists l. destruct f; [by eauto|by eauto|]. right. destruct (act _). by eauto.
Qed.

Lemma bind_ok {X Y} own own' w A C (m : M X) (k : X -> M Y) :
  service_ok sha256 own (m w).1 A C ->
  (forall w1 a, m w = (w1, a) -> service_ok sha256 own w1 A C -> service_ok sha256 own' (k a w1).1 A C) ->
  service_ok sha256 own' ((m ≫= k) w).1 A C.
Proof. intros Hm Hk. unfold mbind, M_bind. destruct (m w) as [w1 a]. by apply Hk. Qed.

Lemma set_faults_ok own w A C fs : service_ok sha256 own w A C -> service_ok sha256 own (set_faults fs w) A C.
Proof. by apply view_ok. Qed.

(** A call keeps the invariant when its action does. *)
Lemma syscall_ok {X} own own' w A C (act : M (result errno X)) :
  service_ok sha256 own w A C ->
  (forall fs, service_ok sha256 own (set_faults fs w) A C -> service_ok sha256 own' (act (set_faults fs w)).1 A C) ->
  own = own' -> service_ok sha256 own' (syscall act w).1 A C.
Proof.
  intros Hok Hact <-. destruct (syscall_cases act w) as (fs & [E|[-> _]]).
  - rewrite E. by apply set_faults_ok.
  - by apply Hact, set_faults_ok.
Qed.

Lemma rename_ok own w A C id rest1 rest2 r :
  service_ok sha256 own w A C -> db_transfers (w_db w) !! id = Some r ->
  (id +:+ rest2 = partialPath id \/ forall ino, own !! ino = Some id -> good sha256 r (contents w ino)) ->
  service_ok sha256 own (os_Rename (id +:+ rest1) (id +:+ rest2) w).1 A C.
Proof.
  intros Hok Hr Hg. eapply syscall_ok; [done| |done]. intros fs Hok0.
  destruct (w_dir (set_faults fs w) !! (id +:+ rest1)) as [ino|] eqn:En; [|done].
  assert (own !! ino = Some id) as Ho by (by eapply (owner_of own (set_faults fs w))).
  apply moved_ok; [done|done|apply delete_subseteq|]. destruct Hg as [|Hg]; [by left|right].
  intros r0 Hr0. simpl in Hr0. simplify_eq. by apply Hg.
Qed.

Lemma link_ok own w A C id rest r :
  service_ok sha256 own w A C -> db_transfers (w_db w) !! id = Some r ->
  service_ok sha256 own (os_Link (contentPath id) (id +:+ rest) w).1 A C.
Proof.
  intros Hok Hr. eapply syscall_ok; [done| |done]. intros fs Hok0.
  destruct (w_dir (set_faults fs w) !! contentPath id) as [ino|] eqn:En; [|done].
  destruct (w_dir (set_faults fs w) !! (id +:+ rest)); [done|].
  assert (own !! ino = Some id) as Ho by (by eapply (owner_of own (set_faults fs w))).
  apply moved_ok; [done|done|done|right]. intros r0 Hr0. eapply so_placed; [done|exact En|done|apply content_not_partial|done].
Qed.

(** Renames leave the rows and the contents as they are. *)
Lemma rename_view from to w :
  w_db (os_Rename from to w).1 = w_db w /\ w_data (os_Rename from to w).1 = w_data w.
Proof.
  unfold os_Rename. destruct (syscall_cases (fun w => match w_dir w !! from with
    | Some ino => (set_files (<[to := ino]> (delete from (w_dir w))) (w_data w) (w_next w) w, Ok tt)
    | None => (w, Err ENOENT) end) w) as (fs & [->|[-> _]]); [done|]. by destruct (w_dir (set_faults fs w) !! from).
Qed.

Lemma verified_view own w w' t :
  w_db w' = w_db w -> w_data w' = w_data w -> verified sha256 own w t -> verified sha256 own w' t.
Proof. unfold verified, contents. by intros -> ->. Qed.

Lemma verified_row own w A C t :
  service_ok sha256 own w A C -> verified sha256 own w t -> exists r, db_transfers (w_db w) !! ft_ID t = Some r.
Proof. intros Hok [[ino Ho] _]. destruct (so_own _ _ _ _ _ Hok _ _ Ho) as (_ & r & ? & _). eauto. Qed.

Lemma rollback_ok own w A C l :
  service_ok sha256 own w A C -> (forall t, t ∈ l -> verified sha256 own w t) ->
  service_ok sha256 own (for_each l (fun u =>
    _ ← os_Rename (contentPath (ft_ID u)) (partialPath (ft_ID u)); mret tt) w).1 A C.
Proof.
  revert w. induction l as [|t l IH]; intros w Hok Hl; [done|]. cbn [for_each].
  destruct (verified_row _ _ _ _ _ Hok (Hl t ltac:(by left))) as [r Hr].
  pose proof (rename_ok own w A C (ft_ID t) ".content" ".part" r Hok Hr (or_introl eq_refl)) as H1.
  pose proof (rename_view (contentPath (ft_ID t)) (partialPath (ft_ID t)) w) as [Hv1 Hv2].
  apply (bind_ok own); [by apply (bind_ok own)|]. unfold mbind at 1, M_bind. intros w1 a Ew Hw1.
  destruct (os_Rename _ _ w) as [w0 res]. injection Ew as <- <-. apply IH; [done|].
  intros u Hu. eapply verified_view; [done|done|]. apply Hl. by right.
Qed.

Lemma calm_view_open name w : w_db (os_Open name w).1 = w_db w /\ w_data (os_Open name w).1 = w_data w.
Proof.
  unfold os_Open. destruct (syscall_cases (fun w => match w_dir w !! name with Some ino => (w, Ok ino) | None => (w, Err ENOENT) end) w)
    as (fs & [->|[-> _]]); [done|]. by destruct (w_dir (set_faults fs w) !! name).
Qed.

Lemma rename_all_ok own w A C renamed l :
  service_ok sha256 own w A C -> (forall t, t ∈ renamed \/ t ∈ l -> verified sha256 own w t) ->
  service_ok sha256 own (rename_all renamed l w).1 A C.
Proof.
  revert renamed w. induction l as [|t l IH]; intros renamed w Hok Hl; [done|]. cbn [rename_all].
  pose proof (calm_ok own w _ A C (calm_open (contentPath (ft_ID t)) w) Hok) as H0.
  apply (bind_ok own); [done|]. intros w0 there E0 _. pose proof (calm_view_open (contentPath (ft_ID t)) w) as [Ho1 Ho2].
  rewrite E0 in *. simpl in *.
  assert (Hl0 : forall u, u ∈ renamed \/ u ∈ t :: l -> verified sha256 own w0 u) by (intros u Hu; eapply verified_view; eauto).
  destruct there.
  { apply IH; [done|]. intros u [?|?]; apply Hl0; [by left|right; by right]. }
  pose proof (Hl0 t ltac:(right; by left)) as Hver. destruct (verified_row _ _ _ _ _ H0 Hver) as [r Hr].
  destruct Hver as [_ Hg].
  pose proof (rename_ok own w0 A C (ft_ID t) ".part" ".content" r H0 Hr (or_intror (fun ino => Hg r ino Hr))) as H1.
  pose proof (rename_view (partialPath (ft_ID t)) (contentPath (ft_ID t)) w0) as [Hv1 Hv2].
  apply (bind_ok own); [done|]. intros w1 res E1 H1'. rewrite E1 in *. simpl in *.
  assert (Hl1 : forall u, u ∈ renamed \/ u ∈ t :: l -> verified sha256 own w1 u) by (intros u Hu; eapply verified_view; eauto).
  destruct res.
  - apply IH; [done|]. intros u [[->|?]%elem_of_cons|?]; apply Hl1; [right; by left|by left|right; by right].
  - apply (bind_ok own); [|done]. apply rollback_ok; [done|]. auto.
Qed.

(** *** Writing into a file *)

(** The append of transfer [id], whose row is [r] and whose file holds [d], in the state [a]. *)
Definition append_at (id : string) (ino : nat) (r : FileTransfer) (d : list byte) (a : appending) : Prop :=
  ap_ino a = ino /\ 0 <= ap_written a <= ap_remaining a + 1 /\ len d = ap_offset a + ap_written a
  /\ same_file (ap_transfer a) r /\ ft_CommittedOffset r = ap_offset a.

(** [A'] are the appends of [A], except for [id]. *)
Definition others (id : string) (A A' : gmap string appending) : Prop :=
  forall id' a, id' <> id -> A' !! id' = Some a -> A !! id' = Some a.

Lemma contents_insert w dir next ino d i :
  contents (set_files dir (<[ino := d]> (w_data w)) next w) i = if decide (i = ino) then d else contents w i.
Proof.
  unfold contents. simpl. case_decide as Hi; [subst; by rewrite lookup_insert_eq|]. by rewrite lookup_insert_ne.
Qed.

Lemma written_ok own w A A' C ino id r d :
  service_ok sha256 own w A C -> own !! ino = Some id -> db_transfers (w_db w) !! id = Some r ->
  ft_CommittedOffset r <= len d -> (good sha256 r (contents w ino) -> good sha256 r d) ->
  others id A A' -> (forall a, A' !! id = Some a -> append_at id ino r d a) ->
  service_ok sha256 own (set_files (w_dir w) (<[ino := d]> (w_data w)) (w_next w) w) A' C.
Proof.
  intros Hok Ho Hr Hlen Hg HA Ha. pose proof (so_one _ _ _ _ _ Hok) as Hone. split; try by eapply Hok.
  - intros i id' Hi. rewrite contents_insert. destruct (so_own _ _ _ _ _ Hok _ _ Hi) as (? & r' & ? & ?).
    split; [done|]. exists r'. split; [done|]. case_decide; [|done]. by simplify_eq.
  - intros name i id' r' Hn Hi Hp Hr'. rewrite contents_insert. simpl in Hn, Hr'. case_decide; simplify_eq.
    + apply Hg. by eapply so_placed.
    + by eapply so_placed.
  - intros id' a Ha'. rewrite contents_insert. destruct (decide (id' = id)) as [->|Hne].
    + destruct (Ha _ Ha') as (Hino & ? & ? & ? & ?). rewrite Hino, decide_True by done. eauto 10.
    + destruct (so_appending _ _ _ _ _ Hok _ _ (HA _ _ Hne Ha')) as (Ho' & Hrest).
      rewrite decide_False by (intros E; rewrite E in Ho'; congruence). done.
  - intros b q ts t Hb Ht. destruct (so_completing _ _ _ _ _ Hok _ _ _ _ Hb Ht) as [? Hgt]. split; [done|].
    intros r' i Hr' Hi. rewrite contents_insert. simpl in Hr'. specialize (Hgt r' i Hr' Hi). case_decide; simplify_eq; auto.
Qed.

(** Committing what an append has written. *)
Lemma commit_offset_ok own w A C id a f :
  service_ok sha256 own w A C -> A !! id = Some a -> ap_written a <= ap_remaining a ->
  service_ok sha256 own
    (set_db (CommitFileTransferOffset f (w_db w) id (ap_offset a) (ap_offset a + ap_written a)).1 w) (delete id A) C.
Proof.
  intros Hok Ha Hle. pose proof (so_rows _ _ _ _ _ Hok) as Hrows.
  destruct (so_appending _ _ _ _ _ Hok _ _ Ha) as (Ho & Hw & Hl & r & Hr & Hsame & Hoff).
  pose proof (commit_updates f (w_db w) id (ap_offset a) (ap_offset a + ap_written a)) as Hu.
  assert (Hrow : forall id' r', db_transfers (CommitFileTransferOffset f (w_db w) id (ap_offset a)
                                               (ap_offset a + ap_written a)).1 !! id' = Some r' ->
    exists r0, db_transfers (w_db w) !! id' = Some r0 /\ same_file r0 r'
      /\ ft_CommittedOffset r0 <= ft_CommittedOffset r' /\ (id' <> id -> r' = r0)
      /\ (id' = id -> ft_CommittedOffset r' <= ap_offset a + ap_written a)).
  { intros id' r' Hr'. apply committed_row in Hr' as (r0 & Hr0 & [->|(He & -> & Ho1 & Ho2)]); [| |done].
    - exists r0. split_and!; try done. intros ->. simplify_eq. lia.
    - exists r0. split_and!; try done; simpl; lia || congruence. }
  apply rows_ok; [exact (fewer_ok own w A _ C C Hok (delete_subseteq _ _) (reflexivity _))|..].
  - eapply table_step_ok; [by apply update_steps_table|done].
  - intros id' r' (r0 & ? & ? & ? & _)%Hrow. eauto.
  - intros id' r0 Hr0. destruct (proj1 (update_steps_table _ _ Hu Hrows) _ _ Hr0) as (r' & -> & _). by eexists.
  - intros ino id' r' Hi (r0 & Hr0 & _ & _ & Hne & Heq)%Hrow. destruct (decide (id' = id)) as [->|Hd].
    + assert (ino = ap_ino a) as -> by (by eapply so_one). rewrite Hl. by apply Heq.
    + rewrite (Hne Hd). destruct (so_own _ _ _ _ _ Hok _ _ Hi) as (_ & r1 & ? & ?). by simplify_eq.
  - intros id' a' r' [Hd Ha']%lookup_delete_Some (r0 & Hr0 & _ & _ & Hne & _)%Hrow. rewrite Hne by done.
    destruct (so_appending _ _ _ _ _ Hok _ _ Ha') as (_ & _ & _ & r1 & ? & _ & ?). by simplify_eq.
Qed.

(** *** Programs *)

Lemma keep_calm {X} own w A C (m : M X) :
  calm m -> service_ok sha256 own w A C -> service_ok sha256 own (m w).1 A C.
Proof. intros Hm. apply calm_ok, Hm. Qed.

(** Calls that only look. *)
Lemma next_fault_view w : view w (next_fault w).1.
Proof. unfold next_fault. by destruct (w_faults w). Qed.

Lemma quiet_view w : view w (quiet w).1.
Proof. unfold quiet. destruct (syscall_cases (mret (Ok tt)) w) as (fs & [->|[-> _]]); done. Qed.

Lemma signal_view id w : view w (cancelSignal id w).1.
Proof. unfold cancelSignal. by destruct (w_cancels w !! id). Qed.

Lemma open_view name w :
  view w (os_Open name w).1 /\ forall ino, (os_Open name w).2 = Ok ino -> w_dir w !! name = Some ino.
Proof.
  unfold os_Open. destruct (syscall_cases (fun w => match w_dir w !! name with Some ino => (w, Ok ino) | None => (w, Err ENOENT) end) w)
    as (fs & [->|[-> Hr]]); [done|]. simpl in *. destruct (w_dir w !! name); (split; [done|]); intros i Hi;
    rewrite Hi in Hr; destruct Hr as [[= ->]|[=]] || destruct Hr; done.
Qed.

Lemma read_view ino w :
  view w (file_Read ino w).1 /\ forall d, (file_Read ino w).2 = Ok d -> d = contents w ino.
Proof.
  unfold file_Read. destruct (syscall_cases (fun w => (w, Ok (contents w ino))) w) as (fs & [->|[-> Hr]]); [done|].
  simpl in *. split; [done|]. intros i Hi. rewrite Hi in Hr. by destruct Hr as [[= ->]|[=]].
Qed.

Lemma read_transfer_view id w :
  view w (read_transfer id w).1 /\ forall t, (read_transfer id w).2 = Ok t -> db_transfers (w_db w) !! id = Some t.
Proof.
  unfold read_transfer, db_read, get, mbind, M_bind. pose proof (next_fault_view w) as Hv.
  destruct (next_fault w) as [w1 f]. simpl in *. split; [done|]. intros t. destruct Hv as [-> _].
  unfold reading, GetFileTransfer. case_decide; [done|]. by case_match; intros [= ->].
Qed.

Lemma Complete_finish_ok own w A C q ts :
  service_ok sha256 own w A C -> (forall t, t ∈ ts -> verified sha256 own w t) ->
  service_ok sha256 own (Complete_finish q ts w).1 A C.
Proof.
  intros Hok Hv. apply (bind_ok own); [apply rename_all_ok; [done|]; intros t [?%elem_of_nil|?]; [done|by apply Hv]|]. intros w1 [] _ Hok1; [|done].
  apply (keep_calm own w1 A C (_ : M (result ferror FileTransfer))); [|done]. unfold syncDir, read_transfer. calm.
Qed.

Lemma PublishedPath_ok own w A C id :
  service_ok sha256 own w A C -> service_ok sha256 own (PublishedPath id w).1 A C.
Proof.
  intros Hok. destruct (read_transfer_view id w) as [Hv Ht].
  apply (bind_ok own); [by eapply view_ok|]. intros w1 [t|] E Hok1; [|done]. rewrite E in Hv, Ht. simpl in Hv, Ht. specialize (Ht _ eq_refl).
  case_decide; [done|].
  assert (db_transfers (w_db w1) !! id = Some t) as Hr by (destruct Hv as [-> _]; done).
  assert (ft_ID t = id) as Hid by (by eapply so_rows).
  apply (bind_ok own).
  { unfold publishedPath. rewrite Hid. by eapply link_ok. }
  intros w2 r _ Hok2. apply (keep_calm own w2 A C (_ : M (result ferror string))); [|done]. unfold syncDir. calm.
Qed.

(** *** Appends *)

Lemma resize_le n d : 0 <= n <= len d -> resize n d = take (Z.to_nat n) d.
Proof. intros Hn. unfold resize. replace (Z.to_nat n - length d)%nat with O by lia. by rewrite app_nil_r. Qed.

Lemma good_take r d : good sha256 r d -> good sha256 r (take (Z.to_nat (ft_Size r)) d).
Proof.
  intros (H1 & H2 & H3). unfold good. rewrite take_take, Nat.min_id, length_take. split_and!; [done|lia|lia|done].
Qed.

(** Truncating to the committed offset. *)
Lemma truncate_ok own w A C id r ino a :
  service_ok sha256 own w A C -> own !! ino = Some id -> db_transfers (w_db w) !! id = Some r ->
  same_file (ap_transfer a) r -> ap_offset a = ft_CommittedOffset r -> ap_ino a = ino -> ap_written a = 0 ->
  service_ok sha256 own (file_Truncate ino (ft_CommittedOffset r) w).1 (delete id A) C
  /\ ((file_Truncate ino (ft_CommittedOffset r) w).2 = Ok tt ->
      service_ok sha256 own (file_Truncate ino (ft_CommittedOffset r) w).1 (<[id := a]> A) C).
Proof.
  intros Hok Ho Hr Hsame Hoff Hino Hwr. pose proof (row_range _ _ _ (so_rows _ _ _ _ _ Hok) Hr) as Hrange.
  destruct (so_own _ _ _ _ _ Hok _ _ Ho) as (_ & r' & Hr' & Hlen). simplify_eq.
  unfold file_Truncate.
  match goal with |- context [syscall ?act w] => destruct (syscall_cases act w) as (fs & [->|[-> Hres]]) end.
  { split; [|done]. eapply fewer_ok; [by apply set_faults_ok|apply delete_subseteq|done]. }
  pose proof (set_faults_ok _ _ _ _ fs Hok) as Hok0.
  assert (Hw : forall A', others id A A' -> (forall a', A' !! id = Some a' -> a' = a) ->
    service_ok sha256 own (set_files (w_dir w) (<[ap_ino a := resize (ft_CommittedOffset r) (contents w (ap_ino a))]> (w_data w))
      (w_next w) (set_faults fs w)) A' C).
  { intros A' HA Ha. rewrite resize_le by lia. apply (written_ok own (set_faults fs w) A A' C (ap_ino a) id r); try done.
    - rewrite length_take. lia.
    - intros Hg. pose proof Hg as (-> & _ & _). by apply good_take.
    - intros a' Ha'. apply Ha in Ha' as ->. unfold append_at, ap_remaining. pose proof Hsame as (_ & _ & _ & _ & _ & _ & Hz & _).
      rewrite length_take. split_and!; try done; lia. }
  split; [|intros _]; apply Hw.
  - by intros id' a' Hne [_ ?]%lookup_delete_Some.
  - intros a'. by rewrite lookup_delete_eq.
  - intros id' a' Hne. by rewrite lookup_insert_ne.
  - intros a'. rewrite lookup_insert_eq. congruence.
Qed.

(** Writing at the end of the file of an append. *)
Lemma write_ok own w A C id a bs :
  service_ok sha256 own w A C -> A !! id = Some a -> len bs <= ap_remaining a + 1 - ap_written a ->
  let call := file_Write (ap_ino a) (ap_offset a + ap_written a) bs w in
  service_ok sha256 own call.1 (delete id A) C
  /\ (call.2 = Ok tt ->
      service_ok sha256 own call.1
        (<[id := mkAppending (ap_transfer a) (ap_ino a) (ap_written a + len bs) (ap_signal a)]> A) C).
Proof.
  intros Hok Ha Hbs. destruct (so_appending _ _ _ _ _ Hok _ _ Ha) as (Ho & Hw & Hl & r & Hr & Hsame & Hoff).
  pose proof (row_range _ _ _ (so_rows _ _ _ _ _ Hok) Hr) as Hrange.
  pose proof Hsame as (_ & _ & _ & _ & _ & _ & Hz & _).
  unfold file_Write.
  match goal with |- context [syscall ?act w] => destruct (syscall_cases act w) as (fs & [->|[-> Hres]]) end.
  { split; [|done]. eapply fewer_ok; [by apply set_faults_ok|apply delete_subseteq|done]. }
  pose proof (set_faults_ok _ _ _ _ fs Hok) as Hok0. simpl. change (contents (set_faults fs w)) with (contents w).
  set (d := contents w (ap_ino a)) in *.
  assert (resize (ap_offset a + ap_written a) d ++ bs ++ drop (Z.to_nat (ap_offset a + ap_written a) + length bs) d = d ++ bs) as ->.
  { rewrite resize_le, take_ge, drop_ge, app_nil_r by lia. done. }
  assert (Hwr : forall A', others id A A' -> (forall a', A' !! id = Some a' -> a' = mkAppending (ap_transfer a) (ap_ino a) (ap_written a + len bs) (ap_signal a)) ->
    service_ok sha256 own (set_files (w_dir w) (<[ap_ino a := d ++ bs]> (w_data w)) (w_next w) (set_faults fs w)) A' C).
  { intros A' HA Ha'. apply (written_ok own (set_faults fs w) A A' C (ap_ino a) id r); try done.
    - rewrite length_app. lia.
    - intros (Hg1 & Hg2 & Hg3). unfold good. change (contents (set_faults fs w) (ap_ino a)) with d in *.
      unfold ap_remaining in *. rewrite length_app, take_app_le by lia. split_and!; try done; lia.
    - intros a' ->%Ha'. unfold append_at, ap_remaining, ap_offset in *. simpl. rewrite length_app. split_and!; try done; lia. }
  split; [|intros _]; apply Hwr.
  - by intros id' a' Hne [_ ?]%lookup_delete_Some.
  - intros a'. by rewrite lookup_delete_eq.
  - intros id' a' Hne. by rewrite lookup_insert_ne.
  - intros a'. rewrite lookup_insert_eq. congruence.
Qed.

Lemma Append_begin_ok own w A C id offset :
  service_ok sha256 own w A C -> A !! id = None ->
  service_ok sha256 own (Append_begin id offset w).1 A C
  /\ forall a, (Append_begin id offset w).2 = Ok a ->
       service_ok sha256 own (Append_begin id offset w).1 (<[id := a]> A) C.
Proof.
  intros Hok HA. unfold Append_begin. destruct (read_transfer_view id w) as [Hv Ht].
  destruct (read_transfer id w) as [w1 [t|]] eqn:E1; rewrite (bind_run _ _ _ _ _ E1); simpl in *;
    (assert (service_ok sha256 own w1 A C) as H1 by (by eapply view_ok)); [|by split].
  case_decide; [by split|]. case_decide; [by split|]. specialize (Ht _ eq_refl).
  assert (db_transfers (w_db w1) !! id = Some t) as Hr1 by (by destruct Hv as [-> _]).
  destruct (open_view (partialPath id) w1) as [Hv2 Hino].
  destruct (os_Open _ w1) as [w2 [ino|]] eqn:E2; rewrite (bind_run _ _ _ _ _ E2); simpl in *;
    (assert (service_ok sha256 own w2 A C) as H2 by (by eapply view_ok)); [|by split].
  specialize (Hino _ eq_refl).
  assert (own !! ino = Some id) as Ho by (by eapply (owner_of own w1)).
  assert (db_transfers (w_db w2) !! id = Some t) as Hr2 by (by destruct Hv2 as [-> _]).
  assert (Ht2 : forall c, service_ok sha256 own (file_Truncate ino offset w2).1 A C
     /\ ((file_Truncate ino offset w2).2 = Ok tt ->
         service_ok sha256 own (file_Truncate ino offset w2).1 (<[id := mkAppending t ino 0 c]> A) C)).
  { intros c. destruct (truncate_ok own w2 A C id t ino (mkAppending t ino 0 c)) as [Ha Hb]; try done.
    rewrite delete_id in Ha by done. assert (offset = ft_CommittedOffset t) as -> by done. by split. }
  destruct (file_Truncate ino offset w2) as [w3 [[]|]] eqn:E3; rewrite (bind_run _ _ _ _ _ E3); simpl in *;
    [|by destruct (Ht2 O)].
  pose proof (quiet_view w3) as Hv4.
  destruct (quiet w3) as [w4 [[]|]] eqn:E4; rewrite (bind_run _ _ _ _ _ E4); simpl in *.
  2:{ split; [|done]. eapply view_ok; [done|]. by apply (Ht2 O). }
  pose proof (signal_view id w4) as Hv5.
  destruct (cancelSignal id w4) as [w5 c] eqn:E5; rewrite (bind_run _ _ _ _ _ E5). simpl in *.
  assert (view w3 w5) as Hv35 by (by etrans). split; [eapply view_ok; [done|]; by apply (Ht2 c)|].
  intros a [= <-]. eapply view_ok; [done|]. by apply (Ht2 c).
Qed.

Lemma Append_end_ok own w A C id a :
  service_ok sha256 own w A C -> A !! id = Some a -> service_ok sha256 own (Append_end a w).1 (delete id A) C.
Proof.
  intros Hok Ha. destruct (so_appending _ _ _ _ _ Hok _ _ Ha) as (Ho & Hw & Hl & r & Hr & Hsame & Hoff).
  assert (ft_ID (ap_transfer a) = id) as Hid.
  { destruct (so_rows _ _ _ _ _ Hok _ _ Hr) as [<- _]. by destruct Hsame as [? _]. }
  unfold Append_end. case_decide as Hle.
  - rewrite <- Hoff.
    destruct (truncate_ok own w A C id r (ap_ino a) (mkAppending (ap_transfer a) (ap_ino a) 0 (ap_signal a))) as [Ht _]; try done.
    destruct (file_Truncate _ _ w) as [w1 res] eqn:E1. by rewrite (bind_run _ _ _ _ _ E1).
  - pose proof (quiet_view w) as Hv. assert (Hdel : forall w0, service_ok sha256 own w0 A C -> service_ok sha256 own w0 (delete id A) C)
      by (intros w0 H0; eapply fewer_ok; [done|apply delete_subseteq|done]).
    destruct (quiet w) as [w1 [[]|]] eqn:E1; rewrite (bind_run _ _ _ _ _ E1); simpl in *;
      (assert (service_ok sha256 own w1 A C) as H1 by (by eapply view_ok)); [|by apply Hdel].
    apply (bind_ok own); [|by intros w2 []]. apply (bind_ok own).
    + apply Hdel. eapply view_ok; [apply next_fault_view|done].
    + intros w2 f E2 _. rewrite Hid. unfold action.
      pose proof (next_fault_view w1) as Hv2. rewrite E2 in Hv2. simpl in Hv2.
      assert (service_ok sha256 own w2 A C) as H2 by (by eapply view_ok).
      pose proof (commit_offset_ok own w2 A C id a f H2 Ha ltac:(lia)) as Hc.
      by destruct (CommitFileTransferOffset f (w_db w2) id _ _).
Qed.

Lemma Append_read_ok own w A C id a ctx_done ev :
  service_ok sha256 own w A C -> A !! id = Some a ->
  service_ok sha256 own (Append_read ctx_done ev a w).1 (delete id A) C
  /\ forall a', (Append_read ctx_done ev a w).2 = inl a' ->
       service_ok sha256 own (Append_read ctx_done ev a w).1 (<[id := a']> A) C.
Proof.
  intros Hok Ha. destruct (so_appending _ _ _ _ _ Hok _ _ Ha) as (Ho & Hw & Hl & r & Hr & Hsame & Hoff).
  assert (Hdel : service_ok sha256 own w (delete id A) C) by (eapply fewer_ok; [done|apply delete_subseteq|done]).
  assert (Hend : service_ok sha256 own ((Append_end a ≫= fun r => mret (inr r) : M (appending + _)) w).1 (delete id A) C
    /\ forall a', ((Append_end a ≫= fun r => mret (inr r) : M (appending + _)) w).2 = inl a' ->
      service_ok sha256 own ((Append_end a ≫= fun r => mret (inr r) : M (appending + _)) w).1 (<[id := a']> A) C).
  { pose proof (Append_end_ok own w A C id a Hok Ha) as He. destruct (Append_end a w) as [w1 res] eqn:E.
    rewrite (bind_run _ _ _ _ _ E). by split. }
  unfold Append_read. case_decide as Hlim; [done|]. destruct ctx_done; [by split|].
  unfold get. rewrite (bind_run _ _ w w (bool_decide (ap_signal a ∈ w_closed w)) eq_refl).
  destruct (bool_decide _); [by split|]. destruct ev as [bs| |context|bs context]; [|done|by split|].
  2:{ destruct (write_ok own w A C id a (take (Z.to_nat (ap_remaining a + 1 - ap_written a)) bs)) as [Hwrite _];
        [done|done|rewrite length_take; lia|].
      destruct (file_Write _ _ _ w) as [w1 r1] eqn:E. rewrite (bind_run _ _ _ _ _ E). by split. }
  set (bs' := take (Z.to_nat (ap_remaining a + 1 - ap_written a)) bs).
  assert (len bs' <= ap_remaining a + 1 - ap_written a) as Hbs by (unfold bs'; rewrite length_take; lia).
  set (a' := mkAppending (ap_transfer a) (ap_ino a) (ap_written a + len bs') (ap_signal a)).
  assert (Hwrite : service_ok sha256 own (file_Write (ap_ino a) (ap_offset a + ap_written a) bs' w).1 (delete id A) C
    /\ ((file_Write (ap_ino a) (ap_offset a + ap_written a) bs' w).2 = Ok tt ->
        service_ok sha256 own (file_Write (ap_ino a) (ap_offset a + ap_written a) bs' w).1 (<[id := a']> A) C)).
  { by apply write_ok. }
  destruct (file_Write _ _ bs' w) as [w1 [[]|]] eqn:E; rewrite (bind_run _ _ _ _ _ E); simpl in *.
  - split; [by apply Hwrite|]. intros a1 [= <-]. by apply Hwrite.
  - by destruct Hwrite.
Qed.

(** *** Verification *)

Lemma content_name_view id w :
  view w (content_name id w).1 /\ exists rest, (content_name id w).2 = id +:+ rest.
Proof.
  unfold content_name. destruct (open_view (partialPath id) w) as [Hv _].
  destruct (os_Open (partialPath id) w) as [w1 r] eqn:E. rewrite (bind_run _ _ _ _ _ E). split; [done|].
  unfold partialPath, contentPath. destruct r as [|[]]; simpl; eauto.
Qed.

Lemma verify_one_ok own w A C ctx_done ts t r :
  service_ok sha256 own w A C -> db_transfers (w_db w) !! ft_ID t = Some r -> settles t r ->
  (verify_one sha256 ctx_done ts t w).2 = Ok tt ->
  view w (verify_one sha256 ctx_done ts t w).1 /\ verified sha256 own (verify_one sha256 ctx_done ts t w).1 t.
Proof.
  intros Hok Hr [Hs Hc]. unfold verify_one. case_decide as Hg; [done|].
  destruct (content_name_view (ft_ID t) w) as [Hv1 [rest Hrest]].
  destruct (content_name (ft_ID t) w) as [w1 name] eqn:E1. rewrite (bind_run _ _ _ _ _ E1). simpl in *. subst name.
  destruct (open_view (ft_ID t +:+ rest) w1) as [Hv2 Hopen].
  destruct (os_Open _ w1) as [w2 [ino|]] eqn:E2; rewrite (bind_run _ _ _ _ _ E2); simpl in *; [|done].
  specialize (Hopen _ eq_refl). pose proof (signal_view (ft_ID t) w2) as Hv3.
  destruct (cancelSignal (ft_ID t) w2) as [w3 c] eqn:E3. rewrite (bind_run _ _ _ _ _ E3). simpl in *.
  unfold get. rewrite (bind_run _ _ w3 w3 (bool_decide (c ∈ w_closed w3)) eq_refl).
  destruct (ctx_done || _); [done|]. destruct (read_view ino w3) as [Hv4 Hread].
  destruct (file_Read ino w3) as [w4 [bs|]] eqn:E4; rewrite (bind_run _ _ _ _ _ E4); simpl in *; [|done].
  specialize (Hread _ eq_refl). pose proof (quiet_view w4) as Hv5.
  destruct (quiet w4) as [w5 [[]|]] eqn:E5; rewrite (bind_run _ _ _ _ _ E5); simpl in *; [|done].
  case_decide as Hbad.
  { destruct (cancelBatchLocked ts w5) as [w6 x] eqn:E6. by rewrite (bind_run _ _ _ _ _ E6). }
  intros _. simpl. assert (view w w3) as Hv03 by (etrans; [exact Hv1|]; etrans; [exact Hv2|exact Hv3]).
  assert (view w w5) as Hv by (etrans; [exact Hv03|]; etrans; [exact Hv4|exact Hv5]). split; [done|].
  assert (own !! ino = Some (ft_ID t)) as Ho.
  { eapply (owner_of own w); [done| |done|done]. by destruct Hv1 as (_ & <- & _). }
  apply (verified_view own w); [by destruct Hv|by destruct Hv as (_ & _ & ? & _)|]. split; [by eexists|].
  intros r' ino' Hr' Ho'. simplify_eq. rewrite (so_one _ _ _ _ _ Hok _ _ _ Ho' Ho).
  assert (contents w ino = contents w3 ino) as -> by (unfold contents; destruct Hv03 as (_ & _ & -> & _); done).
  destruct (row_steps_same _ _ Hs) as (_ & _ & _ & _ & _ & _ & Hz & Hh & _).
  unfold good. rewrite Hz, Hh, take_ge by lia. split_and!; [lia|lia|lia|].
  destruct (decide (hex_digest sha256 (contents w3 ino) = ft_SHA256 t)); [done|tauto].
Qed.

Lemma verify_all_ok own w A C ctx ts l :
  service_ok sha256 own w A C ->
  (forall t, t ∈ l -> exists r, db_transfers (w_db w) !! ft_ID t = Some r /\ settles t r) ->
  (verify_all sha256 ctx ts l w).2 = Ok tt ->
  view w (verify_all sha256 ctx ts l w).1
  /\ forall t, t ∈ l -> verified sha256 own (verify_all sha256 ctx ts l w).1 t.
Proof.
  revert ctx w. induction l as [|t l IH]; intros ctx w Hok Hl; cbn [verify_all].
  { intros _. split; [done|]. by intros t ?%elem_of_nil. }
  destruct (Hl t ltac:(by left)) as (r & Hr & Hs).
  pose proof (verify_one_ok own w A C (default false (head ctx)) ts t r Hok Hr Hs) as H1.
  destruct (verify_one sha256 _ ts t w) as [w1 [[]|]] eqn:E1; rewrite (bind_run _ _ _ _ _ E1); simpl in *; [|done].
  destruct (H1 eq_refl) as [Hv1 Hver]. intros Hrest.
  destruct (IH (tail ctx) w1) as [Hv2 Hall]; [by eapply view_ok| |done|].
  { intros u Hu. destruct Hv1 as [-> _]. apply Hl. by right. }
  split; [etrans; [exact Hv1|exact Hv2]|]. intros u [->|Hu]%elem_of_cons; [|by apply Hall].
  apply (verified_view own w1); [by destruct Hv2|by destruct Hv2 as (_ & _ & ? & _)|done].
Qed.

Lemma select_rows p key db t : transfers_ok db -> t ∈ select p key db -> db_transfers db !! ft_ID t = Some t /\ p t = true.
Proof.
  unfold select. intros Hok Ht. rewrite merge_sort_Permutation in Ht. apply list_elem_of_filter in Ht as [Hp Ht].
  apply elem_of_rows in Ht as [id Hid]. destruct (Hok _ _ Hid) as [<- _]. split; [done|by apply Is_true_true].
Qed.

Lemma read_batch_view b w :
  view w (read_batch b w).1
  /\ forall ts t, transfers_ok (w_db w) -> (read_batch b w).2 = Ok ts -> t ∈ ts ->
      db_transfers (w_db w) !! ft_ID t = Some t /\ ft_BatchID t = b.
Proof.
  unfold read_batch, db_read, get, mbind, M_bind. pose proof (next_fault_view w) as Hv.
  destruct (next_fault w) as [w1 f]. simpl in *. split; [done|]. intros ts t Hok. destruct Hv as [-> _].
  unfold FileTransfersByBatch, reading. case_decide; [done|]. case_decide; [done|].
  destruct (select _ _ _) as [|t0 ts0] eqn:Es; [done|]. intros [= <-]. rewrite <- Es. intros Ht.
  apply select_rows in Ht as [? Hb]; [|done]. split; [done|]. by apply bool_decide_eq_true in Hb.
Qed.

Lemma Complete_begin_ok own w A C ctx id q ts :
  service_ok sha256 own w A C -> (Complete_begin sha256 ctx id w).2 = Ok (inr (q, ts)) ->
  forall t, t ∈ ts -> verified sha256 own (Complete_begin sha256 ctx id w).1 t.
Proof.
  intros Hok. unfold Complete_begin. destruct (read_transfer_view id w) as [Hv1 _].
  destruct (read_transfer id w) as [w1 [t0|]] eqn:E1; rewrite (bind_run _ _ _ _ _ E1); simpl in *; [|done].
  assert (service_ok sha256 own w1 A C) as Hok1 by (by eapply view_ok).
  destruct (read_batch_view (ft_BatchID t0) w1) as [Hv2 Hts].
  destruct (read_batch _ w1) as [w2 [l|]] eqn:E2; rewrite (bind_run _ _ _ _ _ E2); simpl in *; [|done].
  assert (service_ok sha256 own w2 A C) as Hok2 by (by eapply view_ok).
  destruct (forallb _ l).
  { destruct (read_transfer id w2) as [w3 [t1|]] eqn:E3; by rewrite (bind_run _ _ _ _ _ E3). }
  pose proof (verify_all_ok own w2 A C ctx l l Hok2) as Hver.
  destruct (verify_all sha256 ctx l l w2) as [w3 [[]|]] eqn:E3; rewrite (bind_run _ _ _ _ _ E3); simpl in *; [|done].
  intros [= <- <-]. apply Hver; [|done]. intros t Ht. destruct (Hts l t (so_rows _ _ _ _ _ Hok1) eq_refl Ht) as [Hr _].
  exists t. split; [by destruct Hv2 as [-> _]|done].
Qed.

(** *** Creation *)

Lemma newID_length random id rest : newID "ft_" random = Ok (id, rest) -> String.length id = 35%nat.
Proof.
  unfold newID. case_decide; [done|]. intros [= <- _].
  change (S (S (S (String.length (hex_EncodeToString (take 16 random))))) = 35%nat).
  rewrite length_hex, length_take. lia.
Qed.

(** The transfers that [Create] builds. *)
Lemma new_transfers_spec p r now random total files ts :
  new_transfers p r now random total files = Ok ts ->
  length ts = length files
  /\ forall t, t ∈ ts -> String.length (ft_ID t) = 35%nat /\ ft_BatchID t = cr_BatchID r /\ ft_CommittedOffset t = 0.
Proof.
  revert random total ts. induction files as [|f files IH]; intros random total ts; simpl.
  { intros [= <-]. split; [done|]. by intros t ?%elem_of_nil. }
  destruct (negb _); [done|]. case_decide; [done|]. destruct (negb _); [done|]. case_decide; [done|].
  destruct (newID "ft_" random) as [[id random']|] eqn:Eid; [|done].
  destruct (new_transfers _ _ _ random' _ files) as [rest|] eqn:Er; [|done]. intros [= <-].
  destruct (IH _ _ _ Er) as [Hl Hall]. split; [simpl; by rewrite Hl|].
  intros t [->|Ht]%elem_of_cons; [|by apply Hall]. simpl. by apply newID_length in Eid.
Qed.

Lemma inserted_rows_ok own w A C ts db' :
  service_ok sha256 own w A C -> insert_transfers (w_db w) ts = Ok db' ->
  (forall t, t ∈ ts -> String.length (ft_ID t) = 35%nat) -> service_ok sha256 own (set_db db' w) A C.
Proof.
  intros Hok Hi Hlen. pose proof Hi as (Hold & Hnew & _)%insert_transfers_spec.
  assert (Hown : forall ino id r, own !! ino = Some id -> db_transfers db' !! id = Some r -> db_transfers (w_db w) !! id = Some r).
  { intros ino id r Ho Hr. destruct (so_own _ _ _ _ _ Hok _ _ Ho) as (_ & r' & Hr' & _). apply Hold in Hr' as ?. congruence. }
  split; try by eapply Hok.
  - intros id r Hr. simpl in Hr. destruct (db_transfers (w_db w) !! id) as [r0|] eqn:E.
    + rewrite (Hold _ _ E) in Hr. simplify_eq. by eapply so_rows.
    + destruct (Hnew _ _ E Hr) as (t & _ & -> & <- & Hc). split; [done|]. by eapply (fresh_row_ok (ft_ID t)).
  - intros id r Hr. simpl in Hr. destruct (db_transfers (w_db w) !! id) as [r0|] eqn:E; [by eapply so_ids|].
    destruct (Hnew _ _ E Hr) as (t & Ht & _ & <- & _). by apply Hlen.
  - intros ino id Ho. destruct (so_own _ _ _ _ _ Hok _ _ Ho) as (? & r & Hr & ?). eauto.
  - intros name ino id r Hn Ho Hp Hr. apply (so_placed _ _ _ _ _ Hok name ino id); try done. by eapply Hown.
  - intros id a Ha. destruct (so_appending _ _ _ _ _ Hok _ _ Ha) as (H1 & H2 & H3 & r & Hr & H4). eauto 10.
  - intros b q l t Hb Ht. destruct (so_completing _ _ _ _ _ Hok _ _ _ _ Hb Ht) as [? Hg].
    split; [done|]. intros r' ino Hr' Ho. apply Hg; [|done]. by eapply Hown.
Qed.

(** The transfer has its row and no file yet. *)
Definition without_file own w (t : FileTransfer) : Prop :=
  (exists r, db_transfers (w_db w) !! ft_ID t = Some r /\ ft_CommittedOffset r = 0)
  /\ forall ino, own !! ino <> Some (ft_ID t).

Lemma created_file_ok own w A C t :
  service_ok sha256 own w A C -> without_file own w t -> w_dir w !! partialPath (ft_ID t) = None ->
  service_ok sha256 (<[w_next w := ft_ID t]> own)
    (set_files (<[partialPath (ft_ID t) := w_next w]> (w_dir w)) (<[w_next w := []]> (w_data w)) (S (w_next w)) w) A C.
Proof.
  intros Hok [(r & Hr & Hoff) Hno] Hn.
  assert (Hlt : forall ino id, own !! ino = Some id -> ino <> w_next w)
    by (intros ino id Ho; destruct (so_own _ _ _ _ _ Hok _ _ Ho); lia).
  assert (Hsplit : forall ino id, <[w_next w := ft_ID t]> own !! ino = Some id ->
    (ino = w_next w /\ id = ft_ID t) \/ (ino <> w_next w /\ own !! ino = Some id)).
  { intros ino id. destruct (decide (ino = w_next w)) as [->|Hne].
    - rewrite lookup_insert_eq. intros [= <-]. by left.
    - rewrite lookup_insert_ne by done. by right. }
  assert (Hins : forall ino id, own !! ino = Some id -> <[w_next w := ft_ID t]> own !! ino = Some id)
    by (intros ino id Ho; rewrite lookup_insert_ne; [done|]; intros <-; by eapply Hlt).
  split; try by eapply Hok.
  - intros name ino. simpl. destruct (decide (name = partialPath (ft_ID t))) as [->|Hne].
    + rewrite lookup_insert_eq. intros [= <-]. exists (ft_ID t), ".part". by rewrite lookup_insert_eq.
    + rewrite lookup_insert_ne by done. intros Hname. destruct (so_dir _ _ _ _ _ Hok _ _ Hname) as (id & rest & Ho & ->).
      eauto.
  - intros ino id Ho. rewrite contents_insert. simpl. destruct (Hsplit _ _ Ho) as [[-> ->]|[Hne Ho']].
    + split; [lia|]. rewrite decide_True by done. exists r. split; [done|]. simpl. lia.
    + destruct (so_own _ _ _ _ _ Hok _ _ Ho') as (? & r' & ? & ?). split; [lia|]. rewrite decide_False by done. eauto.
  - intros i j id Hi Hj. destruct (Hsplit _ _ Hi) as [[-> ->]|[_ Hi']], (Hsplit _ _ Hj) as [[-> Heq]|[_ Hj']]; [done|..].
    + by apply Hno in Hj'.
    + subst. by apply Hno in Hi'.
    + by eapply so_one.
  - intros name ino id r' Hname Ho Hp Hr'. rewrite contents_insert. simpl in Hname.
    destruct (decide (name = partialPath (ft_ID t))) as [->|Hne].
    + rewrite lookup_insert_eq in Hname. simplify_eq. rewrite lookup_insert_eq in Ho. by simplify_eq.
    + rewrite lookup_insert_ne in Hname by done. destruct (Hsplit _ _ Ho) as [[-> ->]|[Hd Ho']].
      * destruct (so_dir _ _ _ _ _ Hok _ _ Hname) as (? & ? & ?%Hlt & _). done.
      * rewrite decide_False by done. by eapply so_placed.
  - intros id a Ha. destruct (so_appending _ _ _ _ _ Hok _ _ Ha) as (H1 & H2 & H3 & r' & Hr' & H4).
    rewrite contents_insert, decide_False by (by eapply Hlt). eauto 10.
  - intros b q l u Hb Hu. destruct (so_completing _ _ _ _ _ Hok _ _ _ _ Hb Hu) as [[i Hi] Hg].
    split; [eauto|]. intros r' ino Hr' Ho. rewrite contents_insert. destruct (Hsplit _ _ Ho) as [[-> Heq]|[Hd Ho']].
    + rewrite Heq in Hi. by apply Hno in Hi.
    + rewrite decide_False by done. by apply Hg.
Qed.

Lemma create_excl_ok own w A C t :
  service_ok sha256 own w A C -> without_file own w t ->
  exists own', service_ok sha256 own' (create_excl (partialPath (ft_ID t)) w).1 A C
    /\ w_db (create_excl (partialPath (ft_ID t)) w).1 = w_db w
    /\ forall ino id, own' !! ino = Some id -> own !! ino = Some id \/ id = ft_ID t.
Proof.
  intros Hok Hno. unfold create_excl.
  match goal with |- context [syscall ?act w] => destruct (syscall_cases act w) as (fs & [->|[-> _]]) end.
  { exists own. split; [by apply set_faults_ok|]. eauto. }
  pose proof (set_faults_ok _ _ _ _ fs Hok) as Hok0.
  destruct (w_dir (set_faults fs w) !! partialPath (ft_ID t)) eqn:En; [exists own; eauto|].
  exists (<[w_next w := ft_ID t]> own). split; [|split; [done|]].
  - by apply (created_file_ok own (set_faults fs w)).
  - intros ino id [[_ ?]|[_ ?]]%lookup_insert_Some; eauto.
Qed.

Lemma create_partials_ok own w A C l :
  service_ok sha256 own w A C -> NoDup (ft_ID <$> l) -> (forall t, t ∈ l -> without_file own w t) ->
  exists own', service_ok sha256 own' (for_each_or l create_partial w).1 A C.
Proof.
  revert own w. induction l as [|t l IH]; intros own w Hok Hnd Hl; [by exists own|].
  apply NoDup_cons in Hnd as [Hnin Hnd]. cbn [for_each_or].
  assert (Hone : exists own', service_ok sha256 own' (create_partial t w).1 A C /\ w_db (create_partial t w).1 = w_db w
    /\ forall ino id, own' !! ino = Some id -> own !! ino = Some id \/ id = ft_ID t).
  { unfold create_partial. pose proof (signal_view (ft_ID t) w) as Hv1.
    destruct (cancelSignal (ft_ID t) w) as [w1 c] eqn:E1. rewrite (bind_run _ _ _ _ _ E1). simpl in Hv1.
    destruct (create_excl_ok own w1 A C t) as (own' & H1 & H2 & H3); [by eapply view_ok| |].
    { destruct (Hl t ltac:(by left)) as [Hr Hno]. split; [|done]. by destruct Hv1 as [-> _]. }
    exists own'. destruct (create_excl _ w1) as [w2 [[]|]] eqn:E2; rewrite (bind_run _ _ _ _ _ E2); simpl in *.
    - pose proof (quiet_view w2) as Hv2. destruct (quiet w2) as [w3 [[]|]] eqn:E3; rewrite (bind_run _ _ _ _ _ E3); simpl in *;
        (split; [by eapply view_ok|split; [|done]]); destruct Hv1 as [<- _], Hv2 as [-> _]; done.
    - split; [done|]. destruct Hv1 as [<- _]. done. }
  destruct Hone as (own' & H1 & H2 & H3).
  destruct (create_partial t w) as [w1 [[]|]] eqn:E1; rewrite (bind_run _ _ _ _ _ E1); simpl in *; [|by exists own'].
  apply (IH own'); [done|done|]. intros u Hu. destruct (Hl u ltac:(by right)) as [Hr Hno]. split; [by rewrite H2|].
  intros ino [Ho|He]%H3; [by apply Hno in Ho|]. apply Hnin. rewrite <- He. by apply list_elem_of_fmap_2.
Qed.

Lemma Create_ok own w A C now random req :
  service_ok sha256 own w A C -> exists own', service_ok sha256 own' (Create now random req w).1 A C.
Proof.
  intros Hok. unfold Create, get. rewrite (bind_run _ _ w w (w_policy w) eq_refl).
  case_decide; [by exists own|]. case_decide; [by exists own|].
  destruct (new_transfers _ _ _ _ _ _) as [ts|] eqn:En; [|by exists own].
  apply new_transfers_spec in En as [_ Hts]. unfold db_call.
  pose proof (next_fault_view w) as Hv1. destruct (next_fault w) as [w1 f] eqn:E1. simpl in Hv1.
  assert (service_ok sha256 own w1 A C) as H1 by (by eapply view_ok).
  set (p := w_policy w). destruct (CreateFileTransfersWithinLimits f (w_db w1) ts (po_MaxPendingSpoolBytes p)
    (po_MaxConcurrentTransfers p)) as [db' res] eqn:Ec.
  erewrite (bind_run _ _ w (set_db db' w1) res) by (rewrite (bind_run _ _ _ _ _ E1); unfold action; by rewrite Ec).
  apply create_cases in Ec as [Hcases Hres].
  assert (Hins : insert_transfers (w_db w1) ts = Ok db' -> service_ok sha256 own (set_db db' w1) A C)
    by (intros Hi; eapply inserted_rows_ok; [done|done|]; intros t Ht; by apply Hts).
  destruct res as [[]|e].
  2:{ exists own. simpl. destruct Hcases as [->|Hi]; [|by apply Hins]. by destruct w1. }
  specialize (Hres eq_refl). specialize (Hins Hres).
  pose proof (insert_transfers_nodup _ _ _ Hres) as Hnd. apply insert_transfers_spec in Hres as (_ & _ & Hrow & _).
  destruct (create_partials_ok own (set_db db' w1) A C ts Hins Hnd) as [own' H2].
  { intros t Ht. destruct (Hrow t Ht) as [Hnone Hsome]. split; [by exists (created_row t)|].
    intros ino Ho. destruct (so_own _ _ _ _ _ H1 _ _ Ho) as (_ & r & ? & _). congruence. }
  exists own'. apply (bind_ok own'); [done|]. intros w2 created _ H3.
  apply (keep_calm own' w2 A C (_ : M (result ferror (list FileTransfer)))); [|done].
  unfold syncDir. pose proof calm_cancelBatch. calm.
Qed.
End Invariant.

(** ** Slots: only [acquire] and [release] change them *)

Definition steady {A} (m : M A) : Prop := forall w, w_active (m w).1 = w_active w.

Lemma steady_bind {A B} (m : M A) (k : A -> M B) : steady m -> (forall a, steady (k a)) -> steady (m ≫= k).
Proof. intros Hm Hk w. unfold mbind, M_bind. pose proof (Hm w). destruct (m w) as [w1 a]. simpl in *. by rewrite Hk. Qed.

Lemma steady_calm {A} (m : M A) : calm m -> steady m.
Proof. intros Hm w. by apply cs_active. Qed.

Lemma steady_syscall {A} (act : M (result errno A)) : steady act -> steady (syscall act).
Proof. intros Ha w. destruct (syscall_cases act w) as (fs & [->|[-> _]]); [done|]. by rewrite Ha. Qed.

Lemma steady_create name : steady (create_excl name).
Proof. apply steady_syscall. intros w. by case_match. Qed.
Lemma steady_rename a b : steady (os_Rename a b).
Proof. apply steady_syscall. intros w. by case_match. Qed.
Lemma steady_link a b : steady (os_Link a b).
Proof. apply steady_syscall. intros w. by repeat case_match. Qed.
Lemma steady_truncate i n : steady (file_Truncate i n).
Proof. by apply steady_syscall. Qed.
Lemma steady_write i n bs : steady (file_Write i n bs).
Proof. by apply steady_syscall. Qed.

Lemma steady_db_call {A} (call : fault -> DB -> DB * result store_error A) : steady (db_call call).
Proof.
  apply steady_bind; [apply steady_calm, calm_next_fault|]. intros f w. unfold action. by destruct (call f (w_db w)).
Qed.

Lemma steady_for_each {A} (l : list A) body : (forall x, steady (body x)) -> steady (for_each l body).
Proof. intros Hb. induction l; [done|]. by apply steady_bind. Qed.
Lemma steady_for_each_or {A} (l : list A) body : (forall x, steady (body x)) -> steady (for_each_or l body).
Proof. intros Hb. induction l; [done|]. apply steady_bind; [done|]. by intros []. Qed.

Create HintDb steady.
#[export] Hint Resolve steady_create steady_rename steady_link steady_truncate steady_write steady_db_call : steady.

Ltac steady :=
  repeat first
    [ progress intros
    | solve [eauto with steady]
    | solve [apply steady_calm; eauto using calm_cancelBatch with calm pb]
    | apply steady_for_each | apply steady_for_each_or
    | apply steady_bind
    | match goal with
      | |- steady (match ?x with _ => _ end) => destruct x
      | |- steady (match ?x with _ => _ end _) => destruct x
      end ].

Lemma steady_Create now random req : steady (Create now random req).
Proof. unfold Create, create_partial, syncDir. steady. Qed.
Lemma steady_Append_begin id offset : steady (Append_begin id offset).
Proof. unfold Append_begin, read_transfer. steady. Qed.
Lemma steady_Append_read c ev a : steady (Append_read c ev a).
Proof. unfold Append_read, Append_end. steady. Qed.
Lemma steady_rename_all r l : steady (rename_all r l).
Proof. revert r. induction l as [|t l IH]; intros r; simpl; steady. Qed.
Lemma steady_Complete_finish q ts : steady (Complete_finish q ts).
Proof. unfold Complete_finish, read_transfer, syncDir. pose proof steady_rename_all. steady. Qed.
Lemma steady_PublishedPath id : steady (PublishedPath id).
Proof. unfold PublishedPath, read_transfer, syncDir. steady. Qed.

Section Theorems.
Context (sha256 : list byte -> digest).

Record reachable_ok (s : service) : Prop := {
  ro_ok : exists own, service_ok sha256 own (sv_world s) (sv_appending s) (sv_completing s);
  ro_active : w_active (sv_world s) = Z.of_nat (size (sv_appending s));
  ro_bound : w_active (sv_world s) <= 2
}.

Lemma NewPolicyStore_valid p : Valid (NewPolicyStore p) = true.
Proof. unfold NewPolicyStore. by destruct (Valid p) eqn:E. Qed.

Lemma started_ok p : reachable_ok (started p).
Proof.
  split; [|done|done]. exists ∅. split; simpl; try (by intros; simplify_map_eq).
  apply NewPolicyStore_valid.
Qed.

Lemma on_ok own fs s :
  service_ok sha256 own (sv_world s) (sv_appending s) (sv_completing s) ->
  service_ok sha256 own (on fs s) (sv_appending s) (sv_completing s).
Proof. apply set_faults_ok. Qed.

(** A step whose program keeps the invariant and the slots. *)
Lemma reachable_ok_program {X} (m : M X) fs s C' :
  reachable_ok s -> steady m ->
  (forall own, service_ok sha256 own (on fs s) (sv_appending s) (sv_completing s) ->
     exists own', service_ok sha256 own' (m (on fs s)).1 (sv_appending s) C') ->
  reachable_ok (mkService (m (on fs s)).1 (sv_appending s) C').
Proof.
  intros [[own Hok] Ha Hb] Hm Hk. split; simpl.
  - destruct (Hk own) as [own' H]; [by apply on_ok|]. by exists own'.
  - by rewrite Hm.
  - by rewrite Hm.
Qed.

Lemma reachable_ok_calm {X} (m : M X) fs s :
  reachable_ok s -> calm m -> reachable_ok (mkService (m (on fs s)).1 (sv_appending s) (sv_completing s)).
Proof.
  intros Hs Hm. apply reachable_ok_program; [done|by apply steady_calm|]. intros own Hok. exists own. by apply keep_calm.
Qed.

Lemma acquired own fs s w :
  service_ok sha256 own (sv_world s) (sv_appending s) (sv_completing s) -> acquire (on fs s) = (w, true) ->
  service_ok sha256 own w (sv_appending s) (sv_completing s)
  /\ w_active w = w_active (sv_world s) + 1 /\ w_active (sv_world s) + 1 <= 2.
Proof.
  intros Hok. unfold acquire. case_decide as Hlt; intros [= <-]. simpl in Hlt.
  pose proof (so_policy _ _ _ _ _ Hok) as Hp. unfold Valid in Hp. rewrite bool_decide_eq_true in Hp.
  split_and!; [|done|lia]. by eapply view_ok; [|exact Hok].
Qed.

Lemma service_step_ok s s' : service_step sha256 s s' -> reachable_ok s -> reachable_ok s'.
Proof.
  destruct 1; intros Hs.
  - apply reachable_ok_program; [done|apply steady_Create|]. intros own Hok. by eapply Create_ok.
  - destruct Hs as [[own Hok] Ha Hb]. destruct (acquired _ _ _ _ Hok H0) as (Hw & Hact & Hle).
    destruct (Append_begin_ok sha256 own w _ _ id offset Hw H) as [_ Hgo].
    split; simpl; [exists own; by apply Hgo|..]; rewrite steady_Append_begin, Hact; [|done].
    rewrite map_size_insert_None by done. lia.
  - destruct Hs as [[own Hok] Ha Hb]. destruct (acquired _ _ _ _ Hok H0) as (Hw & Hact & Hle).
    destruct (Append_begin_ok sha256 own w _ _ id offset Hw H) as [Hno _].
    split; simpl; [exists own; by eapply view_ok; [|exact Hno]|..]; rewrite steady_Append_begin, Hact; lia.
  - destruct Hs as [[own Hok] Ha Hb]. pose proof (on_ok own fs s Hok) as Hw.
    destruct (Append_read_ok sha256 own _ _ _ id a ctx_done ev Hw H) as [_ Hgo].
    split; simpl; [exists own; by apply Hgo|..]; rewrite steady_Append_read; simpl; [|done].
    rewrite map_size_insert_Some by (by eexists). lia.
  - destruct Hs as [[own Hok] Ha Hb]. pose proof (on_ok own fs s Hok) as Hw.
    destruct (Append_read_ok sha256 own _ _ _ id a ctx_done ev Hw H) as [Hdel _].
    split; simpl; [exists own; by eapply view_ok; [|exact Hdel]|..]; rewrite steady_Append_read; simpl; [|lia].
    rewrite map_size_delete, H. assert (size (sv_appending s) <> 0)%nat
      by (apply map_size_non_empty_iff; intros E; by rewrite E, lookup_empty in H).
    lia.
  - apply reachable_ok_program; [done|apply steady_calm, calm_Complete_begin|]. intros own Hok. exists own.
    pose proof (Complete_begin_ok sha256 own _ _ _ ctx id q ts Hok H0) as Hver.
    pose proof (keep_calm sha256 own _ _ _ _ (calm_Complete_begin sha256 ctx id) Hok) as Hk.
    split; try by eapply Hk. intros b q' ts' t [[<- [= <- <-]]|[_ Hb]]%lookup_insert_Some Ht; [by apply Hver|].
    by eapply so_completing.
  - apply reachable_ok_calm; [done|apply calm_Complete_begin].
  - apply reachable_ok_program; [done|apply steady_Complete_finish|]. intros own Hok. exists own.
    eapply fewer_ok; [|done|apply delete_subseteq]. apply Complete_finish_ok; [done|]. intros t Ht. by eapply so_completing.
  - apply reachable_ok_calm; [done|apply calm_Cancel].
  - apply reachable_ok_calm; [done|apply calm_CleanupExpired].
  - apply reachable_ok_calm; [done|apply calm_Receipt].
  - apply reachable_ok_calm; [done|apply calm_OpenContent].
  - apply reachable_ok_program; [done|apply steady_PublishedPath|]. intros own Hok. exists own. by apply PublishedPath_ok.
  - apply reachable_ok_program; [done|intros w; unfold UpdatePolicy; by destruct (Valid p)|].
    intros own Hok. exists own. unfold UpdatePolicy. destruct (Valid p) eqn:Ev; [|done].
    split; try by eapply Hok. done.
  - destruct Hs as [[own Hok] Ha Hb]. split; [|done|done]. exists own. simpl.
    pose proof (fewer_ok sha256 own _ _ ∅ _ ∅ Hok (map_empty_subseteq _) (map_empty_subseteq _)) as H0.
    split; try by eapply H0. apply NewPolicyStore_valid.
Qed.

Lemma reachable_inv s : reachable sha256 s -> reachable_ok s.
Proof.
  intros [p Hs]. revert s Hs. apply rtc_ind_r; [apply started_ok|]. intros s s' _ H1 H2. by eapply service_step_ok.
Qed.

(** The declared bytes of a transfer, and at most one more, are under the name. *)
Definition holds (w : world) (ino : nat) (t : FileTransfer) : Prop :=
  ft_Size t <= len (contents w ino) <= ft_Size t + 1
  /\ hex_digest sha256 (take (Z.to_nat (ft_Size t)) (contents w ino)) = ft_SHA256 t.

Lemma placed_holds own w A C id rest ino t :
  service_ok sha256 own w A C -> db_transfers (w_db w) !! id = Some t -> w_dir w !! (id +:+ rest) = Some ino ->
  rest <> ".part" -> holds w ino t.
Proof.
  intros Hok Ht Hn Hrest. assert (own !! ino = Some id) as Ho by (by eapply owner_of).
  destruct (so_placed _ _ _ _ _ Hok (id +:+ rest) ino id t) as (_ & ? & ?); try done.
  unfold partialPath. by intros [_ ?]%append_inv.
Qed.

Lemma link_db a b w : w_db (os_Link a b w).1 = w_db w.
Proof.
  unfold os_Link. match goal with |- context [syscall ?act w] => destruct (syscall_cases act w) as (fs & [->|[-> _]]) end;
    [done|]. by repeat case_match.
Qed.

(** C7.  What a reader gets was verified.  In every run of the service (any requests, appends
    interleaved at every read with everything else, failures of any system or database
    call, restarts, policy changes), a file that [OpenContent] opens belongs to a finished
    transfer, and so does the name that [PublishedPath] returns, and the first bytes of the
    file, as many as declared at creation, have the declared SHA-256 digest; at most one
    byte follows them (the excess byte of an append that ran while the transfer was
    completed). *)
Theorem served_content_verified (s : service) (fs : list fault) (id : string) :
  reachable sha256 s ->
  (forall w ino t, OpenContent id (on fs s) = (w, Ok (ino, t)) ->
     ft_ID t = id /\ finished (ft_State t) = true /\ holds w ino t)
  /\ (forall w name, PublishedPath id (on fs s) = (w, Ok name) ->
     exists ino t, db_transfers (w_db w) !! id = Some t /\ ft_State t = "published" /\ w_dir w !! name = Some ino
       /\ holds w ino t).
Proof.
  intros Hs%reachable_inv. destruct Hs as [[own Hok] _ _]. apply (on_ok own fs) in Hok. split.
  - intros w ino t. pose proof (keep_calm sha256 own _ _ _ _ (calm_OpenContent id) Hok) as Hw.
    intros E. rewrite E in Hw. simpl in Hw. revert E. unfold OpenContent.
    destruct (read_transfer_view id (on fs s)) as [Hv Ht].
    destruct (read_transfer id (on fs s)) as [w1 [t1|]] eqn:E1; rewrite (bind_run _ _ _ _ _ E1); simpl in Hv, Ht; [|done].
    specialize (Ht _ eq_refl). destruct (finished (ft_State t1)) eqn:Ef; [|done].
    destruct (open_view (contentPath id) w1) as [Hv2 Ho].
    destruct (os_Open _ w1) as [w2 [i|]] eqn:E2; rewrite (bind_run _ _ _ _ _ E2); simpl in Hv2, Ho; [|done].
    intros [= <- <- <-]. specialize (Ho _ eq_refl). assert (view (on fs s) w2) as Hv3 by (etrans; [exact Hv|exact Hv2]).
    assert (db_transfers (w_db w2) !! id = Some t1) as Hr by (by destruct Hv3 as [-> _]).
    split; [by eapply so_rows|]. split; [done|]. apply (placed_holds own w2 _ _ id ".content" i t1 Hw Hr); [|done].
    destruct Hv2 as (_ & -> & _). exact Ho.
  - intros w name E. pose proof (PublishedPath_ok sha256 own _ _ _ id Hok) as Hw. rewrite E in Hw. simpl in Hw.
    revert E. unfold PublishedPath. destruct (read_transfer_view id (on fs s)) as [Hv Ht].
    destruct (read_transfer id (on fs s)) as [w1 [t|]] eqn:E1; rewrite (bind_run _ _ _ _ _ E1); simpl in Hv, Ht; [|done].
    specialize (Ht _ eq_refl). destruct (decide (ft_Direction t <> "pb_to_pbh" \/ _)) as [|Hst]; [done|].
    assert (ft_State t = "published") as Hpub by (apply dec_stable; tauto).
    assert (ft_ID t = id) as Hid by (eapply so_rows; [exact Hok|done]).
    pose proof (link_db (contentPath id) (publishedPath t) w1) as Hl.
    destruct (os_Link _ _ w1) as [w2 r] eqn:E2. rewrite (bind_run _ _ _ _ _ E2). simpl in Hl.
    assert (Hgo : (content ← os_Open (contentPath id); info ← os_Open (publishedPath t);
      match content, info with
      | Ok i1, Ok i2 => if decide (i1 <> i2) then mret (Err (FError StorageUnavailable))
          else let! _ := syncDir fails _ => FError StorageUnavailable in mret (Ok (publishedPath t))
      | _, _ => mret (Err (FError StorageUnavailable))
      end : M (result ferror string)) w2 = (w, Ok name) -> exists ino t, db_transfers (w_db w) !! id = Some t
        /\ ft_State t = "published" /\ w_dir w !! name = Some ino /\ holds w ino t); [|by destruct r as [|[]]].
    destruct (open_view (contentPath id) w2) as [Hv3 _].
    destruct (os_Open (contentPath id) w2) as [w3 c] eqn:E3. rewrite (bind_run _ _ _ _ _ E3). simpl in Hv3.
    destruct (open_view (publishedPath t) w3) as [Hv4 Hopen].
    destruct (os_Open (publishedPath t) w3) as [w4 c'] eqn:E4. rewrite (bind_run _ _ _ _ _ E4). simpl in Hv4, Hopen.
    destruct c as [i1|], c' as [i2|]; try done. case_decide; [done|]. specialize (Hopen _ eq_refl).
    unfold syncDir. pose proof (quiet_view w4) as Hv5.
    destruct (quiet w4) as [w5 [[]|]] eqn:E5; rewrite (bind_run _ _ _ _ _ E5); simpl in Hv5; [|done]. intros [= <- <-].
    assert (view w3 w5) as Hv35 by (etrans; [exact Hv4|exact Hv5]).
    assert (db_transfers (w_db w5) !! id = Some t) as Hr.
    { destruct Hv35 as [-> _], Hv3 as [-> _], Hv as [Hdb _]. rewrite Hl, Hdb. done. }
    assert (w_dir w5 !! publishedPath t = Some i2) as Hn by (by destruct Hv35 as (_ & -> & _)).
    exists i2, t. do 3 (split; [done|]). unfold publishedPath in Hn. rewrite Hid in Hn. by eapply placed_holds.
Qed.
End Theorems.

(** ** A run *)

(** A file of two bytes is created, uploaded in one append and completed. *)
Definition demo_service0 : service := started DefaultPolicy.
Definition demo_request (direction : string) : CreateRequest :=
  mkCreate "b" direction "s" "c" [mkFile "a.txt" 2 (hex_digest demo_hash [x61; x62])].
Definition demo_service1 : service :=
  mkService (Create 1 (replicate 16 x07) (demo_request "pb_to_pbh") (on [] demo_service0)).1 ∅ ∅.
Definition demo_id : string := "ft_07070707070707070707070707070707".
Definition demo_slot : world := (acquire (on [] demo_service1)).1.
Definition demo_append : appending :=
  match (Append_begin demo_id 0 demo_slot).2 with Ok a => a | Err _ => mkAppending (demo_transfer "" "" 0) 0 0 0 end.
Definition demo_service2 : service := mkService (Append_begin demo_id 0 demo_slot).1 {[demo_id := demo_append]} ∅.
Definition demo_append2 : appending :=
  match (Append_read false (BData [x61; x62]) demo_append (on [] demo_service2)).2 with inl a => a | inr _ => demo_append end.
Definition demo_service3 : service :=
  mkService (Append_read false (BData [x61; x62]) demo_append (on [] demo_service2)).1 (<[demo_id := demo_append2]> {[demo_id := demo_append]}) ∅.
Definition demo_service4 : service :=
  mkService (release (Append_read false BEnd demo_append2 (on [] demo_service3)).1).1
    (delete demo_id (sv_appending demo_service3)) ∅.
Definition demo_verified : FileTransfer * list FileTransfer :=
  match (Complete_begin demo_hash [] demo_id (on [] demo_service4)).2 with
  | Ok (inr p) => p | _ => (demo_transfer "" "" 0, []) end.
Definition demo_service5 : service :=
  mkService (Complete_begin demo_hash [] demo_id (on [] demo_service4)).1 (sv_appending demo_service4)
    (<[ft_BatchID demo_verified.1 := demo_verified]> ∅).
Definition demo_service6 : service :=
  mkService (Complete_finish demo_verified.1 demo_verified.2 (on [] demo_service5)).1 (sv_appending demo_service5)
    (delete "b" (sv_completing demo_service5)).

Lemma demo_run : reachable demo_hash demo_service6.
Proof.
  exists DefaultPolicy.
  eapply rtc_l; [apply (sv_create demo_hash demo_service0 [])|]. fold demo_service1.
  eapply rtc_l; [apply (sv_append_begin demo_hash demo_service1 [] demo_id 0 demo_slot demo_append); vm_compute; reflexivity|].
  change (rtc (service_step demo_hash) demo_service2 demo_service6).
  eapply rtc_l; [apply (sv_append_read demo_hash demo_service2 [] demo_id demo_append false (BData [x61; x62]) demo_append2); vm_compute; reflexivity|].
  change (rtc (service_step demo_hash) demo_service3 demo_service6).
  eapply rtc_l; [eapply (sv_append_end demo_hash demo_service3 [] demo_id demo_append2 false BEnd); vm_compute; reflexivity|].
  change (rtc (service_step demo_hash) demo_service4 demo_service6).
  eapply rtc_l; [apply (sv_complete_begin demo_hash demo_service4 [] [] demo_id demo_verified.1 demo_verified.2); [by intros r _|vm_compute; reflexivity]|].
  change (rtc (service_step demo_hash) demo_service5 demo_service6).
  apply rtc_once, (sv_complete_finish demo_hash demo_service5 [] "b"). vm_compute. reflexivity.
Qed.

Lemma served_content_verified_witness :
  reachable demo_hash demo_service6
  /\ exists w ino t, OpenContent demo_id (on [] demo_service6) = (w, Ok (ino, t)) /\ ft_State t = "published"
     /\ holds demo_hash w ino t.
Proof.
  split; [exact demo_run|].
  destruct (served_content_verified demo_hash demo_service6 [] demo_id demo_run) as [H _].
  destruct (OpenContent demo_id (on [] demo_service6)) as [w [[ino t]|e]] eqn:E.
  - exists w, ino, t. split; [reflexivity|]. destruct (H w ino t eq_refl) as (_ & _ & Hh). split; [|exact Hh].
    apply (f_equal (fun x => match x.2 with Ok (_, t) => ft_State t | Err _ => "" end)) in E. vm_compute in E. by symmetry.
  - exfalso. apply (f_equal (fun x => is_ok x.2)) in E. by vm_compute in E.
Defined.

(** Canceling a published transfer reports a conflict and leaves it published, but its file
    is gone. *)
Example cancel_removes_published :
  let '(w, e) := Cancel demo_id (sv_world demo_service6) in
  e = Some (FStore ErrConflict)
  /\ (ft_State <$> db_transfers (w_db w) !! demo_id) = Some "published"
  /\ w_dir w !! contentPath demo_id = None
  /\ (exists ino, w_dir (sv_world demo_service6) !! contentPath demo_id = Some ino)
  /\ (OpenContent demo_id w).2 = Err (FError StorageUnavailable).
Proof. vm_compute. split_and!; try reflexivity. by eexists. Qed.

(** An append that is open while its transfer is completed, and whose body then fails
    together with one more byte, leaves that byte in the published file. *)
Example late_append_leaves_byte :
  match Append_begin demo_id 2 (sv_world demo_service4) with
  | (w1, Ok a) =>
      let '(w2, completed) := Complete demo_hash [] demo_id w1 in
      let '(w3, answer) := Append_read false (BLast [x63] false) a w2 in
      is_ok completed = true /\ contents w2 0 = [x61; x62] /\ contents w3 0 = [x61; x62; x63]
      /\ (OpenContent demo_id w3).2 = (OpenContent demo_id w2).2
  | _ => False
  end.
Proof. vm_compute. split_and!; reflexivity. Qed.
