(* ===== verification/FileTransferUpload.v ===== *)
(** * File transfers: an upload that meets no failure arrives

    The functional correctness of a whole upload: a batch of one file is created, its bytes
    are appended in pieces of any sizes, the batch is completed, and a reader gets exactly
    the bytes.  A concrete run shows that the hypotheses can hold. *)

From S2P Require Import Prelude Config Buffers History Input Store StoreOperations StoreTransfers Frame FileTransfer.

(** ** Calls that meet no failure *)

Lemma syscall_clean {A} (act : M (result errno A)) w : w_faults w = [] -> syscall act w = act w.
Proof. intros E. unfold syscall, mbind, M_bind, next_fault. by rewrite E. Qed.

Lemma db_call_clean {A} (call : fault -> DB -> DB * result store_error A) w :
  w_faults w = [] -> db_call call w = (set_db (call FNone (w_db w)).1 w, (call FNone (w_db w)).2).
Proof. intros E. unfold db_call, mbind, M_bind, next_fault, action. rewrite E. by destruct (call FNone (w_db w)). Qed.

Lemma db_call2_clean {A} (call : fault -> fault -> DB -> DB * result store_error A) w :
  w_faults w = [] -> db_call2 call w = (set_db (call FNone FNone (w_db w)).1 w, (call FNone FNone (w_db w)).2).
Proof.
  intros E. unfold db_call2, mbind, M_bind, next_fault, action. rewrite E. simpl. rewrite E.
  by destruct (call FNone FNone (w_db w)).
Qed.

Lemma db_read_clean {A} (query : fault -> DB -> result store_error A) w :
  w_faults w = [] -> db_read query w = (w, query FNone (w_db w)).
Proof. intros E. unfold db_read, mbind, M_bind, next_fault, get. by rewrite E. Qed.

(** ** A service with one transfer *)

Section Upload.
Context (sha256 : list byte -> digest).

(** The state of the service while the file of row [r] is uploaded and holds [d]; [signals]
    is the state of the signals. *)
Definition uploading_world (p : Policy) (r : FileTransfer) (name : string) (d : list byte) (cancels : gmap string nat)
    (signals : nat) : world :=
  mkWorld (set_transfers empty_DB {[ft_ID r := r]}) {[name := 0%nat]} {[0%nat := d]} 1 p 0 cancels ∅ signals [].

Lemma one_row r : rows (set_transfers empty_DB {[ft_ID r := r]}) = [r].
Proof. unfold rows. simpl. by rewrite map_to_list_singleton. Qed.

Lemma count_one p r : count p (set_transfers empty_DB {[ft_ID r := r]}) = if p r then 1 else 0.
Proof. unfold count. rewrite one_row, filter_cons, filter_nil. by destruct (p r). Qed.

Lemma update_one p u r :
  p r = true -> ft_ID (u r) = ft_ID r ->
  update p u (set_transfers empty_DB {[ft_ID r := r]}) = set_transfers empty_DB {[ft_ID (u r) := u r]}.
Proof. intros Hp Hid. unfold update, set_transfers. simpl. by rewrite map_fmap_singleton, Hp, Hid. Qed.

Lemma read_one p r name d cancels n :
  read_transfer (ft_ID r) (uploading_world p r name d cancels n) = (uploading_world p r name d cancels n, Ok r).
Proof.
  unfold read_transfer. rewrite db_read_clean by done. unfold reading, GetFileTransfer. simpl.
  by rewrite lookup_singleton_eq.
Qed.

Lemma open_one p r name d cancels n :
  os_Open name (uploading_world p r name d cancels n) = (uploading_world p r name d cancels n, Ok 0%nat).
Proof. unfold os_Open. rewrite syscall_clean by done. simpl. by rewrite lookup_singleton_eq. Qed.

Lemma quiet_one p r name d cancels n :
  quiet (uploading_world p r name d cancels n) = (uploading_world p r name d cancels n, Ok tt).
Proof. done. Qed.

Lemma signal_one p r name d c n :
  cancelSignal (ft_ID r) (uploading_world p r name d {[ft_ID r := c]} n)
  = (uploading_world p r name d {[ft_ID r := c]} n, c).
Proof. unfold cancelSignal. simpl. by rewrite lookup_singleton_eq. Qed.

Lemma contents_one p r name d cancels n : contents (uploading_world p r name d cancels n) 0 = d.
Proof. unfold contents. simpl. by rewrite lookup_singleton_eq. Qed.

Lemma file_read_one p r name d cancels n :
  file_Read 0 (uploading_world p r name d cancels n) = (uploading_world p r name d cancels n, Ok d).
Proof. unfold file_Read. rewrite syscall_clean by done. by rewrite contents_one. Qed.

Lemma resize_len d : resize (len d) d = d.
Proof. unfold resize. rewrite Nat2Z.id, Nat.sub_diag, app_nil_r. apply firstn_all. Qed.

Lemma truncate_one p r name d cancels n :
  file_Truncate 0 (len d) (uploading_world p r name d cancels n) = (uploading_world p r name d cancels n, Ok tt).
Proof.
  unfold file_Truncate. rewrite syscall_clean by done. rewrite contents_one, resize_len.
  unfold uploading_world, set_files. simpl. by rewrite insert_singleton_eq.
Qed.

Lemma write_one p r name d cancels n bs :
  file_Write 0 (len d) bs (uploading_world p r name d cancels n) = (uploading_world p r name (d ++ bs) cancels n, Ok tt).
Proof.
  unfold file_Write. rewrite syscall_clean by done. rewrite contents_one, resize_len.
  rewrite drop_ge, app_nil_r by lia. unfold uploading_world, set_files. simpl. by rewrite insert_singleton_eq.
Qed.

(** ** Appending *)

Lemma append_begin_one p r (d : list byte) c n :
  uploading (ft_State r) = true -> ft_CommittedOffset r = len d ->
  Append_begin (ft_ID r) (len d) (uploading_world p r (partialPath (ft_ID r)) d {[ft_ID r := c]} n)
  = (uploading_world p r (partialPath (ft_ID r)) d {[ft_ID r := c]} n, Ok (mkAppending r 0 0 c)).
Proof.
  intros Hst Hoff. unfold Append_begin. rewrite (bind_run _ _ _ _ _ (read_one _ _ _ _ _ _)).
  rewrite (decide_False (P := ft_State r = "canceled")) by (intros E; by rewrite E in Hst).
  rewrite (decide_False (P := len d <> ft_CommittedOffset r)) by (intros E; by apply E).
  rewrite (bind_run _ _ _ _ _ (open_one _ _ _ _ _ _)), (bind_run _ _ _ _ _ (truncate_one _ _ _ _ _ _)),
    (bind_run _ _ _ _ _ (quiet_one _ _ _ _ _ _)), (bind_run _ _ _ _ _ (signal_one _ _ _ _ _ _)). done.
Qed.

Lemma append_end_one p r (d d0 : list byte) c n :
  uploading (ft_State r) = true -> ft_CommittedOffset r = len d0 -> len d <= ft_Size r -> len d0 <= len d ->
  Append_end (mkAppending r 0 (len d - len d0) c) (uploading_world p r (partialPath (ft_ID r)) d {[ft_ID r := c]} n)
  = (uploading_world p (with_offset (len d) r) (partialPath (ft_ID r)) d {[ft_ID r := c]} n, Ok (with_offset (len d) r)).
Proof.
  intros Hst Hoff Hsize Hle. unfold Append_end, ap_remaining, ap_offset. cbn [ap_transfer ap_written ap_ino].
  rewrite Hoff. rewrite decide_False by lia. rewrite (bind_run _ _ _ _ _ (quiet_one _ _ _ _ _ _)).
  erewrite bind_run; [|by apply db_call_clean]. replace (len d0 + (len d - len d0)) with (len d) by lia.
  unfold CommitFileTransferOffset. rewrite decide_False by lia. unfold exec. cbn [w_db uploading_world commit].
  rewrite count_one, update_one; [|..|done].
  2:{ unfold has_id. rewrite Hst, !bool_decide_true by done. done. }
  unfold has_id. rewrite Hst, !bool_decide_true by done. done.
Qed.

Lemma append_one p r d chunk c n :
  uploading (ft_State r) = true -> ft_CommittedOffset r = len d -> len (d ++ chunk) <= ft_Size r ->
  Append (ft_ID r) (len d) [BData chunk] (uploading_world p r (partialPath (ft_ID r)) d {[ft_ID r := c]} n)
  = (uploading_world p (with_offset (len (d ++ chunk)) r) (partialPath (ft_ID r)) (d ++ chunk) {[ft_ID r := c]} n,
     Ok (with_offset (len (d ++ chunk)) r)).
Proof.
  intros Hst Hoff Hsize. pose proof Hsize as Hs. rewrite length_app in Hs. unfold Append.
  rewrite (bind_run _ _ _ _ _ (append_begin_one _ _ _ _ _ Hst Hoff)). cbn [copy_body].
  assert (Hrem : ap_remaining (mkAppending r 0 0 c) = ft_Size r - len d) by (unfold ap_remaining, ap_offset; simpl; lia).
  assert (Hread : forall (d1 : list byte) k, len d1 = len d + k -> 0 <= k -> len d1 <= ft_Size r ->
    Append_read false BEnd (mkAppending r 0 k c) (uploading_world p r (partialPath (ft_ID r)) d1 {[ft_ID r := c]} n)
    = (uploading_world p (with_offset (len d1) r) (partialPath (ft_ID r)) d1 {[ft_ID r := c]} n, inr (Ok (with_offset (len d1) r)))).
  { intros d1 k Hd1 Hk Hd. unfold Append_read. rewrite decide_False by (unfold ap_remaining, ap_offset; simpl; lia).
    unfold get. erewrite bind_run by done. rewrite bool_decide_false by set_solver.
    replace k with (len d1 - len d) by lia. erewrite bind_run; [|by apply append_end_one; try lia]. done. }
  erewrite bind_run.
  2:{ unfold Append_read. rewrite Hrem. rewrite decide_False by (simpl; lia).
      unfold get. erewrite bind_run by done. rewrite bool_decide_false by set_solver.
      rewrite take_ge by (simpl; lia). cbn [ap_ino ap_transfer ap_written ap_signal]. unfold ap_offset. cbn [ap_transfer].
      rewrite Hoff, Z.add_0_r. rewrite (bind_run _ _ _ _ _ (write_one _ _ _ _ _ _ _)). done. }
  cbn beta iota. erewrite bind_run; [|apply Hread; [rewrite length_app; lia|lia|done]]. done.
Qed.

(** The appends of a client that sends [chunks], each at the offset reached. *)
Fixpoint upload (id : string) (offset : Z) (chunks : list (list byte)) : M (result ferror unit) :=
  match chunks with
  | [] => mret (Ok tt)
  | c :: chunks' =>
      let! _ := Append id offset [BData c] fails e => e in
      upload id (offset + len c) chunks'
  end.

Lemma upload_all p r d chunks c n :
  uploading (ft_State r) = true -> ft_CommittedOffset r = len d -> len (d ++ concat chunks) <= ft_Size r ->
  exists r', upload (ft_ID r) (len d) chunks (uploading_world p r (partialPath (ft_ID r)) d {[ft_ID r := c]} n)
    = (uploading_world p r' (partialPath (ft_ID r)) (d ++ concat chunks) {[ft_ID r := c]} n, Ok tt)
    /\ uploading (ft_State r') = true /\ ft_CommittedOffset r' = len (d ++ concat chunks) /\ same_file r r'.
Proof.
  revert r d. induction chunks as [|ch chunks IH]; intros r d Hst Hoff Hsize; cbn [upload concat].
  { rewrite app_nil_r in *. by exists r. }
  assert (len (d ++ ch) <= ft_Size r) as Hch by (cbn [concat] in Hsize; rewrite !length_app in *; lia).
  rewrite (bind_run _ _ _ _ _ (append_one _ _ _ _ _ _ Hst Hoff Hch)).
  destruct (IH (with_offset (len (d ++ ch)) r) (d ++ ch)) as (r' & Hrun & H1 & H2 & H3); [done|done|by rewrite <- app_assoc|].
  exists r'. rewrite app_assoc. replace (len d + len ch) with (len (d ++ ch)) by (rewrite length_app; lia). done.
Qed.

(** ** Completing *)

Lemma complete_begin_one p r data c n :
  ready r = true -> ft_Size r = len data -> hex_digest sha256 data = ft_SHA256 r -> ft_BatchID r <> "" ->
  Complete_begin sha256 [] (ft_ID r) (uploading_world p r (partialPath (ft_ID r)) data {[ft_ID r := c]} n)
  = (uploading_world p r (partialPath (ft_ID r)) data {[ft_ID r := c]} n, Ok (inr (r, [r]))).
Proof.
  intros Hready Hsize Hhash Hbatch. pose proof Hready as [Hoff Hst]%ready_spec.
  unfold uploading in Hst. rewrite bool_decide_eq_true in Hst.
  assert (Hsel : select (in_batch (ft_BatchID r)) ft_CreatedAt (set_transfers empty_DB {[ft_ID r := r]}) = [r]).
  { unfold select. rewrite one_row, filter_cons_True, filter_nil; [done|]. unfold in_batch. by rewrite bool_decide_true. }
  assert (Hfin : finished (ft_State r) = false) by (by destruct Hst as [-> | ->]).
  assert (Hv : verify_one sha256 false [r] r (uploading_world p r (partialPath (ft_ID r)) data {[ft_ID r := c]} n)
    = (uploading_world p r (partialPath (ft_ID r)) data {[ft_ID r := c]} n, Ok tt)).
  { unfold verify_one. rewrite decide_False by tauto.
    erewrite bind_run; [|unfold content_name; erewrite bind_run by apply open_one; done].
    rewrite (bind_run _ _ _ _ _ (open_one _ _ _ _ _ _)), (bind_run _ _ _ _ _ (signal_one _ _ _ _ _ _)).
    unfold get. erewrite bind_run by done. rewrite bool_decide_false by (simpl; apply not_elem_of_empty). cbn [orb].
    rewrite (bind_run _ _ _ _ _ (file_read_one _ _ _ _ _ _)), (bind_run _ _ _ _ _ (quiet_one _ _ _ _ _ _)). rewrite decide_False; [done|]. rewrite Hsize, Hhash. tauto. }
  unfold Complete_begin. rewrite (bind_run _ _ _ _ _ (read_one _ _ _ _ _ _)).
  erewrite bind_run; [|unfold read_batch; by apply db_read_clean].
  unfold FileTransfersByBatch. rewrite decide_False by done. unfold reading. rewrite decide_False by done.
  cbn [w_db uploading_world]. rewrite Hsel. cbn [forallb]. rewrite Hfin. cbn [andb].
  erewrite (bind_run (verify_all sha256 [] [r] [r])).
  2:{ cbn [verify_all head tail default]. rewrite (bind_run _ _ _ _ _ Hv). done. }
  done.
Qed.

Lemma rename_one p r data cancels n :
  rename_all [] [r] (uploading_world p r (partialPath (ft_ID r)) data cancels n)
  = (uploading_world p r (contentPath (ft_ID r)) data cancels n, Ok tt).
Proof.
  pose proof (content_not_partial (ft_ID r)) as Hne. cbn [rename_all]. erewrite bind_run.
  2:{ unfold os_Open. rewrite syscall_clean by done. simpl. by rewrite lookup_singleton_ne. }
  cbn beta iota. rewrite (bind_run _ _ _ (uploading_world p r (contentPath (ft_ID r)) data cancels n) (Ok tt)); [done|].
  unfold os_Rename. rewrite syscall_clean by done. unfold uploading_world, set_files. simpl.
  rewrite lookup_singleton_eq, delete_singleton_eq. done.
Qed.

Lemma complete_one p r data c n :
  ready r = true -> ft_Size r = len data -> hex_digest sha256 data = ft_SHA256 r -> ft_BatchID r <> "" ->
  exists cancels, Complete sha256 [] (ft_ID r) (uploading_world p r (partialPath (ft_ID r)) data {[ft_ID r := c]} n)
    = (uploading_world p (completed r) (contentPath (ft_ID r)) data cancels n, Ok (completed r)).
Proof.
  intros Hready Hsize Hhash Hbatch. pose proof Hready as [Hoff Hst]%ready_spec.
  assert (Hsel : select (in_batch (ft_BatchID r)) ft_CreatedAt (set_transfers empty_DB {[ft_ID r := r]}) = [r]).
  { unfold select. rewrite one_row, filter_cons_True, filter_nil; [done|]. unfold in_batch. by rewrite bool_decide_true. }
  assert (Hfin : finished (ft_State r) = false).
  { unfold uploading in Hst. rewrite bool_decide_eq_true in Hst. by destruct Hst as [-> | ->]. }
  unfold Complete. rewrite (bind_run _ _ _ _ _ (complete_begin_one _ _ _ _ _ Hready Hsize Hhash Hbatch)).
  unfold Complete_finish. rewrite (bind_run _ _ _ _ _ (rename_one _ _ _ _ _)).
  unfold syncDir. rewrite (bind_run _ _ _ _ _ (quiet_one _ _ _ _ _ _)).
  erewrite bind_run; [|by apply db_call2_clean]. cbn [w_db uploading_world].
  assert (CompleteFileTransferBatch FNone FNone (set_transfers empty_DB {[ft_ID r := r]}) (ft_BatchID r)
          = (set_transfers empty_DB {[ft_ID r := completed r]}, Ok tt)) as ->.
  { unfold CompleteFileTransferBatch. rewrite !count_one. unfold in_batch. rewrite bool_decide_true by done.
    rewrite Hready. cbn [andb]. rewrite decide_False by lia. rewrite decide_False by lia.
    rewrite update_one; [done| |done]. by rewrite bool_decide_true. }
  cbn [fst snd for_each]. destruct (decide (ft_Direction r = "pb_to_pbh")).
  - exists ∅. erewrite bind_run by (erewrite bind_run by done; done).
    erewrite bind_run; [|unfold set_db, set_signals; simpl; rewrite delete_singleton_eq; apply (read_one p (completed r))]. done.
  - exists {[ft_ID r := c]}. erewrite bind_run by (erewrite bind_run by done; done).
    erewrite bind_run; [|apply (read_one p (completed r))]. done.
Qed.

(** ** Creating *)

Hypothesis sha256_length : forall d, len (sha256 d) = sha256_Size.

Lemma hex_digit_lower z : 0 <= z < 16 -> negb (between (hex_digit z) 65 90) && is_hex (hex_digit z) = true.
Proof.
  intros Hz. assert (exists k, (k < 16)%nat /\ z = Z.of_nat k) as (k & Hk & ->) by (exists (Z.to_nat z); lia).
  do 16 (destruct k as [|k]; [reflexivity|]). lia.
Qed.

Lemma hex_text l :
  forallb (fun a => negb (between a 65 90) && is_hex a) (String.list_ascii_of_string (hex_EncodeToString l)) = true.
Proof.
  unfold hex_EncodeToString. rewrite String.list_ascii_of_string_of_list_ascii.
  induction l as [|b l IH]; [done|]. cbn [fmap list_fmap concat app forallb]. pose proof (byte_val_range b).
  rewrite !hex_digit_lower, IH; [done| |]; [apply Z.mod_pos_bound; lia|]. split; [apply Z.div_pos; lia|apply Z.div_lt_upper_bound; lia].
Qed.

Lemma digest_valid d : validDigest (hex_digest sha256 d) = true.
Proof.
  unfold validDigest, hex_digest. rewrite hex_text, length_hex. specialize (sha256_length d).
  unfold sha256_Size in sha256_length. rewrite bool_decide_true by lia. done.
Qed.

(** A request of one file, and the row it makes. *)
Definition one_file (batch direction session client base : string) (data : list byte) : CreateRequest :=
  mkCreate batch direction session client [mkFile base (len data) (hex_digest sha256 data)].

Definition one_transfer (p : Policy) (now : time) (random : list byte) (req : CreateRequest) (f : File) : FileTransfer :=
  mkTransfer ("ft_" +:+ hex_EncodeToString (take 16 random)) (cr_BatchID req) (cr_Direction req) (cr_SessionID req)
    (cr_ClientID req) (fl_Basename f) (fl_Size f) (fl_SHA256 f) 0 "created" "" "" now (deadline p (cr_Direction req) now).

Lemma insert_one p t :
  Valid p = true -> po_MaxPendingSpoolBytes p < two63 -> malformed t = false -> transfer_check t = true ->
  created_row t = t -> ft_Size t <= po_MaxBatchBytes p ->
  CreateFileTransfersWithinLimits FNone empty_DB [t] (po_MaxPendingSpoolBytes p) (po_MaxConcurrentTransfers p)
  = (set_transfers empty_DB {[ft_ID t := t]}, Ok tt).
Proof.
  intros Hval Hsp Hm Hc Hrow Hsize. unfold Valid in Hval. rewrite bool_decide_eq_true in Hval.
  pose proof Hc as (_ & Hz & _)%check_parts.
  unfold CreateFileTransfersWithinLimits. rewrite (decide_False (P := len [t] < 1 \/ _)) by (simpl; lia).
  assert (size (active_batches empty_DB) = O) as -> by reflexivity.
  rewrite decide_False by lia.
  assert (incoming [t] = ft_Size t) as ->.
  { rewrite incoming_sizes; [simpl; lia|simpl; lia|]. by intros u [->|?%elem_of_nil]%elem_of_cons. }
  assert (spooled empty_DB = 0) as -> by reflexivity.
  rewrite decide_False.
  2:{ assert (i64 (po_MaxPendingSpoolBytes p - ft_Size t) = po_MaxPendingSpoolBytes p - ft_Size t) as ->; [|lia].
      unfold i64, two63, two64 in *. rewrite Z.mod_small; lia. }
  cbn [insert_transfers]. rewrite Hm, Hrow, Hc. rewrite decide_False by (intros [[? [=]]|[=]]). cbn [commit].
  simpl. by rewrite insert_empty.
Qed.

Lemma create_partial_one p t :
  NewPolicyStore p = p ->
  create_partial t (set_db (set_transfers empty_DB {[ft_ID t := t]}) (New empty_DB p))
  = (uploading_world p t (partialPath (ft_ID t)) [] {[ft_ID t := 0%nat]} 1, Ok tt).
Proof.
  intros Hnew. unfold create_partial. erewrite (bind_run (cancelSignal _)) by reflexivity.
  erewrite (bind_run (create_excl _)).
  2:{ unfold create_excl. rewrite syscall_clean by done. simpl. rewrite lookup_empty. reflexivity. }
  unfold uploading_world, set_files, set_db, set_signals, New. rewrite Hnew. reflexivity.
Qed.

Lemma create_one p now random batch direction session client base data :
  Valid p = true -> po_MaxPendingSpoolBytes p < two63 ->
  batch <> "" -> session <> "" -> client <> "" -> direction = "pb_to_pbh" \/ direction = "pbh_to_pb" ->
  validBasename base = true -> len data <= po_MaxFileBytes p -> 16 <= len random ->
  is_zero_time now = false -> is_zero_time (deadline p direction now) = false ->
  let req := one_file batch direction session client base data in
  let t := one_transfer p now random req (mkFile base (len data) (hex_digest sha256 data)) in
  Create now random req (New empty_DB p)
  = (uploading_world p t (partialPath (ft_ID t)) [] {[ft_ID t := 0%nat]} 1, Ok [t]).
Proof.
  intros Hp Hsp Hb Hs Hc Hd Hbase Hsize Hrand Hnow Hdead req t.
  pose proof Hp as Hval. unfold Valid in Hval. rewrite bool_decide_eq_true in Hval.
  assert (NewPolicyStore p = p) as Hnew by (unfold NewPolicyStore; by rewrite Hp).
  assert (base <> "") as Hb0 by (intros ->; by vm_compute in Hbase).
  unfold Create, get. erewrite bind_run by done. cbn [w_policy New]. rewrite Hnew.
  rewrite decide_False by (simpl; intuition congruence). rewrite decide_False by (simpl; lia).
  assert (new_transfers p req now random 0 (cr_Files req) = Ok [t]) as ->.
  { cbn [cr_Files req one_file new_transfers fl_Basename fl_Size fl_SHA256]. rewrite Hbase. cbn [negb].
    rewrite decide_False by lia. rewrite digest_valid. cbn [negb].
    assert (i64 (0 + len data) = len data) as -> by (unfold i64, two63, two64, MaxFileBytes in *; simpl in *; rewrite Z.mod_small; lia).
    rewrite decide_False by lia. unfold newID. rewrite decide_False by lia. done. }
  erewrite bind_run; [|by apply db_call_clean]. cbn [w_db New].
  assert (ft_ID t <> "") as Hid by discriminate.
  rewrite (insert_one p t); [|done|done| | |done|simpl; lia].
  2:{ unfold malformed. change (ft_CreatedAt t) with now. change (ft_ExpiresAt t) with (deadline p direction now).
      rewrite Hnow, Hdead, bool_decide_false; [done|]. intros [?|[?|[?|[?|?]]]]; try done. simpl in *. lia. }
  2:{ assert (MaxFileBytes = 52428800) as Hmax by reflexivity.
      apply check_parts. split_and!; [done|simpl; lia|simpl; lia| |simpl; lia|simpl; lia|].
      - change (String.length (hex_EncodeToString (sha256 data)) = 64%nat). rewrite length_hex. specialize (sha256_length data).
        unfold sha256_Size in *. lia.
      - by left. }
  cbn [fst snd]. pose proof (create_partial_one p t Hnew) as Hfile.
  erewrite (bind_run (for_each_or [t] create_partial)).
  2:{ cbn [for_each_or]. rewrite (bind_run _ _ _ _ _ Hfile). reflexivity. }
  unfold syncDir. rewrite (bind_run _ _ _ _ _ (quiet_one _ _ _ _ _ _)). done.
Qed.

(** A client that creates a batch of one file, sends its bytes, completes the batch, and a
    reader that opens the file. *)
Definition send_file (now : time) (random : list byte) (req : CreateRequest) (chunks : list (list byte))
    : M (result ferror (list byte * FileTransfer)) :=
  let! transfers := Create now random req fails e => e in
  match transfers with
  | [t] =>
      let! _ := upload (ft_ID t) 0 chunks fails e => e in
      let! _ := Complete sha256 [] (ft_ID t) fails e => e in
      let! (ino, row) := OpenContent (ft_ID t) fails e => e in
      bs ← get (fun w => contents w ino);
      mret (Ok (bs, row))
  | _ => mret (Err (FError BatchLimit))
  end.

Lemma open_content_one p r data cancels n :
  finished (ft_State r) = true ->
  OpenContent (ft_ID r) (uploading_world p r (contentPath (ft_ID r)) data cancels n)
  = (uploading_world p r (contentPath (ft_ID r)) data cancels n, Ok (0%nat, r)).
Proof.
  intros Hf. unfold OpenContent. rewrite (bind_run _ _ _ _ _ (read_one _ _ _ _ _ _)), Hf.
  rewrite (bind_run _ _ _ _ _ (open_one _ _ _ _ _ _)). done.
Qed.

End Upload.

