(* ===== verification/Writers.v ===== *)
(** * The writers of the sessions ([internal/filetransfer/writers.go])

    For each session the registry keeps the attached clients and the time of their last
    input.  A file sent from a session goes to the client that typed last; [Recipient]
    finds it with two loops over maps, whose order Go leaves open.  The orders are
    arguments here, any listing of the maps, and the answer does not depend on them. *)

From S2P Require Import Prelude.

(** ** The registry and its operations *)

Record writerAttachment := mkAttachment { wa_client : string; wa_last : time }.

#[global] Instance writerAttachment_eq_dec : EqDecision writerAttachment.
Proof. solve_decision. Defined.

Abbreviation WriterRegistry := (gmap string (gmap string writerAttachment)).
Inductive writer_error := ErrNoActiveWriter.

Definition NewWriterRegistry : WriterRegistry := ∅.

(** A missing inner map is Go's nil map, which reads as empty. *)
Definition session_writers (r : WriterRegistry) (sid : string) : gmap string writerAttachment :=
  default ∅ (r !! sid).

Definition Attach (r : WriterRegistry) (sid aid client : string) : WriterRegistry :=
  if decide (sid = "" \/ aid = "" \/ client = "") then r
  else <[sid := <[aid := mkAttachment client zero_time]> (session_writers r sid)]> r.

(** [now] is the clock, read when the caller gives no time. *)
Definition Input (now : time) (r : WriterRegistry) (sid aid client : string) (at_ : time) : WriterRegistry :=
  let at_ := if is_zero_time at_ then now else at_ in
  match session_writers r sid !! aid with
  | None => r
  | Some current =>
      if decide (wa_client current <> client) then r
      else <[sid := <[aid := mkAttachment (wa_client current) at_]> (session_writers r sid)]> r
  end.

Definition Detach (r : WriterRegistry) (sid aid : string) : WriterRegistry :=
  let attachments := delete aid (session_writers r sid) in
  if decide (attachments = ∅) then delete sid r else <[sid := attachments]> r.

(** The first loop: the newest input of each client. *)
Definition collect_client (clients : gmap string time) (a : writerAttachment) : gmap string time :=
  if decide (default zero_time (clients !! wa_client a) < wa_last a)
  then <[wa_client a := wa_last a]> clients
  else match clients !! wa_client a with
       | Some _ => clients
       | None => <[wa_client a := zero_time]> clients
       end.
Definition collect (l : list writerAttachment) : gmap string time := fold_left collect_client l ∅.

(** [client < selected] on strings. *)
Definition string_lt (s1 s2 : string) : Prop := ~ string_le s2 s1.
#[global] Instance string_lt_dec s1 s2 : Decision (string_lt s1 s2).
Proof. unfold string_lt. apply _. Defined.

(** The second loop: the client with the newest input, the smallest name on a tie. *)
Definition select_client (s : string * time) (c : string * time) : string * time :=
  if decide (c.2 <> zero_time /\ (s.1 = "" \/ s.2 < c.2 \/ (c.2 = s.2 /\ string_lt c.1 s.1)))
  then c else s.
Definition select (l : list (string * time)) : string * time := fold_left select_client l ("", zero_time).

(** [attachments] and [ranged] are the orders of the two loops; the third loop returns the
    only client. *)
Definition Recipient (attachments : list writerAttachment) (ranged : gmap string time -> list (string * time))
    : result writer_error string :=
  let clients := collect attachments in
  let selected := (select (ranged clients)).1 in
  if decide (selected <> "") then Ok selected
  else if decide (size clients = 1%nat)
       then match ranged clients with (client, _) :: _ => Ok client | [] => Err ErrNoActiveWriter end
       else Err ErrNoActiveWriter.

(** A range over a map visits each entry once, in some order. *)
Definition orders (r : WriterRegistry) (sid : string) (attachments : list writerAttachment)
    (ranged : gmap string time -> list (string * time)) : Prop :=
  attachments ≡ₚ (map_to_list (session_writers r sid)).*2 /\ forall m, ranged m ≡ₚ map_to_list m.

(** ** Reachable registries *)

Inductive writers_step : WriterRegistry -> WriterRegistry -> Prop :=
| WAttach r sid aid client : writers_step r (Attach r sid aid client)
| WInput r now sid aid client at_ : writers_step r (Input now r sid aid client at_)
| WDetach r sid aid : writers_step r (Detach r sid aid).

(** Every attached client has a name, and no session is kept without attachments. *)
Definition writers_ok (r : WriterRegistry) : Prop :=
  forall sid m, r !! sid = Some m ->
    m <> ∅ /\ forall aid a, m !! aid = Some a -> wa_client a <> "".

Lemma session_writers_ok r sid aid a :
  writers_ok r -> session_writers r sid !! aid = Some a -> wa_client a <> "".
Proof.
  intros Hok. unfold session_writers. destruct (r !! sid) as [m|] eqn:E; simpl; [|by rewrite lookup_empty].
  by apply (Hok _ _ E).
Qed.

Lemma writers_ok_insert r sid aid a m :
  writers_ok r -> wa_client a <> "" -> (forall aid a, m !! aid = Some a -> wa_client a <> "") ->
  writers_ok (<[sid := <[aid := a]> m]> r).
Proof.
  intros Hok Ha Hm sid' m' [[-> <-]|[? H]]%lookup_insert_Some; [|by apply (Hok sid')].
  split; [apply insert_non_empty|].
  intros aid' a' [[-> <-]|[? H]]%lookup_insert_Some; [done|]. by apply (Hm aid').
Qed.

Lemma writers_step_ok r r' : writers_step r r' -> writers_ok r -> writers_ok r'.
Proof.
  destruct 1 as [r sid aid client|r now sid aid client at_|r sid aid]; intros Hok.
  - unfold Attach. case_decide as H; [done|]. apply writers_ok_insert; [done|naive_solver|].
    intros ??. by apply session_writers_ok.
  - unfold Input. destruct (session_writers r sid !! aid) as [c|] eqn:E; [|done].
    case_decide; [done|]. apply writers_ok_insert; [done| |]; simpl.
    + by apply (session_writers_ok r sid aid).
    + intros ??. by apply session_writers_ok.
  - unfold Detach. case_decide as H.
    + intros sid' m' [? H']%lookup_delete_Some. by apply (Hok sid').
    + intros sid' m' [[-> <-]|[? H']]%lookup_insert_Some; [|by apply (Hok sid')].
      split; [done|]. intros aid' a [? Ha]%lookup_delete_Some. by apply (session_writers_ok r sid' aid').
Qed.

Lemma writers_reachable r : rtc writers_step NewWriterRegistry r -> writers_ok r.
Proof.
  intros H. assert (Hok : writers_ok NewWriterRegistry) by (intros sid m H0; by rewrite (lookup_empty (M := gmap string) sid : NewWriterRegistry !! sid = None) in H0).
  induction H as [|? ? ? Hs _ IH]; [done|]. apply IH. by apply (writers_step_ok _ _ Hs).
Qed.

(** ** The two loops *)

Definition newest_of (l : list writerAttachment) (c : string) (t : time) : Prop :=
  (exists a, a ∈ l /\ wa_client a = c) /\
  (t = zero_time \/ exists a, a ∈ l /\ wa_client a = c /\ wa_last a = t) /\
  zero_time <= t /\ forall a, a ∈ l -> wa_client a = c -> wa_last a <= t.

Lemma collect_app l a : collect (l ++ [a]) = collect_client (collect l) a.
Proof. unfold collect. by rewrite fold_left_app. Qed.

Lemma collect_spec l c :
  match collect l !! c with
  | Some t => newest_of l c t
  | None => forall a, a ∈ l -> wa_client a <> c
  end.
Proof.
  induction l as [|a l IH] using rev_ind.
  { unfold collect. simpl. rewrite lookup_empty. by intros a ?%elem_of_nil. }
  rewrite collect_app. unfold collect_client, newest_of in *.
  destruct (decide (wa_client a = c)) as [<-|Hne].
  - destruct (collect l !! wa_client a) as [t|] eqn:E; simpl; case_decide;
      rewrite ?lookup_insert_eq, ?E; setoid_rewrite elem_of_app; setoid_rewrite list_elem_of_singleton.
    + destruct IH as (?&?&?&IH). split_and!; [by eauto 10|by eauto 10|lia|].
      intros a' [?| ->] ?; [|lia]. specialize (IH a' ltac:(done) ltac:(done)). lia.
    + destruct IH as ((b&?&?)&[?|(d&?&?&?)]&?&IH); (split_and!; [by eauto| |lia|intros a' [?| ->] ?; auto with lia]); eauto 10.
    + split_and!; [by eauto 10|by eauto 10|lia|]. intros a' [?| ->] ?; [by destruct (IH a')|lia].
    + split_and!; [by eauto 10|by eauto 10|lia|]. intros a' [?| ->] ?; [by destruct (IH a')|lia].
  - assert (Hsame : forall (b : writerAttachment) (P : Prop), (b ∈ l ++ [a] /\ wa_client b = c /\ P) <-> (b ∈ l /\ wa_client b = c /\ P)).
    { intros b P. rewrite elem_of_app, list_elem_of_singleton. split; [intros ([?| ->]&?&?); [done|congruence]|tauto]. }
    assert (Hl : forall m, collect l !! c = m -> (if decide (default zero_time (collect l !! wa_client a) < wa_last a)
         then <[wa_client a := wa_last a]> (collect l)
         else match collect l !! wa_client a with Some _ => collect l | None => <[wa_client a := zero_time]> (collect l) end) !! c = m).
    { intros m Hm. case_decide; [by rewrite lookup_insert_ne|]. destruct (_ !! wa_client a); [done|]. by rewrite lookup_insert_ne. }
    rewrite (Hl _ eq_refl). destruct (collect l !! c) as [t|].
    + destruct IH as ((b&?&?)&Hm&?&IH). setoid_rewrite elem_of_app. setoid_rewrite list_elem_of_singleton.
      split_and!; [by eauto| |done|].
      * destruct Hm as [?|(d&?&?&?)]; eauto 10.
      * intros a' [?| ->] ?; [by auto|congruence].
    + intros a' [?| ->%list_elem_of_singleton]%elem_of_app; [by apply IH|done].
Qed.

(** [better x y]: [x] is preferred to [y]. *)
Definition better (x y : string * time) : Prop := y.2 < x.2 \/ (y.2 = x.2 /\ string_le x.1 y.1).

Lemma select_spec l :
  (forall x, x ∈ l -> x.1 <> "" /\ zero_time <= x.2) ->
  let s := select l in
  (s = ("", zero_time) /\ forall x, x ∈ l -> x.2 = zero_time) \/
  (s ∈ l /\ zero_time < s.2 /\ forall x, x ∈ l -> x.2 <> zero_time -> better s x).
Proof.
  unfold select. simpl. induction l as [|c l IH] using rev_ind; intros Hok.
  { left. split; [done|]. by intros x ?%elem_of_nil. }
  rewrite fold_left_app. simpl. set (s := fold_left select_client l ("", zero_time)) in *.
  assert (Hc : c.1 <> "" /\ zero_time <= c.2) by (apply Hok; set_solver).
  specialize (IH ltac:(intros; apply Hok; set_solver)).
  unfold select_client. unfold better in *.
  destruct IH as [[Hs Hz]|(Hin&Hpos&Hb)]; case_decide as Hd.
  - right. split_and!; [set_solver|lia|]. intros x [?| ->%list_elem_of_singleton]%elem_of_app Hx; [by rewrite Hz in Hx|].
    right. split; [done|]. by destruct (total string_le c.1 c.1).
  - left. split; [done|]. intros x [?| ->%list_elem_of_singleton]%elem_of_app; [by auto|].
    destruct (decide (c.2 = zero_time)); [done|]. destruct Hd. rewrite Hs. auto.
  - assert (Hs1 : s.1 <> "") by (apply Hok; set_solver).
    right. split_and!; [set_solver|lia|].
    intros x [Hx| ->%list_elem_of_singleton]%elem_of_app Hx0; [|right; split; [done|by destruct (total string_le c.1 c.1)]].
    specialize (Hb x Hx Hx0). destruct Hd as (_&[?|[?|[? Hlt]]]); [done| |].
    + left. destruct Hb as [?|[? ?]]; lia.
    + destruct Hb as [?|[? ?]]; [left; lia|]. right. split; [lia|]. trans s.1; [|done].
      by destruct (total string_le c.1 s.1).
  - right. split_and!; [set_solver|done|].
    intros x [Hx| ->%list_elem_of_singleton]%elem_of_app Hx0; [by auto|].
    destruct (decide (string_le s.1 c.1)); destruct (decide (c.2 < s.2)); [by auto| |by auto|].
    + right. split; [|done]. destruct (decide (s.2 < c.2)); [|lia]. destruct Hd; auto.
    + destruct Hd. split; [done|]. right. destruct (decide (s.2 < c.2)); [by left|]. right. split; [lia|]. done.
Qed.

(** ** The specification *)

Definition attached (r : WriterRegistry) (sid : string) (a : writerAttachment) : Prop :=
  exists aid, session_writers r sid !! aid = Some a.

(** The client of the newest input, the first by name among several; or, when nobody has
    typed, the only client there is. *)
Definition recipient_spec (r : WriterRegistry) (sid client : string) : Prop :=
  (exists a, attached r sid a /\ wa_client a = client /\ zero_time < wa_last a /\
     forall b, attached r sid b -> better (client, wa_last a) (wa_client b, wa_last b)) \/
  ((forall b, attached r sid b -> wa_last b <= zero_time /\ wa_client b = client) /\ exists a, attached r sid a).

Lemma orders_attached r sid l ranged a : orders r sid l ranged -> a ∈ l <-> attached r sid a.
Proof.
  intros [Hl _]. rewrite Hl. unfold attached. rewrite list_elem_of_fmap. split.
  - intros ([aid b]&->&H%elem_of_map_to_list). by exists aid.
  - intros [aid H]. exists (aid, a). split; [done|]. by apply elem_of_map_to_list.
Qed.

Lemma recipient_spec_unique r sid c1 c2 : recipient_spec r sid c1 -> recipient_spec r sid c2 -> c1 = c2.
Proof.
  intros [(a1&Ha1&E1&Hz1&H1)|[H1 [a1 Ha1]]] [(a2&Ha2&E2&Hz2&H2)|[H2 [a2 Ha2]]].
  - destruct (H1 _ Ha2) as [?|[? L1]], (H2 _ Ha1) as [?|[? L2]]; simpl in *; try lia.
    rewrite E2 in L1. rewrite E1 in L2. by apply (anti_symm string_le).
  - apply H2 in Ha1 as [_ ?]. congruence.
  - apply H1 in Ha2 as [_ ?]. congruence.
  - apply H1 in Ha2 as H3. apply H2 in Ha2 as H4. destruct H3, H4. congruence.
Qed.

Lemma recipient_total r sid l ranged :
  writers_ok r -> orders r sid l ranged ->
  (exists c, Recipient l ranged = Ok c /\ recipient_spec r sid c) \/
  (Recipient l ranged = Err ErrNoActiveWriter /\ forall c, ~ recipient_spec r sid c).
Proof.
  intros Hok Ho. unfold Recipient.
  assert (Hin : forall c t, (c, t) ∈ ranged (collect l) <-> collect l !! c = Some t).
  { intros c t. rewrite (proj2 Ho), elem_of_map_to_list. done. }
  assert (Hkey : forall b, attached r sid b -> exists t, collect l !! wa_client b = Some t /\ wa_last b <= t).
  { intros b Hb. apply (orders_attached r sid l ranged) in Hb; [|done]. pose proof (collect_spec l (wa_client b)) as Hs.
    destruct (collect l !! wa_client b) as [t|]; [|by destruct (Hs b)]. exists t. split; [done|]. by apply Hs. }
  assert (Hnew : forall c t, collect l !! c = Some t -> newest_of l c t).
  { intros c t E. pose proof (collect_spec l c) as Hs. by rewrite E in Hs. }
  pose proof (select_spec (ranged (collect l))) as Hsel. simpl in Hsel.
  destruct Hsel as [[Hs Hz]|(Hs&Hpos&Hb)].
  - intros [c t] Hc%Hin. apply Hnew in Hc as ((a&Ha&<-)&_&?&_). split; [|done]. simpl.
    apply (orders_attached r sid l ranged) in Ha as [aid Ha]; [|done]. by apply (session_writers_ok r sid aid).
  - rewrite Hs. case_decide as Hx; [done|]. clear Hx.
    assert (Hidle : forall b, attached r sid b -> wa_last b <= zero_time).
    { intros b Hb. destruct (Hkey b Hb) as (t&Ht&?). apply Hin, Hz in Ht. simpl in Ht. lia. }
    case_decide as H1.
    + left. rewrite <- length_map_to_list, <- (proj2 Ho (collect l)) in H1.
      destruct (ranged (collect l)) as [|[c t] [|]] eqn:E; [done| |done]. exists c. split; [done|]. right. split.
      * intros b Hb. split; [auto|]. destruct (Hkey b Hb) as (t'&Ht&_). apply Hin in Ht. set_solver.
      * destruct (Hnew c t) as ((a&Ha&_)&_); [apply Hin; set_solver|]. exists a. by apply (orders_attached r sid l ranged).
    + right. split; [done|]. intros c [(a&Ha&_&?&_)|[Hone [a Ha]]]; [specialize (Hidle a Ha); lia|].
      destruct H1. destruct (Hkey a Ha) as (t&Ht&_). rewrite (proj2 (Hone a Ha)) in Ht.
      assert (collect l = {[c := t]}) as ->; [|by rewrite map_size_singleton].
      apply map_eq. intros c'. destruct (decide (c' = c)) as [->|]; [by rewrite lookup_singleton_eq|].
      rewrite lookup_singleton_ne by done. destruct (collect l !! c') as [t'|] eqn:E'; [|done].
      apply Hnew in E' as ((b&Hb&<-)&_). apply (orders_attached r sid l ranged) in Hb; [|done]. by destruct (Hone b Hb).
  - destruct (select (ranged (collect l))) as [c t] eqn:Es. simpl in *. apply Hin in Hs.
    destruct (Hnew _ _ Hs) as (_&[?|(a&Ha&<-&<-)]&_&_); [lia|].
    apply (orders_attached r sid l ranged) in Ha; [|done].
    assert (Hne : wa_client a <> "") by (destruct Ha as [aid Ha]; by apply (session_writers_ok r sid aid)).
    rewrite decide_True by done. left. exists (wa_client a). split; [done|]. left.
    exists a. split_and!; [done|done|done|]. intros b Hb'. destruct (Hkey b Hb') as (tb&Htb&?). unfold better in *. simpl in *.
    destruct (decide (tb = zero_time)); [left; lia|].
    apply Hin in Htb. destruct (Hb _ Htb ltac:(done)) as [?|[? ?]]; simpl in *; [left; lia|].
    destruct (decide (wa_last b = wa_last a)); [by right|left; lia].
Qed.

(** Whatever order Go ranges over its maps, in a registry that any sequence of
    attaches, inputs and detaches leaves behind [Recipient] answers exactly the client with
    the newest input (the first by name among several), or the only attached client when
    nobody has typed yet, and the error otherwise. *)
Theorem recipient_exact (r : WriterRegistry) (sid : string) (attachments : list writerAttachment)
    (ranged : gmap string time -> list (string * time)) (client : string) :
  rtc writers_step NewWriterRegistry r -> orders r sid attachments ranged ->
  Recipient attachments ranged = Ok client <-> recipient_spec r sid client.
Proof.
  intros Hr%writers_reachable Ho. destruct (recipient_total r sid attachments ranged Hr Ho) as [(c&E&Hs)|[E Hn]]; rewrite E.
  - split; [by intros [= <-]|]. intros Hs'. by rewrite (recipient_spec_unique _ _ _ _ Hs Hs').
  - split; [done|]. intros Hs. by destruct (Hn client).
Qed.

Definition demo_writers : WriterRegistry :=
  Input 0 (Input 0 (Attach (Attach NewWriterRegistry "s" "1" "bob") "s" "2" "alice") "s" "1" "bob" 5) "s" "2" "alice" 5.

Lemma recipient_exact_witness :
  Recipient [mkAttachment "bob" 5; mkAttachment "alice" 5] map_to_list = Ok "alice" /\
  recipient_spec demo_writers "s" "alice".
Proof.
  split; [by vm_compute|].
  apply (recipient_exact demo_writers "s" [mkAttachment "bob" 5; mkAttachment "alice" 5] map_to_list "alice").
  - unfold demo_writers. repeat (eapply rtc_r; [|constructor]). apply rtc_refl.
  - split; [|done]. by vm_compute.
  - by vm_compute.
Defined.
