(* ===== verification/Base64.v ===== *)
(** * Unpadded URL-safe base64 ([encoding/base64.RawURLEncoding]) and [strings.Split]

    Go's decoder skips carriage returns and line feeds, refuses every other character
    outside the alphabet and a last group of a single character, and ignores the unused
    bits of the last group. *)

From Stdlib Require String Ascii.
From S2P Require Import Prelude.

Definition b64_char (z : Z) : ascii :=
  ascii_of_nat (Z.to_nat
    (if decide (z < 26) then 65 + z else if decide (z < 52) then 71 + z
     else if decide (z < 62) then z - 4 else if decide (z = 62) then 45 else 95)).

Definition b64_value (a : ascii) : option Z :=
  let n := Z.of_nat (nat_of_ascii a) in
  if decide (65 <= n <= 90) then Some (n - 65)
  else if decide (97 <= n <= 122) then Some (n - 71)
  else if decide (48 <= n <= 57) then Some (n + 4)
  else if decide (n = 45) then Some 62 else if decide (n = 95) then Some 63 else None.

(** [EncodeToString]. *)
Fixpoint b64_groups (l : list byte) : list Z :=
  match l with
  | [] => []
  | [a] => let x := byte_val a in [x / 4; x mod 4 * 16]
  | [a; b] => let x := byte_val a in let y := byte_val b in [x / 4; x mod 4 * 16 + y / 16; y mod 16 * 4]
  | a :: b :: c :: l =>
      let x := byte_val a in let y := byte_val b in let z := byte_val c in
      x / 4 :: x mod 4 * 16 + y / 16 :: y mod 16 * 4 + z / 64 :: z mod 64 :: b64_groups l
  end.
Definition b64_EncodeToString (l : list byte) : string :=
  String.string_of_list_ascii (b64_char <$> b64_groups l).

Fixpoint b64_bytes (l : list Z) : option (list byte) :=
  match l with
  | [] => Some []
  | [_] => None
  | [a; b] => Some [byte_of (a * 4 + b / 16)]
  | [a; b; c] => Some [byte_of (a * 4 + b / 16); byte_of (b mod 16 * 16 + c / 4)]
  | a :: b :: c :: d :: l =>
      r ← b64_bytes l;
      Some (byte_of (a * 4 + b / 16) :: byte_of (b mod 16 * 16 + c / 4) :: byte_of (c mod 4 * 64 + d) :: r)
  end.

(** [DecodeString]. *)
Definition b64_DecodeString (s : string) : option (list byte) :=
  let l := filter (fun a => a <> "013"%char /\ a <> "010"%char) (String.list_ascii_of_string s) in
  v ← mapM b64_value l; b64_bytes v.

(** [strings.Split(s, sep)] for a separator of one character. *)
Fixpoint split_at (sep : ascii) (s : string) : list string :=
  match s with
  | EmptyString => [""]
  | String a s =>
      if decide (a = sep) then "" :: split_at sep s
      else match split_at sep s with
           | [] => [String a ""]
           | x :: l => String a x :: l
           end
  end.

(** ** The round trip *)

Lemma b64_value_char z : 0 <= z < 64 -> b64_value (b64_char z) = Some z.
Proof.
  intros H. assert (Hc : exists n, (n < 64)%nat /\ z = Z.of_nat n) by (exists (Z.to_nat z); lia).
  destruct Hc as (n & Hn & ->). clear H. do 64 (destruct n as [|n]; [by vm_compute|]). lia.
Qed.

Lemma b64_char_plain z : 0 <= z < 64 -> b64_char z <> "013"%char /\ b64_char z <> "010"%char /\ b64_char z <> "."%char.
Proof.
  intros H. assert (Hv := b64_value_char z H). split_and!; intros E; rewrite E in Hv; by vm_compute in Hv.
Qed.

Lemma three_ind {A} (P : list A -> Prop) :
  P [] -> (forall a, P [a]) -> (forall a b, P [a; b]) -> (forall a b c l, P l -> P (a :: b :: c :: l)) -> forall l, P l.
Proof.
  intros H0 H1 H2 H3. fix IH 1. intros [|a [|b [|c l]]]; [done|done|done|]. apply H3, IH.
Qed.

Ltac byte_ranges :=
  repeat match goal with
  | |- context [byte_val ?x] => pose proof (byte_val_range x); generalize dependent (byte_val x)
  end; intros.

Lemma b64_groups_range l : Forall (fun z => 0 <= z < 64) (b64_groups l).
Proof.
  induction l as [|a|a b|a b c l IH] using three_ind; cbn -[Z.mul Z.div Z.modulo];
    rewrite ?Forall_cons, ?Forall_nil; split_and?; try done;
    byte_ranges;
    Z.to_euclidean_division_equations; lia.
Qed.

Lemma b64_bytes_groups l : b64_bytes (b64_groups l) = Some l.
Proof.
  assert (Hb : forall a z, z = byte_val a -> byte_of z = a) by (intros a z ->; apply byte_of_val).
  induction l as [|a|a b|a b c l IH] using three_ind; cbn -[Z.mul Z.div Z.modulo]; [done|..];
    rewrite ?IH; cbn -[Z.mul Z.div Z.modulo]; repeat f_equal; apply Hb;
    byte_ranges;
    Z.to_euclidean_division_equations; lia.
Qed.

Lemma b64_chars_filter l : Forall (fun z => 0 <= z < 64) l ->
  filter (fun a => a <> "013"%char /\ a <> "010"%char) (b64_char <$> l) = b64_char <$> l.
Proof.
  induction 1 as [|z l Hz _ IH]; [done|]. rewrite fmap_cons, filter_cons_True; [by rewrite IH|].
  destruct (b64_char_plain z Hz) as (?&?&?). done.
Qed.

Lemma b64_values l : Forall (fun z => 0 <= z < 64) l -> mapM b64_value (b64_char <$> l) = Some l.
Proof. induction 1 as [|z l Hz _ IH]; [done|]. rewrite fmap_cons. simpl. by rewrite b64_value_char, IH. Qed.

Lemma b64_roundtrip l : b64_DecodeString (b64_EncodeToString l) = Some l.
Proof.
  unfold b64_DecodeString, b64_EncodeToString. rewrite String.list_ascii_of_string_of_list_ascii.
  rewrite b64_chars_filter, b64_values by apply b64_groups_range. apply b64_bytes_groups.
Qed.

(** ** Splitting *)

Definition no_char (sep : ascii) (s : string) : Prop := sep ∉ String.list_ascii_of_string s.

Lemma split_at_nonempty sep s : split_at sep s <> [].
Proof. destruct s; simpl; [done|]. case_decide; [done|]. by destruct (split_at sep s). Qed.

Lemma split_at_last sep s : no_char sep s -> split_at sep s = [s].
Proof.
  unfold no_char. induction s as [|a s IH]; intros H; [done|]. simpl in *.
  apply not_elem_of_cons in H as [Ha H]. rewrite decide_False by done. by rewrite IH.
Qed.

Lemma split_at_app sep s t : no_char sep s -> split_at sep (s +:+ String sep t) = s :: split_at sep t.
Proof.
  unfold no_char. induction s as [|a s IH]; intros H; simpl in *.
  - by rewrite decide_True.
  - apply not_elem_of_cons in H as [Ha H]. rewrite decide_False by done. by rewrite IH.
Qed.

Lemma b64_no_dot l : no_char "."%char (b64_EncodeToString l).
Proof.
  unfold no_char, b64_EncodeToString. rewrite String.list_ascii_of_string_of_list_ascii.
  intros (z & E & Hz)%list_elem_of_fmap. pose proof (b64_groups_range l) as Hr. rewrite Forall_forall in Hr.
  by destruct (b64_char_plain z (Hr z Hz)) as (_&_&[]). 
Qed.

(** What [split_at] returns joins back to the string. *)
Lemma split_at_join sep s p1 p2 p3 :
  split_at sep s = [p1; p2; p3] -> s = p1 +:+ String sep (p2 +:+ String sep p3).
Proof.
  assert (H1 : forall s p, split_at sep s = [p] -> s = p).
  { induction s0 as [|a s0 IH]; simpl; intros p H; [by injection H|]. case_decide; [by destruct (split_at_nonempty sep s0); simplify_eq|].
    destruct (split_at sep s0) eqn:E; [by destruct (split_at_nonempty sep s0)|]. simplify_eq. by rewrite (IH _ eq_refl). }
  assert (H2 : forall s p q, split_at sep s = [p; q] -> s = p +:+ String sep q).
  { induction s0 as [|a s0 IH]; simpl; intros p q H; [done|]. case_decide; [simplify_eq; simpl; by rewrite (H1 s0 q)|].
    destruct (split_at sep s0) eqn:E; [by destruct (split_at_nonempty sep s0)|]. simplify_eq. apply (f_equal (String a)). by apply IH. }
  revert p1. induction s as [|a s IH]; simpl; intros p1 H; [done|]. case_decide; [simplify_eq; apply (f_equal (String sep)); by apply H2|].
  destruct (split_at sep s) eqn:E; [by destruct (split_at_nonempty sep s)|]. simplify_eq. apply (f_equal (String a)). by apply IH.
Qed.
