(* ===== verification/Paths.v ===== *)
(** * Paths ([path/filepath] on Unix)

    The functions of the standard library that the program uses on rooted paths: a path is
    cut into its elements, cleaned, and put together again. *)

From S2P Require Import Prelude Base64.

Definition is_abs (path : string) : bool := bool_decide (String.get 0 path = Some "/"%char).

(** The elements of a cleaned rooted path. *)
Fixpoint clean_elements (l : list string) (acc : list string) : list string :=
  match l with
  | [] => rev acc
  | x :: l => if decide (x = "" \/ x = ".") then clean_elements l acc
              else if decide (x = "..") then clean_elements l (tail acc)
              else clean_elements l (x :: acc)
  end.
Definition elements_of (path : string) : list string := clean_elements (split_at "/" path) [].
Definition path_of (l : list string) : string := "/" +:+ String.concat "/" l.

Definition filepath_Dir (path : string) : string := path_of (removelast (elements_of path)).
Definition filepath_Join (dir name : string) : string := path_of (elements_of dir ++ [name]).
Definition filepath_Base (path : string) : string :=
  match last (filter (fun x => x <> "") (split_at "/" path)) with Some x => x | None => "/" end.
Definition filepath_Clean (path : string) : string := path_of (elements_of path).

(** The way from a rooted directory to a rooted path. *)
Fixpoint rel_elements (base targ : list string) : list string :=
  match base, targ with
  | x :: base', y :: targ' => if decide (x = y) then rel_elements base' targ' else replicate (length base) ".." ++ targ
  | _, _ => replicate (length base) ".." ++ targ
  end.
Definition filepath_Rel (base targ : string) : string :=
  match rel_elements (elements_of base) (elements_of targ) with [] => "." | l => String.concat "/" l end.

(** ** Lemmas *)

(** An element of a clean path. *)
Definition plain (x : string) : Prop := x <> "" /\ x <> "." /\ x <> ".." /\ no_char "/" x.

Lemma split_at_plain sep s x : x ∈ split_at sep s -> no_char sep x.
Proof.
  revert x. induction s as [|a s IH]; intros x; simpl.
  - intros ->%list_elem_of_singleton. unfold no_char. simpl. set_solver.
  - case_decide as Ha.
    + intros [->|Hx]%elem_of_cons; [unfold no_char; simpl; set_solver|by apply IH].
    + destruct (split_at sep s) as [|y l] eqn:E; [by destruct (split_at_nonempty sep s)|].
      intros [->|Hx]%elem_of_cons; [|apply IH; by right].
      unfold no_char. simpl. apply not_elem_of_cons. split; [done|]. apply (IH y). by left.
Qed.

Lemma clean_elements_plain l : forall acc,
  Forall (no_char "/") l -> Forall plain acc -> Forall plain (clean_elements l acc).
Proof.
  induction l as [|x l IH]; intros acc Hl Hacc; simpl; [by apply Forall_rev|].
  apply Forall_cons in Hl as [Hx Hl]. case_decide as H1; [by apply IH|]. case_decide as H2.
  - apply IH; [done|]. destruct acc; [done|]. by apply Forall_cons in Hacc as [_ ?].
  - apply IH; [done|]. constructor; [|done]. unfold plain. tauto.
Qed.

Lemma elements_plain path : Forall plain (elements_of path).
Proof. apply clean_elements_plain; [|constructor]. apply Forall_forall. intros x. apply split_at_plain. Qed.

Lemma clean_elements_id l : forall acc, Forall plain l -> clean_elements l acc = rev acc ++ l.
Proof.
  induction l as [|x l IH]; intros acc H; simpl; [by rewrite app_nil_r|].
  apply Forall_cons in H as [(H1&H2&H3&_) H]. rewrite decide_False by tauto. rewrite decide_False by done.
  rewrite IH by done. simpl. by rewrite <- app_assoc.
Qed.

Lemma split_concat l : l <> [] -> Forall (no_char "/") l -> split_at "/" (String.concat "/" l) = l.
Proof.
  induction l as [|x l IH]; [done|]. intros _ [Hx Hl]%Forall_cons. destruct l as [|y l].
  - simpl. by apply split_at_last.
  - change (String.concat "/" (x :: y :: l)) with (x +:+ String "/" (String.concat "/" (y :: l))).
    rewrite split_at_app by done. by rewrite IH.
Qed.

Lemma elements_path_of l : Forall plain l -> elements_of (path_of l) = l.
Proof.
  intros H. unfold elements_of, path_of. change ("/" +:+ String.concat "/" l) with (String "/" (String.concat "/" l)).
  simpl split_at. rewrite ?decide_True by done. destruct l as [|x l].
  - done.
  - rewrite split_concat; [|done|apply (Forall_impl _ _ _ H); unfold plain; tauto].
    transitivity (clean_elements (x :: l) []); [done|]. by rewrite clean_elements_id.
Qed.

Lemma elements_clean path : elements_of (filepath_Clean path) = elements_of path.
Proof. apply elements_path_of, elements_plain. Qed.

(** A relative path leaves the directory, written with dots, exactly when the directory is
    not above the target. *)
Lemma rel_elements_inside base : forall targ,
  Forall plain targ ->
  (base `prefix_of` targ /\ Forall plain (rel_elements base targ)) \/
  (~ base `prefix_of` targ /\ exists l, rel_elements base targ = ".." :: l).
Proof.
  induction base as [|x base IH]; intros targ H; [left; split; [apply prefix_nil|by destruct targ]|].
  destruct targ as [|y targ].
  - right. split; [apply prefix_nil_not|]. simpl. by eexists.
  - simpl. case_decide as E.
    + subst y. apply Forall_cons in H as [_ H]. destruct (IH targ H) as [[Hp Hf]|[Hp Hl]].
      * left. split; [by apply prefix_cons|done].
      * right. split; [|done]. intros Hpre. by apply prefix_cons_inv_2 in Hpre.
    + right. split; [|by eexists]. intros Hpre. by apply prefix_cons_inv_1 in Hpre.
Qed.
