(* ===== verification/Auth.v ===== *)
(** * Credentials ([internal/auth/verifier.go], [replay.go], [revocations.go])

    A credential is a signed token of three base64 segments.  [Verify] checks it against a
    policy, step by step as the code does; single-use credentials are consumed in a replay
    cache, and revoked ones are refused and reported to the connections that hold them.

    Signatures ([crypto/ed25519]) and JSON decoding are parameters.  The clock is a schedule
    of readings, [w_clock i] being the [i]-th: it may stand still, run or be set back. *)

From S2P Require Import Prelude Config Base64 Frame.

(** ** Claims and policies *)

Inductive Code :=
| Malformed | AlgorithmInvalid | KeyUnknown | SignatureInvalid | AudienceInvalid | ScopeInvalid
| BindingInvalid | Expired | NotYetValid | Revoked | Replayed.

Record FileTransferPolicy := mkFileTransferPolicy {
  fp_Revision : string;
  fp_MaxFileBytes : Z;
  fp_MaxBatchFiles : Z;
  fp_MaxBatchBytes : Z;
  fp_MaxConcurrentTransfers : Z;
  fp_RetentionSeconds : Z;
  fp_DeliveryTimeoutSeconds : Z;
  fp_MaxPendingSpoolBytes : Z
}.

Record Claims := mkClaims {
  cl_Issuer : string;
  cl_Audience : string;
  cl_Subject : string;
  cl_JTI : string;
  cl_IssuedAt : Z;
  cl_ExpiresAt : Z;
  cl_Scope : list string;
  cl_CredentialClass : string;
  cl_EnvironmentID : string;
  cl_UserID : string;
  cl_CLIClientSessionID : string;
  cl_HelperID : string;
  cl_MachineID : string;
  cl_InstallationGeneration : Z;
  cl_SourceMachineID : string;
  cl_SessionID : string;
  cl_AssignmentID : string;
  cl_WarningRevision : string;
  cl_ConnectorID : string;
  cl_ConnectorGeneration : Z;
  cl_EdgePool : string;
  cl_EdgeNodeID : string;
  cl_FileTransferPolicy : option FileTransferPolicy;
  cl_CounterEpoch : string;
  cl_Confirmation : option string
}.

Record Policy := mkPolicy {
  po_Issuer : string;
  po_Audience : string;
  po_CredentialClass : string;
  po_Scopes : list string;
  po_EnvironmentID : string;
  po_UserID : string;
  po_CLIClientSessionID : string;
  po_HelperID : string;
  po_MachineID : string;
  po_SourceMachineID : string;
  po_SessionID : string;
  po_AssignmentID : string;
  po_WarningRevision : string;
  po_ConnectorID : string;
  po_ConnectorGeneration : Z;
  po_EdgePool : string;
  po_EdgeNodeID : string;
  po_CounterEpoch : string;
  po_MaxLifetime : Z;
  po_SingleUse : bool
}.

Record header := mkHeader { hd_Algorithm : string; hd_KeyID : string; hd_Type : string }.

Definition match_ (expected actual : string) : bool := bool_decide (expected = "" \/ expected = actual).
Definition matchUint (expected actual : Z) : bool := bool_decide (expected = 0 \/ expected = actual).

Definition bindingsMatch (c : Claims) (p : Policy) : bool :=
  match_ (po_EnvironmentID p) (cl_EnvironmentID c) && match_ (po_MachineID p) (cl_MachineID c)
  && match_ (po_SourceMachineID p) (cl_SourceMachineID c) && match_ (po_UserID p) (cl_UserID c)
  && match_ (po_CLIClientSessionID p) (cl_CLIClientSessionID c) && match_ (po_HelperID p) (cl_HelperID c)
  && match_ (po_SessionID p) (cl_SessionID c) && match_ (po_AssignmentID p) (cl_AssignmentID c)
  && match_ (po_WarningRevision p) (cl_WarningRevision c) && match_ (po_ConnectorID p) (cl_ConnectorID c)
  && matchUint (po_ConnectorGeneration p) (cl_ConnectorGeneration c) && match_ (po_EdgePool p) (cl_EdgePool c)
  && match_ (po_EdgeNodeID p) (cl_EdgeNodeID c) && match_ (po_CounterEpoch p) (cl_CounterEpoch c).

(** The set of expected scopes, or nothing when one is empty or repeated. *)
Fixpoint expect_scopes (expected : list string) (set : gset string) : option (gset string) :=
  match expected with
  | [] => Some set
  | scope :: l => if decide (scope = "" \/ scope ∈ set) then None else expect_scopes l ({[scope]} ∪ set)
  end.

Fixpoint take_scopes (actual : list string) (set : gset string) : option (gset string) :=
  match actual with
  | [] => Some set
  | scope :: l => if decide (scope ∉ set) then None else take_scopes l (set ∖ {[scope]})
  end.

Definition exactScopes (actual expected : list string) : bool :=
  if decide (length actual <> length expected) then false
  else match expect_scopes expected ∅ with
       | None => false
       | Some set =>
           match take_scopes actual set with
           | None => false
           | Some rest => bool_decide (rest = ∅)
           end
       end.

(** ** Replays *)

Record ReplayCache := mkReplays { rc_entries : gmap string time; rc_max : Z }.

Definition NewReplayCache (max : Z) : ReplayCache := mkReplays ∅ max.

(** The clock is read once before and once under the lock.  [None] is the nil pointer. *)
Definition Consume (before locked : time) (c : option ReplayCache) (jti : string) (expires : time)
    : option ReplayCache * bool :=
  match c with
  | None => (None, false)
  | Some c =>
      if decide (jti = "" \/ ~ before < expires \/ rc_max c < 1) then (Some c, false)
      else
        let entries := filter (fun kv => locked < kv.2) (rc_entries c) in
        if decide (is_Some (entries !! jti) \/ rc_max c <= Z.of_nat (size entries))
        then (Some (mkReplays entries (rc_max c)), false)
        else (Some (mkReplays (<[jti := expires]> entries) (rc_max c)), true)
  end.

(** ** Revocations *)

Definition MaxRevokedJTIs : Z := 10000.
Inductive revocation_error := ErrRevocationsInvalid.

(** A watcher: its flag, whether its [once] has run, and how often its channel was closed
    (closing it twice would panic). *)
Record revocationWatcher := mkWatcher { wt_flag : bool; wt_once : bool; wt_closes : nat }.

(** Watchers are objects: [rv_objects] holds them by address, the map of watchers the
    addresses registered for each identifier, and [rv_released] the registrations whose
    release function has run. *)
Record RevocationCache := mkRevocations {
  rv_revoked : gset string;
  rv_watchers : gmap string (gset nat);
  rv_objects : gmap nat revocationWatcher;
  rv_released : gset nat
}.

Definition NewRevocationCache : RevocationCache := mkRevocations ∅ ∅ ∅ ∅.

Definition RevokedClaims (c : option RevocationCache) (claims : Claims) : bool :=
  match c with
  | None => false
  | Some c => if decide (cl_JTI claims = "") then false else bool_decide (cl_JTI claims ∈ rv_revoked c)
  end.

(** [flag.Store(true)] and [once.Do(close(signal))]. *)
Definition alert (w : revocationWatcher) : revocationWatcher :=
  mkWatcher true true (if wt_once w then wt_closes w else S (wt_closes w)).

Definition registered (c : RevocationCache) (jti : string) : gset nat := default ∅ (rv_watchers c !! jti).

(** [new] is the address of the watcher. *)
Definition Watch (new : nat) (c : option RevocationCache) (jti : string)
    : option RevocationCache * result revocation_error nat :=
  match c with
  | None => (None, Err ErrRevocationsInvalid)
  | Some c =>
      if decide (jti = "") then (Some c, Err ErrRevocationsInvalid)
      else
        let fresh := mkWatcher false false 0 in
        let watcher := if decide (jti ∈ rv_revoked c) then alert fresh else fresh in
        (Some (mkRevocations (rv_revoked c) (<[jti := {[new]} ∪ registered c jti]> (rv_watchers c))
                 (<[new := watcher]> (rv_objects c)) (rv_released c)), Ok new)
  end.

(** The function that [Watch] returns. *)
Definition Unwatch (c : RevocationCache) (jti : string) (watcher : nat) : RevocationCache :=
  if decide (watcher ∈ rv_released c) then c
  else
    let rest := registered c jti ∖ {[watcher]} in
    mkRevocations (rv_revoked c)
      (if decide (rest = ∅) then delete jti (rv_watchers c) else <[jti := rest]> (rv_watchers c))
      (rv_objects c) ({[watcher]} ∪ rv_released c).

(** The watchers registered for one of the identifiers. *)
Definition watching (c : RevocationCache) (next : gset string) : gset nat :=
  ⋃ ((fun jti => registered c jti) <$> elements next).

Definition Replace (c : option RevocationCache) (jtis : list string)
    : option RevocationCache * result revocation_error unit :=
  match c with
  | None => (None, Err ErrRevocationsInvalid)
  | Some c =>
      if decide (MaxRevokedJTIs < len jtis) then (Some c, Err ErrRevocationsInvalid)
      else if decide ("" ∈ jtis) then (Some c, Err ErrRevocationsInvalid)
      else
        let next := list_to_set jtis in
        let alerted := watching c next in
        (Some (mkRevocations next (rv_watchers c)
                 (map_imap (fun id w => Some (if decide (id ∈ alerted) then alert w else w)) (rv_objects c))
                 (rv_released c)), Ok tt)
  end.

(** ** Verification *)

(** [time.Unix(sec, 0)]: the seconds since year 1 wrap around at 64 bits. *)
Definition wrap_i64 (z : Z) : Z := (z + two63) mod two64 - two63.
Definition time_Unix (sec : Z) : time := (wrap_i64 (sec + 62135596800) - 62135596800) * second.

(** [t.Sub(u)] saturates. *)
Definition time_Sub (t u : time) : Z := Z.max (- two63) (Z.min (two63 - 1) (t - u)).

(** A source of public keys.  A lookup may read the clock; a refresh is given its timeout. *)
Class KeySource (K : Type) := {
  ks_Lookup : time -> K -> string -> result unit (option (list byte));
  ks_Refresh : Z -> K -> K * result unit unit
}.

(** The libraries that verification calls. *)
Class Crypto := {
  ed25519_Verify : list byte -> list byte -> list byte -> bool;
  auth_tokens : list byte -> decoder;
  (* The first value of the text, with [DisallowUnknownFields], and whether nothing follows it. *)
  decode_header : list byte -> option (header * bool);
  decode_claims : list byte -> option (Claims * bool)
}.

Section Verify.
Context {K : Type} `{KS : KeySource K} `{CR : Crypto}.

(** The package has its own copy of the walk over the tokens. *)
Definition rejectDuplicates (data : list byte) : result json_error unit := rejectDuplicateKeys (auth_tokens data).

Definition decodeSegment {A} (decode : list byte -> option (A * bool)) (segment : string) : option A :=
  match b64_DecodeString segment with
  | None => None
  | Some b =>
      match rejectDuplicates b with
      | Err _ => None
      | Ok _ => match decode b with Some (a, true) => Some a | _ => None end
      end
  end.

(** What is nil in a verifier, and its durations. *)
Record Verifier := mkVerifier {
  v_Keys : bool;
  v_Clock : bool;
  v_Revocations : bool;
  v_Replays : bool;
  v_ClockSkew : Z;
  v_RefreshTimeout : Z
}.

(** The objects a verifier shares with the rest of the program. *)
Record world := mkWorld {
  w_clock : nat -> time;
  w_reads : nat;
  w_keys : K;
  w_revocations : option RevocationCache;
  w_replays : option ReplayCache
}.

Definition Now (w : world) : world * time :=
  (mkWorld (w_clock w) (S (w_reads w)) (w_keys w) (w_revocations w) (w_replays w), w_clock w (w_reads w)).
Definition set_keys (k : K) (w : world) : world :=
  mkWorld (w_clock w) (w_reads w) k (w_revocations w) (w_replays w).
Definition set_replays (r : option ReplayCache) (w : world) : world :=
  mkWorld (w_clock w) (w_reads w) (w_keys w) (w_revocations w) r.

Definition keys_Lookup (w : world) (id : string) : world * result unit (option (list byte)) :=
  let '(w1, now) := Now w in (w1, ks_Lookup now (w_keys w1) id).

Definition refresh_timeout (v : Verifier) : Z :=
  if decide (v_RefreshTimeout v <= 0) then 2 * second else v_RefreshTimeout v.

(** The key of the header: looked up, and once more after a refresh when it is missing. *)
Definition find_key (v : Verifier) (id : string) (w : world) : world * result Code (list byte) :=
  let sized r := match r with
                 | Ok (Some key) => if decide (len key <> 32) then Err KeyUnknown else Ok key
                 | _ => Err KeyUnknown
                 end in
  match keys_Lookup w id with
  | (w1, Err _) => (w1, Err KeyUnknown)
  | (w1, Ok (Some key)) => (w1, sized (Ok (Some key)))
  | (w1, Ok None) =>
      match ks_Refresh (refresh_timeout v) (w_keys w1) with
      | (k, Err _) => (set_keys k w1, Err KeyUnknown)
      | (k, Ok _) => let '(w2, r) := keys_Lookup (set_keys k w1) id in (w2, sized r)
      end
  end.

(** The checks of the claims that do not depend on time. *)
Definition check_claims (claims : Claims) (policy : Policy) : result Code unit :=
  if decide (cl_Issuer claims <> po_Issuer policy) then Err BindingInvalid
  else if decide (cl_Audience claims <> po_Audience policy) then Err AudienceInvalid
  else if decide (cl_CredentialClass claims <> po_CredentialClass policy \/ bindingsMatch claims policy = false
                  \/ (cl_UserID claims <> "" /\ cl_Subject claims <> cl_UserID claims)) then Err BindingInvalid
  else if negb (exactScopes (cl_Scope claims) (po_Scopes policy)) then Err ScopeInvalid
  else Ok tt.

(** The checks of the times. *)
Definition check_times (v : Verifier) (claims : Claims) (policy : Policy) (now : time) : result Code unit :=
  let skew := Z.max 0 (v_ClockSkew v) in
  let issued := time_Unix (cl_IssuedAt claims) in
  let expires := time_Unix (cl_ExpiresAt claims) in
  if decide (cl_JTI claims = "" \/ cl_Subject claims = "" \/ cl_IssuedAt claims < 0
             \/ cl_ExpiresAt claims <= cl_IssuedAt claims) then Err Malformed
  else if decide (0 < po_MaxLifetime policy /\ po_MaxLifetime policy < time_Sub expires issued) then Err BindingInvalid
  else if decide (expires + skew < now) then Err Expired
  else if decide (now + skew < issued) then Err NotYetValid
  else Ok tt.

(** Revocation, and the consumption of a single-use credential. *)
Definition check_use (v : Verifier) (claims : Claims) (policy : Policy) (w : world) : world * result Code Claims :=
  if v_Revocations v && RevokedClaims (w_revocations w) claims then (w, Err Revoked)
  else if po_SingleUse policy then
    if v_Replays v then
      let '(w1, before) := Now w in
      let '(w2, locked) := Now w1 in
      let '(replays, ok) := Consume before locked (w_replays w2) (cl_JTI claims) (time_Unix (cl_ExpiresAt claims)) in
      (set_replays replays w2, if ok then Ok claims else Err Replayed)
    else (w, Err Replayed)
  else (w, Ok claims).

Definition Verify (v : Verifier) (token : string) (policy : Policy) (w : world) : world * result Code Claims :=
  if decide (slen token = 0 \/ Z.shiftl 16 10 < slen token \/ v_Keys v = false \/ v_Clock v = false)
  then (w, Err Malformed)
  else match split_at "." token with
  | [part0; part1; part2] =>
      if decide (Z.shiftl 2 10 < slen part0 \/ Z.shiftl 12 10 < slen part1 \/ 512 < slen part2)
      then (w, Err Malformed)
      else match decodeSegment decode_header part0 with
      | None => (w, Err Malformed)
      | Some h =>
          if decide (hd_Algorithm h <> "EdDSA" \/ hd_Type h <> "paperboat-credential+jwt" \/ hd_KeyID h = "")
          then (w, Err AlgorithmInvalid)
          else match find_key v (hd_KeyID h) w with
          | (w1, Err e) => (w1, Err e)
          | (w1, Ok key) =>
              match b64_DecodeString part2 with
              | None => (w1, Err Malformed)
              | Some signature =>
                  if decide (len signature <> 64) then (w1, Err Malformed)
                  else if negb (ed25519_Verify key (String.list_byte_of_string (part0 +:+ "." +:+ part1)) signature)
                  then (w1, Err SignatureInvalid)
                  else match decodeSegment decode_claims part1 with
                  | None => (w1, Err Malformed)
                  | Some claims =>
                      match check_claims claims policy with
                      | Err e => (w1, Err e)
                      | Ok _ =>
                          let '(w2, now) := Now w1 in
                          match check_times v claims policy now with
                          | Err e => (w2, Err e)
                          | Ok _ => check_use v claims policy w2
                          end
                      end
                  end
              end
          end
      end
  | _ => (w, Err Malformed)
  end.

End Verify.
Arguments world K : clear implicits.
