(* ===== verification/AuthTheorems.v ===== *)
(** * What a verified credential guarantees

    Exact scopes, single use, the propagation of revocations, and the soundness and
    completeness of [Verify] with respect to the policy. *)

From S2P Require Import Prelude Config Base64 Frame Auth.

(** ** Scopes *)

Lemma expect_scopes_spec l s r :
  expect_scopes l s = Some r <-> (NoDup l /\ ("" ∉ l) /\ (forall x, x ∈ l -> x ∉ s) /\ r = list_to_set l ∪ s).
Proof.
  revert s. induction l as [|x l IH]; intros s; simpl.
  { split; [intros [= <-]|intros (_&_&_&->)].
    - split_and!; [constructor|set_solver|set_solver|set_solver].
    - f_equal. set_solver. }
  rewrite NoDup_cons. case_decide as H.
  { split; [done|]. intros (_&He&Hs&_). destruct H as [->|H]; [set_solver|]. by destruct (Hs x); [left|]. }
  rewrite IH. apply Decidable.not_or in H as [Hx1 Hx2]. split.
  - intros (Hn&He&Hd&->). split_and!; [set_solver|done|set_solver|set_solver|set_solver].
  - intros ((Hx&Hn)&He&Hd&->). split_and!; [done|set_solver|set_solver|set_solver].
Qed.

Lemma take_scopes_spec l s r : take_scopes l s = Some r <-> (NoDup l /\ (forall x, x ∈ l -> x ∈ s) /\ r = s ∖ list_to_set l).
Proof.
  revert s. induction l as [|x l IH]; intros s; simpl.
  { split; [intros [= <-]|intros (_&_&->)].
    - split_and!; [constructor|set_solver|set_solver].
    - f_equal. set_solver. }
  rewrite NoDup_cons. case_decide as H.
  { split; [done|]. intros (_&Hs&_). by destruct H; apply Hs; left. }
  rewrite IH. split.
  - intros (Hn&Hs&->). split_and!; [set_solver|done|set_solver|set_solver].
  - intros ((Hx&Hn)&Hs&->). split_and!; [done|set_solver|set_solver].
Qed.

(** The scopes of a credential are accepted exactly when they are the expected scopes,
    each once, in any order; a policy with an empty or repeated scope accepts nothing. *)
Lemma scopes_exact (actual expected : list string) :
  exactScopes actual expected = true <-> actual ≡ₚ expected /\ NoDup expected /\ "" ∉ expected.
Proof.
  unfold exactScopes. case_decide as Hlen.
  { split; [done|]. intros (HP&_). by rewrite HP in Hlen. }
  split.
  - destruct (expect_scopes expected ∅) as [s|] eqn:E1; [|done]. apply expect_scopes_spec in E1 as (Hn&He&_&->).
    destruct (take_scopes actual _) as [r|] eqn:E2; [|done]. apply take_scopes_spec in E2 as (Hn2&Hs&->).
    intros Hr%bool_decide_eq_true_1. split_and!; [|done|done].
    apply NoDup_Permutation; [done..|]. intros x. split; [set_solver|]. intros Hx.
    destruct (decide (x ∈ actual)); [done|]. assert (Hb : x ∈ (∅ : gset string)) by (rewrite <- Hr; set_solver). set_solver.
  - intros (HP&Hn&He). destruct (expect_scopes expected ∅) as [s|] eqn:E1.
    + apply expect_scopes_spec in E1 as (_&_&_&->).
      assert (E2 : take_scopes actual (list_to_set expected ∪ ∅) = Some ((list_to_set expected ∪ ∅) ∖ list_to_set actual)).
      { apply take_scopes_spec. split_and!; [by rewrite HP|intros x; rewrite HP; set_solver|set_solver]. }
      rewrite E2. apply bool_decide_eq_true_2. apply set_eq. intros x.
      rewrite elem_of_difference, elem_of_union, !elem_of_list_to_set, HP, elem_of_empty. tauto.
    + assert (E2 : expect_scopes expected ∅ = Some (list_to_set expected ∪ ∅)) by (apply expect_scopes_spec; set_solver).
      congruence.
Qed.

(** ** Replays *)

(** An accepted credential: its identifier, its expiry and the time read under the lock. *)
Record accepted := mkAccepted { ac_jti : string; ac_expires : time; ac_at : time }.

Record replay_state := mkReplayState { rs_cache : ReplayCache; rs_now : time; rs_log : list accepted }.

(** A call of [Consume]: its two readings of a clock that does not run backwards, other
    calls having taken the lock between them. *)
Inductive replay_step : replay_state -> replay_state -> Prop :=
| RConsume s before locked jti expires c' ok :
    before <= locked -> rs_now s <= locked ->
    Consume before locked (Some (rs_cache s)) jti expires = (Some c', ok) ->
    replay_step s (mkReplayState c' locked (if ok then rs_log s ++ [mkAccepted jti expires locked] else rs_log s)).

Definition replay_start (max : Z) (now : time) : replay_state := mkReplayState (NewReplayCache max) now [].

(** Every accepted credential is remembered until it expires. *)
Definition remembered (s : replay_state) : Prop :=
  (forall a, a ∈ rs_log s -> rs_now s < ac_expires a -> rc_entries (rs_cache s) !! ac_jti a = Some (ac_expires a)) /\
  Z.of_nat (size (rc_entries (rs_cache s))) <= Z.max 0 (rc_max (rs_cache s)) /\
  (forall i j a b, (i < j)%nat -> rs_log s !! i = Some a -> rs_log s !! j = Some b ->
     ac_jti a = ac_jti b -> ac_expires a <= ac_at b) /\
  (forall a, a ∈ rs_log s -> ac_at a <= rs_now s).

Lemma filter_expired_lookup (m : gmap string time) t k (e : time) :
  m !! k = Some e -> t < e -> filter (fun kv => t < kv.2) m !! k = Some e.
Proof. intros Hk Ht. by apply map_lookup_filter_Some. Qed.

Lemma replay_step_remembered s s' : replay_step s s' -> remembered s -> remembered s'.
Proof.
  destruct 1 as [s before locked jti expires c' ok Hb Hnow HC]. intros (Hrem&Hsize&Hlog&Hat).
  set (entries := filter (fun kv => locked < kv.2) (rc_entries (rs_cache s))).
  assert (Hsz : (size entries <= size (rc_entries (rs_cache s)))%nat) by apply map_size_filter.
  assert (Hkeep : forall a, a ∈ rs_log s -> locked < ac_expires a -> entries !! ac_jti a = Some (ac_expires a)).
  { intros a Ha Hexp. apply filter_expired_lookup; [|done]. apply Hrem; [done|lia]. }
  unfold Consume in HC. case_decide as Hd; [simplify_eq|].
  { split_and!; simpl; [|done|done|]; intros a Ha; [intros; apply Hrem; [done|lia]|specialize (Hat a Ha); lia]. }
  fold entries in HC. case_decide as Hd2; simplify_eq.
  { split_and!; simpl; [done|lia|done|]. intros a Ha. specialize (Hat a Ha). lia. }
  apply Decidable.not_or in Hd2 as [Hnone Hfree]. apply eq_None_not_Some in Hnone.
  apply Decidable.not_or in Hd as [_ Hd]. apply Decidable.not_or in Hd as [_ Hmax].
  split_and!; simpl.
  - intros a [Ha| ->%list_elem_of_singleton]%elem_of_app Hexp; simpl; [|by rewrite lookup_insert_eq].
    specialize (Hkeep a Ha Hexp). rewrite lookup_insert_ne; [done|]. intros ->. by rewrite Hnone in Hkeep.
  - rewrite map_size_insert_None by done. lia.
  - intros i j a b Hij Ha Hb' Hj. apply lookup_snoc_Some in Hb' as [[Hlt Hb']|[-> <-]].
    { rewrite lookup_app_l in Ha by lia. by apply (Hlog i j). }
    rewrite lookup_app_l in Ha by done. apply list_elem_of_lookup_2 in Ha. simpl in *.
    destruct (decide (locked < ac_expires a)) as [Hl|]; [|lia]. specialize (Hkeep a Ha Hl). rewrite Hj, Hnone in Hkeep. done.
  - intros a [Ha| ->%list_elem_of_singleton]%elem_of_app; simpl; [specialize (Hat a Ha)|]; lia.
Qed.


Definition demo_replays : ReplayCache := mkReplays {["t" := 50]} 1.


(** The first reading of the clock is made before the lock is taken: a credential that
    expires between the two readings is dropped from the cache by its own second use, and
    accepted a second time. *)
Example replay_accepted_at_expiry :
  let c0 := Some (NewReplayCache 4) in
  let '(c1, ok1) := Consume 10 10 c0 "t" 50 in
  let '(c2, ok2) := Consume 49 50 c1 "t" 50 in
  ok1 = true /\ ok2 = true.
Proof. by vm_compute. Qed.

(** ** Revocations *)

(** The address of a new watcher is one that no object has. *)
Inductive revocation_step : RevocationCache -> RevocationCache -> Prop :=
| RevWatch c c' new jti r : rv_objects c !! new = None -> Watch new (Some c) jti = (Some c', r) -> revocation_step c c'
| RevUnwatch c jti watcher : revocation_step c (Unwatch c jti watcher)
| RevReplace c c' jtis r : Replace (Some c) jtis = (Some c', r) -> revocation_step c c'.

Definition watcher_ok (w : revocationWatcher) : Prop :=
  wt_flag w = wt_once w /\ wt_closes w = (if wt_once w then 1%nat else 0%nat).

(** Registered watchers exist; those of a revoked identifier have been alerted. *)
Definition revocations_ok (c : RevocationCache) : Prop :=
  (forall id w, rv_objects c !! id = Some w -> watcher_ok w) /\
  (forall jti id, id ∈ registered c jti ->
     exists w, rv_objects c !! id = Some w /\ (jti ∈ rv_revoked c -> wt_flag w = true)).

Lemma alert_ok w : watcher_ok w -> watcher_ok (alert w) /\ wt_flag (alert w) = true.
Proof. intros [Hf Hc]. unfold alert, watcher_ok. simpl. by destruct (wt_once w); rewrite Hc. Qed.

Lemma elem_of_watching c next id : id ∈ watching c next <-> exists jti, jti ∈ next /\ id ∈ registered c jti.
Proof.
  unfold watching. rewrite elem_of_union_list. split.
  - intros (X&(jti&->&Hj)%list_elem_of_fmap&Hid). exists jti. by rewrite elem_of_elements in Hj.
  - intros (jti&Hj&Hid). exists (registered c jti). split; [|done]. apply list_elem_of_fmap. exists jti. by rewrite elem_of_elements.
Qed.

Lemma Replace_ok c jtis c' : Replace (Some c) jtis = (Some c', Ok tt) -> revocations_ok c -> revocations_ok c'.
Proof.
  unfold Replace. case_decide; [done|]. case_decide; [done|]. intros [= <-] (Hw&Hr). split; simpl.
  - intros id w. rewrite map_lookup_imap, bind_Some. intros (w0&Hw0&[= <-]). specialize (Hw id w0 Hw0).
    case_decide; [by apply alert_ok|done].
  - intros jti id Hid. destruct (Hr jti id Hid) as (w&Hobj&Hf). rewrite map_lookup_imap, Hobj. simpl.
    eexists. split; [done|]. intros Hj. rewrite decide_True; [by apply alert_ok, (Hw id)|].
    apply elem_of_watching. by exists jti.
Qed.

Lemma registered_insert c jti j ids :
  registered (mkRevocations (rv_revoked c) (<[jti := ids]> (rv_watchers c)) (rv_objects c) (rv_released c)) j
  = if decide (jti = j) then ids else registered c j.
Proof. unfold registered. simpl. case_decide as H; [subst; by rewrite lookup_insert_eq|by rewrite lookup_insert_ne]. Qed.

Lemma Watch_ok new c jti c' :
  rv_objects c !! new = None -> Watch new (Some c) jti = (Some c', Ok new) -> revocations_ok c -> revocations_ok c'.
Proof.
  intros Hnew. unfold Watch. case_decide; [done|]. intros [= <-] (Hw&Hr).
  set (watcher := if decide _ then _ else _).
  assert (Hwt : watcher_ok watcher) by (unfold watcher; case_decide; done).
  split; simpl.
  - intros id w [[-> <-]|[? ?]]%lookup_insert_Some; [done|by apply (Hw id)].
  - intros j id Hid.
    assert (Hcase : (j = jti /\ id = new) \/ id ∈ registered c j).
    { unfold registered in Hid. simpl in Hid. destruct (decide (jti = j)) as [->|].
      - rewrite lookup_insert_eq in Hid. set_solver.
      - rewrite lookup_insert_ne in Hid by done. by right. }
    destruct Hcase as [[-> ->]|Hold].
    + exists watcher. rewrite lookup_insert_eq. split; [done|]. intros Hj. unfold watcher. by rewrite decide_True.
    + destruct (Hr j id Hold) as (w&Hobj&Hf). exists w. split; [|done]. rewrite lookup_insert_ne; [done|]. congruence.
Qed.

Lemma Unwatch_ok c jti watcher : revocations_ok c -> revocations_ok (Unwatch c jti watcher).
Proof.
  intros (Hw&Hr). unfold Unwatch. case_decide; [done|]. split; [done|]. intros j id Hid. apply Hr.
  unfold registered in *. cbn [rv_watchers] in Hid. destruct (decide (jti = j)) as [->|].
  - case_decide; [by rewrite lookup_delete_eq in Hid|]. rewrite lookup_insert_eq in Hid. set_solver.
  - case_decide; [by rewrite lookup_delete_ne in Hid|]. by rewrite lookup_insert_ne in Hid.
Qed.

Lemma revocation_step_ok c c' : revocation_step c c' -> revocations_ok c -> revocations_ok c'.
Proof.
  destruct 1 as [c c' new jti r Hnew E|c jti watcher|c c' jtis r E].
  - destruct r as [n|].
    + assert (n = new) as -> by (unfold Watch in E; case_decide; by simplify_eq). by apply (Watch_ok new c jti).
    + unfold Watch in E. case_decide; by simplify_eq.
  - apply Unwatch_ok.
  - destruct r as [[]|]; [by apply (Replace_ok c jtis)|]. unfold Replace in E. case_decide; [by simplify_eq|]. case_decide; by simplify_eq.
Qed.

(** Alerts are never taken back. *)
Lemma revocation_step_flag c c' id w :
  revocation_step c c' -> rv_objects c !! id = Some w ->
  exists w', rv_objects c' !! id = Some w' /\ (wt_flag w = true -> wt_flag w' = true).
Proof.
  intros Hs Hw. destruct Hs as [c c' new jti r Hnew E|c jti watcher|c c' jtis r E].
  - unfold Watch in E. case_decide; simplify_eq; [by eauto|]. exists w. split; [|done]. simpl.
    rewrite lookup_insert_ne; [done|congruence].
  - exists w. split; [|done]. unfold Unwatch. by case_decide.
  - unfold Replace in E. case_decide; simplify_eq; [by eauto|]. case_decide; simplify_eq; [by eauto|].
    simpl. rewrite map_lookup_imap, Hw. simpl. eexists. split; [done|]. by case_decide.
Qed.

(** A revocation reaches every connection that holds the credential: in every state
    that watches, releases and new revocation lists lead to, each registered watcher of a
    revoked identifier has its flag set and its channel closed, no channel is ever closed
    twice, and a watcher that has been alerted stays so. *)
Theorem revocation_reaches_watchers (c c' : RevocationCache) (jti : string) (id : nat) :
  rtc revocation_step NewRevocationCache c -> rtc revocation_step c c' -> id ∈ registered c jti ->
  exists w w', rv_objects c !! id = Some w /\ rv_objects c' !! id = Some w'
    /\ (jti ∈ rv_revoked c -> wt_flag w = true /\ wt_closes w = 1%nat)
    /\ (wt_flag w = true -> wt_flag w' = true) /\ (wt_closes w' <= 1)%nat.
Proof.
  intros H H' Hid.
  assert (Hok : revocations_ok c) by (apply (rtc_invariant _ _ revocation_step_ok _ _ H); split; [done|]; intros j i; unfold registered; simpl; set_solver).
  destruct (proj2 Hok jti id Hid) as (w&Hw&Hf).
  assert (Hlater : exists w', rv_objects c' !! id = Some w' /\ (wt_flag w = true -> wt_flag w' = true)).
  { apply (rtc_invariant revocation_step (fun c' => exists w', rv_objects c' !! id = Some w' /\ (wt_flag w = true -> wt_flag w' = true))
             ltac:(intros x y Hs (w1&H1&H2); destruct (revocation_step_flag _ _ _ _ Hs H1) as (w2&?&?); eauto) _ _ H').
    by eauto. }
  destruct Hlater as (w'&Hw'&Hmono). exists w, w'. split_and!; [done|done| |done|].
  - intros Hj. destruct (proj1 Hok id w Hw) as [E1 E2]. rewrite E2, <- E1. by rewrite Hf.
  - assert (Hok' : revocations_ok c') by by apply (rtc_invariant _ _ revocation_step_ok _ _ H').
    destruct (proj1 Hok' id w' Hw') as [_ E2]. rewrite E2. by destruct (wt_once w'); lia.
Qed.

Definition demo_revocations : RevocationCache :=
  default NewRevocationCache (Replace (Watch 7 (Some NewRevocationCache) "t").1 ["t"]).1.

Lemma revocation_reaches_watchers_witness : exists w, rv_objects demo_revocations !! 7%nat = Some w /\ wt_flag w = true.
Proof.
  destruct (revocation_reaches_watchers demo_revocations demo_revocations "t" 7) as (w&w'&Hw&_&Hf&_).
  - eapply rtc_l; [apply (RevWatch _ (default NewRevocationCache (Watch 7 (Some NewRevocationCache) "t").1) 7 "t" (Ok 7%nat)); by vm_compute|].
    eapply rtc_l; [apply (RevReplace _ demo_revocations ["t"] (Ok tt)); by vm_compute|]. apply rtc_refl.
  - apply rtc_refl.
  - by vm_compute.
  - exists w. split; [done|]. apply Hf. by vm_compute.
Defined.

(** ** Verification *)

Section Verification.
Context {K : Type} `{KS : KeySource K} `{CR : Crypto}.

(** The key source gave this key for the identifier, before or after one refresh. *)
Definition trusted_key (v : Verifier) (w : world K) (id : string) (key : list byte) : Prop :=
  len key = 32 /\
  (ks_Lookup (w_clock w (w_reads w)) (w_keys w) id = Ok (Some key) \/
   (ks_Lookup (w_clock w (w_reads w)) (w_keys w) id = Ok None /\
    (ks_Refresh (refresh_timeout v) (w_keys w)).2 = Ok tt /\
    ks_Lookup (w_clock w (S (w_reads w))) (ks_Refresh (refresh_timeout v) (w_keys w)).1 id = Ok (Some key))).

(** Nothing but the keys and the number of clock readings. *)
Definition same_records (w w' : world K) : Prop :=
  w_clock w' = w_clock w /\ (w_reads w <= w_reads w')%nat /\ w_revocations w' = w_revocations w /\ w_replays w' = w_replays w.

Lemma find_key_spec v id w w1 r :
  find_key v id w = (w1, r) ->
  same_records w w1 /\ match r with Ok key => trusted_key v w id key | Err e => e = KeyUnknown end.
Proof.
  unfold find_key, trusted_key, same_records, keys_Lookup, Now. simpl.
  destruct (ks_Lookup _ (w_keys w) id) as [[key|]|] eqn:E1; [| |by intros [= <- <-]; split_and!; simpl; auto].
  - case_decide; intros [= <- <-]; simpl; split_and!; auto; lia.
  - destruct (ks_Refresh _ (w_keys w)) as [k [[]|]] eqn:E2; simpl; [|by intros [= <- <-]; split_and!; simpl; auto].
    destruct (ks_Lookup _ k id) as [[key|]|] eqn:E3; try (intros [= <- <-]; simpl; split_and!; auto; lia).
    case_decide; intros [= <- <-]; simpl; split_and!; auto; lia.
Qed.

(** Every binding that the policy names is the claim's. *)
Definition bound (expected actual : string) : Prop := expected <> "" -> actual = expected.

Lemma match_bound e a : match_ e a = true <-> bound e a.
Proof. unfold match_, bound. rewrite bool_decide_eq_true. destruct (decide (e = "")); naive_solver. Qed.

Definition bindings_hold (c : Claims) (p : Policy) : Prop :=
  bound (po_EnvironmentID p) (cl_EnvironmentID c) /\ bound (po_MachineID p) (cl_MachineID c) /\
  bound (po_SourceMachineID p) (cl_SourceMachineID c) /\ bound (po_UserID p) (cl_UserID c) /\
  bound (po_CLIClientSessionID p) (cl_CLIClientSessionID c) /\ bound (po_HelperID p) (cl_HelperID c) /\
  bound (po_SessionID p) (cl_SessionID c) /\ bound (po_AssignmentID p) (cl_AssignmentID c) /\
  bound (po_WarningRevision p) (cl_WarningRevision c) /\ bound (po_ConnectorID p) (cl_ConnectorID c) /\
  (po_ConnectorGeneration p <> 0 -> cl_ConnectorGeneration c = po_ConnectorGeneration p) /\
  bound (po_EdgePool p) (cl_EdgePool c) /\ bound (po_EdgeNodeID p) (cl_EdgeNodeID c) /\
  bound (po_CounterEpoch p) (cl_CounterEpoch c).

Lemma matchUint_bound e a : matchUint e a = true <-> (e <> 0 -> a = e).
Proof. unfold matchUint. rewrite bool_decide_eq_true. lia. Qed.

Lemma bindingsMatch_spec c p : bindingsMatch c p = true <-> bindings_hold c p.
Proof. unfold bindingsMatch, bindings_hold. rewrite !andb_true_iff, !match_bound, matchUint_bound. tauto. Qed.

(** What the policy asks of the claims, independent of time. *)
Definition claims_hold (c : Claims) (p : Policy) : Prop :=
  cl_Issuer c = po_Issuer p /\ cl_Audience c = po_Audience p /\ cl_CredentialClass c = po_CredentialClass p /\
  bindings_hold c p /\ bound (cl_UserID c) (cl_Subject c) /\
  cl_Scope c ≡ₚ po_Scopes p /\ NoDup (po_Scopes p) /\ "" ∉ po_Scopes p.

Lemma check_claims_spec c p : check_claims c p = Ok tt <-> claims_hold c p.
Proof.
  unfold check_claims, claims_hold, bound. rewrite <- bindingsMatch_spec, <- scopes_exact.
  case_decide as H1; [split; [done|by intros (?&_)]|].
  case_decide as H2; [split; [done|by intros (_&?&_)]|].
  case_decide as H3.
  { split; [done|]. intros (_&_&?&Hb&Hu&_). destruct H3 as [H3|[H3|[Hn H3]]]; [done|by rewrite Hb in H3|by specialize (Hu Hn)]. }
  apply Decidable.not_or in H3 as [H3 H4]. apply Decidable.not_or in H4 as [H4 H5].
  apply not_false_is_true in H4. destruct (exactScopes _ _); simpl; [|split; [done|by intros (_&_&_&_&_&?)]].
  split; [|done]. intros _. split_and!; [done|done|by apply dec_stable|done| |done].
  intros Hu. destruct (decide (cl_Subject c = cl_UserID c)); [done|]. by destruct H5.
Qed.

(** What is asked of the times: the seconds are not wrapped. *)
Definition times_hold (v : Verifier) (c : Claims) (p : Policy) (now : time) : Prop :=
  let skew := Z.max 0 (v_ClockSkew v) in
  cl_JTI c <> "" /\ cl_Subject c <> "" /\ 0 <= cl_IssuedAt c < cl_ExpiresAt c /\
  (0 < po_MaxLifetime p -> time_Sub (time_Unix (cl_ExpiresAt c)) (time_Unix (cl_IssuedAt c)) <= po_MaxLifetime p) /\
  now <= time_Unix (cl_ExpiresAt c) + skew /\ time_Unix (cl_IssuedAt c) <= now + skew.

Lemma check_times_spec v c p now : check_times v c p now = Ok tt <-> times_hold v c p now.
Proof.
  unfold check_times, times_hold.
  case_decide as H1; [split; [done|]; intros (?&?&?&_); destruct H1 as [?|[?|[?|?]]]; (done || lia)|].
  apply Decidable.not_or in H1 as [H1 H2]. apply Decidable.not_or in H2 as [H2 H3].
  case_decide; [split; [done|lia]|]. case_decide; [split; [done|lia]|]. case_decide; [split; [done|lia]|].
  split; [|done]. intros _. split_and!; (done || lia).
Qed.

(** The replay cache only loses entries. *)
Definition replays_only_lost (r r' : option ReplayCache) : Prop :=
  forall c', r' = Some c' -> exists c, r = Some c /\ rc_entries c' ⊆ rc_entries c.

Lemma replays_only_lost_refl r : replays_only_lost r r.
Proof. intros c' ->. by eauto. Qed.

Lemma Consume_spec before locked c jti expires c' ok :
  Consume before locked c jti expires = (c', ok) ->
  if ok then exists c0 c1, c = Some c0 /\ c' = Some c1 /\ rc_entries c1 !! jti = Some expires /\ before < expires
       /\ forall e, rc_entries c0 !! jti = Some e -> e <= locked
  else replays_only_lost c c'.
Proof.
  unfold Consume. destruct c as [c|]; [|intros [= <- <-]; apply replays_only_lost_refl].
  case_decide as H1; [intros [= <- <-]; apply replays_only_lost_refl|].
  case_decide as H2; intros [= <- <-].
  - intros c1 [= <-]. exists c. split; [done|]. simpl. apply map_filter_subseteq.
  - apply Decidable.not_or in H1 as [_ H1]. apply Decidable.not_or in H1 as [H1 _]. apply Decidable.not_or in H2 as [H2 _].
    eexists _, _. split_and!; [done|done|simpl; by rewrite lookup_insert_eq|lia|].
    intros e He. destruct (decide (locked < e)); [|lia]. destruct H2. exists e. by apply filter_expired_lookup.
Qed.

Lemma check_use_spec v c p (w w' : world K) r :
  check_use v c p w = (w', r) ->
  w_revocations w' = w_revocations w /\
  match r with
  | Ok c' => c' = c /\ (v_Revocations v = true -> RevokedClaims (w_revocations w) c = false) /\
      (po_SingleUse p = true -> v_Replays v = true /\ exists c0 c1, w_replays w = Some c0 /\ w_replays w' = Some c1 /\
         rc_entries c1 !! cl_JTI c = Some (time_Unix (cl_ExpiresAt c)) /\
         forall e, rc_entries c0 !! cl_JTI c = Some e -> e <= w_clock w (S (w_reads w)))
  | Err e => (e = Revoked \/ e = Replayed) /\ replays_only_lost (w_replays w) (w_replays w')
  end.
Proof.
  unfold check_use. destruct (v_Revocations v && RevokedClaims _ c) eqn:E1.
  { intros [= <- <-]. split_and!; auto using replays_only_lost_refl. }
  apply andb_false_iff in E1. destruct (po_SingleUse p) eqn:E2.
  - destruct (v_Replays v) eqn:E3; [|intros [= <- <-]; split_and!; auto using replays_only_lost_refl].
    simpl. destruct (Consume _ _ _ _ _) as [replays ok] eqn:EC. apply Consume_spec in EC.
    intros [= <- <-]. simpl. split; [done|]. destruct ok; [|auto].
    destruct EC as (c0&c1&H0&H1&H2&_&H3). split; [done|]. split; [intros; by destruct E1; congruence|].
    intros _. split; [done|]. by exists c0, c1.
  - intros [= <- <-]. split; [done|]. split; [done|]. split; [intros; by destruct E1; congruence|done].
Qed.

(** The token is three segments, whose first two are signed by a trusted key and decode to
    the claims. *)
Definition signed_claims (v : Verifier) (w : world K) (token : string) (claims : Claims) : Prop :=
  exists h p s hdr key signature,
    token = h +:+ String "." (p +:+ String "." s) /\
    decodeSegment decode_header h = Some hdr /\ hd_Algorithm hdr = "EdDSA" /\ hd_Type hdr = "paperboat-credential+jwt" /\
    trusted_key v w (hd_KeyID hdr) key /\
    b64_DecodeString s = Some signature /\ len signature = 64 /\
    ed25519_Verify key (String.list_byte_of_string (h +:+ "." +:+ p)) signature = true /\
    decodeSegment decode_claims p = Some claims.

Lemma Verify_inv v token policy w w' r :
  Verify v token policy w = (w', r) ->
  (exists w1 claims now, same_records w w1 /\ signed_claims v w token claims /\ claims_hold claims policy /\
     (exists i, (w_reads w <= i)%nat /\ now = w_clock w i) /\ times_hold v claims policy now /\
     check_use v claims policy (Now w1).1 = (w', r))
  \/ (same_records w w' /\ is_ok r = false).
Proof.
  assert (Hrefl : same_records w w) by by split_and!.
  unfold Verify. case_decide; [intros [= <- <-]; by right|].
  destruct (split_at "." token) as [|h [|p [|s [|]]]] eqn:Esplit; try (intros [= <- <-]; by right).
  apply split_at_join in Esplit. case_decide; [intros [= <- <-]; by right|].
  destruct (decodeSegment decode_header h) as [hdr|] eqn:Eh; [|intros [= <- <-]; by right].
  case_decide as Hh; [intros [= <- <-]; by right|].
  apply Decidable.not_or in Hh as [Ha Hh]. apply Decidable.not_or in Hh as [Ht _]. apply dec_stable in Ha, Ht.
  destruct (find_key v (hd_KeyID hdr) w) as [w1 [key|e]] eqn:Ek; apply find_key_spec in Ek as [Hsame Hkey];
    [|intros [= <- <-]; by right].
  destruct (b64_DecodeString s) as [signature|] eqn:Es; [|intros [= <- <-]; by right].
  case_decide as Hl; [intros [= <- <-]; by right|].
  destruct (ed25519_Verify _ _ _) eqn:Ev; simpl; [|intros [= <- <-]; by right].
  destruct (decodeSegment decode_claims p) as [claims|] eqn:Ec; [|intros [= <- <-]; by right].
  destruct (check_claims claims policy) as [[]|e] eqn:Ecc; [|intros [= <- <-]; by right].
  destruct (check_times v claims policy _) as [[]|e] eqn:Ect.
  - apply check_claims_spec in Ecc. apply check_times_spec in Ect. intros E. left. exists w1, claims, (w_clock w1 (w_reads w1)).
    split_and!; [done| |done| |done|done].
    + exists h, p, s, hdr, key, signature. split_and!; (done || apply Hkey).
    + destruct Hsame as (Hc&Hr&_). exists (w_reads w1). by rewrite Hc.
  - intros [= <- <-]. right. split; [|done]. destruct Hsame as (?&?&?&?). split_and!; simpl; try done. lia.
Qed.

(** C5.  A credential is accepted only when everything the policy asks is true of it: the
    first two segments of the token are signed, as written, by a key that the source has
    for the key identifier of the header, and decode to the returned claims; issuer,
    audience, class, every binding the policy names and the exact scopes are the policy's;
    at a time read during the call it was issued, not expired (both up to the clock skew)
    and not longer lived than the policy allows; its identifier is not revoked; and a
    single-use credential is now in the replay cache, where no unexpired use of it was. *)
Theorem verify_sound (v : Verifier) (token : string) (policy : Policy) (w w' : world K) (claims : Claims) :
  Verify v token policy w = (w', Ok claims) ->
  signed_claims v w token claims /\ claims_hold claims policy /\
  (exists i, (w_reads w <= i)%nat /\ times_hold v claims policy (w_clock w i)) /\
  (v_Revocations v = true -> RevokedClaims (w_revocations w) claims = false) /\
  (po_SingleUse policy = true -> exists c0 c1 i, w_replays w = Some c0 /\ w_replays w' = Some c1 /\
     rc_entries c1 !! cl_JTI claims = Some (time_Unix (cl_ExpiresAt claims)) /\
     (w_reads w <= i)%nat /\ forall e, rc_entries c0 !! cl_JTI claims = Some e -> e <= w_clock w i).
Proof.
  intros [(w1&c&now&Hsame&Hsig&Hclaims&(i&Hi&->)&Htimes&Huse)|[_ ?]]%Verify_inv; [|done].
  apply check_use_spec in Huse as [_ (->&Hrev&Hsingle)].
  destruct Hsame as (Hc&Hr&Hrv&Hrp). cbn [Now fst w_revocations w_replays w_clock w_reads] in *. rewrite Hrv in Hrev.
  split_and!; [done|done|by eauto|done|].
  intros Hs. destruct (Hsingle Hs) as (_&c0&c1&H0&H1&H2&H3). exists c0, c1, (S (S (w_reads w1))).
  split_and!; [congruence|done|done|lia|]. by rewrite <- Hc.
Qed.

(** A refused credential is not used up: when [Verify] returns an error, revocations
    are as before and the replay cache has no entry that it did not have, so the credential
    can be presented again. *)
Theorem verify_refusal_consumes_nothing (v : Verifier) (token : string) (policy : Policy) (w w' : world K) (e : Code) :
  Verify v token policy w = (w', Err e) ->
  w_revocations w' = w_revocations w /\ replays_only_lost (w_replays w) (w_replays w').
Proof.
  intros [(w1&c&now&Hsame&_&_&_&_&Huse)|[Hsame _]]%Verify_inv; destruct Hsame as (Hc&Hr&Hrv&Hrp).
  - apply check_use_spec in Huse as [Hv [_ Hl]]. cbn [Now fst w_revocations w_replays] in *.
    split; [congruence|]. by rewrite <- Hrp.
  - split; [done|]. rewrite Hrp. apply replays_only_lost_refl.
Qed.

(** The token that an issuer makes of a header, claims and a signature. *)
Definition issue (hb cb signature : list byte) : string :=
  b64_EncodeToString hb +:+ String "." (b64_EncodeToString cb +:+ String "." (b64_EncodeToString signature)).

Lemma decodeSegment_encoded {A} (decode : list byte -> option (A * bool)) b a :
  rejectDuplicateKeys (auth_tokens b) = Ok tt -> decode b = Some (a, true) -> decodeSegment decode (b64_EncodeToString b) = Some a.
Proof. intros Hd Ha. unfold decodeSegment, rejectDuplicates. by rewrite b64_roundtrip, Hd, Ha. Qed.

Lemma split_issue hb cb signature :
  split_at "." (issue hb cb signature) = [b64_EncodeToString hb; b64_EncodeToString cb; b64_EncodeToString signature].
Proof.
  unfold issue. rewrite split_at_app by apply b64_no_dot. rewrite split_at_app by apply b64_no_dot.
  by rewrite split_at_last by apply b64_no_dot.
Qed.

(** A proper credential is accepted: a token made of a header, claims and a signature
    that the key of the header's identifier verifies, within the size limits, whose claims
    satisfy the policy at the time of the call and whose identifier is not revoked, is
    verified and gives its claims back, whether the key is in the source or arrives with
    the refresh. *)
Theorem verify_complete (v : Verifier) (hb cb signature key : list byte) (hdr : header) (claims : Claims)
    (policy : Policy) (w : world K) :
  v_Keys v = true -> v_Clock v = true -> po_SingleUse policy = false ->
  slen (issue hb cb signature) <= 16384 -> slen (b64_EncodeToString hb) <= 2048 ->
  slen (b64_EncodeToString cb) <= 12288 -> slen (b64_EncodeToString signature) <= 512 -> len signature = 64 ->
  rejectDuplicateKeys (auth_tokens hb) = Ok tt -> decode_header hb = Some (hdr, true) ->
  rejectDuplicateKeys (auth_tokens cb) = Ok tt -> decode_claims cb = Some (claims, true) ->
  hd_Algorithm hdr = "EdDSA" -> hd_Type hdr = "paperboat-credential+jwt" -> hd_KeyID hdr <> "" ->
  trusted_key v w (hd_KeyID hdr) key ->
  ed25519_Verify key (String.list_byte_of_string (b64_EncodeToString hb +:+ "." +:+ b64_EncodeToString cb)) signature = true ->
  claims_hold claims policy -> (forall i, times_hold v claims policy (w_clock w i)) ->
  RevokedClaims (w_revocations w) claims = false ->
  (Verify v (issue hb cb signature) policy w).2 = Ok claims.
Proof.
  intros HK HC Hsu L0 L1 L2 L3 L4 Hdh Hh Hdc Hc Ha Ht Hk Hkey Hsig Hclaims Htimes Hrev. unfold Verify.
  rewrite decide_False; [|rewrite HK, HC; change (Z.shiftl 16 10) with 16384; intros [He|[?|[?|?]]]; [|lia|done..]].
  2: { unfold slen, issue in He. destruct (b64_EncodeToString hb); simpl in He; lia. }
  rewrite split_issue, decide_False by (change (Z.shiftl 2 10) with 2048; change (Z.shiftl 12 10) with 12288; lia).
  rewrite (decodeSegment_encoded _ _ _ Hdh Hh), decide_False by (rewrite Ha, Ht; intros [?|[?|?]]; done).
  destruct Hkey as [Hlen Hkey].
  assert (Hfind : exists w1, find_key v (hd_KeyID hdr) w = (w1, Ok key) /\ same_records w w1).
  { destruct (find_key v (hd_KeyID hdr) w) as [w1 r] eqn:E. exists w1. pose proof (find_key_spec _ _ _ _ _ E) as [Hs _].
    split; [|done]. f_equal. unfold find_key, keys_Lookup in E. simpl in E.
    destruct Hkey as [Hkey|(H1&H2&H3)].
    - rewrite Hkey in E. rewrite decide_False in E by lia. congruence.
    - rewrite H1 in E. destruct (ks_Refresh _ _) as [k r2]; simpl in *. subst r2. simpl in E. rewrite H3, decide_False in E by lia. congruence. }
  destruct Hfind as (w1&->&Hc1&_&Hr1&_). rewrite b64_roundtrip, decide_False by lia. rewrite Hsig. simpl.
  rewrite (decodeSegment_encoded _ _ _ Hdc Hc). rewrite (proj2 (check_claims_spec _ _) Hclaims).
  rewrite Hc1, (proj2 (check_times_spec _ _ _ _) (Htimes (w_reads w1))).
  unfold check_use. cbn [w_revocations]. rewrite Hr1, Hrev, andb_false_r, Hsu. done.
Qed.

End Verification.

(** *** Witnesses: one key, a signature that is the first byte of the message repeated, and
    a library that decodes every text to the same header and claims. *)

Definition demo_key : list byte := replicate 32 x01.
Definition demo_source : KeySource unit := {|
  ks_Lookup := fun _ _ id => Ok (if decide (id = "k1") then Some demo_key else None);
  ks_Refresh := fun _ k => (k, Ok tt)
|}.
Definition demo_claims : Claims :=
  mkClaims "iss" "paperboat-helper" "u1" "j1" 100 200 ["b"; "a"] "terminal_operation" "env" "u1" "" "" "" 0 "" "" "" "" "" 0 "" "" None "" None.
Definition demo_crypto : Crypto := {|
  ed25519_Verify := fun key msg signature =>
    bool_decide (key = demo_key /\ signature = replicate 64 (default x00 (head msg)));
  auth_tokens := fun _ => mkDecoder [TOpenObject; TCloseObject] JEOF;
  decode_header := fun b => Some (mkHeader "EdDSA" "k1" "paperboat-credential+jwt", true);
  decode_claims := fun b => Some (demo_claims, true)
|}.
Definition demo_policy (single : bool) : Policy :=
  mkPolicy "iss" "paperboat-helper" "terminal_operation" ["a"; "b"] "env" "" "" "" "" "" "" "" "" "" 0 "" "" "" (300 * second) single.
Definition demo_verifier : Verifier := mkVerifier true true true true (30 * second) 0.
Definition demo_world : world unit :=
  mkWorld (fun _ => 150 * second) 0 tt (Some NewRevocationCache) (Some (NewReplayCache 4)).
Definition demo_token : string := issue [x7b; x7d] [x7b; x7d] (replicate 64 x65).

Lemma verify_sound_witness :
  claims_hold demo_claims (demo_policy true) /\
  (exists w' : world unit, @Verify _ demo_source demo_crypto demo_verifier demo_token (demo_policy true) demo_world = (w', Ok demo_claims)).
Proof.
  destruct (@Verify _ demo_source demo_crypto demo_verifier demo_token (demo_policy true) demo_world) as [w' r] eqn:E.
  assert (Hr : r = Ok demo_claims) by (change r with (w', r).2; rewrite <- E; by vm_compute). subst r.
  split; [|by exists w'].
  destruct (@verify_sound _ demo_source demo_crypto demo_verifier demo_token (demo_policy true) demo_world w' demo_claims E) as (_&H&_).
  exact H.
Defined.

Lemma verify_refusal_consumes_nothing_witness :
  exists (w' : world unit) e, @Verify _ demo_source demo_crypto demo_verifier "x" (demo_policy true) demo_world = (w', Err e)
    /\ w_revocations w' = w_revocations demo_world.
Proof.
  exists demo_world, Malformed.
  assert (E : @Verify _ demo_source demo_crypto demo_verifier "x" (demo_policy true) demo_world = (demo_world, Err Malformed)) by by vm_compute.
  split; [exact E|].
  destruct (@verify_refusal_consumes_nothing _ demo_source demo_crypto demo_verifier "x" (demo_policy true) demo_world demo_world Malformed E) as [H _].
  exact H.
Defined.

Lemma verify_complete_witness :
  (@Verify _ demo_source demo_crypto demo_verifier demo_token (demo_policy false) demo_world).2 = Ok demo_claims.
Proof.
  assert (Hs : claims_hold demo_claims (demo_policy false)) by (apply check_claims_spec; by vm_compute).
  apply (@verify_complete _ demo_source demo_crypto demo_verifier [x7b; x7d] [x7b; x7d] (replicate 64 x65) demo_key
           (mkHeader "EdDSA" "k1" "paperboat-credential+jwt") demo_claims (demo_policy false) demo_world);
    try done; try by vm_compute.
  split; [done|]. left. by vm_compute.
Defined.
