(* ===== verification/Jwks.v ===== *)
(** * The cache of signing keys ([internal/auth/jwks.go])

    [Refresh] fetches the key set of the control plane, stores the document, and replaces
    the keys: those of the document for a TTL, those that have disappeared for a retention
    period counted from the first refresh that misses them.  The response, the outcome of
    each file operation and the times are inputs; the JSON library is a parameter.
    [JWKSCache] is a key source for [Auth.Verify].

    [NewHTTPJWKSFetcher] and [Fetch] are calls of the HTTP library and not modelled. *)

From S2P Require Import Prelude Config Wire Base64 Frame Auth.

(** ** Documents *)

Record jwk := mkJwk { jk_KeyType : string; jk_Curve : string; jk_Use : string; jk_Algorithm : string; jk_KeyID : string; jk_X : string }.

Record persistedJWKS := mkPersisted { pj_Schema : string; pj_ValidatedAt : time; pj_Document : list byte }.

Inductive jwks_error := ErrJWKSInvalid | ErrJWKSOverLimit | EJwksOther.

(** JSON texts of key sets; the flag says whether nothing follows the value. *)
Class JsonKeys := {
  jwks_tokens : list byte -> decoder;
  decode_document : list byte -> option (list jwk * bool);
  decode_persisted : list byte -> option (persistedJWKS * bool);
  encode_persisted : persistedJWKS -> option (list byte)
}.

(** [filepath.IsAbs(path) && filepath.Clean(path) == path]: a rooted path without empty,
    dot or dot-dot elements and without a trailing separator. *)
Definition clean_abs (path : string) : bool :=
  bool_decide (path = "/") ||
  match split_at "/" path with
  | "" :: (_ :: _) as l => bool_decide (Forall (fun x => x <> "" /\ x <> "." /\ x <> "..") (tail l))
  | _ => false
  end.

Definition DefaultMaxJWKSBytes : Z := Z.shiftl 64 10.
Definition DefaultRetainMissing : Z := 61 * minute.

Record JWKSConfig := mkConfig {
  jc_Fetcher : bool;   (* not nil *)
  jc_Clock : bool;
  jc_TTL : Z;
  jc_RetainMissing : Z;
  jc_MaxBytes : Z;
  jc_MaxKeys : Z;
  jc_MaxRetainedKeys : Z;
  jc_PersistencePath : string
}.

Record cachedKey := mkCached { ck_key : list byte; ck_expiresAt : time; ck_retired : bool }.

(** [jw_file] is what the persistence path holds. *)
Record JWKSCache := mkCache { jw_config : JWKSConfig; jw_keys : gmap string cachedKey; jw_file : option (list byte) }.

(** The answer of the fetcher. *)
Inductive fetched := FetchError | FetchNoBody | FetchBody (body : reader).

(** What [os.Lstat] says of the stored file. *)
Record file_info := mkInfo { fi_regular : bool; fi_perm600 : bool }.

(** The file operations of [persist], in order. *)
Inductive file_call := MkdirAll | LstatDirectory | ChmodDirectory | CreateTemp | ChmodTemp | WriteTemp | SyncTemp | CloseTemp | Rename.

(** [io.ReadAll(io.LimitReader(body, n))]. *)
Definition read_limited (r : reader) (n : Z) : option (list byte) :=
  if decide (len (rd_bytes r) < n)
  then match rd_end r with EOF => Some (rd_bytes r) | _ => None end
  else Some (take (Z.to_nat n) (rd_bytes r)).

Section JWKS.
Context `{JK : JsonKeys}.

Fixpoint decode_keys (items : list jwk) (keys : gmap string (list byte)) : result jwks_error (gmap string (list byte)) :=
  match items with
  | [] => Ok keys
  | item :: rest =>
      if decide (jk_KeyType item <> "OKP" \/ jk_Curve item <> "Ed25519" \/ jk_Use item <> "sig"
                 \/ jk_Algorithm item <> "EdDSA" \/ slen (jk_KeyID item) < 1 \/ 128 < slen (jk_KeyID item))
      then Err ErrJWKSInvalid
      else if decide (is_Some (keys !! jk_KeyID item)) then Err ErrJWKSInvalid
      else match b64_DecodeString (jk_X item) with
      | None => Err ErrJWKSInvalid
      | Some x => if decide (len x <> 32) then Err ErrJWKSInvalid
                  else decode_keys rest (<[jk_KeyID item := x]> keys)
      end
  end.

Definition decodeJWKS (encoded : list byte) (maxKeys : Z) : result jwks_error (gmap string (list byte)) :=
  match rejectDuplicateKeys (jwks_tokens encoded) with
  | Err _ => Err ErrJWKSInvalid
  | Ok _ =>
      match decode_document encoded with
      | Some (items, true) =>
          if decide (len items = 0 \/ maxKeys < len items) then Err ErrJWKSOverLimit else decode_keys items ∅
      | _ => Err ErrJWKSInvalid
      end
  end.

(** ** The cache *)

Definition or_default (z d : Z) : Z := if decide (z = 0) then d else z.

Definition jwks_config (c : JWKSConfig) : JWKSConfig :=
  mkConfig (jc_Fetcher c) (jc_Clock c) (or_default (jc_TTL c) (5 * minute)) (or_default (jc_RetainMissing c) DefaultRetainMissing)
    (or_default (jc_MaxBytes c) DefaultMaxJWKSBytes) (or_default (jc_MaxKeys c) 64) (or_default (jc_MaxRetainedKeys c) 128)
    (jc_PersistencePath c).

Definition config_invalid (c : JWKSConfig) : Prop :=
  jc_Fetcher c = false \/ jc_Clock c = false \/ jc_TTL c <= 0 \/ jc_RetainMissing c < jc_TTL c \/ jc_MaxBytes c < 1
  \/ DefaultMaxJWKSBytes < jc_MaxBytes c \/ jc_MaxKeys c < 1 \/ 64 < jc_MaxKeys c
  \/ jc_MaxRetainedKeys c < jc_MaxKeys c \/ 256 < jc_MaxRetainedKeys c.
#[global] Instance config_invalid_dec c : Decision (config_invalid c).
Proof. unfold config_invalid. apply _. Defined.

(** The keys of the stored document, still fresh. *)
Definition loadPersisted (c : JWKSConfig) (info : option file_info) (file : option (list byte)) (now : time)
    : gmap string cachedKey :=
  let path := jc_PersistencePath c in
  if negb (clean_abs path) then ∅
  else match info, file with
  | Some info, Some body =>
      if decide (fi_regular info = false \/ fi_perm600 info = false \/ len body < 1 \/ jc_MaxBytes c + 4096 < len body) then ∅
      else match decode_persisted body with
      | Some (persisted, true) =>
          if decide (pj_Schema persisted <> "paperboat.jwks-cache/v1" \/ is_zero_time (pj_ValidatedAt persisted) = true) then ∅
          else if decide (now + minute < pj_ValidatedAt persisted \/ ~ now < pj_ValidatedAt persisted + jc_TTL c) then ∅
          else match decodeJWKS (pj_Document persisted) (jc_MaxKeys c) with
          | Err _ => ∅
          | Ok keys => (fun key => mkCached key (pj_ValidatedAt persisted + jc_TTL c) false) <$> keys
          end
      | _ => ∅
      end
  | _, _ => ∅
  end.

Definition NewJWKSCache (config : JWKSConfig) (info : option file_info) (file : option (list byte)) (now : time)
    : result jwks_error JWKSCache :=
  let config := jwks_config config in
  if decide (config_invalid config) then Err ErrJWKSInvalid
  else Ok (mkCache config (loadPersisted config info file now) file).

Definition jwks_Lookup (now : time) (c : JWKSCache) (keyID : string) : result unit (option (list byte)) :=
  if decide (keyID = "") then Ok None
  else match jw_keys c !! keyID with
  | None => Ok None
  | Some entry => if decide (~ now < ck_expiresAt entry) then Ok None else Ok (Some (ck_key entry))
  end.

Definition persist (ok : file_call -> bool) (c : JWKSCache) (document : list byte) (validatedAt : time)
    : JWKSCache * result jwks_error unit :=
  let path := jc_PersistencePath (jw_config c) in
  if decide (path = "") then (c, Ok tt)
  else if negb (clean_abs path) then (c, Err ErrJWKSInvalid)
  else if negb (ok MkdirAll) then (c, Err EJwksOther)
  else if negb (ok LstatDirectory) then (c, Err ErrJWKSInvalid)
  else if negb (ok ChmodDirectory) then (c, Err EJwksOther)
  else match encode_persisted (mkPersisted "paperboat.jwks-cache/v1" validatedAt document) with
  | None => (c, Err EJwksOther)
  | Some body =>
      if negb (ok CreateTemp && ok ChmodTemp && ok WriteTemp && ok SyncTemp && ok CloseTemp && ok Rename)
      then (c, Err EJwksOther)
      else (mkCache (jw_config c) (jw_keys c) (Some body), Ok tt)
  end.

(** The keys that the refreshed set does not have: already retired ones until they expire,
    the others for the retention period. *)
Definition retain (now : time) (retention : Z) (previous : cachedKey) : option cachedKey :=
  if ck_retired previous then if decide (now < ck_expiresAt previous) then Some previous else None
  else Some (mkCached (ck_key previous) (now + retention) true).

Definition merge_keys (c : JWKSConfig) (now : time) (refreshed : gmap string (list byte)) (keys : gmap string cachedKey)
    : gmap string cachedKey :=
  merge (fun new old =>
    match new, old with
    | Some key, _ => Some (mkCached key (now + jc_TTL c) false)
    | None, Some previous => retain now (jc_RetainMissing c) previous
    | None, None => None
    end) refreshed keys.

(** [now] is read under the lock. *)
Definition Refresh (canceled : bool) (response : fetched) (now : time) (ok : file_call -> bool) (c : JWKSCache)
    : JWKSCache * result jwks_error unit :=
  if canceled then (c, Err EJwksOther)
  else match response with
  | FetchError => (c, Err EJwksOther)
  | FetchNoBody => (c, Err ErrJWKSInvalid)
  | FetchBody body =>
      match read_limited body (jc_MaxBytes (jw_config c) + 1) with
      | None => (c, Err EJwksOther)
      | Some encoded =>
          if decide (jc_MaxBytes (jw_config c) < len encoded) then (c, Err ErrJWKSOverLimit)
          else match decodeJWKS encoded (jc_MaxKeys (jw_config c)) with
          | Err e => (c, Err e)
          | Ok refreshed =>
              match persist ok c encoded now with
              | (c1, Err e) => (c1, Err e)
              | (c1, Ok _) =>
                  let keys := merge_keys (jw_config c1) now refreshed (jw_keys c1) in
                  if decide (jc_MaxRetainedKeys (jw_config c1) < Z.of_nat (size keys)) then (c1, Err ErrJWKSOverLimit)
                  else (mkCache (jw_config c1) keys (jw_file c1), Ok tt)
              end
          end
      end
  end.

(** The cache as a key source: [next] says what the next refresh meets. *)
Record remote := mkRemote { rm_cache : JWKSCache; rm_next : Z -> bool * fetched * time * (file_call -> bool) }.

#[global] Instance remote_source : KeySource remote := {|
  ks_Lookup := fun now k id => jwks_Lookup now (rm_cache k) id;
  ks_Refresh := fun timeout k =>
    let '(canceled, response, now, ok) := rm_next k timeout in
    let '(c, r) := Refresh canceled response now ok (rm_cache k) in
    (mkRemote c (rm_next k), match r with Ok _ => Ok tt | Err _ => Err tt end)
|}.

(** ** The history of refreshes *)

(** A successful refresh, newest first: its time and its keys. *)
Abbreviation key_log := (list (time * gmap string (list byte))).

(** The key that the history gives: the newest set that has the identifier, for a TTL when
    it is the newest set of all, otherwise until the retention from the first set that
    misses it is over. *)
Definition given (c : JWKSConfig) (log : key_log) (id : string) (key : list byte) (expires : time) : Prop :=
  exists missing r keys older,
    log = missing ++ (r, keys) :: older /\ keys !! id = Some key /\
    Forall (fun e => e.2 !! id = None) missing /\
    expires = match last missing with None => r + jc_TTL c | Some (r', _) => r' + jc_RetainMissing c end.

Record key_state := mkKeyState { kt_cache : JWKSCache; kt_now : time; kt_log : key_log }.

(** Refreshes, successful or not, under a clock that does not run backwards. *)
Inductive key_step : key_state -> key_state -> Prop :=
| KRefresh s canceled response now ok c' encoded body refreshed :
    kt_now s <= now -> response = FetchBody body ->
    read_limited body (jc_MaxBytes (jw_config (kt_cache s)) + 1) = Some encoded ->
    decodeJWKS encoded (jc_MaxKeys (jw_config (kt_cache s))) = Ok refreshed ->
    Refresh canceled response now ok (kt_cache s) = (c', Ok tt) ->
    key_step s (mkKeyState c' now ((now, refreshed) :: kt_log s))
| KFailed s canceled response now ok c' e :
    kt_now s <= now -> Refresh canceled response now ok (kt_cache s) = (c', Err e) ->
    key_step s (mkKeyState c' now (kt_log s))
| KTick s now : kt_now s <= now -> key_step s (mkKeyState (kt_cache s) now (kt_log s)).

(** A new cache: nothing, or the fresh stored document. *)
Inductive key_start : key_state -> Prop :=
| KStart config info file now c log :
    NewJWKSCache config info file now = Ok c ->
    log = match file ≫= decode_persisted with
          | Some (persisted, _) =>
              match decodeJWKS (pj_Document persisted) (jc_MaxKeys (jw_config c)) with
              | Ok keys => if decide (jw_keys c = ∅) then [] else [(pj_ValidatedAt persisted, keys)]
              | Err _ => []
              end
          | None => []
          end ->
    key_start (mkKeyState c now log).

(** *** What the history says of an identifier *)

Fixpoint hist (c : JWKSConfig) (log : key_log) (id : string) : option cachedKey :=
  match log with
  | [] => None
  | (r, keys) :: older =>
      match keys !! id with
      | Some key => Some (mkCached key (r + jc_TTL c) false)
      | None =>
          previous ← hist c older id;
          Some (if ck_retired previous then previous else mkCached (ck_key previous) (r + jc_RetainMissing c) true)
      end
  end.

Lemma hist_missing c missing log id :
  Forall (fun e => e.2 !! id = None) missing ->
  hist c (missing ++ log) id =
    (previous ← hist c log id;
     Some (match last missing with
           | None => previous
           | Some (r', _) => if ck_retired previous then previous else mkCached (ck_key previous) (r' + jc_RetainMissing c) true
           end)).
Proof.
  induction 1 as [|[r keys] missing Hr _ IH]; simpl; [by destruct (hist c log id)|].
  simpl in Hr. rewrite Hr, IH. destruct (hist c log id) as [p|]; simpl; [|done].
  destruct missing as [|e missing]; [done|]. destruct (last (e :: missing)) as [[r' ?]|] eqn:El; [|by apply last_None in El].
  rewrite last_cons_cons, El. by destruct (ck_retired p) eqn:E; rewrite ?E.
Qed.

Lemma hist_given c log id key e : given c log id key e <-> exists retired, hist c log id = Some (mkCached key e retired).
Proof.
  split.
  - intros (missing&r&keys&older&->&Hk&Hm&->). rewrite hist_missing by done. simpl. rewrite Hk. simpl.
    destruct (last missing) as [[r' ?]|]; simpl; eauto.
  - intros [retired H]. revert retired e H. induction log as [|[r keys] log IH]; intros retired e H; simpl in H; [done|].
    destruct (keys !! id) as [k|] eqn:Hk.
    + simplify_eq. exists [], r, keys, log. split_and!; [done|done|constructor|done].
    + destruct (hist c log id) as [p|] eqn:Hp; simpl in H; [|done]. simplify_eq.
      destruct p as [pk pe pr]. simpl in H. destruct pr; simplify_eq.
      * destruct (IH _ _ eq_refl) as (missing&r0&keys0&older&->&H0&Hm&->).
        exists ((r, keys) :: missing), r0, keys0, older. split_and!; [done|done|by constructor|].
        destruct missing as [|e missing].
        { simpl in Hp. by rewrite H0 in Hp. }
        rewrite last_cons_cons. done.
      * destruct (IH _ _ eq_refl) as (missing&r0&keys0&older&->&H0&Hm&E).
        exists ((r, keys) :: missing), r0, keys0, older. split_and!; [done|done|by constructor|].
        rewrite hist_missing in Hp by done. simpl in Hp. rewrite H0 in Hp. simpl in Hp.
        destruct missing as [|e missing]; [done|]. destruct (last (e :: missing)) as [[r' ?]|] eqn:El; [done|]. by apply last_None in El.
Qed.

(** The cached keys are those of the history, less expired retired ones. *)
Definition keys_agree (s : key_state) : Prop :=
  let c := jw_config (kt_cache s) in
  (forall id ck, jw_keys (kt_cache s) !! id = Some ck -> hist c (kt_log s) id = Some ck) /\
  (forall id ck, hist c (kt_log s) id = Some ck -> jw_keys (kt_cache s) !! id = None ->
     ck_retired ck = true /\ ck_expiresAt ck <= kt_now s).

Definition key_ok (id : string) (key : list byte) : Prop := 1 <= slen id <= 128 /\ len key = 32.

Definition cache_ok (c : JWKSCache) : Prop :=
  ~ config_invalid (jw_config c) /\
  Z.of_nat (size (jw_keys c)) <= jc_MaxRetainedKeys (jw_config c) /\
  (forall id ck, jw_keys c !! id = Some ck -> key_ok id (ck_key ck)).

Lemma decode_keys_ok items keys0 keys :
  decode_keys items keys0 = Ok keys -> (forall id key, keys0 !! id = Some key -> key_ok id key) ->
  (forall id key, keys !! id = Some key -> key_ok id key) /\ (size keys <= size keys0 + length items)%nat.
Proof.
  revert keys0. induction items as [|item rest IH]; intros keys0; simpl; [intros [= ->] H; split; [done|lia]|].
  case_decide as H1; [done|]. case_decide as H2; [done|].
  destruct (b64_DecodeString (jk_X item)) as [x|]; [|done]. case_decide as H3; [done|].
  intros HD HK0. destruct (IH _ HD) as [Hk Hs].
  - intros id key [[<- <-]|[_ ?]]%lookup_insert_Some; [split; lia|by apply HK0].
  - split; [done|]. apply eq_None_not_Some in H2. rewrite map_size_insert_None in Hs by done. lia.
Qed.

Lemma decodeJWKS_ok encoded maxKeys keys :
  decodeJWKS encoded maxKeys = Ok keys ->
  (forall id key, keys !! id = Some key -> key_ok id key) /\ Z.of_nat (size keys) <= maxKeys.
Proof.
  unfold decodeJWKS. destruct (rejectDuplicateKeys _); [|done]. destruct (decode_document encoded) as [[items []]|]; [|done..].
  case_decide; [done|]. intros HD. destruct (decode_keys_ok _ _ _ HD) as [Hk Hs]; [intros id key; by rewrite lookup_empty|].
  split; [done|]. rewrite map_size_empty in Hs. lia.
Qed.

Lemma persist_inv ok c document now c' r :
  persist ok c document now = (c', r) -> jw_config c' = jw_config c /\ jw_keys c' = jw_keys c.
Proof. unfold persist. repeat case_match; by intros [= <- _]. Qed.

Lemma Refresh_inv canceled response now ok c c' r :
  Refresh canceled response now ok c = (c', r) ->
  jw_config c' = jw_config c /\
  match r with
  | Err _ => jw_keys c' = jw_keys c
  | Ok _ => exists body encoded refreshed, response = FetchBody body /\
      read_limited body (jc_MaxBytes (jw_config c) + 1) = Some encoded /\
      decodeJWKS encoded (jc_MaxKeys (jw_config c)) = Ok refreshed /\
      jw_keys c' = merge_keys (jw_config c) now refreshed (jw_keys c) /\
      Z.of_nat (size (jw_keys c')) <= jc_MaxRetainedKeys (jw_config c)
  end.
Proof.
  unfold Refresh. destruct canceled; [by intros [= <- <-]|]. destruct response as [| |body]; try by intros [= <- <-].
  destruct (read_limited _ _) as [encoded|] eqn:Er; [|by intros [= <- <-]]. case_decide; [by intros [= <- <-]|].
  destruct (decodeJWKS _ _) as [refreshed|] eqn:Ed; [|by intros [= <- <-]].
  destruct (persist ok c encoded now) as [c1 [[]|]] eqn:Ep; apply persist_inv in Ep as [Ec Ek]; [|by intros [= <- <-]].
  rewrite Ec, Ek. case_decide; intros [= <- <-]; simpl; [by rewrite Ec|]. split; [done|].
  exists body, encoded, refreshed. split_and!; try done. lia.
Qed.

Lemma merge_keys_ok c now refreshed keys :
  (forall id key, refreshed !! id = Some key -> key_ok id key) ->
  (forall id ck, keys !! id = Some ck -> key_ok id (ck_key ck)) ->
  forall id ck, merge_keys c now refreshed keys !! id = Some ck -> key_ok id (ck_key ck).
Proof.
  intros Hr Hk id ck. unfold merge_keys. rewrite lookup_merge. unfold retain.
  destruct (refreshed !! id) eqn:E1, (keys !! id) as [p|] eqn:E2; simpl; intros H; simplify_eq; simpl; eauto.
  destruct (ck_retired p); [case_decide|]; simplify_eq; simpl; eauto.
Qed.

Lemma key_step_ok s s' :
  key_step s s' -> cache_ok (kt_cache s) /\ keys_agree s -> cache_ok (kt_cache s') /\ keys_agree s'.
Proof.
  unfold cache_ok, keys_agree.
  destruct 1 as [s canceled response now ok c' encoded body refreshed Hnow -> Er Ed E|s canceled response now ok c' e Hnow E|s now Hnow];
    simpl; intros ((Hc&Hs&Hk)&Ha&Hb).
  - apply Refresh_inv in E as [Ec (body'&encoded'&refreshed'&[= <-]&Er'&Ed'&Ek&Hsz)].
    assert (refreshed' = refreshed) as -> by congruence. rewrite Ec. split; [split_and!; [done|done|]|].
    + rewrite Ek. apply merge_keys_ok; [by apply (decodeJWKS_ok encoded _ _ Ed)|done].
    + rewrite Ek. unfold merge_keys. split; intros id ck; rewrite lookup_merge; unfold retain.
      * destruct (refreshed !! id) eqn:E1; simpl; [by destruct (jw_keys (kt_cache s) !! id)|].
        destruct (jw_keys (kt_cache s) !! id) as [p|] eqn:E2; simpl; [|done]. rewrite (Ha _ _ E2). simpl.
        destruct (ck_retired p); [|done]. case_decide; [done|done].
      * destruct (refreshed !! id) eqn:E1; simpl; [by destruct (jw_keys (kt_cache s) !! id)|].
        destruct (jw_keys (kt_cache s) !! id) as [p|] eqn:E2; simpl.
        -- rewrite (Ha _ _ E2). simpl. intros [= <-]. destruct (ck_retired p) eqn:E3; [|done].
           case_decide; [done|]. intros _. split; [done|lia].
        -- destruct (hist _ _ id) as [p|] eqn:E3; simpl; [|done]. intros [= <-] _. destruct (Hb _ _ E3 E2) as [Hr He].
           rewrite Hr. split; [done|lia].
  - apply Refresh_inv in E as [Ec Ek]. rewrite Ec, Ek. split; [done|]. split; [done|].
    intros id ck H1 H2. destruct (Hb id ck H1 H2). split; [done|lia].
  - split; [done|]. split; [done|]. intros id ck H1 H2. destruct (Hb id ck H1 H2). split; [done|lia].
Qed.

Lemma key_start_ok s : key_start s -> cache_ok (kt_cache s) /\ keys_agree s.
Proof.
  destruct 1 as [config info file now c log E ->]. unfold NewJWKSCache in E. case_decide as Hv; [done|]. injection E as <-.
  unfold cache_ok, keys_agree. cbn [kt_cache kt_now kt_log jw_config jw_keys]. set (cfg := jwks_config config) in *. clearbody cfg.
  assert (Hempty : (~ config_invalid cfg /\ Z.of_nat (size (∅ : gmap string cachedKey)) <= jc_MaxRetainedKeys cfg /\
    (forall id ck, (∅ : gmap string cachedKey) !! id = Some ck -> key_ok id (ck_key ck)))).
  { split_and!; [done| |intros id ck; by rewrite lookup_empty]. rewrite map_size_empty. unfold config_invalid in Hv. lia. }
  unfold loadPersisted. destruct (clean_abs _); simpl; [|split; [done|]]; [|repeat case_match; split; intros ? ?; by rewrite ?lookup_empty].
  destruct info as [info|]; [|split; [done|]; repeat case_match; split; intros ? ?; by rewrite ?lookup_empty].
  destruct file as [body|]; [|split; [done|]; split; intros ? ?; by rewrite ?lookup_empty]. simpl.
  case_decide; [split; [done|]; repeat case_match; split; intros ? ?; by rewrite ?lookup_empty|].
  destruct (decode_persisted body) as [[persisted []]|];
    [|split; [done|]; repeat case_match; split; intros ? ?; by rewrite ?lookup_empty..].
  case_decide; [split; [done|]; repeat case_match; split; intros ? ?; by rewrite ?lookup_empty|].
  case_decide; [split; [done|]; repeat case_match; split; intros ? ?; by rewrite ?lookup_empty|].
  destruct (decodeJWKS _ _) as [keys|] eqn:Ed; [|split; [done|]; split; intros ? ?; by rewrite ?lookup_empty].
  apply decodeJWKS_ok in Ed as [Hk Hs]. split.
  - split_and!; [done| |].
    + rewrite map_size_fmap. unfold config_invalid in Hv. lia.
    + intros id ck. rewrite lookup_fmap. destruct (keys !! id) eqn:E; simpl; [|done]. intros [= <-]. by apply Hk.
  - case_decide as He; simpl.
    + rewrite He. split; intros ? ?; by rewrite ?lookup_empty.
    + split; intros id ck; rewrite lookup_fmap; destruct (keys !! id); simpl; by intros [= <-].
Qed.

(** C38.  Which signing keys are trusted, and until when: after any sequence of refreshes,
    failed ones included, on top of a stored document or of nothing, a key is found exactly
    when the newest key set that names its identifier has it and, at that time, either that
    set is the newest of all and younger than the TTL, or the first later set without the
    identifier is younger than the retention period.  Keys are always 32 bytes under an
    identifier of 1 to 128 bytes, and never more than the limit. *)
Theorem trusted_keys_exact (s0 s : key_state) (t : time) (id : string) (key : list byte) :
  key_start s0 -> rtc key_step s0 s -> kt_now s <= t ->
  (jwks_Lookup t (kt_cache s) id = Ok (Some key) <->
     id <> "" /\ exists expires, given (jw_config (kt_cache s)) (kt_log s) id key expires /\ t < expires)
  /\ (jwks_Lookup t (kt_cache s) id = Ok (Some key) -> key_ok id key)
  /\ Z.of_nat (size (jw_keys (kt_cache s))) <= jc_MaxRetainedKeys (jw_config (kt_cache s)).
Proof.
  intros H0%key_start_ok H Ht.
  destruct (rtc_invariant _ (fun s => cache_ok (kt_cache s) /\ keys_agree s) key_step_ok _ _ H H0) as [(Hc&Hs&Hk) [Ha Hb]].
  unfold jwks_Lookup. split_and!; [|case_decide; [done|]|done].
  - setoid_rewrite hist_given. case_decide as Hid; [split; [done|by intros [? _]]|].
    destruct (jw_keys (kt_cache s) !! id) as [ck|] eqn:E.
    + rewrite (Ha _ _ E). destruct ck as [k e r]. simpl. case_decide.
      * split; [done|]. intros (_&e'&[r' [= -> -> ->]]&?). lia.
      * split; [intros [= ->]; split; [done|]; exists e; split; [by eauto|lia]|]. by intros (_&e'&[r' [= -> -> ->]]&?).
    + split; [done|]. intros (_&e'&[r' Hh]&He). destruct (Hb _ _ Hh E) as [_ ?]. simpl in *. lia.
  - destruct (jw_keys (kt_cache s) !! id) as [ck|] eqn:E; [|done]. case_decide; [done|]. intros [= <-]. by apply Hk.
Qed.

End JWKS.

(** *** Witness: a library whose every document holds one key. *)

Definition demo_jwk (id : string) : jwk := mkJwk "OKP" "Ed25519" "sig" "EdDSA" id (b64_EncodeToString (replicate 32 x01)).
Definition demo_json_keys : JsonKeys := {|
  jwks_tokens := fun _ => mkDecoder [TOpenObject; TCloseObject] JEOF;
  decode_document := fun b => Some ((fun c => demo_jwk (String (Ascii.ascii_of_byte c) "")) <$> b, true);
  decode_persisted := fun b => Some (mkPersisted "paperboat.jwks-cache/v1" 0 b, true);
  encode_persisted := fun p => Some (pj_Document p)
|}.
Definition demo_jwks_config : JWKSConfig := mkConfig true true 10 20 0 1 1 "".
Definition demo_cache : JWKSCache := mkCache (jwks_config demo_jwks_config) ∅ None.
Definition demo_response (b : list byte) : fetched := FetchBody (mkReader b EOF).
Definition all_ok : file_call -> bool := fun _ => true.

Lemma trusted_keys_exact_witness :
  exists s, jwks_Lookup 5 (kt_cache s) "a" = Ok (Some (replicate 32 x01)) /\ key_ok "a" (replicate 32 x01).
Proof.
  pose (c := (@Refresh demo_json_keys false (demo_response [x61]) 3 all_ok demo_cache).1).
  pose (s := mkKeyState c 3 [(3, {["a" := replicate 32 x01]})]).
  exists s. assert (E : jwks_Lookup 5 (kt_cache s) "a" = Ok (Some (replicate 32 x01))) by by vm_compute.
  split; [exact E|].
  destruct (@trusted_keys_exact demo_json_keys (mkKeyState demo_cache 0 []) s 5 "a" (replicate 32 x01)) as (_&H&_).
  - by apply (@KStart demo_json_keys demo_jwks_config None None 0); vm_compute.
  - apply rtc_once. eapply (@KRefresh demo_json_keys (mkKeyState demo_cache 0 []) false (demo_response [x61]) 3 all_ok c); try done; by vm_compute.
  - vm_compute. discriminate.
  - exact (H E).
Defined.

(** The document is stored before the number of retained keys is checked: a refresh that
    fails with [ErrJWKSOverLimit] leaves its document behind, and the next start trusts the
    keys that the running cache has refused. *)
Example refused_document_stored :
  let config := mkConfig true true 10 20 0 1 1 "/state/jwks.json" in
  let c0 := mkCache (jwks_config config) ∅ None in
  let c1 := (@Refresh demo_json_keys false (demo_response [x61]) 3 all_ok c0).1 in
  let '(c2, r2) := @Refresh demo_json_keys false (demo_response [x62]) 4 all_ok c1 in
  r2 = Err ErrJWKSOverLimit /\ jwks_Lookup 5 c2 "b" = Ok None
  /\ match @NewJWKSCache demo_json_keys config (Some (mkInfo true true)) (jw_file c2) 5 with
     | Ok c3 => jwks_Lookup 5 c3 "b" = Ok (Some (replicate 32 x01))
     | Err _ => False
     end.
Proof. by vm_compute. Qed.
