(* ===== verification/Credential.v ===== *)
(** * Authorization of a connection ([internal/server/credential.go],
    [internal/runtime/static_auth.go])

    A connection holds one bearer token.  Every request on it is authorized anew: the
    capability of the frame selects a policy, the token is verified against it, and the
    connection watches the revocation of the credential it found.  The claims that name the
    principal and its resources are hashed into the binding under which operations are
    recorded. *)

From S2P Require Import Prelude Config Base64 Frame Auth AuthTheorems.

(** ** Policies *)

Inductive policy_error := ErrStaticAuthInvalid.

Record staticPolicyResolver := mkResolver { sr_issuer : string; sr_environmentID : string; sr_helperID : string }.

Definition base_policy (r : staticPolicyResolver) (class : string) (scopes : list string) (helperID : string) : Policy :=
  mkPolicy (sr_issuer r) "paperboat-helper" class scopes (sr_environmentID r) "" "" helperID "" "" "" "" "" "" 0 "" "" ""
    (5 * minute) false.

Definition ResolvePolicy (r : staticPolicyResolver) (frame : Frame) : result policy_error Policy :=
  if decide (fr_Capability frame ∈ ["terminal.v1"; "health.v1"; "preview.public.v1"])
  then Ok (base_policy r "terminal_operation" ["terminal:operate"] "")
  else if decide (fr_Capability frame = "file-transfer.v1")
  then Ok (base_policy r "file_transfer" ["file:transfer"] "")
  else if decide (fr_Capability frame = "config.apply.v1") then
    if decide (sr_helperID r = "") then Err ErrStaticAuthInvalid
    else Ok (base_policy r "config_sync" ["config:pull"; "config:apply"; "config:report"] (sr_helperID r))
  else Err ErrStaticAuthInvalid.

(** ** Authorizations *)

(** A flag that can be raised: that of a revocation watcher, or the connection's own. *)
Inductive flag := FWatcher (id : nat) | FConnection.
#[global] Instance flag_eq_dec : EqDecision flag.
Proof. solve_decision. Defined.

Record Authorization := mkAuthorization {
  au_JournalBinding : string;
  au_EnvironmentID : string;
  au_UserID : string;
  au_ClientID : string;
  au_SessionID : string;
  au_ResourceID : string;
  au_ExpiresAt : time;
  au_Revoked : option flag;
  au_RevokedSignal : option nat;
  au_Value : option Claims
}.
Definition zero_Authorization : Authorization := mkAuthorization "" "" "" "" "" "" zero_time None None None.

Inductive authorize_error := ErrCredentialPolicy | APolicy (e : policy_error) | ACode (e : Code) | ARevocations (e : revocation_error).

(** The claims that identify the principal; token-instance fields are left out. *)
Record claims_binding := mkClaimsBinding {
  cb_Issuer : string; cb_Subject : string; cb_Class : string; cb_Scopes : list string; cb_EnvironmentID : string;
  cb_UserID : string; cb_CLIClientSessionID : string; cb_HelperID : string; cb_SessionID : string; cb_AssignmentID : string
}.

Definition binding_of (c : Claims) : claims_binding :=
  mkClaimsBinding (cl_Issuer c) (cl_Subject c) (cl_CredentialClass c) (cl_Scope c) (cl_EnvironmentID c) (cl_UserID c)
    (cl_CLIClientSessionID c) (cl_HelperID c) (cl_SessionID c) (cl_AssignmentID c).

(** [json.Marshal] of the binding, which cannot fail on strings. *)
Class BindingJson := { marshal_binding : claims_binding -> list byte }.

(** The state of an authorizer.  [ca_configured]: verifier, resolver and token are there;
    [ca_revoked] is the watcher whose flag and channel it holds, and [ca_release] the
    watcher it still has to release. *)
Record CredentialAuthorizer := mkAuthorizer {
  ca_configured : bool;
  ca_Token : string;
  ca_Revocations : bool;
  ca_jti : string;
  ca_revoked : option nat;
  ca_release : option nat
}.

Section Credential.
Context {K : Type} `{KS : KeySource K} `{CR : Crypto} `{BJ : BindingJson} (sha256 : list byte -> list byte).

Definition stableClaimsBinding (c : Claims) : string := hex_EncodeToString (sha256 (marshal_binding (binding_of c))).

Definition set_revocations (r : option RevocationCache) (w : world K) : world K :=
  mkWorld (w_clock w) (w_reads w) (w_keys w) r (w_replays w).

(** The first part of [Authorize]: policy and token. *)
Definition authorize_check (v : Verifier) (r : staticPolicyResolver) (a : CredentialAuthorizer) (frame : Frame) (w : world K)
    : world K * result authorize_error Claims :=
  if negb (ca_configured a) || bool_decide (ca_Token a = "") then (w, Err ErrCredentialPolicy)
  else match ResolvePolicy r frame with
  | Err e => (w, Err (APolicy e))
  | Ok policy =>
      match Verify v (ca_Token a) policy w with
      | (w1, Err e) => (w1, Err (ACode e))
      | (w1, Ok claims) => (w1, Ok claims)
      end
  end.

Definition authorization (claims : Claims) (revoked : option nat) (signal : option nat) : Authorization :=
  mkAuthorization (stableClaimsBinding claims) (cl_EnvironmentID claims) (cl_UserID claims) (cl_CLIClientSessionID claims)
    (cl_SessionID claims) (cl_AssignmentID claims) (time_Unix (cl_ExpiresAt claims)) (FWatcher <$> revoked) signal (Some claims).

(** The rest, under the lock of the authorizer: [new] is the address of a new watcher.  The
    watcher and its channel are stored together, so [ca_revoked] stands for both. *)
Definition authorize_watch (new : nat) (a : CredentialAuthorizer) (claims : Claims) (w : world K)
    : world K * CredentialAuthorizer * result authorize_error Authorization :=
  if negb (ca_Revocations a) then (w, a, Ok (authorization claims None (ca_revoked a)))
  else if decide (ca_jti a <> "" /\ ca_jti a <> cl_JTI claims) then (w, a, Err ErrCredentialPolicy)
  else match ca_revoked a with
  | Some id => (w, a, Ok (authorization claims (Some id) (Some id)))
  | None =>
      match Watch new (w_revocations w) (cl_JTI claims) with
      | (r, Err e) =>
          (set_revocations r w, mkAuthorizer (ca_configured a) (ca_Token a) (ca_Revocations a) (cl_JTI claims) None None, Err (ARevocations e))
      | (r, Ok id) =>
          (set_revocations r w, mkAuthorizer (ca_configured a) (ca_Token a) (ca_Revocations a) (cl_JTI claims) (Some id) (Some id),
           Ok (authorization claims (Some id) (Some id)))
      end
  end.

(** A call of [Authorize] that nothing interrupts. *)
Definition Authorize (v : Verifier) (r : staticPolicyResolver) (new : nat) (a : CredentialAuthorizer) (frame : Frame) (w : world K)
    : world K * CredentialAuthorizer * result authorize_error Authorization :=
  match authorize_check v r a frame w with
  | (w1, Err e) => (w1, a, Err e)
  | (w1, Ok claims) => authorize_watch new a claims w1
  end.

Definition CloseAuthorization (a : CredentialAuthorizer) (w : world K) : world K * CredentialAuthorizer :=
  match ca_release a with
  | None => (w, a)
  | Some id =>
      (set_revocations ((fun c => Unwatch c (ca_jti a) id) <$> w_revocations w) w,
       mkAuthorizer (ca_configured a) (ca_Token a) (ca_Revocations a) (ca_jti a) (ca_revoked a) None)
  end.

(** The factory of [NewCredentialAuthorizer]. *)
Definition NewCredentialAuthorizer (r : staticPolicyResolver) (verifier revocations : bool)
    : result policy_error (string -> result policy_error CredentialAuthorizer) :=
  if decide (sr_issuer r = "" \/ sr_environmentID r = "" \/ sr_helperID r = "" \/ verifier = false) then Err ErrStaticAuthInvalid
  else Ok (fun token =>
    if decide (token = "" \/ Z.shiftl 16 10 < slen token) then Err ErrStaticAuthInvalid
    else Ok (mkAuthorizer true token revocations "" None None)).
End Credential.

(** ** What an authorization means *)

Section Sound.
Context {K : Type} `{KS : KeySource K} `{CR : Crypto} `{BJ : BindingJson} (sha256 : list byte -> list byte).
Hypothesis sha256_length : forall data, length (sha256 data) = 32%nat.

(** The credential class and scopes that each capability asks for. *)
Definition capability_class (capability : string) : option (string * list string) :=
  if decide (capability ∈ ["terminal.v1"; "health.v1"; "preview.public.v1"]) then Some ("terminal_operation", ["terminal:operate"])
  else if decide (capability = "file-transfer.v1") then Some ("file_transfer", ["file:transfer"])
  else if decide (capability = "config.apply.v1") then Some ("config_sync", ["config:pull"; "config:apply"; "config:report"])
  else None.

Lemma ResolvePolicy_spec r frame policy :
  ResolvePolicy r frame = Ok policy ->
  exists class scopes helper, capability_class (fr_Capability frame) = Some (class, scopes) /\ policy = base_policy r class scopes helper
    /\ (fr_Capability frame = "config.apply.v1" -> helper = sr_helperID r /\ helper <> "").
Proof.
  unfold ResolvePolicy, capability_class. intros H.
  destruct (decide (fr_Capability frame ∈ _)) as [Hin|Hin].
  { injection H as <-. do 3 eexists. split_and!; [done|done|]. intros E. rewrite E in Hin. set_solver. }
  destruct (decide (fr_Capability frame = "file-transfer.v1")) as [E|].
  { injection H as <-. do 3 eexists. split_and!; [done|done|]. rewrite E. done. }
  destruct (decide (fr_Capability frame = "config.apply.v1")); [|done].
  destruct (decide (sr_helperID r = "")); [done|]. injection H as <-. by do 3 eexists.
Qed.

Lemma authorize_watch_ok new a claims (w w' : world K) a' auth :
  authorize_watch sha256 new a claims w = (w', a', Ok auth) ->
  exists revoked signal, auth = authorization sha256 claims revoked signal
    /\ (ca_Revocations a = true -> revoked = ca_revoked a' /\ signal = revoked /\ is_Some revoked).
Proof.
  unfold authorize_watch. destruct (ca_Revocations a); simpl; [|intros [= _ _ <-]; by do 2 eexists].
  case_decide; [done|]. destruct (ca_revoked a) as [id|] eqn:Er.
  { intros [= _ <- <-]. do 2 eexists. split; [done|]. rewrite Er. by eauto. }
  destruct (Watch new _ _) as [r [id|e]]; [|done]. intros [= _ <- <-]. do 2 eexists. split; [done|]. by eauto.
Qed.

End Sound.

(** ** A connection's authorizer over time

    Requests of the connection run concurrently: each verifies the token and then takes the
    lock.  Everything else that happens to the revocations (new lists, the watchers of
    other connections) is interleaved; nobody else releases this connection's watcher. *)

Section Watching.
Context {K : Type} `{KS : KeySource K} `{CR : Crypto} `{BJ : BindingJson} (sha256 : list byte -> list byte).

Record authorizer_state := mkAuthorizerState {
  as_cache : RevocationCache;
  as_authorizer : CredentialAuthorizer;
  as_given : list Authorization
}.

Definition new_authorizer (token : string) (c : RevocationCache) : authorizer_state :=
  mkAuthorizerState c (mkAuthorizer true token true "" None None) [].

Inductive authorizer_step : authorizer_state -> authorizer_state -> Prop :=
| AuthorizerWatch s new claims (w w' : world K) a' r c' :
    cl_JTI claims <> "" -> rv_objects (as_cache s) !! new = None -> w_revocations w = Some (as_cache s) ->
    authorize_watch sha256 new (as_authorizer s) claims w = (w', a', r) -> w_revocations w' = Some c' ->
    authorizer_step s (mkAuthorizerState c' a' (as_given s ++ match r with Ok auth => [auth] | Err _ => [] end))
| AuthorizerClose s (w : world K) c' :
    w_revocations w = Some (as_cache s) ->
    w_revocations (CloseAuthorization (as_authorizer s) w).1 = Some c' ->
    authorizer_step s (mkAuthorizerState c' (CloseAuthorization (as_authorizer s) w).2 (as_given s))
| AuthorizerOther s c' :
    revocation_step (as_cache s) c' ->
    (forall id jti, ca_release (as_authorizer s) = Some id -> id ∈ registered (as_cache s) jti -> id ∈ registered c' jti) ->
    authorizer_step s (mkAuthorizerState c' (as_authorizer s) (as_given s)).

(** The authorizer has one credential, and the watcher of it is registered until release. *)
Definition authorizer_ok (s : authorizer_state) : Prop :=
  revocations_ok (as_cache s) /\ ca_Revocations (as_authorizer s) = true /\
  (forall id, ca_release (as_authorizer s) = Some id ->
     ca_revoked (as_authorizer s) = Some id /\ id ∈ registered (as_cache s) (ca_jti (as_authorizer s))) /\
  (is_Some (ca_revoked (as_authorizer s)) -> ca_jti (as_authorizer s) <> "") /\
  (forall auth, auth ∈ as_given s -> exists id claims, ca_revoked (as_authorizer s) = Some id /\
     au_Revoked auth = Some (FWatcher id) /\ au_RevokedSignal auth = Some id /\ au_Value auth = Some claims /\
     cl_JTI claims = ca_jti (as_authorizer s)).

Lemma registered_watch c new jti c' id : Watch new (Some c) jti = (Some c', Ok id) -> id = new /\ new ∈ registered c' jti.
Proof.
  unfold Watch. case_decide; [done|]. intros [= <- <-]. split; [done|].
  unfold registered. simpl. rewrite lookup_insert_eq. simpl. set_solver.
Qed.

Lemma authorizer_step_ok s s' : authorizer_step s s' -> authorizer_ok s -> authorizer_ok s'.
Proof.
  intros Hs (Hc&Hr&Hrel&Hj&Hg). destruct Hs as [s new claims w w' a' r c' Hjti Hnew Hw Ew Hw'|s w c' Hw Hw'|s c' Hrs Hkeep].
  - unfold authorize_watch in Ew. rewrite Hr in Ew. simpl in Ew.
    destruct (decide (ca_jti (as_authorizer s) <> "" /\ _)) as [|Hsame].
    { injection Ew as <- <- <-. rewrite Hw in Hw'. injection Hw' as <-. unfold authorizer_ok. simpl. rewrite app_nil_r. by split_and!. }
    destruct (ca_revoked (as_authorizer s)) as [id|] eqn:Er.
    + injection Ew as <- <- <-. rewrite Hw in Hw'. injection Hw' as <-. unfold authorizer_ok. simpl. rewrite Er.
      split_and!; try done. intros auth [Hin| ->%list_elem_of_singleton]%elem_of_app; [exact (Hg _ Hin)|].
      exists id, claims. simpl. split_and!; try done.
      destruct (decide (cl_JTI claims = ca_jti (as_authorizer s))); [done|]. destruct Hsame. split; [by apply Hj|done].
    + rewrite Hw in Ew. destruct (Watch new (Some (as_cache s)) (cl_JTI claims)) as [rc [id|e]] eqn:EW;
        injection Ew as <- <- <-; simpl in Hw'; subst rc.
      * pose proof (registered_watch _ _ _ _ _ EW) as [-> Hreg]. unfold authorizer_ok. simpl. split_and!; try done.
        -- exact (revocation_step_ok _ _ (RevWatch _ _ new (cl_JTI claims) _ Hnew EW) Hc).
        -- by intros ? [= <-].
        -- intros auth [Hin| ->%list_elem_of_singleton]%elem_of_app; [|by exists new, claims].
           destruct (Hg _ Hin) as (?&?&?&_). done.
      * unfold Watch in EW. case_decide; [done|]. done.
  - unfold CloseAuthorization in *. destruct (ca_release (as_authorizer s)) as [id|] eqn:Erel.
    + simpl in Hw'. rewrite Hw in Hw'. simpl in Hw'. injection Hw' as <-. unfold authorizer_ok. simpl. split_and!; try done.
      by apply Unwatch_ok.
    + simpl in Hw'. rewrite Hw in Hw'. injection Hw' as <-. unfold authorizer_ok. simpl. rewrite Erel. by split_and!.
  - unfold authorizer_ok. simpl. split_and!; try done.
    + exact (revocation_step_ok _ _ Hrs Hc).
    + intros id Hid. destruct (Hrel id Hid). split; [done|]. by apply Hkeep.
Qed.

(** One connection acts under one credential, and its revocation reaches every
    authorization given on the connection: all of them have the same token identifier and
    share one flag, and while the connection is open that flag is raised, and its channel
    closed, as soon as the identifier is on the revocation list. *)
Lemma connection_revocation (token : string) (c : RevocationCache) (s : authorizer_state) (auth : Authorization) (claims : Claims) :
  rtc revocation_step NewRevocationCache c -> rtc authorizer_step (new_authorizer token c) s ->
  auth ∈ as_given s -> au_Value auth = Some claims ->
  exists id, au_Revoked auth = Some (FWatcher id) /\ au_RevokedSignal auth = Some id /\
    (forall auth' claims', auth' ∈ as_given s -> au_Value auth' = Some claims' ->
       au_Revoked auth' = au_Revoked auth /\ cl_JTI claims' = cl_JTI claims) /\
    (is_Some (ca_release (as_authorizer s)) -> cl_JTI claims ∈ rv_revoked (as_cache s) ->
       exists w, rv_objects (as_cache s) !! id = Some w /\ wt_flag w = true /\ wt_closes w = 1%nat).
Proof.
  intros Hc Hs Hin Hv.
  assert (Hok0 : revocations_ok c).
  { apply (rtc_invariant _ _ revocation_step_ok _ _ Hc). split; [done|]. intros j i. unfold registered. simpl. set_solver. }
  assert (Hok : authorizer_ok s).
  { apply (rtc_invariant _ _ authorizer_step_ok _ _ Hs). split_and!; simpl; try done; try set_solver. }
  destruct Hok as ((Hwok&Hreg)&_&Hrel&_&Hg). destruct (Hg _ Hin) as (id&cl&Hid&H1&H2&H3&Hjti).
  rewrite Hv in H3. injection H3 as <-. exists id. split_and!; [done|done| |].
  - intros auth' claims' Hin' Hv'. destruct (Hg _ Hin') as (id'&cl'&Hid'&H1'&_&H3'&Hjti'). rewrite Hv' in H3'. simplify_eq.
    split; congruence.
  - intros [id' Hr] Hrev. destruct (Hrel _ Hr) as [Hr1 Hr2]. simplify_eq. rewrite Hjti in Hrev.
    destruct (Hreg _ _ Hr2) as (w&Hw&Hf). specialize (Hf Hrev). exists w. split_and!; [done|done|].
    destruct (Hwok _ _ Hw) as [E1 E2]. rewrite E2, <- E1. by rewrite Hf.
Qed.
End Watching.

(** ** Witnesses and consequences *)

Definition demo_terminal_claims : Claims :=
  mkClaims "iss" "paperboat-helper" "u1" "j1" 100 200 ["terminal:operate"] "terminal_operation" "env" "u1" "cli" "" "" 0 "" "s1" "" "" "" 0 "" "" None "" None.
Definition demo_terminal_crypto : Crypto := {|
  ed25519_Verify := @ed25519_Verify demo_crypto;
  auth_tokens := @auth_tokens demo_crypto;
  decode_header := @decode_header demo_crypto;
  decode_claims := fun b => Some (demo_terminal_claims, true)
|}.
Definition demo_binding_json : BindingJson := {| marshal_binding := fun b => String.list_byte_of_string (cb_Subject b) |}.
Definition demo_hash (_ : list byte) : list byte := replicate 32 x41.
Definition demo_resolver : staticPolicyResolver := mkResolver "iss" "env" "h1".
Definition demo_authorizer : CredentialAuthorizer := mkAuthorizer true demo_token true "" None None.
Definition demo_request (capability : string) : Frame := mkFrame "request" "r1" "1.0" "operation-1" capability 1000 (Some [x7b; x7d]).
Definition demo_authorize (capability : string) :=
  @Authorize unit demo_source demo_terminal_crypto demo_binding_json demo_hash demo_verifier demo_resolver 3 demo_authorizer
    (demo_request capability) demo_world.


Definition demo_checked : world unit :=
  (@authorize_check unit demo_source demo_terminal_crypto demo_verifier demo_resolver demo_authorizer (demo_request "terminal.v1") demo_world).1.
Definition demo_watched : world unit := (demo_authorize "terminal.v1").1.1.
Definition demo_watching : authorizer_state :=
  mkAuthorizerState (default NewRevocationCache (w_revocations demo_watched)) (demo_authorize "terminal.v1").1.2
    (match (demo_authorize "terminal.v1").2 with Ok auth => [auth] | Err _ => [] end).
Definition demo_revoked_state : authorizer_state :=
  mkAuthorizerState (default NewRevocationCache (Replace (Some (as_cache demo_watching)) ["j1"]).1) (as_authorizer demo_watching)
    (as_given demo_watching).

Lemma demo_revoked_reachable :
  rtc (@authorizer_step unit demo_binding_json demo_hash) (new_authorizer demo_token NewRevocationCache) demo_revoked_state.
Proof.
  apply (rtc_l _ _ demo_watching).
  - apply (AuthorizerWatch _ (new_authorizer demo_token NewRevocationCache) 3 demo_terminal_claims demo_checked demo_watched
             (as_authorizer demo_watching) (demo_authorize "terminal.v1").2 (as_cache demo_watching)); by vm_compute.
  - apply rtc_once. apply (AuthorizerOther _ demo_watching).
    + apply (RevReplace _ _ ["j1"] (Ok tt)). by vm_compute.
    + intros id jti [= <-]. unfold registered. cbn [as_cache demo_revoked_state].
      replace (rv_watchers (default NewRevocationCache (Replace (Some (as_cache demo_watching)) ["j1"]).1))
        with (rv_watchers (as_cache demo_watching)) by by vm_compute. done.
Qed.

(** The update capability is offered by the dispatcher and may be negotiated, but no policy
    exists for it: a request for it is refused whatever the credential. *)
Example update_capability_unauthorized : forall r, ResolvePolicy r (demo_request "update.signed.v1") = Err ErrStaticAuthInvalid.
Proof. done. Qed.

(** A request that is authorized for the first time after the connection has been closed
    registers a watcher that nothing releases: [CloseAuthorization] has already run. *)
Example late_authorize_leaks_watcher :
  let closed := CloseAuthorization demo_authorizer demo_world in
  let late := @Authorize unit demo_source demo_terminal_crypto demo_binding_json demo_hash demo_verifier demo_resolver 3 closed.2
                (demo_request "terminal.v1") closed.1 in
  (registered (default NewRevocationCache (w_revocations late.1.1)) "j1" = {[3%nat]}) /\ is_ok late.2 = true.
Proof. by vm_compute. Qed.
