(* ===== verification/Versions.v ===== *)
(** * Version numbers of updates ([internal/update/update.go])

    [strconv.ParseUint] and [strconv.Atoi] on the parts of a dotted version, and the
    comparisons built on them. *)

From S2P Require Import Prelude Base64 Frame.

(** The value of a string of decimal digits. *)
Fixpoint digits (s : string) (acc : Z) : option Z :=
  match s with
  | EmptyString => Some acc
  | String a s =>
      let n := Z.of_nat (nat_of_ascii a) in
      if decide (48 <= n <= 57) then digits s (acc * 10 + (n - 48)) else None
  end.

(** [strconv.ParseUint(s, 10, bits)]. *)
Definition ParseUint (bits : Z) (s : string) : option Z :=
  if decide (s = "") then None
  else match digits s 0 with
  | Some v => if decide (v < 2 ^ bits) then Some v else None
  | None => None
  end.

(** The value of [strconv.Atoi(s)] beside its error: 0 for a syntax error, the nearest
    integer of 64 bits when it is out of range. *)
Definition Atoi (s : string) : Z :=
  let unsigned s := match digits s 0 with Some v => if decide (s = "") then None else Some v | None => None end in
  match s with
  | String "-" rest => match unsigned rest with Some v => Z.max (- two63) (- v) | None => 0 end
  | String "+" rest => match unsigned rest with Some v => Z.min (two63 - 1) v | None => 0 end
  | _ => match unsigned s with Some v => Z.min (two63 - 1) v | None => 0 end
  end.

Definition valid_part (part : string) : bool := match ParseUint 32 part with Some _ => true | None => false end.

Definition validVersion (version : string) : bool :=
  let parts := split_at "." version in
  bool_decide (length parts = 3%nat) && forallb valid_part parts.

Fixpoint compare_parts (l r : list string) : Z :=
  match l, r with
  | x :: l, y :: r => if decide (Atoi x < Atoi y) then -1 else if decide (Atoi y < Atoi x) then 1 else compare_parts l r
  | _, _ => 0
  end.

Definition compareVersion (left right : string) : Z :=
  let l := split_at "." left in
  let r := split_at "." right in
  if decide (length l <> 3%nat \/ length r <> 3%nat) then -1 else compare_parts l r.

Definition validDotted (version : string) : bool :=
  let parts := split_at "." version in
  bool_decide (2 <= length parts <= 3)%nat && forallb valid_part parts.

Definition pad_version (parts : list string) : list string := parts ++ replicate (3 - length parts) "0".

Definition compareDotted (left right : string) : Z :=
  let l := pad_version (split_at "." left) in
  let r := pad_version (split_at "." right) in
  compareVersion (String.concat "." l) (String.concat "." r).

Definition versionInRange (version minVersion maxVersion : string) : bool :=
  validDotted version && validDotted minVersion && validDotted maxVersion
  && bool_decide (0 <= compareDotted version minVersion) && bool_decide (compareDotted version maxVersion <= 0).

(** ** Versions as numbers *)

(** The three numbers of a version. *)
Definition version_numbers (version : string) : list Z := Atoi <$> split_at "." version.

Fixpoint compare_numbers (l r : list Z) : Z :=
  match l, r with
  | x :: l, y :: r => if decide (x < y) then -1 else if decide (y < x) then 1 else compare_numbers l r
  | _, _ => 0
  end.

Lemma compare_parts_numbers l r : compare_parts l r = compare_numbers (Atoi <$> l) (Atoi <$> r).
Proof. revert r. induction l as [|x l IH]; intros [|y r]; try done. simpl. by rewrite IH. Qed.

Lemma valid_length version : validVersion version = true -> length (split_at "." version) = 3%nat.
Proof. unfold validVersion. intros [H _]%andb_true_iff. by apply bool_decide_eq_true_1 in H. Qed.

Lemma compareVersion_numbers l r :
  validVersion l = true -> validVersion r = true -> compareVersion l r = compare_numbers (version_numbers l) (version_numbers r).
Proof.
  intros Hl%valid_length Hr%valid_length. unfold compareVersion. rewrite decide_False by lia. apply compare_parts_numbers.
Qed.

Lemma compare_numbers_trans a b c :
  length a = length b -> length b = length c ->
  0 < compare_numbers b a -> 0 <= compare_numbers c b -> 0 < compare_numbers c a.
Proof.
  revert b c. induction a as [|x a IH]; intros [|y b] [|z c]; simpl; try done. intros [= H1] [= H2].
  repeat case_decide; try lia. by apply IH.
Qed.

(** Newer than itself no version is, and newer is transitive. *)
Lemma newer_trans a b c :
  validVersion a = true -> validVersion b = true -> validVersion c = true ->
  0 < compareVersion b a -> 0 < compareVersion c b -> 0 < compareVersion c a.
Proof.
  intros Ha Hb Hc. rewrite !compareVersion_numbers by done. intros H1 H2.
  apply valid_length in Ha, Hb, Hc.
  apply (compare_numbers_trans _ (version_numbers b)); [| |done|lia]; unfold version_numbers; rewrite !length_fmap; lia.
Qed.

Lemma compareVersion_refl a : compareVersion a a <= 0.
Proof.
  unfold compareVersion. case_decide; [lia|]. generalize (split_at "." a). intros l. induction l as [|x l IH]; simpl; [lia|].
  rewrite !decide_False by lia. done.
Qed.
