(* ===== verification/Trust.v ===== *)
(** * Trusted update keys ([internal/update/trust.go])

    Keys that sign updates are replaced by bundles, each signed by a key of the one before.
    A bundle lists all revocations so far; its envelope is stored, and a restart replays
    the stored envelopes from the built-in keys.

    Signatures and JSON are parameters.  [json.Marshal] and the decoder are only assumed to
    be inverse on lists of envelopes whose strings are valid UTF-8, as decoded strings are.
    The outcome of each file operation is an input. *)

From S2P Require Import Prelude Config Base64 Frame Jwks Versions.

(** ** Data *)

Record TrustEnvelope := mkEnvelope { te_SignerKeyID : string; te_Bundle : string; te_Signature : string }.

(** Nil slices are [None]. *)
Record TrustBundle := mkBundle {
  tb_Generation : Z;
  tb_IssuedAt : time;
  tb_Keys : gmap string string;
  tb_RevokedKeyIDs : option (list string);
  tb_RevokedVersions : option (list string)
}.

Inductive trust_error := ErrTrustInvalid | ETrustFile.

Definition maxTrustBundles : Z := 32.

(** [ts_file] is what the path of the store holds. *)
Record TrustStore := mkTrust {
  ts_initial : gmap string (list byte);
  ts_keys : gmap string (list byte);
  ts_revokedKeys : gset string;
  ts_revokedVersions : gset string;
  ts_generation : Z;
  ts_envelopes : list TrustEnvelope;
  ts_file : option (list byte)
}.

(** The libraries.  [trust_tokens] is the decoder's view of a text, the decoding functions
    return the value and whether nothing follows it. *)
Class TrustLibraries := {
  trust_Verify : list byte -> list byte -> list byte -> bool;
  trust_tokens : list byte -> decoder;
  decode_envelope : list byte -> option (TrustEnvelope * bool);
  decode_bundle : list byte -> option (TrustBundle * bool);
  decode_file : list byte -> option (list TrustEnvelope * bool);
  encode_file : list TrustEnvelope -> option (list byte)
}.

Section Trust.
Context `{TL : TrustLibraries}.

(** The package has its own copy of the walk over the tokens. *)
Definition rejectDuplicates (data : list byte) : result json_error unit := rejectDuplicateKeys (trust_tokens data).

Definition strictJSON {A} (decode : list byte -> option (A * bool)) (data : list byte) : option A :=
  match rejectDuplicates data with
  | Err _ => None
  | Ok _ => match decode data with Some (a, true) => Some a | _ => None end
  end.

(** ** Operations *)

(** In sorted order every value differs from the one before it. *)
Fixpoint no_repeat (l : list string) (previous : option string) : bool :=
  match l with
  | [] => true
  | value :: l => if decide (value = "" \/ previous = Some value) then false else no_repeat l (Some value)
  end.

Definition cumulativeSet (values : list string) (previous : gset string) : option (gset string) :=
  let result := list_to_set values in
  if no_repeat (merge_sort string_le values) None then
    if decide (previous ⊆ result) then Some result else None
  else None.

Definition reset (initial : gmap string (list byte)) (file : option (list byte)) : TrustStore :=
  mkTrust initial initial ∅ ∅ 0 [] file.

(** The keys of a bundle, decoded. *)
Definition bundle_key (id encoded : string) : option (list byte) :=
  match b64_DecodeString encoded with
  | Some key => if decide (id = "" \/ 128 < slen id \/ len key <> 32) then None else Some key
  | None => None
  end.
Definition bundle_keys (keys : gmap string string) : option (gmap string (list byte)) :=
  if decide (map_Forall (fun id encoded => is_Some (bundle_key id encoded)) keys)
  then Some (map_imap bundle_key keys) else None.

(** The bundle of an envelope, checked in the order of the code. *)
Definition open_envelope (s : TrustStore) (now : time) (envelope : TrustEnvelope) : option TrustBundle :=
  if decide (maxTrustBundles <= len (ts_envelopes s) \/ te_SignerKeyID envelope = ""
             \/ te_SignerKeyID envelope ∈ ts_revokedKeys s) then None
  else match ts_keys s !! te_SignerKeyID envelope with
  | None => None
  | Some signer =>
      match b64_DecodeString (te_Bundle envelope) with
      | None => None
      | Some bundleBytes =>
          if decide (Z.shiftl 64 10 < len bundleBytes) then None
          else match b64_DecodeString (te_Signature envelope) with
          | None => None
          | Some signature =>
              if negb (trust_Verify signer bundleBytes signature) then None
              else match strictJSON decode_bundle bundleBytes with
              | None => None
              | Some bundle =>
                  if decide (tb_Generation bundle <= ts_generation s \/ is_zero_time (tb_IssuedAt bundle) = true
                             \/ now + minute < tb_IssuedAt bundle \/ size (tb_Keys bundle) = 0%nat
                             \/ (32 < size (tb_Keys bundle))%nat \/ tb_RevokedKeyIDs bundle = None
                             \/ tb_RevokedVersions bundle = None)
                  then None else Some bundle
              end
          end
      end
  end.

(** The store after the bundle, before it is persisted. *)
Definition install (s : TrustStore) (envelope : TrustEnvelope) (bundle : TrustBundle) : option TrustStore :=
  match bundle_keys (tb_Keys bundle) with
  | None => None
  | Some keys =>
      match cumulativeSet (default [] (tb_RevokedKeyIDs bundle)) (ts_revokedKeys s) with
      | None => None
      | Some revokedKeys =>
          match cumulativeSet (default [] (tb_RevokedVersions bundle)) (ts_revokedVersions s) with
          | None => None
          | Some revokedVersions =>
              if decide (set_Forall (fun v => validVersion v = true) revokedVersions /\ ~ dom keys ⊆ revokedKeys)
              then Some (mkTrust (ts_initial s) keys revokedKeys revokedVersions (tb_Generation bundle)
                           (ts_envelopes s ++ [envelope]) (ts_file s))
              else None
          end
      end
  end.

(** The file operations of [persistLocked]; the last one follows the rename. *)
Inductive trust_call := TCreateTemp | TChmod | TWrite | TSync | TClose | TRename | TSyncDirectory.

Definition persistLocked (ok : trust_call -> bool) (s : TrustStore) : TrustStore * result trust_error unit :=
  match encode_file (ts_envelopes s) with
  | None => (s, Err ETrustFile)
  | Some encoded =>
      if negb (ok TCreateTemp && ok TChmod && ok TWrite && ok TSync && ok TClose && ok TRename) then (s, Err ETrustFile)
      else (mkTrust (ts_initial s) (ts_keys s) (ts_revokedKeys s) (ts_revokedVersions s) (ts_generation s) (ts_envelopes s) (Some encoded),
            if ok TSyncDirectory then Ok tt else Err ETrustFile)
  end.

(** [file] replaces the file of [s]. *)
Definition with_file (s : TrustStore) (file : option (list byte)) : TrustStore :=
  mkTrust (ts_initial s) (ts_keys s) (ts_revokedKeys s) (ts_revokedVersions s) (ts_generation s) (ts_envelopes s) file.

(** [persist] is [None] when the envelope is replayed from the file. *)
Definition applyLocked (now : time) (persist : option (trust_call -> bool)) (s : TrustStore) (envelope : TrustEnvelope)
    : TrustStore * result trust_error unit :=
  match open_envelope s now envelope with
  | None => (s, Err ErrTrustInvalid)
  | Some bundle =>
      match install s envelope bundle with
      | None => (s, Err ErrTrustInvalid)
      | Some s1 =>
          match persist with
          | None => (s1, Ok tt)
          | Some ok =>
              match persistLocked ok s1 with
              | (s2, Ok _) => (s2, Ok tt)
              | (s2, Err e) => (with_file s (ts_file s2), Err e)
              end
          end
      end
  end.

Definition Apply (now : time) (ok : trust_call -> bool) (s : TrustStore) (envelopeBytes : list byte)
    : TrustStore * result trust_error unit :=
  match strictJSON decode_envelope envelopeBytes with
  | None => (s, Err ErrTrustInvalid)
  | Some envelope => applyLocked now (Some ok) s envelope
  end.

Definition Lookup (s : TrustStore) (keyID : string) : option (list byte) :=
  match ts_keys s !! keyID with
  | None => None
  | Some key => if decide (keyID ∈ ts_revokedKeys s) then None else Some key
  end.

Definition VersionRevoked (s : TrustStore) (version : string) : bool := bool_decide (version ∈ ts_revokedVersions s).

Fixpoint replay (now : time) (s : TrustStore) (envelopes : list TrustEnvelope) : result trust_error TrustStore :=
  match envelopes with
  | [] => Ok s
  | envelope :: l =>
      match applyLocked now None s envelope with
      | (_, Err e) => Err e
      | (s1, Ok _) => replay now s1 l
      end
  end.

(** [readable]: reading an existing file succeeds. *)
Definition newTrustStore (path : string) (initial : gmap string (list byte)) (now : time) (readable : bool)
    (file : option (list byte)) : result trust_error TrustStore :=
  if decide (initial = ∅ \/ String.get 0 path <> Some "/"%char) then Err ErrTrustInvalid
  else if decide (~ map_Forall (fun id key => id <> "" /\ slen id <= 128 /\ len key = 32) initial) then Err ErrTrustInvalid
  else
    let store := reset initial file in
    match file with
    | None => Ok store
    | Some data =>
        if negb readable then Err ETrustFile
        else match strictJSON decode_file data with
        | None => Err ErrTrustInvalid
        | Some envelopes =>
            if decide (maxTrustBundles < len envelopes) then Err ErrTrustInvalid else replay now store envelopes
        end
    end.

(** ** Revocations and generations *)

(** Calls of [Apply] at any times with any file failures. *)
Inductive trust_step : TrustStore * time -> TrustStore * time -> Prop :=
| TApply s now now' ok envelope s' r :
    now <= now' -> Apply now' ok s envelope = (s', r) -> trust_step (s, now) (s', now').

Lemma install_inv s envelope bundle s1 :
  install s envelope bundle = Some s1 ->
  ts_initial s1 = ts_initial s /\ ts_generation s1 = tb_Generation bundle /\ ts_revokedKeys s ⊆ ts_revokedKeys s1 /\
  ts_revokedVersions s ⊆ ts_revokedVersions s1 /\ ts_envelopes s1 = ts_envelopes s ++ [envelope] /\ ts_file s1 = ts_file s /\
  ~ dom (ts_keys s1) ⊆ ts_revokedKeys s1.
Proof.
  unfold install, cumulativeSet. destruct (bundle_keys _) as [keys|]; [|done].
  destruct (no_repeat _ None); [|done]. case_decide; [|done]. destruct (no_repeat _ None); [|done]. case_decide; [|done].
  case_decide as H3; [|done]. intros [= <-]. simpl. split_and!; try done. by destruct H3.
Qed.

Lemma open_inv s now envelope bundle :
  open_envelope s now envelope = Some bundle ->
  ts_generation s < tb_Generation bundle /\ len (ts_envelopes s) < maxTrustBundles /\ tb_IssuedAt bundle <= now + minute /\
  exists signer bundleBytes signature, Lookup s (te_SignerKeyID envelope) = Some signer /\
    b64_DecodeString (te_Bundle envelope) = Some bundleBytes /\ b64_DecodeString (te_Signature envelope) = Some signature /\
    trust_Verify signer bundleBytes signature = true /\ strictJSON decode_bundle bundleBytes = Some bundle.
Proof.
  unfold open_envelope, Lookup. case_decide as H1; [done|].
  apply Decidable.not_or in H1 as [H1 H2]. apply Decidable.not_or in H2 as [H2 H3].
  destruct (ts_keys s !! _) as [signer|]; [|done]. destruct (b64_DecodeString (te_Bundle envelope)) as [bb|]; [|done].
  case_decide; [done|]. destruct (b64_DecodeString (te_Signature envelope)) as [signature|]; [|done].
  destruct (trust_Verify signer bb signature) eqn:Ev; [|done]. simpl. destruct (strictJSON decode_bundle bb) as [b|] eqn:Ed; [|done].
  case_decide as H4; [done|]. intros [= <-]. rewrite decide_False by done. split_and!; [lia|lia|lia|]. eauto 10.
Qed.

(** The history of a store: the envelopes it has applied, from the built-in keys. *)
Definition history_ok (s : TrustStore) (now : time) : Prop :=
  forall file, replay now (reset (ts_initial s) file) (ts_envelopes s) = Ok (with_file s file).

Lemma open_file s now envelope file : open_envelope (with_file s file) now envelope = open_envelope s now envelope.
Proof. done. Qed.

Lemma install_file s envelope bundle file :
  install (with_file s file) envelope bundle = (fun s1 => with_file s1 file) <$> install s envelope bundle.
Proof.
  unfold install. simpl. destruct (bundle_keys _); [|done]. destruct (cumulativeSet _ (ts_revokedKeys s)); [|done].
  destruct (cumulativeSet _ (ts_revokedVersions s)); [|done]. by case_decide.
Qed.

Lemma with_file_with_file s f1 f2 : with_file (with_file s f1) f2 = with_file s f2.
Proof. done. Qed.
Lemma with_file_same s : with_file s (ts_file s) = s.
Proof. by destruct s. Qed.

Lemma replay_app now s l1 l2 :
  replay now s (l1 ++ l2) = match replay now s l1 with Ok s1 => replay now s1 l2 | Err e => Err e end.
Proof.
  revert s. induction l1 as [|e l1 IH]; intros s; [done|]. simpl. destruct (applyLocked now None s e) as [s1 [[]|]]; [|done].
  apply IH.
Qed.

Lemma open_later s now now' envelope bundle :
  now <= now' -> open_envelope s now envelope = Some bundle -> open_envelope s now' envelope = Some bundle.
Proof.
  intros Hn. unfold open_envelope. case_decide; [done|]. destruct (ts_keys s !! _); [|done].
  destruct (b64_DecodeString (te_Bundle envelope)); [|done]. case_decide; [done|].
  destruct (b64_DecodeString (te_Signature envelope)); [|done]. destruct (trust_Verify _ _ _); simpl; [|done].
  destruct (strictJSON _ _); [|done]. case_decide; [done|]. intros [= <-]. rewrite decide_False; [done|]. intuition lia.
Qed.

Lemma replay_later now now' s l s1 : now <= now' -> replay now s l = Ok s1 -> replay now' s l = Ok s1.
Proof.
  intros Hn. revert s. induction l as [|e l IH]; intros s; simpl; [done|]. unfold applyLocked.
  destruct (open_envelope s now e) as [bundle|] eqn:Eo; [|done]. rewrite (open_later _ _ _ _ _ Hn Eo).
  destruct (install s e bundle); [|done]. apply IH.
Qed.

(** A successful call installs the bundle of the envelope. *)
Lemma Apply_ok_inv now ok s b s' :
  Apply now ok s b = (s', Ok tt) ->
  exists envelope bundle s1 data, strictJSON decode_envelope b = Some envelope /\ open_envelope s now envelope = Some bundle /\
    install s envelope bundle = Some s1 /\ encode_file (ts_envelopes s1) = Some data /\ s' = with_file s1 (Some data).
Proof.
  unfold Apply, applyLocked, persistLocked. destruct (strictJSON _ b) as [envelope|]; [|done].
  destruct (open_envelope s now envelope) as [bundle|] eqn:Eo; [|done].
  destruct (install s envelope bundle) as [s1|] eqn:Ei; [|done].
  destruct (encode_file _) as [data|] eqn:Ee; [|done]. destruct (negb _); [done|]. destruct (ok TSyncDirectory); [|done].
  intros [= <-]. exists envelope, bundle, s1, data. done.
Qed.

(** A failed call changes the file at most, and then to the history with the new envelope. *)
Lemma Apply_err_inv now ok s b s' e :
  Apply now ok s b = (s', Err e) ->
  s' = s \/ exists envelope bundle s1 data, strictJSON decode_envelope b = Some envelope /\
    open_envelope s now envelope = Some bundle /\ install s envelope bundle = Some s1 /\
    encode_file (ts_envelopes s1) = Some data /\ s' = with_file s (Some data).
Proof.
  unfold Apply, applyLocked, persistLocked. destruct (strictJSON _ b) as [envelope|]; [|intros [= <- _]; auto].
  destruct (open_envelope s now envelope) as [bundle|] eqn:Eo; [|intros [= <- _]; auto].
  destruct (install s envelope bundle) as [s1|] eqn:Ei; [|intros [= <- _]; auto].
  destruct (install_inv _ _ _ _ Ei) as (_&_&_&_&_&Hf&_).
  destruct (encode_file _) as [data|] eqn:Ee; [|intros [= <- _]; left; by rewrite Hf, with_file_same].
  destruct (negb _); [intros [= <- _]; left; by rewrite Hf, with_file_same|].
  destruct (ok TSyncDirectory); [done|]. intros [= <- _]. right. exists envelope, bundle, s1, data. done.
Qed.

Definition usable (s : TrustStore) : Prop := exists id key, Lookup s id = Some key.

(** What never goes back. *)
Definition advances (s s' : TrustStore) : Prop :=
  ts_initial s' = ts_initial s /\ ts_generation s <= ts_generation s' /\ ts_revokedKeys s ⊆ ts_revokedKeys s' /\
  ts_revokedVersions s ⊆ ts_revokedVersions s' /\ ts_envelopes s `prefix_of` ts_envelopes s'.

#[local] Instance advances_preorder : PreOrder advances.
Proof.
  split; [intros s; split_and!; (done || lia)|].
  intros s1 s2 s3 (?&?&?&?&?) (?&?&?&?&?). split_and!; [congruence|lia|set_solver|set_solver|by etrans].
Qed.

Lemma usable_keys s : usable s <-> ~ dom (ts_keys s) ⊆ ts_revokedKeys s.
Proof.
  unfold usable, Lookup. split.
  - intros (id&key&H). destruct (ts_keys s !! id) as [k|] eqn:E; [|done]. case_decide; [done|]. intros Hsub.
    apply elem_of_dom_2 in E. set_solver.
  - intros H. destruct (decide (map_Exists (fun id _ => id ∉ ts_revokedKeys s) (ts_keys s))) as [(id&key&E&Hid)|Hn].
    + exists id, key. by rewrite E, decide_False.
    + destruct H. intros id [key E]%elem_of_dom. destruct (decide (id ∈ ts_revokedKeys s)); [done|]. destruct Hn. by exists id, key.
Qed.

Lemma Apply_step now ok s b s' r :
  Apply now ok s b = (s', r) -> advances s s' /\ (usable s -> usable s') /\
  (len (ts_envelopes s) <= maxTrustBundles -> len (ts_envelopes s') <= maxTrustBundles).
Proof.
  destruct r as [[]|e]; intros E.
  - apply Apply_ok_inv in E as (envelope&bundle&s1&data&_&Eo&Ei&_&->).
    apply open_inv in Eo as (Hg&Hl&_). apply install_inv in Ei as (H1&H2&H3&H4&H5&_&H7).
    split; [split_and!; simpl; [done|lia|done|done|rewrite H5; by eexists]|]. split.
    + intros _. apply usable_keys. done.
    + simpl. rewrite H5, length_app. simpl. intros. lia.
  - apply Apply_err_inv in E as [->|(envelope&bundle&s1&data&_&_&_&_&->)]; [done|]. split; [|done].
    split_and!; simpl; (done || lia).
Qed.

Lemma trust_steps x y :
  rtc trust_step x y -> advances x.1 y.1 /\ (usable x.1 -> usable y.1) /\
  (len (ts_envelopes x.1) <= maxTrustBundles -> len (ts_envelopes y.1) <= maxTrustBundles) /\ x.2 <= y.2.
Proof.
  induction 1 as [x|x y z Hs _ (IH1&IH2&IH3&IH4)]; [split_and!; (done || lia)|].
  destruct Hs as [s now now' ok b s' r Hn E]. simpl in *. apply Apply_step in E as (H1&H2&H3).
  split_and!; [by etrans|auto|auto|lia].
Qed.


End Trust.

(** ** Restarts *)

Definition env_utf8 (e : TrustEnvelope) : Prop :=
  utf8_Valid (String.list_byte_of_string (te_SignerKeyID e)) = true /\
  utf8_Valid (String.list_byte_of_string (te_Bundle e)) = true /\
  utf8_Valid (String.list_byte_of_string (te_Signature e)) = true.

(** Decoded strings are valid UTF-8, and encoded envelopes with such strings decode to
    themselves, as an object without repeated keys. *)
Class TrustLaws `{TL : TrustLibraries} := {
  envelope_utf8 : forall b e x, decode_envelope b = Some (e, x) -> env_utf8 e;
  file_utf8 : forall b l x, decode_file b = Some (l, x) -> Forall env_utf8 l;
  file_roundtrip : forall l b, Forall env_utf8 l -> encode_file l = Some b ->
    rejectDuplicateKeys (trust_tokens b) = Ok tt /\ decode_file b = Some (l, true)
}.

Section Restart.
Context `{TLaws : TrustLaws}.

Lemma strictJSON_inv {A} (decode : list byte -> option (A * bool)) b a :
  strictJSON decode b = Some a -> decode b = Some (a, true).
Proof. unfold strictJSON. destruct (rejectDuplicates _); [|done]. destruct (decode b) as [[? []]|]; congruence. Qed.

(** The file replays to the store, or to the store with one more bundle, which is the one
    whose directory sync failed. *)
Definition file_ok (s : TrustStore) (now : time) : Prop :=
  match ts_file s with
  | None => s = reset (ts_initial s) None
  | Some data => exists s1, strictJSON decode_file data = Some (ts_envelopes s1) /\ Forall env_utf8 (ts_envelopes s1) /\
      len (ts_envelopes s1) <= maxTrustBundles /\
      (forall file, replay now (reset (ts_initial s) file) (ts_envelopes s1) = Ok (with_file s1 file)) /\
      (s1 = s \/ exists envelope bundle, open_envelope s now envelope = Some bundle /\ install s envelope bundle = Some s1)
  end.

Definition store_ok (s : TrustStore) (now : time) : Prop :=
  history_ok s now /\ file_ok s now /\ Forall env_utf8 (ts_envelopes s).

Lemma history_ok_later s now now' : now <= now' -> history_ok s now -> history_ok s now'.
Proof. intros Hn H file. by apply (replay_later now). Qed.

Lemma history_install s now envelope bundle s1 :
  history_ok s now -> open_envelope s now envelope = Some bundle -> install s envelope bundle = Some s1 ->
  forall file, replay now (reset (ts_initial s) file) (ts_envelopes s1) = Ok (with_file s1 file).
Proof.
  intros H Eo Ei file. destruct (install_inv _ _ _ _ Ei) as (_&_&_&_&->&_). rewrite replay_app, (H file). simpl.
  unfold applyLocked. by rewrite open_file, Eo, install_file, Ei.
Qed.

Lemma file_ok_later s now now' : now <= now' -> file_ok s now -> file_ok s now'.
Proof.
  intros Hn. unfold file_ok. destruct (ts_file s); [|done]. intros (s1&H1&H2&H3&H4&H5). exists s1. split_and!; try done.
  - intros file. by apply (replay_later now).
  - destruct H5 as [?|(e&b&Eo&Ei)]; [by left|]. right. exists e, b. split; [by apply (open_later _ now)|done].
Qed.

Lemma file_ok_new s now envelope bundle s1 data s2 :
  store_ok s now -> env_utf8 envelope -> open_envelope s now envelope = Some bundle -> install s envelope bundle = Some s1 ->
  encode_file (ts_envelopes s1) = Some data ->
  (s2 = with_file s1 (Some data) \/ s2 = with_file s (Some data)) -> file_ok s2 now.
Proof.
  intros (Hh&_&Hu) He Eo Ei Ee Hs2. destruct (install_inv _ _ _ _ Ei) as (Hi&_&_&_&Hl&_).
  assert (Hu1 : Forall env_utf8 (ts_envelopes s1)) by (rewrite Hl; apply Forall_app; auto).
  destruct (file_roundtrip _ _ Hu1 Ee) as [Hd Hdec].
  assert (Hstrict : strictJSON decode_file data = Some (ts_envelopes s1)) by (unfold strictJSON, rejectDuplicates; by rewrite Hd, Hdec).
  assert (Hlen : len (ts_envelopes s1) <= maxTrustBundles).
  { apply open_inv in Eo as (_&Hlt&_). rewrite Hl, length_app. simpl. lia. }
  destruct Hs2 as [-> | ->]; unfold file_ok; simpl; exists (with_file s1 (Some data)); simpl; split_and!; try done.
  - intros file. rewrite Hi, with_file_with_file. by apply (history_install s now envelope bundle).
  - by left.
  - intros file. rewrite with_file_with_file. by apply (history_install s now envelope bundle).
  - right. exists envelope, bundle. rewrite open_file, install_file, Ei. done.
Qed.

Lemma store_ok_step x y : trust_step x y -> store_ok x.1 x.2 -> store_ok y.1 y.2.
Proof.
  destruct 1 as [s now now' ok b s' r Hn E]. simpl. intros (Hh&Hf&Hu).
  apply (history_ok_later _ _ _ Hn) in Hh. apply (file_ok_later _ _ _ Hn) in Hf.
  destruct r as [[]|e].
  - apply Apply_ok_inv in E as (envelope&bundle&s1&data&Ed&Eo&Ei&Ee&->).
    apply strictJSON_inv, envelope_utf8 in Ed. destruct (install_inv _ _ _ _ Ei) as (Hi&_&_&_&Hl&_). split_and!.
    + intros file. simpl. rewrite Hi, with_file_with_file. by apply (history_install s now' envelope bundle).
    + by apply (file_ok_new s now' envelope bundle s1 data); [split_and!|..|left].
    + simpl. rewrite Hl. apply Forall_app. auto.
  - apply Apply_err_inv in E as [->|(envelope&bundle&s1&data&Ed&Eo&Ei&Ee&->)]; [by split_and!|].
    apply strictJSON_inv, envelope_utf8 in Ed. split_and!; [done| |done].
    by apply (file_ok_new s now' envelope bundle s1 data); [split_and!|..|right].
Qed.

Lemma replay_initial now s l s1 : replay now s l = Ok s1 ->
  ts_initial s1 = ts_initial s /\ ts_envelopes s1 = ts_envelopes s ++ l /\ ts_file s1 = ts_file s.
Proof.
  revert s. induction l as [|e l IH]; intros s; simpl; [intros [= ->]; by rewrite app_nil_r|].
  unfold applyLocked. destruct (open_envelope s now e) as [b|]; [|done]. destruct (install s e b) as [s2|] eqn:Ei; [|done].
  destruct (install_inv _ _ _ _ Ei) as (H1&_&_&_&H2&H3&_). intros (H4&H5&H6)%IH. rewrite H4, H5, H6, H1, H2, H3, <- app_assoc. done.
Qed.

Lemma replay_file now s l s1 file : replay now s l = Ok s1 -> replay now (with_file s file) l = Ok (with_file s1 file).
Proof.
  revert s. induction l as [|e l IH]; intros s; simpl; [by intros [= ->]|].
  unfold applyLocked. rewrite open_file. destruct (open_envelope s now e) as [b|]; [|done]. rewrite install_file.
  destruct (install s e b) as [s2|] eqn:Ei; [|done]. apply IH.
Qed.

Lemma store_ok_start path initial now readable file s :
  newTrustStore path initial now readable file = Ok s -> store_ok s now.
Proof.
  unfold newTrustStore. case_decide; [done|]. case_decide; [done|]. destruct file as [data|].
  - destruct readable; [|done]. simpl. destruct (strictJSON decode_file data) as [l|] eqn:Ed; [|done].
    case_decide as Hlen; [done|]. intros Hr. destruct (replay_initial _ _ _ _ Hr) as (H1&H2&H3). simpl in H2.
    assert (Hu : Forall env_utf8 l) by (by apply strictJSON_inv, file_utf8 in Ed).
    assert (Hh : history_ok s now).
    { intros file. rewrite H1, H2. by apply (replay_file _ _ _ _ file) in Hr. }
    unfold store_ok, file_ok. rewrite H3. simpl. rewrite H2. split_and!; [done| |done].
    exists s. rewrite H2. split_and!; [done|done|lia| |by left]. intros file. specialize (Hh file). by rewrite H2 in Hh.
  - intros [= <-]. split_and!; [by intros file|done|constructor].
Qed.

(** A restart keeps the trust: whatever bundles were applied and whatever file
    operations failed, a store that is opened again from the file, at a time not before the
    last call, succeeds and is the store that was in memory, or that store with one more
    accepted bundle (the one whose file was renamed into place but not synced); no
    revocation and no generation is lost. *)
Theorem trust_restart (path : string) (initial : gmap string (list byte)) (t0 : time) (readable : bool) (file : option (list byte))
    (s0 s : TrustStore) (now now' : time) :
  newTrustStore path initial t0 readable file = Ok s0 -> rtc trust_step (s0, t0) (s, now) -> now <= now' ->
  exists s', newTrustStore path initial now' true (ts_file s) = Ok s' /\ advances s s' /\
    (s' = s \/ exists envelope bundle, open_envelope s now' envelope = Some bundle /\ install s envelope bundle = Some s').
Proof.
  intros H0 H Hn.
  assert (Hok : store_ok s now).
  { apply (rtc_invariant _ (fun x => store_ok x.1 x.2) store_ok_step _ _ H). by apply (store_ok_start path initial t0 readable file). }
  assert (Hinit : ts_initial s = initial).
  { apply trust_steps in H as ((Hi&_)&_). simpl in Hi. rewrite Hi.
    unfold newTrustStore in H0. case_decide; [done|]. case_decide; [done|]. destruct file as [data|]; [|by injection H0 as <-].
    destruct readable; [|done]. simpl in H0. destruct (strictJSON decode_file data); [|done]. case_decide; [done|].
    by apply replay_initial in H0 as (->&_). }
  destruct Hok as (_&Hf&_). apply (file_ok_later _ _ _ Hn) in Hf. unfold file_ok in Hf.
  unfold newTrustStore in H0 |- *. case_decide; [done|]. case_decide; [done|]. clear H0.
  destruct (ts_file s) as [data|] eqn:Efile; [|exists s; split_and!; [by rewrite Hf, Hinit|done|by left]].
  destruct Hf as (s1&Hd&_&Hlen&Hr&Hs). simpl. rewrite Hd, decide_False by lia.
  rewrite <- Hinit, (Hr (Some data)). exists (with_file s1 (Some data)). split; [done|].
  destruct Hs as [->|(envelope&bundle&Eo&Ei)].
  - rewrite <- Efile, with_file_same. split; [done|by left].
  - destruct (install_inv _ _ _ _ Ei) as (I1&I2&I3&I4&I5&I6&_). apply open_inv in Eo as Hg. destruct Hg as (Hg&_).
    assert (Hsame : with_file s1 (Some data) = s1) by (rewrite <- Efile, <- I6; apply with_file_same). rewrite Hsame.
    split; [split_and!; [done|lia|done|done|rewrite I5; by eexists]|]. right. by exists envelope, bundle.
Qed.

End Restart.

(** *** Witnesses: a library that knows one envelope and one bundle. *)

#[global] Instance TrustEnvelope_eq_dec : EqDecision TrustEnvelope.
Proof. solve_decision. Defined.

Definition demo_envelope : TrustEnvelope := mkEnvelope "root" (b64_EncodeToString [x7b; x7d]) (b64_EncodeToString [x01]).
Definition demo_bundle : TrustBundle :=
  mkBundle 1 0 {["next" := b64_EncodeToString (replicate 32 x02)]} (Some ["root"]) (Some ["1.2.3"]).
Definition demo_trust : TrustLibraries := {|
  trust_Verify := fun key _ signature => bool_decide (key = replicate 32 x01 /\ signature = [x01]);
  trust_tokens := fun _ => mkDecoder [TOpenObject; TCloseObject] JEOF;
  decode_envelope := fun _ => Some (demo_envelope, true);
  decode_bundle := fun _ => Some (demo_bundle, true);
  decode_file := fun b => Some (replicate (length b) demo_envelope, true);
  encode_file := fun l => if decide (Forall (eq demo_envelope) l) then Some (replicate (length l) x00) else None
|}.

#[local] Instance demo_trust_laws : @TrustLaws demo_trust.
Proof.
  split.
  - intros b e x [= <- _]. by vm_compute.
  - intros b l x [= <- _]. apply Forall_replicate. by vm_compute.
  - intros l b _ H. simpl in *. case_decide as Hl; [|done]. injection H as <-. split; [by vm_compute|]. rewrite length_replicate. do 2 f_equal.
    induction Hl as [|e l <- _ IH]; [done|]. simpl. by rewrite IH.
Defined.

Definition demo_initial : gmap string (list byte) := {["root" := replicate 32 x01]}.
Definition all_files (ok : bool) : trust_call -> bool := fun c => match c with TSyncDirectory => ok | _ => true end.
Definition demo_store : TrustStore := reset demo_initial None.


(** The bundle whose directory sync failed is refused in memory and there after a restart. *)
Lemma trust_restart_witness :
  let '(s, r) := @Apply demo_trust 5 (all_files false) demo_store [] in
  r = Err ETrustFile /\ ts_generation s = 0 /\
  exists s', @newTrustStore demo_trust "/trust" demo_initial 6 true (ts_file s) = Ok s' /\ advances s s'.
Proof.
  destruct (@Apply demo_trust 5 (all_files false) demo_store []) as [s r] eqn:E.
  assert (Hr : r = Err ETrustFile) by (change r with (s, r).2; rewrite <- E; by vm_compute).
  split; [done|]. split; [change s with (s, r).1; rewrite <- E; by vm_compute|].
  destruct (@trust_restart demo_trust demo_trust_laws "/trust" demo_initial 0 true None demo_store s 5 6) as (s'&H1&H2&_).
  - by vm_compute.
  - apply rtc_once. apply (TApply demo_store 0 5 (all_files false) [] s r); [lia|exact E].
  - lia.
  - exists s'. split; [exact H1|exact H2].
Defined.
