(* ===== verification/Update.v ===== *)
(** * Signed updates ([internal/update/update.go])

    An update is a signed manifest naming an artifact.  [Apply] downloads and checks it,
    runs it once, and swaps it for the installed binary through a journal: the old binary
    is kept beside the new one until the new one has passed its health check.  [recover]
    finishes or undoes what a crash has left.

    The file system is a map from paths to nodes.  Every system call takes the next fault:
    it can fail without effect, or the process can stop before or after it.  A renamed or
    removed file is taken to survive (the program syncs directories; a loss of unsynced
    changes is not modelled), and the temporary file of a journal write is not tracked.
    Downloads, health checks, URLs, SHA-256 and JSON are parameters. *)

From S2P Require Import Prelude Config Wire Base64 Paths Frame Jwks Versions Trust.

(** ** Data *)

Record Envelope := mkUpdateEnvelope { en_KeyID : string; en_Manifest : string; en_Signature : string }.
Record Artifact := mkArtifact { ar_URL : string; ar_SHA256 : string; ar_Size : Z }.
Record Manifest := mkManifest {
  mf_Version : string;
  mf_Channel : string;
  mf_PublishedAt : time;
  mf_Revoked : bool;
  mf_MinProtocol : string;
  mf_MaxProtocol : string;
  mf_MinStore : Z;
  mf_MaxStore : Z;
  mf_Artifacts : gmap string Artifact
}.

Record journal := mkUpdateJournal { jn_State : string; jn_Version : string; jn_PreviousVersion : string; jn_StagedPath : string }.

(** [uc_Platform] is [GOOS-GOARCH]; [uc_Fetcher] and [uc_Health] say that they are not nil. *)
Record Config := mkUpdateConfig {
  uc_StateRoot : string;
  uc_InstallPath : string;
  uc_Channel : string;
  uc_ProtocolVersion : string;
  uc_StoreVersion : Z;
  uc_TrustedKeys : gmap string (list byte);
  uc_AllowedHosts : gset string;
  uc_Fetcher : bool;
  uc_Health : bool;
  uc_MaxArtifactBytes : Z;
  uc_Platform : string
}.

Inductive update_error :=
| ErrManifestInvalid | ErrSignatureInvalid | ErrIncompatible | ErrArtifactInvalid | ErrHealthCheck | ErrRollback
| UIO | UNotExist | UTrust (e : trust_error) | UJoin (e1 e2 : update_error).

#[global] Instance trust_error_eq_dec : EqDecision trust_error.
Proof. solve_decision. Defined.
#[global] Instance update_error_eq_dec : EqDecision update_error.
Proof. solve_decision. Defined.

(** A regular file, or something else at the path. *)
Inductive node := Regular (data : list byte) | Other.

(** A system call fails, or the process stops before or after it. *)
Inductive call_fault := CNone | CFails | CStopBefore | CStopAfter.

Record world := mkUpdateWorld {
  u_files : gmap string node;
  u_version : string;            (* config.CurrentVersion *)
  u_trust : TrustStore;
  u_faults : list call_fault
}.

(** Programs: [None] when the process has stopped. *)
Definition U (A : Type) : Type := world -> world * option A.
#[global] Instance U_ret : MRet U := fun A a w => (w, Some a).
#[global] Instance U_bind : MBind U := fun A B k m w =>
  match m w with (w1, Some a) => k a w1 | (w1, None) => (w1, None) end.

(** [if err != nil { return err }]. *)
Notation "'do?' p := m 'in' k" :=
  (mbind (M := U) (fun r => match r with Ok p => k | Err e => mret (M := U) (Err e) end) m)
  (at level 10, p pattern, m at level 200, k at level 200) : res_scope.

Definition set_update_files (files : gmap string node) (w : world) : world :=
  mkUpdateWorld files (u_version w) (u_trust w) (u_faults w).
Definition get {A} (f : world -> A) : U A := fun w => (w, Some (f w)).
Definition start_with (version : string) (trust : TrustStore) : U unit := fun w =>
  (mkUpdateWorld (u_files w) version trust (u_faults w), Some tt).
Definition set_version (v : string) : U unit := fun w => (mkUpdateWorld (u_files w) v (u_trust w) (u_faults w), Some tt).

(** ** System calls *)

Definition call {A} (act : world -> world * result update_error A) : U (result update_error A) := fun w =>
  let '(w0, f) := match u_faults w with
                  | [] => (w, CNone)
                  | f :: l => (mkUpdateWorld (u_files w) (u_version w) (u_trust w) l, f)
                  end in
  match f with
  | CNone => let '(w1, r) := act w0 in (w1, Some r)
  | CFails => (w0, Some (Err UIO))
  | CStopBefore => (w0, None)
  | CStopAfter => ((act w0).1, None)
  end.

(** A call without an effect on the tracked files. *)
Definition idle : U (result update_error unit) := call (fun w => (w, Ok tt)).

Definition os_Remove (path : string) : U (result update_error unit) := call (fun w =>
  match u_files w !! path with
  | None => (w, Err UNotExist)
  | Some _ => (set_update_files (delete path (u_files w)) w, Ok tt)
  end).

Definition os_Rename (from to : string) : U (result update_error unit) := call (fun w =>
  match u_files w !! from with
  | None => (w, Err UNotExist)
  | Some n => (set_update_files (<[to := n]> (delete from (u_files w))) w, Ok tt)
  end).

(** [os.Stat] and [os.Lstat]. *)
Definition os_Stat (path : string) : U (result update_error node) := call (fun w =>
  match u_files w !! path with None => (w, Err UNotExist) | Some n => (w, Ok n) end).

Definition os_ReadFile (path : string) : U (result update_error (list byte)) := call (fun w =>
  match u_files w !! path with
  | None => (w, Err UNotExist)
  | Some (Regular data) => (w, Ok data)
  | Some Other => (w, Err UIO)
  end).

Definition os_WriteFile (path : string) (data : list byte) : U (result update_error unit) := call (fun w =>
  (set_update_files (<[path := Regular data]> (u_files w)) w, Ok tt)).

(** An existing path is refused. *)
Definition os_Create (path : string) : U (result update_error unit) := call (fun w =>
  match u_files w !! path with
  | Some _ => (w, Err UIO)
  | None => (set_update_files (<[path := Regular []]> (u_files w)) w, Ok tt)
  end).

Definition syncDirectory : U (result update_error unit) := do? _ := idle in idle.   (* open and sync *)

(** ** Paths *)

(** [filepath.Rel] of a rooted directory and a rooted path does not leave the directory. *)
Definition safeStagedPath (path directory : string) : bool :=
  is_abs path && is_abs directory && bool_decide (elements_of directory `prefix_of` elements_of path)
  && String.prefix ".pbh-update-" (filepath_Base path).

(** ** Libraries *)

Record parsed_url := mkUrl { url_Scheme : string; url_User : bool; url_Hostname : string }.

Class UpdateLibraries := {
  ul_trust :: TrustLibraries;
  update_sha256 : list byte -> list byte;
  url_Parse : string -> option parsed_url;
  decode_update_envelope : list byte -> option (Envelope * bool);
  decode_manifest : list byte -> option (Manifest * bool);
  decode_journal : list byte -> option (journal * bool);
  encode_journal : journal -> option (list byte)
}.

(** [strings.ToLower] and [hex.DecodeString] on ASCII text. *)
Definition lower (a : ascii) : ascii :=
  let n := nat_of_ascii a in if decide (65 <= n <= 90)%nat then ascii_of_nat (n + 32) else a.
Definition ToLower (s : string) : string := String.string_of_list_ascii (lower <$> String.list_ascii_of_string s).
Definition is_hex (a : ascii) : bool :=
  let n := nat_of_ascii a in bool_decide (48 <= n <= 57 \/ 65 <= n <= 70 \/ 97 <= n <= 102)%nat.
Definition hex_valid (s : string) : bool :=
  Nat.even (String.length s) && forallb is_hex (String.list_ascii_of_string s).

Section Update.
Context `{UL : UpdateLibraries}.
Variable config : Config.

Definition journalPath : string := filepath_Join (uc_StateRoot config) "update-journal.json".
Definition previousPath : string := uc_InstallPath config +:+ ".previous".
Definition installDirectory : string := filepath_Dir (uc_InstallPath config).

Definition allowed_url (raw : string) : bool :=
  match url_Parse raw with
  | None => false
  | Some u => bool_decide (url_Scheme u = "https" /\ url_User u = false /\ url_Hostname u ∈ uc_AllowedHosts config)
  end.

(** ** Verification *)

(** The content has the size and the digest of the artifact. *)
Definition matches (artifact : Artifact) (data : list byte) : bool :=
  bool_decide (len data = ar_Size artifact /\ hex_EncodeToString (update_sha256 data) = ToLower (ar_SHA256 artifact)).

Definition verify (trust : TrustStore) (currentVersion : string) (envelopeBytes : list byte) : result update_error (Manifest * Artifact) :=
  match strictJSON decode_update_envelope envelopeBytes with
  | None => Err ErrManifestInvalid
  | Some envelope =>
      match Lookup trust (en_KeyID envelope) with
      | None => Err ErrSignatureInvalid
      | Some key =>
          if decide (len key <> 32) then Err ErrSignatureInvalid
          else match b64_DecodeString (en_Manifest envelope) with
          | None => Err ErrManifestInvalid
          | Some manifestBytes =>
              if decide (Z.shiftl 1 20 < len manifestBytes) then Err ErrManifestInvalid
              else match b64_DecodeString (en_Signature envelope) with
              | None => Err ErrSignatureInvalid
              | Some signature =>
                  if negb (trust_Verify key manifestBytes signature) then Err ErrSignatureInvalid
                  else match strictJSON decode_manifest manifestBytes with
                  | None => Err ErrManifestInvalid
                  | Some manifest =>
                      if decide (is_zero_time (mf_PublishedAt manifest) = true \/ mf_Revoked manifest = true
                                 \/ VersionRevoked trust (mf_Version manifest) = true \/ mf_Channel manifest <> uc_Channel config
                                 \/ validVersion (mf_Version manifest) = false
                                 \/ compareVersion (mf_Version manifest) currentVersion <= 0
                                 \/ versionInRange (uc_ProtocolVersion config) (mf_MinProtocol manifest) (mf_MaxProtocol manifest) = false
                                 \/ uc_StoreVersion config < mf_MinStore manifest \/ mf_MaxStore manifest < uc_StoreVersion config)
                      then Err ErrIncompatible
                      else match mf_Artifacts manifest !! uc_Platform config with
                      | None => Err ErrArtifactInvalid
                      | Some artifact =>
                          if decide (ar_Size artifact < 1 \/ uc_MaxArtifactBytes config < ar_Size artifact
                                     \/ slen (ar_SHA256 artifact) <> 64) then Err ErrArtifactInvalid
                          else if negb (allowed_url (ar_URL artifact)) then Err ErrArtifactInvalid
                          else if negb (hex_valid (ar_SHA256 artifact)) then Err ErrArtifactInvalid
                          else Ok (manifest, artifact)
                      end
                  end
              end
          end
      end
  end.

(** ** Files *)

Definition safeOptionalRegular (path : string) : U (result update_error unit) :=
  r ← os_Stat path;
  mret match r with
       | Ok (Regular _) => Ok tt
       | Ok Other => Err ErrArtifactInvalid
       | Err UNotExist => Ok tt
       | Err e => Err e
       end.

Definition safeRequiredRegular (path : string) : U (result update_error unit) :=
  do? _ := safeOptionalRegular path in
  do? _ := os_Stat path in mret (Ok tt).

Definition verifyFile (path : string) (artifact : Artifact) : U (result update_error unit) :=
  do? _ := safeRequiredRegular path in
  do? data := os_ReadFile path in
  mret (if matches artifact (take (Z.to_nat (ar_Size artifact + 1)) data) then Ok tt else Err ErrArtifactInvalid).

(** [os.Remove] that accepts a missing file. *)
Definition remove_existing (path : string) : U (result update_error unit) :=
  r ← os_Remove path;
  mret match r with Err UNotExist => Ok tt | r => r end.

Definition removeStaged (path : string) : U (result update_error unit) :=
  if negb (safeStagedPath path installDirectory) then mret (Err ErrManifestInvalid)
  else do? _ := remove_existing path in syncDirectory.

Definition removeAndSync (path : string) : U (result update_error unit) :=
  do? _ := remove_existing path in syncDirectory.

Definition rollback : U (result update_error unit) :=
  r ← safeRequiredRegular previousPath;
  match r with
  | Err _ => mret (Err ErrRollback)
  | Ok _ =>
      r ← remove_existing (uc_InstallPath config);
      match r with
      | Err _ => mret (Err ErrRollback)
      | Ok _ =>
          r ← os_Stat previousPath;
          match r with
          | Err _ => mret (Err ErrRollback)
          | Ok _ =>
              r ← os_Rename previousPath (uc_InstallPath config);
              match r with
              | Err _ => mret (Err ErrRollback)
              | Ok _ =>
                  r ← syncDirectory;
                  match r with Err _ => mret (Err ErrRollback) | Ok _ => removeAndSync journalPath end
              end
          end
      end
  end.

(** Create, chmod, write, sync and close the temporary file, then rename it and sync. *)
Definition writeJournal (entry : journal) : U (result update_error unit) :=
  match encode_journal entry with
  | None => mret (Err UIO)
  | Some data =>
      do? _ := idle in do? _ := idle in do? _ := idle in do? _ := idle in do? _ := idle in
      do? _ := os_WriteFile journalPath data in
      syncDirectory
  end.

(** [name] is the path that [os.CreateTemp] finds, [body] the download ([None]: it fails).
    A failure removes the file. *)
Definition stage (name : string) (body : option reader) (artifact : Artifact) : U (result update_error string) :=
  match body with
  | None => mret (Err UIO)
  | Some body =>
      do? _ := os_Create name in
      r ← (do? _ := idle in
           match read_limited body (uc_MaxArtifactBytes config + 1) with
           | None => do? _ := os_WriteFile name (rd_bytes body) in mret (Err UIO)
           | Some data =>
               do? _ := os_WriteFile name data in
               if decide (matches artifact data = false \/ uc_MaxArtifactBytes config < len data) then mret (Err ErrArtifactInvalid)
               else do? _ := idle in do? _ := idle in syncDirectory
           end);
      match r with
      | Ok _ => mret (Ok name)
      | Err e => _ ← os_Remove name; mret (Err e)
      end
  end.

(** ** Applying an update *)

(** What the environment answers: the download, the temporary name, the health checks of
    the staged and of the installed file. *)
Record answers := mkAnswers { an_name : string; an_body : option reader; an_staged_ok : bool; an_installed_ok : bool }.

(** A failure after the installed file was moved is rolled back. *)
Definition or_rollback (m : U (result update_error unit)) : U (result update_error unit) :=
  r ← m;
  match r with
  | Ok _ => mret (Ok tt)
  | Err e => _ ← rollback; mret (Err e)
  end.

(** The new binary is in place: check it, or undo. *)
Definition check_installed (a : answers) (version previous : string) : U (result update_error unit) :=
  do? _ := or_rollback (writeJournal (mkUpdateJournal "checking" version previous "")) in
  h ← idle;   (* the health check *)
  if match h with Ok _ => an_installed_ok a | Err _ => false end then
    do? _ := writeJournal (mkUpdateJournal "committed" version previous "") in
    _ ← set_version version; mret (Ok tt)
  else
    r ← rollback;
    mret (Err match r with Err e => UJoin ErrHealthCheck e | Ok _ => ErrHealthCheck end).

(** From the staged file to the installed one.  The flag says whether the staged file is
    still there for [Apply] to remove. *)
Definition swap (a : answers) (staged version previous : string) : U (bool * result update_error unit) :=
  let entry state := mkUpdateJournal state version previous staged in
  r ← (do? _ := writeJournal (entry "staged") in
       do? _ := writeJournal (entry "backing_up") in
       do? _ := safeOptionalRegular previousPath in
       do? _ := remove_existing previousPath in
       r ← os_Stat (uc_InstallPath config);
       do? _ := match r with
                | Ok _ => os_Rename (uc_InstallPath config) previousPath
                | Err UNotExist => mret (Ok tt)
                | Err e => mret (Err e)
                end in
       do? _ := or_rollback syncDirectory in
       do? _ := or_rollback (writeJournal (entry "activating")) in
       or_rollback (os_Rename staged (uc_InstallPath config)));
  match r with
  | Err e => mret (true, Err e)
  | Ok _ =>
      r ← (do? _ := or_rollback syncDirectory in check_installed a version previous);
      mret (false, r)
  end.

Definition Apply (a : answers) (envelopeBytes : list byte) : U (result update_error Manifest) :=
  trust ← get u_trust;
  previous ← get u_version;
  match verify trust previous envelopeBytes with
  | Err e => mret (Err e)
  | Ok (manifest, artifact) =>
      do? staged := stage (an_name a) (an_body a) artifact in
      kr ← (h ← idle;   (* the health check of the staged file *)
            if match h with Ok _ => an_staged_ok a | Err _ => false end then
              r ← verifyFile staged artifact;
              match r with
              | Err e => mret (true, Err e)
              | Ok _ => swap a staged (mf_Version manifest) previous
              end
            else mret (true, Err ErrHealthCheck));
      let '(keep, r) := (kr : bool * result update_error unit) in
      _ ← (if keep then os_Remove staged else mret (Ok tt));
      mret match r with Ok _ => Ok manifest | Err e => Err e end
  end.

(** ** Recovery *)

Definition validateJournal (entry : journal) (currentVersion : string) : bool :=
  validVersion (jn_Version entry) && validVersion (jn_PreviousVersion entry)
  && bool_decide (0 < compareVersion (jn_Version entry) (jn_PreviousVersion entry))
  && bool_decide (currentVersion = jn_PreviousVersion entry \/ currentVersion = jn_Version entry)
  && (if decide (jn_State entry = "staged" \/ jn_State entry = "backing_up" \/ jn_State entry = "activating")
      then safeStagedPath (jn_StagedPath entry) installDirectory
      else bool_decide ((jn_State entry = "checking" \/ jn_State entry = "committed") /\ jn_StagedPath entry = "")).

(** The switch on the state of the journal.  [healthy] is what the health check of a
    committed update says. *)
Definition recover_entry (healthy : bool) (entry : journal) : U (result update_error unit) :=
  if decide (jn_State entry = "staged") then
    do? _ := removeStaged (jn_StagedPath entry) in removeAndSync journalPath
  else if decide (jn_State entry = "backing_up") then
    r ← os_Stat previousPath;
    match r with
    | Ok _ => do? _ := rollback in removeStaged (jn_StagedPath entry)
    | Err UNotExist => do? _ := removeStaged (jn_StagedPath entry) in removeAndSync journalPath
    | Err e => mret (Err e)
    end
  else if decide (jn_State entry = "activating" \/ jn_State entry = "checking") then
    do? _ := rollback in
    if decide (jn_StagedPath entry <> "") then removeStaged (jn_StagedPath entry) else mret (Ok tt)
  else if decide (jn_State entry = "committed") then
    do? _ := safeOptionalRegular (uc_InstallPath config) in
    h ← idle;   (* the health check *)
    if match h with Ok _ => healthy | Err _ => false end
    then _ ← set_version (jn_Version entry); mret (Ok tt)
    else
      r ← rollback;
      match r with
      | Err e => mret (Err (UJoin ErrHealthCheck e))
      | Ok _ => _ ← set_version (jn_PreviousVersion entry); mret (Ok tt)
      end
  else mret (Err ErrManifestInvalid).

Definition recover (healthy : bool) : U (result update_error unit) :=
  r ← os_ReadFile journalPath;
  match r with
  | Err UNotExist => mret (Ok tt)
  | Err e => mret (Err e)
  | Ok data =>
      match strictJSON decode_journal data with
      | None => mret (Err ErrManifestInvalid)
      | Some entry =>
          currentVersion ← get u_version;
          if negb (validateJournal entry currentVersion) then mret (Err ErrManifestInvalid)
          else recover_entry healthy entry
      end
  end.

(** ** Trust bundles *)

Definition ApplyTrustBundle (now : time) (ok : trust_call -> bool) (envelope : list byte) : U (result update_error unit) := fun w =>
  let '(trust, r) := Trust.Apply now ok (u_trust w) envelope in
  (mkUpdateWorld (u_files w) (u_version w) trust (u_faults w), Some match r with Ok _ => Ok tt | Err e => Err (UTrust e) end).

(** [body]: the download; [None] inside: no body. *)
Definition FetchAndApplyTrustBundle (now : time) (ok : trust_call -> bool) (rawURL : string) (body : option (option reader))
    : U (result update_error unit) :=
  if negb (allowed_url rawURL) then mret (Err (UTrust ErrTrustInvalid))
  else match body with
  | None => mret (Err UIO)
  | Some None => mret (Err (UTrust ErrTrustInvalid))
  | Some (Some body) =>
      match read_limited body (Z.shiftl 64 10 + 1) with
      | None => mret (Err UIO)
      | Some encoded =>
          if decide (Z.shiftl 64 10 < len encoded) then mret (Err (UTrust ErrTrustInvalid))
          else ApplyTrustBundle now ok encoded
      end
  end.

End Update.

(** ** Starting *)

(** The size limit when none is given. *)
Definition with_defaults (c : Config) : Config :=
  mkUpdateConfig (uc_StateRoot c) (uc_InstallPath c) (uc_Channel c) (uc_ProtocolVersion c) (uc_StoreVersion c) (uc_TrustedKeys c)
    (uc_AllowedHosts c) (uc_Fetcher c) (uc_Health c)
    (if decide (uc_MaxArtifactBytes c = 0) then Z.shiftl 256 20 else uc_MaxArtifactBytes c) (uc_Platform c).

(** [readable] is about the file of the trust store, [file] its content. *)
Definition New `{UL : UpdateLibraries} (config : Config) (currentVersion : string) (now : time) (readable : bool) (file : option (list byte)) (healthy : bool)
    : U (result update_error unit) :=
  let config := with_defaults config in
  if decide (is_abs (uc_StateRoot config) = false \/ is_abs (uc_InstallPath config) = false \/ currentVersion = ""
             \/ uc_Channel config = "" \/ uc_ProtocolVersion config = "" \/ uc_StoreVersion config < 1
             \/ uc_TrustedKeys config = ∅ \/ uc_AllowedHosts config = ∅ \/ uc_Fetcher config = false \/ uc_Health config = false
             \/ uc_MaxArtifactBytes config < 1)
  then mret (Err ErrManifestInvalid)
  else
    do? _ := idle in do? _ := idle in do? _ := idle in   (* the state directory: create, lstat, chmod *)
    do? _ := idle in do? _ := idle in                    (* the install directory: create, lstat *)
    do? _ := safeOptionalRegular (uc_InstallPath config) in
    match newTrustStore (filepath_Join (uc_StateRoot config) "update-trust.json") (uc_TrustedKeys config) now readable file with
    | Err e => mret (Err (UTrust e))
    | Ok trust => _ ← start_with currentVersion trust; recover config healthy
    end.

