(* ===== verification/UpdateTheorems.v ===== *)
(** * Updates survive a failure

    A program logic for one failure: of all the system calls of an update, one may fail or
    be the last before the process stops.  Whichever it is, a restart finds a complete
    binary at the install path.  The examples at the end show where a second failure, or
    the previous binary of an earlier update, defeat the recovery. *)

From S2P Require Import Prelude Config Wire Base64 Frame Jwks Versions Trust Update.

Abbreviation files := (gmap string node).

(** ** One failure *)

Definition one_fault (l : list call_fault) : Prop := l = [] \/ exists k f, l = replicate k CNone ++ [f].

Lemma one_fault_cons f l : one_fault (f :: l) -> (f = CNone /\ one_fault l) \/ l = [].
Proof.
  intros [?|([|k] & g & H)]; [done|..]; simpl in H; simplify_eq; [by right|]. left. split; [done|]. right. by exists k, g.
Qed.

(** The failures that may be to come: the next call is spared, or they are over after it. *)
Definition budget (B : list call_fault -> Prop) : Prop :=
  B [] /\ forall f l, B (f :: l) -> (f = CNone /\ B l) \/ l = [].

Lemma one_fault_budget : budget one_fault.
Proof. split; [by left|apply one_fault_cons]. Qed.
Lemma no_fault_budget : budget (eq []).
Proof. by split. Qed.

Section Logic.
Context {B : list call_fault -> Prop} (HB : budget B).

(** [hoare P m Q E C]: run with at most one failure to come and files satisfying [P], [m]
    succeeds with [Q]; or fails with [E], the failure being spent; or stops with [C]. *)
Definition hoare {A} (P : files -> Prop) (m : U (result update_error A)) (Q : A -> files -> Prop) (E C : files -> Prop) : Prop :=
  forall w, B (u_faults w) -> P (u_files w) ->
  match m w with
  | (w', None) => C (u_files w')
  | (w', Some (Ok a)) => Q a (u_files w') /\ B (u_faults w')
  | (w', Some (Err _)) => E (u_files w') /\ u_faults w' = []
  end.

Lemma hoare_conseq {A} (P P' : files -> Prop) (m : U (result update_error A)) (Q Q' : A -> files -> Prop) E E' C C' :
  hoare P m Q E C -> (forall f, P' f -> P f) -> (forall a f, Q a f -> Q' a f) -> (forall f, E f -> E' f) -> (forall f, C f -> C' f) ->
  hoare P' m Q' E' C'.
Proof.
  intros H HP HQ HE HC w Hf Hw. specialize (H w Hf (HP _ Hw)). destruct (m w) as [w' [[a|e]|]]; intuition eauto.
Qed.

Lemma hoare_do {A A'} P (m : U (result update_error A)) Q (k : A -> U (result update_error A')) Q' E C :
  hoare P m Q E C -> (forall a, hoare (Q a) (k a) Q' E C) -> hoare P (do? a := m in k a) Q' E C.
Proof.
  intros H Hk w Hf Hw. specialize (H w Hf Hw). unfold mbind, U_bind. destruct (m w) as [w' [[a|e]|]]; [|done..].
  destruct H as [HQ Hf']. by apply Hk.
Qed.

Lemma hoare_ok {A} (a : A) (P : files -> Prop) E C : hoare P (mret (Ok a)) (fun _ => P) E C.
Proof. by intros w Hf Hw. Qed.

(** A call that succeeds when nothing goes wrong, from [P] to [Q]. *)
Lemma hoare_call {A} (act : world -> world * result update_error A) (P : files -> Prop) (Q : A -> files -> Prop) :
  (forall w, P (u_files w) -> exists a fs, act w = (set_update_files fs w, Ok a) /\ Q a fs) ->
  hoare P (call act) Q P (fun f => P f \/ exists a, Q a f).
Proof.
  intros Hact w Hf Hw. unfold call. destruct (u_faults w) as [|f l] eqn:El.
  - destruct (Hact w Hw) as (a&fs&->&HQ). simpl. split; [done|]. rewrite El. apply HB.
  - specialize (Hact (mkUpdateWorld (u_files w) (u_version w) (u_trust w) l) Hw) as (a&fs&Ea&HQ).
    apply HB in Hf as [[-> Hf]| ->]; [rewrite Ea; by simpl|].
    destruct f; rewrite ?Ea; simpl; eauto. split; [done|]. apply HB.
Qed.

(** The same, without a change of the files. *)
Lemma hoare_look {A} (act : world -> world * result update_error A) (P : files -> Prop) (Q : A -> Prop) :
  (forall w, P (u_files w) -> exists a, act w = (w, Ok a) /\ Q a) -> hoare P (call act) (fun a f => P f /\ Q a) P P.
Proof.
  intros Hact. eapply hoare_conseq; [apply (hoare_call act P (fun a f => P f /\ Q a))|done|done|done|naive_solver].
  intros w Hw. destruct (Hact w Hw) as (a&->&HQ). exists a, (u_files w). by destruct w.
Qed.

Lemma hoare_idle P : hoare P idle (fun _ => P) P P.
Proof. eapply hoare_conseq; [apply (hoare_look _ P (fun _ => True)); eauto|done|naive_solver|done|done]. Qed.

Lemma hoare_sync P : hoare P syncDirectory (fun _ => P) P P.
Proof. apply (hoare_do _ _ (fun _ => P)); [apply hoare_idle|intros []; apply hoare_idle]. Qed.

(** What a call can do. *)
Lemma call_inv {A} (act : world -> world * result update_error A) w :
  B (u_faults w) ->
  exists w0, u_files w0 = u_files w /\
    ((B (u_faults w0) /\ call act w = ((act w0).1, Some (act w0).2)) \/
     (u_faults w0 = [] /\ call act w = (w0, Some (Err UIO))) \/
     call act w = (w0, None) \/ call act w = ((act w0).1, None)).
Proof.
  intros Hf. unfold call. destruct (u_faults w) as [|f l] eqn:El.
  - exists w. split; [done|]. left. rewrite El. split; [apply HB|]. by destruct (act w).
  - exists (mkUpdateWorld (u_files w) (u_version w) (u_trust w) l). split; [done|]. simpl.
    apply HB in Hf as [[-> Hf]| ->].
    + left. split; [done|]. by destruct (act _).
    + destruct f; [left|right; left|right; right; left|right; right; right]; [split; [apply HB|]; by destruct (act _)|done..].
Qed.

Lemma hoare_remove P path :
  hoare P (remove_existing path) (fun _ f => exists f0, P f0 /\ f = delete path f0) P
    (fun f => P f \/ exists f0, P f0 /\ f = delete path f0).
Proof.
  intros w Hf Hw. unfold remove_existing, os_Remove, mbind, U_bind, mret, U_ret.
  set (act := fun w : world => match u_files w !! path with None => (w, Err UNotExist) | Some _ => (set_update_files (delete path (u_files w)) w, Ok tt) end).
  destruct (call_inv act w Hf) as (w0&E0&[[Hf0 ->]|[[Hf0 ->]|[->| ->]]]); simpl; rewrite ?E0; auto.
  - unfold act. destruct (u_files w0 !! path) eqn:E; simpl; rewrite ?E0; (split; [|done]); exists (u_files w).
    + done.
    + split; [done|]. rewrite delete_id; congruence.
  - unfold act. destruct (u_files w0 !! path) eqn:E; simpl; rewrite ?E0; [right; eauto|auto].
Qed.

Lemma hoare_safe P path :
  (forall f, P f -> f !! path <> Some Other) -> hoare P (safeOptionalRegular path) (fun _ => P) P P.
Proof.
  intros HP w Hf Hw. unfold safeOptionalRegular, os_Stat, mbind, U_bind, mret, U_ret.
  set (act := fun w : world => match u_files w !! path with None => (w, Err UNotExist) | Some n => (w, Ok n) end).
  assert (Hact : forall w, (act w).1 = w) by (intros w0; unfold act; by destruct (u_files w0 !! path)).
  destruct (call_inv act w Hf) as (w0&E0&[[Hf0 ->]|[[Hf0 ->]|[->| ->]]]); simpl; rewrite ?Hact, ?E0; auto.
  specialize (HP _ Hw). rewrite <- E0 in *. unfold act. destruct (u_files w0 !! path) as [[]|]; simpl; auto. done.
Qed.

(** *** Runs without a failure *)

Lemma call_clean {A} (act : world -> world * result update_error A) w :
  u_faults w = [] -> call act w = ((act w).1, Some (act w).2).
Proof. unfold call. intros ->. by destruct (act w). Qed.

Section Recovery.
Context `{UL : UpdateLibraries}.
Variable config : Config.

Let I := uc_InstallPath config.
Let P := previousPath config.
Let J := journalPath config.

Definition at_files (w : world) (fs : files) : world := mkUpdateWorld fs (u_version w) (u_trust w) [].

Ltac clean := repeat (unfold syncDirectory, idle, os_Stat, os_Rename, os_ReadFile, os_Remove, remove_existing, removeAndSync, safeOptionalRegular,
  safeRequiredRegular, mbind, U_bind, mret, U_ret in *; rewrite ?call_clean by (simpl; done); cbn [fst snd u_files u_faults u_version u_trust set_update_files]).

Lemma remove_clean path w : u_faults w = [] ->
  remove_existing path w = (at_files w (delete path (u_files w)), Some (Ok tt)).
Proof.
  intros Hf. clean. unfold at_files. destruct (u_files w !! path) eqn:E; simpl; [by destruct w; simpl in *; subst|].
  rewrite delete_id by done. by destruct w; simpl in *; subst.
Qed.

Lemma sync_clean w : u_faults w = [] -> syncDirectory w = (w, Some (Ok tt)).
Proof. intros Hf. by clean. Qed.

Lemma stat_clean path n w : u_faults w = [] -> u_files w !! path = Some n -> os_Stat path w = (w, Some (Ok n)).
Proof. intros Hf E. clean. by rewrite E. Qed.

Lemma rename_clean a b n w : u_faults w = [] -> u_files w !! a = Some n ->
  os_Rename a b w = (at_files w (<[b := n]> (delete a (u_files w))), Some (Ok tt)).
Proof. intros Hf E. clean. rewrite E. unfold at_files. by destruct w; simpl in *; subst. Qed.

Lemma at_files_faults w fs : u_faults (at_files w fs) = [].
Proof. done. Qed.
Lemma at_files_twice w f1 f2 : at_files (at_files w f1) f2 = at_files w f2.
Proof. done. Qed.

Lemma rollback_clean w x :
  u_faults w = [] -> I <> P -> u_files w !! P = Some (Regular x) ->
  rollback config w = (at_files w (delete J (<[I := Regular x]> (delete P (delete I (u_files w))))), Some (Ok tt)).
Proof.
  intros Hf HIP HP. unfold rollback. fold I P J.
  assert (Hsafe : safeRequiredRegular P w = (w, Some (Ok tt))).
  { unfold safeRequiredRegular, safeOptionalRegular, mbind, U_bind, mret, U_ret. rewrite (stat_clean P _ w Hf HP). simpl.
    by rewrite (stat_clean P _ w Hf HP). }
  unfold mbind, U_bind, mret, U_ret. rewrite Hsafe. rewrite (remove_clean I w Hf).
  rewrite (stat_clean P (Regular x)) by (first [done | simpl; by rewrite lookup_delete_ne]).
  rewrite (rename_clean P I (Regular x)) by (first [done | simpl; by rewrite lookup_delete_ne]).
  rewrite sync_clean by done. unfold removeAndSync, mbind, U_bind. rewrite remove_clean by done. by rewrite sync_clean by done.
Qed.

(** ** What a stopped update leaves, and what recovery makes of it *)

Definition journal_utf8 (e : journal) : Prop :=
  utf8_Valid (String.list_byte_of_string (jn_State e)) = true /\ utf8_Valid (String.list_byte_of_string (jn_Version e)) = true /\
  utf8_Valid (String.list_byte_of_string (jn_PreviousVersion e)) = true /\ utf8_Valid (String.list_byte_of_string (jn_StagedPath e)) = true.

(** A journal of valid UTF-8 strings is encoded, and decoded to itself. *)
Class UpdateLaws := journal_roundtrip : forall e, journal_utf8 e ->
  exists d, encode_journal e = Some d /\ strictJSON decode_journal d = Some e.
Context `{Laws : UpdateLaws}.

(** The update from [previous] to [version], staged at [S]. *)
Variables (S version previous : string) (old new : list byte) (p0 : option (list byte)) (j0 : option node).

(** The four paths differ; the versions and the staged path are what [verify] and
    [os.CreateTemp] give. *)
Record setting : Prop := {
  set_paths : NoDup [I; P; J; S];
  set_staged : safeStagedPath S (installDirectory config) = true;
  set_utf8 : utf8_Valid (String.list_byte_of_string version) = true /\ utf8_Valid (String.list_byte_of_string previous) = true
             /\ utf8_Valid (String.list_byte_of_string S) = true;
  set_versions : validVersion version = true /\ validVersion previous = true /\ 0 < compareVersion version previous;
  set_idle : j0 = None \/ exists d e, j0 = Some (Regular d) /\ strictJSON decode_journal d = Some e /\ jn_State e = "committed"
               /\ validateJournal config e previous = true
}.

Definition entry (state staged : string) : journal := mkUpdateJournal state version previous staged.
Definition entry_file (state staged : string) : option node := Some (Regular (default [] (encode_journal (entry state staged)))).

(** The files that an interrupted update can leave at the install path, at the previous
    path and in the journal. *)
Inductive recoverable : option node -> option node -> option node -> Prop :=
| RIdle : recoverable (Some (Regular old)) (Regular <$> p0) j0
| RStaged : recoverable (Some (Regular old)) (Regular <$> p0) (entry_file "staged" S)
| RBacking p : p = Regular <$> p0 \/ p = None -> recoverable (Some (Regular old)) p (entry_file "backing_up" S)
| RMoved : recoverable None (Some (Regular old)) (entry_file "backing_up" S)
| RActivating i : i = None \/ i = Some (Regular new) -> recoverable i (Some (Regular old)) (entry_file "activating" S)
| RChecking : recoverable (Some (Regular new)) (Some (Regular old)) (entry_file "checking" "")
| RCommitted : recoverable (Some (Regular new)) (Some (Regular old)) (entry_file "committed" "")
| RBack : recoverable (Some (Regular old)) None None.

Definition left_behind (fs : files) : Prop := recoverable (fs !! I) (fs !! P) (fs !! J).

Section Setting.
Hypothesis Hset : setting.

Definition five : list string := ["staged"; "backing_up"; "activating"; "checking"; "committed"].

Lemma entry_encoded state staged :
  state ∈ five -> staged = S \/ staged = "" ->
  exists d, encode_journal (entry state staged) = Some d /\ entry_file state staged = Some (Regular d)
    /\ strictJSON decode_journal d = Some (entry state staged).
Proof.
  intros Hs Ht. destruct (set_utf8 Hset) as (U1&U2&U3).
  destruct (journal_roundtrip (entry state staged)) as (d&E1&E2).
  { unfold journal_utf8. cbn [entry jn_State jn_Version jn_PreviousVersion jn_StagedPath]. split_and!; [|done|done|by destruct Ht; subst].
    unfold five in Hs. set_unfold in Hs. destruct_or! Hs; subst; by vm_compute. }
  exists d. unfold entry_file. rewrite E1. done.
Qed.

Lemma entry_valid state staged cv :
  (state ∈ ["staged"; "backing_up"; "activating"] /\ staged = S) \/ (state ∈ ["checking"; "committed"] /\ staged = "") ->
  cv = previous \/ cv = version -> validateJournal config (entry state staged) cv = true.
Proof.
  intros Hs Hcv. destruct (set_versions Hset) as (V1&V2&V3). unfold validateJournal. cbn [entry jn_State jn_Version jn_PreviousVersion jn_StagedPath].
  rewrite V1, V2, !bool_decide_eq_true_2 by (done || tauto). cbn [andb].
  destruct Hs as [[Hs ->]|[Hs ->]]; set_unfold in Hs.
  - rewrite decide_True by tauto. apply (set_staged Hset).
  - rewrite decide_False by (destruct_or! Hs; subst; naive_solver). apply bool_decide_eq_true_2. split; [tauto|done].
Qed.

Lemma paths : I <> P /\ I <> J /\ P <> J /\ S <> I /\ S <> P /\ S <> J.
Proof.
  pose proof (set_paths Hset) as H. rewrite !NoDup_cons in H. destruct H as (H1&H2&H3&_). set_unfold in H1. set_unfold in H2. set_unfold in H3.
  split_and!; intros E; rewrite E in *; tauto.
Qed.

Lemma removeStaged_clean w : u_faults w = [] ->
  removeStaged config S w = (at_files w (delete S (u_files w)), Some (Ok tt)).
Proof.
  intros Hf. unfold removeStaged. rewrite (set_staged Hset). simpl. unfold mbind, U_bind. rewrite remove_clean by done.
  by rewrite sync_clean by done.
Qed.

Lemma removeAndSync_clean path w : u_faults w = [] ->
  removeAndSync path w = (at_files w (delete path (u_files w)), Some (Ok tt)).
Proof. intros Hf. unfold removeAndSync, mbind, U_bind. rewrite remove_clean by done. by rewrite sync_clean by done. Qed.

(** [recover] once the journal is read. *)
Lemma recover_read w d e :
  u_faults w = [] -> u_files w !! J = Some (Regular d) -> strictJSON decode_journal d = Some e ->
  validateJournal config e (u_version w) = true -> recover config true w = recover_entry config true e w.
Proof.
  intros Hf E Ed Hv. unfold recover, os_ReadFile, mbind, U_bind, get. fold J. rewrite call_clean, E by done. cbn [fst snd].
  by rewrite Ed, Hv.
Qed.

Lemma recover_at state staged w :
  u_faults w = [] -> u_version w = previous \/ u_version w = version -> u_files w !! J = entry_file state staged ->
  (state ∈ ["staged"; "backing_up"; "activating"] /\ staged = S) \/ (state ∈ ["checking"; "committed"] /\ staged = "") ->
  recover config true w = recover_entry config true (entry state staged) w.
Proof.
  intros Hf Hv HJ Hs. destruct (entry_encoded state staged) as (d&_&EJ&Ed); [unfold five; set_solver|tauto|].
  rewrite EJ in HJ. by apply (recover_read w d); [..|apply entry_valid].
Qed.

Definition recovered (w : world) : Prop :=
  exists w' x, recover config true w = (w', Some (Ok tt)) /\ u_files w' !! I = Some (Regular x)
    /\ (x = old \/ x = new \/ p0 = Some x).

Ltac distinct := destruct paths as (?&?&?&?&?&?); rewrite ?lookup_delete_ne, ?lookup_insert_eq, ?lookup_insert_ne by done.

Lemma recovered_staged w :
  u_faults w = [] -> u_version w = previous \/ u_version w = version ->
  u_files w !! J = entry_file "staged" S -> u_files w !! I = Some (Regular old) -> recovered w.
Proof.
  intros Hf Hv HJ HI. exists (at_files w (delete J (delete S (u_files w)))), old. split_and!; [|simpl; by distinct|by left].
  rewrite (recover_at "staged" S) by (done || left; set_solver). unfold recover_entry. cbn [entry jn_State jn_StagedPath].
  rewrite decide_True by done. unfold mbind, U_bind. rewrite removeStaged_clean by done. by rewrite removeAndSync_clean by done.
Qed.

(** After a rollback the staged file goes too. *)
Lemma rolled_back w x :
  u_faults w = [] -> u_files w !! P = Some (Regular x) ->
  exists w', (do? _ := rollback config in removeStaged config S) w = (w', Some (Ok tt)) /\ u_files w' !! I = Some (Regular x).
Proof.
  intros Hf HP. destruct paths as (?&?&?&?&?&?). unfold mbind, U_bind. rewrite (rollback_clean w x) by done.
  rewrite removeStaged_clean by done. eexists. split; [done|]. simpl. by distinct.
Qed.

Lemma recovered_backing w p :
  u_faults w = [] -> u_version w = previous \/ u_version w = version ->
  u_files w !! J = entry_file "backing_up" S -> u_files w !! P = p ->
  match p with
  | Some (Regular x) => x = old \/ p0 = Some x
  | Some Other => False
  | None => u_files w !! I = Some (Regular old)
  end -> recovered w.
Proof.
  intros Hf Hv HJ HP Hp. unfold recovered. rewrite (recover_at "backing_up" S) by (done || left; set_solver).
  unfold recover_entry. cbn [entry jn_State jn_StagedPath]. rewrite decide_False, decide_True by done.
  destruct p as [[x|]|]; [|done|].
  - unfold mbind at 1, U_bind at 1. fold P. rewrite (stat_clean P (Regular x)) by done.
    destruct (rolled_back w x Hf HP) as (w'&E&HI). exists w', x. split_and!; [done|done|tauto].
  - exists (at_files w (delete J (delete S (u_files w)))), old. split_and!; [|simpl; by distinct|by left].
    unfold mbind, U_bind, os_Stat. fold P. rewrite call_clean, HP by done. cbn [fst snd].
    rewrite removeStaged_clean by done. by rewrite removeAndSync_clean by done.
Qed.

Lemma recovered_activating w :
  u_faults w = [] -> u_version w = previous \/ u_version w = version ->
  u_files w !! J = entry_file "activating" S -> u_files w !! P = Some (Regular old) -> recovered w.
Proof.
  intros Hf Hv HJ HP. unfold recovered. rewrite (recover_at "activating" S) by (done || left; set_solver).
  unfold recover_entry. cbn [entry jn_State jn_StagedPath]. rewrite !decide_False, decide_True by (done || by left).
  destruct (rolled_back w old Hf HP) as (w'&E&HI). exists w', old. split_and!; [|done|by left].
  rewrite <- E. unfold mbind, U_bind. destruct (rollback config w) as [? [[[]|]|]]; [|done..].
  rewrite decide_True; [done|]. intros HS. pose proof (set_staged Hset) as H. rewrite HS in H. unfold safeStagedPath in H. by simpl in H.
Qed.

Lemma recovered_checking w :
  u_faults w = [] -> u_version w = previous \/ u_version w = version ->
  u_files w !! J = entry_file "checking" "" -> u_files w !! P = Some (Regular old) -> recovered w.
Proof.
  intros Hf Hv HJ HP. destruct paths as (?&?&?&?&?&?). unfold recovered. rewrite (recover_at "checking" "") by (done || right; set_solver).
  unfold recover_entry. cbn [entry jn_State jn_StagedPath]. rewrite !decide_False, decide_True by (done || by right).
  unfold mbind, U_bind. rewrite (rollback_clean w old) by done. rewrite decide_False by auto.
  eexists _, old. split_and!; [done| |by left]. simpl. by distinct.
Qed.

Lemma recovered_committed w e x :
  u_faults w = [] -> jn_State e = "committed" -> u_files w !! I = Some (Regular x) ->
  exists w', recover_entry config true e w = (w', Some (Ok tt)) /\ u_files w' !! I = Some (Regular x).
Proof.
  intros Hf He HI. unfold recover_entry. rewrite He. rewrite !decide_False, decide_True by (done || intros [?|?]; done).
  unfold mbind, U_bind, safeOptionalRegular, mret, U_ret, idle. fold I. unfold mbind, U_bind. rewrite (stat_clean I (Regular x)) by done.
  rewrite call_clean by done. cbn [fst snd]. eexists. split; [done|]. done.
Qed.

(** Whatever an interrupted update leaves, a start without failures repairs. *)
Lemma recovers w :
  u_faults w = [] -> left_behind (u_files w) ->
  u_version w = previous \/ (u_version w = version /\ u_files w !! I <> Some (Regular old)) -> recovered w.
Proof.
  intros Hf Hl Hv.
  assert (Hv' : u_version w = previous \/ u_version w = version) by tauto. unfold left_behind in Hl.
  inversion Hl as [E1 E2 E3|E1 E2 E3|p Hp E1 E2 E3|E1 E2 E3|i Hi E1 E2 E3|E1 E2 E3|E1 E2 E3|E1 E2 E3]; symmetry in E1, E2, E3.
  - destruct Hv as [Hv|[_ ?]]; [|done]. destruct (set_idle Hset) as [H0|(d&e&H0&Ed&Es&Hval)]; rewrite H0 in E3.
    + exists w, old. split_and!; [|done|by left]. unfold recover, mbind, U_bind, os_ReadFile. fold J. by rewrite call_clean, E3 by done.
    + destruct (recovered_committed w e old Hf Es E1) as (w'&E&HI). exists w', old. split_and!; [|done|by left].
      rewrite <- E. apply (recover_read w d); [done|done|done|by rewrite Hv].
  - by apply recovered_staged.
  - apply (recovered_backing w (u_files w !! P)); try done. destruct Hp as [Hp|Hp]; rewrite Hp; [|done]. destruct p0; simpl; [by right|done].
  - apply (recovered_backing w (Some (Regular old))); try done. by left.
  - by apply recovered_activating.
  - by apply recovered_checking.
  - destruct (recovered_committed w (entry "committed" "") new Hf eq_refl E1) as (w'&E&HI). exists w', new. split_and!; [|done|tauto].
    rewrite <- E. apply recover_at; (done || right; set_solver).
  - exists w, old. split_and!; [|done|by left]. unfold recover, mbind, U_bind, os_ReadFile. fold J. by rewrite call_clean, E3 by done.
Qed.

(** ** The swap, step by step *)

Definition at4 (i p j s : option node) (f : files) : Prop := f !! I = i /\ f !! P = p /\ f !! J = j /\ f !! S = s.

Abbreviation L := left_behind.
Abbreviation Old := (Some (Regular old)).
Abbreviation New_ := (Some (Regular new)).
Abbreviation P0 := (Regular <$> p0).

Lemma at4_left i p j s f : at4 i p j s f -> recoverable i p j -> L f.
Proof. intros (E1&E2&E3&_) H. unfold left_behind. by rewrite E1, E2, E3. Qed.

Lemma hoare_journal i p j s state staged :
  state ∈ five -> staged = S \/ staged = "" ->
  hoare (at4 i p j s) (writeJournal config (entry state staged)) (fun _ => at4 i p (entry_file state staged) s)
    (fun f => at4 i p j s f \/ at4 i p (entry_file state staged) s f) (fun f => at4 i p j s f \/ at4 i p (entry_file state staged) s f).
Proof.
  intros Hs Ht. destruct (entry_encoded state staged Hs Ht) as (d&Ee&Ef&_). destruct paths as (?&?&?&?&?&?).
  unfold writeJournal. rewrite Ee. rewrite Ef.
  do 5 (apply (hoare_do _ _ (fun _ => at4 i p j s)); [eapply hoare_conseq; [apply hoare_idle|done|done|by left|by left]|intros []]).
  apply (hoare_do _ _ (fun _ => at4 i p (Some (Regular d)) s)).
  - eapply hoare_conseq; [apply (hoare_call _ (at4 i p j s) (fun _ => at4 i p (Some (Regular d)) s))|done|done|by left|naive_solver].
    intros w (E1&E2&E3&E4). eexists _, _. split; [done|]. fold J. unfold at4. by distinct.
  - intros []. eapply hoare_conseq; [apply hoare_sync|done|done|by right|by right].
Qed.

Definition back (f : files) : Prop := f !! I = Old /\ f !! P = None /\ f !! J = None.

Lemma back_left f : back f -> L f.
Proof. intros (E1&E2&E3). unfold left_behind. rewrite E1, E2, E3. constructor. Qed.

(** A spent failure with the old binary at the previous path: the rollback restores it. *)
Lemma rollback_back w : u_faults w = [] -> u_files w !! P = Old ->
  exists w', rollback config w = (w', Some (Ok tt)) /\ back (u_files w') /\ u_faults w' = [].
Proof.
  intros Hf HP. destruct paths as (?&?&?&?&?&?). rewrite (rollback_clean w old) by done. eexists. split; [done|]. split; [|done].
  unfold back. simpl. distinct. split_and!; [done| |by rewrite lookup_delete_eq]. by rewrite lookup_delete_eq.
Qed.

Lemma hoare_or_rollback (Pm : files -> Prop) m Q (Em C : files -> Prop) :
  hoare Pm m Q Em C -> (forall f, Em f -> f !! P = Old) -> (forall f, C f -> L f) ->
  hoare Pm (or_rollback config m) (fun _ f => Q tt f) L L.
Proof.
  intros H HE HC w Hf Hw. specialize (H w Hf Hw). unfold or_rollback, mbind, U_bind, mret, U_ret.
  destruct (m w) as [w' [[[]|e]|]]; [done| |auto]. destruct H as [H1 H2].
  destruct (rollback_back w' H2 (HE _ H1)) as (w2&->&Hb&?). split; [by apply back_left|done].
Qed.

Lemma recoverable_backing : recoverable Old P0 (entry_file "backing_up" S) /\ recoverable Old None (entry_file "backing_up" S).
Proof. split; apply RBacking; auto. Qed.

Lemma recoverable_activating i : i = None \/ i = New_ -> recoverable i Old (entry_file "activating" S).
Proof. apply RActivating. Qed.

(** From the staged file to the moved old binary. *)
Definition swap_first (a : answers) : U (result update_error unit) :=
  do? _ := writeJournal config (entry "staged" S) in
  do? _ := writeJournal config (entry "backing_up" S) in
  do? _ := safeOptionalRegular P in
  do? _ := remove_existing P in
  r ← os_Stat I;
  do? _ := match r with
           | Ok _ => os_Rename I P
           | Err UNotExist => mret (Ok tt)
           | Err e => mret (Err e)
           end in
  do? _ := or_rollback config syncDirectory in
  do? _ := or_rollback config (writeJournal config (entry "activating" S)) in
  or_rollback config (os_Rename S I).

Lemma hoare_rename a b (Pm Qm : files -> Prop) :
  (forall f, Pm f -> exists n, f !! a = Some n /\ Qm (<[b := n]> (delete a f))) ->
  hoare Pm (os_Rename a b) (fun _ => Qm) Pm (fun f => Pm f \/ Qm f).
Proof.
  intros H. eapply hoare_conseq; [apply (hoare_call _ Pm (fun _ => Qm))|done|done|done|naive_solver].
  intros w Hw. destruct (H _ Hw) as (n&E&HQ). rewrite E. eauto.
Qed.

Lemma hoare_move : hoare (at4 Old None (entry_file "backing_up" S) New_)
  (r ← os_Stat I;
   match r with
   | Ok _ => os_Rename I P
   | Err UNotExist => mret (Ok tt)
   | Err e => mret (Err e)
   end)
  (fun _ => at4 None Old (entry_file "backing_up" S) New_) L L.
Proof.
  destruct paths as (?&?&?&?&?&?).
  assert (Hr : hoare (at4 Old None (entry_file "backing_up" S) New_) (os_Rename I P)
                 (fun _ => at4 None Old (entry_file "backing_up" S) New_) L L).
  { eapply hoare_conseq; [apply (hoare_rename I P _ (at4 None Old (entry_file "backing_up" S) New_))|done|done| |].
    - intros f (E1&E2&E3&E4). exists (Regular old). split; [done|]. unfold at4.
      rewrite lookup_insert_ne, lookup_delete_eq by done. rewrite lookup_insert_eq, !lookup_insert_ne, !lookup_delete_ne by done. done.
    - intros f Hf. apply (at4_left _ _ _ _ _ Hf). apply recoverable_backing.
    - intros f [Hf|Hf]; apply (at4_left _ _ _ _ _ Hf); [apply recoverable_backing|constructor]. }
  intros w Hf Hw. unfold mbind, U_bind, os_Stat.
  set (act := fun w : world => match u_files w !! I with None => (w, Err UNotExist) | Some n => (w, Ok n) end).
  assert (HL : L (u_files w)) by (apply (at4_left _ _ _ _ _ Hw), recoverable_backing).
  assert (Hact : forall w0, u_files w0 = u_files w -> act w0 = (w0, Ok (Regular old))).
  { intros w0 E0. unfold act. rewrite E0. by rewrite (proj1 Hw). }
  destruct (call_inv act w Hf) as (w0&E0&[[Hf0 ->]|[[Hf0 ->]|[->| ->]]]); rewrite ?Hact by done; cbn [fst snd]; rewrite ?E0; auto.
  - apply Hr; [done|by rewrite E0].
  - unfold mret, U_ret. by rewrite E0.
Qed.

Lemma do_assoc {A A1 A2} (m : U A) (g : A -> U (result update_error A1)) (k : A1 -> U (result update_error A2)) w :
  (r ← m; do? x := g r in k x) w = (do? x := (r ← m; g r) in k x) w.
Proof. unfold mbind, U_bind. by destruct (m w) as [w' [r|]]. Qed.

Lemma hoare_ext {A} (Pm : files -> Prop) (m m' : U (result update_error A)) Q E C :
  (forall w, m w = m' w) -> hoare Pm m' Q E C -> hoare Pm m Q E C.
Proof. intros Hm H w Hf Hw. rewrite Hm. by apply H. Qed.

Lemma hoare_first a : hoare (at4 Old P0 j0 New_) (swap_first a) (fun _ => at4 New_ Old (entry_file "activating" S) None) L L.
Proof.
  destruct paths as (?&?&?&?&?&?). destruct recoverable_backing as [Rb0 Rb1]. unfold swap_first.
  apply (hoare_do _ _ (fun _ => at4 Old P0 (entry_file "staged" S) New_)).
  { eapply hoare_conseq; [apply hoare_journal; [set_solver|by left]|done|done|..];
      intros f [Hf|Hf]; apply (at4_left _ _ _ _ _ Hf); constructor. }
  intros []. apply (hoare_do _ _ (fun _ => at4 Old P0 (entry_file "backing_up" S) New_)).
  { eapply hoare_conseq; [apply hoare_journal; [set_solver|by left]|done|done|..];
      (intros f [Hf|Hf]; apply (at4_left _ _ _ _ _ Hf); [constructor|done]). }
  intros []. apply (hoare_do _ _ (fun _ => at4 Old P0 (entry_file "backing_up" S) New_)).
  { eapply hoare_conseq; [apply hoare_safe|done|done|..].
    - intros f (_&E&_). rewrite E. by destruct p0.
    - intros f Hf. by apply (at4_left _ _ _ _ _ Hf).
    - intros f Hf. by apply (at4_left _ _ _ _ _ Hf). }
  intros []. apply (hoare_do _ _ (fun _ => at4 Old None (entry_file "backing_up" S) New_)).
  { assert (Hrm : forall f0, at4 Old P0 (entry_file "backing_up" S) New_ f0 -> at4 Old None (entry_file "backing_up" S) New_ (delete P f0)).
    { intros f0 (E1&E2&E3&E4). unfold at4. rewrite lookup_delete_eq, !lookup_delete_ne by done. done. }
    eapply hoare_conseq; [apply (hoare_remove (at4 Old P0 (entry_file "backing_up" S) New_))|done|..].
    - intros [] f (f0&Hf0&->). by apply Hrm.
    - intros f Hf. by apply (at4_left _ _ _ _ _ Hf).
    - intros f [Hf|(f0&Hf0&->)]; [by apply (at4_left _ _ _ _ _ Hf)|]. by apply (at4_left _ _ _ _ _ (Hrm _ Hf0)). }
  intros []. eapply hoare_ext; [intros w; apply do_assoc|].
  apply (hoare_do _ _ _ _ _ _ _ hoare_move). intros [].
  apply (hoare_do _ _ (fun _ => at4 None Old (entry_file "backing_up" S) New_)).
  { eapply hoare_conseq; [eapply hoare_or_rollback; [apply hoare_sync|..]|..]; [| |done|done|done|done].
    - by intros f (_&E&_).
    - intros f Hf. apply (at4_left _ _ _ _ _ Hf). constructor. }
  intros []. apply (hoare_do _ _ (fun _ => at4 None Old (entry_file "activating" S) New_)).
  { eapply hoare_conseq; [eapply hoare_or_rollback; [apply hoare_journal; [set_solver|by left]|..]|..]; [| |done|done|done|done].
    - by intros f [(_&E&_)|(_&E&_)].
    - intros f [Hf|Hf]; apply (at4_left _ _ _ _ _ Hf); constructor. by left. }
  intros []. eapply (hoare_or_rollback _ _ (fun _ => at4 New_ Old (entry_file "activating" S) None)).
  - apply (hoare_rename S I _ (at4 New_ Old (entry_file "activating" S) None)).
    intros f (E1&E2&E3&E4). exists (Regular new). split; [done|]. unfold at4.
    rewrite lookup_insert_eq, !lookup_insert_ne, lookup_delete_eq, !lookup_delete_ne by done. done.
  - by intros f (_&E&_).
  - intros f [Hf|Hf]; apply (at4_left _ _ _ _ _ Hf); constructor; auto.
Qed.

(** From the installed new binary to the commit. *)
Definition done_ (f : files) : Prop := f !! I = New_ /\ f !! P = Old /\ f !! J = entry_file "committed" "".

Lemma hoare_installed a :
  an_installed_ok a = true \/ (forall l, B l -> l = []) ->
  hoare (at4 New_ Old (entry_file "activating" S) None)
    (do? _ := or_rollback config syncDirectory in check_installed config a version previous)
    (fun _ f => an_installed_ok a = true /\ done_ f) L L.
Proof.
  intros Hok. apply (hoare_do _ _ (fun _ => at4 New_ Old (entry_file "activating" S) None)).
  { eapply hoare_conseq; [eapply hoare_or_rollback; [apply hoare_sync|..]|..]; [| |done|done|done|done].
    - by intros f (_&E&_).
    - intros f Hf. apply (at4_left _ _ _ _ _ Hf). constructor. by right. }
  intros []. unfold check_installed. change (mkUpdateJournal ?s version previous "") with (entry s "").
  apply (hoare_do _ _ (fun _ => at4 New_ Old (entry_file "checking" "") None)).
  { eapply hoare_conseq; [eapply hoare_or_rollback; [apply hoare_journal; [set_solver|by right]|..]|..]; [| |done|done|done|done].
    - by intros f [(_&E&_)|(_&E&_)].
    - intros f [Hf|Hf]; apply (at4_left _ _ _ _ _ Hf); constructor. by right. }
  intros [] w Hf Hw.
  pose proof (hoare_idle (at4 New_ Old (entry_file "checking" "") None) w Hf Hw) as Hi.
  unfold mbind at 1, U_bind at 1. destruct (idle w) as [w1 [h|]]; [|apply (at4_left _ _ _ _ _ Hi); constructor].
  assert (Hbad : u_faults w1 = [] -> at4 New_ Old (entry_file "checking" "") None (u_files w1) ->
    match (r ← rollback config; mret (Err (A := unit) (match r with Err e => UJoin ErrHealthCheck e | Ok _ => ErrHealthCheck end))) w1 with
    | (w', None) => L (u_files w')
    | (w', Some (Ok _)) => (an_installed_ok a = true /\ done_ (u_files w')) /\ B (u_faults w')
    | (w', Some (Err _)) => L (u_files w') /\ u_faults w' = []
    end).
  { intros Hs (_&EP&_). unfold mbind, U_bind, mret, U_ret. destruct (rollback_back w1 Hs EP) as (w2&->&Hb&?). split; [by apply back_left|done]. }
  destruct h as [[]|e]; destruct Hi as [Hi1 Hi2]; [|by apply Hbad].
  destruct (an_installed_ok a) eqn:Ea; [|apply Hbad; [|done]; destruct Hok as [?|Hok]; [done|by apply Hok]].
  pose proof (hoare_journal New_ Old (entry_file "checking" "") None "committed" "" ltac:(set_solver) ltac:(by right) w1 Hi2 Hi1) as Hj.
  unfold mbind, U_bind. destruct (writeJournal config (entry "committed" "") w1) as [w2 [[[]|e]|]].
  - destruct Hj as [(E1&E2&E3&_) Hb]. unfold set_version, mret, U_ret. simpl. split; [|done]. split; [done|]. by unfold done_.
  - destruct Hj as [[Hj|Hj] Hb]; (split; [|done]); apply (at4_left _ _ _ _ _ Hj); constructor.
  - destruct Hj as [Hj|Hj]; apply (at4_left _ _ _ _ _ Hj); constructor.
Qed.

Lemma swap_split a w :
  swap config a S version previous w =
  (r ← swap_first a;
   match r with
   | Err e => mret (true, Err e)
   | Ok _ => r ← (do? _ := or_rollback config syncDirectory in check_installed config a version previous); mret (false, r)
   end) w.
Proof. done. Qed.

(** The whole swap: committed, or undone, or recoverable. *)
Lemma swap_spec a w :
  an_installed_ok a = true \/ (forall l, B l -> l = []) -> B (u_faults w) -> at4 Old P0 j0 New_ (u_files w) ->
  match swap config a S version previous w with
  | (w', None) => L (u_files w')
  | (w', Some (keep, Ok _)) => done_ (u_files w') /\ B (u_faults w')
  | (w', Some (keep, Err _)) => L (u_files w') /\ B (u_faults w')
  end.
Proof.
  intros Hok Hf Hw. rewrite swap_split. unfold mbind at 1, U_bind at 1.
  pose proof (hoare_first a w Hf Hw) as H1. destruct (swap_first a w) as [w1 [[[]|e]|]]; [| |done].
  - destruct H1 as [H1 Hb1]. pose proof (hoare_installed a Hok w1 Hb1 H1) as H2. unfold mbind at 1, U_bind at 1.
    destruct ((do? _ := or_rollback config syncDirectory in check_installed config a version previous) w1) as [w2 [[[]|e]|]]; [..|done]; unfold mret, U_ret.
    + by destruct H2 as [[_ ?] ?].
    + destruct H2 as [H2 Hs]. split; [done|]. rewrite Hs. apply HB.
  - unfold mret, U_ret. destruct H1 as [H1 Hs]. split; [done|]. rewrite Hs. apply HB.
Qed.

Lemma done_left f : done_ f -> L f.
Proof. intros (E1&E2&E3). unfold left_behind. rewrite E1, E2, E3. constructor. Qed.

End Setting.
End Recovery.

(** ** What happens before the swap touches one path only *)

Section Quiet.
Variable S : string.

Definition off (f f' : files) : Prop := forall path, path <> S -> f' !! path = f !! path.

#[local] Instance off_preorder : PreOrder off.
Proof. split; [by intros f path|]. intros f1 f2 f3 H1 H2 path Hp. by rewrite H2, H1. Qed.

Definition quiet {A} (m : U A) : Prop := forall w, B (u_faults w) ->
  off (u_files w) (u_files (m w).1) /\ (forall a, (m w).2 = Some a -> B (u_faults (m w).1)).

Lemma quiet_ret {A} (a : A) : quiet (mret a).
Proof. intros w Hf. by split. Qed.

Lemma quiet_bind {A A'} (m : U A) (k : A -> U A') : quiet m -> (forall a, quiet (k a)) -> quiet (a ← m; k a).
Proof.
  intros Hm Hk w Hf. unfold mbind, U_bind. destruct (Hm w Hf) as [H1 H2]. destruct (m w) as [w1 [a|]]; simpl in *; [|done].
  destruct (Hk a w1 (H2 a eq_refl)) as [H3 H4]. split; [by etrans|done].
Qed.

Lemma quiet_do {A A'} (m : U (result update_error A)) (k : A -> U (result update_error A')) :
  quiet m -> (forall a, quiet (k a)) -> quiet (do? a := m in k a).
Proof. intros Hm Hk. apply quiet_bind; [done|]. intros [a|e]; [done|apply quiet_ret]. Qed.

Lemma quiet_call {A} (act : world -> world * result update_error A) :
  (forall w, off (u_files w) (u_files (act w).1) /\ u_faults (act w).1 = u_faults w) -> quiet (call act).
Proof.
  intros Hact w Hf. destruct (call_inv act w Hf) as (w0&E0&[[Hf0 ->]|[[Hf0 ->]|[->| ->]]]); simpl; rewrite <- E0;
    destruct (Hact w0) as [H1 H2]; split; try done.
  - intros _ _. by rewrite H2.
  - intros _ _. rewrite Hf0. apply HB.
Qed.

Lemma quiet_stat path : quiet (os_Stat path).
Proof. apply quiet_call. intros w. by destruct (u_files w !! path). Qed.
Lemma quiet_read path : quiet (os_ReadFile path).
Proof. apply quiet_call. intros w. by destruct (u_files w !! path) as [[]|]. Qed.
Lemma quiet_idle : quiet idle.
Proof. by apply quiet_call. Qed.
Lemma quiet_remove : quiet (os_Remove S).
Proof. apply quiet_call. intros w. destruct (u_files w !! S); simpl; split; try done. intros path Hp. by rewrite lookup_delete_ne. Qed.
Lemma quiet_write data : quiet (os_WriteFile S data).
Proof. apply quiet_call. intros w. split; [|done]. intros path Hp. simpl. by rewrite lookup_insert_ne. Qed.
Lemma quiet_create : quiet (os_Create S).
Proof. apply quiet_call. intros w. destruct (u_files w !! S); simpl; split; try done. intros path Hp. by rewrite lookup_insert_ne. Qed.
Lemma quiet_sync : quiet syncDirectory.
Proof. apply quiet_do; [|intros []]; apply quiet_idle. Qed.
Lemma quiet_safe path : quiet (safeOptionalRegular path).
Proof. apply quiet_bind; [apply quiet_stat|]. intros [[]|[]]; apply quiet_ret. Qed.

Hint Resolve quiet_ret quiet_stat quiet_read quiet_idle quiet_remove quiet_write quiet_create quiet_sync quiet_safe : core.

Context `{UL : UpdateLibraries}.

Lemma quiet_verify artifact : quiet (verifyFile S artifact).
Proof. unfold verifyFile, safeRequiredRegular. repeat (apply quiet_do; [|intros ?]); auto. Qed.

Lemma quiet_stage config body artifact : quiet (stage config S body artifact).
Proof.
  unfold stage. destruct body as [body|]; [|auto]. apply quiet_do; [auto|]. intros []. apply quiet_bind.
  - apply quiet_do; [auto|]. intros []. destruct (read_limited _ _); (apply quiet_do; [auto|]); intros []; [|auto].
    case_decide; [auto|]. repeat (apply quiet_do; [|intros ?]); auto.
  - intros [a|e]; [auto|]. apply quiet_bind; auto.
Qed.

(** A file that passes the check is the artifact. *)
Lemma verifyFile_ok artifact w w' :
  0 <= ar_Size artifact -> verifyFile S artifact w = (w', Some (Ok tt)) ->
  exists data, u_files w' !! S = Some (Regular data) /\ matches artifact data = true.
Proof.
  intros Hsize. unfold verifyFile. unfold mbind at 1, U_bind at 1. destruct (safeRequiredRegular S w) as [w1 [[[]|]|]]; [|done..].
  unfold mbind, U_bind, os_ReadFile, call, mret, U_ret.
  assert (Hread : forall w0 : world, match (match u_files w0 !! S with None => (w0, Err UNotExist) | Some (Regular data) => (w0, Ok data) | Some Other => (w0, Err UIO) end) with (w2, r) =>
     match r with Ok data => (w2, Some (if matches artifact (take (Z.to_nat (ar_Size artifact + 1)) data) then Ok tt else Err ErrArtifactInvalid)) | Err e => (w2, Some (Err e)) end end = (w', Some (Ok tt)) ->
     exists data, u_files w' !! S = Some (Regular data) /\ matches artifact data = true).
  { intros w0. destruct (u_files w0 !! S) as [[data|]|] eqn:E; [|done..]. destruct (matches artifact _) eqn:Em; [|done]. intros [= <-].
    exists data. split; [done|]. rewrite take_ge in Em; [done|]. unfold matches in Em. apply bool_decide_eq_true_1 in Em as [Hl _].
    rewrite length_take in Hl. lia. }
  destruct (u_faults w1) as [|[] l]; [| |done..].
  - intros H. apply (Hread w1). destruct (u_files w1 !! S) as [[]|]; done.
  - intros H. apply (Hread (mkUpdateWorld (u_files w1) (u_version w1) (u_trust w1) l)). cbn [u_files] in *.
    destruct (u_files w1 !! S) as [[]|]; done.
Qed.

End Quiet.
End Logic.

(** ** An update with one failure *)

Section Apply.
Context `{UL : UpdateLibraries} `{Laws : !UpdateLaws}.
Variables (config : Config) (a : answers) (envelope : list byte) (w : world) (manifest : Manifest) (artifact : Artifact).
Variables (old : list byte) (p0 : option (list byte)) (j0 : option node).
Context {B : list call_fault -> Prop} (HB : budget B).
Hypothesis Hbudget : an_installed_ok a = true \/ (forall l, B l -> l = []).
Hypothesis Hverify : verify config (u_trust w) (u_version w) envelope = Ok (manifest, artifact).
Hypothesis Hset : setting config (an_name a) (mf_Version manifest) (u_version w) j0.

Abbreviation Left new fs := (left_behind config (an_name a) (mf_Version manifest) (u_version w) old new p0 j0 fs).
Abbreviation Done new fs := (done_ config (mf_Version manifest) (u_version w) old new fs).

Definition untouched (fs : files) : Prop :=
  fs !! uc_InstallPath config = Some (Regular old) /\ fs !! previousPath config = Regular <$> p0 /\ fs !! journalPath config = j0.

Lemma untouched_left fs : untouched fs -> Left old fs.
Proof. intros (E1&E2&E3). unfold left_behind. rewrite E1, E2, E3. constructor. Qed.

Lemma off_paths fs fs' : off (an_name a) fs fs' ->
  fs' !! uc_InstallPath config = fs !! uc_InstallPath config /\ fs' !! previousPath config = fs !! previousPath config
  /\ fs' !! journalPath config = fs !! journalPath config.
Proof.
  intros H. destruct (paths config _ _ _ _ Hset) as (_&_&_&?&?&?). split_and!; apply H; by apply not_eq_sym.
Qed.

Lemma off_untouched fs fs' : off (an_name a) fs fs' -> untouched fs -> untouched fs'.
Proof. intros (E1&E2&E3)%off_paths. unfold untouched. by rewrite E1, E2, E3. Qed.
Lemma off_left new fs fs' : off (an_name a) fs fs' -> Left new fs -> Left new fs'.
Proof. intros (E1&E2&E3)%off_paths. unfold left_behind. by rewrite E1, E2, E3. Qed.
Lemma off_done new fs fs' : off (an_name a) fs fs' -> Done new fs -> Done new fs'.
Proof. intros (E1&E2&E3)%off_paths. unfold done_. by rewrite E1, E2, E3. Qed.

(** Either nothing has happened, or the staged artifact took part. *)
Definition outcome (fs : files) : Prop := exists new, (new = old \/ matches artifact new = true) /\ Left new fs.

Lemma verify_size : 0 <= ar_Size artifact.
Proof.
  revert Hverify. unfold verify. repeat (case_match; try done). intros [= <- <-]. lia.
Qed.

(** The part of [Apply] between the download and the removal of the staged file. *)
Definition try_swap (staged : string) : U (bool * result update_error unit) :=
  h ← idle;
  if match h with Ok _ => an_staged_ok a | Err _ => false end then
    r ← verifyFile staged artifact;
    match r with
    | Err e => mret (true, Err e)
    | Ok _ => swap config a staged (mf_Version manifest) (u_version w)
    end
  else mret (true, Err ErrHealthCheck).

Lemma try_swap_spec w1 :
  B (u_faults w1) -> untouched (u_files w1) ->
  match try_swap (an_name a) w1 with
  | (w', None) => outcome (u_files w')
  | (w', Some (keep, Ok _)) => (exists new, matches artifact new = true /\ Done new (u_files w')) /\ B (u_faults w')
  | (w', Some (keep, Err _)) => outcome (u_files w') /\ B (u_faults w')
  end.
Proof.
  intros Hf Hu. unfold try_swap. unfold mbind at 1, U_bind at 1. destruct (quiet_idle HB (an_name a) w1 Hf) as [O1 B1].
  assert (Hout : forall fs, untouched fs -> outcome fs) by (intros fs Hfs; exists old; split; [by left|by apply untouched_left]).
  destruct (idle w1) as [w2 [h|]]; simpl in O1, B1; [|apply Hout; by apply (off_untouched _ _ O1)].
  specialize (B1 h eq_refl). apply (off_untouched _ _ O1) in Hu. clear O1.
  destruct (match h with Ok _ => _ | Err _ => _ end); [|unfold mret, U_ret; auto].
  unfold mbind at 1, U_bind at 1. destruct (quiet_verify HB (an_name a) artifact w2 B1) as [O2 B2].
  destruct (verifyFile (an_name a) artifact w2) as [w3 [r|]] eqn:Ev; simpl in O2, B2; [|apply Hout; by apply (off_untouched _ _ O2)].
  specialize (B2 r eq_refl). apply (off_untouched _ _ O2) in Hu. clear O2.
  destruct r as [[]|e]; [|unfold mret, U_ret; auto].
  apply verifyFile_ok in Ev as (new&ES&Hm); [|apply verify_size].
  pose proof (swap_spec HB config (an_name a) (mf_Version manifest) (u_version w) old new p0 j0 Hset a w3 Hbudget B2) as Hs.
  destruct Hu as (E1&E2&E3). specialize (Hs ltac:(by split_and!)).
  destruct (swap _ _ _ _ _ w3) as [w4 [[keep [[]|e]]|]].
  - destruct Hs as [Hd Hb]. split; [by eauto|done].
  - destruct Hs as [Hl Hb]. split; [|done]. exists new. auto.
  - exists new. auto.
Qed.

Lemma Apply_spec w' r :
  B (u_faults w) -> untouched (u_files w) -> Apply config a envelope w = (w', r) ->
  outcome (u_files w') /\ (forall m, r = Some (Ok m) -> m = manifest /\ exists new, matches artifact new = true /\ Done new (u_files w')).
Proof.
  intros Hf Hu.
  assert (Hout : forall fs, untouched fs -> outcome fs) by (intros fs Hfs; exists old; split; [by left|by apply untouched_left]).
  assert (Hoff : forall fs fs', off (an_name a) fs fs' -> outcome fs -> outcome fs') by (intros fs fs' O (new&Hn&Hl); exists new; split; [done|by apply (off_left _ fs)]).
  unfold Apply, get. unfold mbind at 1 2, U_bind at 1 2. rewrite Hverify.
  unfold mbind at 1, U_bind at 1. destruct (quiet_stage HB (an_name a) config (an_body a) artifact w Hf) as [O1 B1].
  destruct (stage config (an_name a) (an_body a) artifact w) as [w1 [[staged|e]|]] eqn:Es; simpl in O1, B1;
    [|intros [= <- <-]; split; [apply Hout; by apply (off_untouched _ _ O1)|done]..].
  assert (staged = an_name a) as ->.
  { unfold stage in Es. destruct (an_body a); [|done]. unfold mbind at 1, U_bind at 1 in Es. destruct (os_Create _ w) as [w0 [[[]|]|]]; [|done..].
    unfold mbind at 1, U_bind at 1 in Es. destruct (mbind (M := U) _ _ w0) as [w0' [[[]|]|]]; [|..|done]; [by injection Es as _ <-|].
    unfold mbind, U_bind in Es. by destruct (os_Remove _ w0') as [? [|]]. }
  specialize (B1 _ eq_refl). apply (off_untouched _ _ O1) in Hu. clear O1.
  pose proof (try_swap_spec w1 B1 Hu) as Ht. unfold mbind at 1, U_bind at 1. fold (try_swap (an_name a)).
  destruct (try_swap (an_name a) w1) as [w2 [[keep r2]|]]; [|by intros [= <- <-]].
  assert (Hb2 : B (u_faults w2)) by (destruct r2; apply Ht).
  assert (Hend : forall w3 o, (if keep then os_Remove (an_name a) else mret (Ok tt)) w2 = (w3, o) -> off (an_name a) (u_files w2) (u_files w3)).
  { intros w3 o E. destruct keep; [|by injection E as <- _]. destruct (quiet_remove HB (an_name a) w2 Hb2) as [O2 _]. by rewrite E in O2. }
  unfold mbind, U_bind, mret at 2, U_ret at 2. destruct ((if keep then os_Remove (an_name a) else mret (Ok tt)) w2) as [w3 o] eqn:Er. specialize (Hend _ _ eq_refl).
  assert (Hout2 : outcome (u_files w2)).
  { destruct r2; [|apply Ht]. destruct Ht as [(new&Hm&Hd) _]. exists new. split; [by right|]. by apply done_left. }
  destruct o as [o|]; intros [= <- <-]; (split; [by apply (Hoff _ _ Hend)|]); [|done].
  intros m Hm. destruct r2 as [[]|]; [|done]. injection Hm as <-. split; [done|]. destruct Ht as [(new&Hn&Hd) _]. exists new.
  split; [done|]. by apply (off_done _ _ _ Hend).
Qed.

End Apply.


(** *** Witness and examples: libraries that know one manifest. *)

Definition demo_manifest : Manifest := mkManifest "2.0.0" "stable" 0 false "1.0" "1.0" 1 9 {["linux-amd64" := mkArtifact "https://x/y" (String.string_of_list_ascii (replicate 64 "0"%char)) 3]}.
Definition demo_field (s : string) : string := b64_EncodeToString (String.list_byte_of_string s).
Definition demo_value (s : string) : string := match b64_DecodeString s with Some b => String.string_of_list_byte b | None => "" end.
Definition demo_journal_code (e : journal) : list byte :=
  String.list_byte_of_string (demo_field (jn_State e) +:+ String "." (demo_field (jn_Version e) +:+
    String "." (demo_field (jn_PreviousVersion e) +:+ String "." (demo_field (jn_StagedPath e))))).
Definition demo_journal_parse (b : list byte) : option (journal * bool) :=
  match split_at "." (String.string_of_list_byte b) with
  | [s; v; p; st] => Some (mkUpdateJournal (demo_value s) (demo_value v) (demo_value p) (demo_value st), true)
  | _ => None
  end.
Definition demo_update : UpdateLibraries := {|
  ul_trust := demo_trust;
  update_sha256 := fun _ => replicate 32 x00;
  url_Parse := fun _ => Some (mkUrl "https" false "x");
  decode_update_envelope := fun _ => Some (mkUpdateEnvelope "root" (b64_EncodeToString [x7b; x7d]) (b64_EncodeToString [x01]), true);
  decode_manifest := fun _ => Some (demo_manifest, true);
  decode_journal := demo_journal_parse;
  encode_journal := fun e => Some (demo_journal_code e)
|}.
Definition demo_update_config : Config :=
  mkUpdateConfig "/state" "/bin/pbh" "stable" "1.0" 1 demo_initial {["x"]} true true 100 "linux-amd64".
Definition demo_answers (ok : bool) : answers := mkAnswers "/bin/.pbh-update-1" (Some (mkReader [x01; x02; x03] EOF)) true ok.

(** Installed version 1.0.0, with or without what an earlier update has left. *)
Definition demo_update_world (previous : option (list byte)) (faults : list call_fault) : world :=
  mkUpdateWorld (<["/bin/pbh" := Regular [x09]]> (match previous with Some p => {["/bin/pbh.previous" := Regular p]} | None => ∅ end))
    "1.0.0" demo_store faults.

#[local] Instance demo_update_laws : @UpdateLaws demo_update.
Proof.
  intros e _. eexists. split; [done|].
  assert (Hv : forall s, demo_value (demo_field s) = s).
  { intros s. unfold demo_value, demo_field. by rewrite b64_roundtrip, String.string_of_list_byte_of_string. }
  unfold strictJSON. simpl. unfold demo_journal_parse, demo_journal_code. rewrite String.string_of_list_byte_of_string.
  rewrite !split_at_app by apply b64_no_dot. rewrite split_at_last by apply b64_no_dot. rewrite !Hv. by destruct e.
Qed.

Lemma demo_setting : @setting demo_update demo_update_config "/bin/.pbh-update-1" "2.0.0" "1.0.0" None.
Proof.
  split.
  - vm_compute. repeat constructor; set_solver.
  - by vm_compute.
  - by vm_compute.
  - split_and!; by vm_compute.
  - by left.
Qed.


(** The restart after an update of version 1.0.0 that meets the given faults. *)
Definition demo_restart (previous : option (list byte)) (healthy : bool) (faults : list call_fault) : option node * bool :=
  let '(w', _) := @Apply demo_update demo_update_config (demo_answers healthy) [] (demo_update_world previous faults) in
  let '(w2, r) := @recover demo_update demo_update_config true (mkUpdateWorld (u_files w') "1.0.0" (u_trust w') []) in
  (u_files w2 !! "/bin/pbh", match r with Some (Ok _) => true | _ => false end).

(** The state "backing_up" does not say whether the file at the previous path is already
    the backup: a crash right after that journal entry makes the next start replace the
    installed binary by the one that an earlier update had left there. *)
Example stale_previous_installed :
  demo_restart (Some [x05]) true (replicate 24 CNone ++ [CStopAfter]) = (Some (Regular [x05]), true).
Proof. by vm_compute. Qed.

(** The same without a crash, when the removal of the old backup fails. *)
Example stale_previous_installed_after_error :
  demo_restart (Some [x05]) true (replicate 27 CNone ++ [CFails]) = (Some (Regular [x05]), true).
Proof. by vm_compute. Qed.

(** A rollback that is interrupted after it has moved the backup into place cannot be
    completed: the journal still asks for a rollback, the backup is gone, and every start
    fails. *)
Example interrupted_rollback_blocks_start :
  demo_restart None false (replicate 57 CNone ++ [CStopAfter]) = (Some (Regular [x09]), false).
Proof. by vm_compute. Qed.
