(* ===== verification/Launcher.v ===== *)
(** * Launching a shell ([internal/process/launcher.go])

    A session is created with a login shell whose environment is the helper's, overridden
    by the few terminal and locale variables a client may set, and with the identifier of
    the session.  [overrides] is the client's map in the order Go ranges over it. *)

From S2P Require Import Prelude Config Base64 Frame Store Manager.

(** ** The environment *)

(** [strings.Cut(entry, sep)] for a separator of one character. *)
Fixpoint cut (sep : ascii) (s : string) : option (string * string) :=
  match s with
  | EmptyString => None
  | String a s => if decide (a = sep) then Some ("", s)
                  else match cut sep s with Some (k, v) => Some (String a k, v) | None => None end
  end.

(** The key of an entry: the whole of it when there is no sign. *)
Definition entry_key (entry : string) : string := match cut "=" entry with Some (k, _) => k | None => entry end.

Definition allowedEnvironment : list string :=
  ["HOME"; "PATH"; "SHELL"; "TERM"; "COLORTERM"; "TERM_PROGRAM"; "TERM_PROGRAM_VERSION"; "LANG"; "LC_ALL"; "LC_CTYPE"; "NO_COLOR";
   "PAPERBOAT_PREVIEW_REGISTRATION_ENDPOINT"; "PAPERBOAT_HELPER_AGENT_TOKEN_FILE"; "PAPERBOAT_FILE_TRANSFER_ENDPOINT";
   "PAPERBOAT_WORKSPACE_ROOT"; "PAPERBOAT_TERMINAL_SESSION_ID"].

Definition allowedClientEnvironment : list string :=
  ["TERM"; "COLORTERM"; "TERM_PROGRAM"; "TERM_PROGRAM_VERSION"; "LANG"; "LC_ALL"; "LC_CTYPE"].

Definition sessionVariable : string := "PAPERBOAT_TERMINAL_SESSION_ID".

Fixpoint valid_entries (seen : gset string) (environment : list string) : bool :=
  match environment with
  | [] => true
  | entry :: rest =>
      match cut "=" entry with
      | None => false
      | Some (key, _) => if decide (key ∉ allowedEnvironment \/ key ∈ seen) then false else valid_entries ({[key]} ∪ seen) rest
      end
  end.
Definition validEnvironment (environment : list string) : bool := valid_entries ∅ environment.

Definition entry_of (key value : string) : string := key +:+ String "=" value.

Definition replaceEnvironment (environment : list string) (key value : string) : list string :=
  let result := (fun entry => if decide (entry_key entry = key) then entry_of key value else entry) <$> environment in
  if decide (Exists (fun entry => entry_key entry = key) environment) then result else result ++ [entry_of key value].

Definition valid_override (key value : string) : bool :=
  bool_decide (key ∈ allowedClientEnvironment) && bool_decide (value <> "") && bool_decide (slen value <= 8192)
  && bool_decide ("000"%char ∉ String.list_ascii_of_string value).

Fixpoint apply_overrides (result : list string) (overrides : list (string * string)) : option (list string) :=
  match overrides with
  | [] => Some result
  | (key, value) :: rest => if valid_override key value then apply_overrides (replaceEnvironment result key value) rest else None
  end.

Definition mergeClientEnvironment (base : list string) (overrides : list (string * string)) : option (list string) :=
  match apply_overrides base overrides with
  | Some result => if validEnvironment result then Some result else None
  | None => None
  end.

(** ** Launching *)

Definition valid_id_char (a : ascii) : bool :=
  between a 97 122 || between a 65 90 || between a 48 57 || bool_decide (a = "-"%char) || bool_decide (a = "_"%char).

Definition validSessionID (value : string) : bool :=
  bool_decide (1 <= slen value <= 128) && forallb valid_id_char (String.list_ascii_of_string value).

Record ShellLauncher := mkLauncher { sl_path : string; sl_environment : list string }.

Record LaunchRequest := mkLaunchRequest {
  lr_ID : string; lr_Name : string; lr_CWD : string; lr_Dimensions : Dimensions; lr_Environment : list (string * string)
}.

Inductive launch_error := ErrLaunchRejected | LManager (e : manager_error).

(** [resolved] is what [validateExecutable] makes of the path of the shell. *)
Definition NewShellLauncher (resolved : option string) (environment : list string) (sessions : bool) : result launch_error ShellLauncher :=
  match resolved with
  | None => Err ErrLaunchRejected
  | Some path =>
      if decide (sessions = false \/ validEnvironment environment = false \/ String.get 0 path <> Some "/"%char) then Err ErrLaunchRejected
      else Ok (mkLauncher path environment)
  end.

(** The request that [Launch] passes to the session manager. *)
Definition launch_request (l : ShellLauncher) (request : LaunchRequest) : result launch_error CreateRequest :=
  if negb (validSessionID (lr_ID request)) then Err ErrLaunchRejected
  else match mergeClientEnvironment (sl_environment l) (lr_Environment request) with
  | None => Err ErrLaunchRejected
  | Some environment =>
      Ok (mkCreate (lr_ID request) (lr_Name request)
            (mkCommand (sl_path l) ["-l"] (replaceEnvironment environment sessionVariable (lr_ID request)) (lr_CWD request) (lr_Dimensions request)))
  end.

Definition Launch `{J : JsonStrings} (w : create_world) (l : ShellLauncher) (m : Manager) (request : LaunchRequest)
    : Manager * result launch_error Snapshot * list effect :=
  match launch_request l request with
  | Err e => (m, Err e, [])
  | Ok create =>
      match Create w m create with
      | (m', Ok s, eff) => (m', Ok s, eff)
      | (m', Err e, eff) => (m', Err (LManager e), eff)
      end
  end.

(** ** Lemmas *)

(** What the environment says of a variable. *)
Fixpoint env_lookup (key : string) (environment : list string) : option string :=
  match environment with
  | [] => None
  | entry :: rest => match cut "=" entry with
                     | Some (k, v) => if decide (k = key) then Some v else env_lookup key rest
                     | None => env_lookup key rest
                     end
  end.

Lemma cut_entry key value : no_char "=" key -> cut "=" (entry_of key value) = Some (key, value).
Proof.
  unfold entry_of, no_char. induction key as [|a key IH]; intros H; [done|]. simpl in *.
  apply not_elem_of_cons in H as [Ha H]. rewrite decide_False by done. by rewrite IH.
Qed.

Lemma allowed_no_sign key : key ∈ allowedEnvironment -> no_char "=" key.
Proof.
  intros H. unfold allowedEnvironment in H. repeat (apply elem_of_cons in H as [->|H]; [unfold no_char; vm_compute; set_solver|]).
  by apply elem_of_nil in H.
Qed.

Lemma client_allowed key : key ∈ allowedClientEnvironment -> key ∈ allowedEnvironment /\ key <> sessionVariable.
Proof.
  intros H. unfold allowedClientEnvironment in H.
  repeat (apply elem_of_cons in H as [->|H]; [split; [by repeat (by left) || right|done]|]). by apply elem_of_nil in H.
Qed.

(** An environment whose entries have distinct, allowed keys. *)
Definition env_ok (environment : list string) : Prop :=
  Forall (fun entry => is_Some (cut "=" entry) /\ entry_key entry ∈ allowedEnvironment) environment /\ NoDup (entry_key <$> environment).

Lemma valid_entries_spec environment : forall seen,
  valid_entries seen environment = true <->
  Forall (fun entry => is_Some (cut "=" entry) /\ entry_key entry ∈ allowedEnvironment /\ entry_key entry ∉ seen) environment /\
  NoDup (entry_key <$> environment).
Proof.
  induction environment as [|entry env IH]; intros seen; [split; [split; constructor|done]|].
  cbn [valid_entries fmap list_fmap]. rewrite NoDup_cons, Forall_cons.
  assert (Hkey : forall k v, cut "=" entry = Some (k, v) -> entry_key entry = k) by (unfold entry_key; by intros k v ->).
  destruct (cut "=" entry) as [[k v]|] eqn:E; [|split; [done|by intros [[[[? ?] _] _] _]]].
  rewrite (Hkey k v eq_refl). case_decide as H.
  { split; [done|]. intros [[(_&H1&H2) _] _]. by destruct H. }
  rewrite IH, !Forall_forall. split.
  - intros [Hf Hn]. split_and!; try done; try tauto; try (by eexists).
    + destruct (decide (k ∈ allowedEnvironment)); tauto.
    + intros x Hx. destruct (Hf x Hx) as (?&?&?). split_and!; try done. set_solver.
    + intros Hin. apply list_elem_of_fmap in Hin as (x&Hx&Hxin). destruct (Hf x Hxin) as (_&_&Hs). set_solver.
  - intros [[_ Hf] [Hk Hn]]. split; [|done]. intros x Hx. destruct (Hf x Hx) as (?&?&?). split_and!; try done.
    assert (entry_key x <> k) by (intros <-; apply Hk; by apply list_elem_of_fmap_2). set_solver.
Qed.

Lemma validEnvironment_spec environment : validEnvironment environment = true <-> env_ok environment.
Proof.
  unfold validEnvironment, env_ok. rewrite valid_entries_spec, !Forall_forall. split; intros [H Hn]; (split; [|done]); intros x Hx.
  - destruct (H x Hx) as (?&?&_). done.
  - destruct (H x Hx). split_and!; try done.
Qed.

Lemma entry_key_of key value : no_char "=" key -> entry_key (entry_of key value) = key.
Proof. intros H. unfold entry_key. by rewrite cut_entry. Qed.

Lemma replace_keys environment key value :
  no_char "=" key ->
  entry_key <$> replaceEnvironment environment key value
  = if decide (key ∈ entry_key <$> environment) then entry_key <$> environment else (entry_key <$> environment) ++ [key].
Proof.
  intros Hk. unfold replaceEnvironment.
  set (f := fun entry : string => if decide (entry_key entry = key) then entry_of key value else entry).
  assert (Hmap : entry_key <$> (f <$> environment) = entry_key <$> environment).
  { rewrite <- list_fmap_compose. apply list_fmap_ext. intros i x _. unfold f. simpl. case_decide as E; [|done]. by rewrite entry_key_of. }
  assert (Hex : Exists (fun entry => entry_key entry = key) environment <-> key ∈ entry_key <$> environment).
  { rewrite Exists_exists, list_elem_of_fmap. split; intros (x&?&?); exists x; auto. }
  destruct (decide (Exists _ environment)) as [H|H].
  - rewrite decide_True by by apply Hex. exact Hmap.
  - rewrite decide_False by by rewrite <- Hex. rewrite fmap_app, Hmap. simpl. by rewrite entry_key_of.
Qed.

Lemma replace_ok environment key value : key ∈ allowedEnvironment -> env_ok environment -> env_ok (replaceEnvironment environment key value).
Proof.
  intros Hk [Hf Hn]. pose proof (allowed_no_sign _ Hk) as Hs. split.
  - assert (Hnew : is_Some (cut "=" (entry_of key value)) /\ entry_key (entry_of key value) ∈ allowedEnvironment).
    { rewrite cut_entry, entry_key_of by done. by split; [eexists|]. }
    assert (Hmap : Forall (fun entry => is_Some (cut "=" entry) /\ entry_key entry ∈ allowedEnvironment)
              ((fun entry => if decide (entry_key entry = key) then entry_of key value else entry) <$> environment)).
    { apply Forall_fmap. apply (Forall_impl _ _ _ Hf). intros x Hx. simpl. by case_decide. }
    unfold replaceEnvironment. case_decide; [done|]. apply Forall_app. split; [done|]. by constructor.
  - rewrite replace_keys by done. case_decide as H; [done|]. apply NoDup_app. split_and!; [done| |apply NoDup_singleton]. set_solver.
Qed.

Lemma env_lookup_app key l1 l2 : env_lookup key (l1 ++ l2) = match env_lookup key l1 with Some v => Some v | None => env_lookup key l2 end.
Proof. induction l1 as [|x l IH]; [done|]. simpl. destruct (cut "=" x) as [[k v]|]; [case_decide|]; done. Qed.

Lemma env_lookup_none key environment : env_ok environment -> key ∉ entry_key <$> environment -> env_lookup key environment = None.
Proof.
  intros [Hf _]. induction environment as [|x l IH]; [done|]. intros Hk. simpl in *. apply not_elem_of_cons in Hk as [Hx Hk].
  apply Forall_cons in Hf as [[_ _] Hf]. specialize (IH Hf Hk). unfold entry_key in Hx. destruct (cut "=" x) as [[k v]|]; [|done].
  by rewrite decide_False by congruence.
Qed.

(** Replacing a variable sets it and leaves the others as they are. *)
Lemma replace_lookup environment key value k :
  key ∈ allowedEnvironment -> env_ok environment ->
  env_lookup k (replaceEnvironment environment key value) = if decide (k = key) then Some value else env_lookup k environment.
Proof.
  intros Hk Hok. pose proof (allowed_no_sign _ Hk) as Hs.
  set (f := fun entry : string => if decide (entry_key entry = key) then entry_of key value else entry).
  assert (Hmap : env_lookup k (f <$> environment) =
    if decide (k = key /\ key ∈ entry_key <$> environment) then Some value else env_lookup k environment).
  { destruct Hok as [Hf _]. induction environment as [|x l IH]; [by rewrite decide_False by set_solver|].
    apply Forall_cons in Hf as [[[[kx vx] Hx] _] Hf]. specialize (IH Hf).
    assert (Ekx : entry_key x = kx) by (unfold entry_key; by rewrite Hx).
    cbn [fmap list_fmap env_lookup]. unfold f at 1. rewrite Ekx. destruct (decide (kx = key)) as [->|Hne].
    - rewrite cut_entry by done. rewrite Hx. destruct (decide (key = k)) as [->|Hk2].
      + rewrite decide_True; [done|]. split; [done|by left].
      + rewrite IH. destruct (decide (k = key)) as [->|]; [done|]. rewrite !decide_False by tauto. done.
    - rewrite Hx. destruct (decide (kx = k)) as [->|]; [rewrite decide_False; [done|tauto]|]. rewrite IH.
      destruct (decide (k = key /\ key ∈ entry_key <$> l)) as [[-> Hin]|Hno].
      + rewrite decide_True; [done|]. split; [done|by right].
      + rewrite decide_False; [done|]. rewrite elem_of_cons. naive_solver. }
  unfold replaceEnvironment. fold f.
  assert (Hex : Exists (fun entry => entry_key entry = key) environment <-> key ∈ entry_key <$> environment).
  { rewrite Exists_exists, list_elem_of_fmap. split; intros (x&?&?); exists x; auto. }
  destruct (decide (Exists _ environment)) as [H|H].
  - rewrite Hmap. destruct (decide (k = key)) as [->|]; [by rewrite decide_True by tauto|by rewrite decide_False by tauto].
  - rewrite env_lookup_app, Hmap, decide_False by tauto. simpl. rewrite cut_entry by done.
    destruct (decide (k = key)) as [->|].
    + rewrite (env_lookup_none _ _ Hok) by by rewrite <- Hex. by rewrite decide_True by done.
    + destruct (env_lookup k environment); [done|]. by rewrite decide_False by done.
Qed.

Lemma apply_overrides_spec overrides : forall environment result k,
  NoDup overrides.*1 -> env_ok environment -> apply_overrides environment overrides = Some result ->
  env_ok result /\ Forall (fun kv => valid_override kv.1 kv.2 = true) overrides /\
  env_lookup k result = match list_to_map (M := gmap string string) overrides !! k with Some v => Some v | None => env_lookup k environment end.
Proof.
  induction overrides as [|[key value] rest IH]; intros env result k Hn Hok E; [by injection E as <-|].
  simpl in *. apply NoDup_cons in Hn as [Hk Hn]. destruct (valid_override key value) eqn:Ev; [|done].
  assert (Hallowed : key ∈ allowedEnvironment).
  { unfold valid_override in Ev. rewrite !andb_true_iff, !bool_decide_eq_true in Ev. apply client_allowed. tauto. }
  destruct (IH _ _ k Hn (replace_ok _ _ value Hallowed Hok) E) as (H1&H2&H3). split_and!; [done|by constructor|].
  rewrite H3, replace_lookup by done. destruct (decide (k = key)) as [->|Hne].
  - rewrite lookup_insert_eq. by rewrite not_elem_of_list_to_map_1.
  - by rewrite lookup_insert_ne.
Qed.

(** Overrides are accepted when each of them may be set by a client. *)
Lemma apply_overrides_total overrides : forall environment,
  Forall (fun kv => valid_override kv.1 kv.2 = true) overrides -> is_Some (apply_overrides environment overrides).
Proof. induction overrides as [|[k v] l IH]; intros env H; [by eexists|]. apply Forall_cons in H as [Hv H]. simpl in *. rewrite Hv. by apply IH. Qed.

(** The environment of a shell is exactly the helper's, with the client's terminal and
    locale variables and the identifier of the session: a launch is accepted exactly when
    the identifier is well-formed and every variable the client sets is one of the seven it
    may set, with a proper value; then, whatever order Go ranges over the client's map,
    every variable has the session's, else the client's, else the helper's value, and the
    entries have distinct keys from the allowed list. *)
Theorem launch_environment_exact (l : ShellLauncher) (request : LaunchRequest) :
  validEnvironment (sl_environment l) = true -> NoDup (lr_Environment request).*1 ->
  (is_ok (launch_request l request) = true <->
     validSessionID (lr_ID request) = true /\ Forall (fun kv => valid_override kv.1 kv.2 = true) (lr_Environment request)) /\
  forall create, launch_request l request = Ok create ->
    let environment := cm_Env (cr_Command create) in
    validEnvironment environment = true /\
    cr_ID create = lr_ID request /\ cm_Path (cr_Command create) = sl_path l /\ cm_CWD (cr_Command create) = lr_CWD request /\
    forall key, env_lookup key environment =
      if decide (key = sessionVariable) then Some (lr_ID request)
      else match list_to_map (M := gmap string string) (lr_Environment request) !! key with
           | Some value => Some value
           | None => env_lookup key (sl_environment l)
           end.
Proof.
  intros Hv%validEnvironment_spec Hn. unfold launch_request, mergeClientEnvironment.
  destruct (validSessionID (lr_ID request)); simpl; [|split; [by split; [|intros [? _]]|done]].
  destruct (apply_overrides (sl_environment l) (lr_Environment request)) as [env|] eqn:E.
  - destruct (apply_overrides_spec _ _ _ sessionVariable Hn Hv E) as (Hok&Hf&_).
    assert (Hvalid : validEnvironment env = true) by by apply validEnvironment_spec. rewrite Hvalid. simpl. split; [done|].
    intros create [= <-]. simpl. assert (Hs : sessionVariable ∈ allowedEnvironment) by by apply list_elem_of_In; vm_compute; tauto.
    split_and!; try done; [apply validEnvironment_spec; by apply replace_ok|]. intros key.
    rewrite replace_lookup by done. case_decide; [done|]. by destruct (apply_overrides_spec _ _ _ key Hn Hv E) as (_&_&?).
  - split; [|done]. split; [done|]. intros [_ Hf]. destruct (apply_overrides_total _ (sl_environment l) Hf) as [? ?]. congruence.
Qed.

Definition demo_launcher : ShellLauncher := mkLauncher "/bin/sh" ["HOME=/h"; "TERM=dumb"].
Definition demo_launch : LaunchRequest := mkLaunchRequest "s1" "main" "/w" (mkDims 80 24) [("LANG", "C"); ("TERM", "xterm")].

Lemma launch_environment_exact_witness : exists create,
  launch_request demo_launcher demo_launch = Ok create /\ env_lookup "TERM" (cm_Env (cr_Command create)) = Some "xterm" /\
  env_lookup "HOME" (cm_Env (cr_Command create)) = Some "/h".
Proof.
  destruct (launch_environment_exact demo_launcher demo_launch) as [_ H]; [by vm_compute| |].
  - apply NoDup_cons. split; [|apply NoDup_singleton]. intros Hin. apply list_elem_of_singleton in Hin. done.
  - destruct (launch_request demo_launcher demo_launch) as [create|] eqn:E; [|by vm_compute in E].
    exists create. destruct (H create eq_refl) as (_&_&_&_&Hkeys). split_and!; [done| |]; rewrite Hkeys; by vm_compute.
Defined.
