(* ===== verification/Streams.v ===== *)
(** * Terminal streams of a connection ([internal/server/server.go])

    An attached terminal gets a stream number on its connection, bound to the authorization,
    session, attachment and generation it was attached with.  Binary messages name the
    stream: [handleTerminalData] decodes them, checks their sequence and the binding, and
    hands them to the handler.  The bindings are objects: the table of streams maps numbers
    to addresses, and requests bind and remove streams while a message is being handled. *)

From S2P Require Import Prelude Config Frame Auth AuthTheorems Credential Journal Wire Binary Terminal TerminalTheorems.

(** ** Data *)

Record terminalRequest := mkTerminalRequest {
  tq_Action : string;
  tq_OperationID : string;
  tq_Name : string;
  tq_CWD : string;
  tq_SessionID : string;
  tq_AttachmentID : string;
  tq_FromSequence : Z;
  tq_AtLiveBoundary : bool;
  tq_Generation : Z;
  tq_Columns : Z;
  tq_Rows : Z;
  tq_Environment : list (string * string);
  tq_Signal : string
}.

(** The fields of [terminalAttachResponse] that are read back. *)
Record attach_response := mkAttachResponse { ar_AttachmentID : string; ar_Generation : Z }.

(** The JSON library on the payloads of terminal requests: [decodeStrict] of a request and
    [json.Unmarshal] of an attach response. *)
Class TerminalJson := {
  decode_terminal : list byte -> option terminalRequest;
  decode_attach : list byte -> option attach_response
}.

Record terminalStreamBinding := mkBinding {
  tb_authorization : Authorization;
  tb_sessionID : string;
  tb_attachmentID : string;
  tb_generation : Z;
  tb_inputSequence : Z;
  tb_resizeSequence : Z;
  tb_revoked : flag
}.

Record terminalConnectionState := mkStreams {
  tc_nextID : Z;
  tc_streams : gmap Z nat;
  tc_objects : gmap nat terminalStreamBinding;
  tc_expired : bool
}.

Definition newTerminalConnectionState : terminalConnectionState := mkStreams 0 ∅ ∅ false.

Inductive serve_error :=
| SProtocol (e : perror)
| ErrInvalidConfiguration | ErrHandshakeRequired | ErrCapabilityUnavailable | ErrServerStopped
| SDeadline                  (* the peer was silent for too long *)
| SHandler                   (* an error of the handler of terminal data *)
| SPayload                   (* the payload of the hello does not decode *)
| SWrite (e : perror).       (* a frame could not be written *)

(** ** Binding *)

(** The loop that looks for a free number: the next number, and the one found. *)
Fixpoint find_id (attempts : nat) (next : Z) (streams : gmap Z nat) : Z * option Z :=
  match attempts with
  | O => (next, None)
  | S n =>
      let next1 := (next + 1) mod two32 in
      let next2 := if decide (next1 = 0) then (next1 + 1) mod two32 else next1 in
      match streams !! next2 with
      | Some _ => find_id n next2 streams
      | None => (next2, Some next2)
      end
  end.

(** The code tries [^uint32(0)] numbers.  One more than there are streams is enough
    ([find_id_enough]), so that many attempts give the same result. *)
Definition attempts (streams : gmap Z nat) : nat := Z.to_nat (Z.min (two32 - 1) (Z.of_nat (size streams) + 1)).

Inductive bind_error := BindInvalid | BindExpired | BindExhausted.

Section Streams.
Context `{TJ : TerminalJson}.

(** [new] is the address of the new binding. *)
Definition bind (now : time) (new : nat) (authorization : Authorization) (frame : Frame) (outcome : Outcome)
    (s : terminalConnectionState) : terminalConnectionState * result bind_error Z :=
  match decide (fr_Capability frame = "terminal.v1"), decode_terminal (default [] (fr_Payload frame)), decode_attach (oc_Result outcome) with
  | left _, Some request, Some response =>
      if decide (tq_Action request <> "attach" \/ tq_SessionID request = "" \/ ar_AttachmentID response = "" \/ ar_Generation response = 0)
      then (s, Err BindInvalid)
      else if decide (au_ExpiresAt authorization <> zero_time /\ ~ now < au_ExpiresAt authorization) then (s, Err BindExpired)
      else match find_id (attempts (tc_streams s)) (tc_nextID s) (tc_streams s) with
      | (next, None) => (mkStreams next (tc_streams s) (tc_objects s) (tc_expired s), Err BindExhausted)
      | (next, Some id) =>
          let binding := mkBinding authorization (tq_SessionID request) (ar_AttachmentID response) (ar_Generation response) 0 0
                           (default FConnection (au_Revoked authorization)) in
          (mkStreams next (<[id := new]> (tc_streams s)) (<[new := binding]> (tc_objects s)) (tc_expired s), Ok id)
      end
  | _, _, _ => (s, Err BindInvalid)
  end.

Definition remove (streamID : Z) (s : terminalConnectionState) : terminalConnectionState :=
  mkStreams (tc_nextID s) (delete streamID (tc_streams s)) (tc_objects s) (tc_expired s).

(** [expireOnce.Do(close(s.expired))]: what the goroutine of a binding does when the
    revocation of its credential is signalled. *)
Definition expire (s : terminalConnectionState) : terminalConnectionState :=
  mkStreams (tc_nextID s) (tc_streams s) (tc_objects s) true.

(** [binding]: the address of the stream's object, with what it holds. *)
Definition binding (s : terminalConnectionState) (streamID : Z) : result perror (nat * terminalStreamBinding) :=
  if decide (streamID = 0) then Err (PError InvalidFrame)
  else match tc_streams s !! streamID with
  | None => Err (PError InvalidFrame)
  | Some a => match tc_objects s !! a with Some b => Ok (a, b) | None => Err (PError InvalidFrame) end
  end.

(** [raised f]: the flag is set when it is read. *)
Definition validateTerminalBinding (raised : flag -> bool) (b : terminalStreamBinding) : result perror unit :=
  if decide (au_ClientID (tb_authorization b) = "" \/ tb_sessionID b = "" \/ tb_attachmentID b = "" \/ tb_generation b = 0)
  then Err (PError InvalidFrame)
  else if raised (tb_revoked b) then Err (PError CredentialExpired)
  else Ok tt.

(** ** Messages *)

(** What is handed to the handler: the address of the binding, what it held, the frame. *)
Inductive terminal_call :=
| CallInput (a : nat) (b : terminalStreamBinding) (frame : TerminalInputFrame)
| CallACK (a : nat) (b : terminalStreamBinding) (frame : TerminalACKFrame)
| CallResize (a : nat) (b : terminalStreamBinding) (frame : TerminalResizeFrame).

(** [handleTerminalData] up to the call of the handler. *)
Definition terminal_begin (raised : flag -> bool) (message : list byte) (s : terminalConnectionState) : result perror terminal_call :=
  let? opcode := TerminalOpcode message in
  if decide (opcode = TerminalInputOpcode) then
    let? frame := DecodeTerminalInput message in
    let? ab := binding s (ti_StreamID frame) in
    if decide (ti_Sequence frame <> u64_add (tb_inputSequence ab.2) 1) then Err (PError InvalidFrame)
    else let? _ := validateTerminalBinding raised ab.2 in
    Ok (CallInput ab.1 ab.2 frame)
  else if decide (opcode = TerminalACKOpcode) then
    let? frame := DecodeTerminalACK message in
    let? ab := binding s (ta_StreamID frame) in
    let? _ := validateTerminalBinding raised ab.2 in
    Ok (CallACK ab.1 ab.2 frame)
  else if decide (opcode = TerminalResizeOpcode) then
    let? frame := DecodeTerminalResize message in
    let? ab := binding s (tr_StreamID frame) in
    if decide (tr_Sequence frame <> u64_add (tb_resizeSequence ab.2) 1) then Err (PError InvalidFrame)
    else let? _ := validateTerminalBinding raised ab.2 in
    Ok (CallResize ab.1 ab.2 frame)
  else Err (PError InvalidFrame).

Definition set_input (n : Z) (b : terminalStreamBinding) : terminalStreamBinding :=
  mkBinding (tb_authorization b) (tb_sessionID b) (tb_attachmentID b) (tb_generation b) n (tb_resizeSequence b) (tb_revoked b).
Definition set_resize (n : Z) (b : terminalStreamBinding) : terminalStreamBinding :=
  mkBinding (tb_authorization b) (tb_sessionID b) (tb_attachmentID b) (tb_generation b) (tb_inputSequence b) n (tb_revoked b).

(** The table is locked again once the handler has succeeded: the sequence is recorded
    when the stream still has the same binding. *)
Definition record_sequence (streamID : Z) (a : nat) (f : terminalStreamBinding -> terminalStreamBinding) (s : terminalConnectionState)
    : terminalConnectionState :=
  if decide (tc_streams s !! streamID = Some a)
  then mkStreams (tc_nextID s) (tc_streams s) (alter f a (tc_objects s)) (tc_expired s)
  else s.

Definition terminal_end (call : terminal_call) (s : terminalConnectionState) : terminalConnectionState :=
  match call with
  | CallInput a _ frame => record_sequence (ti_StreamID frame) a (set_input (ti_Sequence frame)) s
  | CallACK _ _ _ => s
  | CallResize a _ frame => record_sequence (tr_StreamID frame) a (set_resize (tr_Sequence frame)) s
  end.

(** A message that is handled without interruption. *)
Definition handleTerminalData {H} (handler : option (terminal_call -> H -> H * bool)) (raised : flag -> bool) (message : list byte)
    (h : H) (s : terminalConnectionState) : H * terminalConnectionState * result serve_error unit :=
  match handler with
  | None => (h, s, Err ErrCapabilityUnavailable)
  | Some handle =>
      match terminal_begin raised message s with
      | Err e => (h, s, Err (SProtocol e))
      | Ok call =>
          match handle call h with
          | (h', false) => (h', s, Err SHandler)
          | (h', true) => (h', terminal_end call s, Ok tt)
          end
      end
  end.
End Streams.

(** ** Finding a number *)

Definition next_id (n : Z) : Z := if decide ((n + 1) mod two32 = 0) then 1 else (n + 1) mod two32.
(** The [k]-th number tried after [next]: they go round from 1 to the largest. *)
Definition visit (next k : Z) : Z := (next + k - 1) mod (two32 - 1) + 1.

Lemma next_id_visit next : 0 <= next < two32 -> next_id next = visit next 1 /\ 1 <= next_id next < two32.
Proof.
  intros H. unfold next_id, visit. destruct (decide (next = two32 - 1)) as [->|].
  - replace (two32 - 1 + 1) with (1 * two32) by lia. rewrite Z.mod_mul by done. rewrite decide_True by done.
    split; [|done]. replace (1 * two32 - 1) with (1 * (two32 - 1)) by lia. rewrite Z.mod_mul by done. done.
  - rewrite (Z.mod_small (next + 1)) by lia. rewrite decide_False by lia. rewrite Z.mod_small by lia. lia.
Qed.

Lemma visit_next next k : 0 <= next < two32 -> visit (next_id next) k = visit next (k + 1).
Proof.
  intros H. rewrite (proj1 (next_id_visit _ H)). unfold visit.
  replace ((next + 1 - 1) mod (two32 - 1) + 1 + k - 1) with ((next + 1 - 1) mod (two32 - 1) + k) by lia.
  rewrite Zplus_mod_idemp_l. f_equal. f_equal. lia.
Qed.

Lemma find_id_step n next streams :
  find_id (S n) next streams = match streams !! next_id next with Some _ => find_id n (next_id next) streams | None => (next_id next, Some (next_id next)) end.
Proof. cbn [find_id]. unfold next_id. by case_decide as E; rewrite ?E. Qed.

Lemma find_id_spec streams n : forall next,
  0 <= next < two32 ->
  match find_id n next streams with
  | (x, Some id) => x = id /\ 1 <= id < two32 /\ streams !! id = None
  | (x, None) => 0 <= x < two32 /\ forall k, 1 <= k <= Z.of_nat n -> is_Some (streams !! visit next k)
  end.
Proof.
  induction n as [|n IH]; intros next Hn; [simpl; split; [done|lia]|]. rewrite find_id_step.
  pose proof (next_id_visit _ Hn) as [Hv Hr].
  destruct (streams !! next_id next) eqn:E; [|done]. specialize (IH (next_id next) ltac:(lia)).
  destruct (find_id n (next_id next) streams) as [x [id|]]; [done|]. destruct IH as [Hx IH]. split; [done|].
  intros k Hk. destruct (decide (k = 1)) as [->|]; [rewrite <- Hv; by eauto|].
  replace k with ((k - 1) + 1) by lia. rewrite <- visit_next by done. apply IH. lia.
Qed.

Lemma visit_inj next j k : 1 <= j < two32 -> 1 <= k < two32 -> visit next j = visit next k -> j = k.
Proof.
  unfold visit. intros Hj Hk E. assert (E' : (next + j - 1) mod (two32 - 1) = (next + k - 1) mod (two32 - 1)) by lia.
  assert (Hm : 0 < two32 - 1) by done. pose proof (Z.div_mod (next + j - 1) (two32 - 1) ltac:(done)) as D1.
  pose proof (Z.div_mod (next + k - 1) (two32 - 1) ltac:(done)) as D2.
  assert (Ed : (next + j - 1) / (two32 - 1) = (next + k - 1) / (two32 - 1)) by nia. rewrite Ed in D1. lia.
Qed.

Lemma find_id_more streams m n x id : forall next,
  find_id n next streams = (x, Some id) -> (n <= m)%nat -> find_id m next streams = (x, Some id).
Proof.
  revert n. induction m as [|m IH]; intros [|n] next E Hle; [done|lia|done|].
  rewrite find_id_step in *. destruct (streams !! next_id next); [|done]. apply (IH n); [done|lia].
Qed.

(** A free number is found in as many attempts as there are streams, and one more. *)
Lemma find_id_found streams next :
  0 <= next < two32 -> Z.of_nat (size streams) + 1 < two32 -> exists id, find_id (attempts streams) next streams = (id, Some id).
Proof.
  intros Hn Hs. pose proof (find_id_spec streams (attempts streams) next Hn) as H.
  destruct (find_id _ _ _) as [x [id|]]; [by destruct H as [-> _]; eauto|]. exfalso. destruct H as [_ H].
  unfold attempts in H. rewrite Z.min_r in H by lia. rewrite Z2Nat.id in H by lia.
  assert (Hsub : visit next <$> seqZ 1 (Z.of_nat (size streams) + 1) ⊆+ elements (dom streams)).
  { apply NoDup_submseteq.
    - apply NoDup_fmap_2_strong; [|apply NoDup_seqZ]. intros j k Hj Hk. rewrite elem_of_seqZ in Hj, Hk. apply visit_inj; lia.
    - intros id Hid. apply list_elem_of_fmap in Hid as (k&->&Hk). rewrite elem_of_seqZ in Hk.
      apply elem_of_elements, elem_of_dom, H. lia. }
  apply submseteq_length in Hsub. rewrite length_fmap, length_seqZ in Hsub.
  replace (length (elements (dom streams))) with (size (dom streams)) in Hsub by done. rewrite size_dom in Hsub. lia.
Qed.

Lemma find_id_enough streams next :
  0 <= next < two32 -> find_id (Z.to_nat (two32 - 1)) next streams = find_id (attempts streams) next streams.
Proof.
  intros Hn. destruct (decide (Z.of_nat (size streams) + 1 < two32)) as [Hs|Hs].
  - destruct (find_id_found streams next Hn Hs) as [id E]. rewrite E. apply (find_id_more _ _ _ _ _ _ E). unfold attempts. lia.
  - unfold attempts. by rewrite Z.min_l by lia.
Qed.

(** ** A connection's streams over time

    The loop of the connection handles one message after the other; meanwhile requests bind
    streams and finished streams are removed.  [sw_calls] are the calls of the handler, in
    order, [sw_pending] the one that has not returned, and [sw_open] whether the loop still
    runs: a refused message or a failed call ends it. *)

Record stream_world := mkStreamWorld {
  sw_state : terminalConnectionState;
  sw_pending : option terminal_call;
  sw_calls : list terminal_call;
  sw_open : bool
}.

Section Run.
Context `{TJ : TerminalJson}.

Inductive stream_step : stream_world -> stream_world -> Prop :=
| SMessage s calls raised message call :
    terminal_begin raised message s = Ok call ->
    stream_step (mkStreamWorld s None calls true) (mkStreamWorld s (Some call) (calls ++ [call]) true)
| SRefused s calls raised message e :
    terminal_begin raised message s = Err e ->
    stream_step (mkStreamWorld s None calls true) (mkStreamWorld s None calls false)
| SHandled s calls call :
    stream_step (mkStreamWorld s (Some call) calls true) (mkStreamWorld (terminal_end call s) None calls true)
| SFailed s calls call :
    stream_step (mkStreamWorld s (Some call) calls true) (mkStreamWorld s None calls false)
| SBind w now new authorization frame outcome s' r :
    tc_objects (sw_state w) !! new = None ->
    bind now new authorization frame outcome (sw_state w) = (s', r) ->
    stream_step w (mkStreamWorld s' (sw_pending w) (sw_calls w) (sw_open w))
| SRemove w streamID :
    stream_step w (mkStreamWorld (remove streamID (sw_state w)) (sw_pending w) (sw_calls w) (sw_open w))
| SExpire w :
    stream_step w (mkStreamWorld (expire (sw_state w)) (sw_pending w) (sw_calls w) (sw_open w)).

Definition new_stream_world : stream_world := mkStreamWorld newTerminalConnectionState None [] true.

(** The sequence of a call for the binding at an address, as input or as resize. *)
Inductive kind := KInput | KResize.
Definition call_seq (k : kind) (a : nat) (c : terminal_call) : option Z :=
  match k, c with
  | KInput, CallInput a' _ f => if decide (a' = a) then Some (ti_Sequence f) else None
  | KResize, CallResize a' _ f => if decide (a' = a) then Some (tr_Sequence f) else None
  | _, _ => None
  end.
Definition stored (k : kind) (b : terminalStreamBinding) : Z :=
  match k with KInput => tb_inputSequence b | KResize => tb_resizeSequence b end.
Definition seqs (k : kind) (a : nat) (calls : list terminal_call) : list Z := omap (call_seq k a) calls.

Definition call_parts (c : terminal_call) : nat * terminalStreamBinding * Z :=
  match c with
  | CallInput a b f => (a, b, ti_StreamID f)
  | CallACK a b f => (a, b, ta_StreamID f)
  | CallResize a b f => (a, b, tr_StreamID f)
  end.

(** The parts of a binding that never change. *)
Definition same_binding (b b' : terminalStreamBinding) : Prop :=
  tb_authorization b = tb_authorization b' /\ tb_sessionID b = tb_sessionID b' /\ tb_attachmentID b = tb_attachmentID b' /\
  tb_generation b = tb_generation b' /\ tb_revoked b = tb_revoked b'.

(** The table is well-formed, every call had the binding of its address, the calls of each
    binding are numbered from 1, and the binding of a stream in the table records all of
    them, but for the one still pending. *)
Record streams_ok (w : stream_world) : Prop := {
  so_next : 0 <= tc_nextID (sw_state w) < two32;
  so_range : forall id a, tc_streams (sw_state w) !! id = Some a -> 1 <= id < two32 /\ is_Some (tc_objects (sw_state w) !! a);
  so_inj : forall id id' a, tc_streams (sw_state w) !! id = Some a -> tc_streams (sw_state w) !! id' = Some a -> id = id';
  so_calls : forall c, c ∈ sw_calls w -> exists b, tc_objects (sw_state w) !! (call_parts c).1.1 = Some b /\ same_binding (call_parts c).1.2 b;
  so_seqs : forall k a, seqs k a (sw_calls w) = seqZ 1 (len (seqs k a (sw_calls w)));
  so_recorded : forall k id a b, tc_streams (sw_state w) !! id = Some a -> tc_objects (sw_state w) !! a = Some b ->
    0 <= stored k b < two64 /\
    match sw_pending w with
    | Some c => stored k b = len (seqs k a (sw_calls w)) - (match call_seq k a c with Some _ => 1 | None => 0 end)
    | None => sw_open w = true -> stored k b = len (seqs k a (sw_calls w))
    end;
  so_pending : forall c, sw_pending w = Some c ->
    c ∈ sw_calls w /\ (forall id, tc_streams (sw_state w) !! id = Some (call_parts c).1.1 -> id = (call_parts c).2) /\
    forall k a q, call_seq k a c = Some q -> 0 < q < two64 /\ q = len (seqs k a (sw_calls w))
}.

Lemma same_binding_refl b : same_binding b b.
Proof. by split_and!. Qed.

Lemma binding_inv s id a b : binding s id = Ok (a, b) -> tc_streams s !! id = Some a /\ tc_objects s !! a = Some b.
Proof.
  unfold binding. case_decide; [done|]. destruct (tc_streams s !! id) as [a'|]; [|done].
  destruct (tc_objects s !! a') eqn:E; [|done]. by intros [= <- <-].
Qed.

Lemma validate_inv raised b u : validateTerminalBinding raised b = Ok u ->
  raised (tb_revoked b) = false /\ au_ClientID (tb_authorization b) <> "" /\ tb_sessionID b <> "" /\ tb_attachmentID b <> "" /\ tb_generation b <> 0.
Proof. unfold validateTerminalBinding. case_decide as H; [done|]. destruct (raised _); [done|]. intros _. tauto. Qed.

Lemma call_seq_address k a c q : call_seq k a c = Some q -> a = (call_parts c).1.1.
Proof. destruct k, c; simpl; try done; case_decide; naive_solver. Qed.

(** What a message that is handed over has been checked for. *)
Lemma terminal_begin_inv raised message s call :
  terminal_begin raised message s = Ok call ->
  let '(a, b, id) := call_parts call in
  tc_streams s !! id = Some a /\ tc_objects s !! a = Some b /\
  (raised (tb_revoked b) = false /\ au_ClientID (tb_authorization b) <> "" /\ tb_sessionID b <> "" /\ tb_attachmentID b <> "" /\ tb_generation b <> 0) /\
  forall k q, call_seq k a call = Some q -> 0 < q < two64 /\ q = u64_add (stored k b) 1.
Proof.
  unfold terminal_begin. destruct (TerminalOpcode message) as [op|]; [|done]. repeat case_decide; [..|done].
  - destruct (DecodeTerminalInput message) as [f|] eqn:Ef; [|done]. destruct (binding s _) as [[a b]|] eqn:Eb; [|done]. simpl.
    case_decide as Hq; [done|]. destruct (validateTerminalBinding raised b) eqn:Ev; [|done]. intros [= <-]. simpl.
    apply binding_inv in Eb as [? ?]. split_and!; try done; try by apply (validate_inv _ _ _ Ev).
    intros [|] q; simpl; [|done]. rewrite decide_True by done. intros [= <-].
    apply DecodeTerminalInput_iff in Ef as [(_&?&_) _]. done.
  - destruct (DecodeTerminalACK message) as [f|] eqn:Ef; [|done]. destruct (binding s _) as [[a b]|] eqn:Eb; [|done]. simpl.
    destruct (validateTerminalBinding raised b) eqn:Ev; [|done]. intros [= <-]. simpl.
    apply binding_inv in Eb as [? ?]. split_and!; try done; try by apply (validate_inv _ _ _ Ev). by intros [|].
  - destruct (DecodeTerminalResize message) as [f|] eqn:Ef; [|done]. destruct (binding s _) as [[a b]|] eqn:Eb; [|done]. simpl.
    case_decide as Hq; [done|]. destruct (validateTerminalBinding raised b) eqn:Ev; [|done]. intros [= <-]. simpl.
    apply binding_inv in Eb as [? ?]. split_and!; try done; try by apply (validate_inv _ _ _ Ev).
    intros [|] q; simpl; [done|]. rewrite decide_True by done. intros [= <-].
    apply DecodeTerminalResize_iff in Ef as [(_&_&_&?) _]. done.
Qed.

(** What recording a call changes. *)
Lemma terminal_end_spec call s :
  tc_streams (terminal_end call s) = tc_streams s /\ tc_nextID (terminal_end call s) = tc_nextID s /\
  forall a b, tc_objects (terminal_end call s) !! a = Some b ->
    exists b0, tc_objects s !! a = Some b0 /\ same_binding b0 b /\
      forall k, stored k b = match call_seq k a call with
                             | Some q => if decide (tc_streams s !! (call_parts call).2 = Some a) then q else stored k b0
                             | None => stored k b0 end.
Proof.
  destruct call as [a b f|a b f|a b f]; simpl; unfold record_sequence.
  2:{ split_and!; try done. intros a' b' H. exists b'. split_and!; [done|apply same_binding_refl|by intros [|]]. }
  all: case_decide as Hs; (split; [done|split; [done|]]); simpl; intros a' b' Hb.
  1,3: destruct (decide (a = a')) as [<-|Hne];
    [rewrite lookup_alter_eq in Hb; destruct (tc_objects s !! a) as [b0|] eqn:E; [|done]; injection Hb as <-; exists b0;
     split_and!; [done|by split_and!|intros [|]; simpl; rewrite ?decide_True by done; done]
    |rewrite lookup_alter_ne in Hb by done; exists b'; split_and!; [done|apply same_binding_refl|intros [|]; simpl; by rewrite ?decide_False by done]].
  all: exists b'; split_and!; [done|apply same_binding_refl|].
  all: intros [|]; simpl; try done; destruct (decide (a = a')) as [<-|]; try done; by rewrite decide_False by done.
Qed.

Lemma terminal_end_objects call s a : is_Some (tc_objects s !! a) -> is_Some (tc_objects (terminal_end call s) !! a).
Proof. destruct call; simpl; unfold record_sequence; try done; case_decide; simpl; try done; rewrite lookup_alter_is_Some; done. Qed.

Lemma bind_spec now new authorization frame outcome s s' r :
  0 <= tc_nextID s < two32 -> bind now new authorization frame outcome s = (s', r) ->
  0 <= tc_nextID s' < two32 /\
  match r with
  | Err _ => tc_streams s' = tc_streams s /\ tc_objects s' = tc_objects s
  | Ok id => 1 <= id < two32 /\ tc_streams s !! id = None /\ tc_streams s' = <[id := new]> (tc_streams s) /\
      exists request response, decode_terminal (default [] (fr_Payload frame)) = Some request /\ decode_attach (oc_Result outcome) = Some response /\
        (au_ExpiresAt authorization <> zero_time -> now < au_ExpiresAt authorization) /\
        tc_objects s' = <[new := mkBinding authorization (tq_SessionID request) (ar_AttachmentID response) (ar_Generation response) 0 0
                                  (default FConnection (au_Revoked authorization))]> (tc_objects s)
  end.
Proof.
  intros Hn. unfold bind. destruct (decide (fr_Capability frame = "terminal.v1")); [|by intros [= <- <-]].
  destruct (decode_terminal _) as [request|]; [|by intros [= <- <-]]. destruct (decode_attach _) as [response|]; [|by intros [= <- <-]].
  case_decide; [by intros [= <- <-]|]. case_decide as Hx; [by intros [= <- <-]|].
  pose proof (find_id_spec (tc_streams s) (attempts (tc_streams s)) (tc_nextID s) Hn) as Hf.
  destruct (find_id _ _ _) as [x [id|]]; intros [= <- <-]; simpl.
  - destruct Hf as (->&?&?). split; [lia|]. split; [done|]. split; [done|]. split; [done|]. exists request, response. split_and!; try done.
    intros Hz. destruct (decide (now < au_ExpiresAt authorization)); [done|]. destruct Hx. by split.
  - by destruct Hf.
Qed.

Lemma streams_ok_bind w now new authorization frame outcome s' r :
  tc_objects (sw_state w) !! new = None -> bind now new authorization frame outcome (sw_state w) = (s', r) ->
  streams_ok w -> streams_ok (mkStreamWorld s' (sw_pending w) (sw_calls w) (sw_open w)).
Proof.
  intros Hnew E [H1 H2 H3 H4 H5 H6 H7]. apply bind_spec in E as [Hn Hr]; [|done]. destruct r as [id|e].
  2:{ destruct Hr as [Es Eo]. split; simpl; rewrite ?Es, ?Eo; done. }
  destruct Hr as (Hid&Hfree&Es&request&response&_&_&_&Eo).
  assert (Hold : forall i a, tc_streams (sw_state w) !! i = Some a -> a <> new).
  { intros i a Hi ->. destruct (H2 _ _ Hi) as [_ [? ?]]. congruence. }
  assert (Hcall : forall c, c ∈ sw_calls w -> (call_parts c).1.1 <> new).
  { intros c Hc E. destruct (H4 c Hc) as (b&Hb&_). rewrite E in Hb. congruence. }
  split; simpl; rewrite ?Es, ?Eo; try done.
  - intros i a. rewrite lookup_insert_Some. intros [[<- <-]|[_ Hi]]; [rewrite lookup_insert_eq; by eauto|].
    rewrite lookup_insert_ne by (intros <-; by eapply Hold). by apply H2.
  - intros i i' a. rewrite !lookup_insert_Some. intros [[<- <-]|[_ Hi]] [[<- E]|[_ Hi']]; try done;
      [by destruct (Hold _ _ Hi')|by subst; destruct (Hold _ _ Hi)|by eapply H3].
  - intros c Hc. rewrite lookup_insert_ne by (intros E; by destruct (Hcall c Hc)). by apply H4.
  - intros k i a b. rewrite lookup_insert_Some. intros [[<- <-]|[_ Hi]].
    + rewrite lookup_insert_eq. intros [= <-]. split; [by destruct k|].
      assert (Hnil : forall c, c ∈ sw_calls w -> call_seq k new c = None).
      { intros c Hc. destruct (call_seq k new c) eqn:E; [|done]. apply call_seq_address in E. by destruct (Hcall c Hc). }
      assert (En : seqs k new (sw_calls w) = []).
      { unfold seqs. apply elem_of_nil_inv. intros q (c&Hc&Eq)%list_elem_of_omap. by rewrite Hnil in Eq. }
      rewrite En. destruct (sw_pending w) as [c|] eqn:Ep; [|by destruct k].
      rewrite (Hnil c) by apply (H7 c eq_refl). by destruct k.
    + rewrite lookup_insert_ne by (intros <-; by eapply Hold). by apply (H6 k i).
  - intros c Hc. destruct (H7 c Hc) as (Hin&Hids&Hq). split_and!; try done. intros i. rewrite lookup_insert_Some.
    intros [[<- E]|[_ Hi]]; [by destruct (Hcall c Hin)|by apply Hids].
Qed.

Lemma streams_ok_message s calls raised message call :
  terminal_begin raised message s = Ok call -> streams_ok (mkStreamWorld s None calls true) ->
  streams_ok (mkStreamWorld s (Some call) (calls ++ [call]) true).
Proof.
  intros E [H1 H2 H3 H4 H5 H6 H7]. simpl in *. apply terminal_begin_inv in E.
  destruct (call_parts call) as [[a b] id] eqn:Ep. destruct E as (Hid&Hb&_&Hq).
  assert (Hlast : forall k a' q, call_seq k a' call = Some q -> 0 < q < two64 /\ q = len (seqs k a' calls) + 1).
  { intros k a' q Hc. pose proof (call_seq_address _ _ _ _ Hc) as Ha. rewrite Ep in Ha. simpl in Ha. subst a'.
    destruct (Hq k q Hc) as [Hr ->]. destruct (H6 k _ _ _ Hid Hb) as [Hs Hn]. specialize (Hn eq_refl). rewrite <- Hn.
    split; [exact Hr|]. destruct (decide (stored k b + 1 < two64)); [rewrite u64_add_small by lia; lia|].
    exfalso. assert (stored k b = max_uint64) as E by (unfold two64, max_uint64 in *; lia). rewrite E in Hr. destruct Hr as [Hr _]. by vm_compute in Hr. }
  assert (Happ : forall k a', seqs k a' (calls ++ [call]) = seqs k a' calls ++ option_list (call_seq k a' call)).
  { intros. unfold seqs. rewrite omap_app. simpl. by destruct (call_seq k a' call). }
  split; simpl; try done.
  - intros c [Hc| ->%list_elem_of_singleton]%elem_of_app; [by apply H4|]. rewrite Ep. simpl. exists b. split; [done|apply same_binding_refl].
  - intros k a'. rewrite Happ. destruct (call_seq k a' call) as [q|] eqn:Eq; simpl; [|by rewrite app_nil_r].
    destruct (Hlast _ _ _ Eq) as [_ ->]. rewrite length_app, Nat2Z.inj_add. simpl.
    rewrite seqZ_app by lia. simpl. rewrite <- (H5 k a'). f_equal. unfold seqZ. simpl. f_equal. lia.
  - intros k i a' b' Hi Hb'. destruct (H6 k _ _ _ Hi Hb') as [Hs Hn]. split; [done|]. rewrite Happ, length_app.
    specialize (Hn eq_refl). destruct (call_seq k a' call); simpl; lia.
  - intros c [= <-]. rewrite Ep. simpl. split_and!.
    + rewrite elem_of_app. right. by left.
    + intros i Hi. by eapply H3.
    + intros k a' q Hc. destruct (Hlast _ _ _ Hc) as [? ->]. split; [done|]. rewrite Happ, Hc, length_app. simpl. lia.
Qed.

Lemma streams_ok_handled s calls call :
  streams_ok (mkStreamWorld s (Some call) calls true) -> streams_ok (mkStreamWorld (terminal_end call s) None calls true).
Proof.
  intros [H1 H2 H3 H4 H5 H6 H7]. simpl in *. destruct (terminal_end_spec call s) as (Es&En&Eo).
  destruct (H7 call eq_refl) as (_&Hids&Hq).
  split; simpl; rewrite ?Es, ?En; try done.
  - intros i a Hi. destruct (H2 _ _ Hi). split; [done|]. by apply terminal_end_objects.
  - intros c Hc. destruct (H4 c Hc) as (b&Hb&Hsame). destruct (terminal_end_objects call s (call_parts c).1.1) as [b' Hb']; [by eauto|].
    exists b'. split; [done|]. destruct (Eo _ _ Hb') as (b0&Hb0&Hs0&_). rewrite Hb in Hb0. injection Hb0 as <-.
    destruct Hsame as (?&?&?&?&?), Hs0 as (?&?&?&?&?). split_and!; congruence.
  - intros k i a b Hi Hb. destruct (Eo _ _ Hb) as (b0&Hb0&_&Hk). destruct (H6 k _ _ _ Hi Hb0) as [Hr Hn]. rewrite Hk.
    destruct (call_seq k a call) as [q|] eqn:Ec; [|split; [done|lia]].
    pose proof (call_seq_address _ _ _ _ Ec) as ->. rewrite <- (Hids _ Hi), decide_True by done.
    destruct (Hq _ _ _ Ec). split; [lia|done].
Qed.

Lemma stream_step_ok w w' : stream_step w w' -> streams_ok w -> streams_ok w'.
Proof.
  intros Hs. destruct Hs as [s calls raised m c E|s calls raised m e E|s calls c|s calls c|w now new a f o s' r Hnew E|w id|w].
  - by apply (streams_ok_message _ _ _ _ _ E).
  - intros [H1 H2 H3 H4 H5 H6 H7]. simpl in *. split; try done. simpl. intros k i a b Hi Hb. by destruct (H6 k i a b Hi Hb).
  - apply streams_ok_handled.
  - intros [H1 H2 H3 H4 H5 H6 H7]. simpl in *. split; try done. simpl. intros k i a b Hi Hb. by destruct (H6 k i a b Hi Hb).
  - by apply (streams_ok_bind _ _ _ _ _ _ _ _ Hnew E).
  - intros [H1 H2 H3 H4 H5 H6 H7]. split; simpl; try done.
    + intros i a [_ Hi]%lookup_delete_Some. by apply H2.
    + intros i i' a [_ Hi]%lookup_delete_Some [_ Hi']%lookup_delete_Some. by eapply H3.
    + intros k i a b [_ Hi]%lookup_delete_Some. by apply (H6 k i).
    + intros c Hc. destruct (H7 c Hc) as (?&Hids&?). split_and!; try done. intros i [_ Hi]%lookup_delete_Some. by apply Hids.
  - intros [H1 H2 H3 H4 H5 H6 H7]. by split.
Qed.

Lemma new_stream_world_ok : streams_ok new_stream_world.
Proof. split; simpl; try done; try set_solver. Qed.

Lemma streams_reachable_ok w : rtc stream_step new_stream_world w -> streams_ok w.
Proof. intros H. exact (rtc_invariant _ _ stream_step_ok _ _ H new_stream_world_ok). Qed.

(** C19.  Keystrokes are neither lost, repeated nor reordered, and reach only the terminal the
    stream was attached to: in every interleaving of messages with streams being bound and
    removed, the inputs handed to the handler for one binding are numbered 1, 2, 3, ... in
    this order, and so are the resizes; every call carries the authorization, session,
    attachment and generation of the binding; and the numbers of the streams are distinct,
    positive 32-bit numbers, each with a binding. *)
Theorem stream_calls_exact (w : stream_world) :
  rtc stream_step new_stream_world w ->
  (forall k a, seqs k a (sw_calls w) = seqZ 1 (len (seqs k a (sw_calls w)))) /\
  (forall c, c ∈ sw_calls w -> exists b, tc_objects (sw_state w) !! (call_parts c).1.1 = Some b /\ same_binding (call_parts c).1.2 b) /\
  (forall id a, tc_streams (sw_state w) !! id = Some a -> 1 <= id < two32 /\ is_Some (tc_objects (sw_state w) !! a)) /\
  (forall id id' a, tc_streams (sw_state w) !! id = Some a -> tc_streams (sw_state w) !! id' = Some a -> id = id').
Proof. intros [_ H2 H3 H4 H5 _ _]%streams_reachable_ok. by split_and!. Qed.

(** An attached terminal gets a stream: for a credential that has not expired and a
    well-formed attach, the search for a free number, which the code cuts off after 2^32 - 1
    attempts, finds one unless all are taken, and it is positive and not in use. *)
Theorem stream_bound (w : stream_world) (now : time) (new : nat) (authorization : Authorization) (frame : Frame) (outcome : Outcome)
    (request : terminalRequest) (response : attach_response) :
  rtc stream_step new_stream_world w -> Z.of_nat (size (tc_streams (sw_state w))) < two32 - 1 ->
  fr_Capability frame = "terminal.v1" -> decode_terminal (default [] (fr_Payload frame)) = Some request ->
  decode_attach (oc_Result outcome) = Some response -> tq_Action request = "attach" -> tq_SessionID request <> "" ->
  ar_AttachmentID response <> "" -> ar_Generation response <> 0 -> now < au_ExpiresAt authorization ->
  exists id s', find_id (Z.to_nat (two32 - 1)) (tc_nextID (sw_state w)) (tc_streams (sw_state w)) = (id, Some id) /\
    bind now new authorization frame outcome (sw_state w) = (s', Ok id) /\
    1 <= id < two32 /\ tc_streams (sw_state w) !! id = None /\ tc_streams s' = <[id := new]> (tc_streams (sw_state w)) /\
    exists b, tc_objects s' !! new = Some b /\ tb_authorization b = authorization /\ tb_sessionID b = tq_SessionID request /\
      tb_attachmentID b = ar_AttachmentID response /\ tb_generation b = ar_Generation response.
Proof.
  intros Hw Hs Hc Hr Ha H1 H2 H3 H4 Hx. apply streams_reachable_ok in Hw. pose proof (so_next _ Hw) as Hn.
  destruct (find_id_found (tc_streams (sw_state w)) _ Hn ltac:(lia)) as [id E].
  destruct (bind now new authorization frame outcome (sw_state w)) as [s' r] eqn:Eb. pose proof Eb as Eb'.
  unfold bind in Eb. rewrite Hr, Ha, (decide_True_pi Hc), E in Eb.
  rewrite decide_False in Eb by tauto. rewrite decide_False in Eb by tauto. injection Eb as <- <-.
  apply bind_spec in Eb' as (_&Hid&Hfree&Es&_); [|done]. eexists id, _. rewrite find_id_enough by done.
  split_and!; try done; try lia. eexists. simpl. rewrite lookup_insert_eq. by split_and!.
Qed.

(** The flag of every binding is that of its authorization, or the connection's. *)
Lemma flags_ok w : rtc stream_step new_stream_world w ->
  forall a b, tc_objects (sw_state w) !! a = Some b -> tb_revoked b = default FConnection (au_Revoked (tb_authorization b)).
Proof.
  intros H. apply (rtc_invariant stream_step (fun w => streams_ok w /\ forall a b, tc_objects (sw_state w) !! a = Some b ->
    tb_revoked b = default FConnection (au_Revoked (tb_authorization b)))) in H; [by destruct H| |split; [apply new_stream_world_ok|done]].
  intros x y Hs [Hok Hf]. split; [by apply (stream_step_ok _ _ Hs)|].
  destruct Hs as [| |s calls c| |w0 now new au f o s' r Hnew E| |]; try done; simpl in *.
  - intros a b Hb. destruct (terminal_end_spec c s) as (_&_&Eo). destruct (Eo _ _ Hb) as (b0&Hb0&(E1&_&_&_&E2)&_).
    rewrite <- E1, <- E2. by apply (Hf a).
  - apply bind_spec in E as [_ Hr]; [|by apply so_next]. destruct r as [id|e]; [|destruct Hr as [_ ->]; done].
    destruct Hr as (_&_&_&request&response&_&_&_&->). intros a b. rewrite lookup_insert_Some. intros [[<- <-]|[_ Hb]]; [done|]. by apply (Hf a).
Qed.
End Run.

(** ** Revocation reaches the streams *)

(** What reading a flag gives. *)
Definition raised_in (c : RevocationCache) (connection : bool) (f : flag) : bool :=
  match f with
  | FWatcher id => match rv_objects c !! id with Some w => wt_flag w | None => false end
  | FConnection => connection
  end.

(** C22.  A revoked credential types nothing more: once its identifier is on the revocation
    list, and for as long as the connection is open, no binary message for a stream attached
    under it is handed to the handler, whatever is written in the message. *)
Theorem revoked_stream_refused {K : Type} {BJ : BindingJson} {TJ : TerminalJson} (sha256 : list byte -> list byte) (token : string)
    (c : RevocationCache) (s : authorizer_state) (w : stream_world) (id : Z) (a : nat) (b : terminalStreamBinding) (claims : Claims)
    (connection : bool) (message : list byte) :
  rtc revocation_step NewRevocationCache c -> rtc (@authorizer_step K BJ sha256) (new_authorizer token c) s ->
  rtc stream_step new_stream_world w ->
  tc_streams (sw_state w) !! id = Some a -> tc_objects (sw_state w) !! a = Some b ->
  tb_authorization b ∈ as_given s -> au_Value (tb_authorization b) = Some claims ->
  is_Some (ca_release (as_authorizer s)) -> cl_JTI claims ∈ rv_revoked (as_cache s) ->
  ~ exists call, terminal_begin (raised_in (as_cache s) connection) message (sw_state w) = Ok call /\ (call_parts call).1.1 = a.
Proof.
  intros Hc Hs Hw Hid Hb Hin Hv Hopen Hrev (call & E & Ha). revert Ha. apply terminal_begin_inv in E.
  destruct (call_parts call) as [[a' b'] id']. destruct E as (Hid'&Hb'&(Hraised&_)&_). simpl. intros ->.
  rewrite Hb in Hb'. injection Hb' as <-. rewrite (flags_ok _ Hw _ _ Hb) in Hraised.
  destruct (connection_revocation sha256 _ _ _ _ _ Hc Hs Hin Hv) as (watcher&Hr&_&_&Hflag).
  destruct (Hflag Hopen Hrev) as (wt&Hwt&Hf&_). rewrite Hr in Hraised. simpl in Hraised. rewrite Hwt in Hraised. congruence.
Qed.

(** ** Witnesses: one attach, one keystroke and its retransmission *)

Definition demo_terminal_json : TerminalJson := {|
  decode_terminal := fun _ => Some (mkTerminalRequest "attach" "" "" "" "s1" "" 0 false 0 0 0 [] "");
  decode_attach := fun _ => Some (mkAttachResponse "att1" 1)
|}.
Definition demo_given : Authorization := default zero_Authorization (head (as_given demo_revoked_state)).
Definition demo_bound : terminalConnectionState :=
  (@bind demo_terminal_json (150 * second) 0 demo_given (demo_request "terminal.v1") no_outcome newTerminalConnectionState).1.
Definition demo_key_press : list byte := [x01; x00; x00; x00; x01; x00; x00; x00; x00; x00; x00; x00; x01; x61].
Definition demo_press_call : terminal_call :=
  CallInput 0 (mkBinding demo_given "s1" "att1" 1 0 0 (FWatcher 3)) (mkTInput 1 1 [x61]).
Definition demo_pressed : stream_world := mkStreamWorld (terminal_end demo_press_call demo_bound) None [demo_press_call] true.

Lemma demo_bound_reachable : rtc (@stream_step demo_terminal_json) new_stream_world (mkStreamWorld demo_bound None [] true).
Proof.
  apply rtc_once. apply (SBind new_stream_world (150 * second) 0 demo_given (demo_request "terminal.v1") no_outcome demo_bound (Ok 1));
    by vm_compute.
Qed.

Lemma demo_pressed_reachable : rtc (@stream_step demo_terminal_json) new_stream_world demo_pressed.
Proof.
  eapply rtc_r; [eapply rtc_r; [exact demo_bound_reachable|]|apply SHandled].
  apply (SMessage _ [] (fun _ => false) demo_key_press demo_press_call). by vm_compute.
Qed.

Lemma stream_calls_exact_witness :
  seqs KInput 0 (sw_calls demo_pressed) = [1] /\
  (exists b, tc_objects (sw_state demo_pressed) !! 0%nat = Some b /\ same_binding (call_parts demo_press_call).1.2 b) /\
  (@terminal_begin (fun _ => false) demo_key_press (sw_state demo_pressed) = Err (PError InvalidFrame)).
Proof.
  destruct (@stream_calls_exact demo_terminal_json demo_pressed demo_pressed_reachable) as (H1&H2&_).
  split_and!; [rewrite (H1 KInput 0%nat); by vm_compute|apply (H2 demo_press_call); by left|by vm_compute].
Defined.

Lemma stream_bound_witness : exists id s',
  @bind demo_terminal_json (150 * second) 7 demo_given (demo_request "terminal.v1") no_outcome (sw_state demo_pressed) = (s', Ok id) /\ id <> 1.
Proof.
  assert (Hsize : Z.of_nat (size (tc_streams (sw_state demo_pressed))) < two32 - 1) by by vm_compute.
  assert (Hexpiry : 150 * second < au_ExpiresAt demo_given) by by vm_compute.
  assert (Hone : tc_streams (sw_state demo_pressed) !! 1 = Some 0%nat) by by vm_compute.
  destruct (@stream_bound demo_terminal_json demo_pressed (150 * second) 7 demo_given (demo_request "terminal.v1") no_outcome
              (mkTerminalRequest "attach" "" "" "" "s1" "" 0 false 0 0 0 [] "") (mkAttachResponse "att1" 1) demo_pressed_reachable
              Hsize eq_refl eq_refl eq_refl eq_refl ltac:(discriminate) ltac:(discriminate) ltac:(discriminate) Hexpiry)
    as (id&s'&Hid).
  destruct Hid as (_&H2&_&H4&_). exists id, s'. split; [exact H2|]. intros E. rewrite E, Hone in H4. discriminate H4.
Defined.

Lemma revoked_stream_refused_witness :
  terminal_begin (fun _ => false) demo_key_press demo_bound = Ok demo_press_call /\
  ~ exists call, terminal_begin (raised_in (as_cache demo_revoked_state) false) demo_key_press demo_bound = Ok call /\ (call_parts call).1.1 = 0%nat.
Proof.
  split; [by vm_compute|].
  apply (@revoked_stream_refused unit demo_binding_json demo_terminal_json demo_hash demo_token NewRevocationCache demo_revoked_state
           (mkStreamWorld demo_bound None [] true) 1 0 (mkBinding demo_given "s1" "att1" 1 0 0 (FWatcher 3)) demo_terminal_claims);
    [apply rtc_refl|exact demo_revoked_reachable|exact demo_bound_reachable|by vm_compute|by vm_compute| |by vm_compute|by vm_compute; eexists|].
  - apply list_elem_of_singleton. by vm_compute.
  - by vm_compute.
Defined.
