(* ===== verification/Server.v ===== *)
(** * The server of the helper protocol ([internal/server/server.go])

    A connection starts with a hello and its negotiation; then the loop of
    [ServeAuthenticated] dispatches frames.  Every request becomes a goroutine, which is
    authorized, registered, executed under the operation journal, and answered; an attach
    also opens an output stream.  The loop is [handshake] and [on_frame]; the goroutine of
    [startRequest] is the machine of [stage]s, one step per access to what goroutines
    share, interleaved with everything else by [server_step].

    The authorizer and the handler are interfaces of the source: what they answer is an
    input of the steps.  Frames handed to the writer are recorded in a log. *)

From S2P Require Import Prelude Config Input Store StoreOperations Frame Negotiation Auth Credential Streams Journal Wire Binary.

(** ** Data *)

Record server_config := mkServerConfig {
  sc_Journal : bool;             (* not nil *)
  sc_Handler : bool;             (* not nil *)
  sc_Control : bool;             (* the handler is a [ControlHandler] *)
  sc_Stream : bool;              (* the handler is a [StreamHandler] *)
  sc_MaxConcurrent : Z;
  sc_HeartbeatInterval : Z;
  sc_PeerTimeout : Z;
  sc_MutationDeadline : Z
}.

(** [New]: the defaults and checks of the configuration. *)
Definition New (c : server_config) : result serve_error server_config :=
  let c := mkServerConfig (sc_Journal c) (sc_Handler c) (sc_Control c) (sc_Stream c)
             (if decide (sc_MaxConcurrent c = 0) then MaxConcurrentOps DefaultResources else sc_MaxConcurrent c)
             (sc_HeartbeatInterval c) (sc_PeerTimeout c) (sc_MutationDeadline c) in
  if decide (sc_Journal c = false \/ sc_Handler c = false \/ sc_MaxConcurrent c < 1 \/ sc_HeartbeatInterval c <= 0
             \/ sc_PeerTimeout c < sc_HeartbeatInterval c \/ sc_MutationDeadline c <= 0 \/ 5 * minute < sc_MutationDeadline c)
  then Err ErrInvalidConfiguration
  else Ok c.

Record helloPayload := mkHello { hp_MinVersion : string; hp_MaxVersion : string; hp_Capabilities : list string }.

Fixpoint repeated (seen : gset string) (l : list string) : bool :=
  match l with
  | [] => false
  | c :: l => if decide (c ∈ seen) then true else repeated ({[c]} ∪ seen) l
  end.

Definition hello_validate (p : helloPayload) : bool :=
  if decide (hp_MinVersion p = "" \/ hp_MaxVersion p = "" \/ 64 < len (hp_Capabilities p)) then false
  else negb (repeated ∅ (hp_Capabilities p)).

(** An error as it is sent, with the numbers it may carry. *)
Record ErrorBody := mkErrorBody {
  eb_Code : string; eb_Message : string; eb_RequestID : string; eb_Retryable : bool; eb_Details : option (list (string * Z))
}.

(** The JSON library on what the server reads and writes. *)
Class ServerJson := {
  decode_hello : list byte -> option helloPayload;
  marshal_welcome : Welcome -> option (list byte) -> list byte;
  marshal_error : ErrorBody -> list byte;
  marshal_operation : string -> string -> option (list byte) -> option (list byte);
  marshal_response : list byte -> bool -> option (list byte);
  add_stream_id : list byte -> Z -> option (list byte);
  decode_number : string -> list byte -> option Z          (* the named field of an object *)
}.

(** The errors of [Journal.Execute] as the server sees them: a context that ended, canceled
    or past its deadline, or an error of the journal. *)
Inductive exec_error := XCanceled | XDeadline | XJournal (e : journal_error).

Definition operationErrorCode (e : exec_error) : string :=
  match e with
  | XCanceled => "operation_canceled"
  | XDeadline => "deadline_exceeded"
  | XJournal ErrOperationConflict => "operation_id_conflict"
  | XJournal (ErrOperationUncertain _) => "operation_uncertain"
  | XJournal ErrJournalFull => "resource_limit"
  | XJournal _ => "unavailable"
  end.

Definition operationErrorMessage (code : string) : string :=
  if decide (code = "operation_canceled") then "operation canceled"
  else if decide (code = "deadline_exceeded") then "operation deadline exceeded"
  else "operation could not be completed".

Definition operationKey (binding operationID : string) : string := binding +:+ String "000" operationID.

Definition protocolCode (e : perror) : string :=
  match e with
  | PError Malformed => "malformed_frame" | PError Oversized => "frame_too_large" | PError UnsupportedMessage => "unsupported_message_type"
  | PError InvalidFrame => "invalid_frame" | PError CapabilityRequired => "capability_required"
  | PError InvalidDeadline => "invalid_deadline" | PError CredentialExpired => "credential_expired"
  | PError UnsupportedChannel => "unsupported_channel" | PError ProtocolIncompatible => "protocol_incompatible"
  | PStream _ => "unavailable"
  end.

Definition componentForCapability (capability : string) : string :=
  if decide (capability = "terminal.v1") then "session"
  else if decide (capability = "preview.public.v1") then "preview"
  else if decide (capability = "update.signed.v1") then "update"
  else "protocol".

Definition metricResult (code : string) (replay : bool) : string :=
  if replay then "replayed"
  else if decide (code = "") then "ok"
  else if decide (code ∈ ["operation_id_conflict"; "input_id_conflict"]) then "conflict"
  else if decide (code = "operation_canceled") then "canceled"
  else if decide (code = "deadline_exceeded") then "deadline"
  else if decide (code ∈ ["unavailable"; "operation_uncertain"; "storage_unavailable"; "resource_limit"]) then "unavailable"
  else "rejected".

Section Frames.
Context `{SJ : ServerJson}.

(** Only numbers are let through, and only for three codes. *)
Definition safeErrorDetails (code : string) (details : list byte) : option (list (string * Z)) :=
  if decide (details = []) then None
  else if decide (code = "slow_consumer") then
    match decode_number "queued_bytes" details with Some n => Some [("queued_bytes", n)] | None => None end
  else if decide (code = "stale_generation") then
    match decode_number "current_generation" details with Some n => Some [("current_generation", n)] | None => None end
  else if decide (code <> "replay_gap") then None
  else match decode_number "requested_sequence" details, decode_number "earliest_sequence" details, decode_number "latest_sequence" details with
       | Some r, Some e, Some l => Some [("requested_sequence", r); ("earliest_sequence", e); ("latest_sequence", l)]
       | _, _, _ => None
       end.

Definition errorFrameWithDetails (requestID code message : string) (retryable : bool) (details : list byte) : Frame :=
  mkFrame "error" requestID ProtocolVersion "" "" 0
    (Some (marshal_error (mkErrorBody code message requestID retryable (safeErrorDetails code details)))).

Definition errorFrame (requestID code message : string) (retryable : bool) : Frame :=
  errorFrameWithDetails requestID code message retryable [].

Definition responseFrame (requestID operationID : string) (payload : option (list byte)) : Frame :=
  mkFrame "response" requestID ProtocolVersion operationID "" 0 payload.
End Frames.

(** ** The connection *)

Section Connection.
Context `{SJ : ServerJson} `{TJ : TerminalJson}.

(** What [readApplication] gives. *)
Inductive read_result := ReadStructured (f : Frame) | ReadBinary (m : list byte) | ReadFailed (e : perror).

(** The frames written before the loop and what the handshake comes to: the negotiated
    capabilities, or why the connection ends.  [secret] is what the connection adds to the
    welcome, [wrote] the result of writing it; errors of writing an error are ignored. *)
Definition handshake (order : gset string -> list string) (n : Negotiator) (secret : option (list byte)) (wrote : option perror)
    (first : read_result) : list Frame * result serve_error (gset string) :=
  match first with
  | ReadFailed e => ([], Err (SProtocol e))
  | ReadBinary (_ :: _) => ([errorFrame "" "protocol_incompatible" "hello required" false], Err (SProtocol (PError InvalidFrame)))
  | ReadBinary [] => ([errorFrame "" "protocol_incompatible" "hello required" false], Err ErrHandshakeRequired)
  | ReadStructured f =>
      if decide (fr_Type f <> "hello")
      then ([errorFrame (fr_RequestID f) "protocol_incompatible" "hello required" false], Err ErrHandshakeRequired)
      else match decode_hello (default [] (fr_Payload f)) with
      | None => ([errorFrame (fr_RequestID f) "invalid_request" "invalid hello" false], Err SPayload)
      | Some hello =>
          if negb (hello_validate hello)
          then ([errorFrame (fr_RequestID f) "invalid_request" "invalid hello" false], Err ErrHandshakeRequired)
          else match Negotiate order n (hp_MinVersion hello) (hp_MaxVersion hello) (hp_Capabilities hello) with
          | Err e => ([errorFrame (fr_RequestID f) (protocolCode e) "protocol negotiation failed" false], Err (SProtocol e))
          | Ok welcome =>
              ([mkFrame "welcome" (fr_RequestID f) ProtocolVersion "" "" 0 (Some (marshal_welcome welcome secret))],
               match wrote with Some e => Err (SWrite e) | None => Ok (list_to_set (wl_Capabilities welcome)) end)
          end
      end
  end.

(** ** Server and requests *)

(** [sv_running] maps operation keys to the request that can be canceled under them;
    [sv_canceled] are the requests whose context was canceled that way. *)
Record Server := mkServer {
  sv_config : server_config;
  sv_stopped : bool;
  sv_sem : Z;
  sv_running : gmap string nat;
  sv_canceled : gset nat
}.

Definition registerOperation (key : string) (request : nat) (s : Server) : Server * bool * bool :=
  if sv_stopped s then (s, false, false)
  else match sv_running s !! key with
       | Some _ => (s, false, true)
       | None => (mkServer (sv_config s) (sv_stopped s) (sv_sem s) (<[key := request]> (sv_running s)) (sv_canceled s), true, true)
       end.

Definition unregisterOperation (key : string) (s : Server) : Server :=
  mkServer (sv_config s) (sv_stopped s) (sv_sem s) (delete key (sv_running s)) (sv_canceled s).

Definition cancelOperation (key : string) (s : Server) : Server :=
  match sv_running s !! key with
  | Some r => mkServer (sv_config s) (sv_stopped s) (sv_sem s) (sv_running s) ({[r]} ∪ sv_canceled s)
  | None => s
  end.

(** The state part of [Shutdown]: no new operation is registered, the running ones are
    canceled. *)
Definition Shutdown (s : Server) : Server :=
  if sv_stopped s then s
  else mkServer (sv_config s) true (sv_sem s) (sv_running s) (list_to_set (map_to_list (sv_running s)).*2 ∪ sv_canceled s).

(** [s.sem <- struct{}{}] without blocking, and its release. *)
Definition acquire (s : Server) : option Server :=
  if decide (sv_sem s < sc_MaxConcurrent (sv_config s))
  then Some (mkServer (sv_config s) (sv_stopped s) (sv_sem s + 1) (sv_running s) (sv_canceled s)) else None.
Definition release (s : Server) : Server :=
  mkServer (sv_config s) (sv_stopped s) (sv_sem s - 1) (sv_running s) (sv_canceled s).

(** Where the goroutine of a request is.  [owner]: it registered the operation. *)
Inductive stage :=
| AtAuthorize
| AtRegister (a : Authorization)
| AtBegin (a : Authorization) (owner : bool)
| AtWait (a : Authorization) (owner : bool) (runner : nat)
| AtHandle (a : Authorization) (owner : bool) (hash : digest)
| AtOutcome (a : Authorization) (owner : bool) (outcome : Outcome) (replay : bool)
| AtBind (a : Authorization) (owner : bool) (outcome : Outcome) (replay : bool)
| AtRespond (a : Authorization) (owner : bool) (outcome : Outcome) (replay : bool) (stream : option Z)
| AtEnd (key : option string)        (* answered: the deferred calls are left *)
| Finished.

Record request := mkRequest { rq_connection : nat; rq_frame : Frame; rq_stage : stage }.

(** An answer of the request, and that it is left with the deferred calls. *)
Definition after (owner : bool) (a : Authorization) (f : Frame) : stage :=
  AtEnd (if owner then Some (operationKey (au_JournalBinding a) (fr_OperationID f)) else None).

(** What follows a call of [Journal.Execute]: the next stage, and the answer, if any. *)
Definition after_execute (a : Authorization) (owner : bool) (f : Frame) (r : Outcome * bool * option exec_error) : stage * list Frame :=
  match r with
  | (_, _, Some e) =>
      (after owner a f, [errorFrame (fr_RequestID f) (operationErrorCode e) (operationErrorMessage (operationErrorCode e))
                           (match e with XDeadline => true | _ => false end)])
  | (outcome, replay, None) =>
      if decide (oc_ErrorCode outcome <> "")
      then (after owner a f, [errorFrameWithDetails (fr_RequestID f) (oc_ErrorCode outcome) "operation failed" false (oc_Result outcome)])
      else (AtOutcome a owner outcome replay, [])
  end.

(** What [OpenStream] answers. *)
Inductive opened := NoStream | Stream | StreamFailed.

Definition after_open (a : Authorization) (owner : bool) (f : Frame) (outcome : Outcome) (replay : bool) (o : opened) : stage * list Frame :=
  match o with
  | StreamFailed => (after owner a f, [errorFrame (fr_RequestID f) "unavailable" "output stream could not be opened" true])
  | NoStream => (AtRespond a owner outcome replay None, [])
  | Stream => (AtBind a owner outcome replay, [])
  end.

(** [terminalState.bind], then [addStreamID] in the result; on failure the stream is closed. *)
Definition after_bind (now : time) (new : nat) (a : Authorization) (owner : bool) (f : Frame) (outcome : Outcome) (replay : bool)
    (s : terminalConnectionState) : terminalConnectionState * stage * list Frame :=
  match bind now new a f outcome s with
  | (s1, Err _) => (s1, after owner a f, [errorFrame (fr_RequestID f) "invalid_request" "terminal stream could not be bound" false])
  | (s1, Ok id) =>
      match add_stream_id (oc_Result outcome) id with
      | None => (remove id s1, after owner a f, [errorFrame (fr_RequestID f) "unavailable" "terminal stream could not be opened" true])
      | Some result => (s1, AtRespond a owner (mkOutcomeResult result (oc_ErrorCode outcome)) replay (Some id), [])
      end
  end.

(** ** Control frames *)

(** [handleControl]: what the authorizer and the handler answer gives one frame. *)
Definition handleControl (c : server_config) (f : Frame) (authorized : option Authorization) (outcome : Authorization -> Outcome) : Frame :=
  if negb (sc_Control c) then errorFrame (fr_RequestID f) "invalid_request" "unsupported control frame" false
  else match authorized with
  | None => errorFrame (fr_RequestID f) "not_found_or_forbidden" "resource was not found or is not available" false
  | Some a =>
      if decide (au_JournalBinding a = "")
      then errorFrame (fr_RequestID f) "not_found_or_forbidden" "resource was not found or is not available" false
      else if decide (oc_ErrorCode (outcome a) <> "")
      then errorFrame (fr_RequestID f) (oc_ErrorCode (outcome a)) "attachment control failed" false
      else responseFrame (fr_RequestID f) "" (Some (oc_Result (outcome a)))
  end.

(** The case "cancel" of the loop; the payload is the text of an object with the member canceled set to true. *)
Definition handle_cancel (f : Frame) (authorized : option Authorization) (s : Server) : Server * Frame :=
  match authorized with
  | None => (s, errorFrame (fr_RequestID f) "not_found_or_forbidden" "operation was not found or is not available" false)
  | Some a =>
      if decide (au_JournalBinding a = "")
      then (s, errorFrame (fr_RequestID f) "not_found_or_forbidden" "operation was not found or is not available" false)
      else (cancelOperation (operationKey (au_JournalBinding a) (fr_OperationID f)) s,
            responseFrame (fr_RequestID f) (fr_OperationID f) (Some [x7b; x22; x63; x61; x6e; x63; x65; x6c; x65; x64; x22; x3a; x74; x72; x75; x65; x7d]))
  end.

(** The loop on a structured frame: the server, the answer, and whether a request starts.
    [authorized] and [outcome] are what the authorizer and the handler answer. *)
Definition on_frame (selected : gset string) (f : Frame) (authorized : option Authorization) (outcome : Authorization -> Outcome)
    (s : Server) : Server * list Frame * bool :=
  if decide (fr_Type f = "heartbeat") then (s, [], false)
  else if decide (fr_Type f = "ack" \/ fr_Type f = "detach") then (s, [handleControl (sv_config s) f authorized outcome], false)
  else if decide (fr_Type f = "cancel") then
    let '(s1, answer) := handle_cancel f authorized s in (s1, [answer], false)
  else if decide (fr_Type f = "request") then
    if decide (fr_Capability f ∉ selected)
    then (s, [errorFrame (fr_RequestID f) "capability_required" "capability was not negotiated" false], false)
    else match acquire s with
    | None => (s, [errorFrame (fr_RequestID f) "resource_limit" "operation concurrency limit reached" true], false)
    | Some s1 => (s1, [], true)
    end
  else (s, [errorFrame (fr_RequestID f) "invalid_request" "unexpected frame" false], false).
End Connection.

(** ** Interleavings *)

Inductive event :=
| EvAuthorize (r : nat) (f : Frame) (a : Authorization)     (* the authorizer accepted the frame of the request *)
| EvHandle (r : nat) (a : Authorization) (capability : string) (payload : option (list byte))
| EvAnswer (r : nat) (f : Frame).

(** The server with its journal, connections (negotiated capabilities and streams) and
    requests.  [vw_runners]: the request that runs each operation whose entry is not
    complete; [vw_results]: what finished runs left in their entries. *)
Record server_world := mkServerWorld {
  vw_server : Server;
  vw_journal : Journal;
  vw_db : DB;
  vw_connections : gmap nat (gset string * terminalConnectionState);
  vw_requests : gmap nat request;
  vw_runners : gmap string nat;
  vw_results : gmap nat (Outcome * option journal_error);
  vw_log : list event
}.

Definition set_server (s : Server) (w : server_world) : server_world :=
  mkServerWorld s (vw_journal w) (vw_db w) (vw_connections w) (vw_requests w) (vw_runners w) (vw_results w) (vw_log w).
Definition set_connection (k : nat) (c : gset string * terminalConnectionState) (w : server_world) : server_world :=
  mkServerWorld (vw_server w) (vw_journal w) (vw_db w) (<[k := c]> (vw_connections w)) (vw_requests w) (vw_runners w) (vw_results w) (vw_log w).
Definition set_journal (j : Journal) (db : DB) (w : server_world) : server_world :=
  mkServerWorld (vw_server w) j db (vw_connections w) (vw_requests w) (vw_runners w) (vw_results w) (vw_log w).
Definition set_runners (runners : gmap string nat) (results : gmap nat (Outcome * option journal_error)) (w : server_world) : server_world :=
  mkServerWorld (vw_server w) (vw_journal w) (vw_db w) (vw_connections w) (vw_requests w) runners results (vw_log w).
Definition log_events (l : list event) (w : server_world) : server_world :=
  mkServerWorld (vw_server w) (vw_journal w) (vw_db w) (vw_connections w) (vw_requests w) (vw_runners w) (vw_results w) (vw_log w ++ l).
(** The request [r] moves to a stage, with the answers it writes. *)
Definition move (r : nat) (q : request) (next : stage * list Frame) (w : server_world) : server_world :=
  mkServerWorld (vw_server w) (vw_journal w) (vw_db w) (vw_connections w)
    (<[r := mkRequest (rq_connection q) (rq_frame q) next.1]> (vw_requests w)) (vw_runners w) (vw_results w)
    (vw_log w ++ (EvAnswer r <$> next.2)).

Section Steps.
Context (sha256 : list byte -> digest) {JV : JsonValues} {SJ : ServerJson} {TJ : TerminalJson} (negotiator : Negotiator).

Definition forbidden (f : Frame) : Frame :=
  errorFrame (fr_RequestID f) "not_found_or_forbidden" "resource was not found or is not available" false.

(** [server_step timeout]: [timeout] when the step is the end of a request's context. *)
Inductive server_step : bool -> server_world -> server_world -> Prop :=
| VConnect w k order secret wrote first frames selected :
    (forall X x, x ∈ order X <-> x ∈ X) -> vw_connections w !! k = None ->
    handshake order negotiator secret wrote first = (frames, Ok selected) ->
    server_step false w (set_connection k (selected, newTerminalConnectionState) w)
| VReply w k selected streams f authorized outcome s frames :
    vw_connections w !! k = Some (selected, streams) ->
    on_frame selected f authorized outcome (vw_server w) = (s, frames, false) ->
    server_step false w (set_server s w)
| VStart w k selected streams f authorized outcome s frames r :
    vw_connections w !! k = Some (selected, streams) -> vw_requests w !! r = None ->
    on_frame selected f authorized outcome (vw_server w) = (s, frames, true) ->
    server_step false w (move r (mkRequest k f AtAuthorize) (AtAuthorize, []) (set_server s w))
| VRefused w r q :
    vw_requests w !! r = Some q -> rq_stage q = AtAuthorize ->
    server_step false w (move r q (AtEnd None, [forbidden (rq_frame q)]) w)
| VAuthorized w r q a :
    vw_requests w !! r = Some q -> rq_stage q = AtAuthorize ->
    server_step false w
      (if decide (au_JournalBinding a = "") then move r q (AtEnd None, [forbidden (rq_frame q)]) w
       else log_events [EvAuthorize r (rq_frame q) a] (move r q (AtRegister a, []) w))
| VRegister w r q a s owner ok :
    vw_requests w !! r = Some q -> rq_stage q = AtRegister a ->
    registerOperation (operationKey (au_JournalBinding a) (fr_OperationID (rq_frame q))) r (vw_server w) = (s, owner, ok) ->
    server_step false w
      (if ok then move r q (AtBegin a owner, []) (set_server s w)
       else move r q (AtEnd None, [errorFrame (fr_RequestID (rq_frame q)) "unavailable" "server is stopping" true]) w)
| VUnmarshalled w r q a owner :
    vw_requests w !! r = Some q -> rq_stage q = AtBegin a owner ->
    marshal_operation (au_JournalBinding a) (fr_Capability (rq_frame q)) (fr_Payload (rq_frame q)) = None ->
    server_step false w
      (move r q (after owner a (rq_frame q), [errorFrame (fr_RequestID (rq_frame q)) "invalid_request" "invalid operation" false]) w)
| VBegin w r q a owner operation f now1 now2 j db b :
    vw_requests w !! r = Some q -> rq_stage q = AtBegin a owner ->
    marshal_operation (au_JournalBinding a) (fr_Capability (rq_frame q)) (fr_Payload (rq_frame q)) = Some operation ->
    Execute_begin sha256 f now1 now2 (vw_journal w) (vw_db w) (fr_OperationID (rq_frame q)) operation = (j, db, b) ->
    server_step false w
      match b with
      | Returns o replayed err => move r q (after_execute a owner (rq_frame q) (o, replayed, XJournal <$> err)) (set_journal j db w)
      | Waits => match vw_runners w !! fr_OperationID (rq_frame q) with
                 | Some runner => move r q (AtWait a owner runner, []) (set_journal j db w)
                 | None => w
                 end
      | Runs hash => log_events [EvHandle r a (fr_Capability (rq_frame q)) (fr_Payload (rq_frame q))]
                       (set_runners (<[fr_OperationID (rq_frame q) := r]> (vw_runners w)) (vw_results w)
                          (move r q (AtHandle a owner hash, []) (set_journal j db w)))
      end
| VWait w r q a owner runner outcome err :
    vw_requests w !! r = Some q -> rq_stage q = AtWait a owner runner -> vw_results w !! runner = Some (outcome, err) ->
    server_step false w (move r q (after_execute a owner (rq_frame q) (outcome, true, XJournal <$> err)) w)
| VContext w r q a owner runner e :
    vw_requests w !! r = Some q -> rq_stage q = AtWait a owner runner -> (e = XCanceled \/ e = XDeadline) ->
    server_step true w (move r q (after_execute a owner (rq_frame q) (no_outcome, false, Some e)) w)
| VContextBegin w r q a owner operation e existing :
    vw_requests w !! r = Some q -> rq_stage q = AtBegin a owner -> (e = XCanceled \/ e = XDeadline) ->
    marshal_operation (au_JournalBinding a) (fr_Capability (rq_frame q)) (fr_Payload (rq_frame q)) = Some operation ->
    jn_entries (vw_journal w) !! fr_OperationID (rq_frame q) = Some existing -> CanonicalHash sha256 operation = Ok (en_hash existing) ->
    server_step true w (move r q (after_execute a owner (rq_frame q) (no_outcome, false, Some e)) w)
| VFinish w r q a owner hash outcome f f2 now j db o replayed err :
    vw_requests w !! r = Some q -> rq_stage q = AtHandle a owner hash ->
    Execute_finish f f2 now (vw_journal w) (vw_db w) (fr_OperationID (rq_frame q)) hash outcome = (j, db, (o, replayed, err)) ->
    server_step false w
      (set_runners (delete (fr_OperationID (rq_frame q)) (vw_runners w)) (<[r := (o, err)]> (vw_results w))
         (move r q (after_execute a owner (rq_frame q) (o, replayed, XJournal <$> err)) (set_journal j db w)))
| VOpen w r q a owner outcome replay o :
    vw_requests w !! r = Some q -> rq_stage q = AtOutcome a owner outcome replay ->
    (sc_Stream (sv_config (vw_server w)) = false -> o = NoStream) ->
    server_step false w (move r q (after_open a owner (rq_frame q) outcome replay o) w)
| VBind w r q a owner outcome replay selected streams now new streams' next frames :
    vw_requests w !! r = Some q -> rq_stage q = AtBind a owner outcome replay ->
    vw_connections w !! rq_connection q = Some (selected, streams) -> tc_objects streams !! new = None ->
    after_bind now new a owner (rq_frame q) outcome replay streams = (streams', next, frames) ->
    server_step false w (move r q (next, frames) (set_connection (rq_connection q) (selected, streams') w))
| VRespond w r q a owner outcome replay stream (failed : bool) selected streams :
    vw_requests w !! r = Some q -> rq_stage q = AtRespond a owner outcome replay stream ->
    vw_connections w !! rq_connection q = Some (selected, streams) ->
    server_step false w
      (move r q (after owner a (rq_frame q),
                 [responseFrame (fr_RequestID (rq_frame q)) (fr_OperationID (rq_frame q)) (marshal_response (oc_Result outcome) replay)])
         (match stream with
          | Some id => if failed then set_connection (rq_connection q) (selected, remove id streams) w else w
          | None => w end))
| VEnd w r q key :
    vw_requests w !! r = Some q -> rq_stage q = AtEnd key ->
    server_step false w
      (move r q (Finished, [])
         (set_server (release (match key with Some k => unregisterOperation k (vw_server w) | None => vw_server w end)) w))
| VStreams w k selected streams streams' :
    vw_connections w !! k = Some (selected, streams) ->
    ((exists call, streams' = terminal_end call streams) \/ (exists id, streams' = remove id streams) \/ streams' = expire streams) ->
    server_step false w (set_connection k (selected, streams') w)
| VShutdown w : server_step false w (set_server (Shutdown (vw_server w)) w).

Definition any_step (w w' : server_world) : Prop := exists timeout, server_step timeout w w'.

(** A server that has just been built, on a journal loaded from its store. *)
Definition new_server (c : server_config) (j : Journal) (db : DB) : server_world :=
  mkServerWorld (mkServer c false 0 ∅ ∅) j db ∅ ∅ ∅ ∅ [].
End Steps.
