(* ===== verification/ServerTheorems.v ===== *)
(** * Correctness of the server: authorization, answers, bounds and progress

    Over all interleavings of connections, requests, cancellations and shutdown
    ([Server.any_step]): the handler runs only authorized requests of negotiated
    capabilities, the number of requests is bounded, every request is answered once, and
    requests can always be brought to their end. *)

From S2P Require Import Prelude Config Input Store StoreOperations Frame Negotiation Auth Credential Streams Journal JournalTheorems Wire Binary Server.

(** ** Sums over the requests *)

Definition weigh {A} (f : A -> nat) (m : gmap nat A) : nat := list_sum (f <$> (map_to_list m).*2).

Lemma weigh_insert {A} (f : A -> nat) m r x : m !! r = None -> weigh f (<[r := x]> m) = (f x + weigh f m)%nat.
Proof. intros H. unfold weigh. by rewrite map_to_list_insert by done. Qed.

Lemma weigh_update {A} (f : A -> nat) m r x y : m !! r = Some x -> (weigh f (<[r := y]> m) + f x = weigh f m + f y)%nat.
Proof.
  intros H. rewrite <- (insert_delete_id m r x H) at 2. rewrite <- insert_delete_eq.
  rewrite !weigh_insert by apply lookup_delete_eq. lia.
Qed.

Lemma weigh_zero {A} (f : A -> nat) m : weigh f m = 0%nat -> forall r x, m !! r = Some x -> f x = 0%nat.
Proof. intros H r x Hx. pose proof (weigh_update f m r x x Hx). rewrite <- (insert_delete_id m r x Hx), <- insert_delete_eq in H.
  rewrite weigh_insert in H by apply lookup_delete_eq. lia. Qed.

Lemma weigh_pos {A} (f : A -> nat) (m : gmap nat A) : (0 < weigh f m)%nat -> exists r x, m !! r = Some x /\ (0 < f x)%nat.
Proof.
  induction m as [|r x m Hr IH] using map_ind; [by vm_compute; lia|]. rewrite weigh_insert by done. intros H.
  destruct (decide (f x = 0%nat)) as [E|].
  - destruct IH as (r'&x'&Hx'&Hf); [lia|]. exists r', x'. rewrite lookup_insert_ne by (intros ->; congruence). done.
  - exists r, x. rewrite lookup_insert_eq. split; [done|lia].
Qed.

(** ** The entries of the journal *)

Section Entries.
Context (sha256 : list byte -> digest) {JV : JsonValues}.

Definition incomplete (j : Journal) (id : string) : Prop := exists e, jn_entries j !! id = Some e /\ en_complete e = false.

Lemma begin_entries f now1 now2 j db id request j' db' b :
  Execute_begin sha256 f now1 now2 j db id request = (j', db', b) -> order_ok (jn_entries j) (jn_order j) ->
  order_ok (jn_entries j') (jn_order j') /\
  match b with
  | Returns _ _ _ => forall op, incomplete j' op <-> incomplete j op
  | Waits => incomplete j id /\ forall op, incomplete j' op <-> incomplete j op
  | Runs _ => ~ incomplete j id /\ forall op, incomplete j' op <-> (op = id \/ incomplete j op)
  end.
Proof.
  intros E Hok. unfold Execute_begin in E. destruct (decide _); [by simplify_eq|].
  destruct (CanonicalHash sha256 request) as [hash|e]; [|by simplify_eq].
  destruct (jn_entries j !! id) as [ex|] eqn:Hex.
  { destruct (decide _); [by simplify_eq|]. destruct (en_complete ex) eqn:Hc; simplify_eq; [done|].
    split; [done|]. split; [|done]. by exists ex. }
  destruct (evict _ _ _) as [entries order] eqn:Hev. apply evict_spec in Hev as (Hord&_&Hsub&Hkeep); [|done].
  set (j1 := mkJournal _ entries order _ _ _) in E.
  assert (Hinc : forall op, incomplete j1 op <-> incomplete j op).
  { intros op. unfold incomplete. simpl. split; intros (e&He&Hc); exists e; auto. }
  destruct (decide _); [by simplify_eq|].
  destruct (if jn_store j then reserve f now1 now2 j1 db id hash else (j1, db, None)) as [[j2 db2] early] eqn:Hres.
  assert (Hsame : jn_entries j2 = entries /\ jn_order j2 = order).
  { destruct (jn_store j); [|by injection Hres as <- _ _]. apply reserve_spec in Hres as ((_&?&?&_)&_). done. }
  destruct Hsame as [He2 Ho2]. destruct early as [b'|].
  - injection E as <- <- <-. rewrite He2, Ho2. split; [done|].
    assert (Hinc2 : forall op, incomplete j2 op <-> incomplete j op).
    { intros op. rewrite <- Hinc. unfold incomplete. by rewrite He2. }
    destruct b' as [| |h]; [done| |].
    + exfalso. destruct (jn_store j); [|done]. apply reserve_spec in Hres as (_&t&_&_&He). done.
    + exfalso. destruct (jn_store j); [|done]. apply reserve_spec in Hres as (_&t&_&_&He). done.
  - injection E as <- <- <-. simpl. rewrite He2, Ho2. destruct Hord as [Hnd Hall].
    assert (Hnone : entries !! id = None).
    { destruct (entries !! id) eqn:Hin; [|done]. apply Hsub in Hin. congruence. }
    split; [split; [done|]|split].
    + intros op Hop. destruct (Hall op Hop) as (e&He&Hc). exists e. split; [|done].
      rewrite lookup_insert_ne; [done|]. intros <-. congruence.
    + intros (e&He&_). congruence.
    + intros op. rewrite <- Hinc. unfold incomplete. simpl. split.
      * intros (e&He&Hc). destruct (decide (op = id)); [by left|right]. rewrite lookup_insert_ne in He by done. by exists e.
      * intros [->|(e&He&Hc)]; [eexists; by rewrite lookup_insert_eq|]. exists e. split; [|done].
        rewrite lookup_insert_ne; [done|]. intros <-. congruence.
Qed.

End Entries.

Lemma finish_entries f f2 now j db id hash outcome j' db' r :
  Execute_finish f f2 now j db id hash outcome = (j', db', r) -> incomplete j id -> order_ok (jn_entries j) (jn_order j) ->
  order_ok (jn_entries j') (jn_order j') /\ (forall op, incomplete j' op <-> (op <> id /\ incomplete j op)) /\ r.1 = (outcome, false).
Proof.
  intros E (e0&He0&Hc0) [Hnd Hall]. unfold Execute_finish in E.
  destruct (if jn_store j then _ else _) as [db1 perr]. injection E as <- _ <-. simpl.
  assert (Hnin : id ∉ jn_order j) by (intros Hin; destruct (Hall id Hin) as (e&He&Hc); congruence).
  assert (Hall' : forall op, op ∈ jn_order j ++ [id] -> exists e, alter (fun _ => mkEntry hash outcome true ((fun e => ErrOperationUncertain (Some e)) <$> perr)) id (jn_entries j) !! op = Some e /\ en_complete e = true).
  { intros op Hop. destruct (decide (op = id)) as [->|Hne]; [rewrite lookup_alter_eq, He0; by eexists|].
    rewrite lookup_alter_ne by done. apply Hall. set_solver. }
  split_and!; [|intros op; unfold incomplete; simpl|done].
  - destruct perr; simpl; (split; [|intros op Hop; apply Hall'; set_solver]); [done|].
    apply NoDup_app. split_and!; [done|set_solver|apply NoDup_singleton].
  - destruct (decide (op = id)) as [->|Hne].
    + rewrite lookup_alter_eq, He0. simpl. split; [intros (e&[= <-]&Hc); done|by intros [? _]].
    + rewrite lookup_alter_ne by done. tauto.
Qed.

(** ** What a stage says *)

Definition rank (s : stage) : nat :=
  match s with
  | AtAuthorize => 9 | AtRegister _ => 8 | AtBegin _ _ => 7 | AtWait _ _ _ => 6 | AtHandle _ _ _ => 6 | AtOutcome _ _ _ _ => 5
  | AtBind _ _ _ _ => 4 | AtRespond _ _ _ _ _ => 3 | AtEnd _ => 1 | Finished => 0
  end%nat.

Definition live (q : request) : nat := match rq_stage q with Finished => 0 | _ => 1 end%nat.

Definition answered (s : stage) : bool := match s with AtEnd _ | Finished => true | _ => false end.

(** The authorization the request has been given. *)
Definition stage_auth (s : stage) : option Authorization :=
  match s with
  | AtRegister a | AtBegin a _ | AtWait a _ _ | AtHandle a _ _ | AtOutcome a _ _ _ | AtBind a _ _ _ | AtRespond a _ _ _ _ => Some a
  | AtAuthorize | AtEnd _ | Finished => None
  end.

(** The key under which the request is registered. *)
Definition owner_key (f : Frame) (s : stage) : option string :=
  match s with
  | AtBegin a owner | AtWait a owner _ | AtHandle a owner _ | AtOutcome a owner _ _ | AtBind a owner _ _ | AtRespond a owner _ _ _ =>
      if owner then Some (operationKey (au_JournalBinding a) (fr_OperationID f)) else None
  | AtEnd key => key
  | AtAuthorize | AtRegister _ | Finished => None
  end.

(** A frame that answers the request: its identifier, as an error or a response. *)
Definition answers_to (f answer : Frame) : Prop :=
  fr_RequestID answer = fr_RequestID f /\ (fr_Type answer = "error" \/ fr_Type answer = "response").

(** A move from a stage to another writes an answer exactly when it gets to the end. *)
Definition answers_once (f : Frame) (s s' : stage) (frames : list Frame) : Prop :=
  if answered s then frames = [] /\ answered s' = true
  else if answered s' then exists answer, frames = [answer] /\ answers_to f answer else frames = [].

(** Where an authorization comes from, and what the handler is called with. *)
Definition authorized_by (r : nat) (f : Frame) (s s' : stage) (extra : list event) : Prop :=
  (stage_auth s' = None \/ stage_auth s' = stage_auth s) /\ extra = []
  \/ (exists a, stage_auth s' = Some a /\ extra = [EvAuthorize r f a] /\ au_JournalBinding a <> "")
  \/ (exists a, stage_auth s = Some a /\ stage_auth s' = Some a /\ extra = [EvHandle r a (fr_Capability f) (fr_Payload f)]).

(** How the registrations change with the move. *)
Definition registers (r : nat) (f : Frame) (s s' : stage) (running running' : gmap string nat) : Prop :=
  (owner_key f s' = owner_key f s /\ running' = running)
  \/ (exists key, owner_key f s = None /\ owner_key f s' = Some key /\ running !! key = None /\ running' = <[key := r]> running)
  \/ (exists key, owner_key f s = Some key /\ owner_key f s' = None /\ running' = delete key running).

(** Connections keep what they negotiated. *)
Definition keeps_connections (w w' : server_world) : Prop :=
  forall k sel st, vw_connections w !! k = Some (sel, st) -> exists st', vw_connections w' !! k = Some (sel, st').

Section Shapes.
Context (sha256 : list byte -> digest) {JV : JsonValues} {SJ : ServerJson} {TJ : TerminalJson} (negotiator : Negotiator).
Local Abbreviation server_step := (server_step sha256 negotiator).

(** The shapes of the steps. *)
Inductive shape (w w' : server_world) : Prop :=
| ShQuiet :
    vw_requests w' = vw_requests w -> vw_log w' = vw_log w ->
    sv_sem (vw_server w') = sv_sem (vw_server w) -> sv_running (vw_server w') = sv_running (vw_server w) -> shape w w'
| ShStart r k f sel st :
    vw_requests w !! r = None -> vw_connections w !! k = Some (sel, st) -> fr_Capability f ∈ sel -> fr_Type f = "request" ->
    vw_requests w' = <[r := mkRequest k f AtAuthorize]> (vw_requests w) -> vw_log w' = vw_log w ->
    sv_sem (vw_server w) < sc_MaxConcurrent (sv_config (vw_server w)) ->
    sv_sem (vw_server w') = sv_sem (vw_server w) + 1 -> sv_running (vw_server w') = sv_running (vw_server w) -> shape w w'
| ShMove r q s' frames extra :
    vw_requests w !! r = Some q -> (rank s' < rank (rq_stage q))%nat ->
    vw_requests w' = <[r := mkRequest (rq_connection q) (rq_frame q) s']> (vw_requests w) ->
    vw_log w' = (vw_log w ++ (EvAnswer r <$> frames)) ++ extra ->
    answers_once (rq_frame q) (rq_stage q) s' frames -> authorized_by r (rq_frame q) (rq_stage q) s' extra ->
    registers r (rq_frame q) (rq_stage q) s' (sv_running (vw_server w)) (sv_running (vw_server w')) ->
    sv_sem (vw_server w') = sv_sem (vw_server w) - match s' with Finished => 1 | _ => 0 end -> shape w w'.

Lemma set_connection_keeps k sel st st' w :
  vw_connections w !! k = Some (sel, st) -> keeps_connections w (set_connection k (sel, st') w).
Proof.
  intros Hk k' sel' st0 Hk'. simpl. destruct (decide (k = k')) as [<-|].
  - rewrite lookup_insert_eq. rewrite Hk in Hk'. injection Hk' as <- <-. by eexists.
  - rewrite lookup_insert_ne by done. by eexists.
Qed.

(** A move that keeps the registration, writes its answers, and logs nothing else. *)
Definition plain_move (f : Frame) (s : stage) (next : stage * list Frame) : Prop :=
  (rank next.1 < rank s)%nat /\ answers_once f s next.1 next.2 /\ (stage_auth next.1 = None \/ stage_auth next.1 = stage_auth s) /\
  owner_key f next.1 = owner_key f s /\ next.1 <> Finished.

Lemma plain_shape w w0 r q next :
  vw_requests w !! r = Some q -> plain_move (rq_frame q) (rq_stage q) next ->
  vw_requests w0 = vw_requests w -> vw_log w0 = vw_log w -> sv_sem (vw_server w0) = sv_sem (vw_server w) ->
  sv_running (vw_server w0) = sv_running (vw_server w) -> shape w (move r q next w0).
Proof.
  intros Hq (Hrank&Hans&Hauth&Hown&Hfin) Er El Es Eru. eapply (ShMove w _ r q next.1 next.2 []); try done; simpl.
  - by rewrite Er.
  - by rewrite El, app_nil_r.
  - by left.
  - left. by rewrite Hown.
  - destruct (next.1); (lia || done).
Qed.

Lemma error_answers f code message retryable details :
  answers_to f (errorFrameWithDetails (fr_RequestID f) code message retryable details).
Proof. split; [done|by left]. Qed.

Lemma plain_execute f s a (owner : bool) r :
  (6 <= rank s)%nat -> answered s = false -> stage_auth s = Some a ->
  owner_key f s = (if owner then Some (operationKey (au_JournalBinding a) (fr_OperationID f)) else None) ->
  plain_move f s (after_execute a owner f r).
Proof.
  intros Hr Ha Hau Ho. destruct r as [[o rep] [e|]]; simpl; [|case_decide]; (split; [simpl; lia|]); unfold answers_once; rewrite Ha; simpl.
  - split_and!; [eexists; split; [done|apply error_answers]|by left|by rewrite Ho|done].
  - split_and!; [eexists; split; [done|apply error_answers]|by left|by rewrite Ho|done].
  - split_and!; [done|right; by rewrite Hau|by rewrite Ho|done].
Qed.

Lemma plain_open f a owner outcome replay o : plain_move f (AtOutcome a owner outcome replay) (after_open a owner f outcome replay o).
Proof. destruct o; (split; [simpl; lia|]); split_and!; simpl; try done; try (by right); try (by left). eexists. split; [done|apply error_answers]. Qed.

Lemma plain_bind now new a owner f outcome replay streams streams' next frames :
  after_bind now new a owner f outcome replay streams = (streams', next, frames) ->
  plain_move f (AtBind a owner outcome replay) (next, frames).
Proof.
  unfold after_bind. destruct (bind _ _ _ _ _ _) as [s1 [id|e]]; [destruct (add_stream_id _ _)|]; intros [= _ <- <-];
    (split; [simpl; lia|]); split_and!; simpl; try done; try (by right); try (by left); eexists; (split; [done|apply error_answers]).
Qed.

Lemma on_frame_quiet sel f authorized outcome s s' frames :
  on_frame sel f authorized outcome s = (s', frames, false) ->
  sv_sem s' = sv_sem s /\ sv_running s' = sv_running s /\ sv_config s' = sv_config s.
Proof.
  unfold on_frame. repeat case_decide; try (by intros [= <- _]).
  - unfold handle_cancel. destruct authorized as [a|]; [case_decide|]; intros [= <- _]; try done.
    unfold cancelOperation. by destruct (sv_running s !! _).
  - destruct (acquire s); by intros [= <- _].
Qed.

Lemma on_frame_start sel f authorized outcome s s' frames :
  on_frame sel f authorized outcome s = (s', frames, true) ->
  fr_Type f = "request" /\ fr_Capability f ∈ sel /\ sv_sem s < sc_MaxConcurrent (sv_config s) /\
  sv_sem s' = sv_sem s + 1 /\ sv_running s' = sv_running s /\ sv_config s' = sv_config s.
Proof.
  unfold on_frame. repeat case_decide; try done; [by destruct (handle_cancel f authorized s)|].
  unfold acquire. case_decide; [|done]. intros [= <- _]. by split_and!.
Qed.

Lemma step_shape timeout w w' : server_step timeout w w' -> shape w w'.
Proof.
  intros Hs. destruct Hs.
  - by apply ShQuiet.
  - apply on_frame_quiet in H0 as (?&?&_). by apply ShQuiet.
  - apply on_frame_start in H1 as (?&?&?&?&?&?). eapply (ShStart w _ r k f); try done. simpl. by rewrite ?app_nil_r.
  - apply plain_shape; try done. rewrite H0. unfold plain_move. simpl. split_and!; try done; [lia| |by left].
    eexists. split; [done|apply error_answers].
  - case_decide.
    + apply plain_shape; try done. rewrite H0. unfold plain_move. simpl. split_and!; try done; [lia| |by left].
      eexists. split; [done|apply error_answers].
    + eapply (ShMove w _ r q (AtRegister a) [] _); try done; rewrite ?H0; simpl; try done; [lia|right; left; by exists a|by left|lia].
  - unfold registerOperation in H1. destruct (sv_stopped (vw_server w)); simplify_eq.
    + apply plain_shape; try done. rewrite H0. unfold plain_move. simpl. split_and!; try done; [lia| |by left].
      eexists. split; [done|apply error_answers].
    + destruct (sv_running (vw_server w) !! _) eqn:E; simplify_eq.
      * apply plain_shape; try done. rewrite H0. unfold plain_move. simpl. split_and!; try done; [lia|by right].
      * eapply (ShMove w _ r q (AtBegin a true) [] []); try done; rewrite ?H0; simpl; try done;
          [lia|by rewrite ?app_nil_r|left; split; [by right|done]|right; left; eexists; by split_and!|lia].
  - apply plain_shape; try done. rewrite H0. unfold plain_move. simpl. split_and!; try done; [lia| |by left].
    eexists. split; [done|apply error_answers].
  - destruct b as [o replayed err| |hash].
    + apply plain_shape; try done. rewrite H0. apply plain_execute; simpl; (lia || done).
    + destruct (vw_runners w !! _) as [runner|]; [|by apply ShQuiet].
      apply plain_shape; try done. rewrite H0. unfold plain_move. simpl. split_and!; try done; [lia|by right].
    + eapply (ShMove w _ r q (AtHandle a owner hash) [] _); try done; rewrite ?H0; simpl; try done;
        [lia|right; right; by exists a|by left|lia].
  - apply plain_shape; try done. rewrite H0. apply plain_execute; simpl; (lia || done).
  - apply plain_shape; try done. rewrite H0. apply plain_execute; simpl; (lia || done).
  - apply plain_shape; try done. rewrite H0. apply plain_execute; simpl; (lia || done).
  - change (set_runners _ _ (move _ _ _ _)) with
      (move r q (after_execute a owner (rq_frame q) (o, replayed, XJournal <$> err))
         (set_runners (delete (fr_OperationID (rq_frame q)) (vw_runners w)) (<[r:=(o, err)]> (vw_results w)) (set_journal j db w))).
    apply plain_shape; try done. rewrite H0. apply plain_execute; simpl; (lia || done).
  - apply plain_shape; try done. rewrite H0. apply plain_open.
  - apply plain_shape; try done. rewrite H0. by eapply plain_bind.
  - apply plain_shape; try (by destruct stream, failed). rewrite H0. unfold plain_move. simpl. split_and!; try done; [lia| |by left].
    eexists. split; [done|]. split; [done|by right].
  - eapply (ShMove w _ r q Finished [] []); try done; rewrite ?H0; simpl; try done; [lia|by rewrite ?app_nil_r|left; split; [by left|done]| |].
    + destruct key as [key|]; [right; right; by exists key|by left].
    + by destruct key.
  - by apply ShQuiet.
  - unfold Shutdown. apply ShQuiet; simpl; try done; by destruct (sv_stopped _).
Qed.

Lemma step_config timeout w w' : server_step timeout w w' -> sv_config (vw_server w') = sv_config (vw_server w).
Proof.
  intros Hs. destruct Hs; simpl; try done.
  - by apply on_frame_quiet in H0 as (_&_&?).
  - by apply on_frame_start in H1 as (_&_&_&_&_&?).
  - by case_decide.
  - unfold registerOperation in H1. destruct (sv_stopped _); simplify_eq; [done|]. by destruct (sv_running _ !! _); simplify_eq.
  - destruct b; simpl; try done. by destruct (vw_runners w !! _).
  - by destruct stream, failed.
  - by destruct key.
  - unfold Shutdown. by destruct (sv_stopped _).
Qed.

Lemma keeps_same w w' : vw_connections w' = vw_connections w -> keeps_connections w w'.
Proof. intros E k sel st H. rewrite E. by eexists. Qed.

Lemma step_keeps timeout w w' : server_step timeout w w' -> keeps_connections w w'.
Proof.
  intros Hs. destruct Hs; try (by apply keeps_same).
  - intros k' sel st Hk. simpl. exists st. rewrite lookup_insert_ne; [done|]. intros <-. congruence.
  - apply keeps_same. by case_decide.
  - apply keeps_same. by destruct ok.
  - apply keeps_same. destruct b; try done. by destruct (vw_runners w !! _).
  - by apply (set_connection_keeps _ _ streams streams').
  - destruct stream as [id|]; [destruct failed|]; try (by apply keeps_same). by apply (set_connection_keeps _ _ streams (remove id streams)).
  - by apply (set_connection_keeps _ _ streams streams').
Qed.

(** What a capability must be to be negotiated: available, and allowed by the profile. *)
Definition negotiable (c : string) : Prop :=
  c ∈ ng_Available negotiator /\ exists allowed, allowedCapabilities (ng_Profile negotiator) = Some allowed /\ c ∈ allowed.

Lemma handshake_negotiable order secret wrote first frames selected c :
  handshake order negotiator secret wrote first = (frames, Ok selected) -> c ∈ selected -> negotiable c.
Proof.
  unfold handshake. destruct first as [f|[|b m]|e]; try done. case_decide; [done|]. destruct (decode_hello _) as [hello|]; [|done].
  destruct (negb _); [done|]. destruct (Negotiate _ _ _ _ _) as [welcome|e] eqn:En; [|done]. destruct wrote; [done|].
  intros [= _ <-] Hc. unfold Negotiate in En. destruct (parseVersion _) as [[? ?] ?], (parseVersion _) as [[? ?] ?].
  case_decide; [done|]. destruct (allowedCapabilities _) as [allowed|] eqn:Ea; [|done]. case_decide; [done|].
  injection En as <-. simpl in Hc. rewrite elem_of_list_to_set, merge_sort_Permutation, list_elem_of_filter in Hc.
  destruct Hc as [(?&?&_) _]. split; [done|]. by exists allowed.
Qed.

Lemma step_negotiable timeout w w' :
  server_step timeout w w' ->
  (forall k sel st c, vw_connections w !! k = Some (sel, st) -> c ∈ sel -> negotiable c) ->
  (forall k sel st c, vw_connections w' !! k = Some (sel, st) -> c ∈ sel -> negotiable c).
Proof.
  assert (Hset : forall w k sel st st', vw_connections w !! k = Some (sel, st) ->
    (forall k sel st c, vw_connections w !! k = Some (sel, st) -> c ∈ sel -> negotiable c) ->
    forall k' sel' st0 c, vw_connections (set_connection k (sel, st') w) !! k' = Some (sel', st0) -> c ∈ sel' -> negotiable c).
  { intros w0 k sel st st' Hk H k' sel' st0 c. simpl. rewrite lookup_insert_Some. intros [[<- [= <- <-]]|[_ ?]]; by eapply H. }
  intros Hs. destruct Hs; try done; intros Hw.
  - intros k' sel st c. simpl. rewrite lookup_insert_Some. intros [[<- [= <- <-]]|[_ ?]]; [by eapply handshake_negotiable|by eapply Hw].
  - by case_decide.
  - by destruct ok.
  - destruct b; try done. by destruct (vw_runners w !! _).
  - by apply (Hset w _ _ streams streams').
  - destruct stream as [id|]; [destruct failed|]; try done. by apply (Hset w _ _ streams (remove id streams)).
  - by apply (Hset w _ _ streams streams').
Qed.

(** ** The invariant *)

Definition answer_of (r : nat) (e : event) : option Frame :=
  match e with EvAnswer r' f => if decide (r' = r) then Some f else None | _ => None end.
Definition answers (r : nat) (log : list event) : list Frame := omap (answer_of r) log.

Record server_ok (w : server_world) : Prop := {
  vo_sem : sv_sem (vw_server w) = Z.of_nat (weigh live (vw_requests w));
  vo_bound : sv_sem (vw_server w) <= Z.max 0 (sc_MaxConcurrent (sv_config (vw_server w)));
  vo_running : forall key r, sv_running (vw_server w) !! key = Some r <->
    exists q, vw_requests w !! r = Some q /\ owner_key (rq_frame q) (rq_stage q) = Some key;
  vo_answers : forall r, match vw_requests w !! r with
    | None => answers r (vw_log w) = []
    | Some q => if answered (rq_stage q) then exists answer, answers r (vw_log w) = [answer] /\ answers_to (rq_frame q) answer
                else answers r (vw_log w) = []
    end;
  vo_auth : forall r q a, vw_requests w !! r = Some q -> stage_auth (rq_stage q) = Some a ->
    EvAuthorize r (rq_frame q) a ∈ vw_log w /\ au_JournalBinding a <> "";
  vo_handles : forall i r a c p, vw_log w !! i = Some (EvHandle r a c p) -> exists q k, vw_requests w !! r = Some q /\
    c = fr_Capability (rq_frame q) /\ p = fr_Payload (rq_frame q) /\ (k < i)%nat /\ vw_log w !! k = Some (EvAuthorize r (rq_frame q) a) /\
    au_JournalBinding a <> "";
  vo_selected : forall r q, vw_requests w !! r = Some q -> fr_Type (rq_frame q) = "request" /\
    exists sel st, vw_connections w !! rq_connection q = Some (sel, st) /\ fr_Capability (rq_frame q) ∈ sel;
  vo_negotiable : forall k sel st c, vw_connections w !! k = Some (sel, st) -> c ∈ sel -> negotiable c
}.

Lemma answers_app r l1 l2 : answers r (l1 ++ l2) = answers r l1 ++ answers r l2.
Proof. apply omap_app. Qed.

Lemma answers_own r frames : answers r (EvAnswer r <$> frames) = frames.
Proof. unfold answers. induction frames as [|f l IH]; [done|]. simpl. rewrite decide_True by done. f_equal. exact IH. Qed.

Lemma answers_other r r' frames : r <> r' -> answers r (EvAnswer r' <$> frames) = [].
Proof. intros H. unfold answers. induction frames as [|f l IH]; [done|]. simpl. by rewrite decide_False by done. Qed.

Lemma answers_extra r r' f s s' extra : authorized_by r' f s s' extra -> answers r extra = [].
Proof. by intros [[_ ->]|[(a&_&->&_)|(a&_&_&->)]]. Qed.

(** The registrations after a move. *)
Lemma registers_running r q s' running running' (m : gmap nat request) :
  m !! r = Some q -> registers r (rq_frame q) (rq_stage q) s' running running' ->
  (forall key r, running !! key = Some r <-> exists q, m !! r = Some q /\ owner_key (rq_frame q) (rq_stage q) = Some key) ->
  (forall key r', running' !! key = Some r' <->
     exists q', <[r := mkRequest (rq_connection q) (rq_frame q) s']> m !! r' = Some q' /\ owner_key (rq_frame q') (rq_stage q') = Some key).
Proof.
  intros Hq Hr Hrun key r'. destruct (decide (r' = r)) as [->|Hne].
  - rewrite lookup_insert_eq. destruct Hr as [[E ->]|[(k&E1&E2&Hnone&->)|(k&E1&E2&->)]].
    + rewrite Hrun. split; [intros (q'&Hq'&Ho); rewrite Hq in Hq'; injection Hq' as <-; eexists; split; [done|]; simpl; by rewrite E|].
      intros (q'&[= <-]&Ho). simpl in Ho. exists q. split; [done|]. by rewrite <- E.
    + destruct (decide (k = key)) as [->|].
      * rewrite lookup_insert_eq. split; [intros _; by eexists|done].
      * rewrite lookup_insert_ne by done. rewrite Hrun. split; [intros (q'&Hq'&Ho); congruence|].
        intros (q'&[= <-]&Ho). simpl in Ho. congruence.
    + split; [|intros (q'&[= <-]&Ho); simpl in Ho; congruence]. intros [Hk (q'&Hq'&Ho)%Hrun]%lookup_delete_Some. congruence.
  - rewrite lookup_insert_ne by done. rewrite <- Hrun. destruct Hr as [[_ ->]|[(k&_&_&Hnone&->)|(k&E1&E2&->)]]; [done| |].
    + destruct (decide (k = key)) as [->|]; [|by rewrite lookup_insert_ne]. rewrite lookup_insert_eq, Hnone. split; [congruence|done].
    + destruct (decide (k = key)) as [->|]; [|by rewrite lookup_delete_ne]. rewrite lookup_delete_eq. split; [done|].
      intros H. assert (Hkr : running !! key = Some r) by (apply Hrun; by exists q). congruence.
Qed.

Lemma server_ok_move w w' r q s' frames extra :
  vw_requests w !! r = Some q -> (rank s' < rank (rq_stage q))%nat ->
  vw_requests w' = <[r := mkRequest (rq_connection q) (rq_frame q) s']> (vw_requests w) ->
  vw_log w' = (vw_log w ++ (EvAnswer r <$> frames)) ++ extra ->
  answers_once (rq_frame q) (rq_stage q) s' frames -> authorized_by r (rq_frame q) (rq_stage q) s' extra ->
  registers r (rq_frame q) (rq_stage q) s' (sv_running (vw_server w)) (sv_running (vw_server w')) ->
  sv_sem (vw_server w') = sv_sem (vw_server w) - match s' with Finished => 1 | _ => 0 end ->
  sv_config (vw_server w') = sv_config (vw_server w) -> keeps_connections w w' ->
  (forall k sel st c, vw_connections w' !! k = Some (sel, st) -> c ∈ sel -> negotiable c) ->
  server_ok w -> server_ok w'.
Proof.
  intros Hq Hrank Er El Hans Hauth Hreg Es Ec Hkeep Hneg [V1 V2 V3 V4 V5 V6 V7 V8].
  assert (Hlogged : forall e, e ∈ vw_log w -> e ∈ vw_log w') by (intros e; rewrite El, !elem_of_app; tauto).
  split; rewrite ?Er.
  - pose proof (weigh_update live (vw_requests w) r q (mkRequest (rq_connection q) (rq_frame q) s') Hq) as Hw.
    rewrite Es, V1. unfold live in *. simpl in Hw. destruct (rq_stage q); simpl in Hrank; try lia; destruct s'; simpl in *; lia.
  - rewrite Es, Ec. destruct s'; lia.
  - by apply (registers_running r q s' (sv_running (vw_server w))).
  - intros r'. rewrite El, !answers_app, (answers_extra _ _ _ _ _ _ Hauth), app_nil_r. specialize (V4 r').
    destruct (decide (r' = r)) as [->|Hne].
    + rewrite Hq in V4. rewrite lookup_insert_eq, answers_own. simpl. unfold answers_once in Hans.
      destruct (answered (rq_stage q)); [destruct Hans as [-> ->]; by rewrite app_nil_r|]. rewrite V4. simpl.
      destruct (answered s'); done.
    + rewrite lookup_insert_ne by done. rewrite answers_other, app_nil_r by done. done.
  - intros r' q' a. destruct (decide (r' = r)) as [->|Hne].
    + rewrite lookup_insert_eq. intros [= <-] Ha. simpl in *. destruct Hauth as [[[E|E] ->]|[(a'&E&->&Hb)|(a'&E1&E2&->)]]; try congruence.
      * rewrite E in Ha. destruct (V5 r q a Hq Ha). auto.
      * rewrite Ha in E. injection E as <-. split; [|done]. rewrite El, elem_of_app. right. by left.
      * rewrite Ha in E2. injection E2 as <-. destruct (V5 r q a Hq E1). auto.
    + rewrite lookup_insert_ne by done. intros Hq' Ha. destruct (V5 r' q' a Hq' Ha). auto.
  - assert (Hold : forall r' q', vw_requests w !! r' = Some q' -> exists q2,
      <[r := mkRequest (rq_connection q) (rq_frame q) s']> (vw_requests w) !! r' = Some q2 /\ rq_frame q2 = rq_frame q').
    { intros r' q' Hq'. destruct (decide (r' = r)) as [->|]; [|rewrite lookup_insert_ne by done; by exists q'].
      rewrite lookup_insert_eq. rewrite Hq in Hq'. injection Hq' as <-. by eexists. }
    intros i r' a c p Hin. rewrite El, <- app_assoc in Hin |- *. apply lookup_app_Some in Hin as [Hin|[Hlen Hin]].
    + destruct (V6 _ _ _ _ _ Hin) as (q'&k&Hq'&->&->&Hk&Ha&Hb). destruct (Hold _ _ Hq') as (q2&H2&E2). exists q2, k. rewrite E2.
      split_and!; try done. by apply lookup_app_l_Some.
    + apply list_elem_of_lookup_2, elem_of_app in Hin as [Hin|Hin]; [by apply list_elem_of_fmap in Hin as (?&?&_)|].
      destruct Hauth as [[_ ->]|[(a'&_&->&_)|(a'&E1&E2&->)]]; [by apply elem_of_nil in Hin|by apply list_elem_of_singleton in Hin|].
      apply list_elem_of_singleton in Hin. injection Hin as -> -> -> ->. destruct (V5 r q a' Hq E1) as [Hin Hb].
      apply list_elem_of_lookup in Hin as [k Hk]. pose proof (lookup_lt_Some _ _ _ Hk) as Hlt.
      rewrite lookup_insert_eq. eexists _, k. split; [done|]. simpl. split_and!; try done; [lia|]. by apply lookup_app_l_Some.
  - intros r' q' Hq'. assert (Hq0 : exists q0, vw_requests w !! r' = Some q0 /\ rq_frame q' = rq_frame q0 /\ rq_connection q' = rq_connection q0).
    { destruct (decide (r' = r)) as [->|]; [|rewrite lookup_insert_ne in Hq' by done; by exists q'].
      rewrite lookup_insert_eq in Hq'. injection Hq' as <-. by exists q. }
    destruct Hq0 as (q0&H0&->&->). destruct (V7 r' q0 H0) as (?&sel&st&Hk&Hs). split; [done|].
    destruct (Hkeep _ _ _ Hk) as [st' ?]. by exists sel, st'.
  - done.
Qed.

Lemma server_ok_start w w' r k f sel st :
  vw_requests w !! r = None -> vw_connections w !! k = Some (sel, st) -> fr_Capability f ∈ sel -> fr_Type f = "request" ->
  vw_requests w' = <[r := mkRequest k f AtAuthorize]> (vw_requests w) -> vw_log w' = vw_log w ->
  sv_sem (vw_server w) < sc_MaxConcurrent (sv_config (vw_server w)) ->
  sv_sem (vw_server w') = sv_sem (vw_server w) + 1 -> sv_running (vw_server w') = sv_running (vw_server w) ->
  sv_config (vw_server w') = sv_config (vw_server w) -> keeps_connections w w' ->
  (forall k sel st c, vw_connections w' !! k = Some (sel, st) -> c ∈ sel -> negotiable c) ->
  server_ok w -> server_ok w'.
Proof.
  intros Hr Hk Hc Ht Er El Hlt Es Eru Ec Hkeep Hneg [V1 V2 V3 V4 V5 V6 V7 V8].
  assert (Hne : forall r' q', vw_requests w !! r' = Some q' -> r <> r') by (intros r' q' H ->; congruence).
  split; rewrite ?Er, ?El, ?Eru.
  - rewrite weigh_insert by done. rewrite Es, V1. simpl. lia.
  - rewrite Es, Ec. lia.
  - intros key r'. rewrite V3. split.
    + intros (q'&Hq'&Ho). exists q'. rewrite lookup_insert_ne by by eapply Hne. done.
    + intros (q'&[[-> <-]|[_ Hq']]%lookup_insert_Some&Ho); [done|by exists q'].
  - intros r'. specialize (V4 r'). destruct (decide (r' = r)) as [->|]; [|by rewrite lookup_insert_ne].
    rewrite lookup_insert_eq. by rewrite Hr in V4.
  - intros r' q' a [[-> <-]|[_ Hq']]%lookup_insert_Some Ha; [done|by apply V5].
  - intros i r' a c p Hin. destruct (V6 _ _ _ _ _ Hin) as (q'&l&Hq'&?). exists q', l. rewrite lookup_insert_ne by by eapply Hne. done.
  - intros r' q' Hq'. apply lookup_insert_Some in Hq' as [[-> <-]|[_ Hq']]; simpl.
    + split; [done|]. destruct (Hkeep _ _ _ Hk) as [st' ?]. by exists sel, st'.
    + destruct (V7 r' q' Hq') as (?&sel'&st'&Hk'&Hs). split; [done|]. destruct (Hkeep _ _ _ Hk') as [st2 ?]. by exists sel', st2.
  - done.
Qed.

Lemma server_ok_step timeout w w' : server_step timeout w w' -> server_ok w -> server_ok w'.
Proof.
  intros Hs Hok. pose proof (step_config _ _ _ Hs) as Hc. pose proof (step_keeps _ _ _ Hs) as Hk.
  pose proof (step_negotiable _ _ _ Hs (vo_negotiable _ Hok)) as Hn.
  destruct (step_shape _ _ _ Hs) as [Er El Es Eru|r k f sel st ? ? ? ? ? ? ? ? ?|r q s' frames extra ? ? ? ? ? ? ? ?].
  - destruct Hok as [V1 V2 V3 V4 V5 V6 V7 V8]. split; rewrite ?Er, ?El, ?Es, ?Eru, ?Hc; try done.
    intros r q Hq. destruct (V7 r q Hq) as (?&sel&st&Hk'&?). split; [done|]. destruct (Hk _ _ _ Hk') as [st' ?]. by exists sel, st'.
  - by apply (server_ok_start w w' r k f sel st).
  - by apply (server_ok_move w w' r q s' frames extra).
Qed.

(** ** Progress *)

(** Exactly the operations that a request handles have entries that are not complete, and
    a waiting request waits for one of them, or for one that has ended. *)
Record progress_ok (w : server_world) : Prop := {
  po_order : order_ok (jn_entries (vw_journal w)) (jn_order (vw_journal w));
  po_entries : forall op, incomplete (vw_journal w) op <-> is_Some (vw_runners w !! op);
  po_runners : forall op r, vw_runners w !! op = Some r <-> exists q a o h,
    vw_requests w !! r = Some q /\ fr_OperationID (rq_frame q) = op /\ rq_stage q = AtHandle a o h;
  po_waits : forall r q a o runner, vw_requests w !! r = Some q -> rq_stage q = AtWait a o runner ->
    is_Some (vw_results w !! runner) \/ exists op, vw_runners w !! op = Some runner
}.

Definition handling (s : stage) : Prop := exists a o h, s = AtHandle a o h.
Definition waiting (s : stage) : Prop := exists a o runner, s = AtWait a o runner.

(** A move that neither starts nor ends a run. *)
Lemma progress_move w w0 r q next :
  vw_requests w !! r = Some q -> vw_requests w0 = vw_requests w -> vw_runners w0 = vw_runners w -> vw_results w0 = vw_results w ->
  order_ok (jn_entries (vw_journal w0)) (jn_order (vw_journal w0)) ->
  (forall op, incomplete (vw_journal w0) op <-> incomplete (vw_journal w) op) ->
  ~ handling (rq_stage q) -> ~ handling next.1 ->
  (forall a o runner, next.1 = AtWait a o runner -> exists op, vw_runners w !! op = Some runner) ->
  progress_ok w -> progress_ok (move r q next w0).
Proof.
  intros Hq Er Eru Ere Hord Hinc Hn1 Hn2 Hwait [P1 P2 P3 P4]. split; simpl; rewrite ?Er, ?Eru, ?Ere.
  - done.
  - intros op. by rewrite Hinc.
  - intros op r'. rewrite P3. destruct (decide (r' = r)) as [->|]; [|by rewrite lookup_insert_ne]. rewrite lookup_insert_eq. split.
    + intros (q'&a&o&h&Hq'&_&Hs). rewrite Hq in Hq'. injection Hq' as <-. destruct Hn1. by exists a, o, h.
    + intros (q'&a&o&h&[= <-]&_&Hs). simpl in Hs. destruct Hn2. by exists a, o, h.
  - intros r' q' a o runner. destruct (decide (r' = r)) as [->|]; [|rewrite lookup_insert_ne by done; apply P4].
    rewrite lookup_insert_eq. intros [= <-] Hs. right. by eapply Hwait.
Qed.

Lemma progress_plain w w0 r q next :
  vw_requests w !! r = Some q -> vw_requests w0 = vw_requests w -> vw_runners w0 = vw_runners w -> vw_results w0 = vw_results w ->
  vw_journal w0 = vw_journal w -> ~ handling (rq_stage q) -> ~ handling next.1 -> ~ waiting next.1 ->
  progress_ok w -> progress_ok (move r q next w0).
Proof.
  intros Hq Er Eru Ere Ej Hn1 Hn2 Hn3 Hok. eapply progress_move; try done; rewrite ?Ej; try done; [by apply po_order|].
  intros a o runner E. destruct Hn3. by exists a, o, runner.
Qed.

Lemma after_execute_calm a owner f r : ~ handling (after_execute a owner f r).1 /\ ~ waiting (after_execute a owner f r).1.
Proof. destruct r as [[o rep] [e|]]; simpl; [|case_decide; simpl]; split; by intros (?&?&?&?). Qed.

(** A run that starts. *)
Lemma progress_runs w r q a owner hash f now1 now2 operation j db :
  vw_requests w !! r = Some q -> rq_stage q = AtBegin a owner ->
  Execute_begin sha256 f now1 now2 (vw_journal w) (vw_db w) (fr_OperationID (rq_frame q)) operation = (j, db, Runs hash) ->
  progress_ok w ->
  progress_ok (set_runners (<[fr_OperationID (rq_frame q) := r]> (vw_runners w)) (vw_results w)
                 (move r q (AtHandle a owner hash, []) (set_journal j db w))).
Proof.
  intros Hq Hs E [P1 P2 P3 P4]. apply begin_entries in E as (Hord&Hno&Hinc); [|done].
  assert (Hnone : vw_runners w !! fr_OperationID (rq_frame q) = None).
  { apply eq_None_not_Some. by rewrite <- P2. }
  split; simpl.
  - done.
  - intros op. rewrite Hinc, lookup_insert_is_Some, P2. naive_solver.
  - intros op r'. rewrite lookup_insert_Some, P3. destruct (decide (r' = r)) as [->|Hne].
    + rewrite lookup_insert_eq. split.
      * intros [[<- _]|[_ (q'&a'&o'&h'&Hq'&_&Hs')]]; [by repeat eexists|]. congruence.
      * intros (q'&a'&o'&h'&[= <-]&<-&_). by left.
    + rewrite lookup_insert_ne by done. split; [intros [[_ E]|[_ H]]; [by destruct Hne|done]|].
      intros H. right. split; [|done]. intros Hop. destruct H as (q'&a'&o'&h'&Hq'&Ho'&Hs').
      assert (vw_runners w !! op = Some r') by (apply P3; by repeat eexists). rewrite <- Hop in *. congruence.
  - intros r' q' a' o' runner. destruct (decide (r' = r)) as [->|]; [rewrite lookup_insert_eq; by intros [= <-]|].
    rewrite lookup_insert_ne by done. intros Hq' Hs'. destruct (P4 _ _ _ _ _ Hq' Hs') as [?|[op Hop]]; [by left|right].
    exists op. rewrite lookup_insert_ne; [done|]. intros <-. congruence.
Qed.

(** A run that ends. *)
Lemma progress_finish w r q a owner hash f f2 now outcome j db o replayed err :
  vw_requests w !! r = Some q -> rq_stage q = AtHandle a owner hash ->
  Execute_finish f f2 now (vw_journal w) (vw_db w) (fr_OperationID (rq_frame q)) hash outcome = (j, db, (o, replayed, err)) ->
  progress_ok w ->
  progress_ok (set_runners (delete (fr_OperationID (rq_frame q)) (vw_runners w)) (<[r := (o, err)]> (vw_results w))
                 (move r q (after_execute a owner (rq_frame q) (o, replayed, XJournal <$> err)) (set_journal j db w))).
Proof.
  intros Hq Hs E [P1 P2 P3 P4].
  assert (Hrun : vw_runners w !! fr_OperationID (rq_frame q) = Some r) by (apply P3; by repeat eexists).
  apply finish_entries in E as (Hord&Hinc&_); [|apply P2; by eexists|done].
  destruct (after_execute_calm a owner (rq_frame q) (o, replayed, XJournal <$> err)) as [Hh Hw].
  split; simpl.
  - done.
  - intros op. rewrite Hinc, lookup_delete_is_Some, P2. naive_solver.
  - intros op r'. rewrite lookup_delete_Some, P3. destruct (decide (r' = r)) as [->|Hne].
    + rewrite lookup_insert_eq. split.
      * intros [Hop (q'&a'&o'&h'&Hq'&Ho'&_)]. rewrite Hq in Hq'. injection Hq' as <-. done.
      * intros (q'&a'&o'&h'&[= <-]&_&Hs'). simpl in Hs'. destruct Hh. by repeat eexists.
    + rewrite lookup_insert_ne by done. split; [by intros [_ H]|]. intros H. split; [|done]. intros Hop.
      assert (vw_runners w !! op = Some r') by by apply P3. rewrite <- Hop in *. congruence.
  - intros r' q' a' o' runner. destruct (decide (r' = r)) as [->|].
    { rewrite lookup_insert_eq. intros [= <-] Hs'. simpl in Hs'. destruct Hw. by repeat eexists. }
    rewrite lookup_insert_ne by done. intros Hq' Hs'. destruct (P4 _ _ _ _ _ Hq' Hs') as [[x Hx]|[op Hop]].
    + left. rewrite lookup_insert_is_Some. destruct (decide (r = runner)); [by left|right]. split; [done|by exists x].
    + destruct (decide (op = fr_OperationID (rq_frame q))) as [->|Hne].
      * rewrite Hrun in Hop. injection Hop as <-. left. rewrite lookup_insert_eq. by eexists.
      * right. exists op. by rewrite lookup_delete_ne.
Qed.

Ltac calm := let H := fresh in intros H; destruct H as (?&?&?&H); simpl in H; discriminate H.

Lemma progress_step timeout w w' : server_step timeout w w' -> progress_ok w -> progress_ok w'.
Proof.
  intros Hs Hok. destruct Hs.
  - by destruct Hok; split.
  - by destruct Hok; split.
  - destruct Hok as [P1 P2 P3 P4]. split; simpl; try done.
    + intros op r'. rewrite P3. split; intros (q&a&o&h&Hq&?); exists q, a, o, h.
      * rewrite lookup_insert_ne; [done|]. intros ->. congruence.
      * apply lookup_insert_Some in Hq as [[-> <-]|[_ Hq]]; [naive_solver|done].
    + intros r' q a o runner [[-> <-]|[_ Hq]]%lookup_insert_Some; [done|by apply (P4 r' q a o)].
  - apply (progress_plain w); try done; rewrite ?H0; calm.
  - case_decide; [apply (progress_plain w); try done; rewrite ?H0; calm|].
    assert (Hm : progress_ok (move r q (AtRegister a, []) w)) by (apply (progress_plain w); try done; rewrite ?H0; calm).
    by destruct Hm; split.
  - destruct ok; apply (progress_plain w); try done; rewrite ?H0; calm.
  - apply (progress_plain w); try done; rewrite ?H0; calm.
  - destruct b as [o replayed err| |hash].
    + apply begin_entries in H2 as [Hord Hinc]; [|by apply po_order]. destruct (after_execute_calm a owner (rq_frame q) (o, replayed, XJournal <$> err)) as [Hh Hw].
      apply (progress_move w); try done; [rewrite H0; calm|]. intros a' o' runner E. destruct Hw. by repeat eexists.
    + apply begin_entries in H2 as [Hord [_ Hinc]]; [|by apply po_order]. destruct (vw_runners w !! _) as [runner|] eqn:Er; [|done].
      apply (progress_move w); try done; [rewrite H0; calm|calm|]. intros a' o' runner' [= _ _ <-]. by eexists.
    + assert (Hm := progress_runs _ _ _ _ _ _ _ _ _ _ _ _ H H0 H2 Hok). by destruct Hm; split.
  - destruct (after_execute_calm a owner (rq_frame q) (outcome, true, XJournal <$> err)).
    apply (progress_plain w); try done. rewrite H0; calm.
  - destruct (after_execute_calm a owner (rq_frame q) (no_outcome, false, Some e)). apply (progress_plain w); try done. rewrite H0; calm.
  - destruct (after_execute_calm a owner (rq_frame q) (no_outcome, false, Some e)). apply (progress_plain w); try done. rewrite H0; calm.
  - exact (progress_finish _ _ _ _ _ _ _ _ _ _ _ _ _ _ _ H H0 H1 Hok).
  - apply (progress_plain w); try done; rewrite ?H0; destruct o; calm.
  - assert (Hn : ~ handling next /\ ~ waiting next).
    { unfold after_bind in H3. destruct (bind _ _ _ _ _ _) as [s1 [id|e]]; [destruct (add_stream_id _ _)|]; injection H3 as _ <- _; split; calm. }
    destruct Hn. apply (progress_plain w); try done. rewrite H0; calm.
  - apply (progress_plain w); try (by destruct stream, failed); rewrite ?H0; calm.
  - apply (progress_plain w); try done; rewrite ?H0; calm.
  - by destruct Hok; split.
  - by destruct Hok; split.
Qed.

Definition weight (w : server_world) : nat := weigh (fun q => rank (rq_stage q)) (vw_requests w).

Lemma move_lighter w w0 r q next :
  vw_requests w !! r = Some q -> vw_requests w0 = vw_requests w -> (rank next.1 < rank (rq_stage q))%nat ->
  (weight (move r q next w0) < weight w)%nat.
Proof.
  intros Hq Er Hr. unfold weight. simpl. rewrite Er.
  pose proof (weigh_update (fun q => rank (rq_stage q)) (vw_requests w) r q (mkRequest (rq_connection q) (rq_frame q) next.1) Hq) as Hw.
  simpl in Hw. lia.
Qed.

Lemma after_execute_rank a owner f r s : (6 <= rank s)%nat -> (rank (after_execute a owner f r).1 < rank s)%nat.
Proof. intros Hs. destruct r as [[o rep] [e|]]; simpl; [lia|]. case_decide; simpl; lia. Qed.

(** A step is possible that brings some request further, as long as one is not finished. *)
Lemma can_finish_run w r q a owner h :
  vw_requests w !! r = Some q -> rq_stage q = AtHandle a owner h ->
  exists w', server_step false w w' /\ (weight w' < weight w)%nat.
Proof.
  intros Hq Hs.
  destruct (Execute_finish FNone FNone 0 (vw_journal w) (vw_db w) (fr_OperationID (rq_frame q)) h no_outcome) as [[j db] [[o rep] err]] eqn:E.
  eexists. split; [by eapply VFinish|].
  apply (move_lighter w (set_journal j db w) r q (after_execute a owner (rq_frame q) (o, rep, XJournal <$> err)) Hq eq_refl).
  rewrite Hs. apply after_execute_rank. simpl. lia.
Qed.

Lemma can_advance w r q :
  server_ok w -> progress_ok w -> vw_requests w !! r = Some q -> rq_stage q <> Finished ->
  exists w', server_step false w w' /\ (weight w' < weight w)%nat.
Proof.
  intros Hok Hpr Hq Hlive. destruct (vo_selected _ Hok r q Hq) as (_&sel&st&Hk&_).
  destruct (rq_stage q) as [|a|a owner|a owner runner|a owner h|a owner outcome replay|a owner outcome replay|a owner outcome replay stream|key|] eqn:Hs; try done.
  - eexists. split; [by eapply VRefused|]. apply move_lighter; [done|done|]. rewrite Hs. simpl. lia.
  - destruct (registerOperation (operationKey (au_JournalBinding a) (fr_OperationID (rq_frame q))) r (vw_server w)) as [[s owner] ok] eqn:E.
    eexists. split; [by eapply VRegister|]. destruct ok; apply move_lighter; try done; rewrite Hs; simpl; lia.
  - destruct (marshal_operation (au_JournalBinding a) (fr_Capability (rq_frame q)) (fr_Payload (rq_frame q))) as [operation|] eqn:Em.
    2:{ eexists. split; [by eapply VUnmarshalled|]. apply move_lighter; [done|done|]. rewrite Hs. simpl. lia. }
    destruct (Execute_begin sha256 (mkBeginFaults FNone FNone FNone) 0 0 (vw_journal w) (vw_db w) (fr_OperationID (rq_frame q)) operation) as [[j db] b] eqn:E.
    eexists. split; [by eapply VBegin|]. destruct b as [o rep err| |hash].
    + apply move_lighter; [done|done|]. rewrite Hs. apply after_execute_rank. simpl. lia.
    + apply begin_entries in E as (_&Hinc&_); [|by apply po_order]. apply (po_entries _ Hpr) in Hinc as [runner ->].
      apply move_lighter; [done|done|]. rewrite Hs. simpl. lia.
    + assert (Hl := move_lighter w (set_journal j db w) r q (AtHandle a owner hash, []) Hq eq_refl). rewrite Hs in Hl. apply Hl. simpl. lia.
  - destruct (po_waits _ Hpr _ _ _ _ _ Hq Hs) as [[[o err] Hres]|[op Hop]].
    + eexists. split; [by eapply VWait|]. apply move_lighter; [done|done|]. rewrite Hs. apply after_execute_rank. simpl. lia.
    + apply (po_runners _ Hpr) in Hop as (q'&a'&o'&h&Hq'&_&Hs'). by eapply can_finish_run.
  - by eapply can_finish_run.
  - eexists. split; [by eapply (VOpen _ _ _ _ _ _ _ _ _ NoStream)|]. apply move_lighter; [done|done|]. rewrite Hs. simpl. lia.
  - destruct (after_bind 0 (fresh (dom (tc_objects st))) a owner (rq_frame q) outcome replay st) as [[st' next] frames] eqn:E.
    eexists. split; [eapply VBind; try done; by apply not_elem_of_dom, is_fresh|].
    apply plain_bind in E as (Hrank&_). apply move_lighter; [done|done|]. by rewrite Hs.
  - eexists. split; [by eapply (VRespond _ _ _ _ _ _ _ _ _ _ false)|]. apply move_lighter; [done|by destruct stream|]. rewrite Hs. simpl. lia.
  - eexists. split; [by eapply VEnd|]. apply move_lighter; [done|done|]. rewrite Hs. simpl. lia.
Qed.

(** ** The theorems *)

(** Every entry of the journal is complete, as after loading. *)
Definition loaded (j : Journal) : Prop :=
  order_ok (jn_entries j) (jn_order j) /\ forall id e, jn_entries j !! id = Some e -> en_complete e = true.

Local Abbreviation any_step := (any_step sha256 negotiator).

Lemma new_server_ok c j db : server_ok (new_server c j db).
Proof.
  split; simpl; try done; try set_solver.
  lia.
Qed.

Lemma reachable_ok c j db w : rtc any_step (new_server c j db) w -> server_ok w /\ sv_config (vw_server w) = c.
Proof.
  intros H. apply (rtc_invariant any_step (fun w => server_ok w /\ sv_config (vw_server w) = c)) in H; [done| |].
  - intros x y [t Hs] [Hok Hc]. split; [by eapply server_ok_step|]. by rewrite (step_config _ _ _ Hs).
  - split; [apply new_server_ok|done].
Qed.

Lemma reachable_progress c j db w : loaded j -> rtc any_step (new_server c j db) w -> progress_ok w.
Proof.
  intros [Hord Hcomp] H. apply (rtc_invariant any_step progress_ok) in H; [done| |].
  - intros x y [t Hs]. by eapply progress_step.
  - split; simpl; try done.
    + intros op. rewrite lookup_empty. split; [|by intros [? ?]]. intros (e&He&Hc). rewrite (Hcomp _ _ He) in Hc. done.
    + intros op r. rewrite lookup_empty. split; [done|]. by intros (q&a&o&h&Hq&_).
Qed.

(** C1.  Nothing runs unauthorized: whatever the interleaving of connections and requests,
    each time the handler is called it is for a request frame whose capability was
    negotiated on its connection, is available and allowed by the profile, and that the
    authorizer had accepted before, for this very frame, with a non-empty binding; the
    handler gets this authorization and the capability and payload of this frame. *)
Theorem handler_runs_authorized (c : server_config) (j : Journal) (db : DB) (w : server_world) (i r : nat) (a : Authorization)
    (capability : string) (payload : option (list byte)) :
  rtc any_step (new_server c j db) w -> vw_log w !! i = Some (EvHandle r a capability payload) ->
  exists q k sel st, vw_requests w !! r = Some q /\ (k < i)%nat /\ vw_log w !! k = Some (EvAuthorize r (rq_frame q) a) /\
    au_JournalBinding a <> "" /\ fr_Type (rq_frame q) = "request" /\ capability = fr_Capability (rq_frame q) /\ payload = fr_Payload (rq_frame q) /\
    vw_connections w !! rq_connection q = Some (sel, st) /\ capability ∈ sel /\ negotiable capability.
Proof.
  intros [Hok _]%reachable_ok Hi. destruct (vo_handles _ Hok _ _ _ _ _ Hi) as (q&k&Hq&->&->&Hk&Ha&Hb).
  destruct (vo_selected _ Hok r q Hq) as (Ht&sel&st&Hc&Hs). exists q, k, sel, st. split_and!; try done; by eapply (vo_negotiable _ Hok).
Qed.

(** C35.  Concurrency is bounded and registrations are exact: at most [MaxConcurrent] requests
    are unfinished at any time; an operation key is registered exactly for the request that
    registered it and has not ended, so that canceling it reaches that request and no
    other; and no operation identifier is in the hands of the handler twice at a time. *)
Theorem requests_bounded (c : server_config) (j : Journal) (db : DB) (w : server_world) :
  loaded j -> rtc any_step (new_server c j db) w ->
  Z.of_nat (weigh live (vw_requests w)) <= Z.max 0 (sc_MaxConcurrent c) /\
  (forall key r, sv_running (vw_server w) !! key = Some r <->
     exists q, vw_requests w !! r = Some q /\ owner_key (rq_frame q) (rq_stage q) = Some key) /\
  (forall r r' q q', vw_requests w !! r = Some q -> vw_requests w !! r' = Some q' -> handling (rq_stage q) -> handling (rq_stage q') ->
     fr_OperationID (rq_frame q) = fr_OperationID (rq_frame q') -> r = r').
Proof.
  intros Hj Hw. pose proof (reachable_progress _ _ _ _ Hj Hw) as Hp. apply reachable_ok in Hw as [Hok Hc].
  split_and!; [rewrite <- (vo_sem _ Hok), <- Hc; by apply vo_bound|by apply vo_running|].
  intros r r' q q' Hq Hq' (a&o&h&Hs) (a'&o'&h'&Hs') E.
  assert (H1 : vw_runners w !! fr_OperationID (rq_frame q) = Some r) by (apply (po_runners _ Hp); by repeat eexists).
  assert (H2 : vw_runners w !! fr_OperationID (rq_frame q') = Some r') by (apply (po_runners _ Hp); by repeat eexists).
  congruence.
Qed.

(** C25.  Every request is answered exactly once: a request that is over has written one
    frame, an error or a response that carries its identifier, and one that is not has
    written none. *)
Theorem request_answered_once (c : server_config) (j : Journal) (db : DB) (w : server_world) (r : nat) (q : request) :
  rtc any_step (new_server c j db) w -> vw_requests w !! r = Some q ->
  if answered (rq_stage q) then exists answer, answers r (vw_log w) = [answer] /\ answers_to (rq_frame q) answer
  else answers r (vw_log w) = [].
Proof. intros [Hok _]%reachable_ok Hq. pose proof (vo_answers _ Hok r) as H. by rewrite Hq in H. Qed.

(** C26.  No request is ever stuck: from every reachable state, without any deadline running
    out, the requests can be brought to their end, all of them; then each has its one
    answer, nothing is registered any more and every slot is free.  In particular no set of
    requests waits for one another in the journal. *)
Theorem requests_drain (c : server_config) (j : Journal) (db : DB) (w : server_world) :
  loaded j -> rtc any_step (new_server c j db) w ->
  exists w', rtc (server_step false) w w' /\ sv_sem (vw_server w') = 0 /\ sv_running (vw_server w') = ∅ /\
    forall r q, vw_requests w' !! r = Some q -> rq_stage q = Finished /\
      exists answer, answers r (vw_log w') = [answer] /\ answers_to (rq_frame q) answer.
Proof.
  intros Hj Hw. pose proof (reachable_progress _ _ _ _ Hj Hw) as Hp. apply reachable_ok in Hw as [Hok _]. clear Hj.
  remember (weight w) as n eqn:En. revert w En Hok Hp. induction n as [n IH] using lt_wf_ind. intros w -> Hok Hp.
  destruct (decide (weight w = 0%nat)) as [Hz|Hz].
  - assert (Hfin : forall r q, vw_requests w !! r = Some q -> rq_stage q = Finished).
    { intros r q Hq. pose proof (weigh_zero _ _ Hz _ _ Hq) as H0. simpl in H0. destruct (rq_stage q); simpl in H0; (done || lia). }
    exists w. split; [apply rtc_refl|]. split_and!.
    + rewrite (vo_sem _ Hok). destruct (decide (weigh live (vw_requests w) = 0%nat)) as [->|Hl]; [done|].
      destruct (weigh_pos live (vw_requests w)) as (r&q&Hq&Hlive); [lia|]. unfold live in Hlive. rewrite (Hfin _ _ Hq) in Hlive. lia.
    + apply map_empty. intros key. apply eq_None_not_Some. intros [r Hr]. apply (vo_running _ Hok) in Hr as (q&Hq&Ho).
      by rewrite (Hfin _ _ Hq) in Ho.
    + intros r q Hq. split; [by apply Hfin with r|]. pose proof (vo_answers _ Hok r) as Ha. rewrite Hq, (Hfin _ _ Hq) in Ha. exact Ha.
  - destruct (weigh_pos (fun q => rank (rq_stage q)) (vw_requests w)) as (r&q&Hq&Hr); [unfold weight in Hz; lia|].
    destruct (can_advance w r q Hok Hp Hq) as (w1&Hs&Hl); [intros E; rewrite E in Hr; simpl in Hr; lia|].
    destruct (IH (weight w1) Hl w1 eq_refl) as (w'&Hsteps&Hrest); [by eapply server_ok_step|by eapply progress_step|].
    exists w'. split; [by eapply rtc_l|done].
Qed.
End Shapes.

(** ** Witnesses: a connection, a request that is authorized, and its run *)

Definition demo_server_json : ServerJson := {|
  decode_hello := fun _ => Some (mkHello "1.0" "1.0" ["terminal.v1"; "health.v1"]);
  marshal_welcome := fun _ _ => [];
  marshal_error := fun _ => [];
  marshal_operation := fun _ _ p => p;
  marshal_response := fun result _ => Some result;
  add_stream_id := fun result _ => Some result;
  decode_number := fun _ _ => None
|}.
Definition demo_negotiator : Negotiator := mkNegotiator Hosted {["terminal.v1"; "health.v1"]} false.
Definition demo_server_config : server_config := mkServerConfig true true true true 1 1 1 1.
Definition demo_journal : Journal := Journal.mkJournal 4 ∅ [] false 0 zero_time.
Definition demo_server_hash (_ : list byte) : digest := replicate 32 x00.
Definition demo_order (X : gset string) : list string := elements X.
Definition demo_auth : Authorization := mkAuthorization "b" "env" "u1" "cli" "s1" "" zero_time None None None.
Local Abbreviation demo_step := (@server_step demo_server_hash demo_values demo_server_json demo_terminal_json demo_negotiator).

Definition demo_v0 : server_world := new_server demo_server_config demo_journal empty_DB.
Definition demo_selected : gset string := list_to_set ["health.v1"; "terminal.v1"].
Definition demo_v1 : server_world := set_connection 0 (demo_selected, newTerminalConnectionState) demo_v0.
Definition demo_v2 : server_world :=
  move 5 (mkRequest 0 (demo_request "terminal.v1") AtAuthorize) (AtAuthorize, []) (set_server (mkServer demo_server_config false 1 ∅ ∅) demo_v1).
Definition demo_q (s : stage) : request := mkRequest 0 (demo_request "terminal.v1") s.
Definition demo_v3 : server_world :=
  log_events [EvAuthorize 5 (demo_request "terminal.v1") demo_auth] (move 5 (demo_q AtAuthorize) (AtRegister demo_auth, []) demo_v2).
Definition demo_op : string := operationKey "b" "operation-1".
Definition demo_v4 : server_world :=
  move 5 (demo_q (AtRegister demo_auth)) (AtBegin demo_auth true, []) (set_server (mkServer demo_server_config false 1 {[demo_op := 5%nat]} ∅) demo_v3).
Definition demo_begun := Execute_begin demo_server_hash (JV := demo_values) (mkBeginFaults FNone FNone FNone) 0 0 demo_journal empty_DB "operation-1" [x7b; x7d].
Definition demo_v5 : server_world :=
  log_events [EvHandle 5 demo_auth "terminal.v1" (Some [x7b; x7d])]
    (set_runners {["operation-1" := 5%nat]} ∅
       (move 5 (demo_q (AtBegin demo_auth true)) (AtHandle demo_auth true (replicate 32 x00), [])
          (Server.set_journal demo_begun.1.1 demo_begun.1.2 demo_v4))).

Lemma demo_v5_reachable : rtc (any_step demo_server_hash (JV := demo_values) (SJ := demo_server_json) (TJ := demo_terminal_json) demo_negotiator) demo_v0 demo_v5.
Proof.
  apply (rtc_l _ _ demo_v1); [exists false|].
  { apply (@VConnect demo_server_hash demo_values demo_server_json demo_terminal_json demo_negotiator demo_v0 0 demo_order None None
             (ReadStructured (mkFrame "hello" "r0" "1.0" "" "" 0 (Some [x7b; x7d]))) [mkFrame "welcome" "r0" "1.0" "" "" 0 (Some [])] demo_selected);
      [intros X x; apply elem_of_elements|done|by vm_compute]. }
  apply (rtc_l _ _ demo_v2); [exists false|].
  { apply (@VStart demo_server_hash demo_values demo_server_json demo_terminal_json demo_negotiator demo_v1 0 demo_selected newTerminalConnectionState
             (demo_request "terminal.v1") None (fun _ => no_outcome) (mkServer demo_server_config false 1 ∅ ∅) [] 5); by vm_compute. }
  apply (rtc_l _ _ demo_v3); [exists false|].
  { apply (@VAuthorized demo_server_hash demo_values demo_server_json demo_terminal_json demo_negotiator demo_v2 5 (demo_q AtAuthorize) demo_auth); by vm_compute. }
  apply (rtc_l _ _ demo_v4); [exists false|].
  { apply (@VRegister demo_server_hash demo_values demo_server_json demo_terminal_json demo_negotiator demo_v3 5 (demo_q (AtRegister demo_auth)) demo_auth
             (mkServer demo_server_config false 1 {[demo_op := 5%nat]} ∅) true true); by vm_compute. }
  apply rtc_once. exists false.
  apply (@VBegin demo_server_hash demo_values demo_server_json demo_terminal_json demo_negotiator demo_v4 5 (demo_q (AtBegin demo_auth true)) demo_auth true
           [x7b; x7d] (mkBeginFaults FNone FNone FNone) 0 0 demo_begun.1.1 demo_begun.1.2 (Runs (replicate 32 x00))); by vm_compute.
Qed.

Lemma demo_loaded : loaded demo_journal.
Proof. split; [split; [constructor|set_solver]|]. intros id e H. done. Qed.

Lemma handler_runs_authorized_witness : exists k, (k < 1)%nat /\ vw_log demo_v5 !! k = Some (EvAuthorize 5 (demo_request "terminal.v1") demo_auth).
Proof.
  destruct (@handler_runs_authorized demo_server_hash demo_values demo_server_json demo_terminal_json demo_negotiator demo_server_config demo_journal
              empty_DB demo_v5 1 5 demo_auth "terminal.v1" (Some [x7b; x7d]) demo_v5_reachable ltac:(by vm_compute))
    as (q&k&_&_&Hq&Hk&Ha&_).
  exists k. split; [done|]. rewrite Ha. vm_compute in Hq. injection Hq as <-. done.
Defined.

Lemma requests_bounded_witness : sv_running (vw_server demo_v5) !! demo_op = Some 5%nat /\ Z.of_nat (weigh live (vw_requests demo_v5)) <= 1.
Proof.
  destruct (@requests_bounded demo_server_hash demo_values demo_server_json demo_terminal_json demo_negotiator demo_server_config demo_journal
              empty_DB demo_v5 demo_loaded demo_v5_reachable) as (H1&H2&_).
  split; [|exact H1]. apply H2. eexists. split; by vm_compute.
Defined.

Lemma request_answered_once_witness : answers 5 (vw_log demo_v5) = [].
Proof.
  exact (@request_answered_once demo_server_hash demo_values demo_server_json demo_terminal_json demo_negotiator demo_server_config demo_journal
           empty_DB demo_v5 5 (demo_q (AtHandle demo_auth true (replicate 32 x00))) demo_v5_reachable ltac:(by vm_compute)).
Defined.

Lemma requests_drain_witness : exists w', rtc (demo_step false) demo_v5 w' /\ sv_sem (vw_server w') = 0.
Proof.
  destruct (@requests_drain demo_server_hash demo_values demo_server_json demo_terminal_json demo_negotiator demo_server_config demo_journal
              empty_DB demo_v5 demo_loaded demo_v5_reachable) as (w'&H1&H2&_).
  by exists w'.
Defined.
