(* ===== verification/Dispatcher.v ===== *)
(** * The dispatcher ([internal/server/dispatcher.go])

    Requests, control frames and terminal data that the server has authorized are carried
    out here on the session manager and the registry of writers.  The outcomes of what they
    meet outside (PTYs, database, clock, random source) are the [dispatch_world]. *)

From S2P Require Import Prelude Config Base64 Paths Frame Buffers History Input Fanout Lifecycle Store Manager Writers Launcher Auth Credential Journal Streams Wire Binary Terminal.

(** ** Data *)

Record dispatcher := mkDispatcher {
  ds_launcher : ShellLauncher;
  ds_root : string;                      (* [WorkspaceRoot] *)
  ds_manager : Manager.Manager;
  ds_writers : option WriterRegistry     (* [None]: no registry is configured *)
}.

Definition set_manager (m : Manager.Manager) (d : dispatcher) : dispatcher := mkDispatcher (ds_launcher d) (ds_root d) m (ds_writers d).
Definition on_writers (f : WriterRegistry -> WriterRegistry) (d : dispatcher) : dispatcher :=
  mkDispatcher (ds_launcher d) (ds_root d) (ds_manager d) (f <$> ds_writers d).

(** [dw_other] is the code of an error whose cause is outside the program: a context that was
    canceled or ran out, or anything else. *)
Record dispatch_world := mkDispatchWorld {
  dw_create : create_world;
  dw_close : close_world;
  dw_restart : restart_world;
  dw_persist : fault * time;
  dw_fault : fault;
  dw_failed : bool;
  dw_write : WriteOutcome;
  dw_now : time;
  dw_random : list byte;
  dw_other : string
}.

(** What a request is answered with, before it is written as JSON. *)
Inductive reply :=
| RSnapshot (s : Snapshot)
| RSessions (l : list Snapshot)
| RAttached (attachmentID : string) (a : AttachResult)
| RSequence (n : Z)
| REmpty.

Record attachmentControl := mkControl { ac_SessionID : string; ac_AttachmentID : string; ac_NextSequence : Z }.

Record configApplyRequest := mkConfigApply {
  cq_Action : string; cq_AssignmentID : string; cq_ExpectedRevision : string; cq_ObservedRevision : string
}.

(** The JSON library on what the dispatcher reads and writes. *)
Class DispatcherJson := {
  marshal_reply : reply -> option (list byte);
  marshal_details : list (string * Z) -> list byte;
  decode_control : list byte -> option attachmentControl;
  decode_config_apply : list byte -> option configApplyRequest
}.

Section Dispatcher.
Context (sha256 : list byte -> digest) {J : JsonStrings} {TJ : TerminalJson} {DJ : DispatcherJson}.

(** ** Outcomes *)

Definition failure (code : string) : Outcome := mkOutcomeResult [] code.
Definition failureDetails (code : string) (details : list (string * Z)) : Outcome := mkOutcomeResult (marshal_details details) code.
Definition result_outcome (value : reply) : Outcome :=
  match marshal_reply value with Some encoded => mkOutcomeResult encoded "" | None => failure "unavailable" end.

(** The codes of the errors of the manager. *)
Definition manager_failure (other : string) (e : manager_error) : Outcome :=
  match e with
  | EHistory (History.GapError requested earliest latest) =>
      failureDetails "replay_gap" [("requested_sequence", requested); ("earliest_sequence", earliest); ("latest_sequence", latest)]
  | EInput (StaleGenerationError current) => failureDetails "stale_generation" [("current_generation", current)]
  | EContext | ETerminateFailed _ => failure other
  | ErrSessionUnknown => failure "not_found_or_forbidden"
  | ErrSessionRunning => failure "session_running"
  | ErrStaleGeneration => failure "stale_generation"
  | EInput ErrInputConflict => failure "input_id_conflict"
  | EInput ErrInputUnknown => failure "input_unknown"
  | ErrResourceLimit | EInput ErrInputJournalFull => failure "resource_limit"
  | _ => failure "invalid_request"
  end.

Definition domainResult (other : string) (r : result manager_error reply) : Outcome :=
  match r with Ok value => result_outcome value | Err e => manager_failure other e end.

Definition launchResult (other : string) (r : result launch_error Snapshot) : Outcome :=
  match r with
  | Ok s => result_outcome (RSnapshot s)
  | Err (LManager e) => manager_failure other e
  | Err ErrLaunchRejected => failure "invalid_request"
  end.

Definition as_reply {A} (f : A -> reply) (r : result manager_error A) : result manager_error reply :=
  match r with Ok a => Ok (f a) | Err e => Err e end.

(** ** Paths and identifiers *)

Definition cwd (root value : string) : string * bool :=
  let value := if decide (value = "") then root else value in
  let value := if is_abs value then value else root +:+ String "/" value in
  let clean := filepath_Clean value in
  let relative := filepath_Rel root clean in
  (clean, negb (bool_decide (relative = "..")) && negb (String.prefix "../" relative)).

Definition dispatcher_randomID (prefix : string) (random : list byte) : string :=
  if decide (len random < 16) then "" else prefix +:+ hex_EncodeToString (take 16 random).

(** ** Terminal data *)

(** The credential may be bound to one session. *)
Definition session_allowed (a : Authorization) (sessionID : string) : bool :=
  bool_decide (au_SessionID a = "" \/ au_SessionID a = sessionID).

Definition HandleTerminalInput (w : dispatch_world) (a : Authorization) (sessionID attachmentID : string) (generation : Z) (data : list byte)
    (d : dispatcher) : dispatcher * result manager_error unit * list effect :=
  if decide (au_ClientID a = "" \/ sessionID = "" \/ attachmentID = "" \/ generation = 0 \/ session_allowed a sessionID = false)
  then (d, Err (EInput ErrInvalidInput), [])
  else
    let '(r, effects) := WriteStream (dw_write w) (ds_manager d) sessionID attachmentID generation data in
    match r with
    | Err e => (d, Err e, effects)
    | Ok _ => (on_writers (fun x => Writers.Input (dw_now w) x sessionID attachmentID (au_ClientID a) (dw_now w)) d, Ok tt, effects)
    end.

Definition HandleTerminalACK (a : Authorization) (sessionID attachmentID : string) (nextSequence : Z) (d : dispatcher)
    : dispatcher * result manager_error unit :=
  if decide (au_ClientID a = "" \/ sessionID = "" \/ attachmentID = "" \/ session_allowed a sessionID = false)
  then (d, Err (EInput ErrInvalidInput))
  else let '(m, r) := Manager.Acknowledge (ds_manager d) sessionID attachmentID nextSequence in (set_manager m d, r).

Definition HandleTerminalResize (w : dispatch_world) (a : Authorization) (sessionID attachmentID : string) (columns rows : Z) (d : dispatcher)
    : dispatcher * result manager_error unit * list effect :=
  if decide (au_ClientID a = "" \/ sessionID = "" \/ attachmentID = "" \/ columns = 0 \/ rows = 0 \/ session_allowed a sessionID = false)
  then (d, Err (EInput ErrInvalidInput), [])
  else
    let '(m, r, effects) := Manager.Resize (dw_persist w) (dw_failed w) (ds_manager d) sessionID attachmentID (mkDims columns rows) (dw_now w) in
    (set_manager m d, r, effects).

(** A call of the connection's loop, with the binding of the stream. *)
Definition terminal_data (w : dispatch_world) (call : terminal_call) (d : dispatcher) : dispatcher * result manager_error unit * list effect :=
  match call with
  | CallInput _ b f => HandleTerminalInput w (tb_authorization b) (tb_sessionID b) (tb_attachmentID b) (tb_generation b) (ti_Data f) d
  | CallACK _ b f => let '(d', r) := HandleTerminalACK (tb_authorization b) (tb_sessionID b) (tb_attachmentID b) (ta_NextSequence f) d in (d', r, [])
  | CallResize _ b f => HandleTerminalResize w (tb_authorization b) (tb_sessionID b) (tb_attachmentID b) (tr_Columns f) (tr_Rows f) d
  end.

(** [Sessions.Detach], and the registry when it succeeded. *)
Definition detach (sessionID attachmentID : string) (d : dispatcher) : dispatcher * result manager_error unit :=
  let '(m, r) := Manager.Detach (ds_manager d) sessionID attachmentID in
  (match r with
   | Ok _ => on_writers (fun x => Writers.Detach x sessionID attachmentID) (set_manager m d)
   | Err _ => set_manager m d
   end, r).

Definition HandleControl (w : dispatch_world) (a : Authorization) (frame : Frame) (d : dispatcher) : dispatcher * Outcome :=
  match decode_control (default [] (fr_Payload frame)) with
  | None => (d, failure "invalid_request")
  | Some control =>
      if decide (ac_SessionID control = "" \/ ac_AttachmentID control = "" \/ au_ClientID a = "") then (d, failure "invalid_request")
      else if negb (session_allowed a (ac_SessionID control)) then (d, failure "not_found_or_forbidden")
      else if decide (fr_Type frame = "ack") then
        let '(m, r) := Manager.Acknowledge (ds_manager d) (ac_SessionID control) (ac_AttachmentID control) (ac_NextSequence control) in
        (set_manager m d, domainResult (dw_other w) (as_reply (fun _ => REmpty) r))
      else if decide (fr_Type frame = "detach") then
        let '(d', r) := detach (ac_SessionID control) (ac_AttachmentID control) d in
        (d', domainResult (dw_other w) (as_reply (fun _ => REmpty) r))
      else (d, failure "invalid_request")
  end.

(** ** Terminal requests *)

(** The action "create". *)
Definition create (w : dispatch_world) (a : Authorization) (request : terminalRequest) (d : dispatcher) : dispatcher * Outcome * list effect :=
  let '(dir, ok) := cwd (ds_root d) (tq_CWD request) in
  let sessionID := if decide (tq_SessionID request = "") then au_SessionID a else tq_SessionID request in
  if decide (ok = false \/ tq_Columns request = 0 \/ tq_Rows request = 0) then (d, failure "invalid_request", [])
  else
    let '(m, r, effects) := Launch (dw_create w) (ds_launcher d) (ds_manager d)
      (mkLaunchRequest sessionID (tq_Name request) dir (mkDims (tq_Columns request) (tq_Rows request)) (tq_Environment request)) in
    (set_manager m d, launchResult (dw_other w) r, effects).

(** The actions "attach" and "replay". *)
Definition attach (w : dispatch_world) (request : terminalRequest) (d : dispatcher) : dispatcher * Outcome :=
  let attachmentID := if decide (tq_AttachmentID request = "") then dispatcher_randomID "att_" (dw_random w) else tq_AttachmentID request in
  if decide (attachmentID = "") then (d, failure "unavailable")
  else
    let '(m, r) := if decide (tq_Action request = "attach" /\ tq_AtLiveBoundary request = true)
                   then Manager.AttachLive (ds_manager d) (tq_SessionID request) attachmentID
                   else Manager.Attach (ds_manager d) (tq_SessionID request) attachmentID (tq_FromSequence request) in
    (set_manager m d, domainResult (dw_other w) (as_reply (RAttached attachmentID) r)).

Definition terminal (w : dispatch_world) (a : Authorization) (payload : option (list byte)) (d : dispatcher) : dispatcher * Outcome * list effect :=
  match decode_terminal (default [] payload) with
  | None => (d, failure "invalid_request", [])
  | Some request =>
      let sid := tq_SessionID request in
      let action := tq_Action request in
      let m := ds_manager d in
      let other := dw_other w in
      if decide (au_ClientID a = "") then (d, failure "invalid_request", [])
      else if decide (au_SessionID a <> "" /\ sid <> "" /\ au_SessionID a <> sid) then (d, failure "not_found_or_forbidden", [])
      else if decide (action = "list") then
        if decide (au_SessionID a <> "")
        then (d, domainResult other (as_reply (fun s => RSessions [s]) (GetSnapshot m (au_SessionID a))), [])
        else (d, result_outcome (RSessions (List m)), [])
      else if decide (action = "get" \/ action = "snapshot") then (d, domainResult other (as_reply RSnapshot (GetSnapshot m sid)), [])
      else if decide (action = "create") then create w a request d
      else if decide (action = "attach" \/ action = "replay") then let '(d', o) := attach w request d in (d', o, [])
      else if decide (action = "detach") then
        let '(d', r) := detach sid (tq_AttachmentID request) d in (d', domainResult other (as_reply (fun _ => REmpty) r), [])
      else if decide (action = "resize") then
        let '(m', r, eff) := Manager.Resize (dw_persist w) (dw_failed w) m sid (tq_AttachmentID request)
                               (mkDims (tq_Columns request) (tq_Rows request)) (dw_now w) in
        (set_manager m' d, domainResult other (as_reply (fun _ => REmpty) r), eff)
      else if decide (action = "signal") then
        let '(r, eff) := Signal (dw_failed w) m sid (tq_Generation request) (tq_Signal request) in
        (d, domainResult other (as_reply (fun _ => REmpty) r), eff)
      else if decide (action = "clear") then
        let '(m', r) := Manager.Clear (dw_fault w) (dw_now w) m sid in (set_manager m' d, domainResult other (as_reply RSequence r), [])
      else if decide (action = "restart") then
        let '(m', r, eff) := Restart (dw_restart w) m sid in (set_manager m' d, domainResult other (as_reply RSnapshot r), eff)
      else if decide (action = "close") then
        let '(m', r, eff) := Close (dw_close w) m sid in (set_manager m' d, domainResult other (as_reply RSnapshot r), eff)
      else if decide (action = "delete") then
        let '(m', r) := Delete (dw_fault w) m sid in (set_manager m' d, domainResult other (as_reply (fun _ => REmpty) r), [])
      else (d, failure "invalid_request", [])
  end.

(** [configApply]: [handler] is the configured handler, if any. *)
Definition configApply (handler : option (configApplyRequest -> Outcome)) (a : Authorization) (payload : option (list byte)) : Outcome :=
  match handler with
  | None => failure "capability_required"
  | Some handle =>
      match decode_config_apply (default [] payload) with
      | None => failure "not_found_or_forbidden"
      | Some request =>
          if decide (au_ResourceID a = "" \/ cq_AssignmentID request <> au_ResourceID a) then failure "not_found_or_forbidden"
          else handle request
      end
  end.

(** ** Output streams *)

Inductive open_error := OpenInvalid | OpenManager (e : manager_error).

(** [OpenStream]: the stream is the pair of session and attachment.  A replayed attach is
    carried out again. *)
Definition OpenStream (a : Authorization) (capability : string) (payload : option (list byte)) (outcome : Outcome) (replay : bool)
    (d : dispatcher) : dispatcher * result open_error (option (string * string)) :=
  if decide (capability <> "terminal.v1" \/ oc_ErrorCode outcome <> "") then (d, Ok None)
  else match decode_terminal (default [] payload) with
  | None => (d, Ok None)
  | Some request =>
      if decide (tq_Action request <> "attach") then (d, Ok None)
      else match decode_attach (oc_Result outcome) with
      | None => (d, Err OpenInvalid)
      | Some response =>
          let aid := ar_AttachmentID response in
          if decide (aid = "") then (d, Err OpenInvalid)
          else
            let '(m, r) := if replay
                           then if tq_AtLiveBoundary request then Manager.AttachLive (ds_manager d) (tq_SessionID request) aid
                                else Manager.Attach (ds_manager d) (tq_SessionID request) aid (tq_FromSequence request)
                           else (ds_manager d, Err ErrSessionUnknown) in
            match replay, r with
            | true, Err e => (set_manager m d, Err (OpenManager e))
            | _, _ => (on_writers (fun x => Writers.Attach x (tq_SessionID request) aid (au_ClientID a)) (set_manager m d),
                       Ok (Some (tq_SessionID request, aid)))
            end
      end
  end.

(** What [Next] of the stream comes to: output, the end of the session, why it stopped, or
    that it waits. *)
Inductive stream_next :=
| NOutput (e : Event)
| NEnd (s : Snapshot)
| NSlow (queued : Z)
| NClosed
| NError (e : manager_error)
| NWaits.

(** One round of the loop of [Next]: when the reader would wait, the state of the session is
    looked at after a while. *)
Definition stream_round (sessionID attachmentID : string) (m : Manager.Manager) : Manager.Manager * stream_next :=
  match Manager.WaitNext m sessionID attachmentID with
  | (m', Some (Ok e)) => (m', NOutput e)
  | (m', None) =>
      match GetSnapshot m' sessionID with
      | Err e => (m', NError e)
      | Ok s => if decide (sn_State s <> Exited /\ sn_State s <> Closed) then (m', NWaits) else (m', NEnd s)
      end
  | (m', Some (Err (EFanout ErrAttachmentEvicted))) =>
      (m', NSlow match AttachmentStatus m' sessionID attachmentID with Ok (_, queued) => queued | Err _ => 0 end)
  | (m', Some (Err (EFanout ErrAttachmentTransition))) | (m', Some (Err (EFanout ErrAttachmentUnknown))) => (m', NClosed)
  | (m', Some (Err e)) => (m', NError e)
  end.

(** [Close] of the stream: the registry forgets the attachment whatever the manager says. *)
Definition close_stream (sessionID attachmentID : string) (d : dispatcher) : dispatcher * result manager_error unit :=
  let '(m, r) := Manager.Detach (ds_manager d) sessionID attachmentID in
  (on_writers (fun x => Writers.Detach x sessionID attachmentID) (set_manager m d), r).
End Dispatcher.
