(* ===== verification/DispatcherTheorems.v ===== *)
(** * The dispatcher keeps credentials to their session and shells to the workspace

    A credential that is bound to a session reaches this session only: whatever it asks for,
    the other sessions are left as they were, and only processes of its session are
    written to, resized, signalled or ended. *)

From S2P Require Import Prelude Config Base64 Paths Frame Buffers History Input Fanout Lifecycle Store Manager ManagerOutput ManagerSessions ManagerTheorems Writers Launcher Auth Credential Journal Streams Wire Binary Terminal Dispatcher.

(** ** Working directories *)

(** The path a client names: the root when it names none, relative to the root otherwise. *)
Definition named_path (root value : string) : string :=
  if decide (value = "") then root else if is_abs value then value else root +:+ String "/" value.

Lemma prefix_split p s : String.prefix p s = true -> exists t, s = p +:+ t.
Proof.
  revert s. induction p as [|a p IH]; intros s H; [by exists s|]. destruct s as [|b s]; [done|]. simpl in H.
  destruct (ascii_dec a b) as [<-|]; [|done]. destruct (IH s H) as [t ->]. by exists t.
Qed.

Lemma concat_no_dots l : Forall plain l -> String.concat "/" l <> ".." /\ String.prefix "../" (String.concat "/" l) = false.
Proof.
  intros H. destruct l as [|x l]; [done|].
  assert (Hs : split_at "/" (String.concat "/" (x :: l)) = x :: l).
  { apply split_concat; [done|]. apply (Forall_impl _ _ _ H). unfold plain. tauto. }
  apply Forall_cons in H as [(_&_&Hx&_) _]. split.
  - intros E. rewrite E in Hs. vm_compute in Hs. congruence.
  - destruct (String.prefix "../" (String.concat "/" (x :: l))) eqn:E; [|done]. apply prefix_split in E as [t E]. rewrite E in Hs.
    change ("../" +:+ t) with (".." +:+ String "/" t) in Hs. rewrite split_at_app in Hs by (unfold no_char; vm_compute; set_solver).
    congruence.
Qed.

Lemma concat_dots l : String.concat "/" (".." :: l) = ".." \/ String.prefix "../" (String.concat "/" (".." :: l)) = true.
Proof. destruct l as [|y l]; [by left|right]. change (String.concat "/" (".." :: y :: l)) with ("../" +:+ String.concat "/" (y :: l)). by destruct (String.concat "/" (y :: l)). Qed.

(** A shell starts inside the workspace: the directory a client names, relative to the
    root or absolute, is accepted exactly when, cleaned of dots and double slashes, it is
    the root or below it; the directory used is the cleaned one and has no dots left. *)
Theorem cwd_exact (root value : string) :
  is_abs root = true ->
  let es := elements_of (named_path root value) in
  cwd root value = (path_of es, bool_decide (elements_of root `prefix_of` es)) /\
  elements_of (cwd root value).1 = es /\ (".." ∉ es) /\ ("." ∉ es).
Proof.
  intros Habs. cbn zeta. unfold cwd.
  replace (if is_abs (if decide (value = "") then root else value) then if decide (value = "") then root else value
           else root +:+ String "/" (if decide (value = "") then root else value)) with (named_path root value).
  2:{ unfold named_path. case_decide; [by rewrite Habs|done]. }
  set (es := elements_of (named_path root value)). pose proof (elements_plain (named_path root value)) as Hes. fold es in Hes.
  assert (Hdots : (".." ∉ es) /\ ("." ∉ es)).
  { rewrite Forall_forall in Hes. split; intros Hin; destruct (Hes _ Hin) as (_&?&?&_); done. }
  split_and!; [|apply elements_clean|apply Hdots|apply Hdots]. f_equal. unfold filepath_Rel. rewrite elements_clean. fold es.
  destruct (rel_elements_inside (elements_of root) es Hes) as [[Hp Hf]|[Hp [l ->]]].
  - rewrite (bool_decide_eq_true_2 _ Hp). destruct (rel_elements (elements_of root) es) as [|x l] eqn:E; [done|]. rewrite <- E in *.
    destruct (concat_no_dots _ Hf) as [H1 H2]. rewrite (bool_decide_eq_false_2 _ H1), H2. done.
  - rewrite (bool_decide_eq_false_2 _ Hp). destruct (concat_dots l) as [E|E]; rewrite E; [done|]. by rewrite andb_false_r.
Qed.

(** ** Sessions *)

(** Only the session [sid] may have changed. *)
Definition only (sid : string) (m m' : Manager.Manager) : Prop :=
  forall id, id <> sid -> mg_sessions m' !! id = mg_sessions m !! id.

Definition keyed (m : Manager.Manager) : Prop := forall id s, mg_sessions m !! id = Some s -> ms_id s = id.

Definition effect_process (e : effect) : positive :=
  match e with EWrite p _ | EResize p _ | ESignal p _ | ETerminate p | ECloseIO p => p end.

(** The process is the session's, or one that this call has started. *)
Definition own_process (sid : string) (m : Manager.Manager) (w : dispatch_world) (p : positive) : Prop :=
  (exists s, mg_sessions m !! sid = Some s /\ (ms_process s = Some p \/ lp_process <$> ms_liveProcess s = Some p))
  \/ cw_launch (dw_create w) = Some p \/ rw_launch (dw_restart w) = Some p.

Definition own_effects (sid : string) (m : Manager.Manager) (w : dispatch_world) (effects : list effect) : Prop :=
  Forall (fun e => own_process sid m w (effect_process e)) effects.

Section Confined.
Context {J : JsonStrings} {TJ : TerminalJson} {DJ : DispatcherJson}.
Implicit Types (m : Manager.Manager) (w : dispatch_world).

Lemma only_refl sid m : only sid m m.
Proof. done. Qed.

Lemma only_put sid m s db hp :
  ms_id s = sid -> only sid m (put_session m s) /\ only sid m (put_store (put_session m s) db) /\
    only sid m (put_heap (put_session m s) hp) /\ only sid m (put_heap (put_store (put_session m s) db) hp).
Proof. intros <-. split_and!; intros id Hid; simpl; by rewrite lookup_insert_ne. Qed.

Lemma attachLocked_id c hp s aid from hp' s' r : attachLocked c hp s aid from = (hp', s', r) -> ms_id s' = ms_id s.
Proof.
  unfold attachLocked. case_decide; [by intros [= _ <- _]|]. destruct (attach_replay _ _ _ _) as [hp1 [replay|e]]; [|by intros [= _ <- _]].
  destruct (Fanout.Attach _ _ _) as [f1|e]; [|by intros [= _ <- _]]. destruct (enqueue_all _ _ _ _) as [[hp2 f2] [e|]].
  - destruct (Fanout.Detach _ _ _) as [[hp3 f3] ?]. by intros [= _ <- _].
  - by intros [= _ <- _].
Qed.

Section Ops.
Variable m : Manager.Manager.
Hypothesis Hkeyed : keyed m.

Ltac session sid := unfold get; destruct (mg_sessions m !! sid) as [s|] eqn:Hs; [pose proof (Hkeyed _ _ Hs) as Hid|by intros; simplify_eq].

Lemma Attach_only sid aid from : only sid m (Manager.Attach m sid aid from).1.
Proof.
  unfold Manager.Attach, get. destruct (mg_sessions m !! sid) as [s|] eqn:Hs; [|done].
  destruct (attachLocked _ _ _ _ _) as [[hp s'] r] eqn:E. apply (only_put sid m s' None hp). rewrite (attachLocked_id _ _ _ _ _ _ _ _ E). exact (Hkeyed _ _ Hs).
Qed.

Lemma AttachLive_only sid aid : only sid m (Manager.AttachLive m sid aid).1.
Proof.
  unfold Manager.AttachLive, get. destruct (mg_sessions m !! sid) as [s|] eqn:Hs; [|done]. destruct (Bounds _) as [[? latest] ?].
  destruct (attachLocked _ _ _ _ _) as [[hp s'] r] eqn:E. apply (only_put sid m s' None hp). rewrite (attachLocked_id _ _ _ _ _ _ _ _ E). exact (Hkeyed _ _ Hs).
Qed.

Lemma Detach_only sid aid : only sid m (Manager.Detach m sid aid).1.
Proof.
  unfold Manager.Detach, get. destruct (mg_sessions m !! sid) as [s|] eqn:Hs; [|done]. destruct (Fanout.Detach _ _ _) as [[hp f] r].
  apply (only_put sid m (set_fanout s f) None hp). exact (Hkeyed _ _ Hs).
Qed.

Lemma Acknowledge_only sid aid n : only sid m (Manager.Acknowledge m sid aid n).1.
Proof.
  unfold Manager.Acknowledge, get. destruct (mg_sessions m !! sid) as [s|] eqn:Hs; [|done]. destruct (Manager.attached _ _); [|done].
  destruct (History.Acknowledge _ _ _) as [h|]; [|done]. apply (only_put sid m (set_history s h) None (mg_heap m)). exact (Hkeyed _ _ Hs).
Qed.

Lemma Clear_only f now sid : only sid m (Manager.Clear f now m sid).1.
Proof.
  unfold Manager.Clear, get. destruct (mg_sessions m !! sid) as [s|] eqn:Hs; [|done]. destruct (Bounds _) as [[? latest] ?].
  destruct (mg_store m) as [d|]; [destruct (ClearOutput _ _ _ _ _) as [d' [[]|e]]; [|done]|];
    destruct (History.Clear (mg_heap m) (ms_history s)) as [[hp h] next]; eapply (only_put sid m (set_history s h)); exact (Hkeyed _ _ Hs).
Qed.

Lemma Delete_only f sid : only sid m (Delete f m sid).1.
Proof.
  unfold Delete, get. destruct (mg_sessions m !! sid) as [s|] eqn:Hs; [|done]. case_decide; [done|].
  destruct (mg_store m) as [d|]; [destruct (DeleteSession _ _ _) as [d' [[]|e]]; [|done]|];
    (destruct (Transition _ _); [|done]); intros id Hid; simpl; by rewrite lookup_delete_ne.
Qed.

Lemma Resize_only fn failed sid aid dims at_ w :
  only sid m (Manager.Resize fn failed m sid aid dims at_).1.1 /\ own_effects sid m w (Manager.Resize fn failed m sid aid dims at_).2.
Proof.
  unfold Manager.Resize, get. destruct (mg_sessions m !! sid) as [s|] eqn:Hs; [|by split; [|constructor]].
  destruct (ms_process s) as [p|] eqn:Hp; [|by split; [|constructor]].
  assert (Hown : own_effects sid m w [EResize p dims]) by (constructor; [left; exists s; by auto|constructor]).
  destruct (negb _); [by split; [|constructor]|]. case_decide; [by split; [|constructor]|]. destruct failed; [done|].
  destruct (persist _ _ _ _) as [db r]. split; [|done]. apply (only_put sid m (Manager.set_resize s aid at_ dims) db (mg_heap m)). exact (Hkeyed _ _ Hs).
Qed.

Lemma Signal_own failed sid g signal w : own_effects sid m w (Signal failed m sid g signal).2.
Proof.
  unfold Signal, get. destruct (mg_sessions m !! sid) as [s|] eqn:Hs; [|constructor]. destruct (ms_process s) as [p|] eqn:Hp; [|constructor].
  case_decide; [constructor|]. constructor; [left; exists s; by auto|constructor].
Qed.

Lemma WriteStream_own o sid aid g data w : own_effects sid m w (WriteStream o m sid aid g data).2.
Proof.
  unfold WriteStream, get. case_decide; [constructor|]. destruct (mg_sessions m !! sid) as [s|] eqn:Hs; [|constructor].
  destruct (ms_liveProcess s) as [live|] eqn:Hp; [|constructor]. case_decide; [constructor|]. destruct (negb _); [constructor|].
  constructor; [|constructor]. left. exists s. split; [done|]. right. by rewrite Hp.
Qed.

Lemma Restart_only sid w :
  only sid m (Restart (dw_restart w) m sid).1.1 /\ own_effects sid m w (Restart (dw_restart w) m sid).2.
Proof.
  unfold Restart, get. destruct (mg_sessions m !! sid) as [s|] eqn:Hs; [|by split; [|constructor]]. pose proof (Hkeyed _ _ Hs) as Hid.
  case_decide; [by split; [|constructor]|]. destruct (Transition (ms_lifecycle s) Restarting) as [l1|]; [|by split; [|constructor]].
  destruct (persist _ _ _ _) as [db1 [[]|e]].
  2:{ split; [|constructor]. eapply only_put. by rewrite ms_id_transition. }
  destruct (rw_launch (dw_restart w)) as [p|] eqn:Hl.
  2:{ destruct (persist _ _ _ _) as [db2 r]. split; [|constructor]. eapply only_put. by rewrite ms_id_transition. }
  assert (Hown : own_process sid m w p) by (right; by right).
  destruct (Transition l1 Running) as [l2|]; [|split; [by eapply only_put|by apply Forall_singleton]].
  destruct (persist _ _ _ _) as [db2 [[]|e]].
  - split; [|constructor]. eapply only_put. by rewrite ms_id_start.
  - split; [|by apply Forall_singleton]. eapply only_put. rewrite ms_id_transition. cbn [set_process ms_id]. by rewrite ms_id_start.
Qed.

Lemma Close_only sid w :
  only sid m (Close (dw_close w) m sid).1.1 /\ own_effects sid m w (Close (dw_close w) m sid).2.
Proof.
  unfold Close, get. destruct (kw_ctx (dw_close w)); [by split; [|constructor]|].
  destruct (mg_sessions m !! sid) as [s|] eqn:Hs; [|by split; [|constructor]]. pose proof (Hkeyed _ _ Hs) as Hid.
  destruct (decide (_ = Closed)); [by split; [|constructor]|]. destruct (decide (_ = Exited)).
  { destruct (Transition (ms_lifecycle s) Closing) as [l1|]; [|by split; [|constructor]].
    destruct (Transition l1 Closed) as [l2|]; [|split; [by apply (only_put sid m (set_lifecycle s l1) None (mg_heap m))|constructor]].
    destruct (persist _ _ _ _) as [db r]. split; [by eapply only_put|constructor]. }
  destruct (ms_process s) as [p|] eqn:Hp; [|by split; [|constructor]]. case_decide; [by split; [|constructor]|].
  assert (Hown : own_effects sid m w [ETerminate p]) by (constructor; [left; exists s; by auto|constructor]).
  set (first := if decide (lc_state (ms_lifecycle s) = Running) then _ else (m, s, None)).
  assert (Hfirst : only sid m first.1.1 /\ ms_id first.1.2 = sid /\ (forall r eff, first.2 = Some (r, eff) -> own_effects sid m w eff)).
  { unfold first. case_decide; [|by split_and!]. destruct (Transition _ Closing) as [l|e].
    2:{ split_and!; [by eapply only_put|done|]. intros r eff [= _ <-]. constructor. }
    destruct (persist _ _ _ _) as [db [[]|e]]; simpl; (split_and!; [eapply only_put|..]); rewrite ?ms_id_transition; try done.
    by intros r eff [= _ <-]. }
  clearbody first. destruct first as [[m1 s1] early]. simpl in Hfirst. destruct Hfirst as (Ho&Hid1&Heff).
  assert (Hthen : forall s' db, ms_id s' = sid -> only sid m (put_session m1 s') /\ only sid m (put_store (put_session m1 s') db)).
  { intros s' db Hs'. split; intros id Hne; rewrite <- (Ho id Hne); simpl; rewrite lookup_insert_ne; congruence. }
  destruct early as [[r eff]|]; [split; [done|by eapply Heff]|].
  destruct (kw_terminate (dw_close w)) as [result failed|]; [|done].
  destruct (Transition _ Closed) as [l|]; [|split; [by apply (Hthen _ None)|done]].
  destruct (persist _ _ _ _) as [db r]. split; [by apply Hthen|done].
Qed.

Lemma Create_only sid w req : cr_ID req = sid -> sid <> "" ->
  only sid m (Create (dw_create w) m req).1.1 /\ own_effects sid m w (Create (dw_create w) m req).2.
Proof.
  intros Hreq Hne. unfold Create. set (cw := dw_create w).
  assert (Hsame : only sid m m /\ own_effects sid m w []) by (split; [done|constructor]).
  assert (Hput : forall db, only sid m (put_store m db)) by done.
  assert (Hown : forall p, cw_launch cw = Some p -> own_process sid m w p) by (intros p Hp; right; by left).
  destruct (negb _); [done|]. destruct (cw_ctx cw); [done|]. destruct (mg_stopping m); [done|]. case_decide; [done|].
  destruct (mg_names m !! _); [done|]. rewrite decide_True by congruence. destruct (mg_sessions m !! cr_ID req); [done|]. rewrite Hreq.
  destruct (New _) as [retained|e]; [|done]. cbn zeta.
  destruct (match mg_store m with Some d => _ | None => _ end) as [db1 [[]|e]]; [|split; [apply Hput|constructor]].
  destruct (cw_launch cw) as [p|]; [|split; [apply Hput|constructor]]. specialize (Hown p eq_refl).
  destruct (Transition _ Running) as [running|e]; [|split; [apply Hput|by apply Forall_singleton]].
  destruct (persist _ _ _ _) as [db2 [[]|e]]; [|split; [apply Hput|by apply Forall_singleton]].
  split; [|constructor]. intros id Hid. simpl. by rewrite lookup_insert_ne.
Qed.
End Ops.

(** *** Calls *)

(** What the server may ask of the dispatcher under an authorization: a terminal request,
    terminal data of a stream, a control frame, and the output stream of an attach. *)
Inductive dispatch_call :=
| DTerminal (payload : option (list byte))
| DData (c : terminal_call)
| DControl (frame : Frame)
| DOpen (payload : option (list byte)) (outcome : Outcome) (replay : bool).

Definition perform (w : dispatch_world) (a : Authorization) (c : dispatch_call) (d : dispatcher) : dispatcher * list effect :=
  match c with
  | DTerminal payload => let '(d', _, eff) := terminal w a payload d in (d', eff)
  | DData call => let '(d', _, eff) := terminal_data w call d in (d', eff)
  | DControl frame => ((HandleControl w a frame d).1, [])
  | DOpen payload outcome replay => ((OpenStream a "terminal.v1" payload outcome replay d).1, [])
  end.

(** Terminal data comes with the binding made under the authorization, and an output stream
    is opened with the outcome that the request had, now or when it was first made. *)
Definition call_of (a : Authorization) (c : dispatch_call) : Prop :=
  match c with
  | DData call => tb_authorization (call_parts call).1.2 = a
  | DOpen payload outcome _ => exists w d, (terminal w a payload d).1.2 = outcome
  | _ => True
  end.

(** What the calls of the manager do for the session [sid], or for the empty name, which is
    no session. *)
Lemma ops_confined m sid w r : keyed m -> mg_sessions m !! "" = None -> r = "" \/ r = sid ->
  (forall aid from, only sid m (Manager.Attach m r aid from).1) /\ (forall aid, only sid m (Manager.AttachLive m r aid).1) /\
  (forall aid, only sid m (Manager.Detach m r aid).1) /\
  (forall fn b aid dims t, only sid m (Manager.Resize fn b m r aid dims t).1.1 /\ own_effects sid m w (Manager.Resize fn b m r aid dims t).2) /\
  (forall b g x, own_effects sid m w (Signal b m r g x).2) /\ (forall f t, only sid m (Manager.Clear f t m r).1) /\
  (only sid m (Restart (dw_restart w) m r).1.1 /\ own_effects sid m w (Restart (dw_restart w) m r).2) /\
  (only sid m (Close (dw_close w) m r).1.1 /\ own_effects sid m w (Close (dw_close w) m r).2) /\ (forall f, only sid m (Delete f m r).1).
Proof.
  intros Hk Hnone [->| ->].
  - unfold Manager.Attach, Manager.AttachLive, Manager.Detach, Manager.Resize, Signal, Manager.Clear, Restart, Close, Delete, get.
    rewrite Hnone. split_and!; try done; try (intros; split_and!); try constructor; by destruct (kw_ctx _); try constructor.
  - split_and!; intros; first [by apply Attach_only|by apply AttachLive_only|by apply Detach_only|by apply Resize_only|by apply Signal_own
      |by apply Clear_only|by apply Restart_only|by apply Close_only|by apply Delete_only].
Qed.

Lemma detach_confined d sid aid : ds_manager (detach sid aid d).1 = (Manager.Detach (ds_manager d) sid aid).1.
Proof. unfold detach. by destruct (Manager.Detach _ _ _) as [m [[]|e]]. Qed.

Lemma attach_confined w request d :
  ds_manager (attach w request d).1 = ds_manager d \/
  (exists aid, ds_manager (attach w request d).1 = (Manager.AttachLive (ds_manager d) (tq_SessionID request) aid).1) \/
  (exists aid, ds_manager (attach w request d).1 = (Manager.Attach (ds_manager d) (tq_SessionID request) aid (tq_FromSequence request)).1).
Proof.
  unfold attach. destruct (decide (_ = "")); [by left|]. right. destruct (decide (tq_Action request = "attach" /\ _)); [left|right].
  - match goal with |- context [Manager.AttachLive ?m ?s ?a] => exists a; by destruct (Manager.AttachLive m s a) end.
  - match goal with |- context [Manager.Attach ?m ?s ?a ?f] => exists a; by destruct (Manager.Attach m s a f) end.
Qed.

Lemma launch_confined w d request m' r eff sid :
  Launch (dw_create w) (ds_launcher d) (ds_manager d) request = (m', r, eff) -> (lr_ID request = "" \/ lr_ID request = sid) -> sid <> "" ->
  only sid (ds_manager d) m' /\ own_effects sid (ds_manager d) w eff.
Proof.
  unfold Launch, launch_request. destruct (validSessionID (lr_ID request)) eqn:Hv; simpl; [|intros [= <- _ <-]; by split; [|constructor]].
  destruct (mergeClientEnvironment _ _) as [env|]; [|intros [= <- _ <-]; by split; [|constructor]].
  set (req := mkCreate _ _ _). intros E Hid Hne.
  assert (Hreq : cr_ID req = sid) by (destruct Hid as [Hid|Hid]; [rewrite Hid in Hv; by vm_compute in Hv|done]).
  destruct (Create_only (ds_manager d) sid w req Hreq Hne) as [H1 H2].
  destruct (Create (dw_create w) (ds_manager d) req) as [[m1 [s|e]] eff1]; by injection E as <- _ <-.
Qed.

(** The session a request works on: the credential's, or none. *)
Lemma terminal_confined w a payload d d' o eff sid :
  terminal w a payload d = (d', o, eff) -> au_SessionID a = sid -> sid <> "" -> keyed (ds_manager d) -> mg_sessions (ds_manager d) !! "" = None ->
  only sid (ds_manager d) (ds_manager d') /\ own_effects sid (ds_manager d) w eff.
Proof.
  intros E Ha Hsid Hk Hnone. assert (Hsame : only sid (ds_manager d) (ds_manager d) /\ own_effects sid (ds_manager d) w []) by (split; [done|constructor]).
  unfold terminal in E. destruct (decode_terminal _) as [request|]; [|by injection E as <- _ <-]. cbn zeta in E.
  destruct (decide (au_ClientID a = "")); [by injection E as <- _ <-|]. destruct (decide (au_SessionID a <> "" /\ _)) as [|Hs]; [by injection E as <- _ <-|].
  assert (Hreq : tq_SessionID request = "" \/ tq_SessionID request = sid).
  { destruct (decide (tq_SessionID request = "")); [by left|right]. destruct (decide (tq_SessionID request = sid)); [done|]. destruct Hs. split_and!; congruence. }
  destruct (ops_confined (ds_manager d) sid w _ Hk Hnone Hreq) as (C1&C2&C3&C4&C5&C6&C7&C8&C9).
  destruct (decide (_ = "list")); [destruct (decide _); by injection E as <- _ <-|].
  destruct (decide (_ \/ _)); [by injection E as <- _ <-|].
  destruct (decide (_ = "create")).
  { unfold create in E. destruct (cwd _ _) as [dir ok]. destruct (decide _); [by injection E as <- _ <-|].
    destruct (Launch _ _ _ _) as [[m' r] eff'] eqn:El. injection E as <- _ <-. apply (launch_confined _ _ _ _ _ _ _ El); [|done]. simpl.
    case_decide; [by right|]. by destruct Hreq; auto. }
  destruct (decide (_ \/ _)).
  { pose proof (attach_confined w request d) as Hat. destruct (attach w request d) as [d1 o1]. injection E as <- _ <-. split; [|constructor].
    destruct Hat as [Hat|[[aid Hat]|[aid Hat]]]; simpl in Hat; by rewrite Hat. }
  destruct (decide (_ = "detach")).
  { pose proof (detach_confined d (tq_SessionID request) (tq_AttachmentID request)) as Hd. destruct (detach _ _ d) as [d1 r].
    injection E as <- _ <-. simpl in Hd. rewrite Hd. split; [apply C3|constructor]. }
  destruct (decide (_ = "resize")).
  { match type of E with context [Manager.Resize ?f ?b ?m ?s ?a ?x ?t] => specialize (C4 f b a x t); destruct (Manager.Resize f b m s a x t) as [[m' r] eff'] end.
    by injection E as <- _ <-. }
  destruct (decide (_ = "signal")).
  { match type of E with context [Signal ?b ?m ?s ?g ?x] => specialize (C5 b g x); destruct (Signal b m s g x) as [r eff'] end. by injection E as <- _ <-. }
  destruct (decide (_ = "clear")).
  { specialize (C6 (dw_fault w) (dw_now w)). destruct (Manager.Clear _ _ _ _) as [m' r]. injection E as <- _ <-. split; [done|constructor]. }
  destruct (decide (_ = "restart")). { destruct (Restart _ _ _) as [[m' r] eff']. by injection E as <- _ <-. }
  destruct (decide (_ = "close")). { destruct (Close _ _ _) as [[m' r] eff']. by injection E as <- _ <-. }
  destruct (decide (_ = "delete")); [|by injection E as <- _ <-].
  specialize (C9 (dw_fault w)). destruct (Delete _ _ _) as [m' r]. injection E as <- _ <-. split; [done|constructor].
Qed.

(** A request whose outcome is not a failure is for the credential's session, or names none. *)
Lemma terminal_session w a payload d request :
  oc_ErrorCode (terminal w a payload d).1.2 = "" -> au_SessionID a <> "" -> decode_terminal (default [] payload) = Some request ->
  tq_SessionID request = "" \/ tq_SessionID request = au_SessionID a.
Proof.
  intros H Ha Hd. unfold terminal in H. rewrite Hd in H. cbn zeta in H. destruct (decide (au_ClientID a = "")); [done|].
  destruct (decide (_ /\ _ /\ _)) as [|Hs]; [done|]. clear H.
  destruct (decide (tq_SessionID request = "")); [by left|right]. destruct (decide (tq_SessionID request = au_SessionID a)); [done|].
  destruct Hs. split_and!; congruence.
Qed.

Lemma session_allowed_is a sid session : au_SessionID a = sid -> sid <> "" -> session_allowed a session = true -> session = sid.
Proof. unfold session_allowed. intros <- Hne [H|H]%bool_decide_eq_true; done. Qed.

Lemma data_confined w a call d d' r eff sid :
  terminal_data w call d = (d', r, eff) -> tb_authorization (call_parts call).1.2 = a -> au_SessionID a = sid -> sid <> "" -> keyed (ds_manager d) ->
  only sid (ds_manager d) (ds_manager d') /\ own_effects sid (ds_manager d) w eff.
Proof.
  intros E Hb Ha Hne Hk. assert (Hsame : only sid (ds_manager d) (ds_manager d) /\ own_effects sid (ds_manager d) w []) by (split; [done|constructor]).
  pose proof (session_allowed_is _ _ (tb_sessionID (call_parts call).1.2) Ha Hne) as Hal. destruct call as [i b f|i b f|i b f]; simpl in E, Hb, Hal; subst a.
  - unfold HandleTerminalInput in E. case_decide as Hg; [by injection E as <- _ <-|]. rewrite Hal in * by (destruct (session_allowed _ _); naive_solver).
    match type of E with context [WriteStream ?o ?m ?s ?a ?g ?x] => pose proof (WriteStream_own m o s a g x w) as Hw; destruct (WriteStream o m s a g x) as [[n|e] eff'] end;
      injection E as <- _ <-; by split.
  - unfold HandleTerminalACK in E. case_decide as Hg; [by injection E as <- _ <-|]. rewrite Hal in * by (destruct (session_allowed _ _); naive_solver).
    match type of E with context [Manager.Acknowledge ?m ?s ?a ?n] => pose proof (Acknowledge_only m Hk s a n) as Hw; destruct (Manager.Acknowledge m s a n) as [m' r'] end.
    injection E as <- _ <-. split; [done|constructor].
  - unfold HandleTerminalResize in E. case_decide as Hg; [by injection E as <- _ <-|]. rewrite Hal in * by (destruct (session_allowed _ _); naive_solver).
    match type of E with context [Manager.Resize ?f ?b ?m ?s ?a ?x ?t] => pose proof (Resize_only m Hk f b s a x t w) as Hw; destruct (Manager.Resize f b m s a x t) as [[m' r'] eff'] end.
    by injection E as <- _ <-.
Qed.

Lemma control_confined w a frame d sid : au_SessionID a = sid -> sid <> "" -> keyed (ds_manager d) ->
  only sid (ds_manager d) (ds_manager (HandleControl w a frame d).1).
Proof.
  intros Ha Hne Hk. unfold HandleControl. destruct (decode_control _) as [c|]; [|done]. case_decide as Hg; [done|].
  destruct (session_allowed a (ac_SessionID c)) eqn:Hal; [|done]. simpl. rewrite (session_allowed_is _ _ _ Ha Hne Hal).
  case_decide as Ht1; [|case_decide as Ht2; [|done]].
  - pose proof (Acknowledge_only _ Hk sid (ac_AttachmentID c) (ac_NextSequence c)) as H1. by destruct (Manager.Acknowledge _ _ _ _).
  - pose proof (Detach_only _ Hk sid (ac_AttachmentID c)) as H1. rewrite <- (detach_confined d) in H1. by destruct (detach _ _ _).
Qed.

Lemma open_confined a payload outcome replay d sid :
  (exists w d0, (terminal w a payload d0).1.2 = outcome) -> au_SessionID a = sid -> sid <> "" -> keyed (ds_manager d) -> mg_sessions (ds_manager d) !! "" = None ->
  only sid (ds_manager d) (ds_manager (OpenStream a "terminal.v1" payload outcome replay d).1).
Proof.
  intros (w&d0&Hout) <- Hne Hk Hnone. unfold OpenStream. destruct (decide (_ \/ _)) as [|Hc]; [done|]. destruct (decode_terminal _) as [request|] eqn:Hdec; [|done].
  case_decide; [done|]. destruct (decode_attach _) as [response|]; [|done]. cbn zeta. case_decide; [done|].
  assert (Hs : tq_SessionID request = "" \/ tq_SessionID request = au_SessionID a).
  { apply (terminal_session w a payload d0); [|done|done]. rewrite Hout. destruct (decide (oc_ErrorCode outcome = "")); naive_solver. }
  destruct (ops_confined (ds_manager d) (au_SessionID a) w _ Hk Hnone Hs) as (C1&C2&_). destruct replay; [|done]. destruct (tq_AtLiveBoundary request).
  - specialize (C2 (ar_AttachmentID response)). by destruct (Manager.AttachLive _ _ _) as [m' [x|e]].
  - specialize (C1 (ar_AttachmentID response) (tq_FromSequence request)). by destruct (Manager.Attach _ _ _ _) as [m' [x|e]].
Qed.
End Confined.

(** C3.  A credential that is bound to a session reaches this session only: whatever request,
    terminal data, control frame or output stream comes under it, and whatever the outside
    does, no other session is changed, and only processes of this session, or started for
    it by this very call, are written to, resized, signalled or ended. *)
Theorem session_confined {J : JsonStrings} {TJ : TerminalJson} {DJ : DispatcherJson}
    (w : dispatch_world) (a : Authorization) (c : dispatch_call) (d d' : dispatcher) (effects : list effect) :
  au_SessionID a <> "" -> keyed (ds_manager d) -> mg_sessions (ds_manager d) !! "" = None -> call_of a c ->
  perform w a c d = (d', effects) ->
  only (au_SessionID a) (ds_manager d) (ds_manager d') /\ own_effects (au_SessionID a) (ds_manager d) w effects.
Proof.
  intros Hne Hk Hnone Hc E. destruct c as [payload|call|frame|payload outcome replay]; simpl in E.
  - destruct (terminal w a payload d) as [[d1 o] eff] eqn:Et. injection E as <- <-. by apply (terminal_confined w a payload d d1 o eff).
  - destruct (terminal_data w call d) as [[d1 r] eff] eqn:Et. injection E as <- <-. by apply (data_confined w a call d d1 r eff).
  - injection E as <- <-. split; [by apply control_confined|constructor].
  - injection E as <- <-. split; [by apply open_confined|constructor].
Qed.

(** ** Witnesses: two sessions, and a credential for the first *)

Lemma cwd_exact_witness : cwd "/work" "a/../b" = ("/work/b", true) /\ cwd "/work" "../etc" = ("/etc", false).
Proof.
  split.
  - rewrite (proj1 (cwd_exact "/work" "a/../b" eq_refl)). by vm_compute.
  - rewrite (proj1 (cwd_exact "/work" "../etc" eq_refl)). by vm_compute.
Defined.

Definition demo_two_create : create_world := mkCreateWorld false [] (FNone, 1) (Some 2%positive) (FNone, 1) (FNone, 1) FNone.
Definition demo_two : Manager.Manager :=
  (@Create demo_json demo_two_create demo_m1 (mkCreate "s2" "other" (mkCommand "/bin/sh" [] [] "/" (mkDims 80 24)))).1.1.
Definition demo_dispatcher : dispatcher := mkDispatcher demo_launcher "/work" demo_two None.
Definition demo_bound_credential : Authorization := mkAuthorization "" "" "" "client" "s1" "" 0 None None None.
Definition demo_dispatch_world : dispatch_world :=
  mkDispatchWorld demo_two_create (mkCloseWorld false (FNone, 1) (mkExit 0 "" 0) (TermDone (mkExit 0 "" 0) false) (FNone, 1))
    (mkRestartWorld (FNone, 1) None (FNone, 1) (FNone, 1)) (FNone, 1) FNone false (mkOutcome 1 false) 1 [] "".
Definition demo_signal_json : TerminalJson := {|
  decode_terminal := fun _ => Some (mkTerminalRequest "signal" "" "" "" "s1" "" 0 false 1 0 0 [] "SIGINT");
  decode_attach := fun _ => None
|}.
Definition demo_dispatcher_json : DispatcherJson := {|
  marshal_reply := fun _ => Some []; marshal_details := fun _ => []; decode_control := fun _ => None; decode_config_apply := fun _ => None
|}.

Lemma session_confined_witness : own_process "s1" demo_two demo_dispatch_world 1%positive.
Proof.
  assert (Hk : keyed demo_two).
  { apply (bool_decide_eq_true_1 (map_Forall (fun id s => ms_id s = id) (mg_sessions demo_two))). by vm_compute. }
  destruct (@session_confined demo_json demo_signal_json demo_dispatcher_json demo_dispatch_world demo_bound_credential (DTerminal None)
    demo_dispatcher demo_dispatcher [ESignal 1%positive "SIGINT"] ltac:(discriminate) Hk eq_refl I ltac:(vm_compute; reflexivity)) as [_ H].
  exact (proj1 (proj1 (Forall_cons _ _ _) H)).
Defined.
