(* ===== verification/Preview.v ===== *)
(** * Previews ([internal/preview])

    A preview makes one loopback port of the workspace public.  [Registry] keeps the
    previews and their states; [Monitor] probes their targets; [Proxy] forwards public
    requests to the targets that answer; [Reporter] tells the control plane what became of
    them; [AgentHandler] lets the agent in the workspace list, create and remove them.
    Dials, HTTP exchanges, clocks and JSON are inputs. *)

From S2P Require Import Prelude Config.

(** ** Data ([registry.go]) *)

Inductive State := Registering | Ready | Degraded | Offline | Expired | Removed.
#[global] Instance preview_State_eq_dec : EqDecision State.
Proof. solve_decision. Defined.

Inductive preview_error := ErrInvalidTarget | ErrIdentityConflict | ErrNotFound | ErrInvalidTransition | ErrResourceLimit | ECanceled.
#[global] Instance preview_error_eq_dec : EqDecision preview_error.
Proof. solve_decision. Defined.

Definition transitions (from to : State) : bool :=
  match from, to with
  | Registering, (Ready | Degraded | Offline | Removed) => true
  | Ready, (Degraded | Offline | Expired | Removed) => true
  | Degraded, (Ready | Offline | Expired | Removed) => true
  | Offline, (Registering | Ready | Expired | Removed) => true
  | Expired, (Registering | Removed) => true
  | _, _ => false
  end.

Record Target := mkTarget { tg_Host : string; tg_Port : Z }.
#[global] Instance Target_eq_dec : EqDecision Target.
Proof. solve_decision. Defined.

Record PreviewRecord := mkPreview {
  pr_Identity : string;
  pr_EnvironmentID : string;
  pr_LogicalName : string;
  pr_Target : Target;
  pr_State : State;
  pr_Reason : string;
  pr_UpdatedAt : time;
  pr_Revision : Z;
  pr_PublicURL : string
}.

(** [slots] counts the tokens in the channel of that name. *)
Record Registry := mkRegistry {
  rg_ProbeTimeout : Z;
  rg_MaxTargets : Z;
  rg_MaxConcurrentProbes : Z;
  rg_records : gmap string PreviewRecord;
  rg_logical : gmap string string;
  rg_slots : Z
}.

Definition put_records (r : Registry) (records : gmap string PreviewRecord) : Registry :=
  mkRegistry (rg_ProbeTimeout r) (rg_MaxTargets r) (rg_MaxConcurrentProbes r) records (rg_logical r) (rg_slots r).
Definition put_slots (r : Registry) (slots : Z) : Registry :=
  mkRegistry (rg_ProbeTimeout r) (rg_MaxTargets r) (rg_MaxConcurrentProbes r) (rg_records r) (rg_logical r) slots.

Definition New (prober : bool) (timeout maxTargets maxProbes : Z) : result preview_error Registry :=
  let timeout := if decide (timeout = 0) then 2 * second else timeout in
  let maxTargets := if decide (maxTargets = 0) then MaxPreviewTargets DefaultResources else maxTargets in
  let maxProbes := if decide (maxProbes = 0) then MaxConcurrentProbes DefaultResources else maxProbes in
  if decide (prober = false \/ timeout <= 0 \/ maxTargets < 1 \/ maxProbes < 1) then Err ErrResourceLimit
  else Ok (mkRegistry timeout maxTargets maxProbes ∅ ∅ 0).

(** ** Validity *)

Definition validTarget (t : Target) : bool := bool_decide ((tg_Host t = "127.0.0.1" \/ tg_Host t = "::1") /\ 0 < tg_Port t).

Definition validID (value : string) : bool := bool_decide ((1 <= String.length value <= 128)%nat).

Definition valid_name_char (a : ascii) : bool :=
  let n := nat_of_ascii a in
  ((97 <=? n) && (n <=? 122) || (48 <=? n) && (n <=? 57) || (n =? 45) || (n =? 95))%nat.

Definition validName (value : string) : bool := validID value && forallb valid_name_char (String.list_ascii_of_string value).

(** ** Operations *)

Definition logical_key (environmentID logicalName : string) : string := environmentID +:+ String zero logicalName.

(** The name belongs to another identity. *)
Definition taken (existing : option string) (identity : string) : bool :=
  match existing with Some other => negb (bool_decide (other = identity)) | None => false end.

Definition is_active (record : PreviewRecord) : bool := negb (bool_decide (pr_State record = Removed)).

Definition active_count (records : gmap string PreviewRecord) : Z :=
  len (filter (fun p => is_active p.2 = true) (map_to_list records)).

(** A registration of an identity that is known: the target may change. *)
Definition register_again (now : time) (existing : PreviewRecord) (target : Target) : PreviewRecord :=
  let back := bool_decide (pr_State existing = Offline \/ pr_State existing = Expired) in
  let changed := negb (bool_decide (pr_Target existing = target)) in
  mkPreview (pr_Identity existing) (pr_EnvironmentID existing) (pr_LogicalName existing) target
    (if back then Registering else if changed then Degraded else pr_State existing)
    (if back then "" else if changed then "target_changed" else pr_Reason existing)
    now (u64_add (pr_Revision existing) 1) (pr_PublicURL existing).

Definition Register (now : time) (identity environmentID logicalName : string) (target : Target) (acknowledged : bool) (r : Registry)
    : Registry * result preview_error PreviewRecord :=
  if negb (validID identity && validID environmentID && validName logicalName && validTarget target && acknowledged) then (r, Err ErrInvalidTarget)
  else
    let key := logical_key environmentID logicalName in
    if taken (rg_logical r !! key) identity then (r, Err ErrIdentityConflict)
    else match rg_records r !! identity with
    | Some existing =>
        if decide (pr_EnvironmentID existing <> environmentID \/ pr_LogicalName existing <> logicalName \/ pr_State existing = Removed)
        then (r, Err ErrIdentityConflict)
        else if decide (pr_Target existing = target /\ pr_State existing <> Offline /\ pr_State existing <> Expired) then (r, Ok existing)
        else let record := register_again now existing target in
             (put_records r (<[identity := record]> (rg_records r)), Ok record)
    | None =>
        if decide (rg_MaxTargets r <= active_count (rg_records r)) then (r, Err ErrResourceLimit)
        else
          let record := mkPreview identity environmentID logicalName target Registering "" now 1 "" in
          (mkRegistry (rg_ProbeTimeout r) (rg_MaxTargets r) (rg_MaxConcurrentProbes r)
             (<[identity := record]> (rg_records r)) (<[key := identity]> (rg_logical r)) (rg_slots r), Ok record)
    end.

(** The second half of [RegisterCanonical]; the lock is taken anew. *)
Definition set_url (identity publicURL : string) (r : Registry) : Registry * PreviewRecord :=
  let record := default (mkPreview "" "" "" (mkTarget "" 0) Registering "" zero_time 0 "") (rg_records r !! identity) in
  let record := mkPreview (pr_Identity record) (pr_EnvironmentID record) (pr_LogicalName record) (pr_Target record) (pr_State record)
                  (pr_Reason record) (pr_UpdatedAt record) (pr_Revision record) publicURL in
  (put_records r (<[identity := record]> (rg_records r)), record).

Definition RegisterCanonical (now : time) (identity publicURL environmentID logicalName : string) (target : Target) (r : Registry)
    : Registry * result preview_error PreviewRecord :=
  match Register now identity environmentID logicalName target true r with
  | (r1, Err e) => (r1, Err e)
  | (r1, Ok _) => let '(r2, record) := set_url identity publicURL r1 in (r2, Ok record)
  end.

Definition record_le (x y : PreviewRecord) : Prop := string_le (pr_Identity x) (pr_Identity y).
#[global] Instance record_le_dec x y : Decision (record_le x y).
Proof. unfold record_le. apply _. Defined.

Definition List (r : Registry) : list PreviewRecord := merge_sort record_le (map_to_list (rg_records r)).*2.

Definition ListEnvironment (environmentID : string) (r : Registry) : list PreviewRecord :=
  merge_sort record_le (filter (fun record => pr_EnvironmentID record = environmentID /\ is_active record = true) (map_to_list (rg_records r)).*2).

Definition ResourceCounts (r : Registry) : Z := active_count (rg_records r).

Definition Get (identity : string) (r : Registry) : result preview_error PreviewRecord :=
  match rg_records r !! identity with
  | Some record => if decide (pr_State record = Removed) then Err ErrNotFound else Ok record
  | None => Err ErrNotFound
  end.

(** *** Probes

    [Probe] takes a slot and a copy of the record, dials without the lock, and takes the
    lock again; what happens in between is up to the other calls. *)

Definition probe_begin (identity : string) (r : Registry) : Registry * result preview_error PreviewRecord :=
  if decide (rg_MaxConcurrentProbes r <= rg_slots r) then (r, Err ErrResourceLimit)
  else match Get identity r with
  | Err e => (r, Err e)
  | Ok record => if decide (pr_State record = Expired) then (r, Err ErrInvalidTransition) else (put_slots r (rg_slots r + 1), Ok record)
  end.

Definition probed (now : time) (dialed : bool) (current : PreviewRecord) : PreviewRecord :=
  let '(next, reason) :=
    if dialed then (Ready, "") else if decide (pr_State current = Offline) then (Offline, "helper_offline") else (Degraded, "target_unhealthy") in
  mkPreview (pr_Identity current) (pr_EnvironmentID current) (pr_LogicalName current) (pr_Target current) next reason now
    (u64_add (pr_Revision current) 1) (pr_PublicURL current).

(** [ended]: the caller's context is over; [dialed]: the target answered. *)
Definition probe_end (now : time) (ended dialed : bool) (identity : string) (record : PreviewRecord) (r : Registry)
    : Registry * result preview_error PreviewRecord :=
  let r := put_slots r (rg_slots r - 1) in
  if ended then (r, Err ECanceled)
  else match Get identity r with
  | Err e => (r, Err e)
  | Ok current =>
      if decide (pr_Revision current <> pr_Revision record) then (r, Ok current)
      else
        let next := probed now dialed current in
        if decide (transitions (pr_State current) (pr_State next) = false /\ pr_State current <> pr_State next) then (r, Err ErrInvalidTransition)
        else (put_records r (<[identity := next]> (rg_records r)), Ok next)
  end.

(** A probe with nothing in between. *)
Definition Probe (now : time) (ended : bool) (dial : Target -> bool) (identity : string) (r : Registry) : Registry * result preview_error PreviewRecord :=
  match probe_begin identity r with
  | (r1, Err e) => (r1, Err e)
  | (r1, Ok record) => probe_end now ended (dial (pr_Target record)) identity record r1
  end.

(** *** Transitions *)

Definition moved (now : time) (next : State) (reason : string) (current : PreviewRecord) : PreviewRecord :=
  mkPreview (pr_Identity current) (pr_EnvironmentID current) (pr_LogicalName current) (pr_Target current) next reason now
    (u64_add (pr_Revision current) 1) (pr_PublicURL current).

Definition transition (now : time) (identity : string) (next : State) (reason : string) (r : Registry)
    : Registry * result preview_error PreviewRecord :=
  match Get identity r with
  | Err e => (r, Err e)
  | Ok current =>
      if transitions (pr_State current) next
      then let record := moved now next reason current in (put_records r (<[identity := record]> (rg_records r)), Ok record)
      else (r, Err ErrInvalidTransition)
  end.

Definition SetOffline (now : time) (identity : string) := transition now identity Offline "helper_offline".
Definition Expire (now : time) (identity : string) := transition now identity Expired "expired".
Definition Remove (now : time) (identity : string) := transition now identity Removed "removed".

(** ** The monitor ([monitor.go])

    [dial] is what a dial to a target comes to, [ended] whether the context is over after
    the probe of an identity. *)

Definition watched (record : PreviewRecord) : bool :=
  bool_decide (pr_State record = Registering \/ pr_State record = Ready \/ pr_State record = Degraded).

Fixpoint run_records (now : time) (ended : string -> bool) (dial : Target -> bool) (l : list PreviewRecord) (r : Registry)
    : Registry * list preview_error :=
  match l with
  | [] => (r, [])
  | record :: rest =>
      if watched record then
        let '(r1, result) := Probe now (ended (pr_Identity record)) dial (pr_Identity record) r in
        match result with
        | Err e =>
            if ended (pr_Identity record) then (r1, [ECanceled])
            else let '(r2, errors) := run_records now ended dial rest r1 in
                 (r2, if decide (e = ErrNotFound \/ e = ErrInvalidTransition) then errors else e :: errors)
        | Ok _ => run_records now ended dial rest r1
        end
      else run_records now ended dial rest r
  end.

Definition RunOnce (now : time) (ended : string -> bool) (dial : Target -> bool) (r : Registry) : Registry * list preview_error :=
  run_records now ended dial (List r) r.

(** ** The proxy ([proxy.go]) *)

Inductive served :=
| Forward (target : Target)            (* the reverse proxy takes over *)
| Status (code : Z) (retry_after : option Z).

(** Seconds, rounded up, of a positive duration. *)
Definition retry_header (retryAfter : Z) : option Z :=
  if decide (0 < retryAfter) then Some ((retryAfter + second - 1) / second) else None.

(** [path] and [header] are what the request carries as the identity of the preview. *)
Definition ServeHTTP (retryAfter : Z) (path header : string) (r : Registry) : served :=
  let identity := if decide (path = "") then header else path in
  match Get identity r with
  | Err _ => Status 404 None
  | Ok record =>
      match pr_State record with
      | Registering | Degraded | Offline => Status 503 (retry_header retryAfter)
      | Expired => Status 410 None
      | Removed => Status 404 None
      | Ready => Forward (pr_Target record)
      end
  end.
