(* ===== verification/PreviewControl.v ===== *)
(** * Previews and the control plane ([internal/preview], [internal/server/dispatcher.go])

    Reports of observations, the short-lived credential they are sent with, the client of
    the control plane, the endpoint of the agent, and preview requests of the dispatcher.
    HTTP exchanges, tokens, proofs, clocks and JSON are inputs. *)

From S2P Require Import Prelude Config Auth Credential Preview.

(** ** Reports ([reporter.go]) *)

Record Observation := mkObservation {
  ob_Identity : string; ob_EnvironmentID : string; ob_LogicalName : string; ob_Target : Target;
  ob_State : State; ob_Reason : string; ob_UpdatedAt : time; ob_Revision : Z
}.

Definition observationFrom (r : PreviewRecord) : Observation :=
  mkObservation (pr_Identity r) (pr_EnvironmentID r) (pr_LogicalName r) (pr_Target r) (pr_State r) (pr_Reason r) (pr_UpdatedAt r) (pr_Revision r).

Record Reporter := mkReporter { rp_acknowledged : gmap string Z; rp_active : option Observation }.

Definition NewReporter : Reporter := mkReporter ∅ None.

Definition acknowledged (s : Reporter) (identity : string) : Z := default 0 (rp_acknowledged s !! identity).

Definition unreported (s : Reporter) (record : PreviewRecord) : bool := bool_decide (acknowledged s (pr_Identity record) < pr_Revision record).

(** What is to be sent: the observation in hand, or the first record with news. *)
Definition deliver_begin (s : Reporter) (r : Registry) : Reporter :=
  match rp_active s with
  | Some _ => s
  | None => mkReporter (rp_acknowledged s) (observationFrom <$> head (filter (fun record => unreported s record = true) (List r)))
  end.

Inductive delivery := Delivered | Rejected (status : Z) | Failed.
#[global] Instance delivery_eq_dec : EqDecision delivery.
Proof. solve_decision. Defined.

Definition permanent_status (status : Z) : bool := bool_decide (status ∈ [400; 404; 409; 410; 422]).

Definition IsPermanentObservationError (d : delivery) : bool :=
  match d with Rejected status => permanent_status status | Delivered | Failed => false end.

(** After the send: [r.active] is the observation that was sent, since deliveries are made
    one at a time. *)
Definition deliver_end (d : delivery) (s : Reporter) : Reporter :=
  match rp_active s with
  | None => s
  | Some o =>
      if bool_decide (d = Delivered) || IsPermanentObservationError d
      then mkReporter (if decide (acknowledged s (ob_Identity o) < ob_Revision o)
                       then <[ob_Identity o := ob_Revision o]> (rp_acknowledged s) else rp_acknowledged s) None
      else s
  end.

(** One delivery while the registry stands still; [send] is what the sender makes of it. *)
Definition DeliverOnce (send : Observation -> delivery) (s : Reporter) (r : Registry) : Reporter * bool :=
  let s1 := deliver_begin s r in
  match rp_active s1 with
  | None => (s1, false)
  | Some o => (deliver_end (send o) s1, true)
  end.

(** ** The sender ([http_sender.go]) *)

Definition max_token : Z := Z.shiftl 16 10.

(** A text that was obtained, not empty and not too long. *)
Definition usable_text (value : option string) : bool :=
  match value with Some t => bool_decide (0 < Z.of_nat (String.length t) <= max_token) | None => false end.

(** What the sender meets: the observation as JSON, both tokens, the operation's name, the
    proof, and the status and length of the answer. *)
Record send_world := mkSendWorld {
  sd_encoded : option (list byte);
  sd_token : option string;
  sd_identity : option string;
  sd_operation : option string;
  sd_proof : option (list byte);
  sd_response : option (Z * Z)
}.

Definition sendable (o : Observation) : bool :=
  bool_decide (ob_Identity o <> "" /\ ob_EnvironmentID o <> "" /\ ob_LogicalName o <> "" /\ ob_Revision o <> 0)
  && negb (is_zero_time (ob_UpdatedAt o)) && validTarget (ob_Target o).

Definition Send (maxResponse : Z) (w : send_world) (o : Observation) : delivery :=
  if negb (sendable o) then Failed
  else match sd_encoded w with
  | None => Failed
  | Some encoded =>
      if decide (Z.shiftl 64 10 < len encoded) then Failed
      else if negb (usable_text (sd_token w) && usable_text (sd_identity w)) then Failed
      else match sd_operation w, sd_proof w with
      | Some operation, Some proof =>
          if decide ((String.length operation < 8 \/ 128 < String.length operation)%nat \/ len proof = 0 \/ max_token < len proof) then Failed
          else match sd_response w with
          | None => Failed
          | Some (status, read) => if decide (maxResponse < read \/ status < 200 \/ 300 <= status) then Rejected status else Delivered
          end
      | _, _ => Failed
      end
  end.

(** ** The credential of the sender ([credential_source.go]) *)

Record CredentialSource := mkSource { cs_refreshBefore : Z; cs_token : string; cs_expiresAt : time }.

(** [tk_now] and [tk_later]: the clock before the exchange and after it; the answer is its
    status, its length and what its text holds, if it is such a document. *)
Record token_world := mkTokenWorld {
  tk_now : time;
  tk_identity : option string;
  tk_operation : option string;
  tk_proof : option (list byte);
  tk_response : option (Z * Z * option (string * time));
  tk_later : time
}.

Definition Token (w : token_world) (s : CredentialSource) : CredentialSource * option string :=
  if decide (cs_token s <> "" /\ tk_now w + cs_refreshBefore s < cs_expiresAt s) then (s, Some (cs_token s))
  else if negb (usable_text (tk_identity w)) then (s, None)
  else match tk_operation w, tk_proof w with
  | Some _, Some proof =>
      if decide (len proof = 0 \/ max_token < len proof) then (s, None)
      else match tk_response w with
      | None => (s, None)
      | Some (status, size, document) =>
          if decide (Z.shiftl 64 10 < size \/ status < 200 \/ 300 <= status) then (s, None)
          else match document with
          | None => (s, None)
          | Some (credential, expiresAt) =>
              if decide (usable_text (Some credential) = true /\ tk_later w + cs_refreshBefore s < expiresAt)
              then (mkSource (cs_refreshBefore s) credential expiresAt, Some credential)
              else (s, None)
          end
      end
  | _, _ => (s, None)
  end.

(** ** The client of the control plane ([control_client.go]) *)

Record ControlRecord := mkControlRecord {
  ct_ID : string; ct_EnvironmentID : string; ct_LogicalName : string; ct_PreviewKey : string; ct_URL : string;
  ct_TargetPort : Z; ct_State : string; ct_ExpiresAt : option time
}.

Inductive control_payload :=
| PList
| PRegister (logicalName : string) (target : Target) (acknowledged : bool) (duration_seconds : option Z) (indefinite : bool)
| PRemove (logicalName : string).

(** [lifetime] is a duration; only whole seconds are sent. *)
Definition register_payload (logical : string) (target : Target) (ack : bool) (lifetime : Z) (indefinite : bool) : control_payload :=
  PRegister logical target ack (if decide (0 < lifetime) then Some (Z.quot lifetime second) else None) indefinite.

(** The answer to a call: its status, its length, and the records that its text holds: one,
    or, for a list, any number. *)
Definition call_answer (environmentID : string) (response : option (Z * Z * option (list ControlRecord))) : option (list ControlRecord) :=
  match response with
  | None => None
  | Some (status, size, document) =>
      if decide (Z.shiftl 1 20 < size \/ status < 200 \/ 300 <= status) then None
      else match document with
      | None => None
      | Some values =>
          if forallb (fun v => bool_decide (ct_EnvironmentID v = environmentID /\ ct_PreviewKey v <> "" /\ ct_URL v <> "")) values
          then Some values else None
      end
  end.

Definition callOne (environmentID : string) (response : option (Z * Z * option (list ControlRecord))) : option ControlRecord :=
  match call_answer environmentID response with Some [v] => Some v | _ => None end.

(** What the dispatcher and the agent's endpoint rely on. *)
Record PreviewControl := mkPreviewControl {
  ctl_List : option (list ControlRecord);
  ctl_Register : string -> Target -> bool -> Z -> bool -> option ControlRecord;
  ctl_Remove : string -> option ControlRecord
}.

(** ** The agent's endpoint ([agent_handler.go]) *)

Record agentRequest := mkAgentRequest {
  ag_Action : string; ag_LogicalName : string; ag_TargetPort : Z; ag_PublicAcknowledgement : bool; ag_DurationSeconds : Z; ag_Indefinite : bool
}.

Record AgentHandler := mkAgentHandler { ah_Token : string; ah_EnvironmentID : string }.

Definition NewAgentHandler (token environmentID : string) : option AgentHandler :=
  if decide ((String.length token < 32)%nat \/ environmentID = "") then None else Some (mkAgentHandler token environmentID).

Inductive agent_error := AgentControl | AgentRegistry (e : preview_error).

Definition bearer : string := "Bearer ".

(** [values]: the Authorization headers of the request. *)
Definition authorized (h : AgentHandler) (values : list string) : bool :=
  match values with
  | [value] => String.prefix bearer value && bool_decide (String.substring 7 (String.length value - 7) value = ah_Token h)
  | _ => false
  end.

(** Local previews that the control plane no longer has are removed. *)
Fixpoint remove_missing (now : time) (keys : list string) (l : list PreviewRecord) (r : Registry) : Registry * result preview_error bool :=
  match l with
  | [] => (r, Ok false)
  | local :: rest =>
      if decide (pr_Identity local ∈ keys) then remove_missing now keys rest r
      else match Remove now (pr_Identity local) r with
           | (r1, Err e) => if decide (e = ErrNotFound)
                            then let '(r2, out) := remove_missing now keys rest r1 in (r2, let? _ := out in Ok true)
                            else (r1, Err e)
           | (r1, Ok _) => let '(r2, out) := remove_missing now keys rest r1 in (r2, let? _ := out in Ok true)
           end
  end.

(** Those it has are registered; conflicts are passed over. *)
Fixpoint register_remote (now : time) (environmentID : string) (l : list ControlRecord) (r : Registry) : Registry * result preview_error unit :=
  match l with
  | [] => (r, Ok tt)
  | record :: rest =>
      match RegisterCanonical now (ct_PreviewKey record) (ct_URL record) environmentID (ct_LogicalName record)
              (mkTarget "127.0.0.1" (ct_TargetPort record)) r with
      | (r1, Err e) => if decide (e = ErrIdentityConflict) then register_remote now environmentID rest r1 else (r1, Err e)
      | (r1, Ok _) => register_remote now environmentID rest r1
      end
  end.

Definition remote_valid (environmentID : string) (record : ControlRecord) : bool :=
  bool_decide (ct_EnvironmentID record = environmentID /\ 1 <= ct_TargetPort record <= 65535).

(** The last part is how often [RoutesChanged] is called. *)
Definition agent_list (h : AgentHandler) (control : PreviewControl) (now : time) (r : Registry)
    : Registry * result agent_error (list ControlRecord) * nat :=
  match ctl_List control with
  | None => (r, Err AgentControl, 0%nat)
  | Some remote =>
      if negb (forallb (remote_valid (ah_EnvironmentID h)) remote) then (r, Err AgentControl, 0%nat)
      else match remove_missing now (ct_PreviewKey <$> remote) (ListEnvironment (ah_EnvironmentID h) r) r with
      | (r1, Err e) => (r1, Err (AgentRegistry e), 0%nat)
      | (r1, Ok changed) =>
          match register_remote now (ah_EnvironmentID h) remote r1 with
          | (r2, Err e) => (r2, Err (AgentRegistry e), 0%nat)
          | (r2, Ok _) => (r2, Ok remote, if changed then 1%nat else 0%nat)
          end
      end
  end.

(** The length of time that is asked for, as a [time.Duration]. *)
Definition lifetime (seconds : Z) : Z := wrap_i64 (seconds * second).

Definition agent_create (h : AgentHandler) (control : PreviewControl) (now : time) (operation : agentRequest) (r : Registry)
    : Registry * result agent_error ControlRecord * nat :=
  match ctl_Register control (ag_LogicalName operation) (mkTarget "127.0.0.1" (ag_TargetPort operation)) true
          (lifetime (ag_DurationSeconds operation)) (ag_Indefinite operation) with
  | None => (r, Err AgentControl, 0%nat)
  | Some remote =>
      if decide (ct_EnvironmentID remote <> ah_EnvironmentID h) then (r, Err AgentControl, 0%nat)
      else match agent_list h control now r with
      | (r1, Err e, n) => (r1, Err e, n)
      | (r1, Ok reconciled, n) =>
          (r1, Ok (default remote (head (filter (fun record => ct_PreviewKey record = ct_PreviewKey remote) reconciled))), S n)
      end
  end.

Definition agent_remove (h : AgentHandler) (control : PreviewControl) (now : time) (logicalName : string) (r : Registry)
    : Registry * result agent_error ControlRecord * nat :=
  match ctl_Remove control logicalName with
  | None => (r, Err AgentControl, 0%nat)
  | Some remote =>
      if decide (ct_EnvironmentID remote <> ah_EnvironmentID h) then (r, Err AgentControl, 0%nat)
      else match Remove now (ct_PreviewKey remote) r with
      | (r1, Err e) => if decide (e = ErrNotFound) then (r1, Ok remote, 1%nat) else (r1, Err (AgentRegistry e), 0%nat)
      | (r1, Ok _) => (r1, Ok remote, 1%nat)
      end
  end.

Inductive agent_answer := AError (status : Z) (code : string) | AList (l : list ControlRecord) | ARecord (c : ControlRecord).

Definition agent_result {A} (f : A -> agent_answer) (r : result agent_error A) : agent_answer :=
  match r with Ok a => f a | Err _ => AError 502 "preview_control_unavailable" end.

(** [body]: what the text of the request holds, if it is such a document of at most 8 KiB. *)
Definition agent_ServeHTTP (h : AgentHandler) (control : PreviewControl) (now : time) (headers : list string) (method query : string)
    (body : option agentRequest) (r : Registry) : Registry * agent_answer * nat :=
  if negb (authorized h headers) then (r, AError 404 "not_found", 0%nat)
  else if decide (method <> "POST" \/ query <> "") then (r, AError 405 "method_not_allowed", 0%nat)
  else match body with
  | None => (r, AError 400 "invalid_request", 0%nat)
  | Some operation =>
      if decide (ag_Action operation = "list") then
        if decide (ag_LogicalName operation <> "" \/ ag_TargetPort operation <> 0 \/ ag_PublicAcknowledgement operation = true)
        then (r, AError 400 "invalid_request", 0%nat)
        else let '(r1, out, n) := agent_list h control now r in (r1, agent_result AList out, n)
      else if decide (ag_Action operation = "create") then
        if decide (ag_TargetPort operation = 0 \/ ag_PublicAcknowledgement operation = false \/ ag_DurationSeconds operation < 0
                   \/ ag_Indefinite operation = true /\ ag_DurationSeconds operation <> 0)
        then (r, AError 400 "public_acknowledgement_required", 0%nat)
        else let '(r1, out, n) := agent_create h control now operation r in (r1, agent_result ARecord out, n)
      else if decide (ag_Action operation = "remove") then
        if decide (ag_LogicalName operation = "" \/ ag_TargetPort operation <> 0 \/ ag_PublicAcknowledgement operation = true)
        then (r, AError 400 "invalid_request", 0%nat)
        else let '(r1, out, n) := agent_remove h control now (ag_LogicalName operation) r in (r1, agent_result ARecord out, n)
      else (r, AError 400 "invalid_request", 0%nat)
  end.

(** ** Preview requests of the dispatcher ([dispatcher.go]) *)

Record previewRequest := mkPreviewRequest {
  pq_Action : string; pq_LogicalName : string; pq_TargetHost : string; pq_TargetPort : Z; pq_PublicAcknowledgement : bool;
  pq_Access : string; pq_Identity : string
}.

Inductive preview_reply := PvRecord (r : PreviewRecord) | PvRecords (l : list PreviewRecord) | PvControl (l : list ControlRecord) | PvFailure (code : string).

(** The codes of the errors of the registry; [other]: of the context's. *)
Definition preview_failure (other : string) (e : preview_error) : preview_reply :=
  PvFailure match e with
  | ErrNotFound => "not_found_or_forbidden"
  | ErrResourceLimit => "resource_limit"
  | ErrInvalidTarget => "invalid_preview_target"
  | ECanceled => other
  | ErrIdentityConflict | ErrInvalidTransition => "invalid_request"
  end.

Definition preview_result (other : string) (out : Registry * result preview_error PreviewRecord) : Registry * preview_reply :=
  (out.1, match out.2 with Ok v => PvRecord v | Err e => preview_failure other e end).

(** [control]: the client of the control plane, if there is one; [ended] and [dial] are those of
    [Probe]; [other]: the code of an error from outside. *)
Definition preview (control : option PreviewControl) (now : time) (ended : bool) (dial : Target -> bool) (other : string)
    (a : Authorization) (payload : option previewRequest) (r : Registry) : Registry * preview_reply :=
  if decide (au_EnvironmentID a = "") then (r, PvFailure "capability_required")
  else match payload with
  | None => (r, PvFailure "unsupported_preview_policy")
  | Some request =>
      let identity := au_ResourceID a in
      if decide (pq_Access request <> "") then (r, PvFailure "unsupported_preview_policy")
      else if decide (pq_Identity request <> "" /\ (is_Some control \/ pq_Identity request <> identity)) then (r, PvFailure "not_found_or_forbidden")
      else if decide (pq_Action request = "list") then
        match control with
        | Some c => (r, match ctl_List c with Some l => PvControl l | None => PvFailure other end)
        | None => (r, PvRecords (ListEnvironment (au_EnvironmentID a) r))
        end
      else if decide (pq_Action request = "register") then
        let target := mkTarget (pq_TargetHost request) (pq_TargetPort request) in
        match control with
        | Some c =>
            match ctl_Register c (pq_LogicalName request) target (pq_PublicAcknowledgement request) 0 false with
            | None => (r, PvFailure "preview_control_unavailable")
            | Some remote => preview_result other (RegisterCanonical now (ct_PreviewKey remote) (ct_URL remote) (au_EnvironmentID a) (ct_LogicalName remote) target r)
            end
        | None => preview_result other (Register now identity (au_EnvironmentID a) (pq_LogicalName request) target (pq_PublicAcknowledgement request) r)
        end
      else if decide (pq_Action request = "get") then
        if decide (identity = "") then (r, PvFailure "not_found_or_forbidden") else preview_result other (r, Get identity r)
      else if decide (pq_Action request = "probe") then
        if decide (identity = "") then (r, PvFailure "not_found_or_forbidden") else preview_result other (Probe now ended dial identity r)
      else if decide (pq_Action request = "remove") then
        match control with
        | Some c => match ctl_Remove c (pq_LogicalName request) with
                    | None => (r, PvFailure "preview_control_unavailable")
                    | Some remote => preview_result other (Remove now (ct_PreviewKey remote) r)
                    end
        | None => if decide (identity = "") then (r, PvFailure "not_found_or_forbidden") else preview_result other (Remove now identity r)
        end
      else (r, PvFailure "invalid_request")
  end.
