(* ===== verification/PreviewTheorems.v ===== *)
(** * What is public, and what is reported

    The registry under any interleaving of its operations and of probes that take their
    time; the proxy that reads it; the reports made of it; its reconciliation with the
    control plane. *)

From S2P Require Import Prelude Config Auth Credential Preview PreviewControl.

(** ** The registry at work *)

(** A probe in flight has its record; [dials] keeps what the dials came to: the identity, the
    target, the revision the probe began at, and whether the target answered. *)
Record preview_world := mkPreviewWorld {
  pw_registry : Registry;
  pw_probes : gmap nat (string * PreviewRecord);
  pw_dials : list (string * Target * Z * bool)
}.

Inductive preview_step : preview_world -> preview_world -> Prop :=
| VRegister w now identity environmentID logicalName target ack :
    preview_step w (mkPreviewWorld (Register now identity environmentID logicalName target ack (pw_registry w)).1 (pw_probes w) (pw_dials w))
| VSetURL w identity url :
    is_Some (rg_records (pw_registry w) !! identity) ->
    preview_step w (mkPreviewWorld (set_url identity url (pw_registry w)).1 (pw_probes w) (pw_dials w))
| VMove w now identity next reason :
    next = Offline \/ next = Expired \/ next = Removed ->
    preview_step w (mkPreviewWorld (transition now identity next reason (pw_registry w)).1 (pw_probes w) (pw_dials w))
| VProbe w k identity record r :
    pw_probes w !! k = None -> probe_begin identity (pw_registry w) = (r, Ok record) ->
    preview_step w (mkPreviewWorld r (<[k := (identity, record)]> (pw_probes w)) (pw_dials w))
| VProbed w k identity record now ended dialed :
    pw_probes w !! k = Some (identity, record) ->
    preview_step w (mkPreviewWorld (probe_end now ended dialed identity record (pw_registry w)).1 (delete k (pw_probes w))
                      ((identity, pr_Target record, pr_Revision record, dialed) :: pw_dials w)).

Definition start_previews (r : Registry) : preview_world := mkPreviewWorld r ∅ [].

(** *** Counting *)

Lemma active_count_insert records i new :
  active_count (<[i := new]> records) = active_count (delete i records) + (if is_active new then 1 else 0).
Proof.
  unfold active_count. rewrite <- insert_delete_eq.
  pose proof (map_to_list_insert (delete i records) i new (lookup_delete_eq _ _)) as HP.
  rewrite (Permutation_length (filter_Permutation (fun p => is_active p.2 = true) _ _ HP)), filter_cons. simpl.
  case_decide as H; simpl in *; destruct (is_active new); try done; lia.
Qed.

Lemma active_count_old records i old : records !! i = Some old ->
  active_count records = active_count (delete i records) + (if is_active old then 1 else 0).
Proof. intros H. rewrite <- active_count_insert. by rewrite insert_id. Qed.

Lemma active_count_update records i old new : records !! i = Some old -> (is_active new = true -> is_active old = true) ->
  active_count (<[i := new]> records) <= active_count records.
Proof. intros H Ha. rewrite active_count_insert, (active_count_old _ _ _ H). destruct (is_active new), (is_active old); lia. Qed.

Lemma active_count_new records i new : records !! i = None -> active_count (<[i := new]> records) <= active_count records + 1.
Proof. intros H. rewrite active_count_insert, delete_id by done. destruct (is_active new); lia. Qed.

(** *** The invariant *)

Definition key_of (r : PreviewRecord) : string := logical_key (pr_EnvironmentID r) (pr_LogicalName r).

Record record_ok (n : Z) (w : preview_world) (i : string) (r : PreviewRecord) : Prop := {
  ro_identity : pr_Identity r = i;
  ro_valid : validID i = true /\ validID (pr_EnvironmentID r) = true /\ validName (pr_LogicalName r) = true /\ validTarget (pr_Target r) = true;
  ro_revision : 1 <= pr_Revision r <= n + 1;
  ro_logical : rg_logical (pw_registry w) !! key_of r = Some i;
  ro_ready : pr_State r = Ready -> (i, pr_Target r, pr_Revision r - 1, true) ∈ pw_dials w
}.

Record previews_ok (n : Z) (w : preview_world) : Prop := {
  po_records : forall i r, rg_records (pw_registry w) !! i = Some r -> record_ok n w i r;
  po_logical : forall k i, rg_logical (pw_registry w) !! k = Some i -> exists r, rg_records (pw_registry w) !! i = Some r /\ key_of r = k;
  po_active : active_count (rg_records (pw_registry w)) <= rg_MaxTargets (pw_registry w);
  po_slots : rg_slots (pw_registry w) = Z.of_nat (size (pw_probes w)) /\ rg_slots (pw_registry w) <= rg_MaxConcurrentProbes (pw_registry w);
  po_probes : forall k i r, pw_probes w !! k = Some (i, r) -> exists cur, rg_records (pw_registry w) !! i = Some cur /\
    pr_Revision r <= pr_Revision cur /\ (pr_Revision r = pr_Revision cur -> pr_Target r = pr_Target cur)
}.

Lemma previews_ok_mono n m w : n <= m -> previews_ok n w -> previews_ok m w.
Proof. intros H [Hr Hl Ha Hs Hp]. split; try done. intros i r Hi. destruct (Hr i r Hi). split; try done. lia. Qed.

(** A record is replaced by its successor. *)
Lemma replace_record_ok n w i cur new dials :
  previews_ok n w -> rg_records (pw_registry w) !! i = Some cur ->
  pr_Identity new = pr_Identity cur -> pr_EnvironmentID new = pr_EnvironmentID cur -> pr_LogicalName new = pr_LogicalName cur ->
  (pr_Revision new = pr_Revision cur + 1 \/ pr_Revision new = pr_Revision cur /\ pr_Target new = pr_Target cur) ->
  validTarget (pr_Target new) = true -> (is_active new = true -> is_active cur = true) -> (forall d, d ∈ pw_dials w -> d ∈ dials) ->
  (pr_State new = Ready -> (i, pr_Target new, pr_Revision new - 1, true) ∈ dials) ->
  previews_ok (n + 1) (mkPreviewWorld (put_records (pw_registry w) (<[i := new]> (rg_records (pw_registry w)))) (pw_probes w) dials).
Proof.
  intros [Hr Hl Ha Hs Hp] Hcur Hid Henv Hname Hrev Hval Hact Hd Hready.
  assert (Hkey : key_of new = key_of cur) by (unfold key_of; congruence).
  split; simpl; [| |by etrans; [eapply active_count_update|]|done|].
  - intros j r Hj. destruct (decide (j = i)) as [->|Hne].
    + rewrite lookup_insert_eq in Hj. injection Hj as <-. destruct (Hr i cur Hcur) as [H1 (H2&H3&H4&_) H5 H6 _].
      split; simpl; [congruence|by rewrite Henv, Hname|lia|by rewrite Hkey|done].
    + rewrite lookup_insert_ne in Hj by done. destruct (Hr j r Hj). split; simpl; [done|done|lia|done|auto].
  - intros k j Hk. destruct (Hl k j Hk) as (r&Hj&Hrk). destruct (decide (j = i)) as [->|Hne].
    + exists new. rewrite lookup_insert_eq. split; [done|]. congruence.
    + exists r. by rewrite lookup_insert_ne.
  - intros k j r Hk. destruct (Hp k j r Hk) as (c&Hj&Hle&Heq). destruct (decide (j = i)) as [->|Hne].
    + exists new. rewrite lookup_insert_eq. rewrite Hcur in Hj. injection Hj as <-. split; [done|]. split; [lia|]. intros E.
      destruct Hrev as [?|[? ->]]; [lia|]. apply Heq. lia.
    + exists c. by rewrite lookup_insert_ne.
Qed.

(** A probe begins, and a probe is over. *)
Lemma begin_ok n w k i record r :
  previews_ok n w -> pw_probes w !! k = None -> probe_begin i (pw_registry w) = (r, Ok record) ->
  previews_ok n (mkPreviewWorld r (<[k := (i, record)]> (pw_probes w)) (pw_dials w)).
Proof.
  intros [Hr Hl Ha Hs Hp] Hk E. unfold probe_begin, Get in E. case_decide; [done|]. destruct (rg_records _ !! i) as [cur|] eqn:Hi; [|done].
  case_decide; [done|]. case_decide; [done|]. injection E as <- <-. split; simpl; try done.
  - intros j x Hj. by destruct (Hr j x Hj).
  - rewrite map_size_insert_None by done. lia.
  - intros k' j x Hk'. destruct (decide (k' = k)) as [->|Hne].
    + rewrite lookup_insert_eq in Hk'. injection Hk' as <- <-. by exists cur.
    + rewrite lookup_insert_ne in Hk' by done. by apply (Hp k').
Qed.

Lemma finish_ok n w k p d :
  previews_ok n w -> pw_probes w !! k = Some p ->
  previews_ok n (mkPreviewWorld (put_slots (pw_registry w) (rg_slots (pw_registry w) - 1)) (delete k (pw_probes w)) (d :: pw_dials w)).
Proof.
  intros [Hr Hl Ha Hs Hp] Hk. split; simpl; try done.
  - intros j x Hj. destruct (Hr j x Hj). split; simpl; try done. intros. right. auto.
  - rewrite map_size_delete_Some by eauto. pose proof (map_size_ne_0_lookup_2 (pw_probes w) k ltac:(eauto)). lia.
  - intros k' j x Hk'. apply lookup_delete_Some in Hk' as [_ Hk']. by apply (Hp k').
Qed.

Lemma removed_inactive r : is_active r = true <-> pr_State r <> Removed.
Proof. unfold is_active. rewrite negb_true_iff, bool_decide_eq_false. done. Qed.

Lemma revision_next n w i r : previews_ok n w -> rg_records (pw_registry w) !! i = Some r -> n + 2 < two64 -> u64_add (pr_Revision r) 1 = pr_Revision r + 1.
Proof. intros Hok Hi Hn. destruct (po_records _ _ Hok _ _ Hi). apply u64_add_small; lia. Qed.

Lemma register_ok n w now i env name t ack :
  previews_ok n w -> 0 <= n -> n + 2 < two64 ->
  previews_ok (n + 1) (mkPreviewWorld (Register now i env name t ack (pw_registry w)).1 (pw_probes w) (pw_dials w)).
Proof.
  intros Hok H0 Hn. assert (Hsame : previews_ok (n + 1) w) by (apply (previews_ok_mono n); [lia|done]).
  assert (Hw : previews_ok (n + 1) (mkPreviewWorld (pw_registry w) (pw_probes w) (pw_dials w))) by by destruct w. clear Hsame.
  unfold Register. destruct (validID i && _ && _ && _ && ack) eqn:Hv; [|done]. simpl. repeat (apply andb_true_iff in Hv as [Hv ?]).
  destruct (taken _ i) eqn:Ht; [done|]. destruct (rg_records (pw_registry w) !! i) as [cur|] eqn:Hi.
  - case_decide as Hc; [done|]. case_decide as Hc2; [done|].
    pose proof (revision_next _ _ _ _ Hok Hi Hn) as Hrev.
    apply (replace_record_ok n w i cur (register_again now cur t) (pw_dials w)); simpl; try done; [by left|..].
    + intros _. apply removed_inactive. tauto.
    + case_bool_decide as Hb; [done|]. case_bool_decide as Ht2; [|done]. intros _. exfalso. tauto.
  - case_decide as Hmax; [done|]. destruct Hok as [Hr Hl Ha Hs Hp]. split; simpl; [| | |done|].
    + intros j x Hj. destruct (decide (j = i)) as [->|Hne].
      * rewrite lookup_insert_eq in Hj. injection Hj as <-. split; simpl; try done; [lia|by rewrite lookup_insert_eq].
      * rewrite lookup_insert_ne in Hj by done. destruct (Hr j x Hj) as [A1 A2 A3 A4 A5]. split; simpl; try done; [lia|].
        rewrite lookup_insert_ne; [done|]. intros E. unfold taken in Ht. rewrite E, A4 in Ht. case_bool_decide; done.
    + intros k j Hk. destruct (decide (k = logical_key env name)) as [->|Hne].
      * rewrite lookup_insert_eq in Hk. injection Hk as <-. eexists. by rewrite lookup_insert_eq.
      * rewrite lookup_insert_ne in Hk by done. destruct (Hl k j Hk) as (x&Hj&Hx). exists x. rewrite lookup_insert_ne; [done|]. congruence.
    + pose proof (active_count_new _ _ (mkPreview i env name t Registering "" now 1 "") Hi). lia.
    + intros k j x Hk. destruct (Hp k j x Hk) as (c&Hj&Hc). exists c. rewrite lookup_insert_ne; [done|]. congruence.
Qed.

Lemma preview_step_ok n w w' : previews_ok n w -> 0 <= n -> n + 2 < two64 -> preview_step w w' -> previews_ok (n + 1) w'.
Proof.
  intros Hok H0 Hn Hstep.
  destruct Hstep as [w now i env name t ack|w i url [cur Hcur]|w now i next reason Hne|w k i record r Hk E|w k i record now ended dialed Hk].
  - by apply register_ok.
  - unfold set_url. rewrite Hcur. simpl. pose proof (po_records _ _ Hok _ _ Hcur) as [H1 H2 H3 H4 H5].
    eapply replace_record_ok; try done; [by right|tauto].
  - unfold transition, Get. assert (Hsame : previews_ok (n + 1) w) by (apply (previews_ok_mono n); [lia|done]).
    destruct (rg_records _ !! i) as [cur|] eqn:Hcur; [|by destruct w]. case_decide as Hrem; [by destruct w|]. destruct (transitions _ _); [|by destruct w].
    pose proof (po_records _ _ Hok _ _ Hcur) as [H1 H2 H3 H4 H5]. pose proof (revision_next _ _ _ _ Hok Hcur Hn) as Hrev.
    apply (replace_record_ok n w i cur (moved now next reason cur) (pw_dials w)); simpl; try done; [by left|tauto| |naive_solver]. intros _. by apply removed_inactive.
  - apply (previews_ok_mono n); [lia|]. by apply begin_ok.
  - pose proof (finish_ok n w k _ (i, pr_Target record, pr_Revision record, dialed) Hok Hk) as Hfin.
    destruct (po_probes _ _ Hok _ _ _ Hk) as (c&Hc&_&Htarget).
    set (w1 := mkPreviewWorld _ _ _) in Hfin. assert (Hsame : previews_ok (n + 1) w1) by (apply (previews_ok_mono n); [lia|done]).
    unfold probe_end. destruct ended; [done|]. unfold Get. cbn [put_slots rg_records]. rewrite Hc. case_decide as Hrem; [done|].
    case_decide as Hrev; [done|]. case_decide as Htr; [done|].
    pose proof (revision_next _ _ _ _ Hfin Hc Hn) as Hnext. pose proof (po_records _ _ Hfin _ _ Hc) as [H1 H2 H3 H4 H5].
    apply (replace_record_ok n w1 i c (probed now dialed c) (pw_dials w1)); try done; unfold probed; destruct dialed; try case_decide; simpl; try done; try tauto; try (by left).
    all: intros _; try by apply removed_inactive.
    replace (i, pr_Target c, _, true) with (i, pr_Target record, pr_Revision record, true); [by left|].
    rewrite Htarget by done. do 2 f_equal. lia.
Qed.

Lemma previews_ok_start prober timeout maxTargets maxProbes r : New prober timeout maxTargets maxProbes = Ok r -> previews_ok 0 (start_previews r).
Proof.
  unfold New. cbv zeta. set (targets := if decide (maxTargets = 0) then _ else maxTargets). set (probes := if decide (maxProbes = 0) then _ else maxProbes).
  case_decide as Hd; [done|]. intros [= <-]. split; simpl; try done; [change (active_count ∅) with 0|split; [by rewrite map_size_empty|]];
    destruct (decide (targets < 1)), (decide (probes < 1)); lia || tauto.
Qed.

Lemma previews_ok_reachable r n w : previews_ok 0 (start_previews r) -> nsteps preview_step n (start_previews r) w -> Z.of_nat n + 1 < two64 -> previews_ok (Z.of_nat n) w.
Proof.
  intros Hstart Hn. revert w Hn. induction n as [|n IH]; intros w Hn Hlt.
  - by inversion Hn; subst.
  - apply nsteps_inv_r in Hn as (w1&H1&H2). replace (Z.of_nat (S n)) with (Z.of_nat n + 1) by lia.
    apply (preview_step_ok _ w1); [apply IH; [done|lia]|lia|lia|done].
Qed.

(** *** Identities are for good *)

Definition continues (r r' : PreviewRecord) : Prop :=
  pr_EnvironmentID r' = pr_EnvironmentID r /\ pr_LogicalName r' = pr_LogicalName r /\ (pr_State r = Removed -> pr_State r' = Removed /\ pr_Target r' = pr_Target r).

Definition carried (r r' : Registry) : Prop :=
  (forall i x, rg_records r !! i = Some x -> exists y, rg_records r' !! i = Some y /\ continues x y) /\
  (forall k i, rg_logical r !! k = Some i -> rg_logical r' !! k = Some i).

#[global] Instance carried_preorder : PreOrder carried.
Proof.
  split.
  - intros r. split; [|done]. intros i x Hi. exists x. by split.
  - intros r1 r2 r3 [A1 A2] [B1 B2]. split; [|by auto]. intros i x Hi. destruct (A1 i x Hi) as (y&Hy&E1&E2&E3). destruct (B1 i y Hy) as (z&Hz&F1&F2&F3).
    exists z. split; [done|]. split; [congruence|]. split; [congruence|]. intros H. destruct (E3 H) as [H1 H2], (F3 (proj1 (E3 H))) as [H3 H4].
    split; [done|congruence].
Qed.

(** A record is replaced by one that continues it. *)
Lemma carried_put r i cur new : rg_records r !! i = Some cur -> continues cur new -> carried r (put_records r (<[i := new]> (rg_records r))).
Proof.
  intros Hi Hc. split; [|done]. intros j x Hj. simpl. destruct (decide (j = i)) as [->|Hne].
  - rewrite lookup_insert_eq. exists new. split; [done|]. congruence.
  - rewrite lookup_insert_ne by done. exists x. by repeat split.
Qed.

Lemma Register_carried now i env name t ack r : carried r (Register now i env name t ack r).1.
Proof.
  unfold Register. destruct (negb _); [done|]. destruct (taken _ i) eqn:Ht; [done|]. destruct (rg_records r !! i) as [cur|] eqn:Hi.
  - case_decide as Hc; [done|]. case_decide; [done|]. apply (carried_put _ _ cur); [done|]. split; [done|]. split; [done|]. tauto.
  - case_decide; [done|]. split; simpl.
    + intros j x Hj. exists x. rewrite lookup_insert_ne by congruence. by repeat split.
    + intros k j Hk. destruct (decide (k = logical_key env name)) as [->|Hne]; [|by rewrite lookup_insert_ne].
      unfold taken in Ht. rewrite Hk in Ht. rewrite lookup_insert_eq. case_bool_decide; [by subst|done].
Qed.

Lemma set_url_carried i url r : is_Some (rg_records r !! i) -> carried r (set_url i url r).1.
Proof. intros [cur Hi]. unfold set_url. rewrite Hi. by apply (carried_put _ _ cur). Qed.

Lemma transition_carried now i next reason r : carried r (transition now i next reason r).1.
Proof.
  unfold transition, Get. destruct (rg_records r !! i) as [cur|] eqn:Hi; [|done]. case_decide; [done|]. destruct (transitions _ _); [|done].
  by apply (carried_put _ _ cur).
Qed.

Lemma probe_end_carried now ended dialed i record r : carried r (probe_end now ended dialed i record r).1.
Proof.
  unfold probe_end. cbn zeta. assert (Hs : carried r (put_slots r (rg_slots r - 1))) by (split; [|done]; intros j x Hj; exists x; by repeat split).
  destruct ended; [done|]. unfold Get. simpl. destruct (rg_records r !! i) as [cur|] eqn:Hi; [|done]. case_decide; [done|]. case_decide; [done|].
  case_decide; [done|]. etrans; [exact Hs|]. apply (carried_put (put_slots r (rg_slots r - 1)) i cur); [done|]. unfold continues, probed. destruct dialed; [done|]. by case_decide.
Qed.

Lemma step_carried w w' : preview_step w w' -> carried (pw_registry w) (pw_registry w').
Proof.
  intros []; simpl; [apply Register_carried|by apply set_url_carried|apply transition_carried| |apply probe_end_carried].
  unfold probe_begin in H0. case_decide; [done|]. destruct (Get _ _); [|done]. case_decide; [done|]. injection H0 as <- _.
  split; [|done]. intros j x Hj. exists x. by repeat split.
Qed.

Lemma rtc_carried w w' : rtc preview_step w w' -> carried (pw_registry w) (pw_registry w').
Proof. induction 1; [done|]. etrans; [by apply step_carried|done]. Qed.

(** ** The properties *)

(** C18.  A public request is forwarded only to a port of the loopback interface that has
    answered: whatever registrations, changes of target, removals and probes overlap, the
    proxy forwards a request only for a preview that is registered and ready, to its
    present target, and the change that made it ready was a probe of this very target that
    began at the revision just before and was answered. *)
Theorem preview_forward_probed prober timeout maxTargets maxProbes r n w retryAfter path header target :
  New prober timeout maxTargets maxProbes = Ok r -> nsteps preview_step n (start_previews r) w -> Z.of_nat n + 1 < two64 ->
  ServeHTTP retryAfter path header (pw_registry w) = Forward target ->
  exists record, rg_records (pw_registry w) !! (if decide (path = "") then header else path) = Some record /\
    pr_State record = Ready /\ pr_Target record = target /\
    (tg_Host target = "127.0.0.1" \/ tg_Host target = "::1") /\ 0 < tg_Port target /\
    (pr_Identity record, target, pr_Revision record - 1, true) ∈ pw_dials w.
Proof.
  intros Hnew Hn Hlt E. pose proof (previews_ok_reachable _ _ _ (previews_ok_start _ _ _ _ _ Hnew) Hn Hlt) as Hok.
  unfold ServeHTTP, Get in E. destruct (rg_records _ !! _) as [record|] eqn:Hi; [|done]. case_decide; [done|].
  destruct (pr_State record) eqn:Hst; try done. injection E as <-. exists record.
  destruct (po_records _ _ Hok _ _ Hi) as [H1 (H2&H3&H4&H5) H6 H7 H8]. apply bool_decide_eq_true in H5 as [H5 H9].
  split_and!; try done. rewrite H1. auto.
Qed.

(** The registry keeps its previews apart and within limits: no two previews have the
    same name in the same environment; at most [MaxTargets] are not removed and at most
    [MaxConcurrentProbes] probes run; and an identity is for good: as long as the helper
    runs it keeps its environment and its name, and once removed it stays removed. *)
Theorem preview_registry_consistent prober timeout maxTargets maxProbes r n w w' :
  New prober timeout maxTargets maxProbes = Ok r -> nsteps preview_step n (start_previews r) w -> Z.of_nat n + 1 < two64 -> rtc preview_step w w' ->
  (forall i j x y, rg_records (pw_registry w) !! i = Some x -> rg_records (pw_registry w) !! j = Some y ->
     pr_EnvironmentID x = pr_EnvironmentID y -> pr_LogicalName x = pr_LogicalName y -> i = j) /\
  ResourceCounts (pw_registry w) <= rg_MaxTargets (pw_registry w) /\
  Z.of_nat (size (pw_probes w)) <= rg_MaxConcurrentProbes (pw_registry w) /\
  (forall i x, rg_records (pw_registry w) !! i = Some x -> exists y, rg_records (pw_registry w') !! i = Some y /\
     pr_EnvironmentID y = pr_EnvironmentID x /\ pr_LogicalName y = pr_LogicalName x /\ (pr_State x = Removed -> pr_State y = Removed)).
Proof.
  intros Hnew Hn Hlt Hlater. pose proof (previews_ok_reachable _ _ _ (previews_ok_start _ _ _ _ _ Hnew) Hn Hlt) as Hok. split_and!.
  - intros i j x y Hi Hj He Hl. destruct (po_records _ _ Hok _ _ Hi) as [_ _ _ H1 _], (po_records _ _ Hok _ _ Hj) as [_ _ _ H2 _].
    unfold key_of in *. congruence.
  - apply (po_active _ _ Hok).
  - destruct (po_slots _ _ Hok) as [<- ?]. done.
  - intros i x Hi. destruct (proj1 (rtc_carried _ _ Hlater) i x Hi) as (y&Hy&H1&H2&H3). exists y. split_and!; try done. naive_solver.
Qed.

(** ** Reconciliation with the control plane *)

(** The preview of the control plane is served here, or its name or its identity has been
    spent on another one. *)
Definition served_as (environmentID : string) (r : Registry) (c : ControlRecord) : Prop :=
  exists x, rg_records r !! ct_PreviewKey c = Some x /\ is_active x = true /\ pr_EnvironmentID x = environmentID /\
    pr_LogicalName x = ct_LogicalName c /\ pr_Target x = mkTarget "127.0.0.1" (ct_TargetPort c) /\ pr_PublicURL x = ct_URL c.

Definition spent (environmentID : string) (r : Registry) (c : ControlRecord) : Prop :=
  (exists x, rg_records r !! ct_PreviewKey c = Some x /\
     (pr_EnvironmentID x <> environmentID \/ pr_LogicalName x <> ct_LogicalName c \/ pr_State x = Removed)) \/
  (exists other, rg_logical r !! logical_key environmentID (ct_LogicalName c) = Some other /\ other <> ct_PreviewKey c).

Lemma spent_carried env r r' c : carried r r' -> spent env r c -> spent env r' c.
Proof.
  intros [H1 H2] [(x&Hx&Hs)|(o&Ho&Hne)].
  - destruct (H1 _ _ Hx) as (y&Hy&E1&E2&E3). left. exists y. split; [done|]. rewrite E1, E2. naive_solver.
  - right. exists o. auto.
Qed.

Lemma Register_other now i env name t ack r j : j <> i -> rg_records (Register now i env name t ack r).1 !! j = rg_records r !! j.
Proof.
  intros Hne. unfold Register. destruct (negb _); [done|]. destruct (taken _ i); [done|]. destruct (rg_records r !! i).
  - case_decide; [done|]. case_decide; [done|]. simpl. by rewrite lookup_insert_ne.
  - case_decide; [done|]. simpl. by rewrite lookup_insert_ne.
Qed.

(** What a registration comes to. *)
Lemma Register_cases now i env name t ack r :
  match (Register now i env name t ack r).2 with
  | Ok _ => exists x, rg_records (Register now i env name t ack r).1 !! i = Some x /\ is_active x = true /\ pr_EnvironmentID x = env /\
              pr_LogicalName x = name /\ pr_Target x = t
  | Err e => e = ErrIdentityConflict -> (exists x, rg_records r !! i = Some x /\ (pr_EnvironmentID x <> env \/ pr_LogicalName x <> name \/ pr_State x = Removed)) \/
              (exists other, rg_logical r !! logical_key env name = Some other /\ other <> i)
  end.
Proof.
  unfold Register. destruct (negb _); [done|]. destruct (taken _ i) eqn:Ht.
  { intros _. right. unfold taken in Ht. destruct (rg_logical r !! _) as [o|]; [|done]. exists o. case_bool_decide; done. }
  destruct (rg_records r !! i) as [x|] eqn:Hi.
  - case_decide as Hc. { intros _. left. by exists x. } destruct (decide (pr_EnvironmentID x = env)), (decide (pr_LogicalName x = name)); try tauto.
    case_decide as Hc2; simpl.
    + exists x. rewrite removed_inactive. tauto.
    + exists (register_again now x t). rewrite lookup_insert_eq, removed_inactive. split; [done|]. simpl. split; [|tauto].
      case_bool_decide; [done|]. destruct (negb _); [done|tauto].
  - case_decide; [done|]. simpl. eexists. by rewrite lookup_insert_eq.
Qed.

Lemma canonical_spec now env c r r1 out :
  RegisterCanonical now (ct_PreviewKey c) (ct_URL c) env (ct_LogicalName c) (mkTarget "127.0.0.1" (ct_TargetPort c)) r = (r1, out) ->
  carried r r1 /\ (forall i, i <> ct_PreviewKey c -> rg_records r1 !! i = rg_records r !! i) /\
  match out with Ok _ => served_as env r1 c | Err e => e = ErrIdentityConflict -> spent env r1 c end.
Proof.
  unfold RegisterCanonical. set (t := mkTarget _ _).
  pose proof (Register_cases now (ct_PreviewKey c) env (ct_LogicalName c) t true r) as Hcases.
  pose proof (Register_carried now (ct_PreviewKey c) env (ct_LogicalName c) t true r) as Hcar.
  pose proof (fun j => Register_other now (ct_PreviewKey c) env (ct_LogicalName c) t true r j) as Hother.
  destruct (Register _ _ _ _ _ _ _) as [r0 [x|e]]; simpl in *.
  - intros [= <- <-]. destruct Hcases as (y&Hy&H1&H2&H3&H4). split_and!.
    + etrans; [exact Hcar|]. apply set_url_carried. by rewrite Hy.
    + intros i Hi. simpl. rewrite lookup_insert_ne by done. auto.
    + unfold served_as, set_url. rewrite Hy. simpl. eexists. rewrite lookup_insert_eq. split_and!; try done; simpl.
  - intros [= <- <-]. split_and!; [done|auto|]. intros E. apply (spent_carried _ r); [done|]. by apply Hcases.
Qed.

Lemma register_remote_spec now env l r r' :
  register_remote now env l r = (r', Ok tt) -> NoDup (ct_PreviewKey <$> l) ->
  carried r r' /\ (forall i, i ∉ ct_PreviewKey <$> l -> rg_records r' !! i = rg_records r !! i) /\
  (forall c, c ∈ l -> served_as env r' c \/ spent env r' c).
Proof.
  revert r. induction l as [|c l IH]; intros r E Hnd; simpl in E.
  { injection E as <-. split; [done|]. split; [done|]. intros c Hc. by apply elem_of_nil in Hc. }
  destruct (RegisterCanonical _ _ _ _ _ _ _) as [r1 out] eqn:Ec. apply canonical_spec in Ec as (Hcar&Hother&Hout).
  apply NoDup_cons in Hnd as [Hin Hnd].
  assert (Hrest : register_remote now env l r1 = (r', Ok tt) /\ (served_as env r1 c \/ spent env r1 c)).
  { destruct out as [x|e]; [by auto|]. case_decide; [|done]. auto. }
  destruct Hrest as [Hrest Hc]. destruct (IH r1 Hrest Hnd) as (H1&H2&H3). split_and!.
  - by etrans.
  - intros i Hi. apply not_elem_of_cons in Hi as [Hi Hi']. rewrite H2 by done. auto.
  - intros d [->|Hd]%elem_of_cons; [|auto]. destruct Hc as [(x&Hx&Hs)|Hs]; [left|right; by apply (spent_carried _ r1)].
    exists x. by rewrite H2.
Qed.

(** Nothing that is left active has the identity that is removed. *)
Lemma Remove_active now p r i x :
  rg_records (Remove now p r).1 !! i = Some x -> is_active x = true -> i <> p /\ rg_records r !! i = Some x.
Proof.
  unfold Remove, transition, Get. intros Hi Ha. pose proof (proj1 (removed_inactive x) Ha) as Hx.
  destruct (rg_records r !! p) as [cur|] eqn:Hp; [|simpl in Hi; split; [congruence|done]].
  case_decide as Hr; [simpl in Hi; split; [|done]; congruence|]. destruct (transitions _ _) eqn:Ht; [|by destruct (pr_State cur)].
  simpl in Hi. destruct (decide (i = p)) as [->|Hne]; [|by rewrite lookup_insert_ne in Hi].
  rewrite lookup_insert_eq in Hi. by injection Hi as <-.
Qed.

Lemma remove_missing_spec now keys l r r' b :
  remove_missing now keys l r = (r', Ok b) ->
  carried r r' /\ (forall i x, rg_records r' !! i = Some x -> is_active x = true -> i ∈ pr_Identity <$> l -> i ∈ keys) /\
  (forall i x, rg_records r' !! i = Some x -> is_active x = true -> rg_records r !! i = Some x).
Proof.
  revert r b. induction l as [|p l IH]; intros r b E; simpl in E.
  { injection E as <- _. split; [done|]. split; [|done]. intros i x _ _ Hi. by apply elem_of_nil in Hi. }
  case_decide as Hin.
  { destruct (IH r b E) as (H1&H2&H3). split_and!; [done| |done]. intros i x Hi Ha [->|Hi']%elem_of_cons; [done|eauto]. }
  assert (Hmove : exists b1, remove_missing now keys l (Remove now (pr_Identity p) r).1 = (r', Ok b1)).
  { destruct (Remove now (pr_Identity p) r) as [r1 [x|e]]; [|case_decide; [|done]];
      simpl; destruct (remove_missing now keys l r1) as [r2 [b2|e2]]; simplify_eq; eauto. }
  destruct Hmove as [b1 Hb1]. destruct (IH _ _ Hb1) as (H1&H2&H3). split_and!.
  - etrans; [apply transition_carried|exact H1].
  - intros i x Hi Ha [->|Hi']%elem_of_cons; [|eauto]. by destruct (Remove_active _ _ _ _ _ (H3 _ _ Hi Ha) Ha).
  - intros i x Hi Ha. by destruct (Remove_active _ _ _ _ _ (H3 _ _ Hi Ha) Ha).
Qed.



(** ** Reports *)

Definition settled (d : delivery) : bool := bool_decide (d = Delivered) || IsPermanentObservationError d.

(** Deliveries one after the other, while nothing changes in the registry. *)
Definition deliver_run (r : Registry) (outcomes : list delivery) (s : Reporter) : Reporter :=
  foldl (fun s d => (DeliverOnce (fun _ => d) s r).1) s outcomes.

Definition backlog (r : Registry) (s : Reporter) : nat := length (filter (fun x => unreported s x = true) (List r)).

Lemma filter_length_le {A} (P Q : A -> bool) (l : list A) : (forall x, Q x = true -> P x = true) ->
  (length (filter (fun x => Q x = true) l) <= length (filter (fun x => P x = true) l))%nat.
Proof. intros H. induction l as [|a l IH]; [done|]. rewrite !filter_cons. repeat case_decide; simpl; try lia. naive_solver. Qed.

Lemma filter_length_lt {A} (P Q : A -> bool) (l : list A) x : (forall x, Q x = true -> P x = true) -> x ∈ l -> P x = true -> Q x = false ->
  (length (filter (fun x => Q x = true) l) < length (filter (fun x => P x = true) l))%nat.
Proof.
  intros H Hx HP HQ. pose proof (filter_length_le P Q) as Hle. induction l as [|a l IH]; [by apply elem_of_nil in Hx|].
  rewrite !filter_cons. specialize (Hle l H). apply elem_of_cons in Hx as [->|Hx].
  - rewrite decide_False by congruence. rewrite decide_True by done. simpl. lia.
  - specialize (IH Hx). repeat case_decide; simpl; try lia. naive_solver.
Qed.

(** The observation in hand is news of a record as it stands. *)
Definition fresh (r : Registry) (s : Reporter) : Prop :=
  match rp_active s with None => True | Some o => exists x, x ∈ List r /\ o = observationFrom x /\ unreported s x = true end.

Lemma unreported_after d s x : unreported (deliver_end d s) x = true -> unreported s x = true.
Proof.
  unfold deliver_end. destruct (rp_active s) as [o|]; [|done]. destruct (_ || _); [|done]. unfold unreported, acknowledged. simpl. case_decide as Hlt; [|done].
  rewrite !bool_decide_eq_true. destruct (decide (pr_Identity x = ob_Identity o)) as [->|Hne]; [|by rewrite lookup_insert_ne].
  rewrite lookup_insert_eq. simpl in *. lia.
Qed.

(** [m] settled deliveries are enough. *)
Definition enough (r : Registry) (m : nat) (s : Reporter) : Prop := (backlog r s <= m)%nat /\ fresh r s \/ (backlog r s < m)%nat.

Lemma begin_backlog r s : backlog r (deliver_begin s r) = backlog r s.
Proof. unfold deliver_begin. by destruct (rp_active s). Qed.

Lemma begin_fresh r s : fresh r s -> fresh r (deliver_begin s r).
Proof.
  unfold fresh, deliver_begin. destruct (rp_active s) as [o|] eqn:Ho; [by rewrite Ho|]. intros _. simpl. destruct (filter _ (List r)) as [|x l] eqn:Ef; [done|]. simpl.
  assert (Hx : x ∈ filter (fun record => unreported s record = true) (List r)) by (rewrite Ef; left).
  apply list_elem_of_filter in Hx as [H1 H2]. by exists x.
Qed.

Lemma begin_idle r s : rp_active (deliver_begin s r) = None -> backlog r s = 0%nat.
Proof. unfold deliver_begin, backlog. destruct (rp_active s) as [o|] eqn:Ho; [by rewrite Ho|]. simpl. by destruct (filter _ (List r)). Qed.

Lemma deliver_enough r m s d : enough r (if settled d then S m else m) s -> enough r m (DeliverOnce (fun _ => d) s r).1.
Proof.
  unfold DeliverOnce. pose proof (begin_backlog r s) as Hb. pose proof (begin_fresh r s) as Hf. pose proof (begin_idle r s) as Hi.
  set (s1 := deliver_begin s r) in *. clearbody s1. destruct (rp_active s1) as [o|] eqn:Ho; simpl.
  2:{ intros _. left. rewrite Hb, Hi by done. split; [lia|]. unfold fresh. by rewrite Ho. }
  assert (Hle : (backlog r (deliver_end d s1) <= backlog r s1)%nat) by (apply filter_length_le; intros x; apply unreported_after).
  destruct (settled d) eqn:Hd.
  - assert (Hactive : fresh r (deliver_end d s1)). { unfold fresh, deliver_end. rewrite Ho. unfold settled in Hd. by rewrite Hd. }
    intros [[H1 H2]|H1]; left; (split; [|done]); [|lia].
    specialize (Hf H2). unfold fresh in Hf. rewrite Ho in Hf. destruct Hf as (x&Hx&->&Hnew).
    assert (Hlt : (backlog r (deliver_end d s1) < backlog r s1)%nat); [|lia].
    apply (filter_length_lt _ _ _ x); [intros y; apply unreported_after|done|done|].
    unfold deliver_end. rewrite Ho. unfold settled in Hd. rewrite Hd. unfold unreported, acknowledged in *. simpl. apply bool_decide_eq_true in Hnew.
    rewrite decide_True by done. rewrite lookup_insert_eq. apply bool_decide_eq_false. simpl. lia.
  - assert (deliver_end d s1 = s1) as ->. { unfold deliver_end. rewrite Ho. unfold settled in Hd. by rewrite Hd. }
    intros [[H1 H2]|H1]; [left; split; [lia|auto]|right; lia].
Qed.

Lemma deliver_run_enough r outcomes s m :
  enough r (m + length (filter (fun d => settled d = true) outcomes)) s -> enough r m (deliver_run r outcomes s).
Proof.
  revert s. induction outcomes as [|d l IH]; intros s H; [by rewrite Nat.add_0_r in H|]. apply IH, deliver_enough. rewrite filter_cons in H.
  destruct (settled d) eqn:Hd; [rewrite decide_True in H by done|rewrite decide_False in H by congruence]; simpl in H; [|done].
  by rewrite <- Nat.add_succ_r.
Qed.


(** Unless they are left alone: a preview that has news before each delivery, as one that the
    monitor probes has, keeps all those with a later identity from ever being reported. *)
Inductive newsy (first : string) : Reporter -> list Registry -> Reporter -> Prop :=
| newsy_done s : newsy first s [] s
| newsy_round s r rest x s' :
    head (List r) = Some x -> pr_Identity x = first -> unreported s x = true ->
    newsy first (DeliverOnce (fun _ => Delivered) s r).1 rest s' -> newsy first s (r :: rest) s'.

Lemma reports_starved first s rounds s' other :
  newsy first s rounds s' -> rp_active s = None -> other <> first -> acknowledged s' other = acknowledged s other.
Proof.
  induction 1 as [|s r rest x s' Hx Hfirst Hnew _ IH]; intros Ha Hne; [done|]. 
  assert (E : (DeliverOnce (fun _ => Delivered) s r).1 = mkReporter (<[first := pr_Revision x]> (rp_acknowledged s)) None).
  { unfold DeliverOnce, deliver_begin. rewrite Ha. destruct (List r) as [|y l]; [done|]. simpl in Hx. injection Hx as ->. rewrite filter_cons, decide_True by done. simpl.
    unfold deliver_end. simpl. unfold unreported in Hnew. apply bool_decide_eq_true in Hnew. rewrite decide_True by done. by rewrite Hfirst. }
  rewrite E in IH. rewrite IH by done. unfold acknowledged. simpl. by rewrite lookup_insert_ne.
Qed.


(** ** Witnesses and examples *)

Definition demo_previews : Registry := mkRegistry (2 * second) 20 8 ∅ ∅ 0.
Definition demo_port : Target := mkTarget "127.0.0.1" 3000.
Definition demo_registered : preview_world := mkPreviewWorld (Register 5 "p1" "env" "web" demo_port true demo_previews).1 ∅ [].
Definition demo_record : PreviewRecord := mkPreview "p1" "env" "web" demo_port Registering "" 5 1 "".
Definition demo_probing : preview_world := mkPreviewWorld (probe_begin "p1" (pw_registry demo_registered)).1 {[ 0%nat := ("p1", demo_record) ]} [].
Definition demo_ready : preview_world :=
  mkPreviewWorld (probe_end 6 false true "p1" demo_record (pw_registry demo_probing)).1 (delete 0%nat (pw_probes demo_probing)) [("p1", demo_port, 1, true)].

Lemma demo_ready_steps : nsteps preview_step 3 (start_previews demo_previews) demo_ready.
Proof.
  apply (nsteps_l _ _ _ demo_registered). { exact (VRegister (start_previews demo_previews) 5 "p1" "env" "web" demo_port true). }
  apply (nsteps_l _ _ _ demo_probing). { apply (VProbe demo_registered 0%nat "p1" demo_record (pw_registry demo_probing)); by vm_compute. }
  apply (nsteps_l _ _ _ demo_ready); [|constructor]. by apply (VProbed demo_probing 0%nat "p1" demo_record 6 false true).
Qed.

Lemma preview_forward_probed_witness : exists record,
  rg_records (pw_registry demo_ready) !! "p1" = Some record /\ (pr_Identity record, demo_port, pr_Revision record - 1, true) ∈ pw_dials demo_ready.
Proof.
  destruct (preview_forward_probed true 0 0 0 demo_previews 3 demo_ready second "p1" "" demo_port) as (record&H1&_&_&_&_&H2);
    [by vm_compute|exact demo_ready_steps|by vm_compute|by vm_compute|].
  by exists record.
Defined.

Lemma preview_registry_consistent_witness : ResourceCounts (pw_registry demo_ready) <= 20.
Proof.
  destruct (preview_registry_consistent true 0 0 0 demo_previews 3 demo_ready demo_ready) as (_&H&_);
    [by vm_compute|exact demo_ready_steps|by vm_compute|apply rtc_refl|].
  exact H.
Defined.

Definition demo_agent : AgentHandler := mkAgentHandler "0123456789abcdef0123456789abcdef" "env".
Definition demo_remote (key : string) : ControlRecord := mkControlRecord "id" "env" "web" key "https://web.example" 3000 "ready" None.
Definition demo_control (key : string) : PreviewControl :=
  mkPreviewControl (Some [demo_remote key]) (fun _ _ _ _ _ => Some (demo_remote key)) (fun _ => Some (demo_remote key)).



(** Two previews that are probed between the deliveries, as the monitor does it: the second
    one is at its fifth revision and none of them has been reported. *)
Definition demo_both : Registry := (Register 5 "p2" "env" "api" (mkTarget "127.0.0.1" 4000) true (Register 5 "p1" "env" "web" demo_port true demo_previews).1).1.
Definition monitored_round (x : Registry * Reporter) : Registry * Reporter :=
  let r := (RunOnce 6 (fun _ => false) (fun _ => true) x.1).1 in (r, (DeliverOnce (fun _ => Delivered) x.2 r).1).

Example later_preview_unreported :
  let x := Nat.iter 4 monitored_round (demo_both, NewReporter) in
  acknowledged x.2 "p1" = 5 /\ acknowledged x.2 "p2" = 0 /\ pr_Revision <$> rg_records x.1 !! "p2" = Some 5.
Proof. by vm_compute. Qed.

(** A preview is created, removed and created again, under a new identity or under the same:
    the agent is told that it was created, and its requests are answered 404. *)
Example recreated_preview_unserved :
  let agent control body r := agent_ServeHTTP demo_agent control 7 [bearer +:+ ah_Token demo_agent] "POST" "" (Some body) r in
  let create key r := agent (demo_control key) (mkAgentRequest "create" "web" 3000 true 0 false) r in
  let remove key r := agent (demo_control key) (mkAgentRequest "remove" "web" 0 false 0 false) r in
  let r2 := (remove "p1" (create "p1" demo_previews).1.1).1.1 in
  (create "p2" r2).1.2 = ARecord (demo_remote "p2") /\ ServeHTTP second "p2" "" (create "p2" r2).1.1 = Status 404 None /\
  (create "p1" r2).1.2 = ARecord (demo_remote "p1") /\ ServeHTTP second "p1" "" (create "p1" r2).1.1 = Status 404 None.
Proof. by vm_compute. Qed.

(** A lifetime of more than 292 years comes out as any other: this one as less than a second,
    and is sent as 0. *)
Example lifetime_overflow :
  lifetime 18446744074 = 290448384 /\ register_payload "web" demo_port true (lifetime 18446744074) false = PRegister "web" demo_port true (Some 0) false.
Proof. by vm_compute. Qed.
