(* ===== verification/Connector.v ===== *)
(** * The connector ([internal/connector])

    The helper is reached through an edge node.  [Admission] asks the control plane for a
    credential for one connection; [Manager] dials with it, keeps one connection active and
    lets replaced ones run out; [Supervisor] asks and dials again; [racingConnector] opens
    two transports and keeps the first that opens.  The FRP library, HTTP exchanges, clocks
    and the parsers of addresses are inputs. *)

From S2P Require Import Prelude Config Base64 Frame Auth.

(** ** Data ([manager.go]) *)

Inductive Transport := Auto | QUIC | TCPDedicated | TCPMux.
#[global] Instance Transport_eq_dec : EqDecision Transport.
Proof. solve_decision. Defined.

Inductive connector_error := ErrAdmissionInvalid | ErrAdmissionReplayed | ErrGenerationStale | ErrUnavailable | ErrShuttingDown.
#[global] Instance connector_error_eq_dec : EqDecision connector_error.
Proof. solve_decision. Defined.

#[global] Instance FileTransferPolicy_eq_dec : EqDecision FileTransferPolicy.
Proof. solve_decision. Defined.

Record EdgeEndpoint := mkEndpoint { ee_Host : string; ee_Port : Z; ee_TCPPort : Z; ee_QUICPort : Z }.
Record RouteHandoff := mkRoute {
  rh_RouteID : string; rh_Revision : Z; rh_Kind : string; rh_PublicHost : string; rh_ProxyName : string;
  rh_TargetHost : string; rh_TargetPort : Z
}.
Record Admission := mkAdmission {
  ad_OperationID : string;
  ad_JTI : string;
  ad_Credential : string;
  ad_EnvironmentID : string;
  ad_HelperID : string;
  ad_Generation : Z;
  ad_EdgePool : string;
  ad_EdgeNodeID : string;
  ad_Endpoint : EdgeEndpoint;
  ad_Routes : list RouteHandoff;
  ad_ProtocolVersion : string;
  ad_ExpiresAt : time;
  ad_FileTransferPolicy : FileTransferPolicy
}.

(** [net.ParseIP] with what is asked of an address, and [url.Parse] of "https://" and a host:
    its host name, its port and its path. *)
Record ip_address := mkIP { ip_IsUnspecified : bool; ip_IsLoopback : bool; ip_IsMulticast : bool }.
Class HostLibrary := {
  net_ParseIP : string -> option ip_address;
  url_of_host : string -> option (string * string * string)
}.

(** ** Validity ([admission_source.go]) *)

Definition lower_letter (a : ascii) : bool := let n := nat_of_ascii a in ((97 <=? n) && (n <=? 122))%nat.
Definition digit (a : ascii) : bool := let n := nat_of_ascii a in ((48 <=? n) && (n <=? 57))%nat.

(** [^[a-z][a-z0-9_-]{0,127}$] *)
Definition identifierPattern (s : string) : bool :=
  match s with
  | EmptyString => false
  | String a rest => lower_letter a && bool_decide ((String.length rest <= 127)%nat)
      && forallb (fun c => lower_letter c || digit c || bool_decide (c = "_"%char \/ c = "-"%char)) (String.list_ascii_of_string rest)
  end.

(** [^[a-z][a-z0-9_.-]{1,63}$] *)
Definition capabilityPattern (s : string) : bool :=
  match s with
  | EmptyString => false
  | String a rest => lower_letter a && bool_decide ((1 <= String.length rest <= 63)%nat)
      && forallb (fun c => lower_letter c || digit c || bool_decide (c = "_"%char \/ c = "-"%char \/ c = "."%char)) (String.list_ascii_of_string rest)
  end.

Fixpoint capabilities_from (seen : gset string) (l : list string) : bool :=
  match l with
  | [] => true
  | value :: rest => capabilityPattern value && negb (bool_decide (value ∈ seen)) && capabilities_from ({[ value ]} ∪ seen) rest
  end.
Definition validCapabilities (values : list string) : bool := bool_decide (len values <= 64) && capabilities_from ∅ values.

Definition has_char (c : ascii) (s : string) : bool := existsb (fun x => bool_decide (x = c)) (String.list_ascii_of_string s).

Section Validity.
Context {HL : HostLibrary}.

Definition validEndpoint (e : EdgeEndpoint) : bool :=
  if decide (ee_Port e = 0 \/ (String.length (ee_Host e) = 0 \/ 253 < String.length (ee_Host e))%nat) then false
  else match net_ParseIP (ee_Host e) with
  | Some ip => negb (ip_IsUnspecified ip) && negb (ip_IsLoopback ip) && negb (ip_IsMulticast ip)
  | None =>
      match url_of_host (ee_Host e) with
      | Some (hostname, _, _) => bool_decide (hostname = ee_Host e) && negb (has_char "_" (ee_Host e))
      | None => false
      end
  end.

Definition validPublicHost (host : string) : bool :=
  if decide ((String.length host = 0 \/ 253 < String.length host)%nat \/ is_Some (net_ParseIP host) \/ has_char "_" host = true) then false
  else match url_of_host host with Some (hostname, port, path) => bool_decide (hostname = host /\ port = "" /\ path = "") | None => false end.

Definition valid_route (r : RouteHandoff) : bool :=
  identifierPattern (rh_RouteID r) && identifierPattern (rh_ProxyName r) && validPublicHost (rh_PublicHost r)
  && bool_decide (rh_Revision r <> 0 /\ rh_TargetPort r <> 0 /\ (rh_TargetHost r = "127.0.0.1" \/ rh_TargetHost r = "::1")
                  /\ (rh_Kind r = "helper_https_wss" \/ rh_Kind r = "preview_public_https_wss")).

Fixpoint routes_from (ids proxies hosts : gset string) (l : list RouteHandoff) : bool :=
  match l with
  | [] => true
  | r :: rest =>
      valid_route r && negb (bool_decide (rh_RouteID r ∈ ids \/ rh_ProxyName r ∈ proxies \/ rh_PublicHost r ∈ hosts))
      && routes_from ({[ rh_RouteID r ]} ∪ ids) ({[ rh_ProxyName r ]} ∪ proxies) ({[ rh_PublicHost r ]} ∪ hosts) rest
  end.

Definition validRoutes (routes : list RouteHandoff) : bool :=
  bool_decide (1 <= len routes <= 128) && routes_from ∅ ∅ ∅ routes.

Definition validFileTransferPolicy (p : FileTransferPolicy) : bool :=
  bool_decide (fp_Revision p <> "" /\ 0 < fp_MaxFileBytes p <= Z.shiftl 50 20 /\ 0 < fp_MaxBatchFiles p <= 10
    /\ fp_MaxFileBytes p <= fp_MaxBatchBytes p <= Z.shiftl 500 20 /\ 0 < fp_MaxConcurrentTransfers p <= 2
    /\ 0 < fp_RetentionSeconds p /\ 0 < fp_DeliveryTimeoutSeconds p /\ fp_MaxBatchBytes p <= fp_MaxPendingSpoolBytes p).

(** ** Admission ([admission_source.go]) *)

Record AdmissionSource := mkAdmissionSource {
  as_Issuer : string; as_EnvironmentID : string; as_HelperID : string; as_EdgePool : string; as_MaxResponseBytes : Z
}.

Record admissionResponse := mkAdmissionResponse {
  ap_OperationID : string; ap_EnvironmentID : string; ap_HelperID : string; ap_Generation : Z; ap_EdgePool : string; ap_EdgeNodeID : string;
  ap_EdgeEndpoint : EdgeEndpoint; ap_Routes : list RouteHandoff; ap_ProtocolVersion : string; ap_Capabilities : list string;
  ap_Credential : string; ap_FileTransferPolicy : FileTransferPolicy
}.

Inductive admission_error := ErrAdmissionSourceInvalid | AUnavailable | ACode (e : Code) | AOther.

(** What a request for admission meets: the name of the operation, the token, the proof, and
    the status and body of the answer. *)
Record admission_world := mkAdmissionWorld {
  aw_operation : option string;
  aw_token : option string;
  aw_proof : option (list byte);
  aw_response : option (Z * option (list byte))
}.

(** [strictJSON]: the walk over the tokens, then the document with nothing after it. *)
Class AdmissionJson := { admission_tokens : list byte -> decoder; decode_admission : list byte -> option (admissionResponse * bool) }.

Definition strictJSON `{AdmissionJson} (body : list byte) : option admissionResponse :=
  match rejectDuplicateKeys (admission_tokens body) with
  | Err _ => None
  | Ok _ => match decode_admission body with Some (d, true) => Some d | _ => None end
  end.

Definition slen (s : string) : Z := Z.of_nat (String.length s).

Definition document_valid (s : AdmissionSource) (operation : string) (d : admissionResponse) : bool :=
  bool_decide (ap_OperationID d = operation /\ ap_EnvironmentID d = as_EnvironmentID s /\ ap_HelperID d = as_HelperID s /\ ap_EdgePool d = as_EdgePool s)
  && identifierPattern (ap_EdgeNodeID d)
  && bool_decide (ap_ProtocolVersion d = "1.0" /\ ap_Generation d <> 0 /\ 32 <= slen (ap_Credential d) <= 8192)
  && validCapabilities (ap_Capabilities d) && validEndpoint (ap_EdgeEndpoint d) && validRoutes (ap_Routes d)
  && validFileTransferPolicy (ap_FileTransferPolicy d).

Definition admission_policy (s : AdmissionSource) (d : admissionResponse) : Policy :=
  mkPolicy (as_Issuer s) "paperboat-edge" "connector_admission" ["connector:admit"] (as_EnvironmentID s) "" "" (as_HelperID s) "" "" "" "" "" ""
    (ap_Generation d) (as_EdgePool s) (ap_EdgeNodeID d) "" (5 * 60 * second) true.

Definition bound_text (value : option string) (least most : Z) : bool :=
  match value with Some t => bool_decide (least <= slen t <= most) | None => false end.

Definition Admission_ {K} `{KeySource K} `{Crypto} `{AdmissionJson} (v : Verifier) (s : AdmissionSource) (a : admission_world) (w : world K)
    : world K * result admission_error Admission :=
  if negb (bound_text (aw_operation a) 8 128 && bound_text (aw_token a) 1 (Z.shiftl 16 10)) then (w, Err ErrAdmissionSourceInvalid)
  else match aw_proof a with
  | None => (w, Err ErrAdmissionSourceInvalid)
  | Some proof =>
      if decide (len proof = 0 \/ Z.shiftl 16 10 < len proof) then (w, Err ErrAdmissionSourceInvalid)
      else match aw_response a with
      | None => (w, Err AOther)
      | Some (status, body) =>
          if decide (status < 200 \/ 300 <= status) then (w, Err AUnavailable)
          else match body with
          | None => (w, Err AOther)
          | Some data =>
              if decide (as_MaxResponseBytes s < len data) then (w, Err ErrAdmissionSourceInvalid)
              else match strictJSON data with
              | None => (w, Err ErrAdmissionSourceInvalid)
              | Some d =>
                  if negb (document_valid s (default "" (aw_operation a)) d) then (w, Err ErrAdmissionSourceInvalid)
                  else match Verify v (ap_Credential d) (admission_policy s d) w with
                  | (w1, Err e) => (w1, Err (ACode e))
                  | (w1, Ok claims) =>
                      let expires := time_Unix (cl_ExpiresAt claims) in
                      let '(w2, now) := Now w1 in
                      if decide (cl_JTI claims = "" \/ cl_EdgePool claims <> as_EdgePool s \/ expires <= now
                                 \/ cl_FileTransferPolicy claims <> Some (ap_FileTransferPolicy d))
                      then (w2, Err ErrAdmissionSourceInvalid)
                      else (w2, Ok (mkAdmission (ap_OperationID d) (cl_JTI claims) (ap_Credential d) (ap_EnvironmentID d) (ap_HelperID d) (ap_Generation d)
                              (cl_EdgePool claims) (cl_EdgeNodeID claims) (ap_EdgeEndpoint d) (ap_Routes d) (ap_ProtocolVersion d) expires
                              (ap_FileTransferPolicy d)))
                  end
              end
          end
      end
  end.

(** ** Connections ([manager.go])

    A connection has an identity, in the order they are dialed.  What is done to it is a
    [cmd]; [CRetire] may fail, and then the connection is closed at once. *)

Record activeConnection := mkActive { ac_id : nat; ac_generation : Z; ac_transport : Transport }.

Record Manager := mkConnManager {
  cm_EnvironmentID : string;
  cm_HelperID : string;
  cm_EdgePool : string;
  cm_Transport : Transport;
  cm_used : gmap string time;
  cm_active : option activeConnection;
  cm_retired : gmap nat activeConnection;
  cm_stopping : bool
}.

Definition New (dialer : bool) (environmentID helperID edgePool : string) (drainTimeout : Z) (transport : option Transport) : result connector_error Manager :=
  if decide (dialer = false \/ environmentID = "" \/ helperID = "" \/ edgePool = "" \/ drainTimeout < 0) then Err ErrAdmissionInvalid
  else Ok (mkConnManager environmentID helperID edgePool (default Auto transport) ∅ None ∅ false).

Definition with_used (m : Manager) (used : gmap string time) : Manager :=
  mkConnManager (cm_EnvironmentID m) (cm_HelperID m) (cm_EdgePool m) (cm_Transport m) used (cm_active m) (cm_retired m) (cm_stopping m).
Definition with_connections (m : Manager) (active : option activeConnection) (retired : gmap nat activeConnection) : Manager :=
  mkConnManager (cm_EnvironmentID m) (cm_HelperID m) (cm_EdgePool m) (cm_Transport m) (cm_used m) active retired (cm_stopping m).
Definition stop (m : Manager) : Manager :=
  mkConnManager (cm_EnvironmentID m) (cm_HelperID m) (cm_EdgePool m) (cm_Transport m) (cm_used m) (cm_active m) (cm_retired m) true.

Definition admission_valid (m : Manager) (now : time) (a : Admission) : bool :=
  bool_decide (8 <= slen (ad_OperationID a) <= 128 /\ ad_JTI a <> "" /\ 32 <= slen (ad_Credential a) <= 8192
    /\ ad_EnvironmentID a = cm_EnvironmentID m /\ ad_HelperID a = cm_HelperID m /\ ad_EdgePool a = cm_EdgePool m)
  && identifierPattern (ad_EdgeNodeID a)
  && bool_decide (ad_ProtocolVersion a = "1.0" /\ ad_Generation a <> 0 /\ now < ad_ExpiresAt a)
  && validEndpoint (ad_Endpoint a) && validRoutes (ad_Routes a).

(** The part of [Accept] before it dials. *)
Definition accept_begin (now : time) (a : Admission) (m : Manager) : Manager * result connector_error unit :=
  if cm_stopping m then (m, Err ErrShuttingDown)
  else
    let m := with_used m (filter (fun p => now < p.2) (cm_used m)) in
    if negb (admission_valid m now a) then (m, Err ErrAdmissionInvalid)
    else if decide (is_Some (cm_used m !! ad_JTI a)) then (m, Err ErrAdmissionReplayed)
    else if decide (ad_Generation a < match cm_active m with Some c => ac_generation c | None => 0 end) then (m, Err ErrGenerationStale)
    else (with_used m (<[ad_JTI a := ad_ExpiresAt a]> (cm_used m)), Ok tt).

Inductive cmd := CClose (id : nat) | CRetire (id : nat).

(** The part after it: [dialed] is the connection, or [None] when dialing failed (what it had
    of a connection is closed); [transport] the transport the connection has selected, if it
    says so. *)
Definition accept_end (dialed : option (nat * option Transport)) (retire_fails : bool) (a : Admission) (m : Manager)
    : Manager * result connector_error (Z * Transport * bool) * list cmd :=
  match dialed with
  | None => (m, Err ErrUnavailable, [])
  | Some (id, selected) =>
      if cm_stopping m then (m, Err ErrShuttingDown, [CClose id])
      else
        let transport := default (cm_Transport m) selected in
        let new := mkActive id (ad_Generation a) transport in
        match cm_active m with
        | None => (with_connections m (Some new) (cm_retired m), Ok (ad_Generation a, transport, false), [])
        | Some old =>
            (with_connections m (Some new) (<[ac_id old := old]> (cm_retired m)), Ok (ad_Generation a, transport, true),
             CRetire (ac_id old) :: if retire_fails then [CClose (ac_id old)] else [])
        end
  end.

(** [waitRetired], when the connection has ended or has no life cycle of its own. *)
Definition waitRetired (lifecycle : bool) (id : nat) (m : Manager) : Manager * list cmd :=
  (with_connections m (cm_active m) (delete id (cm_retired m)),
   if decide (lifecycle = true /\ cm_retired m !! id = None) then [] else [CClose id]).

Definition Status (m : Manager) : bool * Z * option Transport * bool :=
  match cm_active m with
  | Some c => (true, ac_generation c, Some (ac_transport c), cm_stopping m)
  | None => (false, 0, None, cm_stopping m)
  end.

Definition ResourceCounts (m : Manager) : Z := Z.of_nat (size (cm_retired m)) + (match cm_active m with Some _ => 1 | None => 0 end).

(** [WaitDisconnected]: which connection is waited for, and what happens when it has ended. *)
Definition wait_begin (generation : Z) (m : Manager) : result connector_error nat :=
  match cm_active m with
  | Some c => if decide (ac_generation c = generation) then Ok (ac_id c) else Err ErrGenerationStale
  | None => Err ErrGenerationStale
  end.

Definition wait_end (id : nat) (m : Manager) : Manager * list cmd :=
  (with_connections m (match cm_active m with Some c => if decide (ac_id c = id) then None else Some c | None => None end) (cm_retired m), [CClose id]).

(** [Shutdown]: the flag, then, with the operation lock, the connections to drain and close. *)
Definition shutdown_take (m : Manager) : Manager * list nat :=
  (with_connections m None ∅, match cm_active m with Some c => [ac_id c] | None => [] end ++ (map_to_list (cm_retired m)).*1).

(** ** Reconnecting ([supervisor.go]) *)

Definition backoff_after (initial most : Z) (failed : bool) (backoff : Z) : Z :=
  if failed then if decide (most < backoff * 2) then most else backoff * 2 else initial.

Definition backoffs (initial most : Z) (attempts : list bool) : Z := foldl (fun b failed => backoff_after initial most failed b) initial attempts.

(** What the loop does after a connection that was accepted has ended. *)
Inductive after_wait := ReconnectNow | ReconnectLater | Leave.
Definition after_disconnect (waitErr : option bool) (stopped : bool) : after_wait :=
  match waitErr with
  | Some true => if stopped then Leave else ReconnectNow          (* canceled: the routes have changed *)
  | Some false => if stopped then Leave else ReconnectLater
  | None => if stopped then Leave else ReconnectNow
  end.

(** ** Resuming ([runid.go]) *)

Inductive run_error := ErrRunIDInvalid | ErrRunIDRevoked | ErrRunIDExpired | ErrRunIDMismatch | ErrRunIDGeneration.
Record RunIDState := mkRunID { ri_RunID : string; ri_Generation : Z; ri_ExpiresAt : time; ri_Revoked : bool }.

Definition Resume (s : RunIDState) (runID : string) (generation : Z) (now : time) : result run_error unit :=
  if decide (ri_RunID s = "" \/ runID = "" \/ ri_Generation s = 0 \/ generation = 0) then Err ErrRunIDInvalid
  else if ri_Revoked s then Err ErrRunIDRevoked
  else if decide (ri_ExpiresAt s <= now) then Err ErrRunIDExpired
  else if decide (generation <> ri_Generation s) then Err ErrRunIDGeneration
  else if decide (runID <> ri_RunID s) then Err ErrRunIDMismatch
  else Ok tt.
End Validity.

(** ** The FRP client ([frp.go]) *)

Definition selectedRoutes (kinds : list string) (routes : list RouteHandoff) : list RouteHandoff :=
  match kinds with [] => routes | _ => filter (fun r => rh_Kind r ∈ kinds) routes end.

Definition connectorPort (e : EdgeEndpoint) (t : Transport) : Z :=
  let port := if decide (t = QUIC) then ee_QUICPort e else ee_TCPPort e in
  if decide (port = 0) then ee_Port e else port.

(** The text "environment, helper, route, proxy", apart by zero bytes, names a proxy across
    operations; with the operation it names it once. *)
Definition zjoin (a b : string) : string := a +:+ String zero b.
Definition stable_name (a : Admission) (r : RouteHandoff) : string :=
  zjoin (zjoin (zjoin (ad_EnvironmentID a) (ad_HelperID a)) (rh_RouteID r)) (rh_ProxyName r).
Definition physical_name (a : Admission) (r : RouteHandoff) : string := zjoin (stable_name a r) (ad_OperationID a).

Definition hashPrefix (sha256 : list byte -> list byte) (value : string) (length : nat) : string :=
  String.substring 0 length (hex_EncodeToString (sha256 (String.list_byte_of_string value))).

Record frpIdentity := mkFrpIdentity { fi_name : string; fi_group : string; fi_groupKey : string }.
Definition frpProxyIdentity (sha256 : list byte -> list byte) (a : Admission) (r : RouteHandoff) : frpIdentity :=
  mkFrpIdentity ("pbp_" +:+ hashPrefix sha256 (zjoin "paperboat-frp-proxy-v1" (physical_name a r)) 32)
    ("pbg_" +:+ hashPrefix sha256 (zjoin "paperboat-frp-group-v1" (stable_name a r)) 32)
    (hashPrefix sha256 (zjoin "paperboat-frp-group-key-v1" (stable_name a r)) 64).

(** [monitorProxies]: the connection is closed after [threshold] checks in a row that found a
    proxy not running.  The result is the count, or [None] once it is closed. *)
Definition monitor_check (threshold : Z) (failures : option Z) (running : bool) : option Z :=
  match failures with
  | None => None
  | Some n => if running then Some 0 else if decide (threshold <= n + 1) then None else Some (n + 1)
  end.
Definition monitorProxies (threshold : Z) (checks : list bool) : option Z := foldl (monitor_check threshold) (Some 0) checks.

(** ** Two transports at once ([racing.go]) *)

Inductive race_phase := Racing | Won (t : Transport) | Lost.
#[global] Instance race_phase_eq_dec : EqDecision race_phase.
Proof. solve_decision. Defined.

(** [rc_closed] is set by [Close]; [rc_candidates] are the transports whose connectors were
    made, [rc_released] those whose connectors were cancelled and closed. *)
Record race := mkRace {
  rc_second : Transport;
  rc_candidates : list Transport;
  rc_completed : nat;
  rc_closed : bool;
  rc_phase : race_phase;
  rc_released : gset nat
}.

(** A saved preference, with what is left of its time. *)
Definition loadPreference (now : time) (saved : option (option Transport * time)) : option Transport :=
  match saved with Some (t, expires) => if decide (now < expires) then t else None | None => None end.

Definition race_order (preferred : option Transport) : Transport * Transport :=
  if decide (preferred = Some TCPMux) then (TCPMux, QUIC) else (QUIC, TCPMux).

Definition race_start (preferred : option Transport) : race :=
  let '(first, second) := race_order preferred in mkRace second [first] 0 false Racing ∅.

Inductive race_event :=
| RTimer
| RResult (candidate : nat) (opened : bool)   (* what [Open] of the candidate at this place returned *)
| RCanceled
| RClose.

Definition start_second (r : race) : race :=
  if decide (length (rc_candidates r) = 1%nat)
  then mkRace (rc_second r) (rc_candidates r ++ [rc_second r]) (rc_completed r) (rc_closed r) (rc_phase r) (rc_released r) else r.
Definition release (ids : gset nat) (r : race) : race :=
  mkRace (rc_second r) (rc_candidates r) (rc_completed r) (rc_closed r) (rc_phase r) (ids ∪ rc_released r).
Definition enter (phase : race_phase) (r : race) : race :=
  mkRace (rc_second r) (rc_candidates r) (rc_completed r) (rc_closed r) phase (rc_released r).
Definition complete (r : race) : race :=
  mkRace (rc_second r) (rc_candidates r) (S (rc_completed r)) (rc_closed r) (rc_phase r) (rc_released r).
Definition all_candidates (r : race) : gset nat := set_seq 0 (length (rc_candidates r)).

Definition race_event_step (e : race_event) (r : race) : race :=
  match rc_phase r, e with
  | Racing, RTimer => start_second r
  | Racing, RResult i opened =>
      match rc_candidates r !! i with
      | None => r
      | Some t =>
          let r := complete r in
          if opened then
            if rc_closed r then enter Lost (release {[ i ]} r)
            else enter (Won t) (release (all_candidates r ∖ {[ i ]}) r)
          else
            let r := start_second (release {[ i ]} r) in
            if decide (2 <= rc_completed r)%nat then enter Lost r else r
      end
  | Racing, RCanceled => enter Lost (release (all_candidates r) r)
  | phase, RClose =>
      let r := mkRace (rc_second r) (rc_candidates r) (rc_completed r) true phase (rc_released r) in
      match phase with
      | Won t => match list_find (fun x => x = t) (rc_candidates r) with Some (i, _) => release {[ i ]} r | None => r end
      | Racing | Lost => r
      end
  | _, _ => r
  end.
