(* ===== verification/ConnectorTheorems.v ===== *)
(** * Connections are accounted for, admissions are used once *)

From S2P Require Import Prelude Config Base64 Frame Auth AuthTheorems Connector.

(** ** The manager at work

    [Accept] and the second part of [Shutdown] exclude each other; [cn_op] says who has the
    lock.  [cn_open] are the connections that were dialed and not closed, [cn_waiters] the
    running calls of [waitRetired], [cn_waiting] those of [WaitDisconnected], [cn_accepted] the
    admissions that were dialed with, newest first. *)

Inductive conn_op := Idle | Dialing (a : Admission) | Draining (ids : list nat) | Finished.

Record conn_world := mkConnWorld {
  cn_manager : Manager;
  cn_op : conn_op;
  cn_next : nat;
  cn_open : gset nat;
  cn_waiters : gset nat;
  cn_waiting : gset nat;
  cn_accepted : list (string * time);
  cn_now : time
}.

Definition closed_by (cmds : list cmd) : gset nat :=
  list_to_set (omap (fun c => match c with CClose id => Some id | CRetire _ => None end) cmds).

Section Steps.
Context {HL : HostLibrary}.

Inductive conn_step : conn_world -> conn_world -> Prop :=
| KBegin m next op ws wg acc now now' a m' r :
    now <= now' -> accept_begin now' a m = (m', r) ->
    conn_step (mkConnWorld m Idle next op ws wg acc now)
      (mkConnWorld m' (if is_ok r then Dialing a else Idle) next op ws wg (if is_ok r then (ad_JTI a, ad_ExpiresAt a) :: acc else acc) now')
| KFailed m next op ws wg acc now a fails m' r cmds :
    accept_end None fails a m = (m', r, cmds) ->
    conn_step (mkConnWorld m (Dialing a) next op ws wg acc now) (mkConnWorld m' Idle next (op ∖ closed_by cmds) ws wg acc now)
| KDialed m next op ws wg acc now a selected fails m' r cmds :
    accept_end (Some (next, selected)) fails a m = (m', r, cmds) ->
    conn_step (mkConnWorld m (Dialing a) next op ws wg acc now)
      (mkConnWorld m' Idle (S next) (({[ next ]} ∪ op) ∖ closed_by cmds)
         (match r, cm_active m with Ok _, Some old => {[ ac_id old ]} ∪ ws | _, _ => ws end) wg acc now)
| KRetired m o next op ws wg acc now lifecycle id m' cmds :
    id ∈ ws -> waitRetired lifecycle id m = (m', cmds) ->
    conn_step (mkConnWorld m o next op ws wg acc now) (mkConnWorld m' o next (op ∖ closed_by cmds) (ws ∖ {[ id ]}) wg acc now)
| KLeave m o next op ws wg acc now id :
    id ∈ ws -> cm_stopping m = true ->
    conn_step (mkConnWorld m o next op ws wg acc now) (mkConnWorld m o next op (ws ∖ {[ id ]}) wg acc now)
| KWait m o next op ws wg acc now generation id :
    wait_begin generation m = Ok id ->
    conn_step (mkConnWorld m o next op ws wg acc now) (mkConnWorld m o next op ws ({[ id ]} ∪ wg) acc now)
| KEnded m o next op ws wg acc now id m' cmds :
    id ∈ wg -> wait_end id m = (m', cmds) ->
    conn_step (mkConnWorld m o next op ws wg acc now) (mkConnWorld m' o next (op ∖ closed_by cmds) ws (wg ∖ {[ id ]}) acc now)
| KStop m o next op ws wg acc now :
    conn_step (mkConnWorld m o next op ws wg acc now) (mkConnWorld (stop m) o next op ws wg acc now)
| KTake m next op ws wg acc now m' ids :
    cm_stopping m = true -> shutdown_take m = (m', ids) ->
    conn_step (mkConnWorld m Idle next op ws wg acc now) (mkConnWorld m' (Draining ids) next op ws wg acc now)
| KDrained m next op ws wg acc now l1 id l2 :
    conn_step (mkConnWorld m (Draining (l1 ++ id :: l2)) next op ws wg acc now) (mkConnWorld m (Draining (l1 ++ l2)) next (op ∖ {[ id ]}) ws wg acc now)
| KAbandoned m next op ws wg acc now ids :
    conn_step (mkConnWorld m (Draining ids) next op ws wg acc now) (mkConnWorld m Finished next (op ∖ list_to_set ids) ws wg acc now).

Definition start_connector (m : Manager) (now : time) : conn_world := mkConnWorld m Idle 0 ∅ ∅ ∅ [] now.

(** Who holds a connection. *)
Definition held (m : Manager) (o : conn_op) : gset nat :=
  match cm_active m with Some c => {[ ac_id c ]} | None => ∅ end ∪ dom (cm_retired m)
  ∪ match o with Draining ids => list_to_set ids | _ => ∅ end.

Record conn_ok (w : conn_world) : Prop := {
  ko_open : cn_open w ⊆ held (cn_manager w) (cn_op w);
  ko_shut : match cn_op w with Draining _ | Finished => cm_stopping (cn_manager w) = true /\ cm_active (cn_manager w) = None /\ cm_retired (cn_manager w) = ∅ | _ => True end;
  ko_generation : match cn_op w with Dialing a => forall c, cm_active (cn_manager w) = Some c -> ac_generation c <= ad_Generation a | _ => True end;
  ko_used : forall j e, (j, e) ∈ cn_accepted w -> cn_now w < e -> cm_used (cn_manager w) !! j = Some e;
  ko_once : NoDup (cn_accepted w)
}.

Lemma accept_begin_spec now a m m' r : accept_begin now a m = (m', r) ->
  cm_active m' = cm_active m /\ cm_retired m' = cm_retired m /\ cm_stopping m' = cm_stopping m /\
  match r with
  | Ok _ => (forall c, cm_active m = Some c -> ac_generation c <= ad_Generation a) /\ now < ad_ExpiresAt a /\
            (forall e, cm_used m !! ad_JTI a = Some e -> e <= now) /\ cm_used m' !! ad_JTI a = Some (ad_ExpiresAt a) /\
            (forall j e, j <> ad_JTI a -> cm_used m !! j = Some e -> now < e -> cm_used m' !! j = Some e)
  | Err _ => forall j e, cm_used m !! j = Some e -> now < e -> cm_used m' !! j = Some e
  end.
Proof.
  assert (Hkeep : forall j e, cm_used m !! j = Some e -> now < e -> filter (fun p : string * time => now < p.2) (cm_used m) !! j = Some e)
    by (intros; by apply map_lookup_filter_Some).
  unfold accept_begin. destruct (cm_stopping m) eqn:Hs; [intros [= <- <-]; by rewrite Hs|].
  destruct (admission_valid _ now a) eqn:Hv; simpl; [|intros [= <- <-]; by simpl].
  case_decide as Hu; [intros [= <- <-]; by simpl|]. case_decide as Hg; [intros [= <- <-]; by simpl|].
  intros [= <- <-]. simpl. split_and!; try done.
  - intros c Hc. rewrite Hc in Hg. lia.
  - unfold admission_valid in Hv. repeat (apply andb_true_iff in Hv as [Hv ?]). apply bool_decide_eq_true in H1. tauto.
  - intros e He. destruct (decide (now < e)); [|lia]. destruct Hu. simpl. rewrite (Hkeep _ _ He) by done. eauto.
  - apply lookup_insert_eq.
  - intros j e Hj He Hlt. rewrite lookup_insert_ne by done. auto.
Qed.

Lemma conn_step_ok w w' : conn_ok w -> conn_step w w' -> conn_ok w'.
Proof.
  intros [Hopen Hshut Hgen Hused Honce] Hstep.
  destruct Hstep as [m next op ws wg acc now now' a m' r Hle E|m next op ws wg acc now a fails m' r cmds E|m next op ws wg acc now a sel fails m' r cmds E
    |m o next op ws wg acc now lc id m' cmds Hin E|m o next op ws wg acc now id Hin Hs|m o next op ws wg acc now g id E|m o next op ws wg acc now id m' cmds Hin E
    |m o next op ws wg acc now|m next op ws wg acc now m' ids Hs E|m next op ws wg acc now l1 id l2|m next op ws wg acc now ids]; simpl in *.
  - apply accept_begin_spec in E as (Ha&Hr&Hs&Hcase). unfold held in *. destruct r as [[]|e]; simpl.
    + destruct Hcase as (Hg&Hexp&Hold&Hnew&Hkeep). split; simpl; try done.
      * unfold held. by rewrite Ha, Hr.
      * by rewrite Ha.
      * intros j x [[= -> ->]|Hj]%elem_of_cons Hlt; [done|]. destruct (decide (j = ad_JTI a)) as [->|Hne]; [|apply Hkeep; [done| |lia]; apply Hused; [done|lia]].
        specialize (Hold x (Hused _ _ Hj ltac:(lia))). lia.
      * constructor; [|done]. intros Hj. specialize (Hold _ (Hused _ _ Hj ltac:(lia))). lia.
    + split; simpl; try done.
      * unfold held. by rewrite Ha, Hr.
      * intros j x Hj Hlt. apply Hcase; [|lia]. apply Hused; [done|lia].
  - injection E as <- <- <-. split; simpl; try done. unfold held in *. simpl in *. set_solver.
  - unfold accept_end in E. destruct (cm_stopping m) eqn:Hs.
    { injection E as <- <- <-. split; simpl; try done. unfold held in *. set_solver. }
    destruct (cm_active m) as [old|] eqn:Hold; injection E as <- <- <-; split; simpl; try done; unfold held in *; simpl in *; rewrite ?Hold in Hopen.
    + rewrite dom_insert_L. destruct fails; set_solver.
    + set_solver.
  - injection E as <- <-. split; simpl; try done.
    + unfold held in *. simpl. rewrite dom_delete_L. case_decide as Hd; [|set_solver].
      assert (id ∉ dom (cm_retired m)) by (apply not_elem_of_dom; tauto). set_solver.
    + destruct o; try done; (split_and!; [tauto..|]); destruct Hshut as (_&_&->); by rewrite delete_empty.
  - by split.
  - by split.
  - injection E as <- <-. split; simpl; try done.
    + unfold held in *. simpl. destruct (cm_active m) as [c|]; [case_decide|]; set_solver.
    + destruct o; try done; (split_and!; [tauto|destruct Hshut as (_&->&_); done|tauto]).
    + destruct o as [|a|ids|]; try done. intros c Hc. destruct (cm_active m) as [c'|]; [|done]. case_decide; [done|]. by apply Hgen.
  - split; simpl; try done. destruct o; try done; tauto.
  - injection E as <- <-. split; simpl; try done. unfold held in *. simpl in *. rewrite dom_empty_L.
    pose proof (dom_alt (M := gmap nat) (D := gset nat) (cm_retired m)) as Hd. destruct (cm_active m) as [c|]; set_solver.
  - split; simpl; try done. unfold held in *. set_solver.
  - split; simpl; try done. unfold held in *. destruct Hshut as (_&Ha&Hr). rewrite Ha, Hr in *. set_solver.
Qed.

Lemma conn_ok_start m now : cm_active m = None -> cm_retired m = ∅ -> cm_used m = ∅ -> conn_ok (start_connector m now).
Proof. intros Ha Hr Hu. split; simpl; try done; [|constructor]. intros j e Hj. by apply elem_of_nil in Hj. Qed.

Lemma conn_reachable_ok dialer env helper pool drain transport m now w :
  New dialer env helper pool drain transport = Ok m -> rtc conn_step (start_connector m now) w -> conn_ok w.
Proof.
  intros Hnew. unfold New in Hnew. case_decide; [done|]. injection Hnew as <-. intros Hw.
  refine (rtc_invariant _ conn_ok _ _ _ Hw _); [intros x y Hxy Hx; by apply (conn_step_ok x)|by apply conn_ok_start].
Qed.

(** C27.  No connection to an edge is lost: under every interleaving of admissions, replaced
    connections that run out, connections that end, and shutdown, a connection that was
    dialed and not closed is the active one, a retired one or one that shutdown is
    draining; and when shutdown is over, drained or out of time, none is open. *)
Theorem connections_accounted dialer env helper pool drain transport m now w :
  New dialer env helper pool drain transport = Ok m -> rtc conn_step (start_connector m now) w ->
  (forall id, id ∈ cn_open w ->
     ac_id <$> cm_active (cn_manager w) = Some id \/ is_Some (cm_retired (cn_manager w) !! id) \/ exists ids, cn_op w = Draining ids /\ id ∈ ids) /\
  (cn_op w = Finished -> cn_open w = ∅).
Proof.
  intros Hnew Hw. destruct (conn_reachable_ok _ _ _ _ _ _ _ _ _ Hnew Hw) as [Hopen Hshut _ _ _]. unfold held in Hopen. split.
  - intros id Hid. apply Hopen in Hid. apply elem_of_union in Hid as [[Hid|Hid]%elem_of_union|Hid].
    + left. destruct (cm_active _) as [c|]; [|set_solver]. apply elem_of_singleton in Hid. by subst.
    + right. left. by apply elem_of_dom.
    + right. right. destruct (cn_op w) as [| |ids|]; try set_solver.
  - intros Hf. rewrite Hf in Hopen, Hshut. destruct Hshut as (_&Ha&Hr). rewrite Ha, Hr in Hopen. set_solver.
Qed.

(** An admission is dialed with at most once, and a connection is only replaced by one
    of its generation or a later one: as long as the clock does not go back, no two dials
    are made under the same identifier and expiry, however many are forgotten in between. *)
Theorem admission_used_once dialer env helper pool drain transport m now w :
  New dialer env helper pool drain transport = Ok m -> rtc conn_step (start_connector m now) w ->
  NoDup (cn_accepted w) /\
  (forall a c, cn_op w = Dialing a -> cm_active (cn_manager w) = Some c -> ac_generation c <= ad_Generation a).
Proof.
  intros Hnew Hw. destruct (conn_reachable_ok _ _ _ _ _ _ _ _ _ Hnew Hw) as [_ _ Hgen _ Honce]. split; [done|].
  intros a c Ha Hc. rewrite Ha in Hgen. by apply Hgen.
Qed.
End Steps.

(** ** Admissions *)

Section Bound.
Context {HL : HostLibrary} {K : Type} `{KS : KeySource K} `{CR : Crypto} `{AJ : AdmissionJson}.

Lemma routes_from_spec ids proxies hosts l : routes_from ids proxies hosts l = true ->
  Forall (fun r => valid_route r = true) l /\ NoDup (rh_PublicHost <$> l) /\ Forall (fun r => rh_PublicHost r ∉ hosts) l.
Proof.
  revert ids proxies hosts. induction l as [|r l IH]; intros ids proxies hosts H; simpl in *; [by repeat constructor|].
  apply andb_true_iff in H as [[Hv Hn]%andb_true_iff H]. apply negb_true_iff, bool_decide_eq_false in Hn.
  destruct (IH _ _ _ H) as (H1&H2&H3). split_and!.
  - by constructor.
  - constructor; [|done]. intros Hin. apply list_elem_of_fmap in Hin as (x&Hx&Hxl). rewrite Forall_forall in H3. specialize (H3 x Hxl). set_solver.
  - constructor; [tauto|]. eapply Forall_impl; [exact H3|]. simpl. intros x Hx. set_solver.
Qed.

End Bound.


(** ** The race of the transports

    [done] are the candidates whose [Open] has returned. *)

Inductive race_step : race * gset nat -> race * gset nat -> Prop :=
| RaceEvent r done e : (forall i o, e <> RResult i o) -> race_step (r, done) (race_event_step e r, done)
| RaceResult r done i opened :
    (i < length (rc_candidates r))%nat -> i ∉ done -> race_step (r, done) (race_event_step (RResult i opened) r, {[ i ]} ∪ done).

Record race_ok (x : race * gset nat) : Prop := {
  rk_candidates : rc_candidates x.1 !! 0%nat <> Some (rc_second x.1) /\
    (length (rc_candidates x.1) = 1%nat \/ length (rc_candidates x.1) = 2%nat /\ rc_candidates x.1 !! 1%nat = Some (rc_second x.1));
  rk_racing : rc_phase x.1 = Racing -> rc_released x.1 = x.2 /\ rc_completed x.1 = size x.2 /\ (size x.2 < 2)%nat /\ x.2 ⊆ all_candidates x.1;
  rk_won : forall t, rc_phase x.1 = Won t -> exists i, rc_candidates x.1 !! i = Some t /\
    (rc_closed x.1 = false -> i ∉ rc_released x.1) /\ (forall j, j ∈ all_candidates x.1 -> j <> i -> j ∈ rc_released x.1);
  rk_lost : rc_phase x.1 = Lost -> rc_closed x.1 = false -> all_candidates x.1 ⊆ rc_released x.1
}.

Lemma in_candidates r j : j ∈ all_candidates r <-> (j < length (rc_candidates r))%nat.
Proof. unfold all_candidates. rewrite elem_of_set_seq. lia. Qed.

Lemma start_second_ok r done : race_ok (r, done) -> rc_phase r = Racing -> race_ok (start_second r, done).
Proof.
  intros [[Hne Hc] Hr Hw Hl] Hp. simpl in *. unfold start_second. case_decide as H1; [|by split].
  destruct (Hr Hp) as (A&B&C&D). split; simpl; [| |by rewrite Hp|by rewrite Hp].
  - rewrite lookup_app_l by lia. split; [done|]. right. rewrite length_app, lookup_app_r by lia. rewrite H1. done.
  - intros _. split_and!; try done. intros j Hj%D. rewrite in_candidates in *. simpl. rewrite length_app. lia.
Qed.

Lemma event_ok r done e : race_ok (r, done) -> (forall i o, e <> RResult i o) -> race_ok (race_event_step e r, done).
Proof.
  intros Hok Hne. unfold race_event_step. destruct (rc_phase r) as [|t|] eqn:Hp, e as [|i o| |]; try done; try (by destruct (Hne i o)).
  - by apply start_second_ok.
  - destruct Hok as [Hc Hr Hw Hl]. split; simpl in *; try done. intros _ _. unfold all_candidates. simpl. set_solver.
  - destruct Hok as [Hc Hr Hw Hl]. split; simpl in *; try done. by rewrite Hp in Hr.
  - destruct Hok as [Hc Hr Hw Hl]. destruct (Hw t Hp) as (i&H1&H2&H3).
    destruct (list_find _ _) as [[k y]|]; split; simpl in *; try done; intros t' [= <-]; exists i; split_and!; try done.
    intros j Hj Hji. apply elem_of_union. right. by apply H3.
  - destruct Hok as [Hc Hr Hw Hl]. by split.
Qed.

(** The last candidate fails, or the first one does and the second is started. *)
Lemma failed_ok r done i :
  race_ok (r, done) -> rc_phase r = Racing -> (i < length (rc_candidates r))%nat -> i ∉ done ->
  let r1 := start_second (release {[ i ]} (complete r)) in
  race_ok ((if decide (2 <= rc_completed r1)%nat then enter Lost r1 else r1), {[ i ]} ∪ done).
Proof.
  intros [[Hne Hc] Hr Hw Hl] Hp Hi Hd r1. simpl in *. destruct (Hr Hp) as (A&B&C&D).
  assert (Hsize : size ({[ i ]} ∪ done) = S (size done)) by (rewrite size_union by set_solver; rewrite size_singleton; lia).
  assert (Hcompleted : rc_completed r1 = S (size done)) by (unfold r1, start_second; case_decide; simpl; by rewrite B).
  case_decide as H2.
  - assert (H1 : size done = 1%nat) by lia. apply size_1_elem_of in H1 as [k Hk]. apply leibniz_equiv in Hk. rewrite Hk in *. clear Hk done.
    assert (Hkl : (k < length (rc_candidates r))%nat) by (apply in_candidates, D; set_solver).
    assert (Hlen : length (rc_candidates r) = 2%nat) by (destruct Hc as [Hc|[Hc _]]; [|done]; rewrite Hc in *; assert (i = k) by lia; set_solver).
    assert (Hr1 : r1 = release {[ i ]} (complete r)) by (unfold r1, start_second; simpl; by rewrite decide_False by lia).
    rewrite Hr1. split; simpl; try done. intros _ _ j Hj%in_candidates. simpl in Hj. rewrite A.
    assert (i <> k) by set_solver. destruct (decide (j = i)); [set_solver|]. assert (j = k) by lia. set_solver.
  - apply start_second_ok; [|done]. split; simpl; try done; [|by rewrite Hp|by rewrite Hp].
    intros _. rewrite Hsize. split_and!; [by rewrite A|lia|lia|]. intros j [->%elem_of_singleton|Hj]%elem_of_union; [by apply in_candidates|by apply D].
Qed.

Lemma race_step_ok x y : race_ok x -> race_step x y -> race_ok y.
Proof.
  intros Hok Hstep. destruct Hstep as [r done e Hne|r done i opened Hi Hd]; [by apply event_ok|].
  unfold race_event_step. destruct (rc_phase r) eqn:Hp; [|destruct Hok as [Hc Hr Hw Hl]; split; simpl in *; try done; by rewrite Hp in *..].
  destruct (lookup_lt_is_Some_2 _ _ Hi) as [t Ht]. rewrite Ht. destruct opened; [|by apply failed_ok].
  destruct Hok as [Hc Hr Hw Hl]. simpl in *. destruct (Hr Hp) as (A&B&C&D). destruct (rc_closed r) eqn:Hcl; split; simpl; try done; [congruence|].
  intros t' [= <-]. exists i. split_and!; [done| |].
  - intros _. rewrite A. set_solver.
  - intros j Hj Hji. apply elem_of_union. left. set_solver.
Qed.

(** At most one connector survives a race: when it is won, by the transport the winner has,
    every other one that was made is closed; when it is lost, all are, unless [Close] came in
    between. *)
Lemma race_single_winner preferred r done :
  rtc race_step (race_start preferred, ∅) (r, done) ->
  (forall t, rc_phase r = Won t -> exists i, rc_candidates r !! i = Some t /\ (rc_closed r = false -> i ∉ rc_released r) /\
     forall j, (j < length (rc_candidates r))%nat -> j <> i -> j ∈ rc_released r) /\
  (rc_phase r = Lost -> rc_closed r = false -> forall j, (j < length (rc_candidates r))%nat -> j ∈ rc_released r).
Proof.
  intros H. assert (Hok : race_ok (r, done)).
  { refine (rtc_invariant _ race_ok _ _ _ H _); [intros x y Hxy Hx; by apply (race_step_ok x)|].
    unfold race_start. destruct (race_order preferred) as [a b] eqn:E. unfold race_order in E. split; simpl; try done.
    - split; [|by left]. intros [= ->]. case_decide; congruence.
    - intros _. split_and!; [done|done|by apply Nat.ltb_lt|set_solver]. }
  destruct Hok as [_ _ Hw Hl]. split.
  - intros t Ht. destruct (Hw t Ht) as (i&H1&H2&H3). exists i. split_and!; try done. intros j Hj. by apply H3, in_candidates.
  - intros Hp Hc j Hj. by apply (Hl Hp Hc), in_candidates.
Qed.

(** [Close] during a race and the answer of one candidate at the same time: the other one is
    neither closed nor kept. *)
Example closed_race_forgets_candidate :
  let r := foldl (fun r e => race_event_step e r) (race_start None) [RTimer; RClose; RResult 0 true] in
  rc_phase r = Lost /\ rc_candidates r = [QUIC; TCPMux] /\ 1%nat ∉ rc_released r.
Proof. split_and!; [by vm_compute|by vm_compute|]. apply (bool_decide_eq_true_1 (1%nat ∉ _)). by vm_compute. Qed.

(** ** Backoff *)

(** After [n] failures in a row the delay is the initial one, doubled [n] times, up to the
    greatest. *)
Lemma backoffs_exact initial most before n :
  0 < initial -> initial <= most ->
  backoffs initial most (before ++ false :: replicate n true) = Z.min (initial * 2 ^ Z.of_nat n) most.
Proof.
  intros Hi Hm. unfold backoffs. rewrite foldl_app. simpl.
  assert (H : forall m b, 0 < b <= most -> foldl (fun b failed => backoff_after initial most failed b) b (replicate m true) = Z.min (b * 2 ^ Z.of_nat m) most).
  { induction m as [|m IH]; intros b Hb; [simpl; lia|]. rewrite Nat2Z.inj_succ, Z.pow_succ_r by lia. simpl. rewrite IH.
    - unfold backoff_after. assert (1 <= 2 ^ Z.of_nat m) by lia. case_decide; nia.
    - unfold backoff_after. case_decide; lia. }
  by apply H.
Qed.

(** ** Witnesses: one admission, its connection, its replacement *)

Definition demo_hosts : HostLibrary := {| net_ParseIP := fun _ => None; url_of_host := fun h => Some (h, "", "") |}.
Definition demo_endpoint : EdgeEndpoint := mkEndpoint "edge.example" 443 0 0.
Definition demo_route : RouteHandoff := mkRoute "r1" 1 "helper_https_wss" "h.example" "p1" "127.0.0.1" 8080.
Definition demo_ft_policy : FileTransferPolicy := mkFileTransferPolicy "rev" 1 1 1 1 1 1 1.
Definition demo_admission (jti : string) (generation : Z) : Admission :=
  mkAdmission "operation" jti "0123456789abcdef0123456789abcdef" "env" "h1" generation "pool" "node" demo_endpoint [demo_route] "1.0" (200 * second) demo_ft_policy.
Definition demo_manager : Manager := mkConnManager "env" "h1" "pool" Auto ∅ None ∅ false.
Definition demo_dialing : conn_world :=
  mkConnWorld (@accept_begin demo_hosts 5 (demo_admission "j1" 1) demo_manager).1 (Dialing (demo_admission "j1" 1)) 0 ∅ ∅ ∅ [("j1", 200 * second)] 5.
Definition demo_connected : conn_world :=
  mkConnWorld (accept_end (Some (0%nat, None)) false (demo_admission "j1" 1) (cn_manager demo_dialing)).1.1 Idle 1 (({[ 0%nat ]} ∪ ∅) ∖ closed_by [])
    ∅ ∅ [("j1", 200 * second)] 5.

Lemma demo_connected_reachable : rtc (@conn_step demo_hosts) (start_connector demo_manager 5) demo_connected.
Proof.
  apply (rtc_l _ _ demo_dialing); [|apply rtc_once].
  - apply (@KBegin demo_hosts demo_manager 0 ∅ ∅ ∅ [] 5 5 (demo_admission "j1" 1) (cn_manager demo_dialing) (Ok tt)); [lia|by vm_compute].
  - apply (@KDialed demo_hosts (cn_manager demo_dialing) 0 ∅ ∅ ∅ [("j1", 200 * second)] 5 (demo_admission "j1" 1) None false
             (cn_manager demo_connected) (Ok (1, Auto, false)) []). by vm_compute.
Qed.

Lemma connections_accounted_witness : ac_id <$> cm_active (cn_manager demo_connected) = Some 0%nat \/
  is_Some (cm_retired (cn_manager demo_connected) !! 0%nat) \/ exists ids, cn_op demo_connected = Draining ids /\ 0%nat ∈ ids.
Proof.
  apply (@connections_accounted demo_hosts true "env" "h1" "pool" 0 None demo_manager 5 demo_connected ltac:(by vm_compute) demo_connected_reachable).
  apply (bool_decide_eq_true_1 (0%nat ∈ cn_open demo_connected)). by vm_compute.
Defined.

Lemma admission_used_once_witness : NoDup [("j1", 200 * second)].
Proof.
  apply (@admission_used_once demo_hosts true "env" "h1" "pool" 0 None demo_manager 5 demo_connected ltac:(by vm_compute) demo_connected_reachable).
Defined.

Definition demo_connector_claims : Claims :=
  mkClaims "iss" "paperboat-edge" "u1" "j1" 100 200 ["connector:admit"] "connector_admission" "env" "u1" "" "h1" "" 0 "" "" "" "" "" 1 "pool" "node"
    (Some demo_ft_policy) "" None.
Definition demo_connector_crypto : Crypto := {|
  ed25519_Verify := @ed25519_Verify demo_crypto; auth_tokens := @auth_tokens demo_crypto; decode_header := @decode_header demo_crypto;
  decode_claims := fun _ => Some (demo_connector_claims, true)
|}.
Definition demo_admission_json : AdmissionJson := {|
  admission_tokens := fun _ => mkDecoder [TOpenObject; TCloseObject] JEOF;
  decode_admission := fun _ => Some (mkAdmissionResponse "operation" "env" "h1" 1 "pool" "node" demo_endpoint [demo_route] "1.0" [] demo_token demo_ft_policy, true)
|}.
Definition demo_admission_source : AdmissionSource := mkAdmissionSource "iss" "env" "h1" "pool" 65536.
Definition demo_admission_world : admission_world := mkAdmissionWorld (Some "operation") (Some "t") (Some [x01]) (Some (200, Some [x7b; x7d])).

