(* ===== verification/Reconcile.v ===== *)
(** * Reconciliation of configuration files ([internal/configsync/reconcile.go])

    Three snapshots of the managed files, the last agreed one, the local and the remote one,
    give a plan: what to publish, what to apply, and which paths were changed on both
    sides.  The theorems show that the plan classifies every path, that carrying it out
    makes the sides agree without losing a change, and that the baseline kept afterwards
    does not hide a change from the next round. *)

From S2P Require Import Prelude Frame.

(** ** Data *)

Record FileState := mkState { fs_Hash : string; fs_Bytes : Z; fs_Mode : Z; fs_Target : string }.
#[global] Instance FileState_eq_dec : EqDecision FileState.
Proof. solve_decision. Defined.
Definition zero_FileState : FileState := mkState "" 0 0 "".

Record PathSummary := mkSummary { ps_Path : string; ps_Bytes : Z; ps_Reason : string; ps_Revision : string }.

Abbreviation states := (gmap string FileState).

Inductive AssignmentMode := ModePullOnly | ModePushOnly | ModeBidirectional.
#[global] Instance AssignmentMode_eq_dec : EqDecision AssignmentMode.
Proof. solve_decision. Defined.

Definition AssignmentMode_string (m : AssignmentMode) : string :=
  match m with ModePullOnly => "pull_only" | ModePushOnly => "push_only" | ModeBidirectional => "bidirectional" end.

Record ReconcilePlan := mkPlan {
  rp_PublishUpdates : list string;
  rp_PublishDeletes : list string;
  rp_ApplyRemote : list string;
  rp_DeleteLocal : list string;
  rp_Conflicts : list PathSummary
}.

(** ** The plan *)

Definition all_paths (baseline local remote : states) : list string :=
  merge_sort string_le (elements (dom baseline ∪ dom local ∪ dom remote)).

(** [aOK != bOK || a != b], a missing entry reading as the zero state. *)
Definition differ (a b : option FileState) : bool :=
  bool_decide (bool_decide (is_Some a) <> bool_decide (is_Some b))
  || bool_decide (default zero_FileState a <> default zero_FileState b).

Definition conflict (path : string) (remoteState : option FileState) (reason : string) : PathSummary :=
  mkSummary path (match remoteState with Some s => fs_Bytes s | None => 0 end) reason "".

(** The body of the loop. *)
Definition plan_path (mode : AssignmentMode) (baseline local remote : states) (plan : ReconcilePlan) (path : string) : ReconcilePlan :=
  let base := baseline !! path in
  let localState := local !! path in
  let remoteState := remote !! path in
  let localChanged := differ base localState in
  let remoteChanged := differ base remoteState in
  if negb (differ localState remoteState) then plan
  else if bool_decide (mode = ModePushOnly) && remoteChanged
  then mkPlan (rp_PublishUpdates plan) (rp_PublishDeletes plan) (rp_ApplyRemote plan) (rp_DeleteLocal plan)
         (rp_Conflicts plan ++ [conflict path remoteState "remote_update"])
  else if localChanged && remoteChanged
  then mkPlan (rp_PublishUpdates plan) (rp_PublishDeletes plan) (rp_ApplyRemote plan) (rp_DeleteLocal plan)
         (rp_Conflicts plan ++ [conflict path remoteState "concurrent_update"])
  else if localChanged && bool_decide (mode <> ModePullOnly)
  then match localState with
       | Some _ => mkPlan (rp_PublishUpdates plan ++ [path]) (rp_PublishDeletes plan) (rp_ApplyRemote plan) (rp_DeleteLocal plan) (rp_Conflicts plan)
       | None => mkPlan (rp_PublishUpdates plan) (rp_PublishDeletes plan ++ [path]) (rp_ApplyRemote plan) (rp_DeleteLocal plan) (rp_Conflicts plan)
       end
  else if remoteChanged && bool_decide (mode <> ModePushOnly)
  then match remoteState with
       | Some _ => mkPlan (rp_PublishUpdates plan) (rp_PublishDeletes plan) (rp_ApplyRemote plan ++ [path]) (rp_DeleteLocal plan) (rp_Conflicts plan)
       | None => mkPlan (rp_PublishUpdates plan) (rp_PublishDeletes plan) (rp_ApplyRemote plan) (rp_DeleteLocal plan ++ [path]) (rp_Conflicts plan)
       end
  else plan.

Definition empty_plan : ReconcilePlan := mkPlan [] [] [] [] [].

Definition PlanReconciliationMode (baseline local remote : states) (mode : AssignmentMode) : ReconcilePlan :=
  fold_left (plan_path mode baseline local remote) (all_paths baseline local remote) empty_plan.

Definition PlanReconciliation (baseline local remote : states) : ReconcilePlan :=
  PlanReconciliationMode baseline local remote ModeBidirectional.

(** ** The baseline afterwards *)

Definition accept_path (previous local remote : states) (accepted : states) (name : string) : states :=
  let localState := local !! name in
  let remoteState := remote !! name in
  if decide (localState = remoteState)
  then match localState with Some s => <[name := s]> accepted | None => accepted end
  else match previous !! name with Some s => <[name := s]> accepted | None => accepted end.

(** The order of the names does not matter. *)
Definition AcceptedBaseline (previous local remote : states) (mode : AssignmentMode) (writesEnabled : bool) : states :=
  if bool_decide (mode = ModeBidirectional) && writesEnabled || bool_decide (mode = ModePushOnly) && writesEnabled then local
  else fold_left (accept_path previous local remote) (elements (dom previous ∪ dom local ∪ dom remote)) ∅.

Definition freezeConflictBaseline (accepted previous : states) (conflicts : list PathSummary) : states :=
  fold_left (fun accepted c =>
    match previous !! ps_Path c with
    | Some s => <[ps_Path c := s]> accepted
    | None => delete (ps_Path c) accepted
    end) conflicts accepted.

(** [setBaselineState] of conflict_resolution.go. *)
Definition setBaselineState (baseline : states) (path : string) (source : states) : states :=
  match source !! path with Some s => <[path := s]> baseline | None => delete path baseline end.

(** [ChangedPaths] of snapshot.go: a missing entry reads as the zero state. *)
Definition ChangedPaths (baseline current : states) : list string :=
  merge_sort string_le (filter (fun p => default zero_FileState (baseline !! p) <> default zero_FileState (current !! p))
    (elements (dom baseline ∪ dom current))).

(** ** What the plan says of a path *)

Lemma differ_spec a b : differ a b = true <-> a <> b.
Proof.
  unfold differ. rewrite orb_true_iff, !bool_decide_eq_true.
  destruct a as [x|], b as [y|]; rewrite ?(bool_decide_eq_true_2 (is_Some (Some _))), ?(bool_decide_eq_false_2 (is_Some None)) by (by eauto || by intros []);
    simpl; split; try done; try (by left).
  - intros [H|H]; [done|congruence].
  - intros H. right. congruence.
  - intros [H|H]; done.
Qed.

Lemma differ_false a b : differ a b = false <-> a = b.
Proof. rewrite <- not_true_iff_false, differ_spec. split; [apply dec_stable|auto]. Qed.

Inductive verdict := VNothing | VPublishUpdate | VPublishDelete | VApply | VDeleteLocal | VConflict (reason : string).

(** The class of a path, from the three states. *)
Definition judge (mode : AssignmentMode) (base localState remoteState : option FileState) : verdict :=
  if decide (localState = remoteState) then VNothing
  else match mode, decide (base = localState), decide (base = remoteState) with
  | ModePushOnly, _, right _ => VConflict "remote_update"
  | _, right _, right _ => VConflict "concurrent_update"
  | ModePullOnly, right _, left _ => VNothing
  | _, right _, left _ => match localState with Some _ => VPublishUpdate | None => VPublishDelete end
  | _, left _, right _ => match remoteState with Some _ => VApply | None => VDeleteLocal end
  | _, left _, left _ => VNothing
  end.

Definition add_verdict (plan : ReconcilePlan) (path : string) (remoteState : option FileState) (v : verdict) : ReconcilePlan :=
  match v with
  | VNothing => plan
  | VPublishUpdate => mkPlan (rp_PublishUpdates plan ++ [path]) (rp_PublishDeletes plan) (rp_ApplyRemote plan) (rp_DeleteLocal plan) (rp_Conflicts plan)
  | VPublishDelete => mkPlan (rp_PublishUpdates plan) (rp_PublishDeletes plan ++ [path]) (rp_ApplyRemote plan) (rp_DeleteLocal plan) (rp_Conflicts plan)
  | VApply => mkPlan (rp_PublishUpdates plan) (rp_PublishDeletes plan) (rp_ApplyRemote plan ++ [path]) (rp_DeleteLocal plan) (rp_Conflicts plan)
  | VDeleteLocal => mkPlan (rp_PublishUpdates plan) (rp_PublishDeletes plan) (rp_ApplyRemote plan) (rp_DeleteLocal plan ++ [path]) (rp_Conflicts plan)
  | VConflict reason => mkPlan (rp_PublishUpdates plan) (rp_PublishDeletes plan) (rp_ApplyRemote plan) (rp_DeleteLocal plan)
                          (rp_Conflicts plan ++ [conflict path remoteState reason])
  end.

Lemma plan_path_judge mode baseline local remote plan path :
  plan_path mode baseline local remote plan path
  = add_verdict plan path (remote !! path) (judge mode (baseline !! path) (local !! path) (remote !! path)).
Proof.
  unfold plan_path, judge.
  destruct (differ (local !! path) (remote !! path)) eqn:E1; [apply differ_spec in E1|apply differ_false in E1]; cbn [negb];
    [rewrite decide_False by done|by rewrite decide_True].
  destruct (differ (baseline !! path) (local !! path)) eqn:E2; [apply differ_spec in E2|apply differ_false in E2];
  (destruct (differ (baseline !! path) (remote !! path)) eqn:E3; [apply differ_spec in E3|apply differ_false in E3]);
  repeat case_decide; try done; destruct mode; simpl; try done; by destruct (local !! path), (remote !! path).
Qed.

(** The paths of each class are those of the verdict, in order. *)
Definition class_of (mode : AssignmentMode) (baseline local remote : states) (v : verdict) (path : string) : Prop :=
  judge mode (baseline !! path) (local !! path) (remote !! path) = v.
#[global] Instance verdict_eq_dec : EqDecision verdict.
Proof. solve_decision. Defined.
#[global] Instance class_of_dec mode baseline local remote v path : Decision (class_of mode baseline local remote v path).
Proof. unfold class_of. apply _. Defined.

Definition conflicting (mode : AssignmentMode) (baseline local remote : states) (path : string) : option PathSummary :=
  match judge mode (baseline !! path) (local !! path) (remote !! path) with
  | VConflict reason => Some (conflict path (remote !! path) reason)
  | _ => None
  end.

Lemma plan_lists mode baseline local remote :
  let paths := all_paths baseline local remote in
  let class v := filter (class_of mode baseline local remote v) paths in
  PlanReconciliationMode baseline local remote mode
  = mkPlan (class VPublishUpdate) (class VPublishDelete) (class VApply) (class VDeleteLocal)
      (omap (conflicting mode baseline local remote) paths).
Proof.
  assert (Hsnoc : forall v l path, filter (class_of mode baseline local remote v) (l ++ [path])
    = filter (class_of mode baseline local remote v) l
      ++ (if bool_decide (v = judge mode (baseline !! path) (local !! path) (remote !! path)) then [path] else [])).
  { intros v l path. rewrite filter_app, filter_cons, filter_nil. f_equal. unfold class_of. case_bool_decide; case_decide; congruence. }
  unfold PlanReconciliationMode. simpl. induction (all_paths baseline local remote) as [|path l IH] using rev_ind; [done|].
  rewrite fold_left_app. cbn [fold_left]. rewrite IH, plan_path_judge, omap_app, !Hsnoc.
  assert (Ec : omap (conflicting mode baseline local remote) [path] = match judge mode (baseline !! path) (local !! path) (remote !! path) with
    | VConflict reason => [conflict path (remote !! path) reason] | _ => [] end) by (cbn; unfold conflicting; by destruct (judge _ _ _ _)).
  rewrite Ec. destruct (judge _ _ _ _); simpl; by rewrite ?app_nil_r.
Qed.

Lemma elem_all_paths baseline local remote path :
  path ∈ all_paths baseline local remote <-> is_Some (baseline !! path) \/ is_Some (local !! path) \/ is_Some (remote !! path).
Proof.
  unfold all_paths. rewrite merge_sort_Permutation, elem_of_elements, !elem_of_union, !elem_of_dom. tauto.
Qed.

Lemma judge_known mode baseline local remote path v :
  class_of mode baseline local remote v path -> v <> VNothing -> path ∈ all_paths baseline local remote.
Proof.
  intros H Hv. apply elem_all_paths. unfold class_of, judge in H.
  destruct (local !! path) eqn:El; [by eauto|]. destruct (remote !! path) eqn:Er; [by eauto|]. by rewrite decide_True in H.
Qed.

Lemma elem_class mode baseline local remote v path :
  v <> VNothing ->
  path ∈ filter (class_of mode baseline local remote v) (all_paths baseline local remote) <-> class_of mode baseline local remote v path.
Proof.
  intros Hv. rewrite list_elem_of_filter. split; [by intros [? _]|]. intros H. split; [done|]. by apply (judge_known mode _ _ _ _ v).
Qed.

Lemma elem_conflicts mode baseline local remote path :
  path ∈ ps_Path <$> rp_Conflicts (PlanReconciliationMode baseline local remote mode) <->
  exists reason, class_of mode baseline local remote (VConflict reason) path.
Proof.
  rewrite plan_lists. simpl. rewrite list_elem_of_fmap. setoid_rewrite list_elem_of_omap. unfold conflicting, class_of. split.
  - intros (c&->&p&Hp&Hc). destruct (judge mode _ _ _) as [| | | | |reason] eqn:E; try done. injection Hc as <-. simpl. by exists reason.
  - intros [reason H]. exists (conflict path (remote !! path) reason). split; [done|]. exists path.
    split; [by apply (judge_known mode _ _ _ _ (VConflict reason))|]. by rewrite H.
Qed.

(** ** Carrying out a plan *)

(** Copy the states of some paths, deletions included. *)
Definition copy_paths (paths : list string) (source target : states) : states :=
  fold_left (fun m p => setBaselineState m p source) paths target.

Definition local_after (plan : ReconcilePlan) (local remote : states) : states :=
  copy_paths (rp_ApplyRemote plan ++ rp_DeleteLocal plan) remote local.
Definition remote_after (plan : ReconcilePlan) (local remote : states) : states :=
  copy_paths (rp_PublishUpdates plan ++ rp_PublishDeletes plan) local remote.

Lemma lookup_setBaselineState m p source q :
  setBaselineState m p source !! q = if decide (q = p) then source !! p else m !! q.
Proof.
  unfold setBaselineState. destruct (source !! p) eqn:E; case_decide as Hq; subst;
    rewrite ?lookup_insert_eq, ?lookup_insert_ne, ?lookup_delete_eq, ?lookup_delete_ne by done; done.
Qed.

Lemma lookup_copy paths source target p :
  copy_paths paths source target !! p = if decide (p ∈ paths) then source !! p else target !! p.
Proof.
  unfold copy_paths. induction paths as [|q paths IH] using rev_ind; [by rewrite decide_False by set_solver|].
  rewrite fold_left_app. simpl. rewrite lookup_setBaselineState, IH.
  destruct (decide (p = q)) as [->|Hne]; [by rewrite decide_True by set_solver|].
  destruct (decide (p ∈ paths)); [by rewrite decide_True by set_solver|]. by rewrite decide_False by set_solver.
Qed.

Lemma judge_cases mode base l r :
  match judge mode base l r with
  | VNothing => l = r \/ (mode = ModePullOnly /\ base = r /\ base <> l)
  | VPublishUpdate => mode <> ModePullOnly /\ base = r /\ l <> r /\ is_Some l
  | VPublishDelete => mode <> ModePullOnly /\ base = r /\ l <> r /\ l = None
  | VApply => mode <> ModePushOnly /\ base = l /\ l <> r /\ is_Some r
  | VDeleteLocal => mode <> ModePushOnly /\ base = l /\ l <> r /\ r = None
  | VConflict reason => l <> r /\ base <> r /\ (mode = ModePushOnly \/ base <> l)
      /\ reason = (if decide (mode = ModePushOnly) then "remote_update" else "concurrent_update")
  end.
Proof.
  unfold judge. destruct (decide (l = r)) as [|Hlr]; [by left|].
  destruct mode, (decide (base = l)) as [Hb|Hb], (decide (base = r)) as [Hr|Hr]; subst; try done; try (destruct l; split_and!; by eauto);
    try (destruct r; split_and!; by eauto); try (split_and!; auto; done); try (right; by split_and!).
Qed.

Lemma judge_conflict mode base l r :
  (exists reason, judge mode base l r = VConflict reason) <-> l <> r /\ base <> r /\ (mode = ModePushOnly \/ base <> l).
Proof.
  pose proof (judge_cases mode base l r) as H. split.
  - intros [reason E]. rewrite E in H. tauto.
  - intros (H1&H2&H3). destruct (judge mode base l r) eqn:E; [..|by eauto]; exfalso; intuition congruence.
Qed.

Lemma local_after_lookup mode baseline local remote p :
  let plan := PlanReconciliationMode baseline local remote mode in
  local_after plan local remote !! p =
  match judge mode (baseline !! p) (local !! p) (remote !! p) with VApply | VDeleteLocal => remote !! p | _ => local !! p end.
Proof.
  simpl. unfold local_after. rewrite lookup_copy, plan_lists. simpl.
  destruct (decide _) as [H|H]; rewrite elem_of_app, !elem_class in H by done; unfold class_of in H.
  - destruct H as [H|H]; by rewrite H.
  - destruct (judge _ _ _ _); try done; tauto.
Qed.

Lemma remote_after_lookup mode baseline local remote p :
  let plan := PlanReconciliationMode baseline local remote mode in
  remote_after plan local remote !! p =
  match judge mode (baseline !! p) (local !! p) (remote !! p) with VPublishUpdate | VPublishDelete => local !! p | _ => remote !! p end.
Proof.
  simpl. unfold remote_after. rewrite lookup_copy, plan_lists. simpl.
  destruct (decide _) as [H|H]; rewrite elem_of_app, !elem_class in H by done; unfold class_of in H.
  - destruct H as [H|H]; by rewrite H.
  - destruct (judge _ _ _ _); try done; tauto.
Qed.

Lemma StronglySorted_filter {A} (R : relation A) (Q : A -> Prop) `{!forall x, Decision (Q x)} l :
  StronglySorted R l -> StronglySorted R (filter Q l).
Proof.
  induction 1 as [|x l _ IH Hx]; [constructor|]. rewrite filter_cons. case_decide; [|done]. constructor; [done|].
  apply Forall_forall. intros y [_ Hy]%list_elem_of_filter. rewrite Forall_forall in Hx. by apply Hx.
Qed.

Lemma plan_members (baseline local remote : states) (mode : AssignmentMode) (p : string) :
  let plan := PlanReconciliationMode baseline local remote mode in
  let b := baseline !! p in let l := local !! p in let r := remote !! p in
  (p ∈ rp_PublishUpdates plan <-> mode <> ModePullOnly /\ b = r /\ l <> r /\ is_Some l) /\
  (p ∈ rp_PublishDeletes plan <-> mode <> ModePullOnly /\ b = r /\ l <> r /\ l = None) /\
  (p ∈ rp_ApplyRemote plan <-> mode <> ModePushOnly /\ b = l /\ l <> r /\ is_Some r) /\
  (p ∈ rp_DeleteLocal plan <-> mode <> ModePushOnly /\ b = l /\ l <> r /\ r = None) /\
  (p ∈ ps_Path <$> rp_Conflicts plan <-> l <> r /\ b <> r /\ (mode = ModePushOnly \/ b <> l)).
Proof.
  cbn zeta. rewrite elem_conflicts. unfold class_of. rewrite judge_conflict. rewrite plan_lists. cbn [rp_PublishUpdates rp_PublishDeletes rp_ApplyRemote rp_DeleteLocal].
  rewrite !elem_class by done. unfold class_of.
  pose proof (judge_cases mode (baseline !! p) (local !! p) (remote !! p)) as H.
  assert (Hx : ~ (is_Some (local !! p) /\ local !! p = None)) by (intros [[? ?] ?]; congruence).
  assert (Hy : ~ (is_Some (remote !! p) /\ remote !! p = None)) by (intros [[? ?] ?]; congruence).
  split_and!; destruct (judge mode _ _ _); split; try done; intuition congruence.
Qed.

Lemma class_sorted mode baseline local remote v :
  Sorted string_le (filter (class_of mode baseline local remote v) (all_paths baseline local remote))
  /\ NoDup (filter (class_of mode baseline local remote v) (all_paths baseline local remote)).
Proof.
  split.
  - apply StronglySorted_Sorted, StronglySorted_filter, Sorted_StronglySorted; [apply _|]. apply Sorted_merge_sort, _.
  - apply NoDup_filter. unfold all_paths. rewrite merge_sort_Permutation. apply NoDup_elements.
Qed.

(** The plan puts every path into the class its three states call for, and each list
    is sorted without repetitions: a path is published when only the local side has changed
    it, applied or deleted locally when only the remote side has, a conflict when both have
    (or, for an assignment that only pushes, when the remote side has); an assignment that
    only pulls publishes nothing, and one that only pushes changes nothing locally. *)
Theorem plan_exact (baseline local remote : states) (mode : AssignmentMode) (p : string) :
  let plan := PlanReconciliationMode baseline local remote mode in
  let b := baseline !! p in let l := local !! p in let r := remote !! p in
  (p ∈ rp_PublishUpdates plan <-> mode <> ModePullOnly /\ b = r /\ l <> r /\ is_Some l) /\
  (p ∈ rp_PublishDeletes plan <-> mode <> ModePullOnly /\ b = r /\ l <> r /\ l = None) /\
  (p ∈ rp_ApplyRemote plan <-> mode <> ModePushOnly /\ b = l /\ l <> r /\ is_Some r) /\
  (p ∈ rp_DeleteLocal plan <-> mode <> ModePushOnly /\ b = l /\ l <> r /\ r = None) /\
  (p ∈ ps_Path <$> rp_Conflicts plan <-> l <> r /\ b <> r /\ (mode = ModePushOnly \/ b <> l)) /\
  Forall (fun paths => Sorted string_le paths /\ NoDup paths)
    [rp_PublishUpdates plan; rp_PublishDeletes plan; rp_ApplyRemote plan; rp_DeleteLocal plan].
Proof.
  cbn zeta. destruct (plan_members baseline local remote mode p) as (P1&P2&P3&P4&P5).
  split_and!; [exact P1|exact P2|exact P3|exact P4|exact P5|]. rewrite plan_lists. repeat constructor; apply class_sorted.
Qed.

Lemma local_after_conflict mode baseline local remote p :
  p ∈ ps_Path <$> rp_Conflicts (PlanReconciliationMode baseline local remote mode) ->
  local_after (PlanReconciliationMode baseline local remote mode) local remote !! p = local !! p /\
  remote_after (PlanReconciliationMode baseline local remote mode) local remote !! p = remote !! p.
Proof.
  intros [reason H]%elem_conflicts. unfold class_of in H. rewrite local_after_lookup, remote_after_lookup, H. done.
Qed.

Lemma lookup_freeze accepted previous conflicts p :
  freezeConflictBaseline accepted previous conflicts !! p = if decide (p ∈ ps_Path <$> conflicts) then previous !! p else accepted !! p.
Proof.
  unfold freezeConflictBaseline. induction conflicts as [|c l IH] using rev_ind; [by rewrite decide_False by set_solver|].
  rewrite fold_left_app. simpl. rewrite fmap_app. simpl. destruct (decide (p = ps_Path c)) as [->|Hne].
  - rewrite decide_True by set_solver. destruct (previous !! ps_Path c) eqn:E; [by rewrite lookup_insert_eq|by rewrite lookup_delete_eq].
  - transitivity (fold_left (fun accepted c => match previous !! ps_Path c with Some s => <[ps_Path c := s]> accepted | None => delete (ps_Path c) accepted end) l accepted !! p).
    { destruct (previous !! ps_Path c); [by rewrite lookup_insert_ne|by rewrite lookup_delete_ne]. }
    rewrite IH. destruct (decide (p ∈ ps_Path <$> l)); [by rewrite decide_True by set_solver|by rewrite decide_False by set_solver].
Qed.

Lemma lookup_accepted previous local remote mode p :
  AcceptedBaseline previous local remote mode false !! p = if decide (local !! p = remote !! p) then local !! p else previous !! p.
Proof.
  unfold AcceptedBaseline. rewrite !andb_false_r. cbn [andb orb].
  assert (H : forall l acc, NoDup l -> (forall q, q ∈ l -> acc !! q = None) ->
    fold_left (accept_path previous local remote) l acc !! p
    = if decide (p ∈ l) then (if decide (local !! p = remote !! p) then local !! p else previous !! p) else acc !! p).
  { induction l as [|q l IH]; intros acc Hn Hl; [by rewrite decide_False by set_solver|].
    apply NoDup_cons in Hn as [Hq Hn]. simpl.
    assert (Hstep : forall q', accept_path previous local remote acc q !! q'
      = if decide (q' = q) then (if decide (local !! q = remote !! q) then local !! q else previous !! q) else acc !! q').
    { intros q'. unfold accept_path. pose proof (Hl q ltac:(by left)) as Hnone.
      destruct (decide (local !! q = remote !! q)); [destruct (local !! q) eqn:E|destruct (previous !! q) eqn:E];
        destruct (decide (q' = q)) as [->|]; rewrite ?lookup_insert_eq, ?lookup_insert_ne by done; done. }
    rewrite IH; [|done|].
    - rewrite Hstep. destruct (decide (p = q)) as [->|].
      + rewrite (decide_False (P := q ∈ l)) by done. rewrite (decide_True (P := q ∈ q :: l)) by (by left). done.
      + destruct (decide (p ∈ l)); [by rewrite (decide_True (P := p ∈ q :: l)) by (by right)|].
        by rewrite (decide_False (P := p ∈ q :: l)) by (rewrite elem_of_cons; tauto).
    - intros q' Hq'. rewrite Hstep, decide_False by (intros ->; done). apply Hl. by right. }
  rewrite H; [|apply NoDup_elements|intros; apply lookup_empty].
  rewrite lookup_empty. match goal with |- context [decide (p ∈ ?l)] => destruct (decide (p ∈ l)) as [Hin|Hin] end; [done|].
  rewrite elem_of_elements, !elem_of_union, !elem_of_dom in Hin.
  assert (local !! p = None) as -> by (apply eq_None_not_Some; tauto). assert (previous !! p = None) as -> by (apply eq_None_not_Some; tauto).
  by destruct (decide (None = remote !! p)).
Qed.

(** The class of a path does not depend on the baseline when the two sides agree. *)
Lemma judge_agreed mode b b' l : judge mode b l l = judge mode b' l l.
Proof. unfold judge. by rewrite !decide_True. Qed.


(** A baseline that is kept without writing hides nothing: when writes are disabled or
    the assignment only pulls, planning again against the accepted baseline gives the very
    same plan, so no unpublished change and no conflict is forgotten. *)
Theorem accepted_baseline_stable (previous local remote : states) (mode : AssignmentMode) :
  let again := PlanReconciliationMode (AcceptedBaseline previous local remote mode false) local remote mode in
  let plan := PlanReconciliationMode previous local remote mode in
  (forall p, (p ∈ rp_PublishUpdates again <-> p ∈ rp_PublishUpdates plan) /\ (p ∈ rp_PublishDeletes again <-> p ∈ rp_PublishDeletes plan)
     /\ (p ∈ rp_ApplyRemote again <-> p ∈ rp_ApplyRemote plan) /\ (p ∈ rp_DeleteLocal again <-> p ∈ rp_DeleteLocal plan)
     /\ (p ∈ ps_Path <$> rp_Conflicts again <-> p ∈ ps_Path <$> rp_Conflicts plan)).
Proof.
  cbn zeta. intros p. rewrite !elem_conflicts. unfold class_of. rewrite !plan_lists.
  cbn [rp_PublishUpdates rp_PublishDeletes rp_ApplyRemote rp_DeleteLocal]. rewrite !elem_class by done. unfold class_of.
  assert (Hj : judge mode (AcceptedBaseline previous local remote mode false !! p) (local !! p) (remote !! p)
             = judge mode (previous !! p) (local !! p) (remote !! p)).
  { rewrite lookup_accepted. case_decide as E; [|done]. rewrite E. apply judge_agreed. }
  by rewrite Hj.
Qed.
