(* ===== verification/Runtime.v ===== *)
(** * The runtime of the helper ([internal/runtime/runtime.go], [internal/health/health.go])

    [Runtime] starts a list of components in order and shuts them down in the opposite
    order; a component that is not required may fail to start.  [Registry] keeps what is
    told about the health of each capability.  The services are outside: a call of one is
    answered by a function of the calls made so far, so a service may answer as it likes,
    and the calls with their answers are kept in the log of the state.

    [opMu] makes [Start] and [Shutdown] exclude each other, except that [Shutdown] clears
    [live] before it waits for the lock: this is a step of its own ([Shutdown_enter]). *)

From S2P Require Import Prelude.

(** ** Health *)

Inductive HealthState := Ready | Degraded | Unavailable.
#[global] Instance HealthState_eq_dec : EqDecision HealthState.
Proof. solve_decision. Defined.

Record HealthCapability := mkHealth { hc_State : HealthState; hc_Reason : string; hc_RetryAfterMs : Z }.
#[global] Instance HealthCapability_eq_dec : EqDecision HealthCapability.
Proof. solve_decision. Defined.

Record Registry := mkRegistry { rg_version : string; rg_states : gmap string HealthCapability; rg_live : bool }.

Record Snapshot := mkSnapshot {
  sn_Live : bool; sn_Version : string; sn_Capabilities : gmap string HealthCapability; sn_CheckedAt : time
}.

Definition health_New (version : string) (capabilities : list string) : Registry :=
  mkRegistry version
    (foldl (fun m c => <[c := mkHealth Unavailable "starting" 0]> m) ∅ capabilities) true.

Definition SetLive (r : Registry) (live : bool) : Registry := mkRegistry (rg_version r) (rg_states r) live.

Definition millisecond : Z := 1000000.

Definition Set_ (r : Registry) (capability : string) (state : HealthState) (reason : string) (retryAfter : Z) : Registry :=
  let c := mkHealth state reason (if decide (retryAfter > 0) then Z.quot retryAfter millisecond else 0) in
  mkRegistry (rg_version r) (<[capability := c]> (rg_states r)) (rg_live r).

Definition health_Snapshot (r : Registry) (now : time) : Snapshot :=
  mkSnapshot (rg_live r) (rg_version r) (rg_states r) now.

(** ** Components and the runtime *)

(** A service is named by a number; [None] is a nil service. *)
Record Component := mkComponent { Capability : string; Required : bool; Service : option nat }.
#[global] Instance Component_eq_dec : EqDecision Component.
Proof. solve_decision. Defined.

Record Config := mkConfig { cfg_Version : string; cfg_Components : list Component; cfg_ShutdownTimeout : Z }.

Inductive State := New | Starting | Running | Stopping | Stopped | Failed.
#[global] Instance State_eq_dec : EqDecision State.
Proof. solve_decision. Defined.

(** Errors of services are opaque; [errors.Join] is the list of what it joins, without the
    nil errors, so that the empty list is nil. *)
Abbreviation service_error := string (only parsing).

Inductive runtime_error :=
| ErrInvalidConfiguration
| ErrInvalidState
| ErrStart (capability : string) (e : service_error)
| ErrCleanup (capability : string) (e : service_error)
| ErrRollback (capability : string) (e : service_error)
| ErrShutdown (capability : string) (e : service_error).
#[global] Instance runtime_error_eq_dec : EqDecision runtime_error.
Proof. solve_decision. Defined.

(** A call of a service, by the capability of its component. *)
Inductive call := CallStart (capability : string) | CallShutdown (capability : string).
#[global] Instance call_eq_dec : EqDecision call.
Proof. solve_decision. Defined.

Abbreviation answered := (call * option service_error)%type (only parsing).

Record Runtime := mkRuntime {
  config : Config;
  state : State;
  started : list Component;
  health : Registry;
  log : list answered
}.

Definition with_state (s : State) (r : Runtime) : Runtime := mkRuntime (config r) s (started r) (health r) (log r).
Definition with_started (l : list Component) (r : Runtime) : Runtime := mkRuntime (config r) (state r) l (health r) (log r).
Definition with_health (h : Registry) (r : Runtime) : Runtime := mkRuntime (config r) (state r) (started r) h (log r).
Definition with_log (l : list answered) (r : Runtime) : Runtime := mkRuntime (config r) (state r) (started r) (health r) l.

Definition second : Z := 1000000000.

(** The loop over the components of [NewRuntime], with the set [seen]. *)
Fixpoint check_components (seen : gset string) (l : list Component) : option (list string) :=
  match l with
  | [] => Some []
  | component :: l' =>
      if decide (Capability component = "" \/ Service component = None \/ Capability component ∈ seen) then None
      else cons (Capability component) <$> check_components ({[Capability component]} ∪ seen) l'
  end.

Definition with_timeout (c : Config) : Config :=
  if decide (cfg_ShutdownTimeout c = 0) then mkConfig (cfg_Version c) (cfg_Components c) (30 * second) else c.

Definition NewRuntime (c : Config) : result runtime_error Runtime :=
  if decide (cfg_Version c = "" \/ cfg_Components c = []) then Err ErrInvalidConfiguration
  else
    let c := with_timeout c in
    if decide (cfg_ShutdownTimeout c <= 0) then Err ErrInvalidConfiguration
    else
      match check_components ∅ (cfg_Components c) with
      | None => Err ErrInvalidConfiguration
      | Some capabilities => Ok (mkRuntime c New [] (health_New (cfg_Version c) capabilities) [])
      end.

Section Operations.

(** What a service answers to the next call, after the calls made so far. *)
Variable answers : list answered -> call -> option service_error.

Definition invoke (c : call) (r : Runtime) : option service_error * Runtime :=
  let a := answers (log r) c in (a, with_log (log r ++ [(c, a)]) r).

Definition report (component : Component) (s : HealthState) (reason : string) (r : Runtime) : Runtime :=
  with_health (Set_ (health r) (Capability component) s reason 0) r.

(** The loop of [Shutdown] and [rollback] from the last started component to the first;
    they differ in the error and in the reason they give. *)
Fixpoint stop_loop (wrap : string -> service_error -> runtime_error) (reason : string)
    (l : list Component) (r : Runtime) : list runtime_error * Runtime :=
  match l with
  | [] => ([], r)
  | component :: l' =>
      match invoke (CallShutdown (Capability component)) r with
      | (Some e, r) =>
          let r := report component Degraded reason r in
          let (errs, r) := stop_loop wrap reason l' r in
          (wrap (Capability component) e :: errs, r)
      | (None, r) => stop_loop wrap reason l' (report component Unavailable "stopped" r)
      end
  end.

Definition rollback (r : Runtime) : list runtime_error * Runtime :=
  let (errs, r) := stop_loop ErrRollback "rollback_failed" (rev (started r)) r in
  (errs, with_started [] r).

Definition cleanupFailed (component : Component) (r : Runtime) : list runtime_error * Runtime :=
  match invoke (CallShutdown (Capability component)) r with
  | (Some e, r) => ([ErrCleanup (Capability component) e], r)
  | (None, r) => ([], r)
  end.

Fixpoint start_loop (l : list Component) (r : Runtime) : list runtime_error * Runtime :=
  match l with
  | [] => ([], with_state Running r)
  | component :: l' =>
      match invoke (CallStart (Capability component)) r with
      | (Some e, r) =>
          let (cleanupErr, r) := cleanupFailed component r in
          if negb (Required component) then
            start_loop l' (report component Unavailable "start_failed" r)
          else
            let r := report component Unavailable "start_failed" r in
            let (rollbackErr, r) := rollback r in
            let r := with_state Failed r in
            let r := with_health (SetLive (health r) false) r in
            (ErrStart (Capability component) e :: cleanupErr ++ rollbackErr, r)
      | (None, r) =>
          let r := with_started (started r ++ [component]) r in
          start_loop l' (report component Ready "" r)
      end
  end.

Definition Start (r : Runtime) : list runtime_error * Runtime :=
  if decide (state r <> New) then ([ErrInvalidState], r)
  else start_loop (cfg_Components (config r)) (with_state Starting r).

Definition Shutdown_enter (r : Runtime) : Runtime := with_health (SetLive (health r) false) r.

Definition Shutdown_locked (r : Runtime) : list runtime_error * Runtime :=
  if decide (state r = Stopped) then ([], r)
  else if decide (state r <> Running /\ state r <> Failed) then ([ErrInvalidState], r)
  else
    let r := with_state Stopping r in
    let (errs, r) := stop_loop ErrShutdown "shutdown_failed" (rev (started r)) r in
    (errs, with_state Stopped (with_started [] r)).

Definition Health (r : Runtime) (now : time) : Snapshot := health_Snapshot (health r) now.

(** ** Runs: any order of calls by any goroutines

    The number counts the goroutines in [Shutdown] that wait for the lock. *)

Inductive op := OpStart | OpShutdownEnter | OpShutdown.

Definition run_op (w : nat * Runtime) (o : op) : nat * Runtime :=
  match o, w with
  | OpStart, (n, r) => (n, snd (Start r))
  | OpShutdownEnter, (n, r) => (S n, Shutdown_enter r)
  | OpShutdown, (S n, r) => (n, snd (Shutdown_locked r))
  | OpShutdown, (O, r) => (O, r)
  end.

Definition run (ops : list op) (r : Runtime) : nat * Runtime := foldl run_op (O, r) ops.

End Operations.

(** ** What the log of calls says *)

(** The calls of a log read as brackets: [CallStart] opens, [CallShutdown] closes the one
    that was opened last; [None] when this is not so. *)
Definition bracket (stack : option (list string)) (c : call) : option (list string) :=
  match c, stack with
  | CallStart x, Some st => Some (x :: st)
  | CallShutdown x, Some (y :: st) => if decide (x = y) then Some st else None
  | _, _ => None
  end.
Definition open_calls (l : list answered) : option (list string) := foldl bracket (Some []) l.*1.

Definition starts (l : list answered) : list string :=
  omap (fun a => match a.1 with CallStart x => Some x | CallShutdown _ => None end) l.
Definition succeeded (l : list answered) : list string :=
  omap (fun a => match a with (CallStart x, None) => Some x | _ => None end) l.

Definition capabilities (l : list Component) : list string := Capability <$> l.
Definition told (r : Runtime) (x : string) : option HealthCapability := rg_states (health r) !! x.
Definition not_ready (r : Runtime) (x : string) : Prop :=
  forall h, told r x = Some h -> hc_State h <> Ready.

Lemma open_calls_snoc l a : open_calls (l ++ [a]) = bracket (open_calls l) a.1.
Proof. unfold open_calls. by rewrite fmap_app, foldl_app. Qed.

Lemma log_starts_snoc l a :
  starts (l ++ [a]) = starts l ++ match a.1 with CallStart x => [x] | CallShutdown _ => [] end.
Proof. unfold starts. rewrite omap_app. simpl. by destruct a as [[?|?] ?]. Qed.

Lemma succeeded_snoc l a :
  succeeded (l ++ [a]) = succeeded l ++ match a with (CallStart x, None) => [x] | _ => [] end.
Proof. unfold succeeded. rewrite omap_app. simpl. by destruct a as [[?|?] [?|]]. Qed.

Lemma told_report component s reason r x :
  told (report component s reason r) x =
  if decide (Capability component = x) then Some (mkHealth s reason 0) else told r x.
Proof.
  unfold told, report, Set_. simpl.
  by destruct (decide (Capability component = x)) as [<-|Hne]; [rewrite lookup_insert_eq|rewrite lookup_insert_ne].
Qed.

(** A loop of shutdowns closes exactly the components it is given, calls no start, and
    leaves everything else of the state as it is. *)
Lemma stop_loop_spec answers wrap reason l r errs r' rest :
  stop_loop answers wrap reason l r = (errs, r') ->
  open_calls (log r) = Some (capabilities l ++ rest) ->
  open_calls (log r') = Some rest /\ starts (log r') = starts (log r) /\
  succeeded (log r') = succeeded (log r) /\
  config r' = config r /\ state r' = state r /\ started r' = started r /\
  rg_live (health r') = rg_live (health r) /\
  (forall x, x ∈ capabilities l -> not_ready r' x) /\
  (forall x, x ∉ capabilities l -> told r' x = told r x) /\
  dom (rg_states (health r')) = list_to_set (capabilities l) ∪ dom (rg_states (health r)).
Proof.
  revert r errs r'. induction l as [|c l IH]; intros r errs r' Hloop Hopen.
  - simpl in Hloop. injection Hloop as <- <-. simpl in *.
    repeat split; try done; [set_solver|by rewrite union_empty_l_L].
  - simpl in Hloop. unfold invoke in Hloop. simpl in Hloop.
    set (a := answers (log r) (CallShutdown (Capability c))) in *.
    assert (exists s why r1, s <> Ready /\ r1 = report c s why (with_log (log r ++ [(CallShutdown (Capability c), a)]) r) /\
      exists errs', stop_loop answers wrap reason l r1 = (errs', r')) as (s & why & r1 & Hs & -> & errs' & H1).
    { destruct a as [e|].
      - destruct (stop_loop _ _ _ l _) as [errs1 r1] eqn:E. injection Hloop as _ <-.
        exists Degraded, reason. eexists. split; [done|]. split; [done|]. by exists errs1.
      - exists Unavailable, "stopped"%string. eexists. split; [done|]. split; [done|]. by exists errs. }
    clear Hloop. apply IH in H1.
    2:{ simpl. rewrite open_calls_snoc, Hopen. simpl. by rewrite decide_True. }
    destruct H1 as (? & Hst & Hsu & ? & ? & ? & ? & Hin & Hout & Hdom). simpl in *.
    rewrite log_starts_snoc in Hst. rewrite succeeded_snoc in Hsu. simpl in Hst, Hsu. rewrite app_nil_r in Hst, Hsu.
    do 7 (split; [done|]). split; [|split].
    + intros x Hx. destruct (decide (x ∈ capabilities l)) as [|Hnot]; [auto|].
      apply elem_of_cons in Hx as [->|]; [|done].
      intros h Hh. rewrite Hout, told_report, decide_True in Hh by done. by injection Hh as <-.
    + intros x Hx. apply not_elem_of_cons in Hx as [Hne Hx]. rewrite Hout, told_report, decide_False by done. done.
    + rewrite Hdom, dom_insert_L. set_solver.
Qed.

(** The calls such a loop makes, and the errors it returns: one for each call that failed. *)
Definition failures (wrap : string -> service_error -> runtime_error) (calls : list answered) : list runtime_error :=
  omap (fun a => match a with (CallShutdown x, Some e) => Some (wrap x e) | _ => None end) calls.

Lemma stop_loop_calls answers wrap reason l : forall r errs r',
  stop_loop answers wrap reason l r = (errs, r') ->
  exists calls, log r' = log r ++ calls /\ calls.*1 = CallShutdown <$> capabilities l /\ errs = failures wrap calls.
Proof.
  induction l as [|c l IH]; intros r errs r' Hloop; simpl in Hloop.
  - injection Hloop as <- <-. exists []. by rewrite app_nil_r.
  - unfold invoke in Hloop. destruct (answers _ _) as [e|].
    + destruct (stop_loop _ _ _ l _) as [errs1 r1] eqn:E. injection Hloop as <- <-.
      apply IH in E as (calls & Hlog & Hcalls & ->). simpl in Hlog. rewrite <- app_assoc in Hlog.
      exists ((CallShutdown (Capability c), Some e) :: calls). split; [done|]. split; [by rewrite fmap_cons, Hcalls|done].
    + apply IH in Hloop as (calls & Hlog & Hcalls & ->). simpl in Hlog. rewrite <- app_assoc in Hlog.
      exists ((CallShutdown (Capability c), None) :: calls). split; [done|]. split; [by rewrite fmap_cons, Hcalls|done].
Qed.

(** ** The state between two calls *)

Record resting (r : Runtime) : Prop := {
  rest_state : state r = New \/ state r = Running \/ state r = Stopped \/ state r = Failed;
  rest_open : open_calls (log r) = Some (rev (capabilities (started r)));
  rest_none : state r <> Running -> started r = [];
  rest_new : state r = New -> log r = [];
  rest_prefix : starts (log r) `prefix_of` capabilities (cfg_Components (config r));
  rest_running : state r = Running ->
    capabilities (started r) = succeeded (log r) /\ starts (log r) = capabilities (cfg_Components (config r)) /\
    forall c, c ∈ cfg_Components (config r) ->
      (c ∈ started r /\ told r (Capability c) = Some (mkHealth Ready "" 0)) \/
      ((c ∉ started r) /\ Required c = false /\ told r (Capability c) = Some (mkHealth Unavailable "start_failed" 0));
  rest_health : state r <> Running -> forall x, not_ready r x;
  rest_dom : dom (rg_states (health r)) = list_to_set (capabilities (cfg_Components (config r)));
  rest_nodup : NoDup (capabilities (cfg_Components (config r)));
  rest_sub : forall c, c ∈ started r -> c ∈ cfg_Components (config r);
  rest_live : rg_live (health r) = true -> state r = New \/ state r = Running
}.

(** The state in the loop of [Start], after the components [past] and before [l]. *)
Record in_start (past l : list Component) (r : Runtime) : Prop := {
  is_split : cfg_Components (config r) = past ++ l;
  is_open : open_calls (log r) = Some (rev (capabilities (started r)));
  is_starts : starts (log r) = capabilities past;
  is_ok : capabilities (started r) = succeeded (log r);
  is_sub : forall c, c ∈ started r -> c ∈ past;
  is_each : forall c, c ∈ past ->
      (c ∈ started r /\ told r (Capability c) = Some (mkHealth Ready "" 0)) \/
      ((c ∉ started r) /\ Required c = false /\ told r (Capability c) = Some (mkHealth Unavailable "start_failed" 0));
  is_rest : forall c, c ∈ l -> not_ready r (Capability c);
  is_dom : dom (rg_states (health r)) = list_to_set (capabilities (cfg_Components (config r)));
  is_nodup : NoDup (capabilities (cfg_Components (config r)))
}.

Lemma not_ready_report component s reason r x :
  s <> Ready -> (not_ready r x \/ Capability component = x) -> not_ready (report component s reason r) x.
Proof.
  intros Hs Hx h Hh. rewrite told_report in Hh. destruct (decide (Capability component = x)).
  - by injection Hh as <-.
  - destruct Hx as [Hx|]; [by apply Hx|done].
Qed.

(** The capability of a component that is still to be started differs from those before it. *)
Lemma fresh_capability past c l :
  NoDup (capabilities (past ++ c :: l)) ->
  (forall d, d ∈ past -> Capability c <> Capability d) /\ (forall d, d ∈ l -> Capability c <> Capability d).
Proof.
  intros Hnd. unfold capabilities in Hnd. rewrite fmap_app, fmap_cons in Hnd.
  apply NoDup_app in Hnd as (_ & Hdisj & Hnd). apply NoDup_cons in Hnd as [Hnot _].
  split; intros d Hd Heq.
  - apply (Hdisj (Capability d)); [by apply list_elem_of_fmap_2|]. rewrite <- Heq. left.
  - apply Hnot. rewrite Heq. by apply list_elem_of_fmap_2.
Qed.

(** Starting the next component with success. *)
Lemma in_start_ok past c l r :
  in_start past (c :: l) r ->
  in_start (past ++ [c]) l
    (report c Ready "" (with_started (started r ++ [c]) (with_log (log r ++ [(CallStart (Capability c), None)]) r))).
Proof.
  intros [Hsplit Hopen Hstarts Hok Hsub Heach Hrest Hdom Hnd].
  pose proof Hnd as Hnd'. rewrite Hsplit in Hnd'. apply fresh_capability in Hnd' as [Hpast Hl].
  split; simpl.
  - by rewrite Hsplit, <- app_assoc.
  - rewrite open_calls_snoc, Hopen. simpl. unfold capabilities. by rewrite fmap_app, rev_app_distr.
  - rewrite log_starts_snoc, Hstarts. simpl. unfold capabilities. by rewrite fmap_app.
  - rewrite succeeded_snoc, <- Hok. unfold capabilities. by rewrite fmap_app.
  - intros d Hd. apply elem_of_app. apply elem_of_app in Hd as [Hd|Hd]; auto.
  - intros d Hd. rewrite told_report. simpl. apply elem_of_app in Hd as [Hd|Hd%list_elem_of_singleton].
    + rewrite decide_False by auto. destruct (Heach d Hd) as [[??]|(?&?&?)]; [left|right].
      * split; [|done]. apply elem_of_app. by left.
      * split; [|done]. rewrite elem_of_app, list_elem_of_singleton. intros [Hin|Heq]; [done|]. apply (Hpast d Hd). by rewrite Heq.
    + subst d. left. rewrite decide_True by done. split; [|done]. apply elem_of_app. right. left.
  - intros d Hd h Hh. rewrite told_report in Hh. rewrite decide_False in Hh by auto.
    apply (Hrest d); [by right|done].
  - rewrite dom_insert_L, Hdom, Hsplit. unfold capabilities. rewrite fmap_app, fmap_cons. set_solver.
  - done.
Qed.

(** The next component fails to start and has been cleaned up. *)
Definition after_failure (c : Component) (e : service_error) (a : option service_error) (r : Runtime) : Runtime :=
  report c Unavailable "start_failed"
    (with_log ((log r ++ [(CallStart (Capability c), Some e)]) ++ [(CallShutdown (Capability c), a)]) r).

Lemma in_start_skip past c l r e a :
  in_start past (c :: l) r -> Required c = false -> in_start (past ++ [c]) l (after_failure c e a r).
Proof.
  intros [Hsplit Hopen Hstarts Hok Hsub Heach Hrest Hdom Hnd] Hreq.
  pose proof Hnd as Hnd'. rewrite Hsplit in Hnd'. apply fresh_capability in Hnd' as [Hpast Hl].
  split; simpl.
  - by rewrite Hsplit, <- app_assoc.
  - rewrite !open_calls_snoc, Hopen. simpl. by rewrite decide_True.
  - rewrite !log_starts_snoc, Hstarts. simpl. unfold capabilities. by rewrite fmap_app, app_nil_r.
  - by rewrite !succeeded_snoc, !app_nil_r.
  - intros d Hd. apply elem_of_app. auto.
  - intros d Hd. unfold after_failure. rewrite told_report. simpl.
    apply elem_of_app in Hd as [Hd|Hd%list_elem_of_singleton].
    + rewrite decide_False by auto. exact (Heach d Hd).
    + subst d. right. rewrite decide_True by done. split; [|done]. intros Hin. by apply (Hpast c); [apply Hsub|].
  - intros d Hd. apply not_ready_report; [done|]. left. apply Hrest. by right.
  - rewrite dom_insert_L, Hdom, Hsplit. unfold capabilities. rewrite fmap_app, fmap_cons. set_solver.
  - done.
Qed.

Lemma capabilities_rev l : capabilities (rev l) = rev (capabilities l).
Proof. induction l as [|c l IH]; [done|]. unfold capabilities in *. simpl. by rewrite fmap_app, IH. Qed.

Lemma cleanupFailed_log answers c r :
  exists a errs, cleanupFailed answers c r = (errs, with_log (log r ++ [(CallShutdown (Capability c), a)]) r).
Proof. unfold cleanupFailed, invoke. destruct (answers _ _) as [e|]; eauto. Qed.

(** A component that must start fails: everything that was started is shut down. *)
Lemma failed_start_rests answers past c l r e a errs r' :
  in_start past (c :: l) r -> Required c = true ->
  rollback answers (after_failure c e a r) = (errs, r') ->
  resting (with_health (SetLive (health r') false) (with_state Failed r')) /\ config r' = config r /\
  last (starts (log r')) = Some (Capability c) /\ (CallStart (Capability c), Some e) ∈ log r'.
Proof.
  intros [Hsplit Hopen Hstarts Hok Hsub Heach Hrest Hdom Hnd] Hreq Hroll.
  unfold rollback in Hroll. destruct (stop_loop _ _ _ _ _) as [errs1 r1] eqn:E.
  injection Hroll as <- <-. destruct (stop_loop_calls _ _ _ _ _ _ _ E) as (calls & Hlog & _ & _).
  eapply (stop_loop_spec _ _ _ _ _ _ _ []) in E as (H1 & H2 & H3 & H4 & H5 & H6 & H7 & Hin & Hout & Hd).
  2:{ simpl. rewrite !open_calls_snoc, Hopen. simpl. rewrite decide_True by done.
      by rewrite capabilities_rev, app_nil_r. }
  unfold after_failure in H2, H4, Hd. simpl in H2, H4, Hd. rewrite !log_starts_snoc, app_nil_r, Hstarts in H2. simpl in H2.
  split; [|split; [done|split]].
  2:{ simpl. by rewrite H2, last_snoc. }
  2:{ simpl. rewrite Hlog. simpl. set_solver. }
  split; simpl; rewrite ?H4; auto; try done.
  - rewrite H2, Hsplit. unfold capabilities. rewrite fmap_app, fmap_cons. exists (Capability <$> l). by rewrite <- app_assoc.
  - intros _ x. destruct (decide (x ∈ capabilities (rev (started r)))) as [Hx|Hx]; [by apply Hin|].
    intros h Hh. change (told r1 x = Some h) in Hh. rewrite Hout in Hh by done. revert h Hh. apply not_ready_report; [done|].
    destruct (decide (x ∈ capabilities (cfg_Components (config r)))) as [Hc|Hc].
    + apply list_elem_of_fmap in Hc as (d & -> & Hc). rewrite Hsplit in Hc. apply elem_of_app in Hc as [Hc|Hc].
      * left. intros h Hh. destruct (Heach d Hc) as [[Hs _]|(_ & _ & Ht)].
        -- destruct Hx. unfold capabilities. apply list_elem_of_fmap_2. by apply elem_of_rev.
        -- unfold told in *. simpl in Hh. rewrite Ht in Hh. by injection Hh as <-.
      * left. intros h Hh. by apply (Hrest d Hc).
    + left. intros h Hh. unfold told in Hh; apply elem_of_dom_2 in Hh. simpl in Hh. rewrite Hdom in Hh. by apply elem_of_list_to_set in Hh.
  - rewrite Hd, dom_insert_L, Hdom, Hsplit. apply set_eq. intros x.
    rewrite !elem_of_union, elem_of_singleton, !elem_of_list_to_set. unfold capabilities.
    rewrite fmap_app, fmap_cons, elem_of_app, elem_of_cons. split; [|tauto].
    intros [Hx|[->|Hx]]; [|tauto|tauto]. apply list_elem_of_fmap in Hx as (d & -> & Hx).
    left. apply list_elem_of_fmap_2, Hsub. by apply elem_of_rev.
  - intros d Hd'. by apply not_elem_of_nil in Hd'.
Qed.

Lemma running_rests past r : in_start past [] r -> resting (with_state Running r).
Proof.
  intros [Hsplit Hopen Hstarts Hok Hsub Heach Hrest Hdom Hnd]. rewrite app_nil_r in Hsplit.
  split; simpl; auto; try done.
  - by rewrite Hsplit, Hstarts.
  - intros _. rewrite Hsplit. auto.
  - intros c Hc. rewrite Hsplit. by apply Hsub.
Qed.

(** How the loop of [Start] ends. *)
Lemma start_loop_spec answers l : forall past r errs r',
  in_start past l r -> start_loop answers l r = (errs, r') ->
  resting r' /\ config r' = config r /\
  ((errs = [] /\ state r' = Running /\ rg_live (health r') = rg_live (health r)) \/
   exists c e more, errs = ErrStart (Capability c) e :: more /\ c ∈ l /\ Required c = true /\
     state r' = Failed /\ last (starts (log r')) = Some (Capability c) /\ (CallStart (Capability c), Some e) ∈ log r').
Proof.
  induction l as [|c l IH]; intros past r errs r' Hin Hloop; simpl in Hloop.
  - injection Hloop as <- <-. split; [by eapply running_rests|]. auto.
  - unfold invoke in Hloop. simpl in Hloop. destruct (answers (log r) _) as [e|] eqn:Ea.
    + destruct (cleanupFailed_log answers c (with_log (log r ++ [(CallStart (Capability c), Some e)]) r)) as (a & ce & Hce).
      rewrite Hce in Hloop. simpl in Hloop.
      change (report c Unavailable "start_failed" _) with (after_failure c e a r) in Hloop.
      destruct (Required c) eqn:Hreq; simpl in Hloop.
      * destruct (rollback answers (after_failure c e a r)) as [re r1] eqn:Er. injection Hloop as <- <-.
        pose proof (failed_start_rests _ _ _ _ _ _ _ _ _ Hin Hreq Er) as (Hrest & Hconf & Hlast & Hlog).
        split; [done|]. split; [done|]. right. exists c, e, (ce ++ re).
        repeat split; try done. left.
      * destruct (IH _ _ _ _ (in_start_skip _ _ _ _ e a Hin Hreq) Hloop) as (H1 & H2 & H3).
        split; [done|]. split; [done|]. destruct H3 as [?|(d & e' & more & ? & ? & ?)]; [by left|].
        right. exists d, e', more. split; [done|]. split; [by right|done].
    + destruct (IH _ _ _ _ (in_start_ok _ _ _ _ Hin) Hloop) as (H1 & H2 & H3).
      split; [done|]. split; [done|]. destruct H3 as [?|(d & e' & more & ? & ? & ?)]; [by left|].
      right. exists d, e', more. split; [done|]. split; [by right|done].
Qed.

(** What a resting runtime tells about a capability it does not keep. *)
Lemma rest_not_started r x : resting r -> x ∉ capabilities (started r) -> not_ready r x.
Proof.
  intros Hr Hx. destruct (decide (state r = Running)) as [Hrun|Hrun]; [|by apply (rest_health r Hr)].
  intros h Hh. assert (x ∈ capabilities (cfg_Components (config r))) as Hc.
  { unfold told in Hh. apply elem_of_dom_2 in Hh as Hd. rewrite (rest_dom r Hr) in Hd. by apply elem_of_list_to_set in Hd. }
  apply list_elem_of_fmap in Hc as (c & -> & Hc).
  destruct (rest_running r Hr Hrun) as (_ & _ & Heach). destruct (Heach c Hc) as [[Hs _]|(_ & _ & Ht)].
  - destruct Hx. by apply list_elem_of_fmap_2.
  - rewrite Ht in Hh. by injection Hh as <-.
Qed.

Lemma shutdown_rests answers r :
  rg_live (health r) = false -> resting r -> resting (Shutdown_locked answers r).2.
Proof.
  intros Hlive Hrest. pose proof Hrest as [Hstate Hopen Hnone Hnew Hprefix Hrun Hhealth Hdom Hnd Hsub _].
  unfold Shutdown_locked. case_decide as H1; [done|]. case_decide as H2; [done|].
  destruct (stop_loop _ _ _ _ _) as [errs r'] eqn:E. simpl.
  eapply (stop_loop_spec _ _ _ _ _ _ _ []) in E as (E1 & E2 & E3 & E4 & E5 & E6 & E7 & Hin & Hout & Hd).
  2:{ simpl. by rewrite Hopen, capabilities_rev, app_nil_r. }
  simpl in *. split; simpl; rewrite ?E4; auto; try done.
  - by rewrite E2.
  - intros _ x. destruct (decide (x ∈ capabilities (rev (started r)))) as [Hx|Hx]; [by apply Hin|].
    intros h Hh. change (told r' x = Some h) in Hh. rewrite Hout in Hh by done. revert h Hh.
    apply (rest_not_started r); [done|]. intros Hs. apply Hx. rewrite capabilities_rev. by apply elem_of_rev.
  - rewrite Hd, Hdom. apply set_eq. intros x. rewrite elem_of_union, !elem_of_list_to_set.
    split; [|tauto]. intros [Hx|Hx]; [|done]. rewrite capabilities_rev in Hx. rewrite elem_of_rev in Hx.
    apply list_elem_of_fmap in Hx as (c & -> & Hx). by apply list_elem_of_fmap_2, Hsub.
  - intros d Hd'. by apply not_elem_of_nil in Hd'.
  - intros Hl. rewrite Hlive in E7. rewrite E7 in Hl. done.
Qed.

Lemma shutdown_frame answers r : resting r ->
  config (Shutdown_locked answers r).2 = config r /\
  rg_live (health (Shutdown_locked answers r).2) = rg_live (health r).
Proof.
  intros Hrest. unfold Shutdown_locked. case_decide; [done|]. case_decide; [done|].
  destruct (stop_loop _ _ _ _ _) as [errs r'] eqn:E. simpl.
  apply (stop_loop_spec _ _ _ _ _ _ _ []) in E as (_ & _ & _ & E4 & _ & _ & E7 & _); [done|].
  simpl. by rewrite (rest_open r Hrest), capabilities_rev, app_nil_r.
Qed.

Lemma start_rests answers r errs r' :
  resting r -> Start answers r = (errs, r') ->
  resting r' /\ config r' = config r /\ (rg_live (health r) = false -> rg_live (health r') = false) /\
  (state r = New ->
   (errs = [] /\ state r' = Running) \/
   exists c e more, errs = ErrStart (Capability c) e :: more /\ c ∈ cfg_Components (config r) /\ Required c = true /\
     state r' = Failed /\ last (starts (log r')) = Some (Capability c) /\ (CallStart (Capability c), Some e) ∈ log r').
Proof.
  intros Hrest Hstart. unfold Start in Hstart. case_decide as Hnew.
  { by injection Hstart as <- <-. }
  pose proof Hrest as [_ Hopen Hnone Hlog Hprefix Hrun Hhealth Hdom Hnd Hsub Hlive].
  eapply (start_loop_spec _ _ []) in Hstart as (H1 & H2 & H3).
  - split; [done|]. split; [done|]. split.
    + intros Hdead. destruct H3 as [(_ & _ & ->)|(c & e & more & _ & _ & _ & Hf & _)]; [done|].
      destruct (rg_live (health r')) eqn:E; [|done]. destruct (rest_live r' H1 E); congruence.
    + intros _. destruct H3 as [(? & ? & _)|?]; [by left|by right].
  - rewrite (Hlog Hnew), (Hnone ltac:(congruence)) in *. split; simpl; rewrite ?(Hlog Hnew), ?(Hnone ltac:(congruence)); auto; try done.
    + intros c Hc. by apply not_elem_of_nil in Hc.
    + intros c _. apply Hhealth. congruence.
Qed.

Lemma check_components_spec l : forall seen caps, check_components seen l = Some caps ->
  caps = capabilities l /\ NoDup caps /\ forall x, x ∈ caps -> x ∉ seen.
Proof.
  induction l as [|c l IH]; intros seen caps H; simpl in H.
  - injection H as <-. split; [done|]. split; [constructor|set_solver].
  - case_decide as Hc; [done|]. apply fmap_Some in H as (caps' & H & ->).
    apply IH in H as (-> & Hnd & Hseen). split; [done|]. split.
    + constructor; [|done]. intros Hin. apply Hseen in Hin. set_solver.
    + intros x Hx. apply elem_of_cons in Hx as [->|Hx]; [tauto|]. apply Hseen in Hx. set_solver.
Qed.

Lemma health_New_spec caps : forall (m : gmap string HealthCapability),
  (forall x h, m !! x = Some h -> hc_State h = Unavailable) ->
  let m' := foldl (fun m c => <[c := mkHealth Unavailable "starting" 0]> m) m caps in
  (forall x h, m' !! x = Some h -> hc_State h = Unavailable) /\ dom m' = list_to_set caps ∪ dom m.
Proof.
  induction caps as [|c caps IH]; intros m Hm; simpl.
  - split; [done|]. by rewrite union_empty_l_L.
  - destruct (IH (<[c := mkHealth Unavailable "starting" 0]> m)) as [H1 H2].
    { intros x h Hx. apply lookup_insert_Some in Hx as [[_ <-]|[_ Hx]]; [done|by eapply Hm]. }
    split; [done|]. rewrite H2, dom_insert_L. set_solver.
Qed.

Lemma NewRuntime_rests c r : NewRuntime c = Ok r ->
  resting r /\ state r = New /\ cfg_Components (config r) = cfg_Components c.
Proof.
  unfold NewRuntime. case_decide as H1; [done|].
  assert (cfg_Components (with_timeout c) = cfg_Components c) as Hc' by (unfold with_timeout; by case_decide).
  revert Hc'. generalize (with_timeout c) as c'. intros c' Hc'. case_decide as H2; [done|]. destruct (check_components ∅ (cfg_Components c')) as [caps|] eqn:E; [|done].
  intros H. injection H as <-. simpl. apply check_components_spec in E as (-> & Hnd & _).
  split; [|by rewrite Hc'].
  destruct (health_New_spec (capabilities (cfg_Components c')) ∅) as [Hs Hd]; [intros x h Hx; by rewrite lookup_empty in Hx|].
  split; simpl; auto; try done.
  - apply prefix_nil.
  - intros _ x h Hh. unfold told in Hh. simpl in Hh. apply Hs in Hh. congruence.
  - rewrite Hd, dom_empty_L. by rewrite union_empty_r_L.
  - intros d Hd'. by apply not_elem_of_nil in Hd'.
Qed.

Lemma run_rests answers c r0 ops : NewRuntime c = Ok r0 ->
  let (n, r) := run answers ops r0 in
  resting r /\ cfg_Components (config r) = cfg_Components c /\ (n <> 0%nat -> rg_live (health r) = false).
Proof.
  intros H. apply NewRuntime_rests in H as (Hr & _ & Hc). unfold run. revert Hr Hc.
  assert (O <> O -> rg_live (health r0) = false) as Hn by done. revert Hn. generalize O at 1 3 as n.
  revert r0. induction ops as [|o ops IH]; intros r n Hn Hr Hc; simpl; [done|].
  destruct o; simpl.
  - destruct (Start answers r) as [errs r'] eqn:E. simpl.
    destruct (start_rests _ _ _ _ Hr E) as (? & Hconf & Hl & _). apply IH; [auto|done|congruence].
  - apply IH; [done| |done]. destruct Hr. split; simpl in *; auto; try done.
  - destruct n as [|n]; [by apply IH|]. apply IH.
    + intros _. rewrite (proj2 (shutdown_frame answers r Hr)). by apply Hn.
    + apply shutdown_rests; auto.
    + by rewrite (proj1 (shutdown_frame answers r Hr)).
Qed.

(** ** What a runtime promises *)

(** C13.  Whatever services answer and in whatever order goroutines call [Start] and
    [Shutdown], the calls of services are well bracketed: every shutdown closes the service
    that was started last and is not shut down yet, a failed start is closed at once, and
    what is open is exactly the list of started components, which is empty unless the
    runtime runs.  No service is started twice, services are started in the configured
    order, and a running runtime has all components that are required.  A capability is
    told to be ready exactly while its component is started, and the process is told to be
    alive only if the runtime is new or runs. *)
Theorem runtime_lifo (answers : list answered -> call -> option service_error) (c : Config) (r0 : Runtime) (ops : list op) :
  NewRuntime c = Ok r0 ->
  let r := (run answers ops r0).2 in
  open_calls (log r) = Some (rev (capabilities (started r))) /\
  starts (log r) `prefix_of` capabilities (cfg_Components c) /\ NoDup (starts (log r)) /\
  (state r <> Running -> started r = []) /\
  (state r = Running -> capabilities (started r) = succeeded (log r) /\
     forall d, d ∈ cfg_Components c -> Required d = true -> d ∈ started r) /\
  (forall x, (exists h, told r x = Some h /\ hc_State h = Ready) <-> x ∈ capabilities (started r)) /\
  (rg_live (health r) = true -> state r = New \/ state r = Running).
Proof.
  intros H r. pose proof (run_rests answers c r0 ops H) as Hrun. destruct (run answers ops r0) as [n r1] eqn:E.
  change r with r1. clear r. destruct Hrun as (Hr & Hc & _).
  pose proof (rest_prefix r1 Hr) as Hpre. pose proof (rest_nodup r1 Hr) as Hnd. rewrite Hc in Hpre, Hnd.
  split; [by apply rest_open|]. split; [done|]. split.
  { destruct Hpre as [k Hk]. rewrite Hk in Hnd. by apply NoDup_app in Hnd as (? & _ & _). }
  split; [by apply rest_none|]. split; [|split; [|by apply rest_live]].
  - intros Hs. destruct (rest_running r1 Hr Hs) as (H1 & _ & H3). split; [done|].
    intros d Hd Hreq. rewrite <- Hc in Hd. destruct (H3 d Hd) as [[? _]|(_ & Hf & _)]; [done|congruence].
  - intros x. split.
    + intros (h & Hh & Hready). destruct (decide (x ∈ capabilities (started r1))); [done|].
      by destruct (rest_not_started r1 x Hr) with h.
    + intros Hx. destruct (decide (state r1 = Running)) as [Hs|Hs].
      2:{ rewrite (rest_none r1 Hr Hs) in Hx. by apply not_elem_of_nil in Hx. }
      apply list_elem_of_fmap in Hx as (d & -> & Hd). destruct (rest_running r1 Hr Hs) as (_ & _ & H3).
      destruct (H3 d (rest_sub r1 Hr d Hd)) as [[_ Ht]|[Hn _]]; [by eexists|done].
Qed.

(** The result of [Start] on a new runtime: it runs, or a component that is required has
    failed, was the last one that was started, and everything is shut down again. *)
Theorem start_outcome (answers : list answered -> call -> option service_error) (c : Config) (r : Runtime) :
  NewRuntime c = Ok r ->
  let (errs, r') := Start answers r in
  (errs = [] /\ state r' = Running) \/
  exists d e more, errs = ErrStart (Capability d) e :: more /\ d ∈ cfg_Components c /\ Required d = true /\
    (CallStart (Capability d), Some e) ∈ log r' /\ last (starts (log r')) = Some (Capability d) /\
    state r' = Failed /\ open_calls (log r') = Some [].
Proof.
  intros H. apply NewRuntime_rests in H as (Hr & Hnew & Hc). destruct (Start answers r) as [errs r'] eqn:E.
  destruct (start_rests _ _ _ _ Hr E) as (Hr' & _ & _ & H). destruct (H Hnew) as [?|(d & e & more & ? & ? & ? & Hf & ? & ?)]; [by left|].
  right. exists d, e, more. rewrite <- Hc. repeat split; try done.
  rewrite (rest_open r' Hr'), (rest_none r' Hr'); [done|congruence].
Qed.

(** Shutting down a running runtime calls every started service once, the last one first,
    goes on when one fails, and returns exactly the errors of those that failed. *)
Theorem shutdown_reaches_all (answers : list answered -> call -> option service_error) (r : Runtime) :
  state r = Running ->
  let (errs, r') := Shutdown_locked answers r in
  state r' = Stopped /\ started r' = [] /\
  exists calls, log r' = log r ++ calls /\ calls.*1 = CallShutdown <$> rev (capabilities (started r)) /\
    errs = failures ErrShutdown calls.
Proof.
  intros Hs. unfold Shutdown_locked. rewrite decide_False by congruence. rewrite decide_False by (intros []; congruence).
  destruct (stop_loop _ _ _ _ _) as [errs r'] eqn:E. apply stop_loop_calls in E as (calls & H1 & H2 & H3).
  split; [done|]. split; [done|]. exists calls. by rewrite H2, capabilities_rev.
Qed.

(** ** A runtime with three components, of which the optional one fails to start *)

Definition demo_config : Config :=
  mkConfig "1.0.0" [mkComponent "sessions" true (Some 0%nat); mkComponent "preview" false (Some 1%nat);
                    mkComponent "http" true (Some 2%nat)] 0.
Definition demo_runtime : Runtime :=
  mkRuntime (with_timeout demo_config) New [] (health_New "1.0.0" ["sessions"; "preview"; "http"]) [].
Definition demo_answers (fails : call) (_ : list answered) (c : call) : option service_error :=
  if decide (c = fails) then Some "refused"%string else None.

Lemma runtime_lifo_witness :
  let r := (run (demo_answers (CallStart "preview")) [OpStart] demo_runtime).2 in
  state r = Running /\ capabilities (started r) = ["sessions"; "http"] /\
  open_calls (log r) = Some ["http"; "sessions"] /\ NoDup (starts (log r)).
Proof.
  destruct (runtime_lifo (demo_answers (CallStart "preview")) demo_config demo_runtime [OpStart] ltac:(by vm_compute))
    as (H1 & H2 & H3 & _).
  split; [by vm_compute|]. split; [by vm_compute|]. split; [|exact H3]. exact (eq_trans H1 ltac:(by vm_compute)).
Defined.

Example demo_required_fails :
  let r := (run (demo_answers (CallStart "http")) [OpStart; OpShutdownEnter; OpShutdown] demo_runtime).2 in
  state r = Stopped /\ (log r).*1 =
    [CallStart "sessions"; CallStart "preview"; CallStart "http"; CallShutdown "http"; CallShutdown "preview"; CallShutdown "sessions"].
Proof. by vm_compute. Qed.
