(* ===== verification/Publisher.v ===== *)
(** * Publication of configuration ([internal/configsync/publisher.go], [git_repository.go], [control_client.go])

    [Publisher.Sync] makes at most one publication: it pulls, and if there is something to
    publish it takes a lease, prepares the commit again under the lease, renews the lease,
    checks the credential and the head once more and pushes; a push whose outcome is unknown
    is resolved by looking at the remote.  The repository, the control plane and the clock
    are outside: every call is answered by a function of the calls made so far, and the
    calls with their answers are the history that [Sync] extends.

    [commitReachable] is the search [ObserveCommit] uses, and the operations on leases of
    [ControlClient] are modelled on top of one exchange with the control plane. *)

From S2P Require Import Prelude.

(** ** Errors *)

Inductive sync_error :=
| ErrRemoteRevisionChanged | ErrConfigConflict | ErrSyncUncertain
| ErrAuthorization | ErrLeaseLost | ErrLeaseBusy | ErrWritesDisabled | ErrOperationConflict
| ErrManifestMissing | ErrManifestInvalid | ErrManifestUnsafePath
| ErrControlClientInvalid | ErrGitRepositoryInvalid | ErrContext | ErrOther (s : string).
#[global] Instance sync_error_eq_dec : EqDecision sync_error.
Proof. solve_decision. Defined.

(** An error is nil or the list of the errors it joins or wraps. *)
Abbreviation error := (option (list sync_error)) (only parsing).
Definition errors_Is (e : error) (target : sync_error) : bool :=
  match e with Some l => bool_decide (target ∈ l) | None => false end.
Definition errors_Join (a b : error) : error :=
  match a, b with Some x, Some y => Some (x ++ y) | Some x, None => Some x | None, b => b end.
Definition fail (e : sync_error) : error := Some [e].

(** ** Data *)

Record Lease := mkLease {
  ls_LeaseID : string; ls_RepositoryID : string; ls_AssignmentID : string; ls_EnvironmentID : string;
  ls_HelperID : string; ls_FencingToken : Z; ls_BaseRevision : string; ls_ExpiresAt : time
}.
#[global] Instance Lease_eq_dec : EqDecision Lease.
Proof. solve_decision. Defined.
Definition zero_Lease : Lease := mkLease "" "" "" "" "" 0 "" zero_time.

Record PreparedPublication := mkPrepared { pp_ExpectedRemoteRevision : string; pp_CommitID : string; pp_HasChanges : bool }.
#[global] Instance PreparedPublication_eq_dec : EqDecision PreparedPublication.
Proof. solve_decision. Defined.

Record PublishResult := mkPublished { pr_RemoteRevision : string; pr_Landed : bool; pr_Uncertain : bool }.
#[global] Instance PublishResult_eq_dec : EqDecision PublishResult.
Proof. solve_decision. Defined.
Definition zero_PublishResult : PublishResult := mkPublished "" false false.

Record PublisherConfig := mkPublisherConfig { pc_LeaseTTL : Z; pc_ReleaseTimeout : Z; pc_PublicationMargin : Z }.

Definition second : Z := 1000000000.

(** [NewPublisher], for an authority and a repository that are there. *)
Definition NewPublisher (config : PublisherConfig) : result sync_error PublisherConfig :=
  let ttl := if decide (pc_LeaseTTL config = 0) then 60 * second else pc_LeaseTTL config in
  if decide (ttl < 15 * second \/ ttl > 120 * second) then Err ErrControlClientInvalid
  else
    let release := if decide (pc_ReleaseTimeout config = 0) then 5 * second else pc_ReleaseTimeout config in
    if decide (release <= 0 \/ release > 30 * second) then Err ErrControlClientInvalid
    else
      let margin := if decide (pc_PublicationMargin config = 0) then 5 * second else pc_PublicationMargin config in
      if decide (margin < second \/ margin >= ttl) then Err ErrControlClientInvalid
      else Ok (mkPublisherConfig ttl release margin).

(** ** Calls *)

Inductive event :=
| EFetch (a : result (list sync_error) string)
| ECredential (a : error)
| EReconcile (remote : string) (a : result (list sync_error) PreparedPublication)
| EAcquire (base : string) (a : result (list sync_error) Lease)
| ERenew (lease : Lease) (a : Lease * error)
| ERelease (lease : Lease) (a : error)
| ENow (t : time)
| EPrepared (p : PreparedPublication) (a : error)
| EPublish (p : PreparedPublication) (token : Z) (a : PublishResult * error)
| EAborted (p : PreparedPublication) (a : error)
| EObserve (commit : string) (a : result (list sync_error) (bool * string))
| ECommitted (p : PreparedPublication) (revision : string) (a : error).

Abbreviation history := (list event) (only parsing).

(** The outside; [None] for the observer or the journal when the repository has none. *)
Class Env := {
  env_Fetch : history -> result (list sync_error) string;
  env_Credential : history -> error;
  env_Reconcile : history -> string -> result (list sync_error) PreparedPublication;
  env_AcquireLease : history -> string -> Z -> result (list sync_error) Lease;
  env_RenewLease : history -> Lease -> Z -> Lease * error;
  env_ReleaseLease : history -> Lease -> error;
  env_clock : history -> time;
  env_Publish : history -> PreparedPublication -> Z -> PublishResult * error;
  env_ObserveCommit : history -> string -> result (list sync_error) (bool * string);
  env_PublicationCommitted : option (history -> PreparedPublication -> string -> error);
  env_PublicationPrepared : option (history -> PreparedPublication -> error);
  env_PublicationAborted : option (history -> PreparedPublication -> error)
}.

Section Sync.
Context `{E : Env} (config : PublisherConfig).

Definition Fetch (h : history) := let a := env_Fetch h in (a, h ++ [EFetch a]).
Definition Credential_ (h : history) := let a := env_Credential h in (a, h ++ [ECredential a]).
Definition Reconcile (remote : string) (h : history) := let a := env_Reconcile h remote in (a, h ++ [EReconcile remote a]).
Definition AcquireLease (base : string) (h : history) :=
  let a := env_AcquireLease h base (pc_LeaseTTL config) in (a, h ++ [EAcquire base a]).
Definition RenewLease (lease : Lease) (h : history) :=
  let a := env_RenewLease h lease (pc_LeaseTTL config) in (a, h ++ [ERenew lease a]).
Definition ReleaseLease (lease : Lease) (h : history) := let a := env_ReleaseLease h lease in (a, h ++ [ERelease lease a]).
Definition Now (h : history) := let t := env_clock h in (t, h ++ [ENow t]).
Definition Publish (p : PreparedPublication) (token : Z) (h : history) :=
  let a := env_Publish h p token in (a, h ++ [EPublish p token a]).
Definition ObserveCommit (commit : string) (h : history) :=
  let a := env_ObserveCommit h commit in (a, h ++ [EObserve commit a]).

(** [if observer, ok := p.repository.(PublicationObserver); ok]: the call, or nothing. *)
Definition PublicationCommitted (p : PreparedPublication) (revision : string) (h : history) : error * history :=
  match env_PublicationCommitted with
  | Some f => let a := f h p revision in (a, h ++ [ECommitted p revision a])
  | None => (None, h)
  end.
Definition PublicationPrepared (p : PreparedPublication) (h : history) : error * history :=
  match env_PublicationPrepared with
  | Some f => let a := f h p in (a, h ++ [EPrepared p a])
  | None => (None, h)
  end.
Definition PublicationAborted (p : PreparedPublication) (h : history) : error * history :=
  match env_PublicationAborted with
  | Some f => let a := f h p in (a, h ++ [EAborted p a])
  | None => (None, h)
  end.

(** What [Sync] returns, and the history after it. *)
Definition outcome : Type := PublishResult * error * history.

(** A result that is returned only if the observer accepts the revision. *)
Definition committed (p : PreparedPublication) (revision : string) (r : PublishResult) (h : history) : outcome :=
  match PublicationCommitted p revision h with
  | (Some e, h) => (zero_PublishResult, Some e, h)
  | (None, h) => (r, None, h)
  end.

(** The end of [Sync], from the journal on: the push and what becomes of it. *)
Definition push (p : PreparedPublication) (token : Z) (h : history) : outcome :=
  match PublicationPrepared p h with
  | (Some e, h) => (zero_PublishResult, Some e, h)
  | (None, h) =>
      let '((published, err), h) := Publish p token h in
      if decide (err = None /\ pr_Landed published = true /\ pr_Uncertain published = false /\ pr_RemoteRevision published <> "")
      then committed p (pr_RemoteRevision published) published h
      else if decide (err <> None /\ pr_Uncertain published = false) then
        match PublicationAborted p h with
        | (Some abortErr, h) => (zero_PublishResult, errors_Join err (Some abortErr), h)
        | (None, h) => (zero_PublishResult, err, h)
        end
      else
        match ObserveCommit (pp_CommitID p) h with
        | (Err observeErr, h) => (mkPublished "" false true, errors_Join (fail ErrSyncUncertain) (Some observeErr), h)
        | (Ok (true, revision), h) => committed p revision (mkPublished revision true false) h
        | (Ok (false, revision), h) => (mkPublished revision false true, fail ErrSyncUncertain, h)
        end
  end.

(** From the renewal to the push; [lease] is the variable of [Sync], which the renewal
    assigns whatever it returns. *)
Definition renew_and_push (p : PreparedPublication) (lease : Lease) (h : history) : Lease * outcome :=
  let '((lease, err), h) := RenewLease lease h in
  match err with
  | Some e => (lease, (zero_PublishResult, Some e, h))
  | None =>
      let publicationDeadline := ls_ExpiresAt lease - pc_PublicationMargin config in
      let '(now, h) := Now h in
      if decide (~ publicationDeadline > now) then (lease, (zero_PublishResult, fail ErrLeaseLost, h))
      else
        match Credential_ h with
        | (Some e, h) => (lease, (zero_PublishResult, errors_Join (fail ErrAuthorization) (Some e), h))
        | (None, h) =>
            match Fetch h with
            | (Err e, h) => (lease, (zero_PublishResult, Some e, h))
            | (Ok current, h) =>
                if decide (current <> pp_ExpectedRemoteRevision p)
                then (lease, (zero_PublishResult, fail ErrRemoteRevisionChanged, h))
                else (lease, push p (ls_FencingToken lease) h)
            end
        end
  end.

(** Everything between the lease and its release. *)
Definition under_lease (remote : string) (lease : Lease) (h : history) : Lease * outcome :=
  match Fetch h with
  | (Err e, h) => (lease, (zero_PublishResult, Some e, h))
  | (Ok verified, h) =>
      if decide (verified <> remote \/ ls_BaseRevision lease <> remote)
      then (lease, (zero_PublishResult, fail ErrRemoteRevisionChanged, h))
      else
        match Reconcile verified h with
        | (Err e, h) => (lease, (zero_PublishResult, Some e, h))
        | (Ok prepared, h) =>
            if negb (pp_HasChanges prepared)
            then (lease, committed prepared verified (mkPublished verified true false) h)
            else if decide (pp_ExpectedRemoteRevision prepared <> remote \/ pp_CommitID prepared = "")
            then (lease, (zero_PublishResult, fail ErrRemoteRevisionChanged, h))
            else renew_and_push prepared lease h
        end
  end.

Definition Sync (h : history) : outcome :=
  match Fetch h with
  | (Err e, h) => (zero_PublishResult, Some e, h)
  | (Ok remote, h) =>
      if decide (remote = "") then (zero_PublishResult, fail ErrRemoteRevisionChanged, h)
      else
        match Credential_ h with
        | (Some e, h) => (zero_PublishResult, errors_Join (fail ErrAuthorization) (Some e), h)
        | (None, h) =>
            match Reconcile remote h with
            | (Err e, h) =>
                if errors_Is (Some e) ErrConfigConflict
                then (mkPublished remote false false, fail ErrConfigConflict, h)
                else (zero_PublishResult, Some e, h)
            | (Ok prepared, h) =>
                if negb (pp_HasChanges prepared)
                then committed prepared remote (mkPublished remote true false) h
                else
                  match AcquireLease remote h with
                  | (Err e, h) => (zero_PublishResult, Some e, h)
                  | (Ok lease, h) =>
                      (* the deferred release *)
                      let '(lease, (result, resultErr, h)) := under_lease remote lease h in
                      let '(releaseErr, h) := ReleaseLease lease h in
                      (result, match resultErr with None => releaseErr | Some _ => resultErr end, h)
                  end
            end
        end
  end.

End Sync.

(** ** What a run of [Sync] does *)

Definition is_publish (e : event) : bool := match e with EPublish _ _ _ => true | _ => false end.
Definition is_release (e : event) : bool := match e with ERelease _ _ => true | _ => false end.
Definition is_acquired (e : event) : bool := match e with EAcquire _ (Ok _) => true | _ => false end.
Definition is_aborted (e : event) : bool := match e with EAborted _ _ => true | _ => false end.
Definition none_of (f : event -> bool) (l : history) : Prop := Forall (fun e => f e = false) l.

(** A concrete list of calls that holds nothing of a kind. *)
Ltac none_here := unfold none_of; simpl; by repeat constructor.

Section Spec.
Context `{E : Env} (config : PublisherConfig).

(** The calls before a push with [token] of [p]: pulled and authorized, prepared, leased at
    the head that was pulled, fetched again and prepared again under the lease, the lease
    renewed and not near its end, authorized again, the head unchanged, and the journal
    written where there is one. *)
Definition guarded (before : history) (p : PreparedPublication) (token : Z) : Prop :=
  exists p0 l0 l now journal, let rev := pp_ExpectedRemoteRevision p in
  before = [EFetch (Ok rev); ECredential None; EReconcile rev (Ok p0); EAcquire rev (Ok l0);
            EFetch (Ok rev); EReconcile rev (Ok p); ERenew l0 (l, None); ENow now;
            ECredential None; EFetch (Ok rev)] ++ journal /\
  ((journal = [] /\ env_PublicationPrepared = None) \/ journal = [EPrepared p None]) /\
  ls_BaseRevision l0 = rev /\ token = ls_FencingToken l /\ now < ls_ExpiresAt l - pc_PublicationMargin config /\
  pp_HasChanges p0 = true /\ pp_HasChanges p = true /\ pp_CommitID p <> "" /\ rev <> "".

(** Why a revision may be called landed: nothing was to be published at this head, or the
    push said so, or the remote showed the commit; and the observer has accepted it. *)
Definition evidence (revision : string) (calls : history) : Prop :=
  (exists p, EReconcile revision (Ok p) ∈ calls /\ pp_HasChanges p = false) \/
  (exists p token r, EPublish p token (r, None) ∈ calls /\ pr_Landed r = true /\ pr_Uncertain r = false /\ pr_RemoteRevision r = revision) \/
  (exists p token a, EPublish p token a ∈ calls /\ EObserve (pp_CommitID p) (Ok (true, revision)) ∈ calls).
Definition observed (revision : string) (calls : history) : Prop :=
  env_PublicationCommitted = None \/ exists p, ECommitted p revision None ∈ calls.

(** What a piece of [Sync] without a push does. *)
Definition quiet (calls : history) : Prop := none_of is_publish calls /\ none_of is_aborted calls.

(** The push, which follows [j], and what follows it. *)
Definition pushed (p : PreparedPublication) (token : Z) (j : history) (a : PublishResult * error) (after : history) : Prop :=
  ((j = [] /\ env_PublicationPrepared = None) \/ j = [EPrepared p None]) /\ none_of is_publish after /\
  (forall x b, EAborted x b ∈ after -> x = p /\ pr_Uncertain a.1 = false /\ a.2 <> None) /\
  (env_PublicationAborted <> None -> pr_Uncertain a.1 = false -> a.2 <> None -> exists b, EAborted p b ∈ after).

Definition leaf (r : PublishResult) (err : error) (calls : history) : Prop :=
  (err = None -> pr_Landed r = true /\ pr_Uncertain r = false /\ evidence (pr_RemoteRevision r) calls /\ observed (pr_RemoteRevision r) calls) /\
  (pr_Uncertain r = true -> errors_Is err ErrSyncUncertain = true) /\
  none_of is_release calls.

(** Neither a push nor an acquired lease nor a release nor an abort. *)
Definition harmless (e : event) : bool := negb (is_publish e || is_acquired e || is_release e || is_aborted e).

Lemma harmless_none l : Forall (fun e => harmless e = true) l ->
  none_of is_publish l /\ none_of is_acquired l /\ none_of is_release l /\ none_of is_aborted l.
Proof.
  unfold none_of. rewrite !Forall_forall. intros H. repeat split; intros e He; specialize (H e He); by destruct e as [| | |? []| | | | | | | |].
Qed.

Lemma committed_spec p revision r h r' err h' : committed p revision r h = (r', err, h') ->
  exists calls, h' = h ++ calls /\ Forall (fun e => harmless e = true) calls /\
    ((err = None /\ r' = r /\ observed revision calls) \/ (err <> None /\ r' = zero_PublishResult)).
Proof.
  unfold committed, PublicationCommitted, observed. destruct env_PublicationCommitted as [f|] eqn:Ef.
  - destruct (f h p revision) as [e|] eqn:Ea; intros H; simplify_eq; eexists; (split; [done|]); (split; [by repeat constructor|]); [by right|].
    left. split; [done|]. split; [done|]. right. exists p. by left.
  - intros H. simplify_eq. exists []. rewrite app_nil_r. split; [done|]. split; [constructor|]. by left; auto.
Qed.

Lemma prepared_spec p h a h' : PublicationPrepared p h = (a, h') ->
  exists j, h' = h ++ j /\ Forall (fun e => harmless e = true) j /\
    (a = None -> (j = [] /\ env_PublicationPrepared = None) \/ j = [EPrepared p None]).
Proof.
  unfold PublicationPrepared. destruct env_PublicationPrepared as [f|] eqn:Ef; intros H; simplify_eq.
  - exists [EPrepared p (f h p)]. split; [done|]. split; [by repeat constructor|]. intros ->. by right.
  - exists []. rewrite app_nil_r. split; [done|]. split; [constructor|]. by left.
Qed.

Lemma aborted_spec p h a h' : PublicationAborted p h = (a, h') ->
  exists c, h' = h ++ c /\ ((c = [] /\ env_PublicationAborted = None) \/ c = [EAborted p a]).
Proof.
  unfold PublicationAborted. destruct env_PublicationAborted as [f|] eqn:Ef; intros H; simplify_eq.
  - eexists. split; [done|]. by right.
  - exists []. rewrite app_nil_r. auto.
Qed.

(** What follows a push that was not refused. *)
Lemma pushed_harmless p token j a after :
  ((j = [] /\ env_PublicationPrepared = None) \/ j = [EPrepared p None]) ->
  Forall (fun e => harmless e = true) after -> (a.2 = None \/ pr_Uncertain a.1 = true) -> pushed p token j a after.
Proof.
  intros Hj Hafter Ha. destruct (harmless_none after Hafter) as (H1 & _ & _ & H4). split; [done|]. split; [done|]. split.
  - intros x b Hx. unfold none_of in H4. rewrite Forall_forall in H4. by apply H4 in Hx.
  - intros _ Hu Hn. destruct Ha; [done|congruence].
Qed.

Lemma observed_mono revision c calls : observed revision c -> (forall e, e ∈ c -> e ∈ calls) -> observed revision calls.
Proof. intros [?|[p Hp]] Hsub; [by left|right]. exists p. by apply Hsub. Qed.

Lemma evidence_mono revision c calls : evidence revision c -> (forall e, e ∈ c -> e ∈ calls) -> evidence revision calls.
Proof.
  intros [(q & Q1 & Q2)|[(q & t & x & Q1 & Q2)|(q & t & x & Q1 & Q2)]] Hsub.
  - left. exists q. auto.
  - right. left. exists q, t, x. auto.
  - right. right. exists q, t, x. auto.
Qed.

Lemma none_of_publish f j p token a after :
  f (EPublish p token a) = false -> none_of f j -> none_of f after -> none_of f (j ++ EPublish p token a :: after).
Proof. intros H1 H2 H3. apply Forall_app. split; [done|]. by constructor. Qed.

(** A push after which the run ends with the observer. *)
Lemma push_committed p token h j a h1 revision r0 r err h' :
  ((j = [] /\ env_PublicationPrepared = None) \/ j = [EPrepared p None]) -> Forall (fun e => harmless e = true) j ->
  (a.2 = None \/ pr_Uncertain a.1 = true) ->
  Forall (fun e => harmless e = true) h1 ->
  pr_Landed r0 = true -> pr_Uncertain r0 = false -> pr_RemoteRevision r0 = revision ->
  evidence revision (EPublish p token a :: h1) ->
  committed p revision r0 (h ++ j ++ EPublish p token a :: h1) = (r, err, h') ->
  exists calls, h' = h ++ calls /\ leaf r err calls /\ none_of is_acquired calls /\
  exists j a after, calls = j ++ EPublish p token a :: after /\ pushed p token j a after.
Proof.
  intros Hj Hjh Ha Hh1 Hl Hu Hrev Hev H. apply committed_spec in H as (c & -> & Hc & Hres).
  exists (j ++ EPublish p token a :: (h1 ++ c)). split; [by rewrite <- !app_assoc|].
  assert (Forall (fun e => harmless e = true) (h1 ++ c)) as Hall by by apply Forall_app.
  destruct (harmless_none _ Hall) as (C1 & C2 & C3 & C4). destruct (harmless_none j Hjh) as (J1 & J2 & J3 & J4).
  split; [|split; [by apply none_of_publish|]].
  2:{ exists j, a, (h1 ++ c). split; [done|]. by apply pushed_harmless. }
  split; [|split; [|by apply none_of_publish]].
  - intros He. destruct Hres as [(_ & -> & Hobs)|[? _]]; [|done]. rewrite Hrev. repeat split; try done.
    + eapply evidence_mono; [exact Hev|]. set_solver.
    + eapply observed_mono; [exact Hobs|]. set_solver.
  - destruct Hres as [(_ & -> & _)|[_ ->]]; [congruence|done].
Qed.

Lemma push_spec p token h r err h' : push p token h = (r, err, h') ->
  exists calls, h' = h ++ calls /\ leaf r err calls /\ none_of is_acquired calls /\
  (quiet calls \/ exists j a after, calls = j ++ EPublish p token a :: after /\ pushed p token j a after).
Proof.
  unfold push. destruct (PublicationPrepared p h) as [pa h1] eqn:Ep.
  apply prepared_spec in Ep as (j & -> & Hj & Hnone). destruct (harmless_none j Hj) as (J1 & J2 & J3 & J4).
  destruct pa as [e|].
  { intros H. simplify_eq. exists j. split; [done|]. split; [by split|]. split; [done|]. by left. }
  specialize (Hnone eq_refl). unfold Publish. destruct (env_Publish (h ++ j) p token) as [published perr] eqn:Ea.
  case_decide as H1.
  { destruct H1 as (-> & Hl & Hu & Hr). rewrite <- app_assoc. intros H.
    apply (push_committed p token h j (published, None) [] _ _ _ _ _ Hnone Hj) in H as (calls & ? & ? & ? & ?); auto; [by exists calls; auto|].
    right. left. exists p, token, published. split; [by left|done]. }
  case_decide as H2.
  { destruct H2 as (Herr & Hu). destruct (PublicationAborted p _) as [b h2] eqn:Eb.
    apply aborted_spec in Eb as (c & -> & Hc). intros H.
    assert (h' = h ++ (j ++ EPublish p token (published, perr) :: c) /\ err <> None /\ r = zero_PublishResult) as (-> & He & ->).
    { destruct b; simplify_eq; rewrite <- !app_assoc; repeat split; try done. by destruct perr. }
    eexists. split; [done|]. assert (forall f, f (EAborted p b) = false -> none_of f c) as Hf.
    { intros f Hb. destruct Hc as [[-> _]| ->]; by repeat constructor. }
    split; [|split; [by apply none_of_publish; [| |apply Hf]|]].
    - split; [done|]. split; [done|]. by apply none_of_publish; [| |apply Hf].
    - right. exists j, (published, perr), c. split; [done|]. split; [done|]. split; [by apply Hf|]. simpl. split.
      + intros x y Hx. destruct Hc as [[-> _]| ->]; [by apply not_elem_of_nil in Hx|].
        apply list_elem_of_singleton in Hx. by simplify_eq.
      + intros Hsome _ _. destruct Hc as [[_ ?]| ->]; [done|]. exists b. by left. }
  assert (perr = None \/ pr_Uncertain published = true) as Hopen.
  { destruct perr as [l|]; [|by left]. right. destruct (pr_Uncertain published) eqn:Eu; [done|]. by destruct H2. }
  unfold ObserveCommit. destruct (env_ObserveCommit _ _) as [[[|] revision]|oe] eqn:Eo.
  - rewrite <- !app_assoc. intros H.
    apply (push_committed p token h j (published, perr) [EObserve (pp_CommitID p) (Ok (true, revision))] _ _ _ _ _ Hnone Hj) in H
      as (calls & ? & ? & ? & ?); auto; [by exists calls; auto|].
    right. right. exists p, token, (published, perr). set_solver.
  - rewrite <- !app_assoc. intros H. simplify_eq. eexists. split; [done|].
    split; [|split; [by apply none_of_publish; [| |repeat constructor]|]].
    + split; [done|]. split; [done|]. by apply none_of_publish; [| |repeat constructor].
    + right. exists j, (published, perr). eexists. split; [done|]. by apply pushed_harmless; auto; repeat constructor.
  - rewrite <- !app_assoc. intros H. simplify_eq. eexists. split; [done|].
    split; [|split; [by apply none_of_publish; [| |repeat constructor]|]].
    + split; [done|]. split; [done|]. by apply none_of_publish; [| |repeat constructor].
    + right. exists j, (published, perr). eexists. split; [done|]. by apply pushed_harmless; auto; repeat constructor.
Qed.

Lemma leaf_app r err pre calls : none_of is_release pre -> leaf r err calls -> leaf r err (pre ++ calls).
Proof.
  intros Hpre (H1 & H2 & H3). split; [|split; [done|by apply Forall_app]].
  intros He. destruct (H1 He) as (? & ? & Hev & Hobs). repeat split; try done.
  - eapply evidence_mono; [exact Hev|]. set_solver.
  - eapply observed_mono; [exact Hobs|]. set_solver.
Qed.

(** A piece of [Sync] that ends early with an error. *)
Lemma leaf_error e calls : none_of is_release calls -> leaf zero_PublishResult (Some e) calls.
Proof. intros H. by split. Qed.

(** Calls that end before anything is published. *)
Ltac ends_early := rewrite <- ?app_assoc; eexists; split; [done|]; split; [apply leaf_error; none_here|];
  split; [none_here|]; split; [first [by left | right; eexists; simpl; by left]|]; left; split; none_here.

Lemma renew_and_push_spec p l0 h l r err h' :
  renew_and_push config p l0 h = (l, (r, err, h')) ->
  exists calls, h' = h ++ calls /\ leaf r err calls /\ none_of is_acquired calls /\
  (l = l0 \/ exists e, ERenew l0 (l, e) ∈ calls) /\
  (quiet calls \/ exists now j a after,
     calls = [ERenew l0 (l, None); ENow now; ECredential None; EFetch (Ok (pp_ExpectedRemoteRevision p))]
             ++ j ++ EPublish p (ls_FencingToken l) a :: after /\
     pushed p (ls_FencingToken l) j a after /\ now < ls_ExpiresAt l - pc_PublicationMargin config).
Proof.
  unfold renew_and_push, RenewLease, Now, Credential_, Fetch.
  destruct (env_RenewLease h l0 _) as [l1 [e|]] eqn:Er; [intros H; simplify_eq; ends_early|].
  case_decide as Hd; [intros H; simplify_eq; ends_early|].
  destruct (env_Credential _) as [e|]; [intros H; simplify_eq; ends_early|].
  destruct (env_Fetch _) as [current|e]; [|intros H; simplify_eq; ends_early].
  case_decide as Hc; [intros H; simplify_eq; ends_early|].
  subst current. intros H. injection H as -> H.
  apply push_spec in H as (calls & -> & Hleaf & Hacq & Hend). rewrite <- !app_assoc. eexists. split; [done|].
  split; [|split; [|split; [right; eexists; simpl; by left|]]].
  - simpl. apply (leaf_app _ _ [_; _; _; _]); [none_here|done].
  - simpl. by repeat constructor.
  - destruct Hend as [[Q1 Q2]|(j & a & after & -> & Hp)].
    + left. split; simpl; by repeat constructor.
    + right. eexists _, j, a, after. split; [done|]. split; [done|lia].
Qed.

Lemma under_lease_spec remote l0 h l r err h' :
  under_lease config remote l0 h = (l, (r, err, h')) ->
  exists calls, h' = h ++ calls /\ leaf r err calls /\ none_of is_acquired calls /\
  (l = l0 \/ exists e, ERenew l0 (l, e) ∈ calls) /\
  (quiet calls \/ exists p now j a after,
     calls = [EFetch (Ok remote); EReconcile remote (Ok p); ERenew l0 (l, None); ENow now; ECredential None; EFetch (Ok remote)]
             ++ j ++ EPublish p (ls_FencingToken l) a :: after /\
     pushed p (ls_FencingToken l) j a after /\ now < ls_ExpiresAt l - pc_PublicationMargin config /\
     ls_BaseRevision l0 = remote /\ pp_ExpectedRemoteRevision p = remote /\ pp_HasChanges p = true /\ pp_CommitID p <> "").
Proof.
  unfold under_lease, Fetch, Reconcile.
  destruct (env_Fetch _) as [verified|e]; [|intros H; simplify_eq; ends_early].
  case_decide as Hv; [intros H; simplify_eq; ends_early|].
  assert (verified = remote /\ ls_BaseRevision l0 = remote) as [-> Hbase].
  { destruct (decide (verified = remote)), (decide (ls_BaseRevision l0 = remote)); tauto. }
  destruct (env_Reconcile _ _) as [p|e]; [|intros H; simplify_eq; ends_early].
  destruct (pp_HasChanges p) eqn:Hch; simpl.
  - case_decide as Hp; [intros H; simplify_eq; ends_early|].
    assert (pp_ExpectedRemoteRevision p = remote /\ pp_CommitID p <> "") as [Hexp Hid].
    { destruct (decide (pp_ExpectedRemoteRevision p = remote)); tauto. }
    intros H. apply renew_and_push_spec in H as (calls & -> & Hleaf & Hacq & Hl & Hend).
    rewrite <- !app_assoc. eexists. split; [done|]. split; [|split; [|split]].
    + simpl. apply (leaf_app _ _ [_; _]); [none_here|done].
    + simpl. by repeat constructor.
    + destruct Hl as [->|[e He]]; [by left|]. right. exists e. set_solver.
    + destruct Hend as [[Q1 Q2]|(now & j & a & after & -> & Hpush & Hnow)].
      * left. split; simpl; by repeat constructor.
      * right. rewrite Hexp. exists p, now, j, a, after. done.
  - intros H. injection H as -> H. apply committed_spec in H as (c & -> & Hc & Hres).
    destruct (harmless_none c Hc) as (C1 & C2 & C3 & C4). rewrite <- !app_assoc. eexists. split; [done|].
    split; [|split; [simpl; by repeat constructor|split; [by left|left; split; simpl; by repeat constructor]]].
    split; [|split; [by destruct Hres as [(_ & -> & _)|[_ ->]]|simpl; by repeat constructor]].
    intros He. destruct Hres as [(_ & -> & Hobs)|[? _]]; [|done]. simpl. repeat split.
    + left. exists p. split; [set_solver|done].
    + eapply observed_mono; [exact Hobs|]. set_solver.
Qed.
End Spec.

(** At most one push, guarded; an abort only after a push that certainly failed. *)
Definition one_guarded_push `{E : Env} (config : PublisherConfig) (calls : history) : Prop :=
  (none_of is_publish calls /\ none_of is_aborted calls) \/
  exists before p token a after, calls = before ++ EPublish p token a :: after /\
    none_of is_publish before /\ none_of is_aborted before /\ none_of is_publish after /\ guarded config before p token /\
    forall x b, EAborted x b ∈ after -> x = p /\ pr_Uncertain a.1 = false /\ a.2 <> None.

(** No lease, or exactly one release, at the end, of the lease that was acquired or of what
    its renewal returned. *)
Definition one_release (calls : history) : Prop :=
  (none_of is_acquired calls /\ none_of is_release calls) \/
  exists front base l0 l a, calls = front ++ [ERelease l a] /\ none_of is_release front /\
    EAcquire base (Ok l0) ∈ front /\ (l = l0 \/ exists e, ERenew l0 (l, e) ∈ front).

(** A run that ends before a lease is asked for, or without one. *)
Lemma run_without_lease `{E : Env} config r e calls :
  r = zero_PublishResult \/ pr_Uncertain r = false ->
  Forall (fun e => harmless e = true) calls ->
  one_guarded_push config calls /\
  (Some e = None -> pr_Landed r = true /\ pr_Uncertain r = false /\ evidence (pr_RemoteRevision r) calls /\ observed (pr_RemoteRevision r) calls) /\
  (pr_Uncertain r = true -> errors_Is (Some e) ErrSyncUncertain = true) /\ one_release calls.
Proof.
  intros Hr Hc. destruct (harmless_none _ Hc) as (C1 & C2 & C3 & C4). split; [by left|]. split; [done|].
  split; [|by left]. by destruct Hr as [-> | ->].
Qed.

Ltac no_lease := intros H; simplify_eq; rewrite <- ?app_assoc; eexists; split; [done|];
  apply run_without_lease; [by auto|simpl; by repeat constructor].

Lemma run_with_lease `{E : Env} config remote p0 l0 l calls a r err :
  remote <> "" -> pp_HasChanges p0 = true -> leaf r err calls ->
  (l = l0 \/ exists e, ERenew l0 (l, e) ∈ calls) ->
  (quiet calls \/ exists p now j a after,
     calls = [EFetch (Ok remote); EReconcile remote (Ok p); ERenew l0 (l, None); ENow now; ECredential None; EFetch (Ok remote)]
             ++ j ++ EPublish p (ls_FencingToken l) a :: after /\
     pushed p (ls_FencingToken l) j a after /\ now < ls_ExpiresAt l - pc_PublicationMargin config /\
     ls_BaseRevision l0 = remote /\ pp_ExpectedRemoteRevision p = remote /\ pp_HasChanges p = true /\ pp_CommitID p <> "") ->
  let all := [EFetch (Ok remote); ECredential None; EReconcile remote (Ok p0); EAcquire remote (Ok l0)] ++ calls ++ [ERelease l a] in
  let err' := match err with None => a | Some _ => err end in
  one_guarded_push config all /\
  (err' = None -> pr_Landed r = true /\ pr_Uncertain r = false /\ evidence (pr_RemoteRevision r) all /\ observed (pr_RemoteRevision r) all) /\
  (pr_Uncertain r = true -> errors_Is err' ErrSyncUncertain = true) /\ one_release all.
Proof.
  intros Hrem Hch Hleaf Hl Hend all err'. split; [|split; [|split]].
  - destruct Hend as [[Q1 Q2]|(p & now & j & b & after & -> & (Hj & P1 & P2 & P3) & Hnow & Hbase & Hexp & Hp & Hid)].
    + left. split; apply Forall_app; (split; [none_here|]); apply Forall_app; (split; [done|none_here]).
    + right. exists ([EFetch (Ok remote); ECredential None; EReconcile remote (Ok p0); EAcquire remote (Ok l0);
        EFetch (Ok remote); EReconcile remote (Ok p); ERenew l0 (l, None); ENow now; ECredential None; EFetch (Ok remote)] ++ j),
        p, (ls_FencingToken l), b, (after ++ [ERelease l a]).
      split; [unfold all; simpl; by rewrite <- !app_assoc|].
      assert (none_of is_publish j /\ none_of is_aborted j) as [Hj1 Hj2].
      { destruct Hj as [[-> _]| ->]; split; none_here. }
      split; [simpl; by repeat constructor|]. split; [simpl; by repeat constructor|].
      split; [apply Forall_app; split; [done|none_here]|]. split.
      * exists p0, l0, l, now, j. rewrite Hexp. simpl. repeat split; done.
      * intros x y Hx. apply (P2 x y). apply elem_of_app in Hx as [?|Hx%list_elem_of_singleton]; done.
  - intros He. unfold err' in He. destruct err as [e|]; [done|]. destruct Hleaf as (L1 & _ & _).
    destruct (L1 eq_refl) as (? & ? & Hev & Hobs). split; [done|]. split; [done|]. split.
    + eapply evidence_mono; [exact Hev|]. set_solver.
    + eapply observed_mono; [exact Hobs|]. set_solver.
  - intros Hu. unfold err'. destruct Hleaf as (_ & L2 & _). apply L2 in Hu. by destruct err.
  - right. eexists _, remote, l0, l, a. split; [unfold all; by rewrite app_assoc|].
    destruct Hleaf as (_ & _ & L3). split; [apply Forall_app; by split; [none_here|]|]. split; [set_solver|].
    destruct Hl as [->|[e He]]; [by left|]. right. exists e. set_solver.
Qed.

(** C12.  Publication is guarded: whatever the repository, the control plane and the clock
    answer, one run of [Sync] pushes at most once, and only a commit that was prepared under
    a lease taken at the head it replaces, with the fencing token of the renewed lease, this
    lease not near its end, the credential checked and the head found unchanged after the
    renewal, and the journal written; the journal is told of an abort only when the push
    certainly failed.  Success is returned only for a revision that landed, by the word of
    the push or of the remote, and that the observer has accepted; a result called uncertain
    carries the error for it.  When a lease was acquired, the last call is a release, and the
    only one. *)
Theorem publication_guarded `{E : Env} (config : PublisherConfig) (h : history) (r : PublishResult) (err : error) (h' : history) :
  Sync config h = (r, err, h') ->
  exists calls, h' = h ++ calls /\ one_guarded_push config calls /\
  (err = None -> pr_Landed r = true /\ pr_Uncertain r = false /\
     evidence (pr_RemoteRevision r) calls /\ observed (pr_RemoteRevision r) calls) /\
  (pr_Uncertain r = true -> errors_Is err ErrSyncUncertain = true) /\
  one_release calls.
Proof.
  unfold Sync, Fetch, Credential_, Reconcile, AcquireLease, ReleaseLease.
  destruct (env_Fetch _) as [remote|e]; [|no_lease].
  case_decide as Hempty; [no_lease|].
  destruct (env_Credential _) as [e|]; [no_lease|].
  destruct (env_Reconcile _ _) as [p0|e]; [|destruct (errors_Is _ _); no_lease].
  destruct (pp_HasChanges p0) eqn:Hch; simpl.
  2:{ intros H. apply committed_spec in H as (c & -> & Hc & Hres). rewrite <- !app_assoc. eexists. split; [done|].
      destruct Hres as [(-> & -> & Hobs)|[He ->]].
      - destruct (harmless_none c Hc) as (C1 & C2 & C3 & C4).
        split; [left; split; simpl; by repeat constructor|]. split; [|split; [done|left; split; simpl; by repeat constructor]].
        intros _. simpl. repeat split; [left; exists p0; split; [set_solver|done]|].
        eapply observed_mono; [exact Hobs|set_solver].
      - destruct err as [e|]; [|done]. apply run_without_lease; [by left|]. simpl. by repeat constructor. }
  destruct (env_AcquireLease _ _ _) as [l0|e]; [|no_lease].
  destruct (under_lease config remote l0 _) as [l [[r1 err1] h1]] eqn:El. generalize (env_ReleaseLease h1 l). intros a H. simplify_eq.
  apply under_lease_spec in El as (calls & -> & Hleaf & Hacq & Hl & Hend).
  eexists. split; [rewrite <- !app_assoc; done|].
  exact (run_with_lease config remote p0 l0 l calls a r err1 Hempty Hch Hleaf Hl Hend).
Qed.
