(* ===== verification/CommitGraph.v ===== *)
(** * Reachability of a commit ([internal/configsync/git_repository.go])

    [ObserveCommit] decides whether an uncertain push has landed: it fetches the branch and
    searches the commit from its head.  [commitReachable] is this search, breadth first and
    bounded by the number of commits it looks at.  The object store of the Git library is a
    map from a commit to its parents; the iterator over the parents of a commit loads each of
    them, and stops at one that is not there. *)

From S2P Require Import Prelude Publisher.

Abbreviation hash := string (only parsing).
Abbreviation objects := (gmap string (list string)) (only parsing).

(** What a walk over the parents of one commit ends with. *)
Inductive visit_result := Found | Missing | Queued (queue : list hash).

Section Search.
Variable repository : objects.
Variable want : hash.

(** [commit.Parents().ForEach(...)]. *)
Fixpoint visit (parents queue : list hash) : visit_result :=
  match parents with
  | [] => Queued queue
  | parent :: rest =>
      match repository !! parent with
      | None => Missing
      | Some _ => if decide (parent = want) then Found else visit rest (queue ++ [parent])
      end
  end.

(** The commits at the front of the queue that were seen before are passed over. *)
Fixpoint skip (seen : gset hash) (queue : list hash) : list hash :=
  match queue with
  | [] => []
  | hash :: rest => if decide (hash ∈ seen) then skip seen rest else queue
  end.

(** The loop; [room] is [limit - len(seen)], which each commit looked at lowers by one. *)
Fixpoint search (room : nat) (queue : list hash) (seen : gset hash) : result sync_error bool :=
  match skip seen queue, room with
  | [], _ | _, O => Ok (bool_decide (want ∈ seen))
  | hash :: queue, S room =>
      match repository !! hash with
      | None => Err ErrGitRepositoryInvalid
      | Some parents =>
          match visit parents queue with
          | Found => Ok true
          | Missing => Err ErrGitRepositoryInvalid
          | Queued queue => search room queue ({[hash]} ∪ seen)
          end
      end
  end.

Definition commitReachable (head : hash) (limit : nat) : result sync_error bool :=
  if decide (want = head) then Ok true else search limit [head] ∅.

End Search.

(** The search of [ObserveCommit]. *)
Definition observe_limit : nat := Z.to_nat 10000.
Definition observed_landed (repository : objects) (commit head : hash) : result sync_error bool :=
  commitReachable repository commit head observe_limit.

(** ** The search is exact *)

(** [y] is a parent of [x]. *)
Definition parent_of (repository : objects) (x y : hash) : Prop :=
  exists parents, repository !! x = Some parents /\ y ∈ parents.

Lemma skip_spec seen queue : exists passed, queue = passed ++ skip seen queue /\ (forall x, x ∈ passed -> x ∈ seen) /\
  forall x rest, skip seen queue = x :: rest -> x ∉ seen.
Proof.
  induction queue as [|x queue (passed & Hq & Hp & Hs)]; simpl.
  - exists []. split; [done|]. split; [set_solver|done].
  - case_decide as Hx.
    + exists (x :: passed). simpl. rewrite <- Hq. split; [done|]. split; [set_solver|done].
    + exists []. split; [done|]. split; [set_solver|]. intros y rest H. by injection H as -> _.
Qed.

Lemma visit_found repository want parents : forall queue,
  visit repository want parents queue = Found -> want ∈ parents.
Proof.
  induction parents as [|y parents IH]; intros queue H; simpl in H; [done|].
  destruct (repository !! y); [|done]. case_decide as Hy; [rewrite Hy; left|]. right. by eapply IH.
Qed.

Lemma visit_queued repository want parents : forall queue queue',
  visit repository want parents queue = Queued queue' -> queue' = queue ++ parents /\ want ∉ parents.
Proof.
  induction parents as [|y parents IH]; intros queue queue' H; simpl in H.
  - injection H as <-. rewrite app_nil_r. split; [done|]. apply not_elem_of_nil.
  - destruct (repository !! y); [|done]. case_decide as Hy; [done|]. apply IH in H as [-> Hn].
    rewrite <- app_assoc. split; [done|]. apply not_elem_of_cons. by split; [congruence|].
Qed.

Lemma visit_missing repository want parents : forall queue,
  visit repository want parents queue = Missing -> exists y, y ∈ parents /\ repository !! y = None.
Proof.
  induction parents as [|y parents IH]; intros queue H; simpl in H; [done|].
  destruct (repository !! y) eqn:Ey; [|exists y; split; [left|done]].
  case_decide; [done|]. apply IH in H as (z & Hz & ?). exists z. split; [by right|done].
Qed.

(** The state of the search: what was seen was looked at completely. *)
Record searching (repository : objects) (want head : hash) (queue : list hash) (seen : gset hash) : Prop := {
  se_head : head ∈ seen \/ head ∈ queue;
  se_reach : forall x, x ∈ seen \/ x ∈ queue -> rtc (parent_of repository) head x;
  se_closed : forall x y, x ∈ seen -> parent_of repository x y -> (y ∈ seen \/ y ∈ queue) /\ y <> want;
  se_want : (want ∉ seen) /\ (want ∉ queue)
}.

Lemma searching_skip repository want head queue seen :
  searching repository want head queue seen -> searching repository want head (skip seen queue) seen.
Proof.
  intros [H1 H2 H3 H4]. destruct (skip_spec seen queue) as (passed & Hq & Hp & _). rewrite Hq in H1, H2, H3, H4.
  assert (forall x, x ∈ seen \/ x ∈ passed ++ skip seen queue -> x ∈ seen \/ x ∈ skip seen queue) as Hx.
  { intros x [?|Hx]; [by left|]. apply elem_of_app in Hx as [Hx|Hx]; [left; by apply Hp|by right]. }
  split; [by apply Hx| | |].
  - intros x Hin. apply H2. set_solver.
  - intros x y Hin Hxy. destruct (H3 x y Hin Hxy) as [? ?]. split; [by apply Hx|done].
  - set_solver.
Qed.

Lemma searching_visit repository want head x queue seen parents :
  searching repository want head (x :: queue) seen -> repository !! x = Some parents -> want ∉ parents ->
  searching repository want head (queue ++ parents) ({[x]} ∪ seen).
Proof.
  intros [H1 H2 H3 H4] Hx Hw. split.
  - set_solver.
  - intros y Hy. destruct (decide (y ∈ parents)) as [Hp|Hp].
    + eapply rtc_r; [apply (H2 x); right; left|]. by exists parents.
    + apply H2. set_solver.
  - intros y z Hy Hyz. destruct (decide (y = x)) as [->|Hne].
    + destruct Hyz as (ps & Hps & Hz). rewrite Hx in Hps. injection Hps as <-. split; [set_solver|]. intros ->. done.
    + assert (y ∈ seen) as Hs by set_solver. destruct (H3 y z Hs Hyz) as [? ?]. split; [set_solver|done].
  - set_solver.
Qed.

(** Nothing that was completely looked at reaches [want]. *)
Lemma searching_done repository want head seen :
  searching repository want head [] seen -> ~ rtc (parent_of repository) head want.
Proof.
  intros [H1 H2 H3 H4] Hr. assert (head ∈ seen) as Hs by set_solver. clear H1 H2.
  destruct H4 as [H4 _]. revert Hs. induction Hr as [x|x y z Hxy Hr IH]; intros Hs; [done|].
  apply IH; [|done|]; destruct (H3 x y Hs Hxy) as [[?|?] ?]; set_solver.
Qed.

(** The result of the loop, given a set [R] that holds every commit below the head. *)
Lemma search_spec repository want head (R : gset hash) :
  (forall x, rtc (parent_of repository) head x -> x ∈ R) ->
  forall room queue seen, searching repository want head queue seen ->
  match search repository want room queue seen with
  | Ok true => rtc (parent_of repository) head want
  | Ok false => (size R <= room + size seen)%nat -> ~ rtc (parent_of repository) head want
  | Err _ => exists x, rtc (parent_of repository) head x /\ repository !! x = None
  end.
Proof.
  intros HR. induction room as [|room IH]; intros queue seen Hs; apply searching_skip in Hs; pose proof Hs as [S1 S2 S3 [S4 S5]];
    simpl; destruct (skip_spec seen queue) as (_ & _ & _ & Hfresh); destruct (skip seen queue) as [|x rest] eqn:Eq.
  1,3: rewrite bool_decide_eq_false_2 by done; intros _; by eapply searching_done.
  - rewrite bool_decide_eq_false_2 by done. intros Hsize.
    assert ({[x]} ∪ seen ⊆ R) as Hsub.
    { intros y Hy. apply HR, S2. set_solver. }
    apply subseteq_size in Hsub. rewrite size_union, size_singleton in Hsub; [lia|].
    specialize (Hfresh x rest eq_refl). set_solver.
  - destruct (repository !! x) as [parents|] eqn:Ex; [|exists x; split; [apply S2; right; left|done]].
    destruct (visit repository want parents rest) as [| |queue'] eqn:Ev.
    + eapply rtc_r; [apply (S2 x); right; left|]. exists parents. split; [done|]. by eapply visit_found.
    + apply visit_missing in Ev as (y & Hy & Hn). exists y. split; [|done].
      eapply rtc_r; [apply (S2 x); right; left|]. by exists parents.
    + apply visit_queued in Ev as [-> Hw]. pose proof (searching_visit _ _ _ _ _ _ _ Hs Ex Hw) as Hnext.
      apply IH in Hnext. destruct (search _ _ room _ _) as [[|]|]; [done| |done].
      intros Hsize. apply Hnext. rewrite size_union, size_singleton; [lia|].
      specialize (Hfresh x rest eq_refl). set_solver.
Qed.


(** ** A history with a merge *)

Definition demo_objects : objects :=
  {["c4" := ["c2"; "c3"]; "c3" := ["c1"]; "c2" := ["c1"]; "c1" := ["c0"]; "c0" := []; "x1" := ["c0"]]}.
Definition demo_below : gset hash := {["c4"; "c3"; "c2"; "c1"; "c0"]}.

Lemma demo_closed x : rtc (parent_of demo_objects) "c4" x -> x ∈ demo_below.
Proof.
  assert ("c4"%string ∈ demo_below) as Hin by (vm_compute; by eexists). revert Hin. generalize "c4"%string as y. intros y Hy Hr.
  induction Hr as [|y z w (ps & Hps & Hz) Hr IH]; [done|]. apply IH.
  assert (map_Forall (fun k v => k ∈ demo_below -> Forall (fun z => z ∈ demo_below) v) demo_objects) as Hall.
  { apply (bool_decide_unpack _). by vm_compute. }
  specialize (Hall y ps Hps Hy). rewrite Forall_forall in Hall. by apply Hall.
Qed.


(** With too small a limit an ancestor is not found. *)
Example search_gives_up : commitReachable demo_objects "c0" "c4" 3 = Ok false /\ commitReachable demo_objects "c0" "c4" 4 = Ok true.
Proof. by vm_compute. Qed.
