(* ===== verification/ConfigControl.v ===== *)
(** * The control plane client of configuration sync ([internal/configsync/control_client.go])

    [ControlClient] keeps the last credential and the last access to the repository, and asks
    for a new one when the old one is about to expire or was invalidated; leases are asked
    for, renewed and released with the credential.  Identifiers of operations, tokens,
    proofs and the HTTP exchange are inputs: an exchange gives a status and what the strict
    decoder makes of the body. *)

From S2P Require Import Prelude Publisher.

Record Credential := mkCredential {
  cr_Value : string; cr_EnvironmentID : string; cr_HelperID : string; cr_AssignmentID : string;
  cr_WarningRevision : string; cr_ExpiresAt : time
}.
#[global] Instance Credential_eq_dec : EqDecision Credential.
Proof. solve_decision. Defined.
Definition zero_Credential : Credential := mkCredential "" "" "" "" "" zero_time.

Record RepositoryAccess := mkAccess {
  ra_RepositoryID : string; ra_AssignmentID : string; ra_EnvironmentID : string; ra_HelperID : string;
  ra_CloneURL : string; ra_PublishURL : string; ra_Branch : string; ra_Username : string; ra_Password : string;
  ra_Capability : string; ra_ExpiresAt : time
}.
#[global] Instance RepositoryAccess_eq_dec : EqDecision RepositoryAccess.
Proof. solve_decision. Defined.
Definition zero_RepositoryAccess : RepositoryAccess := mkAccess "" "" "" "" "" "" "" "" "" "" zero_time.

(** The fields under [mu]. *)
Record ControlClient := mkClient { cc_credential : Credential; cc_access : RepositoryAccess }.
Definition new_client : ControlClient := mkClient zero_Credential zero_RepositoryAccess.

Definition InvalidateCredential (c : ControlClient) : ControlClient := mkClient zero_Credential zero_RepositoryAccess.
Definition RevalidateCredential (c : ControlClient) : ControlClient := mkClient zero_Credential (cc_access c).

(** What the calls before an exchange return: the identifier of the operation, the token, the
    proof, the request; [None] is no error. *)
Record preparation := mkPreparation { pn_operationID : error; pn_Token : error; pn_Proof : error; pn_request : error }.

(** A response: its status, and its body decoded as [A] or not decodable. *)
Record response (A : Type) := mkResponse { rs_StatusCode : Z; rs_body : option A }.
Arguments mkResponse {A}.
Arguments rs_StatusCode {A}.
Arguments rs_body {A}.

Definition minute : Z := 60 * second.

(** ** Credentials *)

(** The condition under which the cached credential is used. *)
Definition usable (now : time) (c : Credential) : bool :=
  bool_decide (cr_Value c <> "" /\ cr_ExpiresAt c > now + 30 * second).

Definition valid_credential (now : time) (c : Credential) : bool :=
  bool_decide (cr_Value c <> "" /\ cr_EnvironmentID c <> "" /\ cr_HelperID c <> "" /\ cr_AssignmentID c <> "" /\
    cr_WarningRevision c <> "" /\ cr_ExpiresAt c > now /\ ~ cr_ExpiresAt c > now + (5 * minute + second)).

(** [Credential] holds the lock during the exchange. *)
Definition Credential_request (now : time) (pn : preparation) (exchange : result (list sync_error) (response Credential))
    (c : ControlClient) : result (list sync_error) Credential * ControlClient :=
  if usable now (cc_credential c) then (Ok (cc_credential c), c)
  else
    match pn_operationID pn, pn_Token pn, pn_Proof pn, pn_request pn, exchange with
    | Some e, _, _, _, _ | None, Some e, _, _, _ | None, None, Some e, _, _ => (Err (ErrAuthorization :: e), c)
    | None, None, None, Some e, _ => (Err e, c)
    | None, None, None, None, Err e => (Err (ErrAuthorization :: e), c)
    | None, None, None, None, Ok r =>
        match rs_body r with
        | Some data =>
            if decide (rs_StatusCode r = 200 /\ valid_credential now data = true)
            then (Ok data, mkClient data (cc_access c))
            else (Err [ErrAuthorization], c)
        | None => (Err [ErrAuthorization], c)
        end
    end.

(** ** Access to the repository *)

(** What [url.Parse] says of an address. *)
Record parsed_url := mkUrl { pu_Scheme : string; pu_User : bool; pu_Hostname : string; pu_RawQuery : string; pu_Fragment : string; pu_Path : string }.

Class UrlLibrary := { url_Parse : string -> option parsed_url }.

(** [strings.HasSuffix], and [strings.ToLower] on ASCII. *)
Definition strings_HasSuffix (s suffix : string) : bool :=
  bool_decide (String.list_ascii_of_string suffix `suffix_of` String.list_ascii_of_string s).
Definition lower (a : ascii) : ascii :=
  let n := nat_of_ascii a in if ((65 <=? n) && (n <=? 90))%nat then ascii_of_nat (n + 32) else a.
Definition strings_ToLower (s : string) : string :=
  String.string_of_list_ascii (lower <$> String.list_ascii_of_string s).

Definition valid_url `{UrlLibrary} (hosts : gset string) (raw : string) : bool :=
  match url_Parse raw with
  | Some u => bool_decide (pu_Scheme u = "https" /\ pu_User u = false /\ pu_Hostname u <> "" /\ pu_RawQuery u = "" /\
      pu_Fragment u = "" /\ strings_HasSuffix (pu_Path u) ".git" = true /\ strings_ToLower (pu_Hostname u) ∈ hosts)
  | None => false
  end.

Definition validRepositoryAccess `{UrlLibrary} (hosts : gset string) (a : RepositoryAccess) (c : Credential) (now : time) : bool :=
  bool_decide (ra_RepositoryID a <> "" /\ ra_AssignmentID a = cr_AssignmentID c /\ ra_EnvironmentID a = cr_EnvironmentID c /\
    ra_HelperID a = cr_HelperID c /\ ra_Branch a <> "" /\ (String.length (ra_Branch a) <= 255)%nat /\ ra_Username a = "x-access-token" /\
    (ra_Capability a = "repository_contents_read" \/ ra_Capability a = "repository_contents_write") /\
    ra_Password a <> "" /\ (String.length (ra_Password a) <= 4096)%nat /\ ra_ExpiresAt a > now + minute /\
    ~ ra_ExpiresAt a > now + (60 * minute + minute)) &&
  forallb (valid_url hosts) [ra_CloneURL a; ra_PublishURL a].

(** [RepositoryAccess] is two critical sections with exchanges between them: the look at the
    cache, and the end with the response; [credential] is what [Credential] has returned
    meanwhile and [now] the time at the beginning. *)
Definition access_begin (now : time) (c : ControlClient) : option RepositoryAccess :=
  if decide (ra_Password (cc_access c) <> "" /\ ra_ExpiresAt (cc_access c) > now + minute) then Some (cc_access c) else None.

Definition access_end `{UrlLibrary} (hosts : gset string) (now : time) (credential : Credential)
    (r : response RepositoryAccess) (c : ControlClient) : result (list sync_error) RepositoryAccess * ControlClient :=
  if decide (rs_StatusCode r <> 200) then
    if decide (rs_StatusCode r = 401) then (Err [ErrAuthorization], InvalidateCredential c)
    else (Err [ErrControlClientInvalid], c)
  else
    match rs_body r with
    | Some data =>
        if validRepositoryAccess hosts data credential now then (Ok data, mkClient (cc_credential c) data)
        else (Err [ErrControlClientInvalid], c)
    | None => (Err [ErrControlClientInvalid], c)
    end.

(** ** Leases *)

(** The body of a response to a request for a lease: the code of an error, or the answer to a
    release, or a lease. *)
Record lease_body := mkLeaseBody { lb_code : string; lb_Released : option bool; lb_Lease : option Lease }.

Inductive lease_path := PathAcquire | PathRenew | PathRelease.
#[global] Instance lease_path_eq_dec : EqDecision lease_path.
Proof. solve_decision. Defined.

(** Everything [leaseRequest] learns from outside. *)
Record lease_exchange := mkExchange {
  le_credential : result (list sync_error) Credential;
  le_preparation : preparation;
  le_response : result (list sync_error) (Z * lease_body);
  le_now : time
}.

Definition valid_lease (now : time) (c : Credential) (l : Lease) : bool :=
  bool_decide (ls_LeaseID l <> "" /\ ls_RepositoryID l <> "" /\ ~ ls_FencingToken l < 1 /\
    ls_AssignmentID l = cr_AssignmentID c /\ ls_EnvironmentID l = cr_EnvironmentID c /\ ls_HelperID l = cr_HelperID c /\
    ls_ExpiresAt l > now).

(** The answer, and whether the credential is invalidated. *)
Definition leaseRequest (path : lease_path) (x : lease_exchange) : Lease * error * bool :=
  match le_credential x with
  | Err e => (zero_Lease, Some e, false)
  | Ok credential =>
      match pn_Token (le_preparation x), pn_Proof (le_preparation x), pn_request (le_preparation x), le_response x with
      | Some e, _, _, _ | None, Some e, _, _ => (zero_Lease, Some (ErrAuthorization :: e), false)
      | None, None, Some e, _ | None, None, None, Err e => (zero_Lease, Some e, false)
      | None, None, None, Ok (status, body) =>
          if decide (status <> 200) then
            if decide (lb_code body = "config_writes_disabled") then (zero_Lease, fail ErrWritesDisabled, false)
            else if decide (lb_code body = "lease_busy") then (zero_Lease, fail ErrLeaseBusy, false)
            else if decide (lb_code body = "lease_lost") then (zero_Lease, fail ErrLeaseLost, false)
            else if decide (lb_code body = "operation_conflict") then (zero_Lease, fail ErrOperationConflict, false)
            else if decide (status = 401) then (zero_Lease, fail ErrAuthorization, true)
            else (zero_Lease, fail (ErrOther "config lease request failed"), false)
          else if decide (path = PathRelease) then
            match lb_Released body with
            | None => (zero_Lease, fail (ErrOther "decode"), false)
            | Some released => if released then (zero_Lease, None, false) else (zero_Lease, fail ErrControlClientInvalid, false)
            end
          else
            match lb_Lease body with
            | Some l => if valid_lease (le_now x) credential l then (l, None, false) else (zero_Lease, fail ErrControlClientInvalid, false)
            | None => (zero_Lease, fail ErrControlClientInvalid, false)
            end
      end
  end.

(** [acquireLease], for a base revision without surrounding white space. *)
Definition lease_acquire (operation : error) (x : lease_exchange) (baseRevision : string) : Lease * error * bool :=
  match operation with
  | Some e => (zero_Lease, Some e, false)
  | None =>
      let '(lease, err, invalid) := leaseRequest PathAcquire x in
      if decide (err = None /\ ls_BaseRevision lease <> baseRevision)
      then (zero_Lease, fail ErrControlClientInvalid, invalid)
      else (lease, err, invalid)
  end.

Definition same_lease (a b : Lease) : bool :=
  bool_decide (ls_LeaseID a = ls_LeaseID b /\ ls_RepositoryID a = ls_RepositoryID b /\ ls_AssignmentID a = ls_AssignmentID b /\
    ls_EnvironmentID a = ls_EnvironmentID b /\ ls_HelperID a = ls_HelperID b /\ ls_FencingToken a = ls_FencingToken b /\
    ls_BaseRevision a = ls_BaseRevision b).

Definition lease_renew (operation : error) (x : lease_exchange) (lease : Lease) : Lease * error * bool :=
  match operation with
  | Some e => (zero_Lease, Some e, false)
  | None =>
      let '(renewed, err, invalid) := leaseRequest PathRenew x in
      if decide (err = None /\ same_lease renewed lease = false) then (zero_Lease, fail ErrControlClientInvalid, invalid)
      else (renewed, err, invalid)
  end.

Definition lease_release (operation : error) (x : lease_exchange) : error * bool :=
  match operation with
  | Some e => (Some e, false)
  | None => let '(_, err, invalid) := leaseRequest PathRelease x in (err, invalid)
  end.

(** ** Credentials over time

    The operations on the client in any order; [issued] are the credentials the control plane
    has answered with, and when. *)

Inductive client_step : ControlClient * list (time * Credential) -> ControlClient * list (time * Credential) -> Prop :=
| step_credential c issued now pn exchange r c' :
    Credential_request now pn exchange c = (r, c') ->
    client_step (c, issued) (c', issued ++ match exchange with Ok (mkResponse 200 (Some x)) => [(now, x)] | _ => [] end)
| step_invalidate c issued : client_step (c, issued) (InvalidateCredential c, issued)
| step_revalidate c issued : client_step (c, issued) (RevalidateCredential c, issued)
| step_access `{UrlLibrary} c issued hosts now credential answer r c' :
    access_end hosts now credential answer c = (r, c') -> client_step (c, issued) (c', issued).

(** A credential that was issued, for at most five minutes and a second. *)
Definition was_issued (issued : list (time * Credential)) (c : Credential) : Prop :=
  exists t, (t, c) ∈ issued /\ t < cr_ExpiresAt c <= t + (5 * minute + second) /\
    cr_EnvironmentID c <> "" /\ cr_HelperID c <> "" /\ cr_AssignmentID c <> "" /\ cr_WarningRevision c <> "".

Lemma was_issued_mono issued more c : was_issued issued c -> was_issued (issued ++ more) c.
Proof. intros (t & Ht & H). exists t. split; [|done]. set_solver. Qed.

(** What one call of [Credential] returns. *)
Lemma Credential_request_spec now pn exchange c r c' :
  Credential_request now pn exchange c = (r, c') ->
  (usable now (cc_credential c) = true /\ r = Ok (cc_credential c) /\ c' = c) \/
  (usable now (cc_credential c) = false /\ c' = c /\ exists e, r = Err e) \/
  (exists x, exchange = Ok (mkResponse 200 (Some x)) /\ valid_credential now x = true /\ r = Ok x /\ c' = mkClient x (cc_access c)).
Proof.
  unfold Credential_request. destruct (usable now (cc_credential c)); [intros H; simplify_eq; by left|].
  intros H. right. destruct pn as [[?|] [?|] [?|] [?|]]; simpl in H; simplify_eq; eauto.
  destruct exchange as [[status [data|]]|e]; simpl in H; simplify_eq; eauto.
  case_decide as Hd; simplify_eq; [|eauto]. right. destruct Hd as [-> Hv]. eauto.
Qed.

Definition client_ok (w : ControlClient * list (time * Credential)) : Prop :=
  cr_Value (cc_credential w.1) = "" \/ was_issued w.2 (cc_credential w.1).

Lemma valid_was_issued issued now x :
  (now, x) ∈ issued -> valid_credential now x = true -> was_issued issued x.
Proof.
  intros Hin Hv. unfold valid_credential in Hv. apply bool_decide_eq_true in Hv as (? & ? & ? & ? & ? & ? & ?).
  exists now. repeat split; try done; lia.
Qed.

Lemma client_step_ok w w' : client_step w w' -> client_ok w -> client_ok w'.
Proof.
  intros Hstep Hok. destruct Hstep as [c issued now pn exchange r c' H|c issued|c issued|U c issued hosts now credential answer r c' H];
    [|by left|by left|].
  - apply Credential_request_spec in H as [(_ & _ & ->)|[(_ & -> & _)|(x & -> & Hv & _ & ->)]].
    + destruct Hok as [?|Hok]; [by left|right]. by apply was_issued_mono.
    + destruct Hok as [?|Hok]; [by left|right]. by apply was_issued_mono.
    + right. eapply valid_was_issued; [|done]. set_solver.
  - unfold access_end in H. repeat (case_decide || case_match); simplify_eq; solve [done|by left].
Qed.

(** A credential that is returned was issued, is for at most five minutes and a second, and
    comes from the exchange of this call or has more than thirty seconds left. *)
Theorem credential_lifetime (c : ControlClient) (issued : list (time * Credential)) now pn exchange x c' :
  rtc client_step (new_client, []) (c, issued) ->
  Credential_request now pn exchange c = (Ok x, c') ->
  (exchange = Ok (mkResponse 200 (Some x)) /\ now < cr_ExpiresAt x <= now + (5 * minute + second)) \/
  (was_issued issued x /\ cr_ExpiresAt x > now + 30 * second).
Proof.
  intros Hreach H. assert (client_ok (c, issued)) as Hok.
  { eapply (rtc_invariant client_step client_ok client_step_ok); [exact Hreach|by left]. }
  apply Credential_request_spec in H as [(Hu & Hx & _)|[(_ & _ & [? ?])|(y & -> & Hv & Hx & _)]]; [right| |left]; simplify_eq.
  - unfold usable in Hu. apply bool_decide_eq_true in Hu as [Hne Hexp]. split; [|done]. by destruct Hok.
  - split; [done|]. unfold valid_credential in Hv. apply bool_decide_eq_true in Hv as (? & ? & ? & ? & ? & ? & ?). lia.
Qed.

(** A renewal returns the lease it was given with a later end, or no lease at all. *)
Theorem lease_renew_exact operation x lease renewed err invalid :
  lease_renew operation x lease = (renewed, err, invalid) ->
  (err = None /\ same_lease renewed lease = true /\ le_now x < ls_ExpiresAt renewed /\ 1 <= ls_FencingToken renewed) \/
  (err <> None /\ renewed = zero_Lease).
Proof.
  assert (forall l e i, leaseRequest PathRenew x = (l, e, i) ->
    (e = None /\ le_now x < ls_ExpiresAt l /\ 1 <= ls_FencingToken l) \/ (e <> None /\ l = zero_Lease)) as Hreq.
  { intros l e i H. unfold leaseRequest, fail in H. repeat (case_decide || case_match); simplify_eq; auto.
    match goal with H : valid_lease _ _ _ = true |- _ => unfold valid_lease in H; apply bool_decide_eq_true in H as (? & ? & ? & ? & ? & ? & ?) end.
    left. split; [done|lia]. }
  unfold lease_renew. destruct operation as [e|]; [intros H; simplify_eq; by right|].
  destruct (leaseRequest PathRenew x) as [[l e] i] eqn:E. specialize (Hreq l e i eq_refl).
  case_decide as Hd; intros H; simplify_eq; [by right|].
  destruct Hreq as [(-> & ? & ?)|[? ->]]; [left|by right]. repeat split; try done.
  destruct (same_lease renewed lease); [done|]. by destruct Hd.
Qed.

(** ** Two runs *)

Definition demo_credential : Credential := mkCredential "cred" "env" "helper" "assignment" "w1" (300 * second).
Definition demo_client : ControlClient :=
  (Credential_request 0 (mkPreparation None None None None) (Ok (mkResponse 200 (Some demo_credential))) new_client).2.

(** The check of the authorization before the reconciler changes files asks [Credential], which
    answers from its cache: four minutes later the control plane refuses the helper, and the
    check still succeeds. *)
Example cached_credential_not_revalidated :
  Credential_request (240 * second) (mkPreparation None None None None) (Ok (mkResponse 401 None)) demo_client = (Ok demo_credential, demo_client).
Proof. by vm_compute. Qed.

Definition demo_lease : Lease := mkLease "lease-1" "repo" "assignment" "env" "helper" 7 "r1" (300 * second).
Definition demo_prepared : PreparedPublication := mkPrepared "r1" "c1" true.

(** A repository with one commit to publish; renewals are those of the client, with [renewal] as exchange. *)
Definition demo_env (renewal : lease_exchange) : Env := {|
  env_Fetch := fun _ => Ok "r1";
  env_Credential := fun _ => None;
  env_Reconcile := fun _ _ => Ok demo_prepared;
  env_AcquireLease := fun _ _ _ => Ok demo_lease;
  env_RenewLease := fun _ l _ => (lease_renew None renewal l).1;
  env_ReleaseLease := fun _ _ => None;
  env_clock := fun _ => 10 * second;
  env_Publish := fun _ _ _ => (mkPublished "c1" true false, None);
  env_ObserveCommit := fun _ _ => Ok (true, "c1");
  env_PublicationCommitted := Some (fun _ _ _ => None);
  env_PublicationPrepared := Some (fun _ _ => None);
  env_PublicationAborted := Some (fun _ _ => None)
|}.
Definition demo_publisher : PublisherConfig := mkPublisherConfig (60 * second) (5 * second) (5 * second).
Definition renewal_granted : lease_exchange :=
  mkExchange (Ok demo_credential) (mkPreparation None None None None) (Ok (200, mkLeaseBody "" None (Some demo_lease))) (10 * second).
Definition renewal_unanswered : lease_exchange :=
  mkExchange (Ok demo_credential) (mkPreparation None None None None) (Err [ErrContext]) (10 * second).

(** When the renewal is not answered, [lease] becomes the zero lease before the deferred
    release runs: the release names no lease, and the lease that was acquired stays taken
    until it expires. *)
Example renewal_failure_strands_lease :
  let '(_, err, calls) := @Sync (demo_env renewal_unanswered) demo_publisher [] in
  err = Some [ErrContext] /\ EAcquire "r1" (Ok demo_lease) ∈ calls /\
  last calls = Some (ERelease zero_Lease None) /\ ls_LeaseID zero_Lease = "".
Proof. vm_compute. repeat split. do 3 right. left. Qed.

Definition demo_calls : list event := (@Sync (demo_env renewal_granted) demo_publisher []).2.

Lemma publication_guarded_witness :
  length demo_calls = 14%nat /\ last demo_calls = Some (ERelease demo_lease None) /\
  exists calls, demo_calls = [] ++ calls /\ @one_guarded_push (demo_env renewal_granted) demo_publisher calls /\ one_release calls.
Proof.
  split; [by vm_compute|]. split; [by vm_compute|].
  destruct (@publication_guarded (demo_env renewal_granted) demo_publisher [] (mkPublished "c1" true false) None demo_calls
              ltac:(by vm_compute)) as (calls & Hc & H1 & _ & _ & H2).
  exists calls. split; [exact Hc|]. split; [exact H1|exact H2].
Defined.
