(* ===== verification/FileTree.v ===== *)
(** * Trees of files

    The file system as the packages that change files see it: a map from paths, as lists of
    elements, to nodes.  What lies behind a symbolic link is a parameter of [Lstat].  The
    budget of a state says how many changing calls still succeed. *)

From S2P Require Import Prelude.

Inductive node :=
| Dir
| File (perm : Z) (special : bool) (content : list byte)   (* [special]: setuid, setgid or sticky *)
| Link (target : string)
| Device.
#[global] Instance node_eq_dec : EqDecision node.
Proof. solve_decision. Defined.

Abbreviation path := (list string) (only parsing).
Abbreviation tree := (gmap (list string) node) (only parsing).

Inductive stat := SNode (n : node) | SNotExist | SError.

(** The budget after one changing call; [None] when it is used up. *)
Definition spend (b : option nat) : option (option nat) :=
  match b with None => Some None | Some O => None | Some (S n) => Some (Some n) end.

Section Lstat.
Variable behind_link : tree -> path -> stat.

(** [os.Lstat]: the ancestors of the path are looked up one after the other. *)
Fixpoint lstat_from (t : tree) (full above rest : path) : stat :=
  match rest with
  | [] => match t !! above with Some n => SNode n | None => SNotExist end
  | x :: rest =>
      match t !! above with
      | Some Dir => lstat_from t full (above ++ [x]) rest
      | Some (Link _) => behind_link t full
      | Some _ => SError
      | None => SNotExist
      end
  end.
Definition Lstat (t : tree) (p : path) : stat := lstat_from t p [] p.

End Lstat.

(** ** Lemmas *)

Definition above (d p : path) : Prop := d `prefix_of` p /\ d <> p.

(** A tree: what has a parent has a directory as parent, and links lead somewhere. *)
Record tree_ok (t : tree) : Prop := {
  tree_parent : forall p x, is_Some (t !! (p ++ [x])) -> t !! p = Some Dir;
  tree_link : forall p s, t !! p = Some (Link s) -> s <> ""
}.

Section Facts.
Variable behind_link : tree -> path -> stat.

(** [Lstat] below directories. *)
Lemma lstat_from_dirs t full : forall rest above,
  (forall l x r, rest = l ++ x :: r -> t !! (above ++ l) = Some Dir) ->
  lstat_from behind_link t full above rest =
  match t !! (above ++ rest) with Some n => SNode n | None => SNotExist end.
Proof.
  induction rest as [|x rest IH]; intros ab H; simpl; [by rewrite app_nil_r|].
  rewrite <- (app_nil_r ab) at 1. rewrite (H [] x rest) by done. rewrite IH.
  - by rewrite <- app_assoc.
  - intros l y r ->. rewrite <- app_assoc. by apply (H (x :: l) y r).
Qed.

Lemma Lstat_dirs t p : (forall q, above q p -> t !! q = Some Dir) ->
  Lstat behind_link t p = match t !! p with Some n => SNode n | None => SNotExist end.
Proof.
  intros H. unfold Lstat. rewrite lstat_from_dirs; [done|]. intros l x r ->. simpl. apply H.
  split; [by apply prefix_app_r|]. intros Heq. apply (f_equal length) in Heq. rewrite length_app in Heq. simpl in Heq. lia.
Qed.

Lemma above_snoc (q p : path) x : above q (p ++ [x]) -> q `prefix_of` p.
Proof.
  intros [[k Hk] Hne]. destruct k as [|y k _] using rev_ind; [by rewrite app_nil_r in Hk|].
  rewrite app_assoc in Hk. apply app_inj_tail in Hk as [-> _]. by exists k.
Qed.

End Facts.

Lemma missing_below t p k : tree_ok t -> t !! p = None -> t !! (p ++ k) = None.
Proof.
  intros Ht Hp. induction k as [|x k IH] using rev_ind; [by rewrite app_nil_r|]. rewrite app_assoc.
  destruct (t !! ((p ++ k) ++ [x])) eqn:E; [|done]. assert (t !! (p ++ k) = Some Dir); [|congruence].
  apply (tree_parent t Ht _ x). by rewrite E.
Qed.

Lemma dirs_above t p q : tree_ok t -> is_Some (t !! p) -> above q p -> t !! q = Some Dir.
Proof.
  intros Ht Hp [[k ->] Hne]. destruct k as [|x k]; [by rewrite app_nil_r in Hne|].
  apply (tree_parent t Ht q x). destruct (t !! (q ++ [x])) eqn:E; [done|].
  apply (missing_below t _ k) in E; [|done]. rewrite <- app_assoc in E. simpl in E. rewrite E in Hp. by destruct Hp.
Qed.

Lemma lstat_cases behind_link t full : tree_ok t -> forall rest ab,
  (forall l x r s, rest = l ++ x :: r -> t !! (ab ++ l) <> Some (Link s)) ->
  match lstat_from behind_link t full ab rest with
  | SNode n => t !! (ab ++ rest) = Some n
  | SNotExist => t !! (ab ++ rest) = None /\ forall l x r, rest = l ++ x :: r -> t !! (ab ++ l) = None \/ t !! (ab ++ l) = Some Dir
  | SError => True
  end.
Proof.
  intros Ht. induction rest as [|x rest IH]; intros ab Hl; simpl.
  - rewrite app_nil_r. destruct (t !! ab); [done|]. split; [done|]. intros l x r Hn. by destruct l.
  - pose proof (Hl [] x rest) as H0. rewrite app_nil_r in H0. destruct (t !! ab) as [[|? ? ?|s|]|] eqn:Ea; try done.
    + specialize (IH (ab ++ [x])). assert (ab ++ x :: rest = (ab ++ [x]) ++ rest) as -> by by rewrite <- app_assoc.
      destruct (lstat_from _ _ _ _ _) as [n| |]; [apply IH| |done].
      * intros l y r s ->. rewrite <- app_assoc. by apply (Hl (x :: l) y r).
      * destruct IH as [Hn Hup]; [intros l y r s ->; rewrite <- app_assoc; by apply (Hl (x :: l) y r)|].
        split; [done|]. intros l y r E. destruct l as [|z l]; [rewrite app_nil_r; by right|].
        injection E as <- ->. specialize (Hup l y r eq_refl). by rewrite <- app_assoc in Hup.
    + by destruct (H0 s eq_refl).
    + split; [by apply missing_below|]. intros l y r _. left. by apply missing_below.
Qed.

Lemma above_split (q p : path) : above q p <-> exists x r, p = q ++ x :: r.
Proof.
  split.
  - intros [[k ->] Hne]. destruct k as [|x r]; [by rewrite app_nil_r in Hne|]. by exists x, r.
  - intros (x & r & ->). split; [by apply prefix_app_r|]. intros E. apply (f_equal length) in E. rewrite length_app in E. simpl in E. lia.
Qed.

Lemma tree_check (t : tree) :
  map_Forall (fun k n => (k = [] \/ t !! removelast k = Some Dir) /\ n <> Link "") t -> tree_ok t.
Proof.
  intros H. split.
  - intros p x [n Hn]. destruct (H _ _ Hn) as [[Hnil|Hp] _]; [by destruct p|]. by rewrite removelast_last in Hp.
  - intros p s Hs ->. by destruct (H _ _ Hs).
Qed.
