(* ===== verification/ApplyJournal.v ===== *)
(** * The apply journal of configuration sync ([internal/configsync/apply_journal.go])

    Before the reconciler changes files of the home directory it writes what is there to a
    journal; when the changes are interrupted, the journal is played back.  Whether a file
    can be read is a parameter.  Every call that changes something may be the last one: the
    budget of the state says how many of them still succeed, after which calls fail; what a
    failing call leaves is what an interrupted process leaves.  The replacement of a file through a temporary file and a rename is one
    call, and its temporary file is not tracked. *)

From S2P Require Import Prelude Base64 Paths FileTree.

(** ** The journal *)

(** [os.FileMode]: the type and the permission bits. *)
Inductive file_type := TRegular | TSymlink | TOther.
#[global] Instance file_type_eq_dec : EqDecision file_type.
Proof. solve_decision. Defined.
Record FileMode := mkMode { md_type : file_type; md_perm : Z; md_special : bool }.

Record applyJournalEntry := mkEntry {
  ae_Path : string; ae_Existed : bool; ae_Mode : FileMode; ae_Target : string; ae_Content : list byte
}.
Record applyJournal := mkApplyJournal {
  aj_Format : string; aj_RepositoryID : string; aj_AssignmentID : string; aj_RemoteRevision : string;
  aj_Entries : list applyJournalEntry
}.
Definition journal_format : string := "paperboat-config-apply-journal-v1".
Definition zero_mode : FileMode := mkMode TRegular 0 false.

(** [encoding/json] on a journal, the decoder with [DisallowUnknownFields] and one value only. *)
Class JournalJson := {
  json_Marshal : applyJournal -> list byte;
  json_Decode : list byte -> option applyJournal
}.

Inductive apply_error := ErrApplyJournalInvalid | EIO.
#[global] Instance apply_error_eq_dec : EqDecision apply_error.
Proof. solve_decision. Defined.

Record world := mkWorld {
  w_tree : tree;
  w_journal : option (list byte);   (* the file at the path of the journal, private and regular *)
  w_budget : option nat             (* how many more changes succeed; [None]: all *)
}.

(** A call that changes the file system. *)
Definition change_tree (f : tree -> tree) (w : world) : result apply_error unit * world :=
  match spend (w_budget w) with
  | Some b => (Ok (), mkWorld (f (w_tree w)) (w_journal w) b)
  | None => (Err EIO, w)
  end.
Definition change_journal (j : option (list byte)) (w : world) : result apply_error unit * world :=
  match spend (w_budget w) with
  | Some b => (Ok (), mkWorld (w_tree w) j b)
  | None => (Err EIO, w)
  end.

(** ** Paths *)

Definition is_space (a : ascii) : bool :=
  let n := nat_of_ascii a in (((9 <=? n) && (n <=? 13)) || (n =? 32))%nat.
Fixpoint trim_left (l : list ascii) : list ascii :=
  match l with [] => [] | a :: l' => if is_space a then trim_left l' else l end.
(** [strings.TrimSpace], on ASCII. *)
Definition strings_TrimSpace (s : string) : string :=
  String.string_of_list_ascii (rev (trim_left (rev (trim_left (String.list_ascii_of_string s))))).

(** [filepath.Clean] of a relative path: its elements, where leading ".." stay. *)
Fixpoint rel_clean (l acc : list string) : list string :=
  match l with
  | [] => rev acc
  | x :: l =>
      if decide (x = "" \/ x = ".") then rel_clean l acc
      else if decide (x = "..") then
        match acc with
        | [] => rel_clean l [x]
        | y :: acc' => if decide (y = "..") then rel_clean l (x :: acc) else rel_clean l acc'
        end
      else rel_clean l (x :: acc)
  end.
Definition clean_relative (path : string) : string :=
  match rel_clean (split_at "/" path) [] with [] => "." | l => String.concat "/" l end.

Definition safeRelativeStatusPath (raw : string) : bool :=
  let path := strings_TrimSpace raw in
  bool_decide (path <> "" /\ (String.length path <= 512)%nat /\ path <> "." /\ is_abs path = false /\
    (ascii_of_nat 0 ∉ String.list_ascii_of_string path) /\ clean_relative path = path /\ path <> ".." /\
    head (split_at "/" path) <> Some "..").

(** [filepath.Join(homeRoot, filepath.FromSlash(relative))], and [sameOrInsidePath]. *)
Definition join (root : path) (relative : string) : path := clean_elements (root ++ split_at "/" relative) [].
Definition inside (p root : path) : bool := bool_decide (root `prefix_of` p).

Fixpoint dedupe (l : list string) : list string :=
  match l with
  | x :: ((y :: _) as l') => if decide (x = y) then dedupe l' else x :: dedupe l'
  | _ => l
  end.

Section Operations.

Variable behind_link : tree -> path -> stat.
Variable unreadable : path -> bool.
Context `{J : JournalJson}.

Definition node_mode (n : node) : FileMode :=
  match n with
  | File perm special _ => mkMode TRegular perm special
  | Link _ => mkMode TSymlink 511 false
  | Dir | Device => mkMode TOther 0 false
  end.

(** The body of the loop of [beginApplyJournal]: the entry and the bytes recorded so far. *)
Definition journal_entry (root : path) (maxBytes : Z) (t : tree) (total : Z) (relative : string) :
    result apply_error (applyJournalEntry * Z) :=
  if negb (safeRelativeStatusPath relative) then Err ErrApplyJournalInvalid
  else
    let full := join root relative in
    if negb (inside full root) then Err ErrApplyJournalInvalid
    else
      match Lstat behind_link t full with
      | SNotExist => Ok (mkEntry relative false zero_mode "" [], total)
      | SError | SNode Dir | SNode Device => Err ErrApplyJournalInvalid
      | SNode (Link target) =>
          if decide (unreadable full = true \/ is_abs target = true) then Err ErrApplyJournalInvalid
          else Ok (mkEntry relative true (node_mode (Link target)) target [], total)
      | SNode (File perm special content) =>
          if decide (len content > maxBytes - total) then Err ErrApplyJournalInvalid
          else if unreadable full then Err EIO
          else Ok (mkEntry relative true (node_mode (File perm special content)) "" content, total + len content)
      end.

Fixpoint journal_entries (root : path) (maxBytes : Z) (t : tree) (total : Z) (l : list string) :
    result apply_error (list applyJournalEntry) :=
  match l with
  | [] => Ok []
  | relative :: l =>
      match journal_entry root maxBytes t total relative with
      | Err e => Err e
      | Ok (entry, total) =>
          match journal_entries root maxBytes t total l with Err e => Err e | Ok entries => Ok (entry :: entries) end
      end
  end.

(** [beginApplyJournal], for canonical paths of the journal and of the home directory. *)
Definition beginApplyJournal (root : path) (repositoryID assignmentID remoteRevision : string) (paths : list string)
    (maxBytes : Z) (w : world) : result apply_error unit * world :=
  if decide (repositoryID = "" \/ assignmentID = "" \/ remoteRevision = "" \/ maxBytes <= 0) then (Err ErrApplyJournalInvalid, w)
  else
    match journal_entries root maxBytes (w_tree w) 0 (dedupe (merge_sort string_le paths)) with
    | Err e => (Err e, w)
    | Ok entries =>
        change_journal (Some (json_Marshal (mkApplyJournal journal_format repositoryID assignmentID remoteRevision entries) ++ [x0a])) w
    end.

(** [ensurePrivateParent]: from the root down, one element after the other. *)
Fixpoint ensure_from (current : path) (parts : list string) (w : world) : result apply_error unit * world :=
  match parts with
  | [] => (Ok (), w)
  | part :: parts =>
      let current := current ++ [part] in
      match Lstat behind_link (w_tree w) current with
      | SNotExist =>
          match change_tree (<[current := Dir]>) w with
          | (Ok _, w) => ensure_from current parts w
          | (Err e, w) => (Err e, w)
          end
      | SNode Dir => ensure_from current parts w
      | SNode _ | SError => (Err ErrApplyJournalInvalid, w)
      end
  end.
Definition ensurePrivateParent (root parent : path) (w : world) : result apply_error unit * world :=
  let relative := rel_elements root parent in
  if decide (head relative = Some "..") then (Err ErrApplyJournalInvalid, w)
  else ensure_from root relative w.

(** What is at the target is removed, unless it is a directory. *)
Definition remove_target (target : path) (w : world) : result apply_error unit * world :=
  match Lstat behind_link (w_tree w) target with
  | SNode Dir => (Err ErrApplyJournalInvalid, w)
  | SNode _ => change_tree (delete target) w
  | SNotExist => (Ok (), w)
  | SError => (Err EIO, w)
  end.

Definition restoreApplyJournalEntry (root : path) (entry : applyJournalEntry) (w : world) : result apply_error unit * world :=
  if negb (safeRelativeStatusPath (ae_Path entry)) then (Err ErrApplyJournalInvalid, w)
  else
    let target := join root (ae_Path entry) in
    match ensurePrivateParent root (removelast target) w with
    | (Err e, w) => (Err e, w)
    | (Ok _, w) =>
        match remove_target target w with
        | (Err e, w) => (Err e, w)
        | (Ok _, w) =>
            if negb (ae_Existed entry) then (Ok (), w)
            else if decide (md_type (ae_Mode entry) = TSymlink) then
              if decide (ae_Target entry = "" \/ is_abs (ae_Target entry) = true) then (Err ErrApplyJournalInvalid, w)
              else change_tree (<[target := Link (ae_Target entry)]>) w
            else if decide (md_type (ae_Mode entry) <> TRegular) then (Err ErrApplyJournalInvalid, w)
            else change_tree (<[target := File (md_perm (ae_Mode entry)) false (ae_Content entry)]>) w
        end
    end.

(** The loop over the entries, the last one first. *)
Fixpoint restore_all (root : path) (l : list applyJournalEntry) (w : world) : result apply_error unit * world :=
  match l with
  | [] => (Ok (), w)
  | entry :: l =>
      match restoreApplyJournalEntry root entry w with
      | (Ok _, w) => restore_all root l w
      | (Err e, w) => (Err e, w)
      end
  end.

Definition recoverApplyJournal (root : path) (repositoryID assignmentID : string) (maxBytes : Z) (w : world) :
    result apply_error unit * world :=
  match w_journal w with
  | None => (Ok (), w)
  | Some data =>
      if decide (len data > maxBytes + 1048576) then (Err ErrApplyJournalInvalid, w)
      else
        match json_Decode data with
        | None => (Err ErrApplyJournalInvalid, w)
        | Some journal =>
            if decide (aj_Format journal <> journal_format \/ aj_RepositoryID journal <> repositoryID \/ aj_AssignmentID journal <> assignmentID)
            then (Err ErrApplyJournalInvalid, w)
            else
              match restore_all root (rev (aj_Entries journal)) w with
              | (Err e, w) => (Err e, w)
              | (Ok _, w) => change_journal None w
              end
        end
  end.

End Operations.

(** ** What may happen to the tree while changes are applied

    The targets are written, replaced and removed, and directories are made above them. *)

Inductive change (K : list path) : tree -> tree -> Prop :=
| change_write t p n : p ∈ K -> t !! removelast p = Some Dir -> t !! p <> Some Dir -> n <> Dir -> change K t (<[p := n]> t)
| change_remove t p : p ∈ K -> t !! p <> Some Dir -> change K t (delete p t)
| change_mkdir t d : t !! d = None -> (exists p, p ∈ K /\ above d p) -> change K t (<[d := Dir]> t).

(** What holds of the targets [K] below [root] in the tree [t0] of the journal. *)
Record targets_ok (root : path) (K : list path) (t0 : tree) : Prop := {
  tg_root : forall q, q `prefix_of` root -> t0 !! q = Some Dir;
  tg_inside : forall p, p ∈ K -> above root p;
  tg_free : forall p q, p ∈ K -> q ∈ K -> p `prefix_of` q -> p = q;
  tg_above : forall p q, p ∈ K -> above q p -> t0 !! q = None \/ t0 !! q = Some Dir;
  tg_files : forall p, p ∈ K -> t0 !! p <> Some Dir
}.

(** The trees in between. *)
Record between (K : list path) (t0 t : tree) : Prop := {
  bt_other : forall q, q ∉ K -> t !! q = t0 !! q \/ (t0 !! q = None /\ t !! q = Some Dir /\ exists p, p ∈ K /\ above q p);
  bt_target : forall p, p ∈ K -> t !! p <> Some Dir
}.

Section Recovery.
Context (root : path) (K : list path) (t0 : tree) (Hok : targets_ok root K t0) (Hplain : Forall plain root).

Lemma above_not_target p q : p ∈ K -> above q p -> q ∉ K.
Proof. intros Hp [Hpre Hne] Hq. apply Hne. by apply (tg_free root K t0 Hok). Qed.

Lemma change_between t t' : change K t t' -> between K t0 t -> between K t0 t'.
Proof.
  intros Hc [H1 H2]. destruct Hc as [t p n Hp _ Hd Hn|t p Hp Hd|t d Hd (p & Hp & Hab)].
  - split; intros q Hq.
    + rewrite lookup_insert_ne by (intros ->; done). by apply H1.
    + destruct (decide (p = q)) as [<-|]; [rewrite lookup_insert_eq; congruence|rewrite lookup_insert_ne by done; auto].
  - split; intros q Hq.
    + rewrite lookup_delete_ne by (intros ->; done). by apply H1.
    + destruct (decide (p = q)) as [<-|]; [by rewrite lookup_delete_eq|rewrite lookup_delete_ne by done; auto].
  - split; intros q Hq.
    + destruct (decide (d = q)) as [<-|]; [|rewrite lookup_insert_ne by done; by apply H1].
      rewrite lookup_insert_eq. destruct (H1 d Hq) as [Heq|(Hn & _)]; right; (split; [congruence|]); split; [done| |done|]; by exists p.
    + destruct (decide (d = q)) as [<-|]; [by destruct (above_not_target p d)|rewrite lookup_insert_ne by done; auto].
Qed.

Lemma changes_between t t' : rtc (change K) t t' -> between K t0 t -> between K t0 t'.
Proof. apply rtc_invariant. apply change_between. Qed.

Lemma between_refl : between K t0 t0.
Proof. split; [by left|apply (tg_files root K t0 Hok)]. Qed.

Lemma between_above t p q : between K t0 t -> p ∈ K -> above q p -> t !! q = None \/ t !! q = Some Dir.
Proof.
  intros Hb Hp Hq. destruct (bt_other K t0 t Hb q (above_not_target p q Hp Hq)) as [->|(_ & -> & _)]; [|by right].
  by apply (tg_above root K t0 Hok p).
Qed.

Lemma between_root t q : between K t0 t -> q `prefix_of` root -> t !! q = Some Dir.
Proof.
  intros Hb Hq. assert (q ∉ K) as Hn.
  { intros Hin. destruct (tg_inside root K t0 Hok q Hin) as [Hpre Hne]. apply Hne. by apply (anti_symm prefix). }
  pose proof (tg_root root K t0 Hok q Hq) as Hd. destruct (bt_other K t0 t Hb q Hn) as [->|(_ & -> & _)]; done.
Qed.

Section Play.
Variable behind_link : tree -> path -> stat.

Lemma spend_cases f w r w' : change_tree f w = (r, w') ->
  (r = Ok () /\ w_tree w' = f (w_tree w) /\ w_journal w' = w_journal w /\ (w_budget w = None -> w_budget w' = None)) \/
  (r = Err EIO /\ w' = w /\ w_budget w <> None).
Proof.
  unfold change_tree, spend. destruct (w_budget w) as [[|n]|] eqn:E; intros H; simplify_eq; [right|left|left]; simpl; repeat split; done.
Qed.

(** A piece of the recovery: it changes only what the application may change, and without a
    limit on its calls it succeeds. *)
Definition piece (w : world) (r : result apply_error unit) (w' : world) : Prop :=
  rtc (change K) (w_tree w) (w_tree w') /\ w_journal w' = w_journal w /\
  (w_budget w = None -> r = Ok () /\ w_budget w' = None).

Lemma piece_refl w : piece w (Ok ()) w.
Proof. split; [apply rtc_refl|done]. Qed.

Lemma piece_trans w1 w2 r w3 : piece w1 (Ok ()) w2 -> piece w2 r w3 -> piece w1 r w3.
Proof.
  intros (H1 & H2 & H3) (H4 & H5 & H6). split; [by etrans|]. split; [congruence|]. intros Hb. apply H6. by apply H3.
Qed.

Lemma piece_step f w r w' :
  change_tree f w = (r, w') -> change K (w_tree w) (f (w_tree w)) -> piece w r w' /\ (r = Ok () -> w_tree w' = f (w_tree w)).
Proof.
  intros H Hc. apply spend_cases in H as [(-> & Ht & Hj & Hb)|(-> & -> & Hb)].
  - split; [|done]. split; [rewrite Ht; by apply rtc_once|]. auto.
  - split; [|done]. split; [apply rtc_refl|]. done.
Qed.

(** The directories above a target. *)
Lemma ensure_spec p : p ∈ K -> forall parts current w r w' last,
  p = current ++ parts ++ last :: [] -> root `prefix_of` current ->
  between K t0 (w_tree w) -> (forall q, q `prefix_of` current -> w_tree w !! q = Some Dir) ->
  ensure_from behind_link current parts w = (r, w') ->
  piece w r w' /\ (r = Ok () -> forall q, q `prefix_of` (current ++ parts) -> w_tree w' !! q = Some Dir) /\
  (forall q, q ∈ K -> w_tree w' !! q = w_tree w !! q).
Proof.
  intros Hp. induction parts as [|part parts IH]; intros current w r w' lst Heq Hroot Hb Hdirs H; simpl in H.
  { simplify_eq. rewrite app_nil_r. split; [apply piece_refl|done]. }
  assert (above (current ++ [part]) p) as Hab.
  { rewrite Heq. split; [exists (parts ++ [lst]); by rewrite <- app_assoc|].
    intros E. apply (f_equal length) in E. simpl in E. rewrite !length_app in E. simpl in E. rewrite length_app in E. simpl in E. lia. }
  rewrite Lstat_dirs in H by (intros q Hq; apply Hdirs; by eapply above_snoc).
  assert (p = (current ++ [part]) ++ parts ++ [lst]) as Heq' by by rewrite <- app_assoc.
  assert (root `prefix_of` current ++ [part]) as Hroot' by by apply prefix_app_r.
  assert (forall t : tree, t !! (current ++ [part]) = Some Dir -> (forall q, q `prefix_of` current -> t !! q = Some Dir) ->
    forall q, q `prefix_of` current ++ [part] -> t !! q = Some Dir) as Hdown.
  { intros t Hd Hdt q Hq. destruct (decide (q = current ++ [part])) as [->|Hne]; [done|]. apply Hdt. by eapply above_snoc. }
  destruct (between_above _ p _ Hb Hp Hab) as [Hn|Hd].
  - rewrite Hn in H. destruct (change_tree _ w) as [[[]|e] w1] eqn:E.
    + pose proof (change_mkdir K (w_tree w) (current ++ [part]) Hn (ex_intro _ p (conj Hp Hab))) as Hch.
      destruct (piece_step _ _ _ _ E Hch) as [P1 Ht]. specialize (Ht eq_refl).
      apply (IH _ w1 r w' lst) in H as (P2 & Hdone & Hsame); [|done|done|rewrite Ht; by eapply change_between|].
      2:{ apply Hdown; rewrite Ht; [apply lookup_insert_eq|]. intros q Hq. rewrite lookup_insert_ne; [by apply Hdirs|].
          intros <-. apply prefix_length in Hq. rewrite length_app in Hq. simpl in Hq. lia. }
      rewrite <- app_assoc in Hdone. split; [by eapply piece_trans|]. split; [done|].
      intros q Hq. rewrite Hsame, Ht by done. apply lookup_insert_ne. intros <-. by apply (above_not_target p (current ++ [part])).
    + simplify_eq. apply spend_cases in E as [(? & _)|(_ & -> & Hbud)]; [done|].
      split; [split; [apply rtc_refl|done]|done].
  - rewrite Hd in H. apply (IH _ w r w' lst) in H; [|done|done|done|by apply Hdown].
    rewrite <- app_assoc in H. exact H.
Qed.

Lemma rel_elements_app (l k : path) : rel_elements l (l ++ k) = k.
Proof. induction l as [|x l IH]; [by destruct k|]. simpl. by rewrite decide_True. Qed.

Lemma join_plain relative : Forall plain (join root relative).
Proof.
  apply clean_elements_plain; [|constructor]. apply Forall_app. split.
  - apply (Forall_impl _ _ _ Hplain). unfold plain. tauto.
  - apply Forall_forall. intros x. apply split_at_plain.
Qed.

(** Everything above a target is made. *)
Lemma parent_spec relative w r w' : let p := join root relative in
  p ∈ K -> between K t0 (w_tree w) -> ensurePrivateParent behind_link root (removelast p) w = (r, w') ->
  piece w r w' /\ (r = Ok () -> forall q, above q p -> w_tree w' !! q = Some Dir) /\
  (forall q, q ∈ K -> w_tree w' !! q = w_tree w !! q).
Proof.
  intros p Hp Hb H. destruct (tg_inside root K t0 Hok p Hp) as [[k Hk] Hne].
  destruct k as [|lst k _] using rev_ind; [rewrite app_nil_r in Hk; congruence|].
  assert (removelast p = root ++ k) as Hrm by (rewrite Hk, app_assoc; apply removelast_last).
  unfold ensurePrivateParent in H. rewrite Hrm, rel_elements_app in H. rewrite decide_False in H.
  2:{ intros Hh. pose proof (join_plain relative) as Hpl. change (Forall plain p) in Hpl. rewrite Hk in Hpl.
      destruct k as [|x k]; [done|]. injection Hh as ->. apply Forall_app in Hpl as [_ Hpl].
      apply Forall_cons in Hpl as [(_ & _ & Hx & _) _]. done. }
  apply (ensure_spec p Hp k root w r w' lst) in H as (P1 & H1 & H2); [|done|done|done|by intros q; apply between_root].
  split; [done|]. split; [|done]. intros Hr q Hq. apply (H1 Hr). apply (above_snoc q (root ++ k) lst). by rewrite <- app_assoc, <- Hk.
Qed.

Definition restored (n : node) : node := match n with File perm _ c => File perm false c | n => n end.

(** The node at a path as an entry records it. *)
Definition recorded (n : option node) (e : applyJournalEntry) : Prop :=
  match n with
  | None => ae_Existed e = false /\ ae_Target e = ""
  | Some (File perm special c) => ae_Existed e = true /\ ae_Mode e = mkMode TRegular perm special /\ ae_Content e = c /\ ae_Target e = ""
  | Some (Link s) => ae_Existed e = true /\ md_type (ae_Mode e) = TSymlink /\ ae_Target e = s /\ s <> "" /\ is_abs s = false
  | Some _ => False
  end.

(** The entry [e] is for a target and says what is there in [t0]. *)
Definition records (e : applyJournalEntry) : Prop :=
  safeRelativeStatusPath (ae_Path e) = true /\ join root (ae_Path e) ∈ K /\ recorded (t0 !! join root (ae_Path e)) e.

Lemma target_nonempty p : p ∈ K -> p <> [].
Proof. intros Hp ->. destruct (tg_inside root K t0 Hok [] Hp) as [Hpre Hne]. apply Hne. by apply prefix_nil_inv in Hpre. Qed.

Lemma removelast_above (p : path) : p <> [] -> removelast p `prefix_of` p /\ removelast p <> p.
Proof.
  intros Hp. destruct p as [|x p _] using rev_ind; [done|]. rewrite removelast_last. split; [by apply prefix_app_r|].
  intros E. apply (f_equal length) in E. rewrite length_app in E. simpl in E. lia.
Qed.

Lemma remove_spec p w r w' : p ∈ K -> between K t0 (w_tree w) -> (forall q, above q p -> w_tree w !! q = Some Dir) ->
  remove_target behind_link p w = (r, w') ->
  piece w r w' /\ (r = Ok () -> w_tree w' = delete p (w_tree w)) /\ (forall q, q <> p -> w_tree w' !! q = w_tree w !! q).
Proof.
  intros Hp Hb Hdirs H. unfold remove_target in H. rewrite Lstat_dirs in H by done.
  pose proof (bt_target K t0 _ Hb p Hp) as Hnd. destruct (w_tree w !! p) as [n|] eqn:En.
  - assert (change_tree (delete p) w = (r, w')) as Hc by (destruct n; [congruence|done|done|done]).
    pose proof (change_remove K (w_tree w) p Hp ltac:(congruence)) as Hch.
    destruct (piece_step _ _ _ _ Hc Hch) as [P Ht]. split; [done|]. split; [done|].
    intros q Hq. apply spend_cases in Hc as [(-> & -> & _)|(_ & -> & _)]; [by apply lookup_delete_ne|done].
  - simplify_eq. split; [apply piece_refl|]. split; [|done]. intros _. by rewrite delete_id.
Qed.

(** Restoring one entry. *)
Lemma restore_spec e w r w' : let p := join root (ae_Path e) in
  records e -> between K t0 (w_tree w) -> restoreApplyJournalEntry behind_link root e w = (r, w') ->
  piece w r w' /\ (r = Ok () -> w_tree w' !! p = restored <$> t0 !! p) /\
  (forall q, q ∈ K -> q <> p -> w_tree w' !! q = w_tree w !! q).
Proof.
  intros p (Hsafe & Hp & Hrec) Hb H. unfold restoreApplyJournalEntry in H. rewrite Hsafe in H. simpl in H. fold p in Hp, Hrec, H.
  destruct (ensurePrivateParent behind_link root (removelast p) w) as [r1 w1] eqn:E1.
  apply parent_spec in E1 as (P1 & Hdirs & Hsame1); [|done|done]. destruct r1 as [[]|e1]; [|simplify_eq; split; [done|]; split; [done|auto]].
  specialize (Hdirs eq_refl). assert (between K t0 (w_tree w1)) as Hb1 by (eapply changes_between; [apply P1|done]).
  destruct (remove_target behind_link p w1) as [r2 w2] eqn:E2.
  apply remove_spec in E2 as (P2 & Ht2 & Hsame2); [|done|done|done]. pose proof (piece_trans _ _ _ _ P1 P2) as P12.
  assert (forall q, q ∈ K -> q <> p -> w_tree w2 !! q = w_tree w !! q) as Hsame.
  { intros q Hq Hne. rewrite Hsame2 by done. by apply Hsame1. }
  destruct r2 as [[]|e2]; [|simplify_eq; split; [done|]; split; [done|auto]]. specialize (Ht2 eq_refl).
  assert (w_tree w2 !! p = None) as Hnone by (rewrite Ht2; apply lookup_delete_eq).
  assert (w_tree w2 !! removelast p = Some Dir) as Hparent.
  { destruct (removelast_above p (target_nonempty p Hp)) as [Hr1 Hr2]. rewrite Hsame2 by done. by apply Hdirs. }
  assert (forall n, n <> Dir -> change_tree (<[p := n]>) w2 = (r, w') ->
    piece w r w' /\ (r = Ok () -> w_tree w' !! p = Some n) /\ forall q, q ∈ K -> q <> p -> w_tree w' !! q = w_tree w !! q) as Hwrite.
  { intros n Hn Hc. pose proof (change_write K (w_tree w2) p n Hp Hparent ltac:(congruence) Hn) as Hch.
    destruct (piece_step _ _ _ _ Hc Hch) as [P3 Ht3]. split; [by eapply piece_trans|]. split; [intros ->; rewrite Ht3 by done; apply lookup_insert_eq|].
    intros q Hq Hne. apply spend_cases in Hc as [(-> & _)|(_ & -> & _)]; [|by apply Hsame].
    rewrite Ht3 by done. rewrite lookup_insert_ne by congruence. by apply Hsame. }
  destruct (t0 !! p) as [[|perm special c|s|]|]; [done| | |done|].
  - destruct Hrec as (He & Hm & Hc & _). rewrite He, Hm, Hc in H. simpl in H. by apply Hwrite in H.
  - destruct Hrec as (He & Hm & Ht & Hs1 & Hs2). rewrite He, Hm, Ht in H. simpl in H.
    rewrite decide_False in H by (intros [?|?]; congruence). by apply Hwrite in H.
  - destruct Hrec as [Hrec _]. rewrite Hrec in H. simpl in H. simplify_eq. by split.
Qed.

(** Restoring entries, one after the other. *)
Lemma restore_all_spec l : forall w r w',
  Forall records l -> between K t0 (w_tree w) -> restore_all behind_link root l w = (r, w') ->
  piece w r w' /\ (r = Ok () -> forall p, p ∈ K ->
    (exists e, e ∈ l /\ p = join root (ae_Path e)) \/ w_tree w !! p = restored <$> t0 !! p -> w_tree w' !! p = restored <$> t0 !! p).
Proof.
  induction l as [|e l IH]; intros w r w' Hl Hb H; simpl in H.
  { simplify_eq. split; [apply piece_refl|]. intros _ p Hp [(e & He & _)|Hd]; [by apply not_elem_of_nil in He|done]. }
  apply Forall_cons in Hl as [He Hl]. destruct (restoreApplyJournalEntry behind_link root e w) as [r1 w1] eqn:E.
  apply restore_spec in E as (P1 & Hdone & Hsame); [|done|done]. destruct r1 as [[]|e1]; [|by simplify_eq].
  apply IH in H as (P2 & Hall); [|done|eapply changes_between; [apply P1|done]]. split; [by eapply piece_trans|].
  intros Hr p Hp Hcase. apply Hall; [done|done|]. destruct (decide (p = join root (ae_Path e))) as [->|Hne].
  - right. by apply Hdone.
  - destruct Hcase as [(d & Hd & ->)|Hd].
    + left. exists d. split; [|done]. apply elem_of_cons in Hd as [->|]; done.
    + right. by rewrite Hsame.
Qed.
End Play.
End Recovery.

(** ** What a journal that could be written says *)

Section Begin.
Context (behind_link : tree -> path -> stat) (unreadable : path -> bool) (root : path) (t0 : tree).
Context (Ht : tree_ok t0) (Hroot : t0 !! root = Some Dir).

Definition no_links_above (p : path) : Prop := forall q s, above q p -> t0 !! q <> Some (Link s).

Lemma journal_entry_spec maxBytes total relative e total' :
  no_links_above (join root relative) ->
  journal_entry behind_link unreadable root maxBytes t0 total relative = Ok (e, total') ->
  let p := join root relative in
  ae_Path e = relative /\ safeRelativeStatusPath relative = true /\ above root p /\ recorded (t0 !! p) e /\
  (forall q, above q p -> t0 !! q = None \/ t0 !! q = Some Dir).
Proof.
  intros Hnl H p. unfold journal_entry in H. destruct (safeRelativeStatusPath relative) eqn:Hsafe; simpl in H; [|done].
  fold p in H, Hnl. destruct (inside p root) eqn:Hin; simpl in H; [|done]. apply bool_decide_eq_true in Hin.
  pose proof (lstat_cases behind_link t0 p Ht p []) as Hls. fold (Lstat behind_link t0 p) in Hls. simpl in Hls.
  assert (forall (l : path) x r s, p = l ++ x :: r -> t0 !! l <> Some (Link s)) as Hl.
  { intros l x r s Hp. apply Hnl. apply above_split. by exists x, r. }
  specialize (Hls Hl). destruct (Lstat behind_link t0 p) as [n| |] eqn:E; [| |done].
  - assert (above root p) as Hab.
    { split; [done|]. intros Heq. rewrite <- Heq, Hroot in Hls. injection Hls as <-. done. }
    assert (forall q, above q p -> t0 !! q = None \/ t0 !! q = Some Dir) as Hup.
    { intros q Hq. right. apply (dirs_above t0 p q Ht); [by rewrite Hls|done]. }
    destruct n as [|perm special content|target|]; simpl in H; [done| | |done].
    + case_decide; [done|]. destruct (unreadable p); [done|]. injection H as <- <-. simpl. rewrite Hls. do 3 (split; [done|]). by split.
    + case_decide as Hd; [done|]. injection H as <- <-. simpl. rewrite Hls. do 3 (split; [done|]). split; [|done].
      do 3 (split; [done|]). split; [by apply (tree_link t0 Ht p)|]. destruct (is_abs target); [tauto|done].
  - destruct Hls as [Hn Hup]. injection H as <- <-. simpl. rewrite Hn. do 2 (split; [done|]). split; [|split; [done|]].
    + split; [done|]. intros Heq. rewrite <- Heq in Hn. congruence.
    + intros q Hq. apply above_split in Hq as (x & r & Hp). by apply (Hup q x r).
Qed.

Lemma journal_entries_spec maxBytes l : forall total entries,
  (forall relative, relative ∈ l -> no_links_above (join root relative)) ->
  journal_entries behind_link unreadable root maxBytes t0 total l = Ok entries ->
  (forall relative, relative ∈ l -> exists e, e ∈ entries /\ ae_Path e = relative) /\
  forall e, e ∈ entries -> ae_Path e ∈ l /\ safeRelativeStatusPath (ae_Path e) = true /\
    above root (join root (ae_Path e)) /\ recorded (t0 !! join root (ae_Path e)) e /\
    (forall q, above q (join root (ae_Path e)) -> t0 !! q = None \/ t0 !! q = Some Dir).
Proof.
  induction l as [|x l IH]; intros total entries Hnl H; simpl in H; [injection H as <-; split; intros ? Hin; by apply not_elem_of_nil in Hin|].
  destruct (journal_entry _ _ _ _ _ _ _) as [[e total1]|] eqn:E; [|done].
  destruct (journal_entries _ _ _ _ _ _ l) as [rest|] eqn:El; [|done]. injection H as <-.
  apply journal_entry_spec in E as (Hx & Hs & H1 & H2 & H3); [|apply Hnl; left].
  apply IH in El as [Hall Hrest]; [|intros y Hy; apply Hnl; by right]. split.
  - intros y Hy. apply elem_of_cons in Hy as [->|Hy]; [exists e; split; [left|done]|].
    destruct (Hall y Hy) as (d & Hd & ?). exists d. split; [by right|done].
  - intros d Hd. apply elem_of_cons in Hd as [->|Hd].
    + rewrite Hx. split; [left|]. done.
    + destruct (Hrest d Hd) as (? & ?). split; [by right|done].
Qed.
End Begin.

Lemma elem_dedupe x l : x ∈ dedupe l <-> x ∈ l.
Proof.
  induction l as [|y l IH]; [done|]. destruct l as [|z l]; [done|].
  change (dedupe (y :: z :: l)) with (if decide (y = z) then dedupe (z :: l) else y :: dedupe (z :: l)).
  case_decide as Hyz; [|rewrite !elem_of_cons, IH, elem_of_cons; done].
  rewrite IH, Hyz. set_solver.
Qed.

Lemma elem_journaled x paths : x ∈ dedupe (merge_sort string_le paths) <-> x ∈ paths.
Proof. rewrite elem_dedupe. by rewrite (merge_sort_Permutation string_le paths). Qed.

(** ** Recovery *)

Definition ascii_only (s : string) : Prop := Forall (fun a => (nat_of_ascii a < 128)%nat) (String.list_ascii_of_string s).
#[global] Instance ascii_only_dec s : Decision (ascii_only s).
Proof. unfold ascii_only. apply _. Defined.
Record ascii_journal (j : applyJournal) : Prop := {
  aj_ids : ascii_only (aj_Format j) /\ ascii_only (aj_RepositoryID j) /\ ascii_only (aj_AssignmentID j) /\ ascii_only (aj_RemoteRevision j);
  aj_entries : forall e, e ∈ aj_Entries j -> ascii_only (ae_Path e) /\ ascii_only (ae_Target e)
}.

(** What is relied on: [encoding/json] decodes what it has encoded, for ASCII strings. *)
Class JournalJsonLaw `{JournalJson} : Prop :=
  json_roundtrip : forall j, ascii_journal j -> json_Decode (json_Marshal j ++ [x0a]) = Some j.

Definition targets (root : path) (paths : list string) : list path := join root <$> paths.

(** The home directory and the paths to be changed: a tree in which the home directory is a
    directory, no target lies below another one or below a symbolic link, and all names are
    ASCII. *)
Record setting (root : path) (t0 : tree) (paths : list string) : Prop := {
  st_plain : Forall plain root;
  st_tree : tree_ok t0;
  st_home : t0 !! root = Some Dir;
  st_free : forall p q, p ∈ targets root paths -> q ∈ targets root paths -> p `prefix_of` q -> p = q;
  st_links : forall p, p ∈ targets root paths -> no_links_above t0 p;
  st_ascii : Forall ascii_only paths /\ forall p s, t0 !! p = Some (Link s) -> ascii_only s
}.

Section Recovered.
Context `{Law : JournalJsonLaw} (behind_link : tree -> path -> stat) (unreadable : path -> bool).
Context (root : path) (t0 : tree) (paths : list string) (Hset : setting root t0 paths).

Lemma begin_targets maxBytes total entries :
  journal_entries behind_link unreadable root maxBytes t0 total (dedupe (merge_sort string_le paths)) = Ok entries ->
  targets_ok root (targets root paths) t0 /\
  Forall (records root (targets root paths) t0) (rev entries) /\
  (forall p, p ∈ targets root paths -> exists e, e ∈ rev entries /\ p = join root (ae_Path e)) /\
  (forall e, e ∈ entries -> ascii_only (ae_Path e) /\ ascii_only (ae_Target e)).
Proof.
  intros Hent. destruct Hset as [Hpl Ht Hhome Hfree Hlinks [Ha1 Ha2]].
  apply (journal_entries_spec behind_link unreadable root t0 Ht Hhome) in Hent as [Hall Heach].
  2:{ intros x Hx. apply Hlinks. apply list_elem_of_fmap_2. by apply elem_journaled. }
  assert (forall p, p ∈ targets root paths -> exists e, e ∈ entries /\ p = join root (ae_Path e)) as Hcov.
  { intros p Hp. apply list_elem_of_fmap in Hp as (x & -> & Hx). apply elem_journaled in Hx.
    destruct (Hall x Hx) as (e & He & <-). by exists e. }
  split; [split|split; [|split]].
  - intros q Hq. destruct (decide (q = root)) as [->|Hne]; [done|]. apply (dirs_above t0 root q Ht); [by rewrite Hhome|done].
  - intros p Hp. destruct (Hcov p Hp) as (e & He & ->). by apply Heach.
  - done.
  - intros p q Hp. destruct (Hcov p Hp) as (e & He & ->). by apply (Heach e He).
  - intros p Hp. destruct (Hcov p Hp) as (e & He & ->). destruct (Heach e He) as (_ & _ & _ & Hr & _).
    intros Hd. by rewrite Hd in Hr.
  - apply Forall_forall. intros e He. rewrite elem_of_rev in He. destruct (Heach e He) as (Hin & Hs & _ & Hr & _).
    split; [done|]. split; [|done]. apply list_elem_of_fmap_2. by apply elem_journaled.
  - intros p Hp. destruct (Hcov p Hp) as (e & He & ->). exists e. split; [by apply elem_of_rev|done].
  - intros e He. destruct (Heach e He) as (Hin & _ & _ & Hr & _). split; [rewrite Forall_forall in Ha1; apply Ha1; by apply elem_journaled|].
    destruct (t0 !! join root (ae_Path e)) as [[|? ? ?|s|]|] eqn:E; simpl in Hr; [done| | |done|].
    + destruct Hr as (_ & _ & _ & ->). constructor.
    + destruct Hr as (_ & _ & -> & _). by apply (Ha2 _ s E).
    + destruct Hr as [_ ->]. constructor.
Qed.
End Recovered.


(** ** Journals that cannot be played back *)

(** [encoding/json] writes a slice of bytes in base64, four characters for three bytes. *)
Class JournalJsonSize `{JournalJson} : Prop :=
  json_size : forall j e, e ∈ aj_Entries j -> 4 * ((len (ae_Content e) + 2) / 3) <= len (json_Marshal j).

(** The limit is on the contents when a journal is written, and on its base64 text when it is
    played back: a journal with a file of more than three quarters of what may be recorded is
    written, and is refused at every attempt to recover. *)
Theorem large_journal_unrecoverable `{Size : JournalJsonSize} behind_link unreadable root t0 paths repositoryID assignmentID remoteRevision
    maxBytes j0 b0 w1 relative perm special content t budget :
  setting root t0 paths ->
  beginApplyJournal behind_link unreadable root repositoryID assignmentID remoteRevision paths maxBytes (mkWorld t0 j0 b0) = (Ok (), w1) ->
  relative ∈ paths -> t0 !! join root relative = Some (File perm special content) ->
  maxBytes + 1048576 <= 4 * ((len content + 2) / 3) ->
  recoverApplyJournal behind_link root repositoryID assignmentID maxBytes (mkWorld t (w_journal w1) budget)
    = (Err ErrApplyJournalInvalid, mkWorld t (w_journal w1) budget).
Proof.
  intros Hset Hbegin Hin Hfile Hbig. unfold beginApplyJournal in Hbegin. case_decide; [done|].
  destruct (journal_entries _ _ _ _ _ _ _) as [entries|] eqn:Eent; [|done]. simpl in Eent.
  destruct Hset as [Hpl Ht Hhome Hfree Hlinks _].
  apply (journal_entries_spec behind_link unreadable root t0 Ht Hhome) in Eent as [Hall Heach].
  2:{ intros x Hx. apply Hlinks. apply list_elem_of_fmap_2. by apply elem_journaled. }
  destruct (Hall relative) as (e & He & <-); [by apply elem_journaled|].
  destruct (Heach e He) as (_ & _ & _ & Hr & _). rewrite Hfile in Hr. destruct Hr as (_ & _ & Hc & _).
  set (journal := mkApplyJournal journal_format repositoryID assignmentID remoteRevision entries) in *.
  assert (w_journal w1 = Some (json_Marshal journal ++ [x0a])) as Hj1.
  { unfold change_journal in Hbegin. destruct (spend _); [|done]. by injection Hbegin as <-. }
  pose proof (json_size journal e He) as Hs. rewrite Hc in Hs.
  unfold recoverApplyJournal. simpl. rewrite Hj1. rewrite decide_True; [done|]. rewrite length_app. simpl. lia.
Qed.

(** ** A home directory with two files *)

#[global] Instance file_type_countable : Countable file_type.
Proof.
  refine (inj_countable' (fun t => match t with TRegular => 0%nat | TSymlink => 1%nat | TOther => 2%nat end)
    (fun n => match n with O => TRegular | S O => TSymlink | _ => TOther end) _). by intros [].
Defined.
#[global] Instance byte_countable : Countable byte := inj_countable' byte_val byte_of byte_of_val.
#[global] Instance FileMode_eq_dec : EqDecision FileMode.
Proof. solve_decision. Defined.
#[global] Instance FileMode_countable : Countable FileMode.
Proof. refine (inj_countable' (fun m => (md_type m, md_perm m, md_special m)) (fun '(a, b, c) => mkMode a b c) _). by intros []. Defined.
#[global] Instance applyJournalEntry_eq_dec : EqDecision applyJournalEntry.
Proof. solve_decision. Defined.
#[global] Instance applyJournalEntry_countable : Countable applyJournalEntry.
Proof.
  refine (inj_countable' (fun e => (ae_Path e, ae_Existed e, ae_Mode e, ae_Target e, ae_Content e))
    (fun '(a, b, c, d, e) => mkEntry a b c d e) _). by intros [].
Defined.
#[global] Instance applyJournal_eq_dec : EqDecision applyJournal.
Proof. solve_decision. Defined.
#[global] Instance applyJournal_countable : Countable applyJournal.
Proof.
  refine (inj_countable' (fun j => (aj_Format j, aj_RepositoryID j, aj_AssignmentID j, aj_RemoteRevision j, aj_Entries j))
    (fun '(a, b, c, d, e) => mkApplyJournal a b c d e) _). by intros [].
Defined.

(** A code for journals: the binary digits of a number, the lowest first, and an end. *)
Fixpoint digits (p : positive) : list byte :=
  match p with xH => [] | xO p => x30 :: digits p | xI p => x31 :: digits p end.
Fixpoint number (l : list byte) : positive :=
  match l with x30 :: l => xO (number l) | x31 :: l => xI (number l) | _ => xH end.
Lemma number_digits p : number (digits p ++ [x0a]) = p.
Proof. induction p as [p IH|p IH|]; simpl; congruence. Qed.

Definition demo_json : JournalJson := {| json_Marshal := fun j => digits (encode j); json_Decode := fun l => decode (number l) |}.
Lemma demo_law : @JournalJsonLaw demo_json.
Proof. intros j _. simpl. rewrite number_digits. apply decode_encode. Qed.

Definition demo_home : path := ["home"; "u"].
Definition demo_tree : tree :=
  {[[] := Dir; ["home"] := Dir; ["home"; "u"] := Dir; ["home"; "u"; ".vimrc"] := File 420 false [x61; x62];
    ["home"; "u"; ".profile"] := Link ".bashrc"]}.
Definition demo_paths : list string := [".vimrc"; ".profile"; ".config/git/config"].
Definition no_link (_ : tree) (_ : path) : stat := SError.
Definition demo_begun : world :=
  (@beginApplyJournal no_link (fun _ => false) demo_json demo_home "repo" "assign" "rev" demo_paths 1048576 (mkWorld demo_tree None None)).2.
(** The application has replaced one file, removed the link and made the new file. *)
Definition demo_applied : tree :=
  <[["home"; "u"; ".config"; "git"; "config"] := File 384 false [x63]]>
  (<[["home"; "u"; ".config"; "git"] := Dir]> (<[["home"; "u"; ".config"] := Dir]>
  (delete ["home"; "u"; ".profile"] (<[["home"; "u"; ".vimrc"] := File 420 false [x64]]> demo_tree)))).

(** A file that is to become a directory, and a directory that is to become a file. *)
Example type_changes_refused :
  (@beginApplyJournal no_link (fun _ => false) demo_json demo_home "repo" "assign" "rev" [".vimrc"; ".vimrc/plugins"] 1048576
     (mkWorld demo_tree None None)).1 = Err ErrApplyJournalInvalid /\
  (@beginApplyJournal no_link (fun _ => false) demo_json ["home"] "repo" "assign" "rev" ["u"; "u/.vimrc"] 1048576
     (mkWorld demo_tree None None)).1 = Err ErrApplyJournalInvalid.
Proof. by vm_compute. Qed.

Lemma demo_apply_setting : setting demo_home demo_tree demo_paths.
Proof.
  split.
  - repeat constructor; by (discriminate || vm_compute; set_solver).
  - apply tree_check. apply (bool_decide_unpack _). by vm_compute.
  - by vm_compute.
  - assert (Forall (fun p => Forall (fun q => p `prefix_of` q -> p = q) (targets demo_home demo_paths)) (targets demo_home demo_paths)) as H.
    { apply (bool_decide_unpack _). by vm_compute. }
    rewrite Forall_forall in H. intros p q Hp Hq. specialize (H p Hp). rewrite Forall_forall in H. by apply H.
  - assert (map_Forall (fun k n => match n with
      | Link _ => bool_decide (Forall (fun p => ~ (k `prefix_of` p /\ k <> p)) (targets demo_home demo_paths)) | _ => true end = true) demo_tree) as H.
    { apply (bool_decide_unpack _). by vm_compute. }
    intros p Hp q s Hq Hl. specialize (H q _ Hl). simpl in H. apply bool_decide_eq_true in H. rewrite Forall_forall in H. by apply (H p Hp).
  - split; [apply (bool_decide_unpack _); by vm_compute|].
    assert (map_Forall (fun _ n => match n with Link s => bool_decide (ascii_only s) | _ => true end = true) demo_tree) as H.
    { apply (bool_decide_unpack _). by vm_compute. }
    intros p s Hs. specialize (H p _ Hs). simpl in H. by apply bool_decide_eq_true in H.
Qed.

Lemma demo_changes : rtc (change (targets demo_home demo_paths)) demo_tree demo_applied.
Proof.
  eapply rtc_l; [apply (change_write _ demo_tree ["home"; "u"; ".vimrc"] (File 420 false [x64])); [left|by vm_compute|vm_compute; congruence|done]|].
  eapply rtc_l; [apply (change_remove _ _ ["home"; "u"; ".profile"]); [right; left|vm_compute; congruence]|].
  eapply rtc_l; [apply (change_mkdir _ _ ["home"; "u"; ".config"]); [by vm_compute|]|].
  { exists ["home"; "u"; ".config"; "git"; "config"]. split; [do 2 right; left|]. apply above_split. by exists "git"%string, ["config"]. }
  eapply rtc_l; [apply (change_mkdir _ _ ["home"; "u"; ".config"; "git"]); [by vm_compute|]|].
  { exists ["home"; "u"; ".config"; "git"; "config"]. split; [do 2 right; left|]. apply above_split. by exists "config"%string, []. }
  eapply rtc_l; [apply (change_write _ _ ["home"; "u"; ".config"; "git"; "config"] (File 384 false [x63]));
    [do 2 right; left|by vm_compute|vm_compute; congruence|done]|].
  apply rtc_refl.
Qed.

Definition demo_recovered : world :=
  (@recoverApplyJournal no_link demo_json demo_home "repo" "assign" 1048576 (mkWorld demo_applied (w_journal demo_begun) None)).2.

