(* ===== verification/Engine.v ===== *)
(** * The engine of configuration sync ([internal/configsync/engine.go], [status.go], [policy.go])

    The engine runs one synchronization at a time, when files have changed, when the remote is
    polled and when it is told to, and reports a status before and after each.  A
    synchronization is two critical sections with the work between them: [sync_begin] and
    [sync_end]; meanwhile other goroutines may mark the engine dirty.  The work itself
    ([Publisher.Sync]), the diagnostics of the reconciler and the clock are inputs; watchers
    and timers are outside. *)

From S2P Require Import Prelude Base64 Paths Reconcile Publisher ApplyJournal.

(** ** Policy ([policy.go]) *)

Record RuntimePolicy := mkPolicy {
  rp_Format : string; rp_Revision : string; rp_ManifestContract : string;
  rp_ManifestMaxBytes : Z; rp_ManifestMaxLines : Z; rp_ManifestMaxPatternBytes : Z;
  rp_MaxFileBytes : Z; rp_MaxBatchBytes : Z; rp_Debounce : Z; rp_MinimumPushInterval : Z; rp_MaximumDirtyDelay : Z;
  rp_RemotePollInterval : Z; rp_RetryLimit : Z; rp_ShutdownFlushTimeout : Z; rp_SummaryLimit : Z
}.

Record RuntimeDescriptor := mkDescriptor {
  rd_WriteMode : string; rd_Mode : AssignmentMode; rd_RepositoryID : string; rd_AssignmentID : string;
  rd_EnvironmentID : string; rd_HelperID : string; rd_HelperGeneration : Z; rd_SyncRevisionFloor : Z;
  rd_WarningRevision : string; rd_Policy : RuntimePolicy
}.

Definition minute : Z := 60 * second.
Definition hour : Z := 60 * minute.

Definition validManifestLimits (p : RuntimePolicy) : bool :=
  bool_decide (rp_ManifestMaxBytes p > 0 /\ rp_ManifestMaxBytes p <= 4194304 /\ rp_ManifestMaxLines p > 0 /\ rp_ManifestMaxLines p <= 65536 /\
    rp_ManifestMaxPatternBytes p > 0 /\ rp_ManifestMaxPatternBytes p <= 8192).

(** [validateRuntimeDescriptor], for a credential with the identifiers of the descriptor. *)
Definition validateRuntimeDescriptor (d : RuntimeDescriptor) : bool :=
  let p := rd_Policy d in
  bool_decide ((rd_WriteMode d = "read_only" \/ rd_WriteMode d = "leased_writes") /\ rd_RepositoryID d <> "" /\
    ~ rd_HelperGeneration d < 1 /\ ~ rd_SyncRevisionFloor d < 0 /\
    rp_Format p = "paperboat-config-plaintext-v1" /\ rp_Revision p <> "" /\
    ~ rp_MaxFileBytes p < 1 /\ ~ rp_MaxFileBytes p > 104857600 /\
    ~ rp_MaxBatchBytes p < rp_MaxFileBytes p /\ ~ rp_MaxBatchBytes p > 524288000 /\
    ~ rp_Debounce p < second /\ ~ rp_Debounce p > 5 * minute /\
    ~ rp_MinimumPushInterval p < minute /\ ~ rp_MinimumPushInterval p > 24 * hour /\
    ~ rp_MaximumDirtyDelay p < rp_Debounce p /\ ~ rp_MaximumDirtyDelay p > 24 * hour /\
    ~ rp_RemotePollInterval p < second /\ ~ rp_RemotePollInterval p > hour /\
    ~ rp_RetryLimit p < 1 /\ ~ rp_RetryLimit p > 20 /\
    ~ rp_ShutdownFlushTimeout p < second /\ ~ rp_ShutdownFlushTimeout p > 10 * minute /\
    ~ rp_SummaryLimit p < 1 /\ ~ rp_SummaryLimit p > 1000 /\
    rp_ManifestContract p = "paperboat-manifest-v1" /\ validManifestLimits p = true).

(** ** Status ([status.go]) *)

Record Status := mkStatus {
  st_State : string; st_Mode : AssignmentMode; st_RepositoryID : string; st_AssignmentID : string; st_EnvironmentID : string;
  st_HelperID : string; st_HelperGeneration : Z; st_WarningRevision : string; st_PolicyRevision : string; st_SyncRevision : Z;
  st_RemoteRevision : string; st_ManifestHealth : string; st_ManifestRevision : string; st_ManagedPathCount : Z;
  st_PendingCleanPathCount : Z; st_LastAppliedRevision : string; st_LastPublishedRevision : string; st_LeaseID : string;
  st_FencingToken : Z; st_LastAttemptAt : option time; st_LastSuccessfulAt : option time; st_UpdatedAt : time;
  st_Skipped : list PathSummary; st_Conflicts : list PathSummary; st_ErrorCode : string; st_RecoveryActions : list string
}.

Definition canonicalStates : list string :=
  ["disabled"; "consent_required"; "restoring"; "watching"; "pending"; "syncing"; "healthy"; "warning"; "conflict";
   "offline"; "revoked"; "error"; "sync_uncertain"].

Definition slen (s : string) : Z := Z.of_nat (String.length s).

Definition in_range (a : ascii) (lo hi : nat) : bool := let n := nat_of_ascii a in ((lo <=? n) && (n <=? hi))%nat.
(** [^[a-z][a-z0-9_]{0,63}$] *)
Definition safeStatusCode (s : string) : bool :=
  match String.list_ascii_of_string s with
  | [] => false
  | a :: l => in_range a 97 122 && forallb (fun b => in_range b 97 122 || in_range b 48 57 || in_range b 95 95) l && (length l <=? 63)%nat
  end.
(** [^[a-f0-9]{64}$] *)
Definition safeConflictRevision (s : string) : bool :=
  let l := String.list_ascii_of_string s in
  (length l =? 64)%nat && forallb (fun b => in_range b 97 102 || in_range b 48 57) l.

Definition safe_summary (item : PathSummary) : bool :=
  safeRelativeStatusPath (ps_Path item) && bool_decide (~ ps_Bytes item < 0) && safeStatusCode (ps_Reason item) &&
  (bool_decide (ps_Revision item = "") || safeConflictRevision (ps_Revision item)).

Definition Validate (s : Status) (summaryLimit : Z) : bool :=
  bool_decide (st_State s ∈ canonicalStates /\ ~ summaryLimit < 1 /\ ~ summaryLimit > 1000 /\
    ~ st_SyncRevision s < 0 /\ ~ st_ManagedPathCount s < 0 /\ ~ st_PendingCleanPathCount s < 0 /\ ~ st_HelperGeneration s < 0 /\
    ~ st_FencingToken s < 0 /\ is_zero_time (st_UpdatedAt s) = false /\ ~ slen (st_RemoteRevision s) > 256 /\
    ~ slen (st_LeaseID s) > 128 /\ ~ slen (st_ErrorCode s) > 64 /\ ~ slen (st_ManifestRevision s) > 64 /\
    ~ slen (st_LastAppliedRevision s) > 256 /\ ~ slen (st_LastPublishedRevision s) > 256 /\
    (st_ErrorCode s = "" \/ safeStatusCode (st_ErrorCode s) = true) /\
    ~ len (st_Skipped s) > summaryLimit /\ ~ len (st_Conflicts s) > summaryLimit /\ ~ len (st_RecoveryActions s) > 8 /\
    st_ManifestHealth s ∈ [""; "healthy"; "empty"; "missing"; "invalid"] /\
    Forall (fun i => safe_summary i = true) (st_Skipped s) /\ Forall (fun i => safe_summary i = true) (st_Conflicts s) /\
    Forall (fun a => safeStatusCode a = true) (st_RecoveryActions s) /\
    ~ (st_State s = "conflict" /\ st_Conflicts s = []) /\
    ~ (st_State s = "sync_uncertain" /\ st_ErrorCode s <> "sync_uncertain") /\
    ~ (st_FencingToken s > 0 /\ st_LeaseID s = "")).

(** ** The engine *)

Record ReconciliationDiagnostics := mkDiagnostics {
  dg_Skipped : list PathSummary; dg_Conflicts : list PathSummary; dg_ManifestHealth : string; dg_ManifestRevision : string;
  dg_ManagedPathCount : Z; dg_PendingCleanPathCount : Z; dg_LastAppliedRevision : string; dg_LastPublishedRevision : string
}.

Record Engine := mkEngine {
  en_descriptor : RuntimeDescriptor; en_remoteRevision : string; en_syncRevision : Z;
  en_lastPush : time; en_dirtySince : time; en_status : Status
}.

(** The revision an engine starts with: the floor of the descriptor, or that of a status
    written before for the same assignment and helper, if it is greater. *)
Definition start_revision (d : RuntimeDescriptor) (previous : option Status) : Z :=
  match previous with
  | Some p =>
      if decide (st_RepositoryID p = rd_RepositoryID d /\ st_AssignmentID p = rd_AssignmentID d /\ st_EnvironmentID p = rd_EnvironmentID d /\
                 st_HelperID p = rd_HelperID d /\ st_HelperGeneration p = rd_HelperGeneration d /\ st_SyncRevision p > rd_SyncRevisionFloor d)
      then st_SyncRevision p else rd_SyncRevisionFloor d
  | None => rd_SyncRevisionFloor d
  end.

(** [NewEngine], for canonical paths, with the status read from the status file if any. *)
Definition NewEngine (d : RuntimeDescriptor) (previous : option Status) (now : time) : option Engine :=
  if negb (validateRuntimeDescriptor d) then None
  else
    let revision := start_revision d previous in
    Some (mkEngine d "" revision zero_time zero_time
      (mkStatus "restoring" (rd_Mode d) (rd_RepositoryID d) (rd_AssignmentID d) (rd_EnvironmentID d) (rd_HelperID d) (rd_HelperGeneration d)
         (rd_WarningRevision d) (rp_Revision (rd_Policy d)) revision "" "" "" 0 0 "" "" "" 0 None None now [] [] "" [])).

Definition markDirty (now : time) (e : Engine) : Engine :=
  if is_zero_time (en_dirtySince e)
  then mkEngine (en_descriptor e) (en_remoteRevision e) (en_syncRevision e) (en_lastPush e) now (en_status e) else e.

(** What [Start] changes: everything there is may have to be synchronized. *)
Definition Start_dirty (now : time) (e : Engine) : Engine :=
  mkEngine (en_descriptor e) (en_remoteRevision e) (en_syncRevision e) (en_lastPush e) now (en_status e).

Definition nextDelay (now : time) (e : Engine) : Z :=
  let policy := rd_Policy (en_descriptor e) in
  let delay := rp_Debounce policy in
  let delay := if is_zero_time (en_lastPush e) then delay
               else let remaining := rp_MinimumPushInterval policy - (now - en_lastPush e) in
                    if decide (remaining > delay) then remaining else delay in
  let delay := if is_zero_time (en_dirtySince e) then delay
               else let remaining := rp_MaximumDirtyDelay policy - (now - en_dirtySince e) in
                    if decide (remaining < delay) then remaining else delay in
  if decide (delay < 0) then 0 else delay.

(** [syncRevision++] on 64 bits. *)
Definition next_revision (r : Z) : Z := if decide (r = two63 - 1) then - two63 else r + 1.

(** The first critical section of [syncNow]; the status is then reported. *)
Definition sync_begin (now : time) (e : Engine) : Engine :=
  let s := en_status e in
  let revision := next_revision (en_syncRevision e) in
  mkEngine (en_descriptor e) (en_remoteRevision e) revision (en_lastPush e) (en_dirtySince e)
    (mkStatus "syncing" (st_Mode s) (st_RepositoryID s) (st_AssignmentID s) (st_EnvironmentID s) (st_HelperID s) (st_HelperGeneration s)
       (st_WarningRevision s) (st_PolicyRevision s) revision (st_RemoteRevision s) (st_ManifestHealth s) (st_ManifestRevision s)
       (st_ManagedPathCount s) (st_PendingCleanPathCount s) (st_LastAppliedRevision s) (st_LastPublishedRevision s) (st_LeaseID s)
       (st_FencingToken s) (Some now) (st_LastSuccessfulAt s) now (st_Skipped s) (st_Conflicts s) (st_ErrorCode s) (st_RecoveryActions s)).

(** What the switch of [syncNow] decides: the state, the error code, the recovery actions
    ([None]: left as they are), and whether the synchronization counts as done. *)
Record judgement := mkJudgement { jd_state : string; jd_code : string; jd_actions : option (list string); jd_done : bool }.

Definition judge_sync (result : PublishResult) (err : error) (d : ReconciliationDiagnostics) : judgement :=
  if bool_decide (err = None) && pr_Landed result && bool_decide (dg_Conflicts d <> [])
  then mkJudgement "conflict" "config_conflict" (Some ["keep_local"; "keep_remote"]) true
  else if bool_decide (err = None) && pr_Landed result
  then mkJudgement (if decide (dg_Skipped d = []) then "healthy" else "warning") "" (Some []) true
  else if errors_Is err ErrConfigConflict then mkJudgement "conflict" "config_conflict" (Some ["keep_local"; "keep_remote"]) false
  else if errors_Is err ErrSyncUncertain then mkJudgement "sync_uncertain" "sync_uncertain" (Some ["observe_remote"]) false
  else if errors_Is err ErrWritesDisabled then mkJudgement "warning" "writes_disabled" (Some ["wait_for_rollout"]) false
  else if errors_Is err ErrManifestMissing then mkJudgement "error" "manifest_missing" (Some ["fix_manifest"]) false
  else if errors_Is err ErrManifestInvalid || errors_Is err ErrManifestUnsafePath then mkJudgement "error" "manifest_invalid" (Some ["fix_manifest"]) false
  else if errors_Is err ErrAuthorization || errors_Is err ErrLeaseLost then mkJudgement "revoked" "credential_expired" None false
  else mkJudgement "error" "repository_unavailable" None false.

(** [if x != "" { field = x }]. *)
Definition or_keep (x old : string) : string := if decide (x = "") then old else x.

(** The last critical section of [syncNow]; the status is then reported again. *)
Definition sync_end (now : time) (d : ReconciliationDiagnostics) (result : PublishResult) (err : error) (e : Engine) : Engine :=
  let s := en_status e in
  let j := judge_sync result err d in
  let remote old := if jd_done j then pr_RemoteRevision result else or_keep (pr_RemoteRevision result) old in
  mkEngine (en_descriptor e) (remote (en_remoteRevision e)) (en_syncRevision e)
    (if jd_done j then now else en_lastPush e) (if jd_done j then zero_time else en_dirtySince e)
    (mkStatus (jd_state j) (st_Mode s) (st_RepositoryID s) (st_AssignmentID s) (st_EnvironmentID s) (st_HelperID s) (st_HelperGeneration s)
       (st_WarningRevision s) (st_PolicyRevision s) (st_SyncRevision s) (remote (st_RemoteRevision s)) (dg_ManifestHealth d) (dg_ManifestRevision d)
       (dg_ManagedPathCount d) (dg_PendingCleanPathCount d) (or_keep (dg_LastAppliedRevision d) (st_LastAppliedRevision s))
       (or_keep (dg_LastPublishedRevision d) (st_LastPublishedRevision s)) (st_LeaseID s) (st_FencingToken s) (st_LastAttemptAt s)
       (if jd_done j then Some now else st_LastSuccessfulAt s) now (dg_Skipped d) (dg_Conflicts d) (jd_code j)
       (default (st_RecoveryActions s) (jd_actions j))).

(** ** Runs of the engine *)

(** Diagnostics as the reconciler makes them: bounded lists of safe paths. *)
Definition diagnostics_ok (limit : Z) (d : ReconciliationDiagnostics) : Prop :=
  len (dg_Skipped d) <= limit /\ len (dg_Conflicts d) <= limit /\
  Forall (fun i => safe_summary i = true) (dg_Skipped d) /\ Forall (fun i => safe_summary i = true) (dg_Conflicts d) /\
  dg_ManifestHealth d ∈ [""; "healthy"; "empty"; "missing"; "invalid"] /\ slen (dg_ManifestRevision d) <= 64 /\
  0 <= dg_ManagedPathCount d /\ 0 <= dg_PendingCleanPathCount d /\
  slen (dg_LastAppliedRevision d) <= 256 /\ slen (dg_LastPublishedRevision d) <= 256.

(** An engine, whether a synchronization is under way, and the reports so far. *)
Inductive engine_step : Engine * bool * list Status -> Engine * bool * list Status -> Prop :=
| engine_begin e reports now : is_zero_time now = false ->
    engine_step (e, false, reports) (sync_begin now e, true, reports ++ [en_status (sync_begin now e)])
| engine_end e reports now d result err :
    is_zero_time now = false -> diagnostics_ok (rp_SummaryLimit (rd_Policy (en_descriptor e))) d ->
    slen (pr_RemoteRevision result) <= 256 -> (errors_Is err ErrConfigConflict = true -> dg_Conflicts d <> []) ->
    engine_step (e, true, reports) (sync_end now d result err e, false, reports ++ [en_status (sync_end now d result err e)])
| engine_dirty e busy reports now : engine_step (e, busy, reports) (markDirty now e, busy, reports)
| engine_start e busy reports now : engine_step (e, busy, reports) (Start_dirty now e, busy, reports).

(** The error codes and actions [syncNow] uses. *)
Lemma judge_sync_ok result err d : let j := judge_sync result err d in
  jd_state j ∈ canonicalStates /\ (jd_code j = "" \/ safeStatusCode (jd_code j) = true) /\ slen (jd_code j) <= 64 /\
  (forall l, jd_actions j = Some l -> Forall (fun a => safeStatusCode a = true) l /\ len l <= 8) /\
  (jd_state j = "sync_uncertain" -> jd_code j = "sync_uncertain") /\
  (jd_state j = "conflict" -> dg_Conflicts d <> [] \/ errors_Is err ErrConfigConflict = true).
Proof.
  unfold judge_sync.
  repeat match goal with
  | |- context [if ?b && bool_decide ?P then _ else _] => destruct (b && bool_decide P) eqn:?
  | |- context [if ?b then _ else _] => destruct b eqn:?
  end; simpl.
  all: try (case_decide; simpl).
  all: split; [by set_solver|]; split; [first [by left|by right; vm_compute]|]; split; [by vm_compute|].
  all: split; [first [intros l [= <-]; split; [by repeat constructor|done]|done]|]; split; [by first [done|discriminate]|].
  all: try (intros; discriminate).
  - intros _. left. match goal with H : _ && bool_decide _ = true |- _ => apply andb_true_iff in H as [_ H]; by apply bool_decide_eq_true in H end.
  - intros _. by right.
Qed.

(** What is known of the status an engine keeps, besides its validity. *)
Record engine_ok (d : RuntimeDescriptor) (start : Z) (e : Engine) (busy : bool) (reports : list Status) : Prop := {
  eo_descriptor : en_descriptor e = d;
  eo_valid : Validate (en_status e) (rp_SummaryLimit (rd_Policy d)) = true;
  eo_revision : st_SyncRevision (en_status e) = en_syncRevision e;
  eo_count : exists k : nat, en_syncRevision e = start + Z.of_nat k /\ len reports = 2 * Z.of_nat k - (if busy then 1 else 0);
  eo_ids : st_RepositoryID (en_status e) = rd_RepositoryID d /\ st_AssignmentID (en_status e) = rd_AssignmentID d /\
    st_EnvironmentID (en_status e) = rd_EnvironmentID d /\ st_HelperID (en_status e) = rd_HelperID d /\
    st_HelperGeneration (en_status e) = rd_HelperGeneration d;
  eo_reports : forall i s, reports !! i = Some s -> Validate s (rp_SummaryLimit (rd_Policy d)) = true /\
    st_SyncRevision s = start + 1 + Z.of_nat i / 2 /\ start_revision d (Some s) = st_SyncRevision s
}.

Lemma start_revision_own d s start :
  rd_SyncRevisionFloor d <= start -> start < st_SyncRevision s ->
  st_RepositoryID s = rd_RepositoryID d /\ st_AssignmentID s = rd_AssignmentID d /\
    st_EnvironmentID s = rd_EnvironmentID d /\ st_HelperID s = rd_HelperID d /\ st_HelperGeneration s = rd_HelperGeneration d ->
  start_revision d (Some s) = st_SyncRevision s.
Proof. intros H1 H2 (A & B & C & D & F). unfold start_revision. rewrite decide_True; [done|]. repeat split; try done. lia. Qed.

(** A status that was reported joins the others. *)
Lemma reports_snoc d start reports s :
  (forall i x, reports !! i = Some x -> Validate x (rp_SummaryLimit (rd_Policy d)) = true /\
    st_SyncRevision x = start + 1 + Z.of_nat i / 2 /\ start_revision d (Some x) = st_SyncRevision x) ->
  Validate s (rp_SummaryLimit (rd_Policy d)) = true -> st_SyncRevision s = start + 1 + len reports / 2 ->
  start_revision d (Some s) = st_SyncRevision s ->
  forall i x, (reports ++ [s]) !! i = Some x -> Validate x (rp_SummaryLimit (rd_Policy d)) = true /\
    st_SyncRevision x = start + 1 + Z.of_nat i / 2 /\ start_revision d (Some x) = st_SyncRevision x.
Proof.
  intros Hall Hv Hr Hs i x Hx. apply lookup_app_Some in Hx as [Hx|[Hi Hx]]; [by apply Hall|].
  apply list_lookup_singleton_Some in Hx as [Hi' <-]. assert (i = length reports) as -> by lia. done.
Qed.

Lemma sync_begin_valid now e limit :
  Validate (en_status e) limit = true -> is_zero_time now = false -> 0 <= next_revision (en_syncRevision e) ->
  Validate (en_status (sync_begin now e)) limit = true.
Proof.
  unfold Validate. intros H Hnow Hrev. apply bool_decide_eq_true in H. apply bool_decide_eq_true. unfold sync_begin. simpl.
  destruct H as (V1 & V2 & V3 & V4 & V5 & V6 & V7 & V8 & V9 & V10 & V11 & V12 & V13 & V14 & V15 & V16 & V17 & V18 & V19 & V20 & V21 & V22 & V23 & V24 & V25 & V26).
  split; [set_solver|]. repeat (split; [first [done|lia]|]). split; [by intros [? _]|]. by split; [intros [? _]|].
Qed.

Lemma or_keep_len x old n : slen x <= n -> slen old <= n -> slen (or_keep x old) <= n.
Proof. unfold or_keep. by case_decide. Qed.

Lemma sync_end_valid now d result err e limit :
  Validate (en_status e) limit = true -> is_zero_time now = false -> diagnostics_ok limit d ->
  slen (pr_RemoteRevision result) <= 256 -> (errors_Is err ErrConfigConflict = true -> dg_Conflicts d <> []) ->
  Validate (en_status (sync_end now d result err e)) limit = true.
Proof.
  unfold Validate. intros H Hnow (D1 & D2 & D3 & D4 & D5 & D6 & D7 & D8 & D9 & D10) Hres Hconf.
  apply bool_decide_eq_true in H. apply bool_decide_eq_true. unfold sync_end. simpl.
  destruct H as (V1 & V2 & V3 & V4 & V5 & V6 & V7 & V8 & V9 & V10 & V11 & V12 & V13 & V14 & V15 & V16 & V17 & V18 & V19 & V20 & V21 & V22 & V23 & V24 & V25 & V26).
  destruct (judge_sync_ok result err d) as (J1 & J2 & J3 & J4 & J5 & J6).
  set (j := judge_sync result err d) in *.
  assert (slen (if jd_done j then pr_RemoteRevision result else or_keep (pr_RemoteRevision result) (st_RemoteRevision (en_status e))) <= 256) as Hrem.
  { destruct (jd_done j); [done|]. apply or_keep_len; [done|lia]. }
  pose proof (or_keep_len _ (st_LastAppliedRevision (en_status e)) 256 D9 ltac:(lia)) as Hla.
  pose proof (or_keep_len _ (st_LastPublishedRevision (en_status e)) 256 D10 ltac:(lia)) as Hlp.
  assert (Forall (fun a => safeStatusCode a = true) (default (st_RecoveryActions (en_status e)) (jd_actions j)) /\
          len (default (st_RecoveryActions (en_status e)) (jd_actions j)) <= 8) as [Ha1 Ha2].
  { destruct (jd_actions j) as [l|]; [by apply J4|]. split; [done|simpl; lia]. }
  repeat (split; [first [done|lia]|]). split; [intros [Hc Hn]; destruct (J6 Hc) as [?|He]; [done|by apply Hconf in He]|].
    split; [intros [Hc Hn]; auto|done].
Qed.

Lemma engine_step_ok d start e busy reports e' busy' reports' :
  engine_step (e, busy, reports) (e', busy', reports') -> rd_SyncRevisionFloor d <= start -> 0 <= start ->
  start + len reports' < two63 - 1 -> engine_ok d start e busy reports -> engine_ok d start e' busy' reports'.
Proof.
  intros Hstep Hfloor H0 Hbound [O1 O2 O3 (k & O4 & O5) O6 O7].
  inversion Hstep as [e1 r1 now Hnow|e1 r1 now dg result err Hnow Hd Hres Hc|e1 b1 r1 now|e1 b1 r1 now]; subst; clear Hstep.
  - rewrite length_app in Hbound. simpl in Hbound.
    assert (next_revision (en_syncRevision e) = start + Z.of_nat (S k)) as Hnext.
    { unfold next_revision. rewrite decide_False by (unfold two63 in *; lia). lia. }
    pose proof (sync_begin_valid now e _ O2 Hnow ltac:(lia)) as Hv.
    split; [done|done|done| |done|].
    + exists (S k). split; [done|]. rewrite length_app. simpl. lia.
    + apply reports_snoc; [done|done| |].
      * simpl. rewrite Hnext. simpl in O5. assert (len reports / 2 = Z.of_nat k) as ->; [|lia]. symmetry. apply (Z.div_unique_pos _ 2 _ 0); lia.
      * apply (start_revision_own _ _ start); [done|simpl; lia|done].
  - pose proof (sync_end_valid now dg result err e _ O2 Hnow Hd Hres Hc) as Hv.
    split; [done|done|done| |done|].
    + exists k. split; [done|]. rewrite length_app. simpl. lia.
    + apply reports_snoc; [done|done| |].
      * simpl. rewrite O3, O4. assert (len reports / 2 = Z.of_nat k - 1) as ->; [|lia].
        symmetry. apply (Z.div_unique_pos _ 2 _ 1); lia.
      * apply (start_revision_own _ _ start); [done| |done]. simpl. rewrite O3, O4. lia.
  - unfold markDirty. destruct (is_zero_time (en_dirtySince e)); split; try done; by exists k.
  - split; try done; by exists k.
Qed.

Lemma NewEngine_ok d previous now e :
  NewEngine d previous now = Some e -> is_zero_time now = false ->
  engine_ok d (start_revision d previous) e false [] /\ rd_SyncRevisionFloor d <= start_revision d previous /\ 0 <= start_revision d previous.
Proof.
  unfold NewEngine. destruct (validateRuntimeDescriptor d) eqn:Hv; simpl; [|done]. intros [= <-] Hnow.
  unfold validateRuntimeDescriptor in Hv. apply bool_decide_eq_true in Hv.
  destruct Hv as (_ & _ & Hgen & Hfloor & _ & _ & _ & _ & _ & _ & _ & _ & _ & _ & _ & _ & _ & _ & _ & _ & _ & _ & Hl1 & Hl2 & _).
  assert (rd_SyncRevisionFloor d <= start_revision d previous) as Hge.
  { unfold start_revision. destruct previous; [|done]. case_decide as Hd; [|done]. destruct Hd as (_ & _ & _ & _ & _ & ?). lia. }
  split; [|lia]. split; simpl; try done.
  - unfold Validate. apply bool_decide_eq_true. simpl. split; [set_solver|].
    repeat (split; [first [done|lia|by left|by constructor|by intros [? _]]|]). intros [? _]. lia.
  - exists O. lia.
Qed.

Lemma engine_steps_ok d start w w' : rtc engine_step w w' -> rd_SyncRevisionFloor d <= start -> 0 <= start ->
  start + len w'.2 < two63 - 1 -> engine_ok d start w.1.1 w.1.2 w.2 -> engine_ok d start w'.1.1 w'.1.2 w'.2.
Proof.
  intros Hr Hf H0. revert w' Hr. apply (rtc_ind_r (fun w' => start + len w'.2 < two63 - 1 ->
    engine_ok d start w.1.1 w.1.2 w.2 -> engine_ok d start w'.1.1 w'.1.2 w'.2)); [done|].
  intros x y Hxy Hr IH Hb Hw. destruct x as [[e busy] reports], y as [[e' busy'] reports']. simpl in *. eapply engine_step_ok; [done|done|done|done|].
  apply IH; [|done]. assert (length reports <= length reports')%nat; [|lia].
  inversion Hr; subst; rewrite ?length_app; simpl; lia.
Qed.


(** A change is synchronized in time: the delay that is set after a change is not negative, and
    does not reach beyond the greatest delay after the engine became dirty. *)
Theorem next_delay_bounded (now : time) (e : Engine) :
  0 <= nextDelay now e /\
  (is_zero_time (en_dirtySince e) = false ->
   now + nextDelay now e <= Z.max now (en_dirtySince e + rp_MaximumDirtyDelay (rd_Policy (en_descriptor e)))).
Proof.
  unfold nextDelay. destruct (is_zero_time (en_lastPush e)), (is_zero_time (en_dirtySince e)); split; try discriminate; intros;
    repeat case_decide; lia.
Qed.

(** ** Runs *)

Definition demo_policy : RuntimePolicy :=
  mkPolicy "paperboat-config-plaintext-v1" "p1" "paperboat-manifest-v1" 65536 1000 512 1048576 10485760 (2 * second) minute (5 * minute)
    (30 * second) 3 (10 * second) 50.
Definition demo_descriptor : RuntimeDescriptor :=
  mkDescriptor "leased_writes" ModeBidirectional "repo" "assign" "env" "helper" 1 7 "w1" demo_policy.
Definition demo_engine : Engine := default (mkEngine demo_descriptor "" 0 0 0 (mkStatus "" ModeBidirectional "" "" "" "" 0 "" "" 0 "" "" "" 0 0 "" "" "" 0 None None 0 [] [] "" []))
  (NewEngine demo_descriptor None second).
Definition no_diagnostics : ReconciliationDiagnostics := mkDiagnostics [] [] "healthy" "m1" 3 0 "" "".
Definition demo_conflict : ReconciliationDiagnostics :=
  mkDiagnostics [] [mkSummary ".vimrc" 10 "both_changed" ""] "healthy" "m1" 3 0 "" "".
Definition demo_first : Engine := sync_end (3 * second) no_diagnostics (mkPublished "c1" true false) None (sync_begin (2 * second) demo_engine).
Definition demo_reports : list Status := [en_status (sync_begin (2 * second) demo_engine); en_status demo_first].

Lemma demo_engine_run : rtc engine_step (demo_engine, false, []) (demo_first, false, demo_reports).
Proof.
  eapply rtc_l; [apply (engine_begin demo_engine [] (2 * second)); by vm_compute|].
  eapply rtc_l; [apply (engine_end _ _ (3 * second) no_diagnostics (mkPublished "c1" true false) None)|apply rtc_refl];
    [by vm_compute| |by vm_compute|done].
  unfold diagnostics_ok. split; [by vm_compute|]. split; [by vm_compute|]. split; [constructor|]. split; [constructor|].
  split; [right; left|]. repeat (split; [by vm_compute|]). by vm_compute.
Qed.


(** A conflict is reported with two actions; when the repository cannot be reached at the next
    synchronization, the error is reported with the actions of the conflict. *)
Example stale_recovery_actions :
  let e1 := sync_end (3 * second) demo_conflict (mkPublished "c1" true false) None (sync_begin (2 * second) demo_engine) in
  let e2 := sync_end (5 * second) no_diagnostics zero_PublishResult (fail ErrGitRepositoryInvalid) (sync_begin (4 * second) e1) in
  st_ErrorCode (en_status e2) = "repository_unavailable" /\ st_Conflicts (en_status e2) = [] /\
  st_RecoveryActions (en_status e2) = ["keep_local"; "keep_remote"].
Proof. by vm_compute. Qed.

(** A publication that has landed, with a release of the lease that fails: [Sync] returns the
    landed result with the error of the release, and the engine reports that the repository
    is unavailable and stays dirty. *)
Example failed_release_reported_as_failure :
  let e := sync_end (3 * second) no_diagnostics (mkPublished "c1" true false) (fail ErrContext) (markDirty second (sync_begin (2 * second) demo_engine)) in
  st_State (en_status e) = "error" /\ st_ErrorCode (en_status e) = "repository_unavailable" /\ en_dirtySince e = second /\
  st_RemoteRevision (en_status e) = "c1" /\ st_LastSuccessfulAt (en_status e) = None.
Proof. by vm_compute. Qed.
