(* ===== verification/Hosted.v ===== *)
(** * The lifecycle of a hosted environment ([internal/hosted/lifecycle.go])

    Before a hosted helper serves anything it prepares the volume, checks that it belongs to
    this project and repository, clones or fetches the checkout, restores configuration, and
    runs preset and setup scripts.  The file system is a tree; commands and hooks are
    outside: they may do anything to the tree, and their results are functions of what was
    run before.  Their calls with the results are the log of the state. *)

From S2P Require Import Prelude Base64 Paths FileTree ApplyJournal ConfigControl.

(** ** Configuration *)

Record Script := mkScript { sc_Name : string; sc_Body : string }.

Record Config := mkHostedConfig {
  hc_VolumeRoot : string; hc_CheckoutRoot : string; hc_GitToken : string; hc_ProjectID : string; hc_RepositoryURL : string;
  hc_Branch : string; hc_AllowedRepositoryHosts : list string; hc_GitPath : string; hc_ShellPath : string; hc_Presets : list Script;
  hc_SetupScript : string; hc_OperationTimeout : Z; hc_FlushTimeout : Z; hc_MaxScriptBytes : Z; hc_MaxOutputBytes : Z
}.

(** [ErrDeadline] is [context.DeadlineExceeded]; [ErrSystem] any error without a name of its own. *)
Inductive hosted_error := ErrInvalid | ErrIdentity | ErrRepository | ErrOutputLimit | ErrNotStarted | ErrDeadline | ErrSystem.
#[global] Instance hosted_error_eq_dec : EqDecision hosted_error.
Proof. solve_decision. Defined.

Definition errorCode (e : hosted_error) : string :=
  match e with
  | ErrDeadline => "timeout"
  | ErrIdentity => "workspace_identity_mismatch"
  | ErrRepository => "repository_rejected"
  | ErrOutputLimit => "output_limit"
  | _ => "stage_failed"
  end.

Definition upper_letter (a : ascii) : bool := let n := nat_of_ascii a in ((65 <=? n) && (n <=? 90))%nat.
Definition lower_letter (a : ascii) : bool := let n := nat_of_ascii a in ((97 <=? n) && (n <=? 122))%nat.
Definition digit (a : ascii) : bool := let n := nat_of_ascii a in ((48 <=? n) && (n <=? 57))%nat.
Definition one_of (s : string) (a : ascii) : bool := bool_decide (a ∈ String.list_ascii_of_string s).

(** [^first rest{0,n}$] *)
Definition pattern (first rest : ascii -> bool) (n : nat) (s : string) : bool :=
  match String.list_ascii_of_string s with
  | [] => false
  | a :: l => first a && forallb rest l && (length l <=? n)%nat
  end.
Definition alnum (a : ascii) : bool := upper_letter a || lower_letter a || digit a.
Definition safeIdentifier : string -> bool := pattern alnum (fun a => alnum a || one_of "_-" a) 127.
Definition validName : string -> bool :=
  pattern (fun a => lower_letter a || digit a) (fun a => lower_letter a || digit a || one_of "._-" a) 63.

(** [strings.Contains]. *)
Fixpoint contains_from (sub l : list ascii) : bool :=
  bool_decide (sub `prefix_of` l) || match l with [] => false | _ :: l' => contains_from sub l' end.
Definition strings_Contains (s sub : string) : bool := contains_from (String.list_ascii_of_string sub) (String.list_ascii_of_string s).

Definition safeBranch (s : string) : bool :=
  pattern alnum (fun a => alnum a || one_of "._/-" a) 199 s &&
  negb (strings_Contains s "..") && negb (strings_Contains s "@{") && negb (strings_Contains s "//") &&
  negb (strings_HasSuffix s "/") && negb (strings_HasSuffix s ".") && negb (strings_HasSuffix s ".lock").

Definition pathWithin (root child : string) : bool :=
  match rel_elements (elements_of root) (elements_of child) with [] => false | x :: _ => bool_decide (x <> "..") end.

Definition slen (s : string) : Z := Z.of_nat (String.length s).

Definition validate `{UrlLibrary} (c : Config) : result hosted_error unit :=
  if decide (is_abs (hc_VolumeRoot c) = false \/ is_abs (hc_CheckoutRoot c) = false \/ hc_CheckoutRoot c = hc_VolumeRoot c \/
      pathWithin (hc_VolumeRoot c) (hc_CheckoutRoot c) = false \/ safeIdentifier (hc_ProjectID c) = false \/ safeBranch (hc_Branch c) = false \/
      hc_OperationTimeout c <= 0 \/ hc_FlushTimeout c <= 0 \/ hc_MaxScriptBytes c <= 0 \/ hc_MaxOutputBytes c <= 0 \/
      is_abs (hc_GitPath c) = false \/ is_abs (hc_ShellPath c) = false)
  then Err ErrInvalid
  else
    match url_Parse (hc_RepositoryURL c) with
    | None => Err ErrRepository
    | Some u =>
        if decide (pu_Scheme u <> "https" \/ pu_User u = true \/ pu_RawQuery u <> "" \/ pu_Fragment u <> "" \/ pu_Hostname u = "" \/
                   strings_ToLower (pu_Hostname u) ∉ hc_AllowedRepositoryHosts c)
        then Err ErrRepository
        else if negb (forallb (fun p => validName (sc_Name p)) (hc_Presets c)) then Err ErrInvalid
        else if decide (slen (hc_SetupScript c) + foldr Z.add 0 ((fun p => slen (sc_Body p)) <$> hc_Presets c) > hc_MaxScriptBytes c)
        then Err ErrInvalid else Ok ()
    end.

(** ** Commands *)

Record Command := mkCommand { cm_Path : string; cm_Args : list string; cm_Dir : string; cm_Env : list string; cm_OutputLimit : Z }.

(** [base64.StdEncoding]: the alphabet with "+" and "/", padded. *)
Definition std_char (z : Z) : ascii := if decide (z = 62) then "+"%char else if decide (z = 63) then "/"%char else b64_char z.
Definition std_EncodeToString (l : list byte) : string :=
  String.string_of_list_ascii ((std_char <$> b64_groups l) ++
    match (length l mod 3)%nat with 1%nat => ["="; "="]%char | 2%nat => ["="]%char | _ => [] end).

Section Lifecycle.
Context `{U : UrlLibrary} (c : Config) (path_env : string).

Definition gitEnvironment : list string :=
  let env := ["GIT_TERMINAL_PROMPT=0"; "GIT_CONFIG_NOSYSTEM=1"; "PATH=" +:+ path_env] in
  if decide (hc_GitToken c = "") then env
  else
    let hostname := match url_Parse (hc_RepositoryURL c) with Some u => pu_Hostname u | None => "" end in
    let auth := std_EncodeToString (String.list_byte_of_string ("x-access-token:" +:+ hc_GitToken c)) in
    env ++ ["GIT_CONFIG_COUNT=1"; "GIT_CONFIG_KEY_0=http.https://" +:+ hostname +:+ "/.extraheader";
            "GIT_CONFIG_VALUE_0=Authorization: Basic " +:+ auth].

Definition clone_command : Command :=
  mkCommand (hc_GitPath c) ["clone"; "--single-branch"; "--branch"; hc_Branch c; "--"; hc_RepositoryURL c; hc_CheckoutRoot c]
    (hc_VolumeRoot c) gitEnvironment (hc_MaxOutputBytes c).
Definition origin_command : Command :=
  mkCommand (hc_GitPath c) ["remote"; "get-url"; "origin"] (hc_CheckoutRoot c) gitEnvironment (hc_MaxOutputBytes c).
Definition fetch_command : Command :=
  mkCommand (hc_GitPath c) ["fetch"; "--prune"; "origin"; hc_Branch c] (hc_CheckoutRoot c) gitEnvironment (hc_MaxOutputBytes c).
Definition script_command (body : string) : Command :=
  mkCommand (hc_ShellPath c) ["-eu"; "-c"; body] (hc_CheckoutRoot c) ["HOME=" +:+ hc_VolumeRoot c; "PATH=" +:+ path_env] (hc_MaxOutputBytes c).

(** ** The state *)

Inductive event :=
| ECommand (m : Command) (a : result hosted_error (list byte))
| ERestore (a : option hosted_error)
| EFlush (a : option hosted_error).

Record world := mkHostedWorld { hw_tree : tree; hw_budget : option nat; hw_log : list event }.

(** The outside: commands, the hooks (nil or not), what is behind links, how many names a file
    has, what can be read, whether a directory behind a link has entries. *)
Record outside := mkOutside {
  os_run : list event -> tree -> Command -> tree * result hosted_error (list byte);
  os_restore : option (list event -> tree -> tree * option hosted_error);
  os_flush : option (list event -> tree -> tree * option hosted_error);
  os_behind : tree -> path -> stat;
  os_entries_behind : tree -> path -> bool;
  os_nlink : path -> Z;
  os_unreadable : path -> bool
}.

Record workspaceIdentity := mkIdentity { wi_Version : Z; wi_ProjectID : string; wi_RepositoryURL : string }.
#[global] Instance workspaceIdentity_eq_dec : EqDecision workspaceIdentity.
Proof. solve_decision. Defined.

(** [encoding/json] on an identity: the encoder, and the strict decoder of one value. *)
Class IdentityJson := {
  identity_Marshal : workspaceIdentity -> list byte;
  identity_Decode : list byte -> option workspaceIdentity
}.
Context `{J : IdentityJson} (o : outside).

Definition run (m : Command) (w : world) : result hosted_error (list byte) * world :=
  let '(t, a) := os_run o (hw_log w) (hw_tree w) m in (a, mkHostedWorld t (hw_budget w) (hw_log w ++ [ECommand m a])).

(** A changing call of the system. *)
Definition change_file (f : tree -> tree) (w : world) : result hosted_error unit * world :=
  match spend (hw_budget w) with
  | Some b => (Ok (), mkHostedWorld (f (hw_tree w)) b (hw_log w))
  | None => (Err ErrSystem, w)
  end.

Definition volume : path := elements_of (hc_VolumeRoot c).
Definition checkoutRoot : path := elements_of (hc_CheckoutRoot c).
Definition meta : path := volume ++ [".paperboat"].
Definition identity_path : path := meta ++ ["workspace.json"].
Definition project_path : path := meta ++ ["project-dir"].

(** [os.MkdirAll]: the missing directories of a path, unless something else is in the way; the
    volume is not below a symbolic link. *)
Fixpoint mkdir_all (current rest : path) (w : world) : result hosted_error unit * world :=
  match rest with
  | [] => (Ok (), w)
  | x :: rest =>
      let current := current ++ [x] in
      match Lstat (os_behind o) (hw_tree w) current with
      | SNode Dir => mkdir_all current rest w
      | SNotExist =>
          match change_file (<[current := Dir]>) w with
          | (Ok _, w) => mkdir_all current rest w
          | (Err e, w) => (Err e, w)
          end
      | _ => (Err ErrSystem, w)
      end
  end.

Definition secureDirectory (p : path) (w : world) : result hosted_error unit * world :=
  match Lstat (os_behind o) (hw_tree w) p with
  | SNode Dir => (Ok (), w)
  | SNode _ => (Err ErrIdentity, w)
  | SNotExist => mkdir_all [] p w
  | SError => (Err ErrSystem, w)
  end.

(** A temporary file that is renamed to the path; this fails on a directory. *)
Definition writePrivateFile (p : path) (data : list byte) (w : world) : result hosted_error unit * world :=
  if decide (hw_tree w !! p = Some Dir) then (Err ErrSystem, w) else change_file (<[p := File 384 false data]>) w.

Definition wanted : workspaceIdentity := mkIdentity 1 (hc_ProjectID c) (hc_RepositoryURL c).

(** The check of an identity file that is there. *)
Definition identity_matches (n : node) : result hosted_error unit :=
  match n with
  | File perm _ data =>
      if decide (perm <> 384 \/ os_nlink o identity_path <> 1 \/ len data > 16384) then Err ErrIdentity
      else if os_unreadable o identity_path then Err ErrSystem
      else if decide (identity_Decode data <> Some wanted) then Err ErrIdentity else Ok ()
  | _ => Err ErrIdentity
  end.

Definition write_project (w : world) : result hosted_error unit * world :=
  writePrivateFile project_path (String.list_byte_of_string (hc_CheckoutRoot c) ++ [x0a]) w.

(** The identity file is made empty, and then written. *)
Definition write_identity (w : world) : result hosted_error unit * world :=
  match change_file (<[identity_path := File 384 false []]>) w with
  | (Err e, w) => (Err e, w)
  | (Ok _, w) => change_file (<[identity_path := File 384 false (identity_Marshal wanted ++ [x0a])]>) w
  end.

Definition prepareWorkspace (w : world) : result hosted_error unit * world :=
  match secureDirectory volume w with
  | (Err e, w) => (Err e, w)
  | (Ok _, w) =>
      match secureDirectory meta w with
      | (Err e, w) => (Err e, w)
      | (Ok _, w) =>
          match Lstat (os_behind o) (hw_tree w) identity_path with
          | SNode n => match identity_matches n with Err e => (Err e, w) | Ok _ => write_project w end
          | SError => (Err ErrSystem, w)
          | SNotExist => match write_identity w with (Err e, w) => (Err e, w) | (Ok _, w) => write_project w end
          end
      end
  end.

(** [os.ReadDir] succeeds and finds something. *)
Definition has_entries (t : tree) (p : path) : bool :=
  match t !! p with
  | Some Dir => existsb (fun '(q, _) => bool_decide (removelast q = p /\ q <> p)) (map_to_list t)
  | Some (Link _) => os_entries_behind o t p
  | _ => false
  end.

Definition checkout (w : world) : result hosted_error unit * world :=
  match Lstat (os_behind o) (hw_tree w) (checkoutRoot ++ [".git"]) with
  | SNotExist =>
      if has_entries (hw_tree w) checkoutRoot then (Err ErrRepository, w)
      else match run clone_command w with (Ok _, w) => (Ok (), w) | (Err e, w) => (Err e, w) end
  | SNode Dir =>
      match Lstat (os_behind o) (hw_tree w) checkoutRoot with
      | SNode Dir =>
          match run origin_command w with
          | (Err e, w) => (Err e, w)
          | (Ok remote, w) =>
              if decide (strings_TrimSpace (String.string_of_list_byte remote) <> hc_RepositoryURL c) then (Err ErrRepository, w)
              else match run fetch_command w with (Ok _, w) => (Ok (), w) | (Err e, w) => (Err e, w) end
          end
      | _ => (Err ErrRepository, w)
      end
  | _ => (Err ErrRepository, w)
  end.

Definition restore (w : world) : result hosted_error unit * world :=
  match os_restore o with
  | None => (Ok (), w)
  | Some f =>
      let '(t, a) := f (hw_log w) (hw_tree w) in
      (match a with None => Ok () | Some e => Err e end, mkHostedWorld t (hw_budget w) (hw_log w ++ [ERestore a]))
  end.

Definition runScript (body : string) (w : world) : result hosted_error unit * world :=
  match run (script_command body) w with (Ok _, w) => (Ok (), w) | (Err e, w) => (Err e, w) end.

Fixpoint run_scripts (l : list string) (w : world) : result hosted_error unit * world :=
  match l with
  | [] => (Ok (), w)
  | body :: l => match runScript body w with (Ok _, w) => run_scripts l w | (Err e, w) => (Err e, w) end
  end.
Definition applyPresets (w : world) : result hosted_error unit * world := run_scripts (sc_Body <$> hc_Presets c) w.
Definition setup_scripts : list string := if decide (strings_TrimSpace (hc_SetupScript c) = "") then [] else [hc_SetupScript c].
Definition applySetup (w : world) : result hosted_error unit * world := run_scripts setup_scripts w.

(** ** The lifecycle *)

Inductive Stage := StageWorkspace | StageCheckout | StageConfigRestore | StagePresets | StageSetup | StageReady | StageFlush.
#[global] Instance Stage_eq_dec : EqDecision Stage.
Proof. solve_decision. Defined.

Record Snapshot := mkHostedSnapshot { hs_Stage : Stage; hs_Ready : bool; hs_ErrorCode : string }.
Record Lifecycle := mkLifecycle { lc_snapshot : Snapshot; lc_started : bool }.

Definition New : result hosted_error Lifecycle :=
  match validate c with Err e => Err e | Ok _ => Ok (mkLifecycle (mkHostedSnapshot StageWorkspace false "") false) end.

Definition stages : list (Stage * (world -> result hosted_error unit * world)) :=
  [(StageWorkspace, prepareWorkspace); (StageCheckout, checkout); (StageConfigRestore, restore); (StagePresets, applyPresets); (StageSetup, applySetup)].

(** The loop of [Start], with [degradedCode]. *)
Fixpoint start_loop (l : list (Stage * (world -> result hosted_error unit * world))) (degraded : string) (w : world) :
    option (Stage * hosted_error) * Lifecycle * world :=
  match l with
  | [] => (None, mkLifecycle (mkHostedSnapshot StageReady true degraded) true, w)
  | (stage, step) :: l =>
      match step w with
      | (Ok _, w) => start_loop l degraded w
      | (Err e, w) =>
          if decide (stage = StageConfigRestore) then start_loop l (errorCode e) w
          else (Some (stage, e), mkLifecycle (mkHostedSnapshot stage false (errorCode e)) false, w)
      end
  end.

Definition Start (l : Lifecycle) (w : world) : option (Stage * hosted_error) * Lifecycle * world :=
  if lc_started l then (None, l, w) else start_loop stages "" w.

Definition Shutdown (l : Lifecycle) (w : world) : option hosted_error * Lifecycle * world :=
  if negb (lc_started l) then (Some ErrNotStarted, l, w)
  else
    match os_flush o with
    | None => (None, mkLifecycle (mkHostedSnapshot StageFlush false "") false, w)
    | Some f =>
        let '(t, a) := f (hw_log w) (hw_tree w) in
        let w := mkHostedWorld t (hw_budget w) (hw_log w ++ [EFlush a]) in
        match a with
        | Some e => (Some e, mkLifecycle (mkHostedSnapshot StageFlush false (errorCode e)) true, w)
        | None => (None, mkLifecycle (mkHostedSnapshot StageFlush false "") false, w)
        end
    end.

(** ** What [Start] runs *)

(** The commands of the checkout, and when they mean that the checkout is of the configured
    repository: it was cloned from it, or its origin is this repository and was fetched. *)
Definition checkout_calls (calls : list event) : Prop :=
  calls = [] \/ (exists a, calls = [ECommand clone_command a]) \/ (exists a, calls = [ECommand origin_command a]) \/
  (exists out a, calls = [ECommand origin_command (Ok out); ECommand fetch_command a] /\
     strings_TrimSpace (String.string_of_list_byte out) = hc_RepositoryURL c).
Definition checkout_ok (calls : list event) : Prop :=
  (exists out, calls = [ECommand clone_command (Ok out)]) \/
  (exists out out', calls = [ECommand origin_command (Ok out); ECommand fetch_command (Ok out')] /\
     strings_TrimSpace (String.string_of_list_byte out) = hc_RepositoryURL c).

(** Scripts that ran with success, and one that failed. *)
Definition ran (l : list (string * list byte)) : list event := (fun x => ECommand (script_command x.1) (Ok x.2)) <$> l.
Definition scripts_run (l : list string) (calls : list event) : Prop :=
  exists oks, (calls = ran oks /\ oks.*1 `prefix_of` l) \/
    (exists b e, calls = ran oks ++ [ECommand (script_command b) (Err e)] /\ oks.*1 ++ [b] `prefix_of` l).
Definition scripts_done (l : list string) (calls : list event) : Prop := exists oks, calls = ran oks /\ oks.*1 = l.

Definition all_scripts : list string := (sc_Body <$> hc_Presets c) ++ setup_scripts.

(** The volume was found to belong to this project and repository, or had no identity and was
    given this one. *)
Definition identified (w : world) : Prop :=
  exists w0 w1, secureDirectory volume w = (Ok (), w0) /\ secureDirectory meta w0 = (Ok (), w1) /\
    ((exists n, Lstat (os_behind o) (hw_tree w1) identity_path = SNode n /\ identity_matches n = Ok ()) \/
     (Lstat (os_behind o) (hw_tree w1) identity_path = SNotExist /\ exists w2, write_identity w1 = (Ok (), w2) /\
        exists data, hw_tree w2 !! identity_path = Some (File 384 false data) /\ data = identity_Marshal wanted ++ [x0a])).

Lemma change_file_log f w r w' : change_file f w = (r, w') ->
  hw_log w' = hw_log w /\ (r = Ok () -> hw_tree w' = f (hw_tree w)).
Proof. unfold change_file. destruct (spend _); intros H; by simplify_eq. Qed.

Lemma mkdir_all_log rest : forall current w r w', mkdir_all current rest w = (r, w') -> hw_log w' = hw_log w.
Proof.
  induction rest as [|x rest IH]; intros current w r w' H; simpl in H; [by simplify_eq|].
  destruct (Lstat _ _ _) as [[| | |]| |]; try (by simplify_eq); [by eapply IH|].
  destruct (change_file _ w) as [[]] eqn:E; apply change_file_log in E as [El _]; [|by simplify_eq].
  rewrite <- El. by eapply IH.
Qed.

Lemma secureDirectory_log p w r w' : secureDirectory p w = (r, w') -> hw_log w' = hw_log w.
Proof. unfold secureDirectory. destruct (Lstat _ _ _) as [[| | |]| |]; intros H; try (by simplify_eq). by eapply mkdir_all_log. Qed.

Lemma write_project_log w r w' : write_project w = (r, w') -> hw_log w' = hw_log w.
Proof.
  unfold write_project, writePrivateFile. case_decide; intros Hw; [by simplify_eq|]. by apply change_file_log in Hw as [? _].
Qed.

Lemma write_identity_log w r w' : write_identity w = (r, w') -> hw_log w' = hw_log w /\
  (r = Ok () -> hw_tree w' !! identity_path = Some (File 384 false (identity_Marshal wanted ++ [x0a]))).
Proof.
  unfold write_identity. destruct (change_file _ w) as [r1 w1] eqn:E1. apply change_file_log in E1 as [L1 _].
  destruct r1 as [[]|e]; [|intros H; by simplify_eq]. intros H. apply change_file_log in H as [L2 T2]. split; [congruence|].
  intros Hr. rewrite (T2 Hr). apply lookup_insert_eq.
Qed.

Lemma prepare_spec w r w' : prepareWorkspace w = (r, w') -> hw_log w' = hw_log w /\ (r = Ok () -> identified w).
Proof.
  unfold prepareWorkspace, identified. destruct (secureDirectory volume w) as [r0 w0] eqn:E0.
  pose proof (secureDirectory_log _ _ _ _ E0) as L0. destruct r0 as [[]|e]; [|intros H; by simplify_eq].
  destruct (secureDirectory meta w0) as [r1 w1] eqn:E1.
  pose proof (secureDirectory_log _ _ _ _ E1) as L1. destruct r1 as [[]|e]; [|intros H; simplify_eq; by split; [congruence|]].
  destruct (Lstat _ _ _) as [n| |] eqn:El.
  - destruct (identity_matches n) as [[]|e] eqn:Em; intros H; [|simplify_eq; by split; [congruence|]].
    apply write_project_log in H. split; [congruence|]. intros _. exists w0, w1. split; [done|]. split; [done|]. left. by exists n.
  - destruct (write_identity w1) as [r2 w2] eqn:E2. destruct (write_identity_log _ _ _ E2) as [L2 T2].
    destruct r2 as [[]|e]; intros H; [|simplify_eq; by split; [congruence|]].
    apply write_project_log in H. split; [congruence|]. intros _. exists w0, w1. split; [done|]. split; [done|]. right.
    split; [done|]. exists w2. split; [done|]. eexists. split; [by apply T2|done].
  - intros H. simplify_eq. by split; [congruence|].
Qed.

Lemma run_log m w a w' : run m w = (a, w') -> hw_log w' = hw_log w ++ [ECommand m a].
Proof. unfold run. destruct (os_run _ _ _ _) as [t b]. intros H. by simplify_eq. Qed.

Lemma checkout_spec w r w' : checkout w = (r, w') ->
  exists calls, hw_log w' = hw_log w ++ calls /\ checkout_calls calls /\ (r = Ok () -> checkout_ok calls).
Proof.
  assert (forall e : hosted_error, Err e = Ok () -> False) as Hno by done.
  assert (forall e, (Err e, w) = (r, w') -> exists calls, hw_log w' = hw_log w ++ calls /\ checkout_calls calls /\ (r = Ok () -> checkout_ok calls)) as Hnone.
  { intros e H. simplify_eq. exists []. rewrite app_nil_r. split; [done|]. split; [by left|done]. }
  unfold checkout. destruct (Lstat _ _ (checkoutRoot ++ _)) as [[| | |]| |]; try apply Hnone.
  - destruct (Lstat _ _ checkoutRoot) as [[| | |]| |]; try apply Hnone.
    destruct (run origin_command w) as [a w1] eqn:E1. apply run_log in E1. destruct a as [out|e].
    2:{ intros H. simplify_eq. eexists. split; [exact E1|]. split; [right; right; left; by eexists|done]. }
    case_decide as Hu.
    { intros H. simplify_eq. eexists. split; [exact E1|]. split; [right; right; left; by eexists|done]. }
    apply dec_stable in Hu || idtac. destruct (run fetch_command w1) as [a w2] eqn:E2. apply run_log in E2. rewrite E1, <- app_assoc in E2.
    destruct a as [out'|e]; intros H; simplify_eq; eexists; (split; [exact E2|]).
    + split; [right; right; right; by eexists _, _|]. intros _. right. by eexists _, _.
    + split; [right; right; right; by eexists _, _|done].
  - destruct (has_entries _ _); [apply Hnone|]. destruct (run clone_command w) as [a w1] eqn:E1. apply run_log in E1.
    destruct a as [out|e]; intros H; simplify_eq; eexists; (split; [exact E1|]).
    + split; [right; left; by eexists|]. intros _. left. by eexists.
    + split; [right; left; by eexists|done].
Qed.

Lemma restore_hook_spec w r w' : restore w = (r, w') ->
  exists rs, hw_log w' = hw_log w ++ rs /\
    ((r = Ok () /\ (rs = [] \/ rs = [ERestore None])) \/ (exists e, r = Err e /\ rs = [ERestore (Some e)])).
Proof.
  unfold restore. destruct (os_restore o) as [f|].
  - destruct (f _ _) as [t [e|]]; intros H; simplify_eq; eexists; (split; [done|]); [right; by eexists|left; auto].
  - intros H. simplify_eq. exists []. rewrite app_nil_r. auto.
Qed.

Lemma run_scripts_spec l : forall w r w', run_scripts l w = (r, w') ->
  exists oks, (r = Ok () /\ hw_log w' = hw_log w ++ ran oks /\ oks.*1 = l) \/
    (exists b e, r = Err e /\ hw_log w' = hw_log w ++ ran oks ++ [ECommand (script_command b) (Err e)] /\ oks.*1 ++ [b] `prefix_of` l).
Proof.
  induction l as [|body l IH]; intros w r w' H; simpl in H.
  { simplify_eq. exists []. left. by rewrite app_nil_r. }
  unfold runScript in H. destruct (run (script_command body) w) as [a w1] eqn:E. apply run_log in E. destruct a as [out|e].
  - apply IH in H as (oks & H). exists ((body, out) :: oks). destruct H as [(-> & Hl & Ho)|(b & e & -> & Hl & Ho)].
    + left. rewrite Hl, E, <- app_assoc. split; [done|]. split; [done|]. by rewrite fmap_cons, Ho.
    + right. exists b, e. rewrite Hl, E, <- app_assoc. split; [done|]. split; [done|]. simpl. by apply prefix_cons.
  - simplify_eq. exists []. right. exists body, e. split; [done|]. split; [done|]. simpl. by apply prefix_cons, prefix_nil.
Qed.

(** The scripts of the last two stages, one after the other. *)
Lemma scripts_spec w degraded err l' w' :
  start_loop [(StagePresets, applyPresets); (StageSetup, applySetup)] degraded w = (err, l', w') ->
  exists sc, hw_log w' = hw_log w ++ sc /\ scripts_run all_scripts sc /\
    ((err = None /\ scripts_done all_scripts sc /\ l' = mkLifecycle (mkHostedSnapshot StageReady true degraded) true) \/
     (exists stage e, err = Some (stage, e) /\ stage <> StageConfigRestore /\ l' = mkLifecycle (mkHostedSnapshot stage false (errorCode e)) false)).
Proof.
  simpl. unfold applyPresets, applySetup. destruct (run_scripts (sc_Body <$> hc_Presets c) w) as [r1 w1] eqn:E1.
  apply run_scripts_spec in E1 as (oks1 & [(-> & L1 & O1)|(b & e & -> & L1 & O1)]).
  2:{ intros H. simpl in H. simplify_eq. eexists. split; [exact L1|]. split; [|right; by eexists _, _].
      exists oks1. right. exists b, e. split; [done|]. unfold all_scripts. by apply prefix_app_r. }
  destruct (run_scripts setup_scripts w1) as [r2 w2] eqn:E2.
  apply run_scripts_spec in E2 as (oks2 & [(-> & L2 & O2)|(b & e & -> & L2 & O2)]); rewrite L1, <- app_assoc in L2; intros H; simpl in H; simplify_eq.
  - exists (ran (oks1 ++ oks2)). assert ((oks1 ++ oks2).*1 = all_scripts) as Hall by (rewrite fmap_app, O1, O2; done).
    split; [by rewrite L2; unfold ran; rewrite fmap_app|]. split; [exists (oks1 ++ oks2); left; by rewrite Hall|].
    left. split; [done|]. split; [by exists (oks1 ++ oks2)|done].
  - exists (ran (oks1 ++ oks2) ++ [ECommand (script_command b) (Err e)]).
    split; [rewrite L2; unfold ran; by rewrite fmap_app, <- app_assoc|]. split; [|right; by eexists _, _].
    exists (oks1 ++ oks2). right. exists b, e. split; [done|]. rewrite fmap_app, O1, <- app_assoc. unfold all_scripts. by apply prefix_app.
Qed.

End Lifecycle.

(** ** A run *)

Definition demo_urls : UrlLibrary := {| url_Parse := fun s =>
  if decide (s = "https://git.example/p/r.git") then Some (mkUrl "https" false "git.example" "" "" "/p/r.git") else None |}.
Definition demo_hosted : Config :=
  mkHostedConfig "/vol" "/vol/src" "token" "proj-1" "https://git.example/p/r.git" "main" ["git.example"] "/usr/bin/git" "/bin/sh"
    [mkScript "tools" "install tools"] "make setup" 60000000000 60000000000 65536 65536.

(** The project identifier and the address, with a separator that is in neither. *)
Definition demo_identity : workspaceIdentity := mkIdentity 1 "proj-1" "https://git.example/p/r.git".
Definition demo_text : list byte := String.list_byte_of_string "1 proj-1 https://git.example/p/r.git".
Definition demo_identities : IdentityJson := {|
  identity_Marshal := fun i => if decide (i = demo_identity) then demo_text else [];
  identity_Decode := fun l => if decide (l = demo_text ++ [x0a]) then Some demo_identity else None |}.

(** A clone makes the checkout, other commands do nothing; a restore that fails. *)
Definition demo_outside : outside := mkOutside
  (fun _ t m => (if decide (head (cm_Args m) = Some "clone") then <[["vol"; "src"; ".git"] := Dir]> (<[["vol"; "src"] := Dir]> t) else t,
                 Ok (if decide (head (cm_Args m) = Some "remote") then String.list_byte_of_string (hc_RepositoryURL demo_hosted) ++ [x0a] else [])))
  (Some (fun _ t => (t, Some ErrDeadline))) None (fun _ _ => SError) (fun _ _ => false) (fun _ => 1) (fun _ => false).

Definition demo_world (budget : option nat) : world := mkHostedWorld {[ ([] : path) := Dir ]} budget [].
Definition demo_start (w : world) : option (Stage * hosted_error) * Lifecycle * world :=
  @Start demo_urls demo_hosted "/bin" demo_identities demo_outside (mkLifecycle (mkHostedSnapshot StageWorkspace false "") false) w.

Definition demo_ready : world := (demo_start (demo_world None)).2.

(** A crash after the identity file is made and before it is written leaves an empty file,
    which every later start rejects as the identity of another project. *)
Definition demo_torn : world := (demo_start (demo_world (Some 3%nat))).2.
Example torn_identity_rejected :
  (demo_start (demo_world (Some 3%nat))).1.1 = Some (StageWorkspace, ErrSystem) /\
  hw_tree demo_torn !! ["vol"; ".paperboat"; "workspace.json"] = Some (File 384 false []) /\
  (demo_start (mkHostedWorld (hw_tree demo_torn) None [])).1.1 = Some (StageWorkspace, ErrIdentity).
Proof. by vm_compute. Qed.
