(* ===== verification/TransferHttp.v ===== *)
(** * The HTTP endpoint of file transfers ([internal/server/file_transfer_http.go])

    The endpoint checks the bearer token, finds the transfer that the path names, compares
    its owner with the authorization, and calls the service of [FileTransfer].  The endpoint
    of the clients and that of the agent on the host, which [runtime/helper.go] puts behind
    one path, are two configurations.

    A request runs on the world of the service and on the journal of operations.  Between the
    check of the owner and the call of the service other requests may run: they are the
    argument [meanwhile].  The calls themselves are those of [FileTransfer] without
    interleaving.  Bodies arrive as [body_event]s; the end of the context of a request is an
    error of its body.  Header values are ASCII text, and paths are rooted. *)

From stdpp Require Import pretty.
From S2P Require Import Prelude Config Base64 Paths Frame Negotiation Credential Buffers History Input Store StoreOperations StoreTransfers Journal Server FileTransfer FileTransferTheorems ApplyJournal FileTransfer.

(** ** Requests and responses *)

Definition HeaderRequestID : string := "X-Paperboat-Request-ID".
Definition HeaderOperationID : string := "X-Paperboat-Operation-ID".
Definition HeaderReplayed : string := "X-Paperboat-Replayed".
Definition HeaderUploadOffset : string := "Upload-Offset".
Definition HeaderUploadLength : string := "Upload-Length".
Definition HeaderUploadDigest : string := "Upload-Digest".

Record http_request := mkHttpRequest {
  rq_Method : string;
  rq_Path : string;
  rq_Query : string -> string;          (* [URL.Query().Get] *)
  rq_Header : string -> list string;    (* [Header.Values] *)
  rq_Body : list body_event
}.
Definition header (rq : http_request) (name : string) : string := default "" (head (rq_Header rq name)).

Inductive content :=
| Empty
| ErrorContent (requestID code : string) (retryable : bool)
| NotAllowed
| TransferContent (t : FileTransfer)
| BatchContent (batchID : string) (ts : list FileTransfer)
| RecordedContent (result : list byte)           (* the outcome of an operation, as recorded *)
| PendingContent (ts : list FileTransfer)
| CompleteContent (t : FileTransfer) (code path : string)
| FileContent (ino : nat) (name : string).       (* what [http.ServeContent] serves *)

Record http_response := mkHttpResponse { rs_Status : Z; rs_Headers : list (string * string); rs_Content : content }.

Definition writeHTTPError (requestID code : string) (status : Z) (retryable : bool) : http_response :=
  mkHttpResponse status [("Content-Type", "application/json")]
    (ErrorContent (if decide (requestID = "") then "unknown" else requestID) code retryable).
Definition methodNotAllowed (methods : list string) : http_response :=
  mkHttpResponse 405 [("Allow", String.concat ", " methods)] NotAllowed.
Definition writeJSON (status : Z) (value : content) : http_response :=
  mkHttpResponse status [("Content-Type", "application/json")] value.

(** [io.ReadAll] of [http.MaxBytesReader]; the bytes before the end or an error, up to a limit. *)
Fixpoint read_body (max : Z) (body : list body_event) : option (list byte) :=
  match body with
  | [] | BEnd :: _ => Some []
  | BData bs :: body =>
      if decide (max < len bs) then None else let l := read_body (max - len bs) body in (fun r => bs ++ r) <$> l
  | _ => None
  end.
Fixpoint body_prefix (body : list body_event) : list byte :=
  match body with
  | BData bs :: body => bs ++ body_prefix body
  | BLast bs _ :: _ => bs
  | _ => []
  end.

(** [strings.Fields]; [strings.EqualFold] for a text of ASCII letters. *)
Fixpoint fields_from (acc : list ascii) (l : list ascii) : list string :=
  let word := match acc with [] => [] | _ => [String.string_of_list_ascii (rev acc)] end in
  match l with
  | [] => word
  | a :: l => if is_space a then word ++ fields_from [] l else fields_from (a :: acc) l
  end.
Definition strings_Fields (s : string) : list string := fields_from [] (String.list_ascii_of_string s).
Definition lower (a : ascii) : ascii :=
  let n := nat_of_ascii a in if ((65 <=? n) && (n <=? 90))%nat then ascii_of_nat (n + 32) else a.
Definition EqualFold (s t : string) : bool :=
  bool_decide (lower <$> String.list_ascii_of_string s = lower <$> String.list_ascii_of_string t).

Definition bearerToken (values : list string) : option string :=
  match values with
  | [value] =>
      if decide (slen value > 16384 + 16) then None
      else match strings_Fields value with
           | [scheme; token] =>
               if decide (EqualFold scheme "Bearer" = false \/ slen token = 0 \/ slen token > 16384) then None else Some token
           | _ => None
           end
  | _ => None
  end.

(** [strings.TrimPrefix], [strings.HasPrefix], and [strings.Trim(s, "/")]. *)
Definition HasPrefix (s prefix : string) : bool :=
  bool_decide (String.list_ascii_of_string prefix `prefix_of` String.list_ascii_of_string s).
Definition TrimPrefix (s prefix : string) : string :=
  if HasPrefix s prefix then String.string_of_list_ascii (drop (String.length prefix) (String.list_ascii_of_string s)) else s.
Definition trim_slashes (s : string) : string :=
  String.string_of_list_ascii (rev (drop_slashes (rev (drop_slashes (String.list_ascii_of_string s))))).

(** ** Errors *)

Definition code_text (c : Code) : string :=
  match c with
  | InvalidPath => "invalid_path" | InvalidSize => "invalid_size" | BatchLimit => "batch_limit"
  | OffsetConflict => "offset_conflict" | DigestMismatch => "digest_mismatch" | StorageUnavailable => "storage_unavailable"
  | ResourceLimit => "resource_limit" | Canceled => "canceled" | DeliveryTimeout => "delivery_timeout"
  end.

(** [errors.As] for an error of the service, and [errors.Is] for one of a context: which of
    the two depends on the request, and an error of the store may be one of them. *)
Fixpoint find_code (e : ferror) : option Code :=
  match e with
  | FError c => Some c
  | FJoin e1 e2 => match find_code e1 with Some c => Some c | None => find_code e2 end
  | _ => None
  end.
Fixpoint is_context (of_context : store_error -> bool) (e : ferror) : bool :=
  match e with
  | FContext => true
  | FStore e => of_context e
  | FJoin e1 e2 => is_context of_context e1 || is_context of_context e2
  | _ => false
  end.

(** What is known about the context of a request: whether it ends by its deadline, and which
    errors of the store come from it. *)
Record context_ends := mkContextEnds { ce_deadline : bool; ce_store : store_error -> bool }.

Definition fileTransferErrorCode (ce : context_ends) (e : ferror) : string :=
  match find_code e with
  | Some c => code_text c
  | None => if is_context (ce_store ce) e then (if ce_deadline ce then "delivery_timeout" else "canceled") else "storage_unavailable"
  end.

Definition fileTransferHTTPStatus (code : string) : Z :=
  if decide (code = "invalid_path") then 404
  else if decide (code = "invalid_size" \/ code = "batch_limit") then 400
  else if decide (code = "offset_conflict") then 409
  else if decide (code = "no_active_writer" \/ code = "recipient_unavailable") then 409
  else if decide (code = "digest_mismatch") then 422
  else if decide (code = "canceled") then 499
  else if decide (code = "resource_limit") then 429
  else 503.

Definition operationHTTPStatus (code : string) : Z :=
  if decide (code = "operation_id_conflict") then 409
  else if decide (code = "resource_limit") then 429
  else if decide (code = "deadline_exceeded" \/ code = "operation_canceled") then 408
  else 503.

Definition writeFileTransferError (ce : context_ends) (requestID : string) (e : ferror) : http_response :=
  let code := fileTransferErrorCode ce e in
  writeHTTPError requestID code (fileTransferHTTPStatus code) (bool_decide (code = "storage_unavailable" \/ code = "resource_limit")).

(** ** Configuration *)

Record createFileTransferRequest := mkCreateTransfer {
  ct_BatchID : string; ct_Direction : string; ct_SessionID : string; ct_Files : list File
}.

(** The JSON library on what the endpoint reads and writes; the decoders take the first value
    of a text and refuse unknown fields. *)
Class TransferJson := {
  create_Decode : list byte -> option createFileTransferRequest;
  receipt_Decode : list byte -> option (string * string);
  create_canonical : string -> createFileTransferRequest -> list byte;
  created_Marshal : string -> list FileTransfer -> option (list byte)
}.

(** [None]: a function that is nil. *)
Record FileTransferHandlerConfig := mkHandlerConfig {
  hc_Authorizer : string -> option (Frame -> option Authorization);
  hc_AllowDirection : Authorization -> string -> bool;
  hc_ResolveClient : option (Authorization -> string -> string -> option string);
  hc_Owns : option (Authorization -> FileTransfer -> bool);
  hc_MaxCreateBytes : Z
}.

Definition NewFileTransferHandler (c : FileTransferHandlerConfig) : option FileTransferHandlerConfig :=
  let max := if decide (hc_MaxCreateBytes c = 0) then 32768 else hc_MaxCreateBytes c in
  if decide (max < 1024 \/ max > 1048576) then None
  else Some (mkHandlerConfig (hc_Authorizer c) (hc_AllowDirection c) (hc_ResolveClient c) (hc_Owns c) max).

(** The endpoint of the clients and that of the agent ([runtime/helper.go]); [recipient] is
    [Writers.Recipient]. *)
Definition public_config (authorizer : string -> option (Frame -> option Authorization)) : FileTransferHandlerConfig :=
  mkHandlerConfig authorizer (fun _ direction => bool_decide (direction = "pb_to_pbh")) None None 32768.

Definition loopbackAgentAuthorizer (binding : string) (_ : Frame) : option Authorization :=
  if decide (binding = "") then None
  else Some (mkAuthorization binding "" "" "" "" "" zero_time None None None).

Definition agent_config (environmentID : string) (recipient : string -> option string) : FileTransferHandlerConfig :=
  mkHandlerConfig (fun _ => Some (loopbackAgentAuthorizer ("helper-agent:" +:+ environmentID)))
    (fun _ direction => bool_decide (direction = "pbh_to_pb"))
    (Some (fun _ direction sessionID => if decide (direction <> "pbh_to_pb") then None else recipient sessionID))
    (Some (fun _ t => bool_decide (ft_Direction t = "pbh_to_pb"))) 32768.

(** [strings.Cut] at a space, and the choice of [agentFileTransferMux]. *)
Fixpoint cut_space (acc l : list ascii) : option (list ascii * list ascii) :=
  match l with
  | [] => None
  | a :: l => if decide (a = " "%char) then Some (rev acc, l) else cut_space (a :: acc) l
  end.
Definition is_agent (agentToken : string) (rq : http_request) : bool :=
  match cut_space [] (String.list_ascii_of_string (header rq "Authorization")) with
  | Some (scheme, token) =>
      bool_decide (String.string_of_list_ascii scheme = "Bearer" /\ String.string_of_list_ascii token = agentToken)
  | None => false
  end.

(** ** Serving *)

(** What a wait of [servePending] ends with. *)
Inductive poll := PTick | PDeadline | PDone.

(** What a request meets: the clock and random bytes of a creation, the faults and clocks of
    the journal and what a wait for the same operation gave, the contexts of a completion, the
    waits of a listing with the clock of the listing before. *)
Record inputs := mkInputs {
  in_now : time; in_random : list byte; in_begin : begin_faults; in_begin1 : time; in_begin2 : time;
  in_finish1 : fault; in_finish2 : fault; in_finish : time; in_waited : Outcome * bool * option exec_error;
  in_ctx : list bool; in_first : time; in_polls : list (poll * time)
}.

Section Handler.
Context (sha256 : list byte -> digest) `{JV : JsonValues} `{TJ : TransferJson}.
Context (c : FileTransferHandlerConfig) (revoked : flag -> bool) (ce : context_ends) (meanwhile : M unit) (x : inputs).

Definition owns (a : Authorization) (t : FileTransfer) : bool :=
  match hc_Owns c with
  | Some f => f a t
  | None => bool_decide (ft_ClientID t = au_ClientID a /\ (~ au_SessionID a <> "" \/ ft_SessionID t = au_SessionID a))
  end.

(** [None]: "not_found_or_forbidden" was written. *)
Definition owned (a : Authorization) (id : string) : M (option FileTransfer) :=
  r ← read_transfer id;
  mret (match r with Ok t => if owns a t then Some t else None | Err _ => None end).
Definition forbidden (requestID : string) : http_response := writeHTTPError requestID "not_found_or_forbidden" 404 false.

Definition authorize (rq : http_request) (requestID : string) : option Authorization :=
  match bearerToken (rq_Header rq "Authorization") with
  | None => None
  | Some token =>
      match hc_Authorizer c token with
      | None => None
      | Some authorizer =>
          match authorizer (mkFrame "request" requestID "1.0" (header rq HeaderOperationID) "file-transfer.v1" 0 None) with
          | None => None
          | Some a =>
              if decide (au_JournalBinding a = "" \/ au_ClientID a = "" /\ hc_ResolveClient c = None) then None else Some a
          end
      end
  end.

(** The search of [recoverBatch] for the transfer of one file among those not used. *)
Definition same_declaration (a : Authorization) (input : createFileTransferRequest) (f : File) (t : FileTransfer) : bool :=
  bool_decide (ft_Direction t = ct_Direction input /\ ft_SessionID t = ct_SessionID input /\
    ~ (hc_ResolveClient c = None /\ au_ClientID a <> "" /\ ft_ClientID t <> au_ClientID a) /\
    ft_Basename t = fl_Basename f /\ ft_Size t = fl_Size f /\ ft_SHA256 t = fl_SHA256 f).

Fixpoint take_match (p : FileTransfer -> bool) (l : list FileTransfer) : option (FileTransfer * list FileTransfer) :=
  match l with
  | [] => None
  | t :: l => if p t then Some (t, l) else match take_match p l with Some (u, rest) => Some (u, t :: rest) | None => None end
  end.

Fixpoint match_files (a : Authorization) (input : createFileTransferRequest) (files : list File) (existing : list FileTransfer)
    : option (list FileTransfer) :=
  match files with
  | [] => Some []
  | f :: files =>
      match take_match (same_declaration a input f) existing with
      | None => None
      | Some (t, rest) => (fun l => t :: l) <$> match_files a input files rest
      end
  end.

(** [None]: no such batch; [Some None]: one that does not match. *)
Definition recoverBatch (a : Authorization) (input : createFileTransferRequest) : M (option (option (list FileTransfer))) :=
  r ← read_batch (ct_BatchID input);
  mret (match r with
        | Err _ => None
        | Ok existing =>
            if decide (len existing <> len (ct_Files input)) then Some None else Some (match_files a input (ct_Files input) existing)
        end).

(** [Journal.Execute] without interleaving. *)
Definition Execute (operationID : string) (request : list byte) (run : M Outcome) (j : Journal) (w : world)
    : Journal * world * (Outcome * bool * option exec_error) :=
  match Execute_begin sha256 (in_begin x) (in_begin1 x) (in_begin2 x) j (w_db w) operationID request with
  | (j1, db1, Returns o replay err) => (j1, set_db db1 w, (o, replay, XJournal <$> err))
  | (j1, db1, Waits) => (j1, set_db db1 w, in_waited x)
  | (j1, db1, Runs hash) =>
      let '(w2, o) := run (set_db db1 w) in
      let '(j3, db3, (o3, replay, err)) := Execute_finish (in_finish1 x) (in_finish2 x) (in_finish x) j1 (w_db w2) operationID hash o in
      (j3, set_db db3 w2, (o3, replay, XJournal <$> err))
  end.

(** The function handed to the journal. *)
Definition create_run (input : createFileTransferRequest) (clientID : string) : M Outcome :=
  r ← Create (in_now x) (in_random x) (mkCreate (ct_BatchID input) (ct_Direction input) (ct_SessionID input) clientID (ct_Files input));
  mret (match r with
        | Err e => mkOutcomeResult [] (fileTransferErrorCode ce e)
        | Ok ts => match created_Marshal (ct_BatchID input) ts with
                   | Some encoded => mkOutcomeResult encoded ""
                   | None => mkOutcomeResult [] "storage_unavailable"
                   end
        end).

Definition created_response (requestID : string) (r : Outcome * bool * option exec_error) : http_response :=
  match r with
  | (_, _, Some e) => writeHTTPError requestID (operationErrorCode e) (operationHTTPStatus (operationErrorCode e)) false
  | (o, replay, None) =>
      if decide (oc_ErrorCode o <> "") then writeHTTPError requestID (oc_ErrorCode o) (fileTransferHTTPStatus (oc_ErrorCode o)) false
      else mkHttpResponse 201 ((if replay : bool then [(HeaderReplayed, "true")] else []) ++ [("Content-Type", "application/json")])
             (RecordedContent (oc_Result o))
  end.

(** A request for a batch that passes the checks of [serveCollection]. *)
Definition create_input (a : Authorization) (rq : http_request) : option createFileTransferRequest :=
  let operationID := header rq HeaderOperationID in
  if decide (slen operationID < 8 \/ slen operationID > 128) then None
  else match read_body (hc_MaxCreateBytes c) (rq_Body rq) ≫= create_Decode with
       | None => None
       | Some input =>
           if decide (ct_BatchID input = "" \/ ct_SessionID input = "" \/
                      au_SessionID a <> "" /\ ct_SessionID input <> au_SessionID a \/ hc_AllowDirection c a (ct_Direction input) = false)
           then None else Some input
       end.

Definition resolve_client (a : Authorization) (input : createFileTransferRequest) : option string :=
  match hc_ResolveClient c with
  | Some f => match f a (ct_Direction input) (ct_SessionID input) with Some id => if decide (id = "") then None else Some id | None => None end
  | None => if decide (au_ClientID a = "") then None else Some (au_ClientID a)
  end.

Definition serveCollection (rq : http_request) (requestID : string) (a : Authorization) (j : Journal) (w : world)
    : Journal * world * http_response :=
  if decide (rq_Method rq <> "POST") then (j, w, methodNotAllowed ["POST"])
  else match create_input a rq with
  | None => (j, w, writeHTTPError requestID "invalid_request" 400 false)
  | Some input =>
      match recoverBatch a input w with
      | (w, Some None) => (j, w, writeHTTPError requestID "operation_conflict" 409 false)
      | (w, Some (Some transfers)) =>
          (j, w, mkHttpResponse 201 [(HeaderReplayed, "true"); ("Content-Type", "application/json")] (BatchContent (ct_BatchID input) transfers))
      | (w, None) =>
          let '(w, _) := meanwhile w in
          match resolve_client a input with
          | None => (j, w, writeHTTPError requestID "no_active_writer" 409 false)
          | Some clientID =>
              let '(j, w, r) := Execute (header rq HeaderOperationID) (create_canonical (au_JournalBinding a) input) (create_run input clientID) j w in
              (j, w, created_response requestID r)
          end
      end
  end.

Definition serveManifest (rq : http_request) (requestID : string) (a : Authorization) (id : string) : M http_response :=
  t ← owned a id;
  match t with
  | None => mret (forbidden requestID)
  | Some transfer =>
      if decide (rq_Method rq = "GET") then mret (writeJSON 200 (TransferContent transfer))
      else if decide (rq_Method rq = "DELETE") then
        _ ← meanwhile;
        err ← Cancel id;
        mret (match err with Some e => writeFileTransferError ce requestID e | None => mkHttpResponse 204 [] Empty end)
      else mret (methodNotAllowed ["GET"; "DELETE"])
  end.

(** [Service.Append] with its slot; a request whose context ends while it waits gets none. *)
Definition append_in_slot (id : string) (offset : Z) (body : list body_event) : M (result ferror FileTransfer) :=
  slot ← acquire;
  if slot : bool then r ← Append id offset body; _ ← release; mret r else mret (Err FContext).

Definition etag_of (t : FileTransfer) : string :=
  String "034" ("sha256:" +:+ ft_SHA256 t +:+ String "034" "").

Definition serveContent (rq : http_request) (requestID : string) (a : Authorization) (id : string) : M http_response :=
  t ← owned a id;
  match t with
  | None => mret (forbidden requestID)
  | Some transfer =>
      let etag := etag_of transfer in
      if decide (rq_Method rq = "HEAD") then
        mret (mkHttpResponse 204 [(HeaderUploadOffset, pretty (ft_CommittedOffset transfer)); (HeaderUploadLength, pretty (ft_Size transfer));
          (HeaderUploadDigest, "sha256=" +:+ ft_SHA256 transfer); ("ETag", etag)] Empty)
      else if decide (rq_Method rq = "PATCH") then
        if decide (header rq "Content-Type" <> "application/offset+octet-stream")
        then mret (writeHTTPError requestID "invalid_request" 415 false)
        else match Negotiation.Atoi (header rq HeaderUploadOffset) with
             | None => mret (writeHTTPError requestID "invalid_request" 400 false)
             | Some offset =>
                 _ ← meanwhile;
                 _ ← cancelSignal id;
                 r ← append_in_slot id offset (rq_Body rq);
                 mret (match r with
                       | Err e => writeFileTransferError ce requestID e
                       | Ok updated => mkHttpResponse 204 [(HeaderUploadOffset, pretty (ft_CommittedOffset updated))] Empty
                       end)
             end
      else if decide (rq_Method rq = "GET") then
        if decide (header rq "If-Match" <> "" /\ header rq "If-Match" <> etag)
        then mret (writeHTTPError requestID "precondition_failed" 412 false)
        else
          _ ← meanwhile;
          r ← OpenContent id;
          mret (match r with
                | Err e => writeFileTransferError ce requestID e
                | Ok (ino, current) =>
                    mkHttpResponse 200 [("ETag", etag); ("Content-Type", "application/octet-stream"); ("Accept-Ranges", "bytes")]
                      (FileContent ino (ft_Basename current))
                end)
      else mret (methodNotAllowed ["HEAD"; "PATCH"; "GET"])
  end.

Definition serveComplete (rq : http_request) (requestID : string) (a : Authorization) (id : string) : M http_response :=
  if decide (rq_Method rq <> "POST") then mret (methodNotAllowed ["POST"])
  else
    t ← owned a id;
    match t with
    | None => mret (forbidden requestID)
    | Some _ =>
        _ ← meanwhile;
        r ← Complete sha256 (in_ctx x) id;
        match r with
        | Err e => mret (writeFileTransferError ce requestID e)
        | Ok transfer =>
            let code := if decide (ft_State transfer = "pending") then "pending" else "published" in
            if decide (ft_Direction transfer = "pb_to_pbh") then
              p ← PublishedPath id;
              mret (match p with
                    | Err e => writeFileTransferError ce requestID e
                    | Ok published => writeJSON 200 (CompleteContent transfer code published)
                    end)
            else mret (writeJSON 200 (CompleteContent transfer code ""))
        end
    end.

(** [None]: the request is gone, or still waits. *)
Fixpoint pending_loop (clientID sessionID requestID : string) (wait : Z) (now : time) (polls : list (poll * time)) : M (option http_response) :=
  r ← Pending now clientID sessionID 10;
  match r with
  | Err e => mret (Some (writeFileTransferError ce requestID (FStore e)))
  | Ok (t :: ts) => mret (Some (writeJSON 200 (PendingContent (t :: ts))))
  | Ok [] =>
      if decide (wait = 0) then mret (Some (writeJSON 200 (PendingContent [])))
      else match polls with
           | [] | (PDone, _) :: _ => mret None
           | (PDeadline, _) :: _ => mret (Some (writeJSON 200 (PendingContent [])))
           | (PTick, now) :: polls => _ ← meanwhile; pending_loop clientID sessionID requestID wait now polls
           end
  end.

Definition servePending (rq : http_request) (requestID : string) (a : Authorization) : M (option http_response) :=
  if decide (rq_Method rq <> "GET") then mret (Some (methodNotAllowed ["GET"]))
  else
    let sessionID := rq_Query rq "session_id" in
    if decide (sessionID = "" \/ au_SessionID a <> "" /\ sessionID <> au_SessionID a) then mret (Some (forbidden requestID))
    else match Negotiation.Atoi (rq_Query rq "wait_seconds") with
         | None => mret (Some (writeHTTPError requestID "invalid_request" 400 false))
         | Some wait =>
             if decide (wait < 0 \/ wait > 30) then mret (Some (writeHTTPError requestID "invalid_request" 400 false))
             else pending_loop (au_ClientID a) sessionID requestID wait (in_first x) (in_polls x)
         end.

Definition validReceipt (code path : string) : bool :=
  if decide (code = "stored") then bool_decide (path <> "") && negb (HasPrefix path "/") && HasPrefix path "Paperboat Inbox/"
  else bool_decide (path = "" /\ code ∈ ["invalid_path"; "invalid_size"; "digest_mismatch"; "offset_conflict"; "recipient_unavailable";
                                         "storage_unavailable"; "resource_limit"; "canceled"; "delivery_timeout"]).

Definition serveReceipt (rq : http_request) (requestID : string) (a : Authorization) (id : string) : M http_response :=
  if decide (rq_Method rq <> "POST") then mret (methodNotAllowed ["POST"])
  else
    t ← owned a id;
    match t with
    | None => mret (forbidden requestID)
    | Some transfer =>
        match receipt_Decode (take (Z.to_nat 16384) (body_prefix (rq_Body rq))) with
        | None => mret (writeHTTPError requestID "invalid_request" 400 false)
        | Some (code, path) =>
            if validReceipt code path then
              _ ← meanwhile;
              r ← Receipt id (ft_ClientID transfer) code path;
              mret (match r with Err e => writeFileTransferError ce requestID e | Ok _ => mkHttpResponse 204 [] Empty end)
            else mret (writeHTTPError requestID "invalid_request" 400 false)
        end
    end.

(** What [ServeHTTP] does with an authorized request. *)
Definition route (rq : http_request) (requestID : string) (a : Authorization) (j : Journal) (w : world)
    : Journal * world * option http_response :=
  let on (m : M http_response) := let '(w, r) := m w in (j, w, Some r) in
  let relative := TrimPrefix (filepath_Clean (rq_Path rq)) "/v1/file-transfers" in
  if decide (relative = "." \/ relative = "" \/ relative = "/") then
    let '(j, w, r) := serveCollection rq requestID a j w in (j, w, Some r)
  else if decide (relative = "/pending") then let '(w, r) := servePending rq requestID a w in (j, w, r)
  else match split_at "/" (trim_slashes relative) with
       | [id] => if decide (id = "") then (j, w, Some (writeHTTPError requestID "not_found" 404 false))
                 else on (serveManifest rq requestID a id)
       | [id; part] =>
           if decide (id = "") then (j, w, Some (writeHTTPError requestID "not_found" 404 false))
           else if decide (part = "content") then on (serveContent rq requestID a id)
           else if decide (part = "complete") then on (serveComplete rq requestID a id)
           else if decide (part = "receipt") then on (serveReceipt rq requestID a id)
           else (j, w, Some (writeHTTPError requestID "not_found" 404 false))
       | _ => (j, w, Some (writeHTTPError requestID "not_found" 404 false))
       end.

Definition is_revoked (a : Authorization) : bool := match au_Revoked a with Some f => revoked f | None => false end.

Definition ServeHTTP (rq : http_request) (j : Journal) (w : world) : Journal * world * option http_response :=
  let requestID := header rq HeaderRequestID in
  match authorize rq requestID with
  | None => (j, w, Some (writeHTTPError requestID "unauthorized" 401 false))
  | Some a =>
      if is_revoked a then (j, w, Some (writeHTTPError requestID "canceled" 401 false))
      else route rq requestID a j w
  end.
End Handler.

(** [agentFileTransferMux.ServeHTTP]: which configuration serves. *)
Definition mux_config (agentToken : string) (agent public : FileTransferHandlerConfig) (rq : http_request) : FileTransferHandlerConfig :=
  if is_agent agentToken rq then agent else public.

(** ** The footprint of a call

    What a call of the service may change when it works for one batch: the rows of the batch,
    the names of its files and what these files hold. *)

Definition names_of (t : FileTransfer) : list string := [partialPath (ft_ID t); contentPath (ft_ID t); publishedPath t].

Definition batch_name (w : world) (b name : string) : Prop :=
  exists id r, db_transfers (w_db w) !! id = Some r /\ ft_BatchID r = b /\ name ∈ names_of r.
Definition batch_file (w : world) (b : string) (ino : nat) : Prop :=
  exists name, batch_name w b name /\ w_dir w !! name = Some ino.

Record only (b : string) (w w' : world) : Prop := {
  only_rows : forall id r, db_transfers (w_db w) !! id = Some r ->
    exists r', db_transfers (w_db w') !! id = Some r' /\ same_file r r' /\ (ft_BatchID r <> b -> r' = r);
  only_new : forall id, is_Some (db_transfers (w_db w') !! id) -> is_Some (db_transfers (w_db w) !! id);
  only_names : forall name, ~ batch_name w b name -> w_dir w' !! name = w_dir w !! name;
  only_files : forall name ino, batch_name w b name -> w_dir w' !! name = Some ino -> batch_file w b ino;
  only_data : forall ino, ~ batch_file w b ino -> w_data w' !! ino = w_data w !! ino
}.

Section Footprint.
Context (b : string) (w0 : world) (Hw0 : transfers_ok (w_db w0)).

Definition keeps {A} (m : M A) (Q : A -> Prop) : Prop := forall w, only b w0 w -> only b w0 (m w).1 /\ Q (m w).2.
Definition any {A} (_ : A) : Prop := True.

(** A row that was there, as it is now; and one of the batch. *)
Definition known (id : string) (t : FileTransfer) : Prop :=
  exists r, db_transfers (w_db w0) !! id = Some r /\ same_file r t.
Definition mine (id : string) : Prop := exists r, db_transfers (w_db w0) !! id = Some r /\ ft_BatchID r = b.

Lemma footprint_refl : only b w0 w0.
Proof. split; [intros id r Hr; by exists r|done|done|intros name ino Hn Hi; by exists name|done]. Qed.

Lemma keeps_ret {A} (a : A) (Q : A -> Prop) : Q a -> keeps (mret a) Q.
Proof. by intros H w. Qed.

Lemma keeps_bind {A B} (m : M A) (k : A -> M B) P Q :
  keeps m P -> (forall a, P a -> keeps (k a) Q) -> keeps (m ≫= k) Q.
Proof.
  intros Hm Hk w Hw. destruct (Hm w Hw) as [H1 H2]. unfold mbind, M_bind. destruct (m w) as [w1 a]. by apply Hk.
Qed.

Lemma keeps_weaken {A} (m : M A) (P Q : A -> Prop) : keeps m P -> (forall a, P a -> Q a) -> keeps m Q.
Proof. intros Hm H w Hw. destruct (Hm w Hw). eauto. Qed.

(** Steps that leave rows and files alone. *)
Definition still {A} (m : M A) : Prop :=
  forall w, db_transfers (w_db (m w).1) = db_transfers (w_db w) /\ w_dir (m w).1 = w_dir w /\ w_data (m w).1 = w_data w.

Lemma only_still w w' :
  db_transfers (w_db w') = db_transfers (w_db w) -> w_dir w' = w_dir w -> w_data w' = w_data w -> only b w0 w -> only b w0 w'.
Proof. intros E1 E2 E3 [H1 H2 H3 H4 H5]. split; rewrite ?E1, ?E2, ?E3; done. Qed.

Lemma keeps_still {A} (m : M A) : still m -> keeps m any.
Proof. intros H w Hw. destruct (H w) as (E1 & E2 & E3). split; [by eapply only_still|done]. Qed.

Lemma next_fault_still : still next_fault.
Proof. intros w. unfold next_fault. by destruct (w_faults w). Qed.

Lemma keeps_syscall {A} (act : M (result errno A)) (Q : result errno A -> Prop) :
  keeps act Q -> (forall e, Q (Err e)) -> keeps (syscall act) Q.
Proof.
  intros Ha He. unfold syscall. eapply keeps_bind; [apply keeps_still, next_fault_still|]. intros [] _; [done|by apply keeps_ret|].
  eapply keeps_bind; [exact Ha|]. intros. by apply keeps_ret.
Qed.

Lemma keeps_get {A} (f : world -> A) : keeps (get f) any.
Proof. by apply keeps_still. Qed.

Lemma keeps_quiet : keeps quiet any.
Proof. by apply keeps_syscall; [apply keeps_ret|]. Qed.

Lemma keeps_signal id : keeps (cancelSignal id) any.
Proof. apply keeps_still. intros w. unfold cancelSignal. by destruct (w_cancels w !! id). Qed.

Lemma keeps_signalCancel id : keeps (signalCancel id) any.
Proof. eapply keeps_bind; [apply keeps_signal|]. intros c _. by apply keeps_still. Qed.

Lemma keeps_cancels_Delete id : keeps (cancels_Delete id) any.
Proof. by apply keeps_still. Qed.

Lemma keeps_open name :
  keeps (os_Open name) (fun r => batch_name w0 b name -> forall ino, r = Ok ino -> batch_file w0 b ino).
Proof.
  apply keeps_syscall; [|done]. intros w Hw. destruct (w_dir w !! name) as [i|] eqn:E; simpl; (split; [done|]); [|done].
  intros Hn ino [= <-]. by eapply only_files.
Qed.

Lemma keeps_read ino : keeps (file_Read ino) any.
Proof. by apply keeps_syscall; [apply keeps_still|]. Qed.

(** Changes of the directory between names of the batch. *)
Lemma only_dir w dir :
  only b w0 w ->
  (forall name, ~ batch_name w0 b name -> dir !! name = w_dir w !! name) ->
  (forall name ino, batch_name w0 b name -> dir !! name = Some ino -> batch_file w0 b ino) ->
  only b w0 (set_files dir (w_data w) (w_next w) w).
Proof.
  intros [H1 H2 H3 H4 H5] Hn Hf. split; simpl; [done|done| |done|done]. intros name Hname. rewrite Hn by done. by apply H3.
Qed.

Lemma keeps_remove name : batch_name w0 b name -> keeps (os_Remove name) any.
Proof.
  intros Hname. apply keeps_syscall; [|done]. intros w Hw. destruct (w_dir w !! name) as [i|] eqn:E; simpl; (split; [|done]); [|done].
  apply only_dir; [done| |].
  - intros n Hn. apply lookup_delete_ne. by intros <-.
  - intros n ino Hn [_ Hi]%lookup_delete_Some. by eapply only_files.
Qed.

Lemma keeps_rename from to : batch_name w0 b from -> batch_name w0 b to -> keeps (os_Rename from to) any.
Proof.
  intros Hfrom Hto. apply keeps_syscall; [|done]. intros w Hw. destruct (w_dir w !! from) as [i|] eqn:E; simpl; (split; [|done]); [|done].
  apply only_dir; [done| |].
  - intros n Hn. rewrite lookup_insert_ne by (by intros <-). apply lookup_delete_ne. by intros <-.
  - intros n ino Hn [[<- <-]|[_ [_ Hi]%lookup_delete_Some]]%lookup_insert_Some;
      [by apply (only_files _ _ _ Hw from)|by apply (only_files _ _ _ Hw n)].
Qed.

Lemma keeps_link from to : batch_name w0 b from -> batch_name w0 b to -> keeps (os_Link from to) any.
Proof.
  intros Hfrom Hto. apply keeps_syscall; [|done]. intros w Hw.
  destruct (w_dir w !! from) as [i|] eqn:E; [|done]. destruct (w_dir w !! to) as [k|] eqn:E2; [done|]. simpl. split; [|done].
  apply only_dir; [done| |].
  - intros n Hn. apply lookup_insert_ne. by intros <-.
  - intros n ino Hn [[<- <-]|[_ Hi]]%lookup_insert_Some; [by apply (only_files _ _ _ Hw from)|by apply (only_files _ _ _ Hw n)].
Qed.

Lemma only_write w ino d :
  only b w0 w -> batch_file w0 b ino -> only b w0 (set_files (w_dir w) (<[ino := d]> (w_data w)) (w_next w) w).
Proof.
  intros [H1 H2 H3 H4 H5] Hi. split; simpl; [done|done|done|done|]. intros i Hni. rewrite lookup_insert_ne by (by intros <-). by apply H5.
Qed.

Lemma keeps_truncate ino n : batch_file w0 b ino -> keeps (file_Truncate ino n) any.
Proof. intros Hi. apply keeps_syscall; [|done]. intros w Hw. split; [by apply only_write|done]. Qed.

Lemma keeps_write ino pos bs : batch_file w0 b ino -> keeps (file_Write ino pos bs) any.
Proof. intros Hi. apply keeps_syscall; [|done]. intros w Hw. split; [by apply only_write|done]. Qed.

(** Updates of rows of the batch. *)
Lemma only_update w p u :
  only b w0 w -> (forall r, same_file r (u r)) ->
  (forall id r, db_transfers (w_db w) !! id = Some r -> p r = true -> ft_BatchID r = b) ->
  only b w0 (set_db (update p u (w_db w)) w).
Proof.
  intros [H1 H2 H3 H4 H5] Hu Hp. split; simpl; [| |done|done|done].
  - intros id r Hr. destruct (H1 id r Hr) as (r' & Hr' & Hs & Hb). rewrite lookup_fmap, Hr'. simpl. eexists. split; [done|].
    destruct (p r') eqn:E; [|done]. split; [by etrans|]. intros Hn. specialize (Hb Hn). subst r'. destruct Hn. by eapply Hp.
  - intros id. rewrite lookup_fmap, fmap_is_Some. apply H2.
Qed.

Lemma keeps_exec f p u w :
  only b w0 w -> (forall r, same_file r (u r)) ->
  (forall id r, db_transfers (w_db w) !! id = Some r -> p r = true -> ft_BatchID r = b) ->
  only b w0 (set_db (exec f p u (w_db w)).1 w).
Proof.
  intros Hw Hu Hp. destruct (exec f p u (w_db w)) as [db' r] eqn:E. apply exec_spec in E as [[->| ->] _]; simpl.
  - by eapply only_still; [| | |exact Hw].
  - by apply only_update.
Qed.

Lemma known_row w id r : only b w0 w -> db_transfers (w_db w) !! id = Some r -> known id r /\ ft_ID r = id.
Proof.
  intros Hw Hr. destruct (only_new _ _ _ Hw id (mk_is_Some _ _ Hr)) as [r0 Hr0]. destruct (only_rows _ _ _ Hw id r0 Hr0) as (r' & Hr' & Hs & _).
  simplify_eq. split; [by exists r0|]. destruct (Hw0 _ _ Hr0) as [Hid _]. by destruct Hs as [-> _].
Qed.

Lemma known_mine id t : known id t -> mine id -> ft_BatchID t = b.
Proof. intros (r & Hr & Hs) (r' & Hr' & Hb). simplify_eq. by destruct Hs as (_ & -> & _). Qed.

Lemma known_id id t : known id t -> ft_ID t = id.
Proof. intros (r & Hr & Hs). destruct (Hw0 _ _ Hr) as [Hid _]. by destruct Hs as [-> _]. Qed.

Lemma known_names id t name : known id t -> ft_BatchID t = b -> name ∈ names_of t -> batch_name w0 b name.
Proof.
  intros (r & Hr & Hs) Hb Hn. exists id, r. split; [done|]. destruct Hs as (E1 & E2 & _ & _ & _ & E3 & _). split; [congruence|].
  unfold names_of, publishedPath in *. by rewrite E1, E3 in Hn.
Qed.

Lemma row_mine w k r id : only b w0 w -> mine id -> db_transfers (w_db w) !! k = Some r -> ft_ID r = id -> ft_BatchID r = b.
Proof. intros Hw Hm Hr Hid. destruct (known_row w k r Hw Hr) as [Hk E]. apply (known_mine k); [done|congruence]. Qed.

Lemma keeps_db_call {A} (call : fault -> DB -> DB * result store_error A) :
  (forall f w, only b w0 w -> only b w0 (set_db (call f (w_db w)).1 w)) -> keeps (db_call call) any.
Proof.
  intros H. eapply keeps_bind; [apply keeps_still, next_fault_still|]. intros f _ w Hw. specialize (H f w Hw).
  unfold action. by destruct (call f (w_db w)).
Qed.

Lemma keeps_db_call2 {A} (call : fault -> fault -> DB -> DB * result store_error A) :
  (forall f f2 w, only b w0 w -> only b w0 (set_db (call f f2 (w_db w)).1 w)) -> keeps (db_call2 call) any.
Proof.
  intros H. eapply keeps_bind; [apply keeps_still, next_fault_still|]. intros f _.
  eapply keeps_bind; [apply keeps_still, next_fault_still|]. intros f2 _ w Hw. specialize (H f f2 w Hw).
  unfold action. by destruct (call f f2 (w_db w)).
Qed.

Lemma keeps_commit id expected next : mine id -> keeps (db_call (fun f db => CommitFileTransferOffset f db id expected next)) any.
Proof.
  intros Hm. apply keeps_db_call. intros f w Hw. unfold CommitFileTransferOffset. case_decide; [by eapply only_still; [| | |exact Hw]|].
  destruct (exec _ _ _ _) as [db1 ch] eqn:E. change db1 with (db1, ch).1. rewrite <- E. apply keeps_exec; [done|done|].
  intros k r Hr Hp. apply (row_mine w k r id); [done..|]. unfold has_id in Hp. destruct (bool_decide (ft_ID r = id)) eqn:Ei; [|done].
  by apply bool_decide_eq_true in Ei.
Qed.

Lemma keeps_cancel_rows : keeps (db_call2 (fun f f2 db => CancelFileTransferBatch f f2 db b)) any.
Proof.
  apply keeps_db_call2. intros f f2 w Hw. unfold CancelFileTransferBatch.
  destruct (exec _ _ _ _) as [db1 ch] eqn:E. change db1 with (db1, ch).1. rewrite <- E. apply keeps_exec; [done|done|].
  intros k r Hr [Hp _]%andb_true_iff. by apply bool_decide_eq_true in Hp.
Qed.

Lemma keeps_receipt_row id client code path : mine id -> keeps (db_call (fun f db => ReceiptFileTransfer f db id client code path)) any.
Proof.
  intros Hm. apply keeps_db_call. intros f w Hw. unfold ReceiptFileTransfer. case_decide; [by eapply only_still; [| | |exact Hw]|].
  destruct (exec _ _ _ _) as [db1 ch] eqn:E. change db1 with (db1, ch).1. rewrite <- E. apply keeps_exec; [done|done|].
  intros k r Hr Hp. apply (row_mine w k r id); [done..|]. unfold has_id in Hp. destruct (bool_decide (ft_ID r = id)) eqn:Ei; [|done].
  by apply bool_decide_eq_true in Ei.
Qed.

Lemma keeps_complete_rows : keeps (db_call2 (fun f f2 db => CompleteFileTransferBatch f f2 db b)) any.
Proof.
  apply keeps_db_call2. intros f f2 w Hw. unfold CompleteFileTransferBatch.
  assert (only b w0 (set_db (w_db w) w)) as Hsame by (by eapply only_still; [| | |exact Hw]).
  assert (only b w0 (set_db (update (fun r => in_batch b r && ready r) completed (w_db w)) w)) as Hup.
  { apply only_update; [done|done|]. intros k r Hr [Hp _]%andb_true_iff. by apply bool_decide_eq_true in Hp. }
  case_decide; [destruct (reading f2 _); [case_decide|]|case_decide]; destruct f; done.
Qed.

Lemma keeps_read_transfer id : keeps (read_transfer id) (fun r => forall t, r = Ok t -> known id t).
Proof.
  unfold read_transfer, db_read. eapply keeps_bind; [apply keeps_still, next_fault_still|]. intros f _ w Hw. unfold get. simpl. split; [done|].
  intros t Ht. unfold GetFileTransfer in Ht. destruct (db_transfers (w_db w) !! id) as [r|] eqn:E; [|unfold reading in Ht; by case_decide].
  destruct (known_row w id r Hw E) as [Hk _]. unfold reading in Ht. case_decide; by simplify_eq.
Qed.

Lemma keeps_read_batch batch : keeps (read_batch batch) (fun r => forall ts, r = Ok ts -> Forall (fun t => known (ft_ID t) t /\ ft_BatchID t = batch) ts).
Proof.
  unfold read_batch, db_read. eapply keeps_bind; [apply keeps_still, next_fault_still|]. intros f _ w Hw. unfold get. simpl. split; [done|].
  intros ts Hts. assert (ts = select (in_batch batch) ft_CreatedAt (w_db w)) as ->.
  { unfold FileTransfersByBatch in Hts. case_decide; [done|]. unfold reading in Hts. case_decide; [done|]. by destruct (select _ _ _); simplify_eq. }
  apply Forall_forall. intros t Ht. unfold select in Ht. rewrite merge_sort_Permutation in Ht. apply list_elem_of_filter in Ht as [Hp Ht].
  apply elem_of_rows in Ht as [k Hk]. destruct (known_row w k t Hw Hk) as [Hkn Hid]. rewrite Hid. split; [done|].
  apply Is_true_eq_true in Hp. by apply bool_decide_eq_true in Hp.
Qed.

(** One step of a program whose result does not matter, and a step that may end it. *)
Ltac step := eapply keeps_bind; [solve [first
  [apply keeps_quiet|apply keeps_signal|apply keeps_signalCancel|apply keeps_cancels_Delete|apply keeps_get|apply keeps_read
  |apply keeps_still; done|eauto using keeps_remove, keeps_rename, keeps_link, keeps_truncate, keeps_write, keeps_commit,
     keeps_cancel_rows, keeps_receipt_row, keeps_complete_rows]]|intros ? _].
Ltac stop := apply keeps_ret; first [done|by intros].

Lemma keeps_for_each {A} (l : list A) (body : A -> M unit) : (forall x, x ∈ l -> keeps (body x) any) -> keeps (for_each l body) any.
Proof.
  induction l as [|x l IH]; intros H; simpl; [stop|]. eapply keeps_bind; [apply H; by left|]. intros _ _. apply IH. intros y Hy. apply H. by right.
Qed.

Definition batch_of (ts : list FileTransfer) : Prop := Forall (fun t => known (ft_ID t) t /\ ft_BatchID t = b) ts.

Lemma batch_of_names ts t name : batch_of ts -> t ∈ ts -> name ∈ names_of t -> batch_name w0 b name.
Proof. unfold batch_of. rewrite Forall_forall. intros H Ht Hn. destruct (H t Ht) as [H1 H2]. by eapply known_names. Qed.

Lemma keeps_remove_all ts : forall e, batch_of ts -> keeps (remove_all ts e) any.
Proof.
  induction ts as [|t ts IH]; intros e H; simpl; [stop|]. apply (keeps_bind _ _ any); [|intros r _; apply IH; by apply Forall_cons in H as [_ ?]].
  pose proof (fun name => batch_of_names (t :: ts) t name H (list_elem_of_here _ _)) as Hn. unfold names_of in Hn. unfold remove_files.
  eapply keeps_bind; [apply keeps_remove, Hn; set_solver|intros ? _]. eapply keeps_bind; [apply keeps_remove, Hn; set_solver|intros ? _].
  eapply keeps_bind; [apply keeps_remove, Hn; set_solver|intros ? _]. step. stop.
Qed.

Lemma keeps_cancelBatchLocked ts : batch_of ts -> keeps (cancelBatchLocked ts) any.
Proof.
  intros H. unfold cancelBatchLocked. eapply keeps_bind; [apply keeps_for_each; intros t _; apply keeps_signalCancel|intros ? _].
  apply (keeps_bind _ _ any).
  { destruct ts as [|t ts]; [stop|]. apply Forall_cons in H as [[_ Hb] _]. rewrite Hb. step. stop. }
  intros e _. eapply keeps_bind; [by apply keeps_remove_all|intros ? _]. step. stop.
Qed.

Lemma keeps_Cancel id : mine id -> keeps (Cancel id) any.
Proof.
  intros Hm. unfold Cancel. eapply keeps_bind; [apply keeps_read_transfer|]. intros [t|e] Ht; [|stop].
  specialize (Ht t eq_refl). eapply keeps_bind; [apply keeps_read_batch|]. intros [ts|e] Hts; [|stop].
  apply keeps_cancelBatchLocked. specialize (Hts ts eq_refl). by rewrite (known_mine id t Ht Hm) in Hts.
Qed.

Lemma mine_name id name : mine id -> name = partialPath id \/ name = contentPath id -> batch_name w0 b name.
Proof.
  intros (r & Hr & Hb) Hn. exists id, r. split; [done|]. split; [done|]. destruct (Hw0 _ _ Hr) as [<- _]. unfold names_of. set_solver.
Qed.

Definition appends (id : string) (a : appending) : Prop := batch_file w0 b (ap_ino a) /\ ft_ID (ap_transfer a) = id.

Lemma keeps_Append_begin id offset : mine id -> keeps (Append_begin id offset) (fun r => forall a, r = Ok a -> appends id a).
Proof.
  intros Hm. unfold Append_begin. eapply keeps_bind; [apply keeps_read_transfer|]. intros [t|e] Ht; [|stop]. specialize (Ht t eq_refl).
  case_decide; [stop|]. case_decide; [stop|]. eapply keeps_bind; [apply keeps_open|]. intros [ino|e] Hi; [|stop].
  specialize (Hi (mine_name id _ Hm (or_introl eq_refl)) ino eq_refl). step. destruct a as [[]|e]; [|stop]. step. destruct a as [[]|e]; [|stop].
  step. apply keeps_ret. intros a' [= <-]. split; [done|]. by apply known_id in Ht.
Qed.

Lemma keeps_Append_end id a : mine id -> appends id a -> keeps (Append_end a) any.
Proof.
  intros Hm [Hi Hid]. unfold Append_end. case_decide; [step; stop|]. step. destruct a0 as [[]|e]; [|stop]. rewrite Hid. step.
  destruct a0 as [[]|e]; stop.
Qed.

Lemma keeps_Append_read id ev a : mine id -> appends id a ->
  keeps (Append_read false ev a) (fun r => forall a', r = inl a' -> appends id a').
Proof.
  intros Hm Ha. pose proof Ha as [Hi Hid]. unfold Append_read.
  assert (keeps (r ← Append_end a; mret (inr r)) (fun r => forall a', r = inl a' -> appends id a')) as Hend.
  { eapply keeps_bind; [by eapply keeps_Append_end|]. intros. stop. }
  case_decide; [done|]. step. destruct a0; [stop|]. destruct ev; [|done|stop|step; stop]. step. destruct a0; [|stop].
  apply keeps_ret. intros a' [= <-]. by split.
Qed.

Lemma keeps_copy_body id body : mine id -> forall a, appends id a -> keeps (copy_body body a) any.
Proof.
  intros Hm. induction body as [|ev body IH]; intros a Ha; simpl; (eapply keeps_bind; [by eapply keeps_Append_read|]); intros [a'|r] H; try stop.
  apply IH. by apply H.
Qed.

Lemma keeps_Append id offset body : mine id -> keeps (Append id offset body) any.
Proof.
  intros Hm. unfold Append. eapply keeps_bind; [by apply keeps_Append_begin|]. intros [a|e] Ha; [|stop]. eapply keeps_copy_body; [done|by apply Ha].
Qed.

Lemma keeps_os_Open name : keeps (os_Open name) any.
Proof. by eapply keeps_weaken; [apply keeps_open|]. Qed.

Lemma keeps_verify_one sha256 ctx ts t : batch_of ts -> t ∈ ts -> keeps (verify_one sha256 ctx ts t) any.
Proof.
  intros Hts Ht. unfold verify_one. case_decide; [stop|]. apply (keeps_bind _ _ any).
  { unfold content_name. eapply keeps_bind; [apply keeps_os_Open|intros ? _]. stop. }
  intros name _. eapply keeps_bind; [apply keeps_os_Open|intros [ino|e] _]; [|stop]. step. step. case_match; [stop|]. step.
  destruct a1 as [bs|e]; [|stop]. step. destruct a1 as [[]|e]; [|stop]. case_decide; [|stop].
  eapply keeps_bind; [by apply keeps_cancelBatchLocked|intros ? _]. stop.
Qed.

Lemma keeps_verify_all sha256 ts : batch_of ts -> forall l ctx, l ⊆ ts -> keeps (verify_all sha256 ctx ts l) any.
Proof.
  intros Hts. induction l as [|t l IH]; intros ctx Hl; simpl; [stop|]. eapply keeps_bind; [apply keeps_verify_one; [done|set_solver]|].
  intros [[]|e] _; [|stop]. apply IH. set_solver.
Qed.

Lemma keeps_Complete_begin sha256 ctx id : mine id -> keeps (Complete_begin sha256 ctx id) (fun r =>
  match r with Ok (inl t) => known id t | Ok (inr (q, ts)) => known id q /\ batch_of ts | Err _ => True end).
Proof.
  intros Hm. unfold Complete_begin. eapply keeps_bind; [apply keeps_read_transfer|]. intros [t|e] Ht; [|stop]. specialize (Ht t eq_refl).
  eapply keeps_bind; [apply keeps_read_batch|]. intros [ts|e] Hts; [|stop]. specialize (Hts ts eq_refl). rewrite (known_mine id t Ht Hm) in Hts.
  destruct (forallb _ ts).
  - eapply keeps_bind; [apply keeps_read_transfer|]. intros [u|e] Hu; [|stop]. apply keeps_ret. by apply Hu.
  - eapply keeps_bind; [by apply keeps_verify_all|]. intros [[]|e] _; [|stop]. by apply keeps_ret.
Qed.

Lemma keeps_rename_all ts l : batch_of ts -> l ⊆ ts -> forall renamed, renamed ⊆ ts -> keeps (rename_all renamed l) any.
Proof.
  intros Hts. pose proof (fun t name => batch_of_names ts t name Hts) as Hn. unfold names_of in Hn.
  induction l as [|t l IH]; intros Hl renamed Hr; simpl; [stop|].
  eapply keeps_bind; [apply keeps_os_Open|intros [i|e] _]; [apply IH; set_solver|].
  eapply keeps_bind; [apply keeps_rename; apply (Hn t); set_solver|intros [i|e1] _]; [apply IH; set_solver|].
  eapply keeps_bind; [|intros ? _; stop]. apply keeps_for_each. intros u Hu.
  eapply keeps_bind; [apply keeps_rename; apply (Hn u); set_solver|intros ? _]. stop.
Qed.

Lemma keeps_Complete_finish id q ts : mine id -> known id q -> batch_of ts ->
  keeps (Complete_finish q ts) (fun r => forall t, r = Ok t -> known id t).
Proof.
  intros Hm Hq Hts. unfold Complete_finish. eapply keeps_bind; [apply (keeps_rename_all ts); [done|done|set_solver]|intros [[]|e] _]; [|stop].
  step. destruct a as [[]|e]; [|stop]. rewrite (known_mine id q Hq Hm). step. destruct a as [[]|e]; [|stop].
  eapply keeps_bind; [apply keeps_for_each; intros t _; case_decide; [apply keeps_cancels_Delete|stop]|intros _ _].
  rewrite (known_id id q Hq). eapply keeps_bind; [apply keeps_read_transfer|]. intros [t|e] Ht; [|stop]. apply keeps_ret. intros ? [= <-]. by apply Ht.
Qed.

Lemma keeps_Complete sha256 ctx id : mine id -> keeps (Complete sha256 ctx id) (fun r => forall t, r = Ok t -> known id t).
Proof.
  intros Hm. unfold Complete. eapply keeps_bind; [by apply keeps_Complete_begin|]. intros [[t|[q ts]]|e] H; [| |stop].
  - apply keeps_ret. by intros ? [= <-].
  - destruct H. by apply keeps_Complete_finish.
Qed.

Lemma keeps_Receipt id client code path : mine id -> keeps (Receipt id client code path) any.
Proof.
  intros Hm. unfold Receipt. step. destruct a as [[]|e]; [|stop].
  eapply keeps_bind; [apply keeps_remove, (mine_name id); [done|by right]|intros r _]. destruct (unless_missing r); [stop|]. step. step.
  destruct a0 as [[]|e]; stop.
Qed.

Lemma keeps_PublishedPath id : mine id -> keeps (PublishedPath id) (fun r => forall p, r = Ok p -> exists t, known id t /\ p = publishedPath t).
Proof.
  intros Hm. unfold PublishedPath. eapply keeps_bind; [apply keeps_read_transfer|]. intros [t|e] Ht; [|stop]. specialize (Ht t eq_refl).
  case_decide; [stop|].
  assert (batch_name w0 b (publishedPath t)) as Hp by (eapply known_names; [done|by eapply known_mine|unfold names_of; set_solver]).
  eapply keeps_bind; [apply keeps_link; [apply (mine_name id); [done|by right]|done]|intros r _].
  assert (keeps (content ← os_Open (contentPath id); info ← os_Open (publishedPath t);
    match content, info with
    | Ok i1, Ok i2 => if decide (i1 <> i2) then mret (Err (FError StorageUnavailable))
                      else let! _ := syncDir fails _ => FError StorageUnavailable in mret (Ok (publishedPath t))
    | _, _ => mret (Err (FError StorageUnavailable)) end) (fun r => forall p, r = Ok p -> exists t, known id t /\ p = publishedPath t)) as Hrest.
  { eapply keeps_bind; [apply keeps_os_Open|intros [i1|] _]; (eapply keeps_bind; [apply keeps_os_Open|intros [i2|] _]); try stop.
    case_decide; [stop|]. step. destruct a as [[]|e]; [|stop]. apply keeps_ret. intros p [= <-]. by exists t. }
  destruct r as [[]|[]]; [exact Hrest|stop|exact Hrest|stop].
Qed.
End Footprint.

(** ** The footprint of a creation *)

Record adds (r : CreateRequest) (w w' : world) : Prop := {
  adds_rows : forall id row, db_transfers (w_db w) !! id = Some row ->
    exists row', db_transfers (w_db w') !! id = Some row' /\ same_file row row' /\ (ft_BatchID row <> cr_BatchID r -> row' = row);
  adds_new : forall id row', db_transfers (w_db w') !! id = Some row' -> db_transfers (w_db w) !! id = None ->
    ft_BatchID row' = cr_BatchID r /\ ft_ClientID row' = cr_ClientID r /\ ft_SessionID row' = cr_SessionID r /\ ft_Direction row' = cr_Direction r;
  adds_names : forall name, ~ batch_name w' (cr_BatchID r) name -> w_dir w' !! name = w_dir w !! name
}.

Lemma adds_same r w w' : db_transfers (w_db w') = db_transfers (w_db w) -> w_dir w' = w_dir w -> adds r w w'.
Proof.
  intros E1 E2. split; rewrite ?E1, ?E2; [intros id row Hr; by exists row|intros id row' H1 H2; congruence|done].
Qed.

(** What comes after a creation for the same batch. *)
Lemma adds_only r w w1 w2 : adds r w w1 -> only (cr_BatchID r) w1 w2 -> adds r w w2.
Proof.
  intros [A1 A2 A3] O. pose proof O as [O1 O2 O3 O4 O5]. split.
  - intros id row Hr. destruct (A1 id row Hr) as (row1 & Hr1 & Hs1 & Hb1). destruct (O1 id row1 Hr1) as (row2 & Hr2 & Hs2 & Hb2).
    exists row2. split; [done|]. split; [by etrans|]. intros Hn. rewrite Hb2; [by apply Hb1|]. by rewrite Hb1.
  - intros id row' Hr Hn. destruct (O2 id (mk_is_Some _ _ Hr)) as [row1 Hr1]. destruct (A2 id row1 Hr1 Hn) as (B1 & B2 & B3 & B4).
    destruct (O1 id row1 Hr1) as (row2 & Hr2 & (_ & S2 & S3 & S4 & S5 & _) & _). simplify_eq. split_and!; congruence.
  - intros name Hn. assert (~ batch_name w1 (cr_BatchID r) name) as Hn1.
    { intros (id & row & Hr & Hb & Hname). apply Hn. destruct (O1 id row Hr) as (row2 & Hr2 & (S1 & S2 & _ & _ & _ & S3 & _) & _).
      exists id, row2. split; [done|]. split; [congruence|]. unfold names_of, publishedPath in *. by rewrite S1, S3. }
    rewrite O3 by done. by apply A3.
Qed.

Lemma new_transfers_owner p r now random total files ts :
  new_transfers p r now random total files = Ok ts ->
  Forall (fun t => ft_BatchID t = cr_BatchID r /\ ft_ClientID t = cr_ClientID r /\ ft_SessionID t = cr_SessionID r /\ ft_Direction t = cr_Direction r) ts.
Proof.
  revert random total ts. induction files as [|f files IH]; intros random total ts; simpl; [by intros [= <-]|].
  destruct (negb _); [done|]. case_decide; [done|]. destruct (negb _); [done|]. case_decide; [done|].
  destruct (newID "ft_" random) as [[id random']|]; [|done]. destruct (new_transfers _ _ _ random' _ files) as [rest|] eqn:E; [|done].
  intros [= <-]. constructor; [done|]. by eapply IH.
Qed.

(** A partial file changes one name. *)
Lemma create_partial_dir t w :
  w_db (create_partial t w).1 = w_db w /\
  forall name, name <> partialPath (ft_ID t) -> w_dir (create_partial t w).1 !! name = w_dir w !! name.
Proof.
  unfold create_partial, create_excl, quiet, syscall, next_fault, cancelSignal, mbind, M_bind, mret, M_ret.
  repeat (case_match; simpl in *; simplify_eq); (split; [done|]); intros name Hn; simpl; try done; by rewrite ?lookup_insert_ne by congruence.
Qed.

Lemma create_partials_dir ts : forall w,
  w_db (for_each_or ts create_partial w).1 = w_db w /\
  forall name, (forall t, t ∈ ts -> name <> partialPath (ft_ID t)) -> w_dir (for_each_or ts create_partial w).1 !! name = w_dir w !! name.
Proof.
  induction ts as [|t ts IH]; intros w; simpl; [done|]. unfold mbind, M_bind. destruct (create_partial_dir t w) as [Hdb Hdir].
  destruct (create_partial t w) as [w1 [[]|e]]; simpl in *.
  - destruct (IH w1) as [Hdb1 Hdir1]. split; [congruence|]. intros name Hn. rewrite Hdir1 by (intros u Hu; apply Hn; by right). apply Hdir, Hn. by left.
  - split; [done|]. intros name Hn. apply Hdir, Hn. by left.
Qed.

Lemma syncDir_same w : w_db (syncDir w).1 = w_db w /\ w_dir (syncDir w).1 = w_dir w.
Proof. unfold syncDir, quiet, syscall, next_fault, mbind, M_bind, mret, M_ret. by repeat (case_match; simpl in *; simplify_eq). Qed.

Definition of_request (r : CreateRequest) (ts : list FileTransfer) : Prop :=
  Forall (fun t => ft_BatchID t = cr_BatchID r /\ ft_ClientID t = cr_ClientID r /\ ft_SessionID t = cr_SessionID r /\ ft_Direction t = cr_Direction r) ts.

Lemma insert_adds r w ts db' w1 :
  insert_transfers (w_db w) ts = Ok db' -> of_request r ts -> w_db w1 = db' ->
  (forall name, (forall t, t ∈ ts -> name <> partialPath (ft_ID t)) -> w_dir w1 !! name = w_dir w !! name) -> adds r w w1.
Proof.
  intros (Hold & Hnew & Hin & _)%insert_transfers_spec Hts <- Hdir. unfold of_request in Hts. rewrite Forall_forall in Hts. split.
  - intros id row Hr. exists row. split; [by apply Hold|done].
  - intros id row' Hr Hn. destruct (Hnew id row' Hn Hr) as (t & Ht & -> & _). exact (Hts t Ht).
  - intros name Hn. apply Hdir. intros t Ht ->. apply Hn. destruct (Hin t Ht) as [_ Hrow]. destruct (Hts t Ht) as [Hb _].
    exists (ft_ID t), (created_row t). split; [done|]. split; [done|]. by left.
Qed.

Lemma run_bind {A B} (m : M A) (k : A -> M B) w : (m ≫= k) w = let '(w1, a) := m w in k a w1.
Proof. done. Qed.

Lemma Create_adds now random r w : transfers_ok (w_db w) -> adds r w (Create now random r w).1.
Proof.
  intros Hok. unfold Create. rewrite run_bind. simpl. case_decide; [by apply adds_same|]. case_decide; [by apply adds_same|].
  destruct (new_transfers _ _ _ _ _ _) as [ts|e] eqn:Et; [|by apply adds_same]. apply new_transfers_owner in Et.
  rewrite run_bind. unfold db_call. rewrite run_bind. destruct (next_fault w) as [w1 f] eqn:Ef.
  assert (w_db w1 = w_db w /\ w_dir w1 = w_dir w) as [E1 E2] by (unfold next_fault in Ef; destruct (w_faults w); by simplify_eq).
  unfold action. rewrite E1. pose proof (table_step_create f (w_db w) ts (po_MaxPendingSpoolBytes (w_policy w)) (po_MaxConcurrentTransfers (w_policy w))) as Hstep.
  destruct (CreateFileTransfersWithinLimits _ _ _ _ _) as [db' res] eqn:Ec. apply create_cases in Ec as [Hdb Hres]. simpl in Hstep.
  destruct res as [[]|e]; simpl.
  2:{ destruct Hdb as [->|Hi]; [by apply adds_same|]. eapply insert_adds; [exact Hi|done|done|]. simpl. by rewrite E2. }
  specialize (Hres eq_refl). clear Hdb. rewrite run_bind. destruct (create_partials_dir ts (set_db db' w1)) as [P1 P2]. simpl in P1, P2.
  destruct (for_each_or ts create_partial (set_db db' w1)) as [w2 made]. simpl in P1, P2. rewrite E2 in P2.
  assert (exists w3 synced, (match made with Ok _ => syncDir | Err _ => mret (Err EIO) end) w2 = (w3, synced) /\ w_db w3 = db' /\ w_dir w3 = w_dir w2)
    as (w3 & synced & Es & D1 & D2).
  { destruct made; [|by exists w2, (Err EIO)]. destruct (syncDir_same w2) as [S1 S2]. destruct (syncDir w2) as [w3 s] eqn:E. exists w3, s. simpl in *. split; [done|].
    split; congruence. }
  rewrite run_bind, Es.
  assert (adds r w w3) as Hadds by (apply (insert_adds r w ts db'); [done|done|done|intros name Hn; rewrite D2; by apply P2]).
  destruct synced as [[]|e1]; [done|]. rewrite run_bind.
  assert (adds r w (cancelBatch ts w3).1) as Hc; [|by destruct (cancelBatch ts w3)].
  eapply adds_only; [exact Hadds|]. assert (transfers_ok (w_db w3)) as Hok3 by (rewrite D1; by eapply table_step_ok).
  unfold cancelBatch. destruct ts as [|t ts']; [apply footprint_refl|].
  apply keeps_cancelBatchLocked; [done| |apply footprint_refl]. apply insert_transfers_spec in Hres as (_ & _ & Hin & _).
  unfold batch_of. rewrite Forall_forall in Et |- *. intros u Hu. destruct (Hin u Hu) as [_ Hrow]. split; [|by destruct (Et u Hu)].
  exists (created_row u). rewrite D1. by split.
Qed.

(** The journal does not touch the transfers. *)
Lemma commit_transfers {A} f db (r : result store_error (DB * A)) :
  (forall db' a, r = Ok (db', a) -> db_transfers db' = db_transfers db) -> db_transfers (commit f db r).1 = db_transfers db.
Proof. intros H. destruct f, r as [[db' a]|e]; simpl; try done; by eapply H. Qed.

Lemma Execute_begin_transfers sha256 `{JsonValues} f t1 t2 j db id request :
  db_transfers (Execute_begin sha256 f t1 t2 j db id request).1.2 = db_transfers db.
Proof.
  unfold Execute_begin. case_decide; [done|]. destruct (CanonicalHash _ _) as [h|]; [|done]. destruct (jn_entries j !! id) as [e|].
  { case_decide; [done|]. by destruct (en_complete e). }
  destruct (evict _ _ _) as [entries order]. case_decide; [done|].
  assert (forall j', db_transfers (reserve f t1 t2 j' db id h).1.2 = db_transfers db) as Hr.
  { intros j'. unfold reserve.
    assert (forall now, db_transfers (DeleteExpiredOperations (bg_cleanup f) db now).1 = db_transfers db) as Hd
      by (intros now; apply commit_transfers; by intros ?? [= <- _]).
    assert (forall db1 e, db_transfers (ReserveOperation (bg_reserve f) (bg_read f) db1 id h e).1 = db_transfers db1) as Ho.
    { intros db1 e. unfold ReserveOperation. lazymatch goal with |- context [commit ?f ?d ?r] => pose proof (commit_transfers f d r) as Hc; destruct (commit f d r) as [db2 [[]|e2]] end;
        simpl in *; apply Hc; intros db' a; destruct (db_operations db1 !! id); by intros [= <- _]. }
    case_decide; [specialize (Hd t1); destruct (DeleteExpiredOperations _ _ _) as [db1 [[]|e]]; simpl in Hd; [|done]|];
      (match goal with |- context [ReserveOperation ?a ?b ?d ?i ?h ?e] =>
         specialize (Ho d e); destruct (ReserveOperation a b d i h e) as [db2 [[record []]|e2]] end);
      simpl in Ho; try destruct e2; simpl; congruence. }
  destruct (jn_store j); [|done]. specialize (Hr (mkJournal (jn_max j) entries order true (jn_retention j) (jn_lastCleanup j))).
  destruct (reserve _ _ _ _ _ _ _) as [[j2 db2] [b|]]; done.
Qed.

Lemma Execute_finish_transfers f f2 now j db id hash o :
  db_transfers (Execute_finish f f2 now j db id hash o).1.2 = db_transfers db.
Proof.
  unfold Execute_finish. destruct (jn_store j); [|done]. case_decide; [done|].
  assert (forall row, db_transfers (CompleteOperation f f2 db row).1 = db_transfers db) as Hc.
  { intros row. unfold CompleteOperation. case_decide; [done|].
    lazymatch goal with |- context [commit ?f ?d ?r] => pose proof (commit_transfers f d r) as Hc; destruct (commit f d r) as [db2 [[]|e2]] end;
      simpl in *; apply Hc; intros db' a; (destruct (db_operations db !! or_OperationID row); [case_decide|]); by intros [= <- _]. }
  lazymatch goal with |- context [CompleteOperation f f2 db ?row] => specialize (Hc row); destruct (CompleteOperation f f2 db row) as [db1 [[]|e]] end; done.
Qed.

(** ** Requests of clients *)

Definition belongs (a : Authorization) (t : FileTransfer) : Prop :=
  ft_ClientID t = au_ClientID a /\ (au_SessionID a <> "" -> ft_SessionID t = au_SessionID a).

Lemma belongs_same a t t' : same_file t t' -> belongs a t -> belongs a t'.
Proof. intros (_ & _ & _ & S1 & S2 & _) [B1 B2]. split; [congruence|]. intros H. rewrite S1. by apply B2. Qed.

(** Transfers and files in a response, for a world at which the service was called. *)
Definition shows (a : Authorization) (w : world) (r : http_response) : Prop :=
  match rs_Content r with
  | TransferContent t => belongs a t
  | BatchContent _ ts | PendingContent ts => Forall (belongs a) ts
  | CompleteContent t _ path => belongs a t /\ (path = "" \/ path = publishedPath t)
  | FileContent ino name =>
      exists id t, db_transfers (w_db w) !! id = Some t /\ belongs a t /\ w_dir w !! contentPath id = Some ino /\ name = ft_Basename t
  | _ => True
  end.

Definition unchanged (w w' : world) : Prop :=
  db_transfers (w_db w') = db_transfers (w_db w) /\ w_dir w' = w_dir w /\ w_data w' = w_data w.

(** Every batch has one owner. *)
Definition one_owner (w : world) : Prop := forall id1 id2 t1 t2,
  db_transfers (w_db w) !! id1 = Some t1 -> db_transfers (w_db w) !! id2 = Some t2 -> ft_BatchID t1 = ft_BatchID t2 ->
  ft_ClientID t1 = ft_ClientID t2 /\ ft_SessionID t1 = ft_SessionID t2.

(** What a request itself changes: nothing, a batch with a transfer of the client, or a new
    transfer of the client. *)
Definition changes (a : Authorization) (w w' : world) : Prop :=
  unchanged w w' \/
  (exists id t, db_transfers (w_db w) !! id = Some t /\ belongs a t /\ only (ft_BatchID t) w w' /\
     (one_owner w -> forall id' u, db_transfers (w_db w) !! id' = Some u -> db_transfers (w_db w') !! id' <> Some u -> belongs a u)) \/
  (exists r, adds r w w' /\ cr_ClientID r = au_ClientID a /\ (au_SessionID a <> "" -> cr_SessionID r = au_SessionID a) /\
     cr_Direction r = "pb_to_pbh").

Lemma only_owner a w w' id t :
  db_transfers (w_db w) !! id = Some t -> belongs a t -> only (ft_BatchID t) w w' -> one_owner w ->
  forall id' u, db_transfers (w_db w) !! id' = Some u -> db_transfers (w_db w') !! id' <> Some u -> belongs a u.
Proof.
  intros Ht [B1 B2] Ho Hone id' u Hu Hch. destruct (only_rows _ _ _ Ho id' u Hu) as (u' & Hu' & _ & Hsame).
  destruct (decide (ft_BatchID u = ft_BatchID t)) as [E|E]; [|by rewrite (Hsame E) in Hu'].
  destruct (Hone id' id u t Hu Ht E) as [E1 E2]. split; [congruence|]. intros Hn. rewrite E2. by apply B2.
Qed.

Section Confined.
Context (sha256 : list byte -> digest) `{JV : JsonValues} `{TJ : TransferJson}.
Context (authorizer : string -> option (Frame -> option Authorization)) (revoked : flag -> bool) (ce : context_ends) (meanwhile : M unit) (x : inputs).
Context (Hmeanwhile : forall w, transfers_ok (w_db w) -> table_step (w_db w) (w_db (meanwhile w).1)).

Abbreviation c := (public_config authorizer).

(** The world while others run and the request only reads. *)
Definition idle (w w1 : world) : Prop := unchanged w w1 \/ w1 = (meanwhile w).1.

Definition confined (a : Authorization) (w w' : world) (r : option http_response) : Prop :=
  exists w1, rtc idle w w1 /\ changes a w1 w' /\ match r with Some r => shows a w1 r | None => True end.

Lemma unchanged_trans w1 w2 w3 : unchanged w1 w2 -> unchanged w2 w3 -> unchanged w1 w3.
Proof. intros (?&?&?) (?&?&?). split_and!; congruence. Qed.

Lemma unchanged_ok w w' : unchanged w w' -> transfers_ok (w_db w) -> transfers_ok (w_db w').
Proof. intros (E & _) H id r. rewrite E. apply H. Qed.

Lemma confined_idle a w w1 w' r : idle w w1 -> confined a w1 w' r -> confined a w w' r.
Proof. intros H (w2 & Hr & Hc). exists w2. split; [by eapply rtc_l|done]. Qed.

(** A response that shows nothing. *)
Definition plain_content (r : http_response) : Prop := match rs_Content r with Empty | ErrorContent _ _ _ | NotAllowed => True | _ => False end.

Lemma confined_plain a w w' r : unchanged w w' -> plain_content r -> confined a w w' (Some r).
Proof. intros Hw Hr. exists w. split; [done|]. split; [by left|]. unfold shows, plain_content in *. by destruct (rs_Content r). Qed.

Lemma next_fault_unchanged w : unchanged w (next_fault w).1.
Proof. apply next_fault_still. Qed.

Lemma read_transfer_unchanged id w : unchanged w (read_transfer id w).1 /\ forall t, (read_transfer id w).2 = Ok t -> db_transfers (w_db w) !! id = Some t.
Proof.
  unfold read_transfer, db_read. rewrite run_bind. pose proof (next_fault_unchanged w) as Hn. destruct (next_fault w) as [w1 f]. simpl in *. split; [done|].
  intros t. unfold reading, GetFileTransfer. case_decide; [done|]. destruct Hn as (-> & _). destruct (_ !! id); intros [=]. congruence.
Qed.

Lemma owned_spec a id w :
  unchanged w (owned c a id w).1 /\
  forall t, (owned c a id w).2 = Some t -> db_transfers (w_db w) !! id = Some t /\ belongs a t.
Proof.
  unfold owned. rewrite run_bind. destruct (read_transfer_unchanged id w) as [Hu Hr]. destruct (read_transfer id w) as [w1 [t|e]]; simpl in *; (split; [done|]); [|done].
  intros t'. unfold owns. simpl. case_bool_decide as Ho; [|done]. intros [= <-]. split; [by apply Hr|]. destruct Ho as [H1 H2]. split; [done|].
  intros Hn. by destruct H2.
Qed.

(** A program behind the check of the owner: it answers at once, or calls the service. *)
Definition behind (a : Authorization) (id : string) (t : FileTransfer) (m : M http_response) : Prop :=
  forall w, transfers_ok (w_db w) -> db_transfers (w_db w) !! id = Some t -> belongs a t -> confined a w (m w).1 (Some (m w).2).

Lemma confined_owned a id (k : option FileTransfer -> M http_response) w requestID :
  transfers_ok (w_db w) -> k None = mret (forbidden requestID) -> (forall t, behind a id t (k (Some t))) ->
  confined a w ((owned c a id ≫= k) w).1 (Some ((owned c a id ≫= k) w).2).
Proof.
  intros Hok Hnone Hsome. rewrite run_bind. destruct (owned_spec a id w) as [Hu Ho]. destruct (owned c a id w) as [w1 [t|]]; simpl in *.
  - destruct (Ho t eq_refl) as [Hrow Hb]. eapply confined_idle; [by left|]. apply Hsome; [by eapply unchanged_ok|destruct Hu as (-> & _); done|done].
  - rewrite Hnone. by apply confined_plain.
Qed.

Lemma behind_plain a id t r : plain_content r -> behind a id t (mret r).
Proof. intros Hr w _ _ _. by apply confined_plain. Qed.

Lemma behind_if a id t (P : Prop) `{Decision P} m1 m2 : behind a id t m1 -> behind a id t m2 -> behind a id t (if decide P then m1 else m2).
Proof. intros. by case_decide. Qed.

Lemma behind_call a id t (m : M http_response) :
  (forall w t', transfers_ok (w_db w) -> db_transfers (w_db w) !! id = Some t' -> same_file t t' -> belongs a t' ->
     keeps (ft_BatchID t') w m (shows a w)) ->
  behind a id t (meanwhile ≫= fun _ => m).
Proof.
  intros Hm w Hok Hrow Hb. rewrite run_bind. pose proof (Hmeanwhile w Hok) as Hstep. destruct (meanwhile w) as [w1 []] eqn:E. simpl in Hstep.
  destruct (proj1 Hstep id t Hrow) as (t' & Hrow' & Hs%row_steps_same). pose proof (table_step_ok _ _ Hstep Hok) as Hok1.
  pose proof (belongs_same a t t' Hs Hb) as Hb'. destruct (Hm w1 t' Hok1 Hrow' Hs Hb' w1 (footprint_refl _ _)) as [Ho Hsh].
  exists w1. split; [apply rtc_once; right; by rewrite E|]. split; [|done]. right. left. exists id, t'. do 3 (split; [done|]). by eapply only_owner.
Qed.

Lemma error_plain requestID e : plain_content (writeFileTransferError ce requestID e).
Proof. done. Qed.

Lemma plain_shows a w r : plain_content r -> shows a w r.
Proof. unfold plain_content, shows. by destruct (rs_Content r). Qed.

Lemma mine_row w id t : db_transfers (w_db w) !! id = Some t -> mine (ft_BatchID t) w id.
Proof. intros H. by exists t. Qed.

Lemma known_belongs a w id t u : db_transfers (w_db w) !! id = Some t -> belongs a t -> known w id u -> belongs a u.
Proof. intros Hr Hb (r & Hr' & Hs). simplify_eq. by eapply belongs_same. Qed.

Lemma serveManifest_confined rq requestID a id w : transfers_ok (w_db w) ->
  confined a w (serveManifest c ce meanwhile rq requestID a id w).1 (Some (serveManifest c ce meanwhile rq requestID a id w).2).
Proof.
  intros Hok. unfold serveManifest. eapply confined_owned; [done|done|]. intros t. apply behind_if.
  { intros w1 _ Hr Hb. exists w1. split; [done|]. split; [by left|done]. }
  apply behind_if; [|by apply behind_plain]. apply behind_call. intros w1 t' Hok1 Hr' Hs Hb'.
  eapply keeps_bind; [apply keeps_Cancel; [done|by apply mine_row]|]. intros [e|] _; by apply keeps_ret.
Qed.

Lemma serveReceipt_confined rq requestID a id w : transfers_ok (w_db w) ->
  confined a w (serveReceipt c ce meanwhile rq requestID a id w).1 (Some (serveReceipt c ce meanwhile rq requestID a id w).2).
Proof.
  intros Hok. unfold serveReceipt. case_decide; [by apply confined_plain|]. eapply confined_owned; [done|done|]. intros t.
  destruct (receipt_Decode _) as [[code path]|]; [|by apply behind_plain]. destruct (validReceipt code path); [|by apply behind_plain].
  apply behind_call. intros w1 t' Hok1 Hr' Hs Hb'.
  eapply keeps_bind; [apply keeps_Receipt; [done|by apply mine_row]|]. intros [[]|e] _; by apply keeps_ret.
Qed.

Lemma serveComplete_confined rq requestID a id w : transfers_ok (w_db w) ->
  confined a w (serveComplete sha256 c ce meanwhile x rq requestID a id w).1 (Some (serveComplete sha256 c ce meanwhile x rq requestID a id w).2).
Proof.
  intros Hok. unfold serveComplete. case_decide; [by apply confined_plain|]. eapply confined_owned; [done|done|]. intros t.
  apply behind_call. intros w1 t' Hok1 Hr' Hs Hb'.
  eapply keeps_bind; [apply keeps_Complete; [done|by apply mine_row]|]. intros [u|e] Hu; [|by apply keeps_ret].
  specialize (Hu u eq_refl). pose proof (known_belongs a w1 id t' u Hr' Hb' Hu) as Hbu.
  case_decide; [|apply keeps_ret; split; [done|by left]].
  eapply keeps_bind; [apply keeps_PublishedPath; [done|by apply mine_row]|]. intros [p|e] Hp; [|by apply keeps_ret].
  destruct (Hp p eq_refl) as (v & Hv & ->). apply keeps_ret. split; [done|]. right.
  destruct Hu as (r & Hr & (U1 & _ & _ & _ & _ & U2 & _)), Hv as (r2 & Hr2 & (V1 & _ & _ & _ & _ & V2 & _)). simplify_eq.
  unfold publishedPath. congruence.
Qed.

Lemma acquire_still : still acquire.
Proof. intros w. unfold acquire. by case_decide. Qed.

Lemma os_Open_unchanged name w : unchanged w (os_Open name w).1 /\ forall ino, (os_Open name w).2 = Ok ino -> w_dir w !! name = Some ino.
Proof.
  unfold os_Open, syscall. rewrite run_bind. pose proof (next_fault_unchanged w) as Hn. destruct (next_fault w) as [w1 f]. simpl in *.
  destruct Hn as (H1 & H2 & H3). rewrite <- H2. destruct f; unfold mret, M_ret, mbind, M_bind; destruct (w_dir w1 !! name) eqn:E; simpl; (split; [done|]); intros ino Hi; congruence.
Qed.

Lemma serveContent_confined rq requestID a id w : transfers_ok (w_db w) ->
  confined a w (serveContent c ce meanwhile rq requestID a id w).1 (Some (serveContent c ce meanwhile rq requestID a id w).2).
Proof.
  intros Hok. unfold serveContent. eapply confined_owned; [done|done|]. intros t. apply behind_if; [by apply behind_plain|]. apply behind_if.
  { apply behind_if; [by apply behind_plain|]. destruct (Negotiation.Atoi _) as [offset|]; [|by apply behind_plain].
    apply behind_call. intros w1 t' Hok1 Hr' Hs Hb'. eapply keeps_bind; [apply keeps_signal|intros ? _].
    apply (keeps_bind _ _ _ _ any); [|intros [u|e] _; by apply keeps_ret]. unfold append_in_slot.
    eapply keeps_bind; [apply keeps_still, acquire_still|intros [] _]; [|by apply keeps_ret].
    eapply keeps_bind; [apply keeps_Append; [done|by apply mine_row]|intros ? _]. eapply keeps_bind; [by apply keeps_still|intros ? _]. by apply keeps_ret. }
  apply behind_if; [|by apply behind_plain]. apply behind_if; [by apply behind_plain|].
  intros w1 Hok1 Hr Hb. rewrite run_bind. pose proof (Hmeanwhile w1 Hok1) as Hstep. destruct (meanwhile w1) as [w2 []] eqn:E. simpl in Hstep.
  destruct (proj1 Hstep id t Hr) as (t' & Hr' & Hs%row_steps_same). pose proof (belongs_same a t t' Hs Hb) as Hb'.
  eapply confined_idle; [right; by rewrite E|]. exists w2. split; [done|].
  unfold OpenContent. rewrite !run_bind. destruct (read_transfer_unchanged id w2) as [Hu Hrt]. destruct (read_transfer id w2) as [w3 [u|e]]; simpl in Hu, Hrt.
  2:{ split; [by left|done]. }
  specialize (Hrt u eq_refl). destruct (finished (ft_State u)); [|split; [by left|done]].
  rewrite run_bind. destruct (os_Open_unchanged (contentPath id) w3) as [Hu3 Ho]. destruct (os_Open (contentPath id) w3) as [w4 [ino|e]]; simpl in Hu3, Ho.
  2:{ split; [left; by eapply unchanged_trans|done]. }
  split; [left; by eapply unchanged_trans|]. simplify_eq. exists id, t'. split; [done|]. split; [done|]. split; [|done].
  destruct Hu as (_ & <- & _). by apply Ho.
Qed.

Lemma Pending_spec now clientID sessionID w :
  unchanged w (Pending now clientID sessionID 10 w).1 /\
  forall ts, (Pending now clientID sessionID 10 w).2 = Ok ts -> Forall (fun t => ft_ClientID t = clientID /\ ft_SessionID t = sessionID) ts.
Proof.
  unfold Pending, db_read. rewrite run_bind. pose proof (next_fault_unchanged w) as Hn. destruct (next_fault w) as [w1 f]. simpl in *. split; [done|].
  intros ts. unfold PendingFileTransfers, reading. case_decide; [done|]. case_decide; [done|]. intros [= <-]. apply Forall_take, Forall_forall.
  intros t Ht. unfold select in Ht. rewrite merge_sort_Permutation in Ht. apply list_elem_of_filter in Ht as [Hp _].
  apply Is_true_eq_true, bool_decide_eq_true in Hp. tauto.
Qed.

Lemma pending_loop_confined a sessionID requestID wait polls :
  (au_SessionID a <> "" -> sessionID = au_SessionID a) -> forall now w,
  confined a w (pending_loop ce meanwhile (au_ClientID a) sessionID requestID wait now polls w).1
    (pending_loop ce meanwhile (au_ClientID a) sessionID requestID wait now polls w).2.
Proof.
  intros Hse. induction polls as [|[p t] polls IH]; intros now w; simpl; rewrite run_bind;
    destruct (Pending_spec now (au_ClientID a) sessionID w) as [Hu Hts]; destruct (Pending now (au_ClientID a) sessionID 10 w) as [w1 [[|t1 ts]|e]]; simpl in Hu, Hts;
    try (exists w; split; [done|]; split; [by left|done]).
  - case_decide; exists w; (split; [done|]); split; [by left|constructor|by left|done].
  - exists w. split; [done|]. split; [by left|]. unfold shows. simpl. eapply Forall_impl; [by apply Hts|]. simpl. intros u [H1 H2]. split; [done|]. intros Hn. rewrite H2. auto.
  - case_decide; [exists w; (split; [done|]); split; [by left|constructor]|]. destruct p.
    + eapply confined_idle; [by left|]. rewrite run_bind. destruct (meanwhile w1) as [w2 []] eqn:E. eapply confined_idle; [right; by rewrite E|]. apply IH.
    + exists w. split; [done|]. split; [by left|constructor].
    + exists w. split; [done|]. split; [by left|done].
  - exists w. split; [done|]. split; [by left|]. unfold shows. simpl. eapply Forall_impl; [by apply Hts|]. simpl. intros u [H1 H2]. split; [done|]. intros Hn. rewrite H2. auto.
Qed.

Lemma servePending_confined rq requestID a w :
  confined a w (servePending ce meanwhile x rq requestID a w).1 (servePending ce meanwhile x rq requestID a w).2.
Proof.
  unfold servePending. case_decide; [by apply confined_plain|]. case_decide as Hs; [by apply confined_plain|].
  destruct (Negotiation.Atoi _) as [wait|]; [|by apply confined_plain]. case_decide; [by apply confined_plain|].
  apply pending_loop_confined. intros Hn. destruct (decide (rq_Query rq "session_id" = au_SessionID a)); tauto.
Qed.

Lemma created_shows a w requestID r : shows a w (created_response requestID r).
Proof. unfold created_response. destruct r as [[o replay] [e|]]; [done|]. by case_decide. Qed.

Lemma take_match_spec p l t rest : take_match p l = Some (t, rest) -> p t = true /\ t ∈ l.
Proof.
  revert t rest. induction l as [|u l IH]; intros t rest; simpl; [done|]. destruct (p u) eqn:E.
  - intros [= <- _]. split; [done|by left].
  - destruct (take_match p l) as [[v r]|]; [|done]. intros [= <- _]. destruct (IH v r eq_refl) as [H1 H2]. split; [done|by right].
Qed.

Lemma match_files_spec a input files : forall existing ts, match_files c a input files existing = Some ts ->
  Forall (fun t => exists f, same_declaration c a input f t = true) ts.
Proof.
  induction files as [|f files IH]; intros existing ts; simpl; [by intros [= <-]|].
  destruct (take_match _ existing) as [[t rest]|] eqn:E; [|done]. destruct (match_files c a input files rest) as [l|] eqn:El; [|done].
  intros [= <-]. constructor; [|by eapply IH]. apply take_match_spec in E as [E _]. by exists f.
Qed.

Lemma create_input_spec a rq input : create_input c a rq = Some input ->
  (au_SessionID a <> "" -> ct_SessionID input = au_SessionID a) /\ ct_Direction input = "pb_to_pbh".
Proof.
  unfold create_input. case_decide; [done|]. destruct (_ ≫= _) as [i|]; [|done]. case_decide as Hn; [done|]. intros [= <-].
  simpl in Hn. split.
  - intros Hs. destruct (decide (ct_SessionID i = au_SessionID a)); tauto.
  - destruct (decide (ct_Direction i = "pb_to_pbh")) as [|Hd]; [done|]. exfalso. apply Hn. do 3 right. by apply bool_decide_eq_false.
Qed.

Lemma adds_view r w w1 w2 w3 : unchanged w w1 -> adds r w1 w2 -> db_transfers (w_db w3) = db_transfers (w_db w2) -> w_dir w3 = w_dir w2 -> adds r w w3.
Proof.
  intros (U1 & U2 & _) [A1 A2 A3] E1 E2. rewrite U1 in A1, A2. rewrite U2 in A3. split; rewrite ?E1, ?E2; [done|done|].
  intros name Hn. apply A3. intros (id & row & Hr & H). apply Hn. exists id, row. by rewrite E1.
Qed.

Lemma Execute_confined a input operationID request j w : transfers_ok (w_db w) ->
  let r := mkCreate (ct_BatchID input) (ct_Direction input) (ct_SessionID input) (au_ClientID a) (ct_Files input) in
  let res := Execute sha256 x operationID request (create_run ce x input (au_ClientID a)) j w in unchanged w res.1.2 \/ adds r w res.1.2.
Proof.
  intros Hok r. unfold Execute. pose proof (Execute_begin_transfers sha256 (in_begin x) (in_begin1 x) (in_begin2 x) j (w_db w) operationID request) as Hb.
  destruct (Execute_begin _ _ _ _ _ _ _ _) as [[j1 db1] [o replay err| |hash]]; simpl in *; [by left|by left|].
  assert (unchanged w (set_db db1 w)) as Hu by done. pose proof (unchanged_ok _ _ Hu Hok) as Hok1.
  unfold create_run. rewrite run_bind. pose proof (Create_adds (in_now x) (in_random x) r (set_db db1 w) Hok1) as Ha. fold r.
  destruct (Create (in_now x) (in_random x) r (set_db db1 w)) as [w2 res]. simpl in Ha. unfold mret, M_ret.
  lazymatch goal with |- context [Execute_finish ?f1 ?f2 ?n ?j ?d ?i ?h ?o] =>
    pose proof (Execute_finish_transfers f1 f2 n j d i h o) as Hf; destruct (Execute_finish f1 f2 n j d i h o) as [[j3 db3] [[o3 replay] err]] end.
  simpl in *. right. by eapply adds_view.
Qed.

Lemma serveCollection_confined rq requestID a j w : transfers_ok (w_db w) -> au_ClientID a <> "" ->
  let res := serveCollection sha256 c ce meanwhile x rq requestID a j w in confined a w res.1.2 (Some res.2).
Proof.
  intros Hok Hcl. unfold serveCollection. case_decide; [by apply confined_plain|]. destruct (create_input c a rq) as [input|] eqn:Ei; [|by apply confined_plain].
  destruct (create_input_spec a rq input Ei) as [Hse Hdir].
  assert (unchanged w (recoverBatch c a input w).1 /\ forall ts, (recoverBatch c a input w).2 = Some (Some ts) -> Forall (belongs a) ts) as [Hu Hts].
  { unfold recoverBatch, read_batch, db_read. rewrite !run_bind. pose proof (next_fault_unchanged w) as Hn. destruct (next_fault w) as [w1 f]. simpl in *.
    split; [done|]. intros ts. destruct (FileTransfersByBatch _ _ _) as [existing|]; [|done]. case_decide; [done|]. intros [= Hm%match_files_spec].
    eapply Forall_impl; [exact Hm|]. simpl. intros t (f' & (H1 & H2 & H3 & _)%bool_decide_eq_true). split.
    - destruct (decide (ft_ClientID t = au_ClientID a)); [done|tauto].
    - intros Hn'. rewrite H2. auto. }
  destruct (recoverBatch c a input w) as [w1 [[ts|]|]]; simpl in Hu, Hts.
  - exists w. split; [done|]. split; [by left|]. by apply Hts.
  - by apply confined_plain.
  - eapply confined_idle; [by left|]. pose proof (unchanged_ok _ _ Hu Hok) as Hok1. pose proof (table_step_ok _ _ (Hmeanwhile w1 Hok1) Hok1) as Hok2.
    destruct (meanwhile w1) as [w2 []] eqn:E. simpl in Hok2. eapply confined_idle; [right; by rewrite E|].
    unfold resolve_client. simpl. rewrite decide_False by done.
    lazymatch goal with |- context [Execute sha256 x ?o ?q ?m j w2] => pose proof (Execute_confined a input o q j w2 Hok2) as He; destruct (Execute sha256 x o q m j w2) as [[j3 w3] res] end.
    simpl in He. exists w2. split; [done|]. split.
    + destruct He as [He|He]; [by left|]. right. right. eexists. split; [exact He|done].
    + apply created_shows.
Qed.

End Confined.

(** ** Runs *)

Definition demo_transfer_json : TransferJson := {|
  create_Decode := fun l => if decide (l = [x31]) then Some (mkCreateTransfer "b" "pb_to_pbh" "s" [mkFile "a.txt" 2 (hex_digest Input.demo_hash [x61; x62])]) else None;
  receipt_Decode := fun _ => None;
  create_canonical := fun _ _ => [];
  created_Marshal := fun _ _ => Some [x31]
|}.
Definition demo_tokens : JsonValues := {| value_tokens := fun _ => mkDecoder [TScalar "1"] JEOF; value_text := fun _ => [x31] |}.
Definition demo_clients (token : string) : option (Frame -> option Authorization) :=
  if decide (token = "t1") then Some (fun _ => Some (mkAuthorization "bind1" "env" "u1" "c1" "" "" 0 None None None))
  else if decide (token = "t2") then Some (fun _ => Some (mkAuthorization "bind2" "env" "u2" "c2" "" "" 0 None None None)) else None.
Definition demo_http (method path token operation : string) : http_request :=
  mkHttpRequest method path (fun _ => "")
    (fun h => if decide (h = "Authorization") then ["Bearer " +:+ token] else if decide (h = HeaderOperationID) then [operation] else []) [BData [x31]].
Definition demo_inputs (random : byte) : inputs :=
  mkInputs 1 (replicate 16 random) (mkBeginFaults FNone FNone FNone) 1 1 FNone FNone 1 (no_outcome, false, None) [] 1 [].
Definition demo_ends : context_ends := mkContextEnds false (fun _ => false).

(** No other requests. *)
Definition nobody : M unit := fun w => (w, tt).

Definition demo_serve (random : byte) (faults : list fault) (rq : http_request) (s : Journal * world) : Journal * world * option http_response :=
  @ServeHTTP Input.demo_hash demo_tokens demo_transfer_json (public_config demo_clients) (fun _ => false) demo_ends nobody
    (demo_inputs random) rq s.1 (set_faults faults s.2).

Definition demo_new : Journal * world := (mkJournal 8 ∅ [] false 0 0, FileTransfer.New empty_DB DefaultPolicy).
Definition demo_create (token operation : string) : http_request := demo_http "POST" "/v1/file-transfers" token operation.
Definition demo_delete (token id : string) : http_request := demo_http "DELETE" ("/v1/file-transfers/" +:+ id) token "operation-d".

Definition demo_first : Journal * world := (demo_serve x01 [] (demo_create "t1" "operation-1") demo_new).1.
Definition demo_first_id : string := "ft_01010101010101010101010101010101".
Definition demo_second_id : string := "ft_02020202020202020202020202020202".
Definition demo_deleted : Journal * world * option http_response := demo_serve x01 [] (demo_delete "t1" demo_first_id) demo_first.
Definition state_of (id : string) (w : world) : option string := ft_State <$> db_transfers (w_db w) !! id.
Definition status_of (r : option http_response) : Z := default 0 (rs_Status <$> r).

Lemma demo_first_ok : transfers_ok (w_db demo_first.2).
Proof.
  assert (map_Forall (fun id r => ft_ID r = id /\ ft_State r = "created" /\ ft_CommittedOffset r = 0 /\ transfer_check r = true) (db_transfers (w_db demo_first.2))) as H.
  { apply (bool_decide_unpack _). by vm_compute. }
  intros id r Hr. destruct (H id r Hr) as (H1 & H2 & H3 & H4). split; [done|]. by apply (fresh_row_ok id).
Qed.


(** A lookup of a batch that fails is taken for a batch that is not there: the second client
    joins the batch of the first, and canceling its own transfer cancels that of the first. *)
Definition demo_joined : Journal * world * option http_response := demo_serve x02 [FBeforeCommit] (demo_create "t2" "operation-2") demo_first.
Definition demo_left : Journal * world * option http_response := demo_serve x02 [] (demo_delete "t2" demo_second_id) demo_joined.1.
Example failed_lookup_joins_batch :
  status_of (demo_serve x02 [] (demo_create "t2" "operation-2") demo_first).2 = 409 /\
  status_of demo_joined.2 = 201 /\ status_of demo_left.2 = 204 /\ state_of demo_first_id demo_left.1.2 = Some "canceled".
Proof. by vm_compute. Qed.
