(* ===== verification/HostService.v ===== *)
(** * The privileged service of the host ([internal/hostservice/server.go])

    The service keeps the computer awake or lets it sleep, as the enrolled user asks, and
    remembers the policy in a file.  It serves one connection at a time.  What it calls may
    work, fail, or be the last thing before the process dies: the write of the state file and
    the applier have a [fate].  The process can be stopped and started at any time. *)

From S2P Require Import Prelude Config.

(** ** Data *)

Definition ProtocolV1 : string := "paperboat.host-service/v1".
Definition AllowSleep : string := "allow_sleep".
Definition KeepAwake : string := "keep_awake".

Record ArtifactManifest := mkArtifact {
  am_Schema : string; am_Kind : string; am_Version : string; am_Platform : string; am_Architecture : string;
  am_URL : string; am_ByteLength : Z; am_SHA256 : string; am_Signature : string
}.

Record Request := mkRequest {
  rq_Schema : string; rq_Operation : string; rq_Mode : string; rq_Version : Z;
  rq_WorkerArtifact : option ArtifactManifest; rq_HostServiceArtifact : option ArtifactManifest
}.

Record State := mkState {
  st_Schema : string; st_DesiredMode : string; st_DesiredVersion : Z; st_ObservedMode : string; st_ObservedVersion : Z;
  st_ObservedAt : time; st_Status : string; st_ErrorCode : string
}.

Record Response := mkResponse {
  re_Status : string; re_DesiredMode : string; re_DesiredVersion : Z; re_ObservedMode : string; re_ObservedVersion : Z;
  re_ObservedAt : time; re_ErrorCode : string; re_HostServiceVersion : string; re_UpdateVersion : string; re_UpdateRollbacks : Z
}.

Definition validMode (mode : string) : bool := bool_decide (mode = AllowSleep \/ mode = KeepAwake).
Definition validStatus (status : string) : bool := bool_decide (status = "applied" \/ status = "pending" \/ status = "error").

(** [encoding/json] on the state: the encoder, and the decoder that refuses unknown fields. *)
Class StateJson := { state_Marshal : State -> list byte; state_Decode : list byte -> option State }.

(** What is written is read back, and is short: the texts are short, the versions are 64-bit
    integers, and the time has a year of four digits. *)
Definition short_text (s : string) : Prop := (String.length s <= 64)%nat.
Definition year_ok (t : time) : Prop := - 2 ^ 70 < t < 2 ^ 70.
Record encodable (s : State) : Prop := {
  enc_schema : short_text (st_Schema s); enc_mode : short_text (st_DesiredMode s); enc_observed : short_text (st_ObservedMode s);
  enc_status : short_text (st_Status s); enc_code : short_text (st_ErrorCode s);
  enc_version : 0 <= st_DesiredVersion s < two63; enc_observed_version : 0 <= st_ObservedVersion s < two63;
  enc_time : year_ok (st_ObservedAt s)
}.
Class StateJsonLaws `{StateJson} : Prop := {
  state_roundtrip : forall s, encodable s -> state_Decode (state_Marshal s) = Some s;
  state_short : forall s, encodable s -> len (state_Marshal s) <= 16384
}.

(** ** The process *)

Inductive fate := Works | Fails | Dies | DiesAfter.
Inductive ended := Returned (ok : bool) | Died.
#[global] Instance ended_eq_dec : EqDecision ended.
Proof. solve_decision. Defined.

(** The state of the process, its file, and the calls of the applier with their success. *)
Record host := mkHost { h_state : State; h_file : option (list byte); h_calls : list (string * Z * bool) }.

Section Server.
Context `{SJ : StateJson}.

Definition with_state (s : State) (h : host) : host := mkHost s (h_file h) (h_calls h).

(** The write to a temporary file that is renamed. *)
Definition persistLocked (f : fate) (h : host) : host * ended :=
  let written := mkHost (h_state h) (Some (state_Marshal (h_state h))) (h_calls h) in
  match f with Works => (written, Returned true) | Fails => (h, Returned false) | Dies => (h, Died) | DiesAfter => (written, Died) end.

Definition applier_Apply (f : fate) (h : host) : host * ended :=
  let s := h_state h in
  let called ok := mkHost s (h_file h) (h_calls h ++ [(st_DesiredMode s, st_DesiredVersion s, ok)]) in
  match f with Works => (called true, Returned true) | Fails => (called false, Returned false) | Dies => (h, Died) | DiesAfter => (called false, Died) end.

Definition pending (mode : string) (version : Z) (s : State) : State :=
  mkState (st_Schema s) mode version (st_ObservedMode s) (st_ObservedVersion s) (st_ObservedAt s) "pending" "".
Definition observed (now : time) (status code : string) (s : State) : State :=
  mkState (st_Schema s) (st_DesiredMode s) (st_DesiredVersion s) (st_DesiredMode s) (st_DesiredVersion s) now status code.

(** The fates of the three calls of [apply]; no one else changes the state meanwhile. *)
Record fates := mkFates { ft_before : fate; ft_apply : fate; ft_after : fate }.

Definition apply (fs : fates) (now : time) (mode : string) (version : Z) (h : host) : host * ended :=
  match persistLocked (ft_before fs) (with_state (pending mode version (h_state h)) h) with
  | (h, Returned true) =>
      match applier_Apply (ft_apply fs) h with
      | (h, Died) => (h, Died)
      | (h, Returned false) =>
          match persistLocked (ft_after fs) (with_state (observed now "error" "availability_apply_failed" (h_state h)) h) with
          | (h, Died) => (h, Died)
          | (h, Returned _) => (h, Returned false)
          end
      | (h, Returned true) => persistLocked (ft_after fs) (with_state (observed now "applied" "" (h_state h)) h)
      end
  | r => r
  end.

Definition new_state : State := mkState ProtocolV1 KeepAwake 0 "" 0 zero_time "pending" "".

(** [load]: [None] when there is no file. *)
Definition load (file : option (list byte)) : result unit (option State) :=
  match file with
  | None => Ok None
  | Some body =>
      if decide (len body > 16384) then Err tt
      else match state_Decode body with
           | Some s =>
               if decide (st_Schema s <> ProtocolV1 \/ validMode (st_DesiredMode s) = false \/ st_DesiredVersion s < 0 \/ validStatus (st_Status s) = false)
               then Err tt else Ok (Some s)
           | None => Err tt
           end
  end.

(** [New] with a valid configuration. *)
Definition New (file : option (list byte)) : result unit State :=
  match load file with Ok (Some s) => Ok s | Ok None => Ok new_state | Err e => Err e end.

(** [Run] up to its first connection. *)
Definition run_begin (fs : fates) (now : time) (h : host) : host * ended :=
  if decide (st_DesiredMode (h_state h) = KeepAwake) then apply fs now KeepAwake (st_DesiredVersion (h_state h)) h else (h, Returned true).

(** ** A connection *)

(** What comes from outside: the build of the service, the count of rollbacks, and what
    [Activate] answers ([None]: no updates are configured). *)
Record service_inputs := mkServiceInputs {
  si_version : string; si_rollbacks : Z; si_activate : option (ArtifactManifest -> ArtifactManifest -> option string)
}.
Context (x : service_inputs).

Definition response (s : State) : Response :=
  mkResponse (st_Status s) (st_DesiredMode s) (st_DesiredVersion s) (st_ObservedMode s) (st_ObservedVersion s) (st_ObservedAt s) (st_ErrorCode s)
    (si_version x) "" (si_rollbacks x).
Definition errorResponse (code : string) (s : State) : Response :=
  mkResponse (st_Status s) (st_DesiredMode s) (st_DesiredVersion s) (st_ObservedMode s) (st_ObservedVersion s) (st_ObservedAt s) code
    (si_version x) "" (si_rollbacks x).
Definition with_update (version : string) (r : Response) : Response :=
  mkResponse (re_Status r) (re_DesiredMode r) (re_DesiredVersion r) (re_ObservedMode r) (re_ObservedVersion r) (re_ObservedAt r) (re_ErrorCode r)
    (re_HostServiceVersion r) version (re_UpdateRollbacks r).

(** [serve] for the user [uid] of the configuration and a peer ([None]: unknown); [request] is
    the one value the connection sends ([None]: it sends none, more than one, or a malformed
    one).  [None] as response: nothing is written. *)
Definition serve (uid : Z) (peer : option Z) (request : option Request) (fs : fates) (now : time) (h : host) : host * ended * option Response :=
  let invalid := (h, Returned true, Some (errorResponse "invalid_request" (h_state h))) in
  if decide (peer <> Some uid) then (h, Returned false, None)
  else match request with
  | None => invalid
  | Some r =>
      if decide (rq_Schema r <> ProtocolV1) then invalid
      else if decide (rq_Operation r = "diagnostics") then
        if decide (rq_Mode r <> "" \/ rq_Version r <> 0 \/ rq_WorkerArtifact r <> None \/ rq_HostServiceArtifact r <> None) then invalid
        else (h, Returned true, Some (response (h_state h)))
      else if decide (rq_Operation r = "activate_update") then
        match rq_WorkerArtifact r, rq_HostServiceArtifact r, si_activate x with
        | Some worker, Some service, Some activate =>
            if decide (rq_Mode r <> "" \/ rq_Version r <> 0) then invalid
            else match activate worker service with
                 | None => (h, Returned true, Some (errorResponse "update_activation_failed" (h_state h)))
                 | Some version => (h, Returned true, Some (with_update version (errorResponse "" (h_state h))))
                 end
        | _, _, _ => invalid
        end
      else if decide (rq_Operation r <> "apply_availability" \/ rq_WorkerArtifact r <> None \/ rq_HostServiceArtifact r <> None \/
                      validMode (rq_Mode r) = false \/ rq_Version r < 0) then invalid
      else
        let current := h_state h in
        if decide (rq_Version r < st_DesiredVersion current \/ rq_Version r = st_DesiredVersion current /\ rq_Mode r <> st_DesiredMode current)
        then (h, Returned true, Some (errorResponse "stale_policy" current))
        else if decide (rq_Version r = st_DesiredVersion current /\ st_Status current = "applied")
        then (h, Returned true, Some (response current))
        else match apply fs now (rq_Mode r) (rq_Version r) h with
             | (h, Died) => (h, Died, None)
             | (h, Returned _) => (h, Returned true, Some (response (h_state h)))
             end
  end.
End Server.

(** ** Runs of the service *)

Section Runs.
Context {SJ : StateJson} {L : StateJsonLaws}.

(** Whether the process runs, and the host. *)
Inductive host_step : bool * host -> bool * host -> Prop :=
| host_start h s fs now h' r :
    year_ok now -> New (h_file h) = Ok s -> run_begin fs now (with_state s h) = (h', r) ->
    host_step (false, h) (bool_decide (r = Returned true), h')
| host_serve h x uid peer request fs now h' r answer :
    year_ok now -> (forall q, request = Some q -> rq_Version q < two63) ->
    serve x uid peer request fs now h = (h', r, answer) -> host_step (true, h) (bool_decide (r <> Died), h')
| host_stop up h : host_step (up, h) (false, h).

Definition policy_le (p q : string * Z) : Prop := p.2 < q.2 \/ p = q.
Definition policy (s : State) : string * Z := (st_DesiredMode s, st_DesiredVersion s).
Definition disk_state (h : host) : State :=
  match h_file h with Some body => default new_state (state_Decode body) | None => new_state end.

Record good (s : State) : Prop := {
  good_schema : st_Schema s = ProtocolV1;
  good_mode : validMode (st_DesiredMode s) = true;
  good_version : 0 <= st_DesiredVersion s < two63;
  good_seen : 0 <= st_ObservedVersion s < two63;
  good_time : year_ok (st_ObservedAt s);
  good_status : validStatus (st_Status s) = true;
  good_observed : st_ObservedMode s = "" \/ validMode (st_ObservedMode s) = true;
  good_code : st_ErrorCode s = "" \/ st_ErrorCode s = "availability_apply_failed"
}.

(** A state that says that its policy is applied was the last to be applied, with success. *)
Definition truthful (h : host) (s : State) : Prop := st_Status s = "applied" -> last (h_calls h) = Some (policy s, true).

Record disk_ok (h : host) : Prop := {
  disk_file : h_file h = None \/ exists s, h_file h = Some (state_Marshal s) /\ encodable s;
  disk_good : good (disk_state h);
  disk_calls : StronglySorted policy_le (h_calls h).*1;
  disk_last : Forall (fun c => policy_le c.1 (policy (disk_state h))) (h_calls h);
  disk_true : truthful h (disk_state h)
}.

Record memory_ok (h : host) : Prop := {
  memory_good : good (h_state h);
  memory_above : policy_le (policy (disk_state h)) (policy (h_state h));
  memory_true : truthful h (h_state h)
}.

#[global] Instance policy_le_preorder : PreOrder policy_le.
Proof.
  split; [intros p; by right|]. intros p q r [H1|<-] [H2|<-]; [left; lia|by left|by left|by right].
Qed.

Lemma valid_short mode : validMode mode = true -> short_text mode.
Proof. intros [->| ->]%bool_decide_eq_true; unfold short_text; simpl; lia. Qed.

Lemma good_encodable s : good s -> encodable s.
Proof.
  intros [G1 G2 G3 G3' G3'' G4 G5 G6]. split; try done.
  - rewrite G1. unfold short_text. simpl. lia.
  - by apply valid_short.
  - destruct G5 as [->|]; [unfold short_text; simpl; lia|by apply valid_short].
  - apply bool_decide_eq_true in G4 as [->|[->| ->]]; unfold short_text; simpl; lia.
  - destruct G6 as [->| ->]; unfold short_text; simpl; lia.
Qed.

Lemma disk_written s h calls : good h -> disk_state (mkHost s (Some (state_Marshal h)) calls) = h.
Proof. intros Hg. unfold disk_state. simpl. by rewrite state_roundtrip by (by apply good_encodable). Qed.

Lemma disk_ok_state s h : disk_ok h -> disk_ok (with_state s h).
Proof. by intros [D1 D2 D3 D4 D5]. Qed.

(** A host whose file can be read. *)
Lemma New_ok h : disk_ok h -> New (h_file h) = Ok (disk_state h).
Proof.
  intros [Hf Hg _ _ _]. unfold New, load, disk_state in *. destruct Hf as [->|(s & Hs & He)]; [done|]. rewrite Hs in Hg |- *. rewrite state_roundtrip in Hg |- * by done.
  simpl in Hg |- *. rewrite decide_False by (pose proof (state_short s He); lia). destruct Hg as [G1 G2 G3 _ _ G4 _ _]. rewrite decide_False; [done|].
  rewrite G2, G4. intros [H|[H|[H|H]]]; [done|done|lia|done].
Qed.

(** Writing the state in memory. *)
Lemma persist_ok f h h' r : disk_ok h -> memory_ok h -> persistLocked f h = (h', r) ->
  disk_ok h' /\ memory_ok h' /\ h_calls h' = h_calls h /\ h_state h' = h_state h /\ (r = Returned true -> disk_state h' = h_state h).
Proof.
  intros Hd Hm H. pose proof Hd as [D1 D2 D3 D4 D5]. pose proof Hm as [M1 M2 M3].
  set (h1 := mkHost (h_state h) (Some (state_Marshal (h_state h))) (h_calls h)).
  assert (disk_state h1 = h_state h) as E by (by apply disk_written).
  assert (disk_ok h1 /\ memory_ok h1) as [Hd1 Hm1].
  { split; split; rewrite ?E; try done; [right; eexists; split; [done|by apply good_encodable]|]. eapply Forall_impl; [exact D4|]. intros c Hc. simpl in *. by etrans. }
  unfold persistLocked in H. destruct f; simplify_eq; fold h1; (split; [done|]); (split; [done|]); (split; [done|]); (split; [done|]); done.
Qed.

Lemma apply_ok fs now mode version h h' r :
  disk_ok h -> memory_ok h -> policy_le (policy (h_state h)) (mode, version) -> validMode mode = true -> 0 <= version < two63 -> year_ok now ->
  apply fs now mode version h = (h', r) -> disk_ok h' /\ memory_ok h'.
Proof.
  intros Hd Hm Hle Hmode Hver Hyear H. unfold apply in H.
  set (h1 := with_state (pending mode version (h_state h)) h) in H.
  assert (disk_ok h1) as Hd1 by (by apply disk_ok_state).
  assert (memory_ok h1) as Hm1.
  { destruct Hm as [[G1 G2 G3 G3' G3'' G4 G5 G6] M2 M3]. split; [split; simpl; try done; by left| |done]. simpl. etrans; [exact M2|exact Hle]. }
  destruct (persistLocked (ft_before fs) h1) as [h2 e2] eqn:E2. destruct (persist_ok _ _ _ _ Hd1 Hm1 E2) as (Hd2 & Hm2 & C2 & S2 & W2).
  destruct e2 as [[]|]; [|by simplify_eq|by simplify_eq]. specialize (W2 eq_refl).
  assert (forall ok, let h3 := mkHost (h_state h2) (h_file h2) (h_calls h2 ++ [(mode, version, ok)]) in
    disk_ok h3 /\ memory_ok h3) as Hcall.
  { intros ok h3. assert (disk_state h3 = h_state h1) as E3 by exact W2. destruct Hd2 as [D1 D2 D3 D4 D5]. destruct Hm2 as [M1 M2 M3]. split.
    - split; rewrite ?E3; [done|by rewrite <- W2| | |by unfold truthful].
      + simpl. rewrite fmap_app. apply StronglySorted_app_2; [|done|apply SSorted_cons; [constructor|constructor]]. intros x y Hx ->%list_elem_of_singleton.
        apply list_elem_of_fmap in Hx as (c & -> & Hc). rewrite Forall_forall in D4. specialize (D4 c Hc). by rewrite W2 in D4.
      + simpl. apply Forall_app. rewrite W2 in D4. split; [done|]. constructor; [by right|constructor].
    - split; [done|change (h_state h3) with (h_state h2); by rewrite E3, S2|]. unfold truthful. change (h_state h3) with (h_state h2). by rewrite S2. }
  assert (forall ok status code, (ok = true \/ status <> "applied") -> validStatus status = true -> (code = "" \/ code = "availability_apply_failed") ->
    let h4 := mkHost (observed now status code (h_state h2)) (h_file h2) (h_calls h2 ++ [(mode, version, ok)]) in disk_ok h4 /\ memory_ok h4) as Hobs.
  { intros ok status code Hok Hst Hcode h4. destruct (Hcall ok) as [Hd3 [[G1 G2 G3 G3' G3'' G4 G5 G6] M2 M3]]. split; [exact (disk_ok_state (observed now status code (h_state h2)) _ Hd3)|]. simpl in *.
    split; [split; simpl; try done; by right|exact M2|]. intros Happ. simpl in Happ. simpl. rewrite last_snoc. destruct Hok as [->|]; [|done].
    unfold policy, observed. simpl. rewrite S2. done. }
  unfold applier_Apply in H. rewrite S2 in H. simpl in H. rewrite S2 in Hcall, Hobs. destruct (ft_apply fs); simpl in H.
  - destruct (Hobs true "applied" "") as [Ha Hb]; [by left|done|by left|]. by destruct (persist_ok _ _ _ _ Ha Hb H) as (? & ? & _).
  - destruct (Hobs false "error" "availability_apply_failed") as [Ha Hb]; [by right|done|by right|].
    destruct (persistLocked (ft_after fs) _) as [h5 e5] eqn:E5. destruct (persist_ok _ _ _ _ Ha Hb E5) as (? & ? & _). destruct e5; by simplify_eq.
  - by simplify_eq.
  - simplify_eq. apply Hcall.
Qed.

Definition host_ok (m : bool * host) : Prop := disk_ok m.2 /\ (m.1 = true -> memory_ok m.2).

Lemma loaded_ok h : disk_ok h -> disk_ok (with_state (disk_state h) h) /\ memory_ok (with_state (disk_state h) h).
Proof.
  intros Hd. split; [by apply disk_ok_state|]. split; [apply (disk_good _ Hd)|by right|apply (disk_true _ Hd)].
Qed.

Lemma host_step_ok m m' : host_step m m' -> host_ok m -> host_ok m'.
Proof.
  unfold host_ok. intros Hs [Hd Hm]. destruct Hs as [h s fs now h' r Hy Hn Hr|h x uid peer request fs now h' r answer Hy Hq Hserve|up h]; simpl in Hd, Hm.
  - rewrite (New_ok h Hd) in Hn. simplify_eq. destruct (loaded_ok h Hd) as [Hd1 Hm1]. unfold run_begin in Hr. case_decide as Hk; [|simplify_eq; by split].
    destruct (apply_ok fs now KeepAwake (st_DesiredVersion (disk_state h)) _ h' r Hd1 Hm1) as [? ?]; [|done|apply (disk_good _ Hd)|done|done|by split].
    right. unfold policy. simpl in *. by rewrite Hk.
  - specialize (Hm eq_refl). unfold serve in Hserve. cbv zeta in Hserve. case_decide; [by simplify_eq|]. destruct request as [q|]; [|by simplify_eq].
    case_decide; [by simplify_eq|]. case_decide; [case_decide; by simplify_eq|]. case_decide.
    { destruct (rq_WorkerArtifact q), (rq_HostServiceArtifact q), (si_activate x) as [act|]; try by simplify_eq. case_decide; [by simplify_eq|].
      destruct (act _ _); by simplify_eq. }
    case_decide as Hv; [by simplify_eq|]. case_decide as Hst; [by simplify_eq|]. case_decide; [by simplify_eq|].
    destruct (apply fs now (rq_Mode q) (rq_Version q) h) as [h1 e1] eqn:Ea. destruct (apply_ok fs now (rq_Mode q) (rq_Version q) h h1 e1 Hd Hm) as [? ?]; [| | |done|exact Ea|].
    + unfold policy_le, policy. simpl. destruct (decide (st_DesiredVersion (h_state h) < rq_Version q)); [by left|]. right. f_equal; [|lia].
      destruct (decide (rq_Mode q = st_DesiredMode (h_state h))); [done|]. exfalso. apply Hst. right. split; [lia|done].
    + destruct (validMode (rq_Mode q)); [done|tauto].
    + specialize (Hq q eq_refl). lia.
    + destruct e1; by simplify_eq.
  - by split.
Qed.

Lemma fresh_ok : host_ok (false, mkHost new_state None []).
Proof.
  split; [|done]. split; simpl; [by left| |constructor|constructor|done]. split; simpl; try done; by left.
Qed.

End Runs.

(** ** A run *)

(** An encoding of states: texts with their length in one byte, numbers in ten bytes. *)
Definition put_text (s : string) : list byte := be_put 1 (Z.of_nat (String.length s)) ++ String.list_byte_of_string s.
Definition get_text (l : list byte) : string * list byte :=
  let n := Z.to_nat (be_get (take 1 l)) in (String.string_of_list_byte (take n (drop 1 l)), drop (S n) l).
Definition put_number (z : Z) : list byte := be_put 10 (z + 2 ^ 79).
Definition get_number (l : list byte) : Z * list byte := (be_get (take 10 l) - 2 ^ 79, drop 10 l).

Definition demo_state_json : StateJson := {|
  state_Marshal := fun s => put_text (st_Schema s) ++ put_text (st_DesiredMode s) ++ put_number (st_DesiredVersion s) ++ put_text (st_ObservedMode s) ++
    put_number (st_ObservedVersion s) ++ put_number (st_ObservedAt s) ++ put_text (st_Status s) ++ put_text (st_ErrorCode s);
  state_Decode := fun l =>
    let '(schema, l) := get_text l in let '(mode, l) := get_text l in let '(version, l) := get_number l in let '(observed, l) := get_text l in
    let '(seen, l) := get_number l in let '(at_, l) := get_number l in let '(status, l) := get_text l in let '(code, l) := get_text l in
    match l with [] => Some (mkState schema mode version observed seen at_ status code) | _ => None end
|}.

Lemma length_text s : length (String.list_byte_of_string s) = String.length s.
Proof. unfold String.list_byte_of_string. rewrite length_map. induction s as [|a s IH]; [done|]. simpl. by rewrite IH. Qed.

Lemma get_put_text s l : short_text s -> get_text (put_text s ++ l) = (s, l).
Proof.
  unfold short_text. intros Hs. unfold get_text, put_text. rewrite <- app_assoc. rewrite (take_app_length' (be_put 1 _)) by (by rewrite length_be_put).
  rewrite be_get_put_small by (change (256 ^ Z.of_nat 1) with 256; lia). rewrite Nat2Z.id.
  change (S (String.length s)) with (1 + String.length s)%nat. rewrite <- drop_drop.
  rewrite (drop_app_length' (be_put 1 _) _ 1) by (by rewrite length_be_put).
  rewrite (take_app_length' (String.list_byte_of_string s) l), (drop_app_length' (String.list_byte_of_string s) l) by (symmetry; apply length_text).
  by rewrite String.string_of_list_byte_of_string.
Qed.

Lemma get_put_number z l : - 2 ^ 79 <= z < 2 ^ 79 -> get_number (put_number z ++ l) = (z, l).
Proof.
  intros Hz. unfold get_number, put_number. rewrite take_app_length' by (by rewrite length_be_put). rewrite drop_app_length' by (by rewrite length_be_put).
  rewrite be_get_put_small by (change (256 ^ Z.of_nat 10) with (2 ^ 79 + 2 ^ 79); lia). f_equal. lia.
Qed.

Lemma demo_state_laws : @StateJsonLaws demo_state_json.
Proof.
  split.
  - intros s [E1 E2 E3 E4 E5 E6 E7 E8]. unfold year_ok, two63 in *. cbn [state_Decode state_Marshal demo_state_json]. rewrite (get_put_text (st_Schema s)) by done. rewrite (get_put_text (st_DesiredMode s)) by done.
    rewrite (get_put_number (st_DesiredVersion s)) by lia. rewrite (get_put_text (st_ObservedMode s)) by done. rewrite (get_put_number (st_ObservedVersion s)) by lia.
    rewrite (get_put_number (st_ObservedAt s)) by lia. rewrite (get_put_text (st_Status s)) by done.
    rewrite <- (app_nil_r (put_text (st_ErrorCode s))). rewrite get_put_text by done. by destruct s.
  - intros s [E1 E2 E3 E4 E5 E6 E7 E8]. unfold short_text in *. cbn [state_Marshal demo_state_json]. unfold put_text, put_number.
    rewrite !length_app, !length_be_put, !length_text. lia.
Qed.

(** The policy "allow sleep" of version 3 is applied, then the process is stopped and started
    again; a request for version 2 is stale. *)
Definition demo_ask (mode : string) (version : Z) : option Request := Some (mkRequest ProtocolV1 "apply_availability" mode version None None).
Definition demo_service : service_inputs := mkServiceInputs "1" 0 None.
Definition all_work : fates := mkFates Works Works Works.
Definition demo_host0 : host := mkHost new_state None [].
Definition demo_host1 : host := (@run_begin demo_state_json all_work 5 demo_host0).1.
Definition demo_host2 : host := (@serve demo_state_json demo_service 501 (Some 501) (demo_ask AllowSleep 3) all_work 7 demo_host1).1.1.
Definition demo_host3 : host := (@serve demo_state_json demo_service 501 (Some 501) (demo_ask KeepAwake 2) all_work 9 demo_host2).1.1.

Lemma demo_host_run : rtc (@host_step demo_state_json) (false, demo_host0) (true, demo_host3).
Proof.
  eapply rtc_l; [apply (@host_start demo_state_json demo_host0 new_state all_work 5 demo_host1 (Returned true)); [by vm_compute|done|by vm_compute]|].
  eapply rtc_l; [eapply (@host_serve demo_state_json demo_host1 demo_service 501 (Some 501) (demo_ask AllowSleep 3) all_work 7 demo_host2);
    [by vm_compute|by intros q [= <-]|vm_compute; reflexivity]|].
  eapply rtc_l; [eapply (@host_serve demo_state_json _ demo_service 501 (Some 501) (demo_ask KeepAwake 2) all_work 9 demo_host3);
    [by vm_compute|by intros q [= <-]|vm_compute; reflexivity]|].
  apply rtc_refl.
Qed.

