(* ===== verification/Manifest.v ===== *)
(** * Manifest and snapshot of configuration sync ([internal/configsync/manifest.go],
    [snapshot.go], [policy.go])

    The include file of a repository names files and directories of the home directory; the
    ignore file takes paths out of them.  A snapshot walks over the home directory, leaves
    out the directories that cannot hold anything managed, and records the state of each
    managed file, within limits.  The matchers of "doublestar" and of the ignore patterns
    are parameters.  A directory is a tree with its entries in the order of the walk; what
    reading a file gives is part of its entry. *)

From S2P Require Import Prelude Base64 Paths Frame Reconcile FileTree ApplyJournal TransferHttp.

(** ** Paths *)

Definition path_Clean (p : string) : string := if is_abs p then filepath_Clean p else clean_relative p.

Definition backslash : ascii := ascii_of_nat 92.
Definition to_slashes (s : string) : string :=
  String.string_of_list_ascii ((fun a => if decide (a = backslash) then "/"%char else a) <$> String.list_ascii_of_string s).
Definition contains_char (a : ascii) (s : string) : bool := bool_decide (a ∈ String.list_ascii_of_string s).

Definition safeManifestPath (name : string) : bool :=
  bool_decide (name <> "" /\ name = path_Clean name /\ is_abs name = false /\ contains_char backslash name = false /\
    contains_char (ascii_of_nat 0) name = false /\ name <> ".." /\ HasPrefix name "../" = false /\ ".." ∉ tail (removelast (split_at "/" name))) &&
  match split_at "/" name with
  | first :: _ => bool_decide ((String.length first < 2)%nat \/ String.get 1 first <> Some ":"%char)
  | [] => true
  end.

(** The path and the directories above it, the path first. *)
Definition join_path (l : list string) : string := String.concat "/" l.
Definition and_above (p : string) : list string :=
  let l := split_at "/" p in rev ((fun n => join_path (take (S n) l)) <$> seq 0 (length l)).

Definition requiredMandatoryExclusions : list string :=
  [".git"; "**/.git"; ".paperboat"; "**/.paperboat"; ".config/paperboat"; ".config/paperboat/**"; ".local/bin/pbh";
   ".config/systemd/user/paperboat-helper.service"; ".config/systemd/user/default.target.wants/paperboat-helper.service";
   "Library/LaunchAgents/com.pinksaucepasta.paperboat-helper.plist"; ".ssh"; "**/.ssh"; ".gnupg"; "**/.gnupg"; ".aws"; "**/.aws";
   ".kube"; "**/.kube"; ".docker/config.json"; ".git-credentials"; "**/.git-credentials"; ".netrc"; "**/.netrc"; ".env"; ".env.*";
   "**/.env"; "**/.env.*"; "**/credentials"; "**/credentials.*"; "**/*.db"; "**/*.sqlite"; "**/*.log"; "**/*.tmp"; "**/*_history"].

Record ManifestRoot := mkRoot { mr_Path : string; mr_Directory : bool }.

(** [Pattern.Match]: [Some true] excludes, [Some false] includes again. *)
Record Manifest := mkManifest { mf_Roots : list ManifestRoot; mf_patterns : list (list string -> bool -> option bool) }.

Section Matching.
(** [doublestar.Match] without an error. *)
Variable doublestar : string -> string -> bool.

Definition below (p root : string) : bool := HasPrefix p (root +:+ "/").

Definition mandatoryExcluded (exclusionRoots : list string) (path : string) : bool :=
  let path := path_Clean path in
  if decide (path = "." \/ HasPrefix path "../" = true \/ HasPrefix path "/" = true) then true
  else
    existsb (fun root => let root := path_Clean root in
      bool_decide (root <> "." /\ root <> ".." /\ HasPrefix root "../" = false) && (bool_decide (path = root) || below path root)) exclusionRoots ||
    existsb (fun pattern => existsb (doublestar pattern) (and_above path)) requiredMandatoryExclusions.

Definition manifestHardExcluded (name : string) : bool := mandatoryExcluded [] (path_Clean name).

Definition selected (name : string) (r : ManifestRoot) : bool :=
  bool_decide (name = mr_Path r) || mr_Directory r && below name (mr_Path r).

Definition Manages (m : Manifest) (name : string) (isDir : bool) : bool :=
  let name := path_Clean (to_slashes name) in
  if decide (name = "." \/ safeManifestPath name = false \/ manifestHardExcluded name = true) then false
  else if negb (existsb (selected name) (mf_Roots m)) then false
  else
    let parts := split_at "/" name in
    negb (foldl (fun ignored pattern => default ignored (pattern parts isDir)) false (mf_patterns m)).

Definition MayManageDescendant (m : Manifest) (name : string) : bool :=
  let name := path_Clean (to_slashes name) in
  if decide (name = "." \/ safeManifestPath name = false \/ manifestHardExcluded name = true) then false
  else existsb (fun r => mr_Directory r && (bool_decide (mr_Path r = name) || below (mr_Path r) name || below name (mr_Path r))) (mf_Roots m).

(** ** The include file *)

Inductive manifest_error := ErrManifestInvalid | ErrManifestUnsafePath.
Record ManifestLimits := mkLimits { ml_MaxBytes : Z; ml_MaxLines : Z; ml_MaxPatternBytes : Z }.

Definition CR : ascii := ascii_of_nat 13.
Definition LF : ascii := ascii_of_nat 10.
Fixpoint drop_cr (l : list ascii) : list ascii :=
  match l with
  | a :: ((b :: _) as l') => if decide (a = CR /\ b = LF) then drop_cr l' else a :: drop_cr l'
  | _ => l
  end.

Definition manifestLines (value : string) (limits : ManifestLimits) : result manifest_error (list string) :=
  let value := String.string_of_list_ascii (drop_cr (String.list_ascii_of_string value)) in
  if contains_char CR value then Err ErrManifestInvalid
  else
    let lines := split_at LF value in
    if decide (len lines > ml_MaxLines limits + 1 \/ len lines = ml_MaxLines limits + 1 /\ last lines <> Some "") then Err ErrManifestInvalid
    else if existsb (fun line => bool_decide (slen line > ml_MaxPatternBytes limits)) lines then Err ErrManifestInvalid else Ok lines.

(** One line: nothing, or a path and whether it is a directory. *)
Definition HasSuffix (s suffix : string) : bool :=
  bool_decide (String.list_ascii_of_string suffix `suffix_of` String.list_ascii_of_string s).
Definition include_line (line : string) : result manifest_error (option ManifestRoot) :=
  let line := strings_TrimSpace line in
  if decide (line = "" \/ HasPrefix line "#" = true) then Ok None
  else
    let directory := HasSuffix line "/" in
    let line := if directory then String.string_of_list_ascii (removelast (String.list_ascii_of_string line)) else line in
    if decide (contains_char "*" line = true \/ contains_char "?" line = true \/ contains_char "[" line = true \/ safeManifestPath line = false)
    then Err ErrManifestUnsafePath
    else if manifestHardExcluded line then Err ErrManifestUnsafePath
    else Ok (Some (mkRoot line directory)).

(** The map by path: a directory takes the place of a file. *)
Definition add_root (r : ManifestRoot) (byPath : gmap string bool) : gmap string bool :=
  match byPath !! mr_Path r with
  | None => <[mr_Path r := mr_Directory r]> byPath
  | Some previous => if mr_Directory r && negb previous then <[mr_Path r := true]> byPath else byPath
  end.
Fixpoint include_lines (lines : list string) (byPath : gmap string bool) : result manifest_error (gmap string bool) :=
  match lines with
  | [] => Ok byPath
  | line :: lines =>
      match include_line line with
      | Err e => Err e
      | Ok None => include_lines lines byPath
      | Ok (Some r) => include_lines lines (add_root r byPath)
      end
  end.

Definition root_le (r1 r2 : ManifestRoot) : Prop := string_le (mr_Path r1) (mr_Path r2).
#[global] Instance root_le_dec r1 r2 : Decision (root_le r1 r2).
Proof. unfold root_le. apply _. Defined.
Definition sorted_roots (byPath : gmap string bool) : list ManifestRoot :=
  merge_sort root_le ((fun kv => mkRoot kv.1 kv.2) <$> map_to_list byPath).

Definition redundant (result : list ManifestRoot) (candidate : ManifestRoot) : bool :=
  existsb (fun r => mr_Directory r && below (mr_Path candidate) (mr_Path r)) result.
Definition without_redundant (roots : list ManifestRoot) : list ManifestRoot :=
  foldl (fun result candidate => if redundant result candidate then result else result ++ [candidate]) [] roots.

Definition parseInclude (value : string) (limits : ManifestLimits) : result manifest_error (list ManifestRoot) :=
  match manifestLines value limits with
  | Err e => Err e
  | Ok lines =>
      match include_lines lines ∅ with
      | Err e => Err e
      | Ok byPath => Ok (without_redundant (sorted_roots byPath))
      end
  end.

(** ** The snapshot *)

(** What the system says about an entry that is not a directory: [Lstat] fails; a regular file
    with its permissions, its size and what [readStableFile] gives ([None]: an error); a
    symbolic link with its target if this is portable; anything else. *)
Inductive item :=
| IUnknown
| IRegular (perm size : Z) (read : option (FileState * bool))
| ISymlink (target : option string)
| ISpecial.
Inductive entry := EItem (i : item) | EDir (children : list (string * entry)).

Inductive snapshot_error := ErrSnapshotInvalid | SnapshotUnsafePath.

Record snapshot := mkSnapshot { sn_Files : gmap string FileState; sn_Skipped : list PathSummary; sn_batchBytes : Z }.
Definition skip (path : string) (bytes : Z) (reason : string) (s : snapshot) : snapshot :=
  mkSnapshot (sn_Files s) (sn_Skipped s ++ [mkSummary path bytes reason ""]) (sn_batchBytes s).
Definition record (path : string) (state : FileState) (s : snapshot) : snapshot :=
  mkSnapshot (<[path := state]> (sn_Files s)) (sn_Skipped s) (sn_batchBytes s + fs_Bytes state).

Definition ModeSymlink : Z := Z.shiftl 1 27.

Variable hashSnapshotBytes : string -> string.
Variables MaxFileBytes MaxBatchBytes : Z.

(** The function of the walk on a managed file; [None] ends the walk with an error. *)
Definition visit (rel : string) (i : item) (s : snapshot) : option snapshot :=
  match i with
  | IUnknown => None
  | ISymlink None => Some (skip rel 0 "unsafe_symlink" s)
  | ISymlink (Some target) =>
      let state := mkState (hashSnapshotBytes ("symlink:" +:+ target)) (slen target) ModeSymlink target in
      if decide (sn_batchBytes s + fs_Bytes state > MaxBatchBytes) then Some (skip rel (fs_Bytes state) "max_batch_bytes" s)
      else Some (record rel state s)
  | ISpecial => Some (skip rel 0 "special_file" s)
  | IRegular perm size read =>
      if decide (Z.land perm 2 <> 0) then Some (skip rel size "unsafe_permissions" s)
      else if decide (size > MaxFileBytes) then Some (skip rel size "max_file_bytes" s)
      else if decide (sn_batchBytes s + size > MaxBatchBytes) then Some (skip rel size "max_batch_bytes" s)
      else match read with
           | None => None
           | Some (_, false) => Some (skip rel size "file_changing" s)
           | Some (state, true) => Some (record rel state s)
           end
  end.

Variables (exclusionRoots : list string) (m : Manifest).
Definition manages (rel : string) (isDir : bool) : bool := negb (mandatoryExcluded exclusionRoots rel) && Manages m rel isDir.
Definition mayManageDescendant (rel : string) : bool := negb (mandatoryExcluded exclusionRoots rel) && MayManageDescendant m rel.

(** [filepath.WalkDir] with the function of [takeSelectedSnapshot]. *)
Fixpoint walk (rel : list string) (e : entry) (s : snapshot) : option snapshot :=
  match e with
  | EItem i => if manages (join_path rel) false then visit (join_path rel) i s else Some s
  | EDir children =>
      if manages (join_path rel) true || mayManageDescendant (join_path rel) then
        (fix walk_all (l : list (string * entry)) (s : snapshot) : option snapshot :=
           match l with
           | [] => Some s
           | (name, e) :: l => match walk (rel ++ [name]) e s with Some s => walk_all l s | None => None end
           end) children s
      else Some s
  end.
Fixpoint walk_all (rel : list string) (l : list (string * entry)) (s : snapshot) : option snapshot :=
  match l with
  | [] => Some s
  | (name, e) :: l => match walk (rel ++ [name]) e s with Some s => walk_all rel l s | None => None end
  end.

(** The list of what was skipped, sorted by path, which [sort.Slice] gives. *)
Definition summary_le (a b : PathSummary) : Prop := string_le (ps_Path a) (ps_Path b).
#[global] Instance summary_le_dec a b : Decision (summary_le a b).
Proof. unfold summary_le. apply _. Defined.
Definition sort_skipped (s : snapshot) : snapshot := mkSnapshot (sn_Files s) (merge_sort summary_le (sn_Skipped s)) (sn_batchBytes s).

(** One root: a symbolic link on the way to it, or a root directory that is one, is refused. *)
Fixpoint validate_root (directory : bool) (parts : list string) (children : list (string * entry)) : result snapshot_error unit :=
  match parts with
  | [] => Ok tt
  | part :: parts =>
      match list_find (fun c => c.1 = part) children with
      | None => Ok tt
      | Some (_, (_, EItem IUnknown)) => Err ErrSnapshotInvalid
      | Some (_, (_, EItem (ISymlink _))) => if decide (parts <> [] \/ directory = true) then Err SnapshotUnsafePath else Ok tt
      | Some (_, (_, EItem _)) => Ok tt
      | Some (_, (_, EDir children)) => validate_root directory parts children
      end
  end.
Fixpoint validate_roots (roots : list ManifestRoot) (children : list (string * entry)) : result snapshot_error unit :=
  match roots with
  | [] => Ok tt
  | r :: roots =>
      match validate_root (mr_Directory r) (split_at "/" (mr_Path r)) children with Ok _ => validate_roots roots children | Err e => Err e end
  end.
Definition validateManifestRoots (canonical : bool) (children : list (string * entry)) : result snapshot_error unit :=
  if canonical then validate_roots (mf_Roots m) children else Err ErrSnapshotInvalid.

(** The root is an absolute, clean path ([canonical]) and a directory that no symbolic link
    leads to ([resolved]); these are its entries. *)
Definition TakeManifestSnapshot (canonical resolved : bool) (children : list (string * entry)) : result snapshot_error snapshot :=
  match validateManifestRoots canonical children with
  | Err e => Err e
  | Ok _ =>
      if negb resolved then Err ErrSnapshotInvalid
      else if decide (mf_Roots m = []) then Ok (mkSnapshot ∅ [] 0)
      else match walk_all [] children (mkSnapshot ∅ [] 0) with Some s => Ok (sort_skipped s) | None => Err ErrSnapshotInvalid end
  end.

(** ** The reference: every file of the tree, without leaving directories out *)

Fixpoint files (rel : list string) (e : entry) : list (list string * item) :=
  match e with
  | EItem i => [(rel, i)]
  | EDir children =>
      (fix files_all (l : list (string * entry)) : list (list string * item) :=
         match l with [] => [] | (name, e) :: l => files (rel ++ [name]) e ++ files_all l end) children
  end.
Fixpoint files_all (rel : list string) (l : list (string * entry)) : list (list string * item) :=
  match l with [] => [] | (name, e) :: l => files (rel ++ [name]) e ++ files_all rel l end.

Fixpoint visit_managed (l : list (list string * item)) (s : snapshot) : option snapshot :=
  match l with
  | [] => Some s
  | (rel, i) :: l =>
      if manages (join_path rel) false then match visit (join_path rel) i s with Some s => visit_managed l s | None => None end
      else visit_managed l s
  end.
End Matching.

(** ** Lemmas: paths as lists of elements *)

(** An element of a path that means the same on every system. *)
Definition portable_name (x : string) : Prop := plain x /\ no_char backslash x.
Definition portable_path (l : list string) : Prop := l <> [] /\ Forall portable_name l.

Lemma text_app s t : String.list_ascii_of_string (s +:+ t) = String.list_ascii_of_string s ++ String.list_ascii_of_string t.
Proof. induction s as [|a s IH]; [done|]. simpl. by rewrite <- IH. Qed.

Lemma text_inj s t : String.list_ascii_of_string s = String.list_ascii_of_string t -> s = t.
Proof. intros H. rewrite <- (String.string_of_list_ascii_of_string s), H. apply String.string_of_list_ascii_of_string. Qed.

Lemma HasPrefix_spec s p : HasPrefix s p = true <-> exists t, s = p +:+ t.
Proof.
  unfold HasPrefix. rewrite bool_decide_eq_true. split.
  - intros [l Hl]. exists (String.string_of_list_ascii l). apply text_inj. by rewrite text_app, String.list_ascii_of_string_of_list_ascii.
  - intros [t ->]. rewrite text_app. by exists (String.list_ascii_of_string t).
Qed.

Lemma join_cons x l : l <> [] -> join_path (x :: l) = x +:+ String "/" (join_path l).
Proof. by destruct l. Qed.

Lemma join_app l k : l <> [] -> k <> [] -> join_path (l ++ k) = join_path l +:+ String "/" (join_path k).
Proof.
  intros Hl Hk. induction l as [|x l IH]; [done|]. destruct l as [|y l]; [by apply (join_cons x k)|].
  rewrite <- app_comm_cons, !join_cons by done. rewrite IH by done. apply text_inj. rewrite !text_app. simpl. rewrite !text_app. simpl. by rewrite <- app_assoc.
Qed.

Lemma plain_no_slash l : Forall plain l -> Forall (no_char "/") l.
Proof. intros H. eapply Forall_impl; [exact H|]. unfold plain. tauto. Qed.

Lemma split_join l : l <> [] -> Forall plain l -> split_at "/" (join_path l) = l.
Proof. intros Hl H. apply split_concat; [done|by apply plain_no_slash]. Qed.

Lemma split_join_app l t : l <> [] -> Forall plain l -> split_at "/" (join_path l +:+ String "/" t) = l ++ split_at "/" t.
Proof.
  intros Hl H. induction H as [|x l Hx H IH]; [done|]. destruct l as [|y l].
  - simpl join_path. rewrite split_at_app by apply Hx. done.
  - rewrite join_cons by done. assert ((x +:+ String "/" (join_path (y :: l))) +:+ String "/" t = x +:+ String "/" (join_path (y :: l) +:+ String "/" t)) as ->.
    { apply text_inj. rewrite !text_app. simpl. rewrite text_app. simpl. by rewrite <- app_assoc. }
    rewrite split_at_app by apply Hx. rewrite IH by done. done.
Qed.

Lemma join_inj l k : l <> [] -> k <> [] -> Forall plain l -> Forall plain k -> join_path l = join_path k -> l = k.
Proof. intros Hl Hk H1 H2 E. rewrite <- (split_join l), E by done. by apply split_join. Qed.

(** One path is below another exactly when its elements go on from those of the other. *)
Lemma below_spec l k : l <> [] -> k <> [] -> Forall plain l -> Forall plain k ->
  below (join_path l) (join_path k) = true <-> exists x r, l = k ++ x :: r.
Proof.
  intros Hl Hk H1 H2. unfold below. rewrite HasPrefix_spec. split.
  - intros [t E]. assert (join_path l = join_path k +:+ String "/" t) as E2.
    { rewrite E. apply text_inj. rewrite !text_app. simpl. by rewrite <- app_assoc. }
    assert (l = k ++ split_at "/" t) as ->; [rewrite <- (split_join l), E2 by done; by apply split_join_app|].
    destruct (split_at "/" t) as [|x r] eqn:Es; [by destruct (split_at_nonempty "/" t)|]. by exists x, r.
  - intros (x & r & ->). exists (join_path (x :: r)). rewrite join_app by done. apply text_inj. rewrite !text_app. simpl. by rewrite <- app_assoc.
Qed.

Lemma below_trans s t u : below s t = true -> below t u = true -> below s u = true.
Proof.
  unfold below. rewrite !HasPrefix_spec. intros [a ->] [b ->]. exists (b +:+ "/" +:+ a). apply text_inj. rewrite !text_app. simpl. by rewrite <- !app_assoc.
Qed.

(** Cleaning a relative path. *)
Lemma rel_clean_plain l : forall acc, Forall plain l -> rel_clean l acc = rev acc ++ l.
Proof.
  induction l as [|x l IH]; intros acc H; simpl; [by rewrite app_nil_r|]. apply Forall_cons in H as [(H1 & H2 & H3 & _) H].
  rewrite decide_False by tauto. rewrite decide_False by done. rewrite IH by done. simpl. by rewrite <- app_assoc.
Qed.

Lemma is_abs_join l : l <> [] -> Forall plain l -> is_abs (join_path l) = false.
Proof.
  intros Hl H. destruct l as [|x l]; [done|]. apply Forall_cons in H as [(H1 & _ & _ & H4) _]. unfold is_abs. apply bool_decide_eq_false.
  assert (exists a t, join_path (x :: l) = String a t /\ a <> "/"%char) as (a & t & -> & Ha); [|simpl; congruence].
  destruct x as [|a x]; [done|]. assert (a <> "/"%char) by (unfold no_char in H4; simpl in H4; set_solver).
  destruct l; [by exists a, x|]. by exists a, (x +:+ String "/" (join_path (s :: l))).
Qed.

Lemma path_Clean_join l : l <> [] -> Forall plain l -> path_Clean (join_path l) = join_path l.
Proof.
  intros Hl H. unfold path_Clean, clean_relative. rewrite is_abs_join by done. rewrite split_join by done. rewrite rel_clean_plain by done. simpl. by destruct l.
Qed.

Lemma contains_join a l : a <> "/"%char -> contains_char a (join_path l) = existsb (contains_char a) l.
Proof.
  intros Ha. induction l as [|x l IH]; [done|]. destruct l as [|y l].
  - simpl. by rewrite orb_false_r.
  - rewrite join_cons by done. change (existsb (contains_char a) (x :: y :: l)) with (contains_char a x || existsb (contains_char a) (y :: l)). rewrite <- IH. unfold contains_char. rewrite text_app. simpl.
    destruct (bool_decide (a ∈ String.list_ascii_of_string x)) eqn:E1; simpl; [apply bool_decide_eq_true in E1; apply bool_decide_eq_true; set_solver|].
    apply bool_decide_eq_false in E1. apply bool_decide_ext. set_solver.
Qed.

Lemma to_slashes_id s : contains_char backslash s = false -> to_slashes s = s.
Proof.
  intros H%bool_decide_eq_false. unfold to_slashes. transitivity (String.string_of_list_ascii (String.list_ascii_of_string s)); [|apply String.string_of_list_ascii_of_string].
  f_equal. rewrite <- (list_fmap_id (String.list_ascii_of_string s)) at 2. apply list_fmap_ext. intros i a Hi. simpl.
  rewrite decide_False; [done|]. intros ->. apply H. by apply list_elem_of_lookup_2 in Hi.
Qed.

Lemma portable_plain l : Forall portable_name l -> Forall plain l.
Proof. intros H. eapply Forall_impl; [exact H|]. by intros x [? _]. Qed.

Lemma clean_portable l : portable_path l -> path_Clean (to_slashes (join_path l)) = join_path l.
Proof.
  intros [Hl H]. rewrite to_slashes_id; [by apply path_Clean_join; [|apply portable_plain]|]. rewrite contains_join by done.
  apply not_true_is_false. intros (x & Hx & Hc)%existsb_exists. apply list_elem_of_In in Hx. rewrite Forall_forall in H. destruct (H x Hx) as [_ Hn].
  apply bool_decide_eq_true in Hc. done.
Qed.

(** What cleaning leaves: leading "..", and plain elements. *)
Lemma rel_clean_form l : forall acc n k, Forall (no_char "/") l -> rev acc = replicate n ".." ++ k -> Forall plain k ->
  exists n' k', rel_clean l acc = replicate n' ".." ++ k' /\ Forall plain k'.
Proof.
  induction l as [|x l IH]; intros acc n k Hl Hacc Hk; simpl; [by exists n, k|]. apply Forall_cons in Hl as [Hx Hl].
  case_decide as H1; [by eapply IH|]. case_decide as H2.
  - subst x. destruct acc as [|y acc].
    + apply (IH [".."] 1%nat []); [done|done|constructor].
    + simpl in Hacc. destruct k as [|z k] using rev_ind.
      * rewrite app_nil_r in Hacc. destruct n as [|n]; [by destruct (rev acc)|].
        rewrite replicate_S_end in Hacc. apply app_inj_tail in Hacc as [Ha ->]. rewrite decide_True by done.
        apply (IH (".." :: ".." :: acc) (S (S n)) []); [done| |constructor].
        rewrite app_nil_r, !replicate_S_end. simpl. by rewrite Ha.
      * rewrite app_assoc in Hacc. apply app_inj_tail in Hacc as [Ha ->]. apply Forall_app in Hk as [Hk Hz]. apply Forall_singleton in Hz as (_ & _ & Hz & _).
        rewrite decide_False by done. by eapply IH.
  - apply (IH (x :: acc) n (k ++ [x])); [done|simpl; rewrite Hacc; by rewrite app_assoc|]. apply Forall_app. split; [done|]. apply Forall_singleton. unfold plain. tauto.
Qed.

Lemma safe_form p : safeManifestPath p = true -> p <> "." -> exists l, l <> [] /\ Forall plain l /\ p = join_path l.
Proof.
  intros [(H1 & H2 & H3 & _ & _ & H6 & H7 & _)%bool_decide_eq_true _]%andb_true_iff Hdot.
  unfold path_Clean, clean_relative in H2. rewrite H3 in H2.
  destruct (rel_clean_form (split_at "/" p) [] 0%nat []) as (n & k & E & Hk); [|done|constructor|].
  { apply Forall_forall. intros x. apply split_at_plain. }
  rewrite E in H2. destruct n as [|n].
  - simpl in H2. destruct k as [|x k]; [done|]. by exists (x :: k).
  - exfalso. simpl in H2. destruct (replicate n ".." ++ k) as [|y r] eqn:Er; [done|].
    assert (HasPrefix p "../" = true); [|congruence]. apply HasPrefix_spec. exists (join_path (y :: r)). rewrite H2. done.
Qed.

(** Elements before others in a path: the first ones of a safe path are safe. *)
Lemma safe_above l k : portable_path l -> Forall plain k -> safeManifestPath (join_path (l ++ k)) = true -> safeManifestPath (join_path l) = true.
Proof.
  intros [Hl Hp] Hk [(_ & _ & _ & _ & Hnul & _)%bool_decide_eq_true Hcolon]%andb_true_iff. pose proof (portable_plain l Hp) as Hpl.
  assert (l ++ k <> []) as Hlk by (by destruct l). unfold safeManifestPath. rewrite split_join in Hcolon |- * by (done || by apply Forall_app).
  apply andb_true_iff. split; [|by destruct l]. apply bool_decide_eq_true.
  assert (forall x, x ∈ l -> x <> "..") as Hdots by (intros x Hx; rewrite Forall_forall in Hpl; by destruct (Hpl x Hx) as (_ & _ & ? & _)).
  split_and!.
  - destruct l as [|[|a x] l]; [done|by apply Forall_cons in Hpl as [[? _] _]|]. by destruct l.
  - by rewrite path_Clean_join.
  - by apply is_abs_join.
  - rewrite contains_join by done. apply not_true_is_false. intros (x & Hx & Hc)%existsb_exists. apply list_elem_of_In in Hx. rewrite Forall_forall in Hp.
    destruct (Hp x Hx) as [_ Hn]. by apply bool_decide_eq_true in Hc.
  - rewrite contains_join in Hnul |- * by done. rewrite existsb_app in Hnul. by apply orb_false_iff in Hnul as [? _].
  - intros E. assert (l = [".."]) as ->; [|by apply (Hdots ".."); [left|]]. rewrite <- (split_join l), E by done. done.
  - apply not_true_is_false. intros [t E]%HasPrefix_spec. assert (".." ∈ l) as Hin; [|by apply (Hdots "..")].
    rewrite <- (split_join l), E by done. simpl. destruct (split_at "/" t); left.
  - intros Hin. apply (Hdots ".."); [|done]. destruct l as [|x l]; [done|]. right.
    destruct l as [|y l] using rev_ind; [done|]. rewrite app_comm_cons, removelast_last in Hin. set_solver.
Qed.

(** What is below an excluded path is excluded. *)
Lemma excluded_below doublestar ex l k : l <> [] -> k <> [] -> Forall plain l -> Forall plain k ->
  mandatoryExcluded doublestar ex (join_path l) = true -> mandatoryExcluded doublestar ex (join_path (l ++ k)) = true.
Proof.
  intros Hl Hk H1 H2. assert (Forall plain (l ++ k)) as H12 by (by apply Forall_app). assert (l ++ k <> []) as Hlk by (by destruct l).
  assert (below (join_path (l ++ k)) (join_path l) = true) as Hb.
  { apply below_spec; [done..|]. destruct k as [|x r]; [done|]. by exists x, r. }
  unfold mandatoryExcluded. cbv zeta. rewrite !path_Clean_join by done. case_decide as Hd.
  { exfalso. destruct l as [|x l]; [done|]. pose proof H1 as Hx. apply Forall_cons in Hx as [(P1 & P2 & P3 & P4) _]. destruct Hd as [Hd|[Hd|Hd]].
    - assert (x :: l = ["."]) as E; [|by simplify_eq]. rewrite <- (split_join (x :: l)), Hd by done. done.
    - apply HasPrefix_spec in Hd as [t Hd]. assert (exists r, x :: l = ".." :: r) as [r E]; [|by simplify_eq]. exists (split_at "/" t).
      rewrite <- (split_join (x :: l)), Hd by done. done.
    - pose proof (is_abs_join (x :: l) Hl H1) as Ha. apply HasPrefix_spec in Hd as [t Hd]. rewrite Hd in Ha. done. }
  intros H. case_decide; [done|]. apply orb_true_iff in H. apply orb_true_iff. destruct H as [H|H].
  - left. apply existsb_exists in H as (root & Hin & [Hr Hm]%andb_true_iff). apply existsb_exists. exists root. split; [done|]. apply andb_true_iff. split; [done|].
    apply orb_true_iff. right. apply orb_true_iff in Hm as [Hm|Hm]; [apply bool_decide_eq_true in Hm; by rewrite <- Hm|]. by eapply below_trans.
  - right. apply existsb_exists in H as (pattern & Hin & Hm). apply existsb_exists. exists pattern. split; [done|].
    apply existsb_exists in Hm as (c & Hc & Hm). apply existsb_exists. exists c. split; [|done]. unfold and_above in *. rewrite split_join in Hc |- * by done.
    apply list_elem_of_In in Hc. apply list_elem_of_In. rewrite elem_of_rev in Hc |- *. apply list_elem_of_fmap in Hc as (n & -> & Hn). apply elem_of_seq in Hn.
    apply list_elem_of_fmap. exists n. split; [by rewrite take_app_le by lia|]. apply elem_of_seq. rewrite length_app. lia.
Qed.

(** ** The walk *)

Lemma entry_ind' (P : entry -> Prop) :
  (forall i, P (EItem i)) -> (forall children, Forall (fun c => P c.2) children -> P (EDir children)) -> forall e, P e.
Proof.
  intros Hi Hd. fix IH 1. intros [i|children]; [apply Hi|]. apply Hd. induction children as [|[name e] children IHc]; constructor; [apply IH|exact IHc].
Qed.

(** A tree with portable names. *)
Fixpoint portable (e : entry) : Prop :=
  match e with
  | EItem _ => True
  | EDir children =>
      (fix all (l : list (string * entry)) : Prop := match l with [] => True | (name, e) :: l => portable_name name /\ portable e /\ all l end) children
  end.
Fixpoint portable_all (l : list (string * entry)) : Prop :=
  match l with [] => True | (name, e) :: l => portable_name name /\ portable e /\ portable_all l end.

(** A root as [parseInclude] makes it, where a file lies in the home directory itself. *)
Definition root_ok (r : ManifestRoot) : Prop :=
  safeManifestPath (mr_Path r) = true /\ mr_Path r <> "." /\ (mr_Directory r = false -> exists x, split_at "/" (mr_Path r) = [x]).

Section Walk.
Variables (doublestar : string -> string -> bool) (hash : string -> string) (MaxFileBytes MaxBatchBytes : Z) (exclusionRoots : list string) (m : Manifest).
Hypothesis Hroots : Forall root_ok (mf_Roots m).

Abbreviation manages := (manages doublestar exclusionRoots m).
Abbreviation may := (mayManageDescendant doublestar exclusionRoots m).
Abbreviation walk := (walk doublestar hash MaxFileBytes MaxBatchBytes exclusionRoots m).
Abbreviation walk_all := (walk_all doublestar hash MaxFileBytes MaxBatchBytes exclusionRoots m).
Abbreviation visit_managed := (visit_managed doublestar hash MaxFileBytes MaxBatchBytes exclusionRoots m).

(** A directory above a managed file may manage a descendant. *)
Lemma managed_above l k : portable_path l -> k <> [] -> Forall portable_name k -> manages (join_path (l ++ k)) false = true -> may (join_path l) = true.
Proof.
  intros Hl Hk Hpk [Hex Hm]%andb_true_iff. pose proof Hl as [Hne Hpl%portable_plain]. pose proof (portable_plain k Hpk) as Hpk'.
  assert (portable_path (l ++ k)) as Hlk by (split; [by destruct l|apply Forall_app; by destruct Hl]).
  assert (forall ex, mandatoryExcluded doublestar ex (join_path (l ++ k)) = false -> mandatoryExcluded doublestar ex (join_path l) = false) as Hup.
  { intros ex He. apply not_true_is_false. intros Ht. by rewrite (excluded_below doublestar ex l k) in He. }
  apply andb_true_iff. split; [apply negb_true_iff, Hup; by apply negb_true_iff|].
  unfold Manages in Hm. unfold MayManageDescendant. cbv zeta in Hm |- *. rewrite clean_portable in Hm |- * by done.
  case_decide as Hd; [done|]. rewrite decide_False.
  2:{ intros [Hx|[Hx|Hx]].
      - assert (l = ["."]) as ->; [|apply Forall_singleton in Hpl as (_ & ? & _); done]. rewrite <- (split_join l), Hx by done. done.
      - rewrite (safe_above l k) in Hx; [done|done|done|]. destruct (safeManifestPath (join_path (l ++ k))); [done|tauto].
      - apply Hd. right. right. unfold manifestHardExcluded in *. rewrite path_Clean_join in Hx |- * by (done || by destruct Hlk as [? ?%portable_plain]).
        by apply excluded_below. }
  destruct (existsb (selected (join_path (l ++ k))) (mf_Roots m)) eqn:Es; [|done]. apply existsb_exists in Es as (r & Hr & Hsel). apply existsb_exists. exists r. split; [done|].
  apply list_elem_of_In in Hr. rewrite Forall_forall in Hroots. destruct (Hroots r Hr) as (Hsafe & Hdot & Htop). destruct (safe_form _ Hsafe Hdot) as (p & Hp & Hpp & Ep).
  destruct Hlk as [Hlkne Hlkp%portable_plain]. unfold selected in Hsel. rewrite Ep in Hsel, Htop |- *.
  assert (mr_Directory r = true /\ p `prefix_of` l ++ k) as [-> Hpre].
  { apply orb_true_iff in Hsel as [Hsel|[Hdir Hb]%andb_true_iff].
    - apply bool_decide_eq_true, join_inj in Hsel; [|done..]. subst p. destruct (mr_Directory r); [done|]. destruct (Htop eq_refl) as [x Hx].
      rewrite split_join in Hx by done. apply (f_equal length) in Hx. rewrite length_app in Hx. destruct l, k; simpl in Hx; (done || lia).
    - split; [done|]. apply below_spec in Hb as (x & q & ->); [|done..]. by exists (x :: q). }
  simpl. assert (p `prefix_of` l \/ l `prefix_of` p) as Hcmp.
  { destruct Hpre as [q Hq]. destruct (decide (length p <= length l)%nat); [left|right].
    - exists (drop (length p) l). rewrite <- (take_drop (length p) l) at 1. f_equal. apply (f_equal (take (length p))) in Hq. rewrite take_app_length in Hq. by rewrite take_app_le in Hq.
    - exists (drop (length l) p). rewrite <- (take_drop (length l) p) at 1. f_equal. apply (f_equal (take (length l))) in Hq. rewrite take_app_length in Hq. rewrite take_app_le in Hq by lia. done. }
  destruct Hcmp as [[q Hq]|[q Hq]]; destruct q as [|x q].
  - rewrite app_nil_r in Hq. subst l. by rewrite bool_decide_eq_true_2.
  - apply orb_true_iff. right. apply below_spec; [done..|]. by exists x, q.
  - rewrite app_nil_r in Hq. subst l. by rewrite bool_decide_eq_true_2.
  - apply orb_true_iff. left. apply orb_true_iff. right. apply below_spec; [done..|]. by exists x, q.
Qed.

Lemma visit_managed_app l1 l2 s :
  visit_managed (l1 ++ l2) s = match visit_managed l1 s with Some s => visit_managed l2 s | None => None end.
Proof. revert s. induction l1 as [|[rel i] l1 IH]; intros s; [done|]. simpl. destruct (manages _ _); [|apply IH]. by destruct (visit _ _ _ _ _ _). Qed.

Lemma files_below e : forall rel, portable e -> Forall (fun f => exists k, f.1 = rel ++ k /\ Forall portable_name k /\ (match e with EDir _ => k <> [] | _ => True end)) (files rel e).
Proof.
  induction e as [i|children IH] using entry_ind'; intros rel He.
  { simpl. constructor; [|constructor]. exists []. by rewrite app_nil_r. }
  simpl in He |- *. induction IH as [|[name e] children Hc _ IHc]; [constructor|]. destruct He as (Hn & Hpe & Hrest). apply Forall_app. split; [|by apply IHc].
  specialize (Hc (rel ++ [name]) Hpe). eapply Forall_impl; [exact Hc|]. simpl. intros f (k & E & Hk & _). exists (name :: k). rewrite E, <- app_assoc.
  split; [done|]. split; [by constructor|done].
Qed.

(** A directory that the walk leaves out holds nothing managed. *)
Lemma pruned rel children : portable_path rel -> portable (EDir children) -> may (join_path rel) = false ->
  forall s, visit_managed (files rel (EDir children)) s = Some s.
Proof.
  intros Hrel Hp Hmay. pose proof (files_below (EDir children) rel Hp) as Hf. induction Hf as [|[f i] l (k & Ef & Hk & Hne) _ IH]; intros s; [done|].
  simpl. simpl in Ef. subst f. destruct (manages (join_path (rel ++ k)) false) eqn:E; [|apply IH]. by rewrite (managed_above rel k) in Hmay.
Qed.

Lemma walk_exact e : forall rel, portable_path rel -> portable e -> forall s, walk rel e s = visit_managed (files rel e) s.
Proof.
  induction e as [i|children IH] using entry_ind'; intros rel Hrel He s.
  { simpl. destruct (manages _ _); [|done]. by destruct (visit _ _ _ _ _ _). }
  destruct (manages (join_path rel) true || may (join_path rel)) eqn:Hgo.
  2:{ apply orb_false_iff in Hgo as Hm. rewrite (pruned rel children) by tauto. simpl. by rewrite Hgo. }
  simpl. rewrite Hgo. clear Hgo. simpl in He. revert s. induction IH as [|[name e] children Hc _ IHc]; intros s; [done|]. destruct He as (Hn & Hpe & Hrest).
  rewrite visit_managed_app. simpl in Hc. rewrite Hc; [|split; [by destruct rel|apply Forall_app; split; [apply Hrel|by constructor]]|done].
  destruct (visit_managed _ s) as [s1|]; [|done]. by apply IHc.
Qed.

Lemma walk_all_exact children : portable_all children -> forall s, walk_all [] children s = visit_managed (files_all [] children) s.
Proof.
  induction children as [|[name e] children IH]; intros Hp s; [done|]. destruct Hp as (Hn & Hpe & Hrest). simpl. rewrite visit_managed_app.
  rewrite walk_exact; [|split; [done|by constructor]|done]. destruct (visit_managed _ s) as [s1|]; [|done]. by apply IH.
Qed.
End Walk.

(** ** The roots of an include file *)

Definition good_path (p : string) : Prop := safeManifestPath p = true /\ p <> ".".

Lemma include_line_good doublestar line r : include_line doublestar line = Ok (Some r) -> good_path (mr_Path r).
Proof.
  unfold include_line. cbv zeta. case_decide as H1; [done|]. set (t := if HasSuffix _ "/" then _ else _). case_decide as H2; [done|].
  destruct (manifestHardExcluded doublestar t) eqn:H3; [done|]. intros [= <-]. simpl. split; [destruct (safeManifestPath t); tauto|].
  intros E. rewrite E in H3. done.
Qed.

Lemma add_root_good (P : string -> Prop) r byPath : P (mr_Path r) -> (forall p d, byPath !! p = Some d -> P p) ->
  forall p d, add_root r byPath !! p = Some d -> P p.
Proof.
  intros Hr Hmap p d. unfold add_root. destruct (byPath !! mr_Path r) as [previous|].
  - destruct (mr_Directory r && negb previous); [|apply Hmap]. rewrite lookup_insert_Some. intros [[<- _]|[_ H]]; [done|by eapply Hmap].
  - rewrite lookup_insert_Some. intros [[<- _]|[_ H]]; [done|by eapply Hmap].
Qed.

Lemma include_lines_good doublestar lines : forall byPath byPath', include_lines doublestar lines byPath = Ok byPath' ->
  (forall p d, byPath !! p = Some d -> good_path p) -> forall p d, byPath' !! p = Some d -> good_path p.
Proof.
  induction lines as [|line lines IH]; intros byPath byPath' H Hmap; simpl in H; [by simplify_eq|].
  destruct (include_line doublestar line) as [[r|]|e] eqn:E; [|by eapply IH|done]. eapply IH; [exact H|]. apply add_root_good; [|done].
  by eapply include_line_good.
Qed.

Lemma without_redundant_snoc roots c :
  without_redundant (roots ++ [c]) = if redundant (without_redundant roots) c then without_redundant roots else without_redundant roots ++ [c].
Proof. unfold without_redundant. by rewrite foldl_app. Qed.

Lemma without_redundant_sub roots : without_redundant roots `sublist_of` roots.
Proof.
  induction roots as [|c roots IH] using rev_ind; [done|]. rewrite without_redundant_snoc. destruct (redundant _ c).
  - by apply sublist_inserts_r.
  - by apply sublist_app.
Qed.

Lemma elem_sorted_roots r byPath : r ∈ sorted_roots byPath <-> byPath !! mr_Path r = Some (mr_Directory r).
Proof.
  unfold sorted_roots. rewrite merge_sort_Permutation, list_elem_of_fmap. split.
  - by intros ([p d] & -> & H%elem_of_map_to_list).
  - intros H. exists (mr_Path r, mr_Directory r). split; [by destruct r|by apply elem_of_map_to_list].
Qed.

Lemma parseInclude_good doublestar value limits roots : parseInclude doublestar value limits = Ok roots -> Forall (fun r => good_path (mr_Path r)) roots.
Proof.
  unfold parseInclude. destruct (manifestLines value limits) as [lines|]; [|done]. destruct (include_lines doublestar lines ∅) as [byPath|] eqn:E; [|done].
  intros [= <-]. apply Forall_forall. intros r Hr. eapply elem_of_sublist in Hr; [|apply without_redundant_sub]; apply elem_sorted_roots in Hr.
  by eapply include_lines_good; [exact E|intros p d; rewrite lookup_empty|exact Hr].
Qed.

(** What the lines of the file name, one by one. *)
Definition line_roots (doublestar : string -> string -> bool) (lines : list string) : list ManifestRoot :=
  omap (fun line => match include_line doublestar line with Ok (Some r) => Some r | _ => None end) lines.

Abbreviation covers name l := (exists r, r ∈ l /\ selected name r = true).

Lemma selected_by_redundant result c name : redundant result c = true -> selected name c = true -> covers name result.
Proof.
  intros (r & Hr & [Hd Hb]%andb_true_iff)%existsb_exists H. exists r. split; [by apply list_elem_of_In|]. unfold selected in *. rewrite Hd.
  apply orb_true_iff. right. simpl. apply orb_true_iff in H as [->%bool_decide_eq_true|[_ H]%andb_true_iff]; [done|by eapply below_trans].
Qed.

Lemma without_redundant_covers roots name : covers name (without_redundant roots) <-> covers name roots.
Proof.
  split; [intros (r & Hr & H); exists r; split; [|done]; by eapply elem_of_sublist; [exact Hr|apply without_redundant_sub]|].
  induction roots as [|c roots IH] using rev_ind; intros (r & Hr & H); [by apply not_elem_of_nil in Hr|]. rewrite without_redundant_snoc.
  apply elem_of_app in Hr as [Hr|Hr%list_elem_of_singleton].
  - destruct IH as (r' & Hr' & H'); [by exists r|]. destruct (redundant _ c); exists r'; set_solver.
  - subst r. destruct (redundant _ c) eqn:E; [by eapply selected_by_redundant|]. exists c. set_solver.
Qed.

Definition map_covers (name : string) (byPath : gmap string bool) : Prop := exists p d, byPath !! p = Some d /\ selected name (mkRoot p d) = true.

Lemma selected_mono name p d : selected name (mkRoot p d) = true -> selected name (mkRoot p true) = true.
Proof. unfold selected. simpl. destruct d; [done|]. rewrite orb_false_r. by intros ->. Qed.

Lemma add_root_covers name r byPath : map_covers name (add_root r byPath) <-> selected name r = true \/ map_covers name byPath.
Proof.
  destruct r as [p d]. unfold map_covers, add_root. simpl. destruct (byPath !! p) as [previous|] eqn:E; [destruct (d && negb previous) eqn:Ed|].
  - apply andb_true_iff in Ed as [-> ->%negb_true_iff]. split.
    + intros (q & e & [[<- <-]|[Hne H]]%lookup_insert_Some & Hs); [by left|right; by exists q, e].
    + intros [Hs|(q & e & H & Hs)]; [exists p, true; by rewrite lookup_insert_eq|]. destruct (decide (q = p)) as [->|Hne].
      * exists p, true. rewrite lookup_insert_eq. split; [done|by eapply selected_mono].
      * exists q, e. by rewrite lookup_insert_ne by done.
  - split; [by right|]. intros [Hs|H]; [|done]. exists p, previous. split; [done|]. destruct previous; [by eapply selected_mono|by destruct d].
  - split.
    + intros (q & e & [[<- <-]|[Hne H]]%lookup_insert_Some & Hs); [by left|right; by exists q, e].
    + intros [Hs|(q & e & H & Hs)]; [exists p, d; by rewrite lookup_insert_eq|]. exists q, e. rewrite lookup_insert_ne by congruence. done.
Qed.

Lemma include_lines_covers doublestar name lines : forall byPath byPath', include_lines doublestar lines byPath = Ok byPath' ->
  map_covers name byPath' <-> map_covers name byPath \/ covers name (line_roots doublestar lines).
Proof.
  induction lines as [|line lines IH]; intros byPath byPath' H; simpl in H.
  { simplify_eq. split; [by left|]. by intros [?|(r & Hr%not_elem_of_nil & _)]. }
  unfold line_roots in *. simpl. destruct (include_line doublestar line) as [[r|]|e] eqn:E; [|by apply IH|done].
  rewrite (IH _ _ H), add_root_covers. clear. set_solver.
Qed.

Lemma parseInclude_covers doublestar value limits lines roots name :
  manifestLines value limits = Ok lines -> parseInclude doublestar value limits = Ok roots ->
  covers name roots <-> covers name (line_roots doublestar lines).
Proof.
  intros Hl. unfold parseInclude. rewrite Hl. destruct (include_lines doublestar lines ∅) as [byPath|] eqn:E; [|done]. intros [= <-].
  rewrite without_redundant_covers. pose proof (include_lines_covers doublestar name lines _ _ E) as H.
  assert (~ map_covers name ∅) as He by (intros (p & d & Hp & _); by rewrite lookup_empty in Hp).
  transitivity (map_covers name byPath); [|tauto]. unfold map_covers. split.
  - intros (r & Hr%elem_sorted_roots & Hs). exists (mr_Path r), (mr_Directory r). split; [done|by destruct r].
  - intros (p & d & Hp & Hs). exists (mkRoot p d). split; [by apply elem_sorted_roots|done].
Qed.

Lemma nothing_managed doublestar hash F B ex patterns l s : visit_managed doublestar hash F B ex (mkManifest [] patterns) l s = Some s.
Proof.
  revert s. induction l as [|[rel i] l IH]; intros s; [done|]. simpl. assert (manages doublestar ex (mkManifest [] patterns) (join_path rel) false = false) as ->; [|apply IH].
  unfold manages, Manages. cbv zeta. case_decide; by rewrite andb_false_r.
Qed.


(** A small home directory. *)
Module Demo.
Definition star (pattern path : string) : bool := bool_decide (pattern = path).
Definition limits := mkLimits 262144 4096 1024.
Definition nl : string := String LF "".
Definition include : string := ".gitconfig" +:+ nl +:+ ".config/tool/" +:+ nl +:+ ".config/tool/theme" +:+ nl.
Definition file (h : string) : entry := EItem (IRegular 420 3 (Some (mkState h 3 420 "", true))).
Definition home : list (string * entry) :=
  [(".config", EDir [("other", EDir [("x", file "a")]); ("tool", EDir [("big", EItem (IRegular 420 900 None)); ("theme", file "b")])]);
   (".gitconfig", file "c"); (".ssh", EDir [("id", file "d")])].
Definition roots : list ManifestRoot := [mkRoot ".config/tool" true; mkRoot ".gitconfig" false].
Definition taken (value : string) : result snapshot_error snapshot :=
  match parseInclude star value limits with
  | Ok roots => TakeManifestSnapshot star (fun s => s) 100 1000 [] (mkManifest roots []) true true home
  | Err _ => Err SnapshotUnsafePath
  end.
End Demo.


(** A single file below a directory is managed, and its snapshot leaves its directory out:
    [MayManageDescendant] looks at directory roots only. *)
Example nested_file_not_captured :
  match parseInclude Demo.star ".config/other/x" Demo.limits with
  | Ok roots => manages Demo.star [] (mkManifest roots []) ".config/other/x" false
  | Err _ => false
  end = true /\
  Demo.taken ".config/other/x" = Ok (mkSnapshot ∅ [] 0).
Proof. split; vm_compute; reflexivity. Qed.
